(* ===== verification/_CoqProject ===== *)
-Q . S2P
Prelude.v
GoBytes.v
GoText.v
Types.v
RawEvents.v
DnsWire.v
GoRing.v
RateLimiter.v
EventBuffer.v
ShardedMaps.v
Aggregator.v
Incidents.v
Delivery.v
MemStore.v
Fields.v
RuleTypes.v
Sampler.v
Rules.v
RuleLoader.v
LruHeap.v
Profiles.v
Allowlist.v
Lineage.v
Feedback.v
TraceCtx.v
Engine.v
EngineCorrect.v
IngestPool.v
Ja3.v
Enforcer.v
Autolearn.v
Falco.v
FalcoCorrect.v
Gossip.v
GossipNet.v
BatchStore.v
AlertSummary.v
GoFloat.v
Sampling.v
Arbiter.v
Pressure.v
MemPressure.v
Watchdog.v
HttpMux.v
Auth.v
Cef.v
Api.v
ApiCorrect.v
Cardinality.v
