(* ===== verification/Prelude.v ===== *)
(** * ebpf-guard: a verification development

    ebpf-guard is a host security agent. Kernel programs (bpf/) write raw
    records to ring buffers; the agent decodes them into one event type,
    evaluates detection rules on each event, and turns matches into alerts
    that are rate limited, deduplicated, aggregated, grouped into incidents,
    stored and delivered. This library models those parts of the Go code as
    executable functions and proves what makes each of them correct. All paths
    below are under src/.

    ** Parts and files

    - [Prelude] (this file): results of fallible functions ([Ok], [Err],
      [Panic]), machine integers with their wrap-around, [time.Time] and
      saturating [Sub], bytes and strings, the shared list lemmas, tactics and
      the hint database [guard].
    - [GoBytes]: byte slices with length and capacity, indexing and slicing
      with their panics, [copy], [encoding/binary]; [BytesToString] of
      internal/util/bytes.go.
    - [GoRing]: slices of values and the reading of a circular buffer as the
      list of its entries; used by the rate limiter, the event buffer and the
      fallback queue.
    - [Types]: pkg/types (events, alerts, incidents, event type names).
    - [RawEvents]: internal/bpf/events.go, every decoder of a kernel record and
      every conversion to the unified event, against the C record layouts.
    - [DnsWire]: internal/collector/dns_parse.go.
    - [RateLimiter], [EventBuffer], [ShardedMaps], [Aggregator], [Incidents]:
      ratelimiter.go, sharded_buffer.go, sharded_maps.go, aggregator.go and
      incident.go of internal/correlator.
    - [Delivery]: internal/exporter/alertmanager_circuit.go (modules [Circuit]
      and [Fallback]) and silencer.go (module [Silencer]).
    - [MemStore]: internal/store/memory.go.
    - [Fields], [RuleTypes], [Sampler], [Rules]: rules.go and sampler.go of
      internal/correlator: event fields, rule data, per-rule sampling, and the
      engine that compiles and evaluates rules.
    - [RuleLoader]: rule_loader.go and tuning_overlay.go of
      internal/correlator, and [loadRulesWithTuning] of cmd/ebpf-guard.
    - [LruHeap], [Profiles], [Allowlist], [Lineage]: lru_heap.go, profile.go
      and workload.go, driftbaseline.go (module [Drift]), allowlist.go and
      lineage.go of internal/profiler.
    - [Feedback]: internal/feedback/manager.go. [TraceCtx]:
      internal/correlator/trace_extractor.go.
    - [Engine], [EngineCorrect]: internal/correlator/engine.go, the ingest
      pipeline in a state monad over the record of its components, and its
      theorems. [IngestPool]: the worker pool of the same file as a step
      relation.
    - [GoText]: package strings on lists of characters. [Ja3]:
      internal/ja3/ja3.go. [Enforcer]: internal/enforcer (enforcer.go, kill.go,
      lsm.go and what these call of nftables.go, iptables.go and xdp.go).
    - [Autolearn]: internal/autolearn. [Falco], [FalcoCorrect]: the Falco
      importer of internal/migration and its theorems.
    - [Gossip], [GossipNet]: internal/gossip, the node and the cluster.
    - [BatchStore], [AlertSummary]: batching.go, and summary.go with
      [Summarize] of memory.go, of internal/store.
    - [GoFloat]: [float64] as IEEE 754 binary64 (the Standard Library's
      [SpecFloat]). [Sampling]: internal/bpf/sampling.go. [Arbiter]:
      internal/watchdog/multibpf.go with [enableSampling] of cmd/ebpf-guard.
      [Pressure]: internal/watchdog/cpu.go (module [Cpu]), and its composition
      with the arbiter. [MemPressure]: internal/watchdog/memory.go (module
      [Mem]) and internal/bpf/adaptive_ringbuf.go (module [Ring]). [Watchdog]:
      internal/watchdog/watchdog.go and internal/bpf/attestation.go.
    - [HttpMux]: the path decoding and the router of net/http that the server
      uses. [Auth]: internal/exporter/server_auth.go. [Cef]: the CEF lines of
      api.go and syslog_cef.go. [Api], [ApiCorrect]: server.go, api.go,
      tuning.go and health.go of internal/exporter with the token set-up of
      cmd/ebpf-guard, and their theorems. [Cardinality]: the label limiter of
      cardinality.go and the counters of prometheus.go behind it.

    State is a record per component and an operation is a function on it that
    takes the current time as an argument where the code calls [time.Now].
    Methods run under a mutex, or on data that is written once before it is
    published, so an execution is a sequence of operations; where goroutines
    share channels ([IngestPool], [BatchStore]) or nodes exchange messages
    ([GossipNet]) it is a path of a step relation. Pointers shared between
    maps are modelled with a heap ([Incidents]). Code that can panic returns a
    [result].

    ** How the parts interact

    [IngestPool] routes events to workers that call [Engine.Ingest]. The
    engine runs the rules ([Rules], over [Fields] and [Sampler]), the indicator
    matcher (its record [IOCMatcher], which [GossipNet] implements with the
    manager of [Gossip]), the allowlist and the drift baseline; a candidate
    alert passes [ShardedMaps], [RateLimiter], [Feedback] and gets its context
    from [EventBuffer], [Lineage] and [TraceCtx]; then it reaches [Incidents]
    and the queue of actions that [Enforcer] executes. Alerts are folded by
    [Aggregator] and stored through [BatchStore] in [MemStore]. Rules come from
    [RuleLoader]; [Falco] and [Autolearn] write rule files for it, and their
    theorems are about what the loader and the engine make of these files.
    How much of what the kernel sees reaches the agent is set by the pressure
    watchers, whose calls go through [Arbiter] to the [Sampling] controller of
    each collector. [Api] answers requests from the store (through the class
    [AlertStore], of which [MemStore] is the instance), [Incidents] and
    [Feedback], and writes the overlay that [RuleLoader] applies.

    ** What is shown

    - Decoders: no decoder listed in [decoders_total] reads out of bounds on
      any sample; each is the inverse of the kernel's record layout
      ([kernel_records_roundtrip]), with the exceptions stated as theorems
      (the syscall layout, the connection-close record, the TLS ClientHello
      record). [network_dispatch] gives the type each network record gets.
    - DNS: name decompression refines a declarative reading of RFC 1035 names
      and always ends; no message makes the decoder panic; encoded messages
      decode back.
    - TLS: an encoded ClientHello parses back to its fields and no record
      makes the parser panic; the JA4 text does not depend on the order of
      cipher suites and extensions.
    - Rules: after any sequence of hot reloads the engine returns exactly the
      alerts that the rules' text denotes ([rule_engine_correct]); stale
      patterns are dropped; an invalid pattern is reported and its rule inert;
      the syscall list of the kernel filter is characterised, with the aliases
      it misses; adaptive sampling is undone exactly. The loader accepts
      exactly the valid rule sets, what it accepts compiles, and a field it
      accepts resolves.
    - Pipeline: an ingested event is processed without a panic and every
      candidate alert is counted as generated or dropped; alert identifiers
      are distinct; an action is queued only for a match that passed the
      gates. The pool neither loses nor duplicates events and a close drains.
    - Alert flow: the rate limiter's ring refines the full history and admits
      at most the configured number per window; the event buffer keeps exactly
      the most recent events per process; cooldowns and deduplication behave
      as clocks per key with bounded memory; aggregation loses and duplicates
      no alert; incidents group by key and window and are forgotten only after
      retention.
    - Profiles: the heap with its index refines a recency list; the bounded
      managers evict the least recently used entry; drift and allowlist
      verdicts are those of the learned set; the walk through /proc ends.
    - Enforcement: which system calls an action makes and that each is
      audited; nothing is blocked twice; what dry-run leaves out.
    - Store and delivery: the four indexes of the store describe the same
      alerts after every operation; writes, queries and deletes have their
      functional specification; the native summary equals the summary of the
      queried alerts, and its numbers are exact; the batching store loses no
      accepted alert, an answered flush is durable, and the ways in which this
      fails around closing; the circuit breaker refines its three-state
      machine, the fallback queue is a bounded FIFO that drops the oldest, and
      silences last exactly their window.
    - Migration: the Falco importer ends on every ASCII rule, reads every
      expression with the precedence of the language, and converts a rule
      without a reported reason to one that holds on the same events; the
      result passes the loader; the silent changes are stated. A learned
      network profile fires exactly on the unseen peers.
    - Cluster: the indicator store remembers exactly the living indicators it
      was given; every indicator of a node comes from an alert of some node,
      under strangers' requests and any delivery; a push within the limits
      reaches the peer and one over them is lost; a matched indicator renews
      itself through the engine.

    - Load shedding: after any history of calls the kernel samples the
      operator's base rate scaled by the least factor any controller asks for;
      a controller that recovered leaves no trace; the CPU watcher, in any
      interleaving with the other callers, holds back exactly the collectors of
      its level and recovers at most once per dwell time; a configured rate
      comes back exactly up to 1 in 92; memory pressure restores the profilers'
      rates, with what it does not restore; a replaced syscall filter is exact
      or, on an error, a known mixture. A changed program tag is reported in
      every round, and lost events are exported exactly once.

    - HTTP: with a token guard a private handler runs only for a configured
      token whose role permits the request, however the path is escaped, and
      only admins change anything; a scoped token gets alerts of its own
      namespaces from the list, the export and the summary of any store that
      keeps the interface's laws (and, stated too, what the endpoints by
      identifier leak); an exported or sent CEF line reads back and an RFC 5424
      line cannot be broken, whatever bytes it reports; a saved exception
      suppresses what it says and nothing else; a metric has at most the
      configured number of series and the collapsed ones.

    Where the code does not do what it or its comments intend, the theorem
    states what it does.

    ** Parameters and bounds

    - [GoLib] (file [Fields]): regular expressions, IP and CIDR parsing,
      floating point, Unicode case mapping and the floating-point DNS name
      analyzer. Laws are named where a theorem needs them: [1.0 >= 1.0], the
      order of floats that are not NaN ([number_order]), [ToLower] on ASCII
      ([lowers_ascii]). [sample_lib] is the instance the examples run on.
    - [EngineLib] (file [Engine]): the token bucket, the anomaly detector and
      the order of two maps. The record [outside] holds what one ingest reads:
      clock, random draws, /proc and the WebAssembly plugins.
    - [Wire] and [WireLaws] (file [Gossip]): JSON, URLs and IP classes; the law
      is that of [encoding/json], with invalid UTF-8 replaced.
    - The YAML decoder of [RuleLoader] and [Falco], the hashes of [Ja3], the
      answers of the operating system in [Enforcer] and of the inner store in
      [BatchStore] are arguments without laws.
    - [StoreLaws] and [HttpLib] (file [Api]): what the API relies on in a
      store, and the decoders of bodies and durations, without laws. Time
      layouts and the host name are arguments in [Cef].
    - The kernel's answers to map updates are arguments in [Sampling] and
      [Arbiter]; the value of an out-of-range conversion to [uint32], which the
      language leaves open, is one too.
    - Go's map iteration order is a function that lists the entries of a map,
      constrained to list each once. [sort.Slice] is a class with its
      documented contract ([SortSlice]) and an insertion sort as instance,
      or a sort by a total order. A random draw is an argument.
    - Fuel: the DNS loop runs with one step per remaining byte of every
      allowed jump ([dns_fuel]); a run that used it up would be a [Panic], and
      the absence of panics is proved. [double_until] has as many rounds as
      the number it must reach and [search_loop] one more than the interval is
      long; both are proved to reach their result. [hex] has 16 digits, the
      width of a 64-bit number. The walk of [Lineage] has the configured depth;
      heap sifting the length of the heap; the extension loops of [Ja3] and the
      UTF-8 loops one step per byte; [parseExpr] and [flattenLeaves] one more
      than the length of the text, and running out is a [Panic] that
      [falco_import_total] excludes; list resolution one round per list;
      the timeline has its 500 buckets.

    ** Not modelled, and the plan

    Kernel programs, ring-buffer and network I/O, Prometheus metrics, object
    pools, background goroutines other than those above (they call the
    modelled operations), YAML and JSON text, SQL, external services, user
    interfaces, configuration decoding. What comes next: the configuration
    checks of internal/config; the Sigma importer; sequence and Markov profiles
    of internal/profiler; the drift and hidden-process detectors; the heap of
    anomaly scores of internal/exporter/cardinality.go. *)

From Stdlib Require Export ZArith Lia.
From Stdlib Require Import Strings.Byte Strings.Ascii.
From stdpp Require Export base tactics gmap sets strings numbers list.

#[global] Open Scope Z_scope.

(** ** Automation *)

Create HintDb guard.

(** Case analysis on every boolean or [match] scrutinee of the goal. *)
Ltac split_match :=
  repeat match goal with
  | |- context [ match ?x with _ => _ end ] => destruct x eqn:?
  end.

(** Turn the boolean comparisons of the code into linear arithmetic. *)
Ltac zbool :=
  repeat match goal with
  | H : (_ <? _) = true |- _ => apply Z.ltb_lt in H
  | H : (_ <? _) = false |- _ => apply Z.ltb_ge in H
  | H : (_ <=? _) = true |- _ => apply Z.leb_le in H
  | H : (_ <=? _) = false |- _ => apply Z.leb_gt in H
  | H : (_ =? _) = true |- _ => apply Z.eqb_eq in H
  | H : (_ =? _) = false |- _ => apply Z.eqb_neq in H
  | H : (_ && _)%bool = true |- _ => apply andb_true_iff in H; destruct H
  | H : (_ || _)%bool = false |- _ => apply orb_false_iff in H; destruct H
  | H : negb _ = true |- _ => apply negb_true_iff in H
  | H : negb _ = false |- _ => apply negb_false_iff in H
  end.

(** ** Results of Go functions

    A Go function that returns [(T, error)] and may also panic is a value of
    [result E T]: [Ok] for a nil error, [Err] for an error value, [Panic] for
    a run-time panic (index or slice bounds out of range). *)
Inductive result (E A : Type) : Type :=
| Ok (a : A)
| Err (e : E)
| Panic.
Arguments Ok {E A} a.
Arguments Err {E A} e.
Arguments Panic {E A}.

#[export] Instance result_ret {E} : MRet (result E) := fun A a => Ok a.
#[export] Instance result_bind {E} : MBind (result E) := fun A B f m =>
  match m with
  | Ok a => f a
  | Err e => Err e
  | Panic => Panic
  end.

#[export] Instance result_eq_dec {E A} `{EqDecision E, EqDecision A} :
  EqDecision (result E A).
Proof. solve_decision. Defined.

(** The run did not crash. *)
Definition no_panic {E A} (r : result E A) : Prop := r <> Panic.

Lemma no_panic_ok {E A} (a : A) : no_panic (E:=E) (Ok a).
Proof. done. Qed.

Lemma no_panic_err {E A} (e : E) : no_panic (A:=A) (Err e).
Proof. done. Qed.

Lemma no_panic_bind {E A B} (m : result E A) (f : A -> result E B) :
  no_panic m -> (forall a, m = Ok a -> no_panic (f a)) -> no_panic (m ≫= f).
Proof. destruct m; unfold no_panic, mbind, result_bind; naive_solver. Qed.

#[export] Hint Resolve no_panic_ok no_panic_err : guard.

(** ** Machine integers

    A [w]-bit unsigned value is a [Z] in [[0, 2^w)]; conversions write the
    wrap-around out. *)
Definition wrap (w z : Z) : Z := z mod 2 ^ w.
Definition u8 (z : Z) : Z := wrap 8 z.
Definition u16 (z : Z) : Z := wrap 16 z.
Definition u32 (z : Z) : Z := wrap 32 z.
Definition u64 (z : Z) : Z := wrap 64 z.

(** Two's complement reading of a [w]-bit pattern: [int32(x)], [int64(x)]. *)
Definition signed (w z : Z) : Z :=
  let x := wrap w z in if x <? 2 ^ (w - 1) then x else x - 2 ^ w.
Definition i32 (z : Z) : Z := signed 32 z.
Definition i64 (z : Z) : Z := signed 64 z.

Definition in_range (w z : Z) : Prop := 0 <= z < 2 ^ w.

Lemma wrap_range w z : 0 <= w -> in_range w (wrap w z).
Proof. intros. unfold in_range, wrap. apply Z.mod_pos_bound. lia. Qed.

Lemma wrap_id w z : in_range w z -> wrap w z = z.
Proof. unfold in_range, wrap. intros. by apply Z.mod_small. Qed.

Lemma signed_wrap w z :
  0 < w -> - 2 ^ (w - 1) <= z < 2 ^ (w - 1) -> signed w (wrap w z) = z.
Proof.
  intros Hw Hz. unfold signed, wrap. rewrite Z.mod_mod by lia.
  assert (2 ^ w = 2 * 2 ^ (w - 1)) as E.
  { rewrite <- Z.pow_succ_r by lia. f_equal. lia. }
  destruct (decide (0 <= z)) as [Hp|Hn].
  - rewrite Z.mod_small by lia. destruct (Z.ltb_spec z (2 ^ (w - 1))); lia.
  - replace (z mod 2 ^ w) with (z + 2 ^ w).
    2: { apply Z.mod_unique with (-1); lia. }
    destruct (Z.ltb_spec (z + 2 ^ w) (2 ^ (w - 1))); lia.
Qed.

(** Putting disjoint bit fields together: [a | b << k] is [a + b * 2^k]. *)
Lemma lor_shiftl_add a b k :
  0 <= k -> in_range k a -> Z.lor a (Z.shiftl b k) = a + b * 2 ^ k.
Proof.
  intros Hk Ha. rewrite <- Z.shiftl_mul_pow2 by lia.
  assert (Z.land a (Z.shiftl b k) = 0) as H0.
  { apply Z.bits_inj'. intros n Hn. rewrite Z.land_spec, Z.bits_0.
    destruct (decide (n < k)).
    - rewrite Z.shiftl_spec_low by lia. apply andb_false_r.
    - rewrite <- (wrap_id k a Ha). unfold wrap. rewrite Z.mod_pow2_bits_high by lia. done. }
  rewrite Z.add_nocarry_lxor by done. symmetry. by apply Z.lxor_lor.
Qed.

(** ** Time

    [time.Time] is an instant in nanoseconds and [time.Duration] a signed
    64-bit number of nanoseconds. [Sub] saturates, as in package [time]. *)
Definition max_duration : Z := 2 ^ 63 - 1.
Definition min_duration : Z := - 2 ^ 63.
Definition time_Sub (a b : Z) : Z := Z.max min_duration (Z.min max_duration (a - b)).
Definition time_Add (t d : Z) : Z := t + d.
Definition time_Before (a b : Z) : bool := a <? b.
Definition time_After (a b : Z) : bool := b <? a.
(** The zero [time.Time] (January 1, year 1, UTC) and [IsZero]. *)
Definition zero_time : Z := -62135596800000000000.
Definition time_IsZero (t : Z) : bool := t =? zero_time.

Definition is_duration (d : Z) : Prop := min_duration <= d <= max_duration.
Definition Second : Z := 1000000000.

Lemma time_Sub_lt a b d :
  is_duration d -> d <> min_duration ->
  (time_Sub a b <? d) = (a - b <? d).
Proof.
  unfold is_duration, time_Sub, min_duration, max_duration. intros.
  destruct (Z.ltb_spec (a - b) d), (Z.ltb_spec (Z.max (- 2 ^ 63) (Z.min (2 ^ 63 - 1) (a - b))) d); lia.
Qed.

Lemma time_Sub_gt a b d :
  is_duration d -> d <> max_duration ->
  (d <? time_Sub a b) = (d <? a - b).
Proof.
  unfold is_duration, time_Sub, min_duration, max_duration. intros.
  destruct (Z.ltb_spec d (a - b)), (Z.ltb_spec d (Z.max (- 2 ^ 63) (Z.min (2 ^ 63 - 1) (a - b)))); lia.
Qed.

(** [-d] on a 64-bit duration: no overflow except at the minimum. *)
Definition neg_duration (d : Z) : Z := i64 (- d).

Lemma neg_duration_id d : 0 <= d <= max_duration -> neg_duration d = - d.
Proof.
  unfold max_duration, neg_duration, i64. intros.
  rewrite <- (signed_wrap 64 (- d)) at 2 by lia. unfold signed, wrap. by rewrite Z.mod_mod by lia.
Qed.

(** ** Bytes and strings *)
Abbreviation byte := Byte.byte.

Definition byte_Z (b : byte) : Z := Z.of_N (Byte.to_N b).

Definition Z_byte (z : Z) : byte :=
  match Byte.of_N (Z.to_N (u8 z)) with Some b => b | None => Byte.x00 end.

#[export] Instance byte_eq_dec : EqDecision byte := Byte.byte_eq_dec.

Lemma byte_Z_range b : 0 <= byte_Z b < 256.
Proof. unfold byte_Z. pose proof (Byte.to_N_bounded b). lia. Qed.

Lemma Z_byte_Z b : Z_byte (byte_Z b) = b.
Proof.
  unfold Z_byte, u8, wrap, byte_Z. pose proof (Byte.to_N_bounded b).
  rewrite Z.mod_small by (simpl; lia). rewrite N2Z.id.
  by rewrite Byte.of_to_N.
Qed.

Lemma byte_Z_byte z : byte_Z (Z_byte z) = z mod 256.
Proof.
  unfold Z_byte, u8, wrap. change (2 ^ 8) with 256.
  pose proof (Z.mod_pos_bound z 256 ltac:(lia)) as B.
  destruct (Byte.of_N (Z.to_N (z mod 256))) as [b|] eqn:E.
  - unfold byte_Z. apply Byte.to_of_N in E. rewrite E. rewrite Z2N.id; lia.
  - apply Byte.of_N_None_iff in E. lia.
Qed.

Lemma byte_Z_inj b c : byte_Z b = byte_Z c -> b = c.
Proof. intros E. by rewrite <- (Z_byte_Z b), E, Z_byte_Z. Qed.

#[export] Hint Resolve byte_Z_range : guard.

Abbreviation gostring := String.string.

Definition bytes_string (l : list byte) : gostring := String.string_of_list_byte l.
Definition string_bytes (s : gostring) : list byte := String.list_byte_of_string s.

Lemma bytes_string_inj l1 l2 : bytes_string l1 = bytes_string l2 -> l1 = l2.
Proof.
  intros E. apply (f_equal String.list_byte_of_string) in E. unfold bytes_string in E.
  by rewrite !String.list_byte_of_string_of_list_byte in E.
Qed.

(** ** Generic list lemmas *)

(** The last [n] elements of a list. *)
Definition lastn {A} (n : nat) (l : list A) : list A := drop (length l - n) l.

Lemma lastn_all {A} n (l : list A) : (length l <= n)%nat -> lastn n l = l.
Proof. intros. unfold lastn. by replace (length l - n)%nat with 0%nat by lia. Qed.

Lemma length_lastn {A} n (l : list A) : length (lastn n l) = Nat.min n (length l).
Proof. unfold lastn. rewrite length_drop. lia. Qed.

Lemma lastn_snoc_full {A} n (l : list A) x :
  (0 < n)%nat -> (n <= length l)%nat ->
  lastn n (l ++ [x]) = drop 1 (lastn n l) ++ [x].
Proof.
  intros. unfold lastn. rewrite length_app, drop_drop. simpl.
  rewrite drop_app_le by lia. do 2 f_equal. lia.
Qed.

Lemma lastn_lastn {A} n m (l : list A) :
  (n <= m)%nat -> lastn n (lastn m l) = lastn n l.
Proof.
  intros. unfold lastn. rewrite drop_drop, length_drop. f_equal. lia.
Qed.

Lemma drop_app_exact {A} n (l k : list A) : n = length l -> drop n (l ++ k) = k.
Proof. intros ->. apply drop_app_length. Qed.

Lemma take_app_exact {A} n (l k : list A) : n = length l -> take n (l ++ k) = l.
Proof. intros ->. apply take_app_length. Qed.

Lemma existsb_eq_elem {A} `{EqDecision A} (x : A) (l : list A) :
  existsb (fun y => bool_decide (y = x)) l = bool_decide (x ∈ l).
Proof.
  induction l as [|y l IH]; simpl.
  - done.
  - rewrite IH, <- bool_decide_or. apply bool_decide_ext.
    rewrite elem_of_cons. split; intros [?|?]; auto.
Qed.

Lemma elem_of_concat_map {A B} (f : A -> list B) l b : b ∈ concat (map f l) <-> exists x, x ∈ l /\ b ∈ f x.
Proof.
  induction l as [|y l IH]; simpl; [split; [by intros ?%elem_of_nil|by intros (x & ?%elem_of_nil & _)]|].
  rewrite elem_of_app, IH. setoid_rewrite elem_of_cons. split.
  - intros [Hb|(x & Hx & Hb)]; eauto.
  - intros (x & [->|Hx] & Hb); eauto.
Qed.

Lemma filter_all_id {A} (P : A -> Prop) `{forall x, Decision (P x)} (l : list A) :
  Forall P l -> filter P l = l.
Proof. induction 1; [done|]. rewrite filter_cons_True by done. by f_equal. Qed.

Lemma filter_none_nil {A} (P : A -> Prop) `{forall x, Decision (P x)} (l : list A) :
  Forall (fun x => ~ P x) l -> filter P l = [].
Proof. induction 1; [done|]. by rewrite filter_cons_False by done. Qed.
