(* ===== verification/GoBytes.v ===== *)
(** * Go byte slices and endianness

    The run-time behaviour of [[]byte] that the decoders rely on: length and
    capacity, slicing and indexing with their bounds checks, [copy], and the
    fixed-width readers of [encoding/binary]; the UTF-8 decoder. Everything
    that panics in Go is [Panic] here. *)
From S2P Require Import Prelude.

(** ** Slices

    [sl_data] are the bytes up to [len], [sl_spare] the bytes of the backing
    array between [len] and [cap]. *)
Record slice := mk_slice { sl_data : list byte; sl_spare : list byte }.

Definition len (s : slice) : Z := Z.of_nat (length (sl_data s)).
Definition cap (s : slice) : Z := len s + Z.of_nat (length (sl_spare s)).
Definition of_bytes (l : list byte) : slice := mk_slice l [].

(** [s[lo:hi]]: legal when [0 <= lo <= hi <= cap(s)]. *)
Definition slice_range {E} (s : slice) (lo hi : Z) : result E slice :=
  if (0 <=? lo) && (lo <=? hi) && (hi <=? cap s) then
    let all := drop (Z.to_nat lo) (sl_data s ++ sl_spare s) in
    Ok (mk_slice (take (Z.to_nat (hi - lo)) all) (drop (Z.to_nat (hi - lo)) all))
  else Panic.

(** [s[lo:]] is [s[lo:len(s)]]. *)
Definition slice_from {E} (s : slice) (lo : Z) : result E slice :=
  slice_range s lo (len s).

(** [s[:hi]] is [s[0:hi]]. *)
Definition slice_to {E} (s : slice) (hi : Z) : result E slice := slice_range s 0 hi.

(** [s[i]]: legal when [0 <= i < len(s)]. *)
Definition slice_index {E} (s : slice) (i : Z) : result E byte :=
  if (0 <=? i) && (i <? len s) then
    match sl_data s !! Z.to_nat i with
    | Some b => Ok b
    | None => Panic
    end
  else Panic.

(** [copy(dst, src)] on a destination of fixed length: the destination after
    the call. *)
Definition copy_into (dst src : list byte) : list byte :=
  take (length dst) src ++ drop (length src) dst.

(** The bytes up to the first NUL, and [util.BytesToString]. *)
Fixpoint until_nul (l : list byte) : list byte :=
  match l with
  | [] => []
  | b :: t => if decide (b = Byte.x00) then [] else b :: until_nul t
  end.
Definition BytesToString (l : list byte) : gostring := bytes_string (until_nul l).

(** ** Little and big endian integers *)
Fixpoint le_combine (l : list byte) : Z :=
  match l with
  | [] => 0
  | b :: t => byte_Z b + 256 * le_combine t
  end.

Fixpoint le_split (n : nat) (z : Z) : list byte :=
  match n with
  | O => []
  | S m => Z_byte z :: le_split m (z / 256)
  end.

Definition be_combine (l : list byte) : Z := le_combine (rev l).
Definition be_split (n : nat) (z : Z) : list byte := rev (le_split n z).

(** [binary.LittleEndian.UintN(b)] and [binary.BigEndian.UintN(b)]: panic when
    [b] is shorter than [n] bytes. *)
Definition le_uint {E} (n : nat) (s : slice) : result E Z :=
  if len s <? Z.of_nat n then Panic else Ok (le_combine (take n (sl_data s))).
Definition be_uint {E} (n : nat) (s : slice) : result E Z :=
  if len s <? Z.of_nat n then Panic else Ok (be_combine (take n (sl_data s))).

(** The access patterns of the decoders:
    [binary.LittleEndian.UintN(raw[off:])], [copy(dst[:], raw[off:off+n])]. *)
Definition le_at {E} (n : nat) (s : slice) (off : Z) : result E Z :=
  t ← slice_from s off; le_uint n t.
Definition be_at {E} (n : nat) (s : slice) (off : Z) : result E Z :=
  t ← slice_from s off; be_uint n t.
Definition copy_at {E} (dst : list byte) (s : slice) (off n : Z) : result E (list byte) :=
  t ← slice_range s off (off + n); Ok (copy_into dst (sl_data t)).

(** ** Lemmas: endianness *)

Lemma length_le_split n z : length (le_split n z) = n.
Proof. revert z; induction n; simpl; auto. Qed.

Lemma length_be_split n z : length (be_split n z) = n.
Proof. unfold be_split. by rewrite length_rev, length_le_split. Qed.

Lemma le_combine_range l : 0 <= le_combine l < 2 ^ (8 * Z.of_nat (length l)).
Proof.
  induction l as [|b l IH]; cbn [le_combine length]; [lia|].
  pose proof (byte_Z_range b).
  replace (8 * Z.of_nat (S (length l))) with (8 + 8 * Z.of_nat (length l)) by lia.
  rewrite Z.pow_add_r by lia. change (2 ^ 8) with 256. lia.
Qed.

Lemma le_combine_split n z : le_combine (le_split n z) = wrap (8 * Z.of_nat n) z.
Proof.
  revert z; induction n as [|n IH]; intros z; cbn [le_combine le_split].
  - unfold wrap. by rewrite Z.mul_0_r, Z.pow_0_r, Z.mod_1_r.
  - rewrite IH, byte_Z_byte. unfold wrap.
    replace (8 * Z.of_nat (S n)) with (8 + 8 * Z.of_nat n) by lia.
    rewrite Z.pow_add_r by lia. change (2 ^ 8) with 256.
    by rewrite Z.rem_mul_r by lia.
Qed.

Lemma le_split_combine l : le_split (length l) (le_combine l) = l.
Proof.
  induction l as [|b l IH]; cbn [le_combine le_split length]; [done|].
  pose proof (byte_Z_range b). f_equal.
  - apply byte_Z_inj. rewrite byte_Z_byte.
    rewrite Z.mul_comm, Z_mod_plus_full. by rewrite Z.mod_small.
  - rewrite Z.mul_comm, Z.div_add by lia.
    rewrite (Z.div_small (byte_Z b)) by lia. by rewrite Z.add_0_l.
Qed.

Lemma le_combine_inj l1 l2 :
  length l1 = length l2 -> le_combine l1 = le_combine l2 -> l1 = l2.
Proof. intros L E. by rewrite <- (le_split_combine l1), <- (le_split_combine l2), E, L. Qed.

Lemma le_combine_split_id n z : in_range (8 * Z.of_nat n) z -> le_combine (le_split n z) = z.
Proof. intros. by rewrite le_combine_split, wrap_id. Qed.

Lemma le_split_app n m z :
  le_split (n + m) z = le_split n z ++ le_split m (z / 256 ^ Z.of_nat n).
Proof.
  revert z; induction n as [|n IH]; intros z; cbn [le_split Nat.add app].
  - by rewrite Z.pow_0_r, Z.div_1_r.
  - rewrite IH. do 3 f_equal. rewrite Nat2Z.inj_succ, Z.pow_succ_r by lia.
    by rewrite Z.div_div by lia.
Qed.

Lemma be_combine_split_id n z : in_range (8 * Z.of_nat n) z -> be_combine (be_split n z) = z.
Proof. intros. unfold be_combine, be_split. by rewrite rev_involutive, le_combine_split_id. Qed.

Lemma be_combine_range l : 0 <= be_combine l < 2 ^ (8 * Z.of_nat (length l)).
Proof. unfold be_combine. rewrite <- length_rev. apply le_combine_range. Qed.

(** ** Lemmas: slices *)

Lemma len_nonneg s : 0 <= len s.
Proof. unfold len. lia. Qed.

Lemma len_le_cap s : len s <= cap s.
Proof. unfold cap. lia. Qed.

Lemma slice_range_ok {E} s lo hi :
  0 <= lo <= hi -> hi <= cap s ->
  exists t, slice_range (E:=E) s lo hi = Ok t /\ len t = hi - lo.
Proof.
  intros. unfold slice_range.
  replace ((0 <=? lo) && (lo <=? hi) && (hi <=? cap s)) with true
    by (symmetry; rewrite !andb_true_iff, !Z.leb_le; lia).
  eexists; split; [done|]. unfold len; simpl.
  rewrite length_take, length_drop, length_app. unfold cap, len in *. lia.
Qed.

Lemma slice_range_inv {E} s lo hi t :
  slice_range (E:=E) s lo hi = Ok t -> 0 <= lo <= hi /\ hi <= cap s /\ len t = hi - lo.
Proof.
  intros Heq. unfold slice_range in Heq. case_match eqn:B; [|done].
  zbool. destruct (slice_range_ok (E:=E) s lo hi) as (t' & E1 & E2); [lia..|].
  unfold slice_range in E1. repeat split; try lia. rewrite <- E2. f_equal.
  rewrite !(proj2 (Z.leb_le _ _)) in E1 by lia. simpl in E1. congruence.
Qed.

(** Within the length, slicing only sees the data. *)
Lemma slice_range_data {E} s lo hi :
  0 <= lo <= hi -> hi <= len s ->
  exists sp, slice_range (E:=E) s lo hi =
    Ok (mk_slice (take (Z.to_nat (hi - lo)) (drop (Z.to_nat lo) (sl_data s))) sp).
Proof.
  intros. unfold slice_range.
  replace ((0 <=? lo) && (lo <=? hi) && (hi <=? cap s)) with true
    by (symmetry; rewrite !andb_true_iff, !Z.leb_le; unfold cap; lia).
  unfold len in *. rewrite drop_app_le by lia.
  rewrite take_app_le by (rewrite length_drop; lia). by eexists.
Qed.

Lemma slice_from_data {E} s lo :
  0 <= lo <= len s ->
  exists sp, slice_from (E:=E) s lo = Ok (mk_slice (drop (Z.to_nat lo) (sl_data s)) sp).
Proof.
  intros H. destruct (slice_range_data (E:=E) s lo (len s)) as [sp Hs]; [lia..|].
  exists sp. unfold slice_from. rewrite Hs. do 2 f_equal.
  apply take_ge. rewrite length_drop. unfold len. lia.
Qed.

Lemma slice_from_len {E} s lo t : slice_from (E:=E) s lo = Ok t -> len t = len s - lo /\ 0 <= lo <= len s.
Proof. intros H. apply slice_range_inv in H. lia. Qed.

Lemma slice_from_panic {E} s lo : len s < lo -> slice_from (E:=E) s lo = Panic.
Proof.
  intros. unfold slice_from, slice_range.
  replace (lo <=? len s) with false by (symmetry; apply Z.leb_gt; lia).
  by rewrite andb_false_r.
Qed.

Lemma slice_index_ok {E} s i :
  0 <= i < len s -> exists b, slice_index (E:=E) s i = Ok b /\ sl_data s !! Z.to_nat i = Some b.
Proof.
  intros. unfold slice_index.
  replace ((0 <=? i) && (i <? len s)) with true
    by (symmetry; rewrite andb_true_iff, Z.leb_le, Z.ltb_lt; lia).
  destruct (lookup_lt_is_Some_2 (sl_data s) (Z.to_nat i)) as [b Hb]; [unfold len in *; lia|].
  exists b. by rewrite Hb.
Qed.

Lemma slice_index_panic {E} s i : len s <= i -> slice_index (E:=E) s i = Panic.
Proof.
  intros. unfold slice_index. replace (i <? len s) with false by (symmetry; apply Z.ltb_ge; lia).
  by rewrite andb_false_r.
Qed.

Lemma le_at_data {E} n s off :
  0 <= off -> off + Z.of_nat n <= len s ->
  le_at (E:=E) n s off = Ok (le_combine (take n (drop (Z.to_nat off) (sl_data s)))).
Proof.
  intros. unfold le_at. destruct (slice_from_data (E:=E) s off) as [sp Hs]; [lia|].
  rewrite Hs. simpl. unfold le_uint.
  replace (len _ <? Z.of_nat n) with false; [done|].
  symmetry. apply Z.ltb_ge. unfold len in *. simpl. rewrite length_drop. lia.
Qed.

Lemma be_at_data {E} n s off :
  0 <= off -> off + Z.of_nat n <= len s ->
  be_at (E:=E) n s off = Ok (be_combine (take n (drop (Z.to_nat off) (sl_data s)))).
Proof.
  intros. unfold be_at. destruct (slice_from_data (E:=E) s off) as [sp Hs]; [lia|].
  rewrite Hs. simpl. unfold be_uint.
  replace (len _ <? Z.of_nat n) with false; [done|].
  symmetry. apply Z.ltb_ge. unfold len in *. simpl. rewrite length_drop. lia.
Qed.

Lemma le_at_short {E} n s off :
  (0 < n)%nat -> len s < off + Z.of_nat n -> 0 <= off -> le_at (E:=E) n s off = Panic.
Proof.
  intros. unfold le_at. destruct (decide (off <= len s)) as [Hle|Hgt].
  - destruct (slice_from_data (E:=E) s off) as [sp Hs]; [lia|]. rewrite Hs. simpl.
    unfold le_uint. replace (len _ <? Z.of_nat n) with true; [done|].
    symmetry. apply Z.ltb_lt. unfold len in *. simpl. rewrite length_drop. lia.
  - by rewrite slice_from_panic by lia.
Qed.

Lemma copy_at_data {E} dst s off n :
  0 <= off -> 0 <= n -> off + n <= len s ->
  copy_at (E:=E) dst s off n
  = Ok (copy_into dst (take (Z.to_nat n) (drop (Z.to_nat off) (sl_data s)))).
Proof.
  intros. unfold copy_at. destruct (slice_range_data (E:=E) s off (off + n)) as [sp Hs]; [lia..|].
  rewrite Hs. simpl. do 3 f_equal. lia.
Qed.

Lemma slice_index_data {E} s i :
  0 <= i < len s ->
  slice_index (E:=E) s i = Ok (default Byte.x00 (head (drop (Z.to_nat i) (sl_data s)))).
Proof.
  intros. destruct (slice_index_ok (E:=E) s i) as (b & -> & Hb); [done|].
  by rewrite (drop_S _ _ _ Hb).
Qed.

Lemma copy_into_full dst src : length src = length dst -> copy_into dst src = src.
Proof.
  intros E. unfold copy_into. rewrite <- E, firstn_all.
  rewrite drop_ge by lia. by rewrite app_nil_r.
Qed.

Lemma length_copy_into dst src : length (copy_into dst src) = length dst.
Proof. unfold copy_into. rewrite length_app, length_take, length_drop. lia. Qed.

(** ** Proof support: selecting a field of a concatenation *)

Lemma sel_here n k (a b : list byte) :
  k = 0%nat -> length a = n -> take n (drop k (a ++ b)) = a.
Proof. intros -> <-. by rewrite drop_0, take_app_length. Qed.

Lemma sel_skip n k (a b : list byte) :
  (length a <= k)%nat -> take n (drop k (a ++ b)) = take n (drop (k - length a) b).
Proof. intros. by rewrite drop_app_ge. Qed.

Lemma sel_last n k (a : list byte) :
  k = 0%nat -> length a = n -> take n (drop k a) = a.
Proof. intros -> <-. by rewrite drop_0, firstn_all. Qed.

Lemma sel_byte_here k z rest :
  k = 0%nat -> in_range 8 z ->
  byte_Z (default Byte.x00 (head (drop k (le_split 1 z ++ rest)))) = z.
Proof. intros -> Hz. simpl. rewrite byte_Z_byte. by apply Z.mod_small. Qed.

Lemma sel_byte_last k z :
  k = 0%nat -> in_range 8 z -> byte_Z (default Byte.x00 (head (drop k (le_split 1 z)))) = z.
Proof. intros -> Hz. simpl. rewrite byte_Z_byte. by apply Z.mod_small. Qed.

Lemma split_at (n m : nat) (l : list byte) :
  length l = (n + m)%nat -> exists a b, l = a ++ b /\ length a = n /\ length b = m.
Proof.
  intros. exists (take n l), (drop n l).
  rewrite take_drop, length_take, length_drop. split_and!; lia || done.
Qed.

Ltac lens := rewrite ?length_app, ?length_le_split, ?length_be_split, ?length_take, ?length_drop; cbn [length]; lia.

(** Select one field: skip the fields before it, then cut it out. *)
Ltac sel :=
  repeat rewrite sel_skip by lens;
  first [rewrite sel_here by lens | rewrite sel_last by lens].

Ltac sel_byte :=
  repeat rewrite drop_app_ge by lens;
  first [rewrite sel_byte_here by (done || lens) | rewrite sel_byte_last by (done || lens)].

(** ** UTF-8 *)

(** [utf8.DecodeRune]: the code point and the number of bytes it takes; an
    invalid byte is [RuneError] of width 1. *)
Definition RuneError : Z := 0xFFFD.
Definition in_bytes (lo hi : Z) (b : byte) : bool := (lo <=? byte_Z b) && (byte_Z b <=? hi).
Definition low6 (b : byte) : Z := Z.land (byte_Z b) 0x3F.

(** The number of bytes and the range of the second one, for each first byte. *)
Definition utf8_first (b : byte) : option (Z * Z * Z) :=
  if in_bytes 0xC2 0xDF b then Some (2, 0x80, 0xBF)
  else if in_bytes 0xE0 0xE0 b then Some (3, 0xA0, 0xBF)
  else if in_bytes 0xED 0xED b then Some (3, 0x80, 0x9F)
  else if in_bytes 0xE1 0xEF b then Some (3, 0x80, 0xBF)
  else if in_bytes 0xF0 0xF0 b then Some (4, 0x90, 0xBF)
  else if in_bytes 0xF1 0xF3 b then Some (4, 0x80, 0xBF)
  else if in_bytes 0xF4 0xF4 b then Some (4, 0x80, 0x8F)
  else None.

Definition DecodeRune (l : list byte) : Z * nat :=
  match l with
  | [] => (RuneError, 0%nat)
  | b0 :: l =>
      if byte_Z b0 <? 0x80 then (byte_Z b0, 1%nat) else
      match utf8_first b0, l with
      | Some (n, lo, hi), b1 :: l =>
          if negb (in_bytes lo hi b1) then (RuneError, 1%nat)
          else if n =? 2 then (Z.lor (Z.shiftl (Z.land (byte_Z b0) 0x1F) 6) (low6 b1), 2%nat)
          else match l with
          | b2 :: l =>
              if negb (in_bytes 0x80 0xBF b2) then (RuneError, 1%nat)
              else if n =? 3 then
                (Z.lor (Z.lor (Z.shiftl (Z.land (byte_Z b0) 0x0F) 12) (Z.shiftl (low6 b1) 6)) (low6 b2), 3%nat)
              else match l with
              | b3 :: _ =>
                  if negb (in_bytes 0x80 0xBF b3) then (RuneError, 1%nat)
                  else (Z.lor (Z.lor (Z.shiftl (Z.land (byte_Z b0) 0x07) 18) (Z.shiftl (low6 b1) 12))
                              (Z.lor (Z.shiftl (low6 b2) 6) (low6 b3)), 4%nat)
              | [] => (RuneError, 1%nat)
              end
          | [] => (RuneError, 1%nat)
          end
      | _, _ => (RuneError, 1%nat)
      end
  end.

(** What [DecodeRune] consumes: one ASCII byte, one invalid byte, or a
    sequence of bytes with the high bit set. *)
Lemma DecodeRune_spec b l :
  let '(r, n) := DecodeRune (b :: l) in
  0 <= r /\ ((n = 1%nat /\ (r = byte_Z b /\ byte_Z b < 128 \/ r = RuneError)) \/
  ((2 <= n <= length (b :: l))%nat /\ Forall (fun c => 128 <= byte_Z c) (take n (b :: l)))).
Proof.
  pose proof (byte_Z_range b) as Hb. unfold DecodeRune. destruct (Z.ltb_spec (byte_Z b) 128); [split; [lia|left; auto]|].
  assert (0 <= RuneError) by done.
  assert (forall x k, 0 <= x -> 0 <= Z.shiftl x k) as Hsh by (intros; by rewrite Z.shiftl_nonneg).
  assert (forall c, 0 <= low6 c) as H6 by (intros c; unfold low6; apply Z.land_nonneg; right; done).
  assert (forall m, 0 <= m -> 0 <= Z.land (byte_Z b) m) as Hlm by (intros; apply Z.land_nonneg; auto).
  destruct (utf8_first b) as [[[n lo] hi]|] eqn:Ef; [|split; auto]. destruct l as [|b1 l]; [split; auto|].
  assert (128 <= lo) as Hlo by (unfold utf8_first in Ef; repeat case_match; simplify_eq/=; lia).
  destruct (in_bytes lo hi b1) eqn:E1; [|split; auto]. destruct (n =? 2) eqn:N2; [|destruct l as [|b2 l]; [split; auto|];
    destruct (in_bytes 128 191 b2) eqn:E2; [|split; auto]; destruct (n =? 3) eqn:N3; [|destruct l as [|b3 l]; [split; auto|];
    destruct (in_bytes 128 191 b3) eqn:E3; [|split; auto]]].
  all: unfold in_bytes in *; zbool; cbn [negb]; split; [|right; split; [simpl; lia|simpl; repeat constructor; lia]];
    rewrite ?Z.lor_nonneg; repeat split; try apply Hsh; try apply H6; try (apply Hlm; lia).
Qed.
