(* ===== verification/GoText.v ===== *)
(** * Text

    Shared lemmas on Go strings (which characters a text avoids, decimal
    numbers), and the functions of package [strings] on texts as lists of
    bytes, for the parsers that walk a text by index: searching, splitting and
    trimming. [TrimSpace] knows the white space of Unicode by its UTF-8
    encodings. *)
From Stdlib Require Import Ascii.
From stdpp Require Import pretty.
From S2P Require Import Prelude GoBytes.

(** ** Strings *)
Fixpoint avoids (c : ascii) (s : gostring) : Prop :=
  match s with EmptyString => True | String d s => d <> c /\ avoids c s end.

Lemma append_cons d s t : (String d s +:+ t)%string = String d (s +:+ t)%string.
Proof. done. Qed.

Lemma append_empty t : ("" +:+ t)%string = t.
Proof. done. Qed.

Lemma avoids_app c s t : avoids c (s +:+ t)%string <-> avoids c s /\ avoids c t.
Proof. induction s as [|d s IH]; rewrite ?append_empty, ?append_cons; cbn [avoids]; [tauto|]. rewrite IH. tauto. Qed.

(** The text before the first separator is determined. *)
Lemma first_sep_inj c a b s t :
  avoids c a -> avoids c b -> (a +:+ String c s)%string = (b +:+ String c t)%string -> a = b /\ s = t.
Proof.
  revert b. induction a as [|d a IH]; intros [|e b] Ha Hb E; rewrite ?append_empty, ?append_cons in E; cbn [avoids] in *.
  - by injection E as ->.
  - injection E as -> _. tauto.
  - injection E as -> _. tauto.
  - injection E as -> E. destruct (IH b) as [-> ->]; tauto.
Qed.

Definition digit (c : ascii) : Prop := (48 <= N_of_ascii c <= 57)%N.
Fixpoint all_digits (s : gostring) : Prop := match s with EmptyString => True | String c s => digit c /\ all_digits s end.

Lemma pretty_N_go_digits x s : all_digits s -> all_digits (pretty_N_go x s) /\ (s <> ""%string -> pretty_N_go x s <> ""%string).
Proof.
  revert s. induction (N.lt_wf_0 x) as [x _ IH]; intros s Hs.
  assert (x = 0 \/ 0 < x)%N as [->|Hx] by lia; [by rewrite pretty_N_go_0|].
  rewrite pretty_N_go_step by done. destruct (IH (x `div` 10)%N) with (s := String (pretty_N_char (x `mod` 10)) s) as [H1 H2];
    [by apply N.div_lt|split; [unfold pretty_N_char, digit; by repeat case_match|done]|]. split; [done|]. intros _. by apply H2.
Qed.

Lemma pretty_digits n : 0 <= n -> all_digits (pretty n) /\ pretty n <> ""%string.
Proof.
  intros Hn. destruct n as [|p|p]; [done| |lia]. unfold pretty, pretty_Z, pretty, pretty_positive, pretty, pretty_N.
  case_decide; [done|]. rewrite pretty_N_go_step by lia.
  match goal with |- context [pretty_N_go ?x ?s] => destruct (pretty_N_go_digits x s) as [H1 H2] end.
  - split; [|done]. unfold pretty_N_char, digit. by repeat case_match.
  - split; [exact H1|by apply H2].
Qed.

Lemma digits_avoid c s : ~ digit c -> all_digits s -> avoids c s.
Proof. intros Hc. induction s as [|d s IH]; [done|]. intros [Hd Hs]. split; [by intros ->|auto]. Qed.

Lemma pretty_avoids c n : ~ digit c -> 0 <= n -> avoids c (pretty n).
Proof. intros Hc Hn. by apply digits_avoid; [|apply pretty_digits]. Qed.


(** A decimal number is never the empty text nor starts with a NUL byte. *)
Lemma pretty_head n : 0 <= n -> exists c s, pretty n = String c s /\ digit c.
Proof.
  intros Hn. destruct (pretty_digits n Hn) as [Hd Hne]. destruct (pretty n) as [|c s]; [done|]. exists c, s. by destruct Hd.
Qed.

(** ** Texts as lists of bytes *)
Abbreviation text := (list ascii).
Definition txt (s : gostring) : text := String.list_ascii_of_string s.
Definition str (t : text) : gostring := String.string_of_list_ascii t.

Lemma str_txt s : str (txt s) = s.
Proof. apply String.string_of_list_ascii_of_string. Qed.
Lemma txt_str t : txt (str t) = t.
Proof. apply String.list_ascii_of_string_of_list_ascii. Qed.

(** [strings.HasPrefix], [Index], [Contains], [LastIndex] of one byte *)
Fixpoint text_prefix (p s : text) : bool :=
  match p, s with
  | [], _ => true
  | c :: p, d :: s => bool_decide (c = d) && text_prefix p s
  | _, [] => false
  end.
Fixpoint text_index (s p : text) : option nat :=
  if text_prefix p s then Some 0%nat else match s with [] => None | _ :: s => S <$> text_index s p end.
Definition text_contains (s p : text) : bool := bool_decide (is_Some (text_index s p)).
Fixpoint text_last_index (c : ascii) (s : text) : option nat :=
  match s with
  | [] => None
  | d :: s => match text_last_index c s with Some i => Some (S i) | None => if decide (d = c) then Some 0%nat else None end
  end.
Definition text_suffix (p s : text) : bool := text_prefix (rev p) (rev s).

(** [strings.Split] on one byte *)
Fixpoint text_split (c : ascii) (cur s : text) : list text :=
  match s with
  | [] => [cur]
  | d :: s => if decide (d = c) then cur :: text_split c [] s else text_split c (cur ++ [d]) s
  end.

(** [strings.Trim] with a set of ASCII characters *)
Fixpoint trim_left (f : ascii -> bool) (s : text) : text :=
  match s with [] => [] | c :: s' => if f c then trim_left f s' else s end.
Definition trim (f : ascii -> bool) (s : text) : text := rev (trim_left f (rev (trim_left f s))).
Definition Trim (s : text) (cutset : text) : text := trim (fun c => bool_decide (c ∈ cutset)) s.

(** The encodings of the characters with [unicode.IsSpace]. *)
Definition bytes_text (l : list N) : text := map ascii_of_N l.
Definition unicode_spaces : list text :=
  map bytes_text ([[9]; [10]; [11]; [12]; [13]; [32]; [0xC2; 0x85]; [0xC2; 0xA0]; [0xE1; 0x9A; 0x80]; [0xE2; 0x80; 0xA8];
    [0xE2; 0x80; 0xA9]; [0xE2; 0x80; 0xAF]; [0xE2; 0x81; 0x9F]; [0xE3; 0x80; 0x80]] ++
    map (fun i => [0xE2; 0x80; 0x80 + N.of_nat i]) (seq 0 11))%N.

(** Drop leading members of [spaces]; every round takes at least one byte. *)
Fixpoint skip_any (fuel : nat) (spaces : list text) (s : text) : text :=
  match fuel with
  | O => s
  | S fuel =>
      match list_find (fun p => text_prefix p s = true) spaces with
      | Some (_, p) => skip_any fuel spaces (drop (length p) s)
      | None => s
      end
  end.
Definition trim_space_left (s : text) : text := skip_any (length s) unicode_spaces s.
Definition trim_space_right (s : text) : text := rev (skip_any (length s) (map (@rev ascii) unicode_spaces) (rev s)).
Definition TrimSpace (s : text) : text := trim_space_right (trim_space_left s).

(** ** Trimming *)

(** An ASCII character that is not white space. *)
Definition solid (c : ascii) : Prop := (N_of_ascii c < 128)%N /\ Forall (fun p => head p <> Some c) unicode_spaces.
#[export] Instance solid_dec c : Decision (solid c).
Proof. unfold solid. apply _. Defined.

Lemma text_prefix_head p s : text_prefix p s = true -> p <> [] -> head p = head s.
Proof. destruct p, s; simpl; try done. intros [H%bool_decide_eq_true _]%andb_true_iff _. by subst. Qed.

Lemma skip_any_stop fuel spaces s :
  (forall p, p ∈ spaces -> p <> [] /\ head p <> head s) -> skip_any fuel spaces s = s.
Proof.
  intros Hs. destruct fuel; [done|]. simpl. destruct (list_find _ spaces) as [[i p]|] eqn:E; [|done].
  apply list_find_Some in E as (E & Hp & _). apply list_elem_of_lookup_2 in E. destruct (Hs p E) as [Hn Hh].
  by apply text_prefix_head in Hp.
Qed.

Lemma spaces_nonempty p : p ∈ unicode_spaces -> p <> [].
Proof. intros Hp. assert (Forall (fun p => p <> []) unicode_spaces) as HF by (vm_compute; repeat constructor; done). by rewrite Forall_forall in HF; apply HF. Qed.

Lemma solid_left c s : solid c -> trim_space_left (c :: s) = c :: s.
Proof.
  intros [_ Hc]. apply skip_any_stop. intros p Hp. split; [by apply spaces_nonempty|]. rewrite Forall_forall in Hc. simpl. intros E. by apply (Hc p).
Qed.

(** The last byte of an encoding: white space, or not ASCII. *)
Lemma spaces_last p : p ∈ unicode_spaces -> exists c, head (rev p) = Some c /\ ~ solid c.
Proof.
  intros Hp. assert (Forall (fun p => exists c, head (rev p) = Some c /\ ~ solid c) unicode_spaces) as HF.
  { repeat constructor; eexists; (split; [reflexivity|]); (apply (bool_decide_unpack (~ _)); vm_compute; reflexivity). }
  by rewrite Forall_forall in HF; apply HF.
Qed.

Lemma solid_right c s : solid c -> trim_space_right (s ++ [c]) = s ++ [c].
Proof.
  intros Hc. unfold trim_space_right. rewrite skip_any_stop; [apply rev_involutive|].
  intros q (p & -> & Hp)%list_elem_of_fmap. destruct (spaces_last p Hp) as (d & Hd & Hn). split.
  - intros E. by rewrite E in Hd.
  - rewrite Hd, rev_app_distr. simpl. by intros [= ->].
Qed.

(** A text that starts and ends with such characters is trimmed already. *)
Definition solid_ends (s : text) : Prop := (exists c s', s = c :: s' /\ solid c) /\ (exists c s', s = s' ++ [c] /\ solid c).

Lemma TrimSpace_id s : solid_ends s -> TrimSpace s = s.
Proof. intros [(c & s1 & E & Hc) (d & s2 & E2 & Hd)]. unfold TrimSpace. rewrite E, solid_left, <- E, E2 by done. by apply solid_right. Qed.

Lemma skip_space_left s : trim_space_left (" "%char :: s) = trim_space_left s.
Proof. unfold trim_space_left. simpl. rewrite drop_0. done. Qed.

Lemma TrimSpace_padded s : solid_ends s ->
  TrimSpace (" "%char :: s) = s /\ TrimSpace (s ++ [" "%char]) = s /\ TrimSpace (" "%char :: s ++ [" "%char]) = s.
Proof.
  intros Hs. assert (TrimSpace (s ++ [" "%char]) = s) as Hr.
  { destruct Hs as [(c & s1 & E & Hc) (d & s2 & E2 & Hd)]. unfold TrimSpace. rewrite E. simpl app. rewrite solid_left by done.
    change (c :: s1 ++ [" "%char]) with ((c :: s1) ++ [" "%char]). rewrite <- E. unfold trim_space_right. rewrite rev_app_distr. simpl.
    rewrite length_app. simpl. replace (length s + 1)%nat with (S (length s)) by lia. simpl. rewrite drop_0.
    pose proof (solid_right d s2 Hd) as Hx. unfold trim_space_right in Hx. rewrite <- E2 in Hx. exact Hx. }
  split; [|split; [done|]].
  - unfold TrimSpace. rewrite skip_space_left. by apply TrimSpace_id.
  - unfold TrimSpace. rewrite skip_space_left. exact Hr.
Qed.

(** ** Words *)

(** [strings.Fields]: the runs of bytes between white space. *)
Fixpoint fields_go (fuel : nat) (cur s : text) : list text :=
  let flush := if decide (cur = []) then [] else [cur] in
  match fuel, s with
  | S fuel, c :: s' =>
      match list_find (fun p => text_prefix p s = true) unicode_spaces with
      | Some (_, p) => flush ++ fields_go fuel [] (drop (length p) s)
      | None => fields_go fuel (cur ++ [c]) s'
      end
  | _, _ => flush
  end.
Definition StringsFields (s : text) : list text := fields_go (length s) [] s.

(** Words, each followed by one ASCII blank character of the given kind. *)
Definition blanks : text := map ascii_of_N [32; 10; 9]%N.
Definition spaced (ws : list (text * ascii)) : text := concat (map (fun w => w.1 ++ [w.2]) ws).

Lemma no_space_at c s : solid c -> list_find (fun p => text_prefix p (c :: s) = true) unicode_spaces = None.
Proof.
  intros [_ Hc]. apply list_find_None, Forall_forall. intros p Hp E. rewrite Forall_forall in Hc. apply (Hc p Hp).
  apply text_prefix_head in E; [done|by apply spaces_nonempty].
Qed.

Lemma fields_go_word fuel cur w s : Forall solid w -> fields_go (length w + fuel) cur (w ++ s) = fields_go fuel (cur ++ w) s.
Proof.
  revert cur. induction w as [|c w IH]; intros cur Hw; [by rewrite app_nil_r|]. apply Forall_cons in Hw as [Hc Hw].
  cbn [length Nat.add app fields_go]. rewrite no_space_at by done. rewrite IH by done. by rewrite <- app_assoc.
Qed.

Lemma fields_go_blank fuel cur b s : b ∈ blanks -> cur <> [] -> fields_go (S fuel) cur (b :: s) = cur :: fields_go fuel [] s.
Proof.
  intros Hb Hne. rewrite list_elem_of_In in Hb. destruct Hb as [<-|[<-|[<-|[]]]]; simpl; rewrite drop_0, decide_False by done; done.
Qed.

Lemma fields_go_spaced fuel ws : (length (spaced ws) <= fuel)%nat ->
  Forall (fun w => w.1 <> [] /\ Forall solid w.1 /\ w.2 ∈ blanks) ws -> fields_go fuel [] (spaced ws) = ws.*1.
Proof.
  revert fuel. induction ws as [|[w b] ws IH]; intros fuel Hf Hw; [by destruct fuel|]. apply Forall_cons in Hw as [(Hne & Hs & Hb) Hw].
  unfold spaced in *. cbn [map concat fst snd] in *. rewrite <- app_assoc in *. rewrite !length_app in Hf. cbn [length] in Hf.
  replace fuel with (length w + (S (fuel - length w - 1)))%nat by lia. rewrite fields_go_word by done.
  change ([b] ++ ?s) with (b :: s). rewrite fields_go_blank by done. rewrite IH; [done|lia|done].
Qed.

Lemma StringsFields_spaced ws : Forall (fun w => w.1 <> [] /\ Forall solid w.1 /\ w.2 ∈ blanks) ws -> StringsFields (spaced ws) = ws.*1.
Proof. by apply fields_go_spaced. Qed.

Lemma text_last_index_app c s t : c ∉ t -> text_last_index c (s ++ c :: t) = Some (length s).
Proof.
  intros Ht. assert (forall t, c ∉ t -> text_last_index c t = None) as N.
  { clear. induction t as [|d t IH]; intros H; [done|]. simpl. rewrite IH by set_solver. rewrite decide_False by set_solver. done. }
  induction s as [|d s IH]; simpl; [|by rewrite IH]. rewrite N by done. by rewrite decide_True.
Qed.
