(* ===== verification/Types.v ===== *)
(** * The canonical data of package [types] (src/pkg/types)

    Event, alert and incident records with the source's fields, the event
    type numbers and their names. Fixed-size arrays are byte lists, integers
    are [Z]. *)
From S2P Require Import Prelude.

(** ** Event types *)
Definition EventSyscall : Z := 1.
Definition EventTCPConnect : Z := 2.
Definition EventFileAccess : Z := 3.
Definition EventTLS : Z := 4.
Definition EventDNS : Z := 5.
Definition EventPrivesc : Z := 6.
Definition EventNetClose : Z := 7.
Definition EventKmodLoad : Z := 8.
Definition EventCgroupEsc : Z := 9.
Definition EventGPU : Z := 10.
Definition EventLSMAudit : Z := 11.
Definition EventSequence : Z := 12.
Definition EventCloudAudit : Z := 13.
Definition EventIOUring : Z := 14.
Definition EventBPFProgram : Z := 15.
Definition EventHTTPPlaintext : Z := 16.

(** [eventTypeCanonical], as the association list of the map literal. *)
Definition eventTypeCanonical : list (Z * gostring) :=
  [ (EventSyscall, "syscall"); (EventTCPConnect, "tcp_connect");
    (EventFileAccess, "file"); (EventTLS, "tls"); (EventDNS, "dns");
    (EventPrivesc, "privesc"); (EventNetClose, "net_close");
    (EventKmodLoad, "kmod"); (EventCgroupEsc, "cgroup_esc"); (EventGPU, "gpu");
    (EventLSMAudit, "lsm_audit"); (EventSequence, "sequence");
    (EventCloudAudit, "cloud_audit"); (EventIOUring, "io_uring");
    (EventBPFProgram, "bpf_program"); (EventHTTPPlaintext, "http_plaintext") ]%string.

Fixpoint assoc {A B} `{EqDecision A} (k : A) (l : list (A * B)) : option B :=
  match l with
  | [] => None
  | (x, v) :: t => if decide (k = x) then Some v else assoc k t
  end.

Definition EventType_String (et : Z) : gostring :=
  match assoc et eventTypeCanonical with
  | Some s => s
  | None => "unknown"%string
  end.

(** [eventTypeNames]: names accepted in rule files. *)
Definition eventTypeNames : list (gostring * Z) :=
  [ ("syscall", EventSyscall); ("network", EventTCPConnect);
    ("tcp_connect", EventTCPConnect); ("file", EventFileAccess);
    ("file_access", EventFileAccess); ("tls", EventTLS); ("dns", EventDNS);
    ("privesc", EventPrivesc); ("net_close", EventNetClose); ("kmod", EventKmodLoad);
    ("kmod_load", EventKmodLoad); ("cgroup_esc", EventCgroupEsc); ("gpu", EventGPU);
    ("lsm_audit", EventLSMAudit); ("sequence", EventSequence);
    ("cloud_audit", EventCloudAudit); ("cloud", EventCloudAudit);
    ("iouring", EventIOUring); ("io_uring", EventIOUring);
    ("bpf_program", EventBPFProgram); ("bpf_prog_load", EventBPFProgram);
    ("bpf", EventBPFProgram); ("http_plaintext", EventHTTPPlaintext);
    ("http", EventHTTPPlaintext) ]%string.

(** ** Event payloads *)
Record SyscallEvent := mkSyscallEvent { sys_Nr : Z; sys_Ret : Z; sys_Args : list Z }.

Definition AFInet : Z := 2.
Definition AFInet6 : Z := 10.

Record NetworkEvent := mkNetworkEvent {
  net_Saddr : list byte; net_Daddr : list byte; net_Sport : Z; net_Dport : Z;
  net_Proto : Z; net_Family : Z }.

Record FileEvent := mkFileEvent {
  file_Filename : list byte; file_Flags : Z; file_Mode : Z; file_Op : Z;
  file_FDPath : gostring; file_FDPathTruncated : bool }.

Record TLSEvent := mkTLSEvent {
  tls_Direction : Z; tls_DataLen : Z; tls_Data : list byte;
  tls_JA3 : gostring; tls_JA4 : gostring; tls_JA3S : gostring }.

Record HTTPEvent := mkHTTPEvent {
  http_Direction : Z; http_DataLen : Z; http_Data : list byte }.

Record DNSEvent := mkDNSEvent {
  dns_QName : gostring; dns_QType : Z; dns_RCode : Z; dns_Direction : Z;
  dns_ResponseIPs : list gostring }.

Record PrivescEvent := mkPrivescEvent { priv_OldCaps : Z; priv_NewCaps : Z }.

Record NetworkCloseEvent := mkNetworkCloseEvent {
  nc_Saddr : list byte; nc_Daddr : list byte; nc_Sport : Z; nc_Dport : Z;
  nc_Family : Z; nc_Duration : Z }.

Record KmodEvent := mkKmodEvent { kmod_ModName : gostring; kmod_FromTmpfs : bool }.

Record CgroupEscapeEvent := mkCgroupEscapeEvent {
  cg_InitCgroupID : Z; cg_NewCgroupID : Z }.

Record GPUEvent := mkGPUEvent {
  gpu_Op : Z; gpu_DevPtr : Z; gpu_HostPtr : Z; gpu_Size : Z }.

Record IOUringEvent := mkIOUringEvent {
  iou_Op : Z; iou_Flags : Z; iou_Fd : Z; iou_ToSubmit : Z }.

Record BPFProgramEvent := mkBPFProgramEvent {
  bpf_Cmd : Z; bpf_ProgType : Z; bpf_Ret : Z }.

Record CloudAuditEvent := mkCloudAuditEvent {
  ca_Provider : gostring; ca_Service : gostring; ca_Action : gostring;
  ca_Principal : gostring; ca_ResourceARN : gostring; ca_SourceIP : gostring;
  ca_UserAgent : gostring; ca_ErrorCode : gostring; ca_Region : gostring;
  ca_EventID : gostring }.

Record TraceContext := mkTraceContext {
  tc_TraceID : gostring; tc_SpanID : gostring; tc_TraceFlags : gostring;
  tc_TraceState : gostring; tc_Source : gostring }.

Record EnrichmentInfo := mkEnrichmentInfo {
  en_PodName : gostring; en_Namespace : gostring; en_PodUID : gostring;
  en_NodeName : gostring; en_Labels : gmap gostring gostring;
  en_Annotations : gmap gostring gostring; en_ContainerID : gostring;
  en_ContainerName : gostring; en_ContainerImage : gostring;
  en_RuntimeSource : gostring }.

Definition empty_enrichment : EnrichmentInfo :=
  mkEnrichmentInfo "" "" "" "" ∅ ∅ "" "" "" "".

(** ** The unified event *)
Record Event := mkEvent {
  ev_Type : Z; ev_Timestamp : Z; ev_PID : Z; ev_TGID : Z; ev_PPID : Z; ev_UID : Z;
  ev_Comm : list byte; ev_ParentComm : list byte;
  ev_Syscall : option SyscallEvent; ev_Network : option NetworkEvent;
  ev_File : option FileEvent; ev_TLS : option TLSEvent; ev_DNS : option DNSEvent;
  ev_Privesc : option PrivescEvent; ev_NetClose : option NetworkCloseEvent;
  ev_Kmod : option KmodEvent; ev_CgroupEsc : option CgroupEscapeEvent;
  ev_GPU : option GPUEvent; ev_CloudAudit : option CloudAuditEvent;
  ev_IOUring : option IOUringEvent; ev_BPFProgram : option BPFProgramEvent;
  ev_HTTPPlaintext : option HTTPEvent; ev_TraceContext : option TraceContext;
  ev_Enrichment : option EnrichmentInfo; ev_ProcArgs : gostring;
  ev_ProcArgsTruncated : bool }.

Definition zeros (n : nat) : list byte := replicate n Byte.x00.

(** Go's zero value [types.Event{}] with the scalar header filled in: the
    composite literals of the [ToTypesEvent] methods leave every other field
    at its zero value. *)
Definition event_header (ty ts pid tgid ppid uid : Z) (comm pcomm : list byte) : Event :=
  mkEvent ty ts pid tgid ppid uid comm pcomm None None None None None None None None
    None None None None None None None None "" false.

Definition empty_event : Event := event_header 0 0 0 0 0 0 (zeros 16) (zeros 16).

(** [Event.Reset]: what is cleared before an event goes back to the pool. *)
Definition Event_Reset (e : Event) : Event :=
  mkEvent (ev_Type e) (ev_Timestamp e) (ev_PID e) (ev_TGID e) (ev_PPID e) (ev_UID e)
    (ev_Comm e) (ev_ParentComm e)
    None None None None None None None None None None None None None
    (ev_HTTPPlaintext e) None None "" false.

(** Every payload pointer is nil. *)
Definition pointers_nil (e : Event) : Prop :=
  ev_Syscall e = None /\ ev_Network e = None /\ ev_File e = None /\ ev_TLS e = None /\
  ev_DNS e = None /\ ev_Privesc e = None /\ ev_NetClose e = None /\ ev_Kmod e = None /\
  ev_CgroupEsc e = None /\ ev_GPU e = None /\ ev_CloudAudit e = None /\
  ev_IOUring e = None /\ ev_BPFProgram e = None /\ ev_HTTPPlaintext e = None /\
  ev_TraceContext e = None /\ ev_Enrichment e = None.

(** ** Alerts and incidents *)
Abbreviation Severity := gostring.
Definition SeverityWarning : Severity := "warning"%string.
Definition SeverityCritical : Severity := "critical"%string.

Record ProcessNode := mkProcessNode { pn_PID : Z; pn_PPID : Z; pn_Comm : gostring }.

(** [types.Alert] without [Details], an untyped map no modelled operation
    reads. *)
Record Alert := mkAlert {
  al_ID : gostring; al_Timestamp : Z; al_RuleID : gostring; al_RuleName : gostring;
  al_Severity : Severity; al_PID : Z; al_Comm : gostring; al_Message : gostring;
  al_TraceID : gostring; al_SpanID : gostring; al_TraceContext : option TraceContext;
  al_Enrichment : EnrichmentInfo; al_Event : Event; al_ProcessTree : list ProcessNode;
  al_Fingerprint : gostring; al_Action : gostring; al_Enforced : bool;
  al_PreAlertContext : list Event; al_Count : Z; al_FirstSeen : Z; al_LastSeen : Z;
  al_Class : gostring }.

(** A zero alert, the base of composite literals. *)
Definition empty_alert : Alert :=
  mkAlert "" zero_time "" "" "" 0 "" "" "" "" None empty_enrichment empty_event []
    "" "" false [] 0 zero_time zero_time "".

Record Incident := mkIncident {
  in_ID : gostring; in_FirstSeen : Z; in_LastSeen : Z; in_PID : Z;
  in_Namespace : gostring; in_AlertIDs : list gostring; in_AlertCount : Z;
  in_Severity : Severity; in_Status : gostring; in_RuleIDs : list gostring }.

(** ** Theorems *)

(** [Reset] leaves an event with no payload pointer exactly when the event
    carried no plaintext HTTP payload. *)
Lemma Event_Reset_pointers e :
  pointers_nil (Event_Reset e) <-> ev_HTTPPlaintext e = None.
Proof. unfold pointers_nil. simpl. tauto. Qed.

(** Every canonical name is accepted back in rule files, as the same type. *)
Lemma EventType_String_roundtrip et s :
  assoc et eventTypeCanonical = Some s -> assoc s eventTypeNames = Some et.
Proof.
  intros H. assert (In (et, s) eventTypeCanonical) as Hin.
  { revert H. generalize eventTypeCanonical.
    induction l as [|[k v] l IH]; simpl; [done|].
    case_decide; [intros; simplify_eq; auto | auto]. }
  clear H. unfold eventTypeCanonical in Hin. simpl in Hin.
  repeat destruct Hin as [Hin|Hin]; simplify_eq; try done; vm_compute; done.
Qed.
