(* ===== verification/RawEvents.v ===== *)
(** * Ring-buffer records: the C layouts and their Go decoders

    Models src/internal/bpf/events.go (the [Parse...Into] functions and the
    [ToTypesEvent] methods), src/internal/collector/network_parse.go, and the
    record layouts the kernel side writes (src/bpf/common.h,
    iouring.bpf.c, bpf_monitor.bpf.c, tls_clienthello.bpf.c). The decoders
    read a [slice] with Go's bounds checks, so a read past the sample is a
    [Panic]. *)
From S2P Require Import Prelude GoBytes Types.

(** The only error value of the decoders: the sample is too small
    (its length, the length needed). *)
Inductive parse_error := RawTooSmall (got need : Z).

(** ** Raw event structs *)

(** The 60-byte process header that most of the structs start with. *)
Record raw_header := mk_header {
  h_Type : Z; h_Timestamp : Z; h_PID : Z; h_TGID : Z; h_PPID : Z; h_UID : Z;
  h_Comm : list byte; h_ParentComm : list byte }.

(** [bpf.SyscallEvent]: no parent pid and no parent comm. *)
Record raw_syscall := mk_raw_syscall {
  rs_Type : Z; rs_Timestamp : Z; rs_PID : Z; rs_TGID : Z; rs_UID : Z;
  rs_Comm : list byte; rs_Nr : Z; rs_Ret : Z; rs_Args : list Z }.

(** [bpf.NetworkEvent] *)
Record raw_network := mk_raw_network {
  rn_hdr : raw_header; rn_Saddr : list byte; rn_Daddr : list byte;
  rn_Sport : Z; rn_Dport : Z; rn_Proto : Z; rn_Family : Z }.

(** [bpf.FileaccessEvent] *)
Record raw_file := mk_raw_file {
  rf_hdr : raw_header; rf_Filename : list byte; rf_Flags : Z; rf_Mode : Z;
  rf_Op : Z; rf_FDTruncated : Z }.

(** [bpf.PrivescRawEvent] *)
Record raw_privesc := mk_raw_privesc {
  rp_hdr : raw_header; rp_OldCaps : Z; rp_NewCaps : Z }.

(** [bpf.NetworkCloseRawEvent] *)
Record raw_netclose := mk_raw_netclose {
  rc_hdr : raw_header; rc_Saddr : list byte; rc_Daddr : list byte;
  rc_Sport : Z; rc_Dport : Z; rc_Proto : Z; rc_Family : Z; rc_DurationNs : Z }.

(** [bpf.KmodRawEvent] *)
Record raw_kmod := mk_raw_kmod {
  rk_Type : Z; rk_Timestamp : Z; rk_PID : Z; rk_UID : Z; rk_Comm : list byte;
  rk_ParentComm : list byte; rk_PPID : Z; rk_ModName : list byte; rk_FromTmpfs : Z }.

(** [bpf.CgroupEscapeRawEvent] *)
Record raw_cgroup := mk_raw_cgroup {
  rg_Type : Z; rg_Timestamp : Z; rg_PID : Z; rg_UID : Z; rg_Comm : list byte;
  rg_ParentComm : list byte; rg_PPID : Z; rg_InitCgroupID : Z; rg_NewCgroupID : Z }.

(** [bpf.IOUringRawEvent] *)
Record raw_iouring := mk_raw_iouring {
  ri_hdr : raw_header; ri_Op : Z; ri_Flags : Z; ri_Fd : Z; ri_ToSubmit : Z }.

(** [bpf.BpfMonitorRawEvent] *)
Record raw_bpfmon := mk_raw_bpfmon {
  rb_hdr : raw_header; rb_Cmd : Z; rb_ProgType : Z; rb_Ret : Z }.

(** [bpf.TlsClientHelloRawEvent] *)
Record raw_tls := mk_raw_tls {
  rt_hdr : raw_header; rt_Dport : Z; rt_CapturedLen : Z; rt_OriginalLen : Z;
  rt_Data : list byte }.

(** ** Decoders

    Each takes the sample and the struct it fills; the arrays of the struct
    are overwritten with [copy]. *)

Definition size_check {A} (raw : slice) (need : Z) (k : result parse_error A) :
  result parse_error A :=
  if len raw <? need then Err (RawTooSmall (len raw) need) else k.

(** One byte of the sample as an integer: [raw[off]]. *)
Definition u8_at (raw : slice) (off : Z) : result parse_error Z :=
  b ← slice_index raw off; Ok (byte_Z b).

(** The header reads shared by the decoders: offsets 0 to 60. *)
Definition parse_header (raw : slice) (out : raw_header) : result parse_error raw_header :=
  ty ← le_at 4 raw 0;
  ts ← le_at 8 raw 4;
  pid ← le_at 4 raw 12;
  tgid ← le_at 4 raw 16;
  ppid ← le_at 4 raw 20;
  uid ← le_at 4 raw 24;
  comm ← copy_at (h_Comm out) raw 28 16;
  pcomm ← copy_at (h_ParentComm out) raw 44 16;
  Ok (mk_header ty ts pid tgid ppid uid comm pcomm).

Fixpoint parse_args (n : nat) (raw : slice) (off : Z) : result parse_error (list Z) :=
  match n with
  | O => Ok []
  | S m => a ← le_at 8 raw off; rest ← parse_args m raw (off + 8); Ok (a :: rest)
  end.

Definition ParseSyscallEventInto (raw : slice) (out : raw_syscall) :
  result parse_error raw_syscall :=
  size_check raw 104 (
    ty ← le_at 4 raw 0;
    ts ← le_at 8 raw 4;
    pid ← le_at 4 raw 12;
    tgid ← le_at 4 raw 16;
    uid ← le_at 4 raw 20;
    comm ← copy_at (rs_Comm out) raw 24 16;
    nr ← le_at 8 raw 40;
    ret ← le_at 8 raw 48;
    args ← parse_args 6 raw 56;
    Ok (mk_raw_syscall ty ts pid tgid uid comm (i64 nr) (i64 ret) args)).

Definition ParseNetworkEventInto (raw : slice) (out : raw_network) :
  result parse_error raw_network :=
  size_check raw 98 (
    h ← parse_header raw (rn_hdr out);
    saddr ← copy_at (rn_Saddr out) raw 60 16;
    daddr ← copy_at (rn_Daddr out) raw 76 16;
    sport ← le_at 2 raw 92;
    dport ← le_at 2 raw 94;
    proto ← u8_at raw 96;
    family ← u8_at raw 97;
    Ok (mk_raw_network h saddr daddr sport dport proto family)).

Definition ParseFileaccessEventInto (raw : slice) (out : raw_file) :
  result parse_error raw_file :=
  size_check raw 326 (
    h ← parse_header raw (rf_hdr out);
    name ← copy_at (rf_Filename out) raw 60 256;
    flags ← le_at 4 raw 316;
    mode ← le_at 4 raw 320;
    op ← u8_at raw 324;
    tr ← u8_at raw 325;
    Ok (mk_raw_file h name (i32 flags) mode op tr)).

Definition ParsePrivescEventInto (raw : slice) (out : raw_privesc) :
  result parse_error raw_privesc :=
  size_check raw 92 (
    h ← parse_header raw (rp_hdr out);
    old ← le_at 8 raw 76;
    new ← le_at 8 raw 84;
    Ok (mk_raw_privesc h old new)).

(** Checks for 84 bytes ([durationOffset + 8]) but reads up to offset 98. *)
Definition ParseNetworkCloseEventInto (raw : slice) (out : raw_netclose) :
  result parse_error raw_netclose :=
  size_check raw 84 (
    h ← parse_header raw (rc_hdr out);
    saddr ← copy_at (rc_Saddr out) raw 60 16;
    daddr ← copy_at (rc_Daddr out) raw 76 16;
    sport ← le_at 2 raw 92;
    dport ← le_at 2 raw 94;
    proto ← u8_at raw 96;
    family ← u8_at raw 97;
    dur ← le_at 8 raw 76;
    Ok (mk_raw_netclose h saddr daddr sport dport proto family dur)).

Definition ParseKmodEventInto (raw : slice) (out : raw_kmod) :
  result parse_error raw_kmod :=
  size_check raw 121 (
    ty ← le_at 4 raw 0;
    ts ← le_at 8 raw 4;
    pid ← le_at 4 raw 12;
    uid ← le_at 4 raw 16;
    comm ← copy_at (rk_Comm out) raw 20 16;
    pcomm ← copy_at (rk_ParentComm out) raw 36 16;
    ppid ← le_at 4 raw 52;
    name ← copy_at (rk_ModName out) raw 56 64;
    tmpfs ← u8_at raw 120;
    Ok (mk_raw_kmod ty ts pid uid comm pcomm ppid name tmpfs)).

Definition ParseCgroupEscapeEventInto (raw : slice) (out : raw_cgroup) :
  result parse_error raw_cgroup :=
  size_check raw 72 (
    ty ← le_at 4 raw 0;
    ts ← le_at 8 raw 4;
    pid ← le_at 4 raw 12;
    uid ← le_at 4 raw 16;
    comm ← copy_at (rg_Comm out) raw 20 16;
    pcomm ← copy_at (rg_ParentComm out) raw 36 16;
    ppid ← le_at 4 raw 52;
    icg ← le_at 8 raw 56;
    ncg ← le_at 8 raw 64;
    Ok (mk_raw_cgroup ty ts pid uid comm pcomm ppid icg ncg)).

Definition ParseIOUringEventInto (raw : slice) (out : raw_iouring) :
  result parse_error raw_iouring :=
  size_check raw 73 (
    h ← parse_header raw (ri_hdr out);
    op ← u8_at raw 60;
    flags ← le_at 4 raw 61;
    fd ← le_at 4 raw 65;
    sub ← le_at 4 raw 69;
    Ok (mk_raw_iouring h op flags (i32 fd) sub)).

Definition ParseBpfMonitorEventInto (raw : slice) (out : raw_bpfmon) :
  result parse_error raw_bpfmon :=
  size_check raw 72 (
    h ← parse_header raw (rb_hdr out);
    cmd ← le_at 4 raw 60;
    pt ← le_at 4 raw 64;
    ret ← le_at 4 raw 68;
    Ok (mk_raw_bpfmon h cmd pt (i32 ret))).

(** Checks for 69 bytes but copies [min(captured_len, 512)] bytes from
    offset 68. *)
Definition ParseTlsClientHelloEventInto (raw : slice) (out : raw_tls) :
  result parse_error raw_tls :=
  size_check raw 69 (
    h ← parse_header raw (rt_hdr out);
    dport ← be_at 2 raw 60;
    captured ← le_at 2 raw 62;
    original ← le_at 4 raw 64;
    let captured := if 512 <? captured then 512 else captured in
    data ← copy_at (rt_Data out) raw 68 captured;
    Ok (mk_raw_tls h dport captured original data)).

(** ** Conversion to [types.Event] *)

Definition nullTerminatedString (l : list byte) : gostring := bytes_string (until_nul l).

Definition syscall_ToTypesEvent (e : raw_syscall) : Event :=
  mkEvent EventSyscall (rs_Timestamp e) (rs_PID e) (rs_TGID e) 0 (rs_UID e)
    (rs_Comm e) (zeros 16)
    (Some (mkSyscallEvent (rs_Nr e) (rs_Ret e) (rs_Args e)))
    None None None None None None None None None None None None None None None "" false.

(** The header part of the composite literals that set it in full. *)
Definition hdr_event (ty : Z) (h : raw_header)
    (net : option NetworkEvent) (file : option FileEvent) (tls : option TLSEvent)
    (priv : option PrivescEvent) (nc : option NetworkCloseEvent)
    (iou : option IOUringEvent) (bpf : option BPFProgramEvent) : Event :=
  mkEvent ty (h_Timestamp h) (h_PID h) (h_TGID h) (h_PPID h) (h_UID h)
    (h_Comm h) (h_ParentComm h)
    None net file tls None priv nc None None None None iou bpf None None None "" false.

Definition network_ToTypesEvent (e : raw_network) : Event :=
  hdr_event EventTCPConnect (rn_hdr e)
    (Some (mkNetworkEvent (rn_Saddr e) (rn_Daddr e) (rn_Sport e) (rn_Dport e)
             (rn_Proto e) (rn_Family e)))
    None None None None None None.

Definition file_ToTypesEvent (e : raw_file) : Event :=
  hdr_event EventFileAccess (rf_hdr e) None
    (Some (mkFileEvent (rf_Filename e) (rf_Flags e) (rf_Mode e) (rf_Op e)
             (nullTerminatedString (rf_Filename e)) (negb (rf_FDTruncated e =? 0))))
    None None None None None.

Definition privesc_ToTypesEvent (e : raw_privesc) : Event :=
  hdr_event EventPrivesc (rp_hdr e) None None None
    (Some (mkPrivescEvent (rp_OldCaps e) (rp_NewCaps e))) None None None.

(** [time.Duration(e.DurationNs)] reinterprets the unsigned nanoseconds. *)
Definition netclose_ToTypesEvent (e : raw_netclose) : Event :=
  hdr_event EventNetClose (rc_hdr e) None None None None
    (Some (mkNetworkCloseEvent (rc_Saddr e) (rc_Daddr e) (rc_Sport e) (rc_Dport e)
             (rc_Family e) (i64 (rc_DurationNs e)))) None None.

Definition kmod_ToTypesEvent (e : raw_kmod) : Event :=
  mkEvent EventKmodLoad (rk_Timestamp e) (rk_PID e) 0 (rk_PPID e) (rk_UID e)
    (rk_Comm e) (rk_ParentComm e) None None None None None None None
    (Some (mkKmodEvent (nullTerminatedString (rk_ModName e)) (negb (rk_FromTmpfs e =? 0))))
    None None None None None None None None "" false.

Definition cgroup_ToTypesEvent (e : raw_cgroup) : Event :=
  mkEvent EventCgroupEsc (rg_Timestamp e) (rg_PID e) 0 (rg_PPID e) (rg_UID e)
    (rg_Comm e) (rg_ParentComm e) None None None None None None None None
    (Some (mkCgroupEscapeEvent (rg_InitCgroupID e) (rg_NewCgroupID e)))
    None None None None None None None "" false.

Definition iouring_ToTypesEvent (e : raw_iouring) : Event :=
  hdr_event EventIOUring (ri_hdr e) None None None None None
    (Some (mkIOUringEvent (ri_Op e) (ri_Flags e) (ri_Fd e) (ri_ToSubmit e))) None.

Definition bpfmon_ToTypesEvent (e : raw_bpfmon) : Event :=
  hdr_event EventBPFProgram (rb_hdr e) None None None None None None
    (Some (mkBPFProgramEvent (rb_Cmd e) (rb_ProgType e) (rb_Ret e))).

Definition tls_ToTypesEvent (e : raw_tls) : Event :=
  hdr_event EventTLS (rt_hdr e) None None
    (Some (mkTLSEvent 0 (rt_OriginalLen e) (zeros 256) "" "" ""))
    None None None None.

(** Zero structs, as [var ne bpf.NetworkEvent] allocates them. *)
Definition zero_header : raw_header := mk_header 0 0 0 0 0 0 (zeros 16) (zeros 16).
Definition zero_network : raw_network :=
  mk_raw_network zero_header (zeros 16) (zeros 16) 0 0 0 0.
Definition zero_netclose : raw_netclose :=
  mk_raw_netclose zero_header (zeros 16) (zeros 16) 0 0 0 0 0.
Definition zero_syscall : raw_syscall := mk_raw_syscall 0 0 0 0 0 (zeros 16) 0 0 [0;0;0;0;0;0].

(** [decodeNetworkEvent] of src/internal/collector/network_parse.go. *)
Definition decodeNetworkEvent (raw : slice) : result parse_error Event :=
  if len raw <? 4 then Err (RawTooSmall (len raw) 4) else
  b0 ← u8_at raw 0; b1 ← u8_at raw 1; b2 ← u8_at raw 2; b3 ← u8_at raw 3;
  let evtType :=
    Z.lor (Z.lor (Z.lor b0 (Z.shiftl b1 8)) (Z.shiftl b2 16)) (Z.shiftl b3 24) in
  if evtType =? EventNetClose then
    nc ← ParseNetworkCloseEventInto raw zero_netclose; Ok (netclose_ToTypesEvent nc)
  else
    ne ← ParseNetworkEventInto raw zero_network; Ok (network_ToTypesEvent ne).

(** [SyscallCollector.parseEvent] of src/internal/collector/syscall.go. *)
Definition syscall_parseEvent (raw : slice) : result parse_error Event :=
  se ← ParseSyscallEventInto raw zero_syscall; Ok (syscall_ToTypesEvent se).

(** ** Kernel-side records

    The bytes the BPF programs submit: the packed [struct event] of
    src/bpf/common.h is a 60-byte header followed by a 266-byte union; [rest]
    is whatever the union bytes after the written member hold. *)
Definition c_header (h : raw_header) : list byte :=
  le_split 4 (h_Type h) ++ le_split 8 (h_Timestamp h) ++ le_split 4 (h_PID h) ++
  le_split 4 (h_TGID h) ++ le_split 4 (h_PPID h) ++ le_split 4 (h_UID h) ++
  h_Comm h ++ h_ParentComm h.

Definition c_event (h : raw_header) (member rest : list byte) : list byte :=
  c_header h ++ member ++ rest.

Definition c_syscall (nr ret : Z) (args : list Z) : list byte :=
  le_split 8 nr ++ le_split 8 ret ++ concat (map (le_split 8) args).

Definition c_network (e : raw_network) : list byte :=
  rn_Saddr e ++ rn_Daddr e ++ le_split 2 (rn_Sport e) ++ le_split 2 (rn_Dport e) ++
  le_split 1 (rn_Proto e) ++ le_split 1 (rn_Family e).

Definition c_file (e : raw_file) : list byte :=
  rf_Filename e ++ le_split 4 (rf_Flags e) ++ le_split 4 (rf_Mode e) ++
  le_split 1 (rf_Op e) ++ le_split 1 (rf_FDTruncated e).

(** [e->syscall.args[0] = duration_ns] overwrites bytes 16 to 24 of the union
    after the network member was written (src/bpf/network.bpf.c). *)
Definition c_net_close (e : raw_network) (duration : Z) : list byte :=
  take 16 (c_network e) ++ le_split 8 duration ++ drop 24 (c_network e).

Definition c_kmod (e : raw_kmod) : list byte :=
  le_split 4 (rk_Type e) ++ le_split 8 (rk_Timestamp e) ++ le_split 4 (rk_PID e) ++
  le_split 4 (rk_UID e) ++ rk_Comm e ++ rk_ParentComm e ++ le_split 4 (rk_PPID e) ++
  rk_ModName e ++ le_split 1 (rk_FromTmpfs e).

Definition c_cgroup (e : raw_cgroup) : list byte :=
  le_split 4 (rg_Type e) ++ le_split 8 (rg_Timestamp e) ++ le_split 4 (rg_PID e) ++
  le_split 4 (rg_UID e) ++ rg_Comm e ++ rg_ParentComm e ++ le_split 4 (rg_PPID e) ++
  le_split 8 (rg_InitCgroupID e) ++ le_split 8 (rg_NewCgroupID e).

Definition c_iouring (e : raw_iouring) : list byte :=
  c_header (ri_hdr e) ++ le_split 1 (ri_Op e) ++ le_split 4 (ri_Flags e) ++
  le_split 4 (ri_Fd e) ++ le_split 4 (ri_ToSubmit e).

Definition c_bpfmon (e : raw_bpfmon) : list byte :=
  c_header (rb_hdr e) ++ le_split 4 (rb_Cmd e) ++ le_split 4 (rb_ProgType e) ++
  le_split 4 (rb_Ret e).

(** [struct tls_clienthello_event] is declared without the packed attribute:
    the C ABI puts 4 padding bytes [pad] after [type] so that the 64-bit
    [timestamp] is 8-aligned. *)
Definition c_tls_clienthello (e : raw_tls) (pad : list byte) : list byte :=
  let h := rt_hdr e in
  le_split 4 (h_Type h) ++ pad ++ le_split 8 (h_Timestamp h) ++ le_split 4 (h_PID h) ++
  le_split 4 (h_TGID h) ++ le_split 4 (h_PPID h) ++ le_split 4 (h_UID h) ++
  h_Comm h ++ h_ParentComm h ++ be_split 2 (rt_Dport e) ++
  le_split 2 (rt_CapturedLen e) ++ le_split 4 (rt_OriginalLen e) ++ rt_Data e.

(** ** Well-formed records: array lengths and integer widths. *)
Definition header_wf (h : raw_header) : Prop :=
  in_range 32 (h_Type h) /\ in_range 64 (h_Timestamp h) /\ in_range 32 (h_PID h) /\
  in_range 32 (h_TGID h) /\ in_range 32 (h_PPID h) /\ in_range 32 (h_UID h) /\
  length (h_Comm h) = 16%nat /\ length (h_ParentComm h) = 16%nat.

Definition in_signed (w z : Z) : Prop := - 2 ^ (w - 1) <= z < 2 ^ (w - 1).

Definition network_wf (e : raw_network) : Prop :=
  header_wf (rn_hdr e) /\ length (rn_Saddr e) = 16%nat /\ length (rn_Daddr e) = 16%nat /\
  in_range 16 (rn_Sport e) /\ in_range 16 (rn_Dport e) /\ in_range 8 (rn_Proto e) /\
  in_range 8 (rn_Family e).

Definition file_wf (e : raw_file) : Prop :=
  header_wf (rf_hdr e) /\ length (rf_Filename e) = 256%nat /\ in_signed 32 (rf_Flags e) /\
  in_range 32 (rf_Mode e) /\ in_range 8 (rf_Op e) /\ in_range 8 (rf_FDTruncated e).

Definition kmod_wf (e : raw_kmod) : Prop :=
  in_range 32 (rk_Type e) /\ in_range 64 (rk_Timestamp e) /\ in_range 32 (rk_PID e) /\
  in_range 32 (rk_UID e) /\ length (rk_Comm e) = 16%nat /\
  length (rk_ParentComm e) = 16%nat /\ in_range 32 (rk_PPID e) /\
  length (rk_ModName e) = 64%nat /\ in_range 8 (rk_FromTmpfs e).

Definition cgroup_wf (e : raw_cgroup) : Prop :=
  in_range 32 (rg_Type e) /\ in_range 64 (rg_Timestamp e) /\ in_range 32 (rg_PID e) /\
  in_range 32 (rg_UID e) /\ length (rg_Comm e) = 16%nat /\
  length (rg_ParentComm e) = 16%nat /\ in_range 32 (rg_PPID e) /\
  in_range 64 (rg_InitCgroupID e) /\ in_range 64 (rg_NewCgroupID e).

Definition iouring_wf (e : raw_iouring) : Prop :=
  header_wf (ri_hdr e) /\ in_range 8 (ri_Op e) /\ in_range 32 (ri_Flags e) /\
  in_signed 32 (ri_Fd e) /\ in_range 32 (ri_ToSubmit e).

Definition bpfmon_wf (e : raw_bpfmon) : Prop :=
  header_wf (rb_hdr e) /\ in_range 32 (rb_Cmd e) /\ in_range 32 (rb_ProgType e) /\
  in_signed 32 (rb_Ret e).

Definition tls_wf (e : raw_tls) : Prop :=
  header_wf (rt_hdr e) /\ in_range 16 (rt_Dport e) /\ in_range 16 (rt_CapturedLen e) /\
  in_range 32 (rt_OriginalLen e) /\ length (rt_Data e) = 512%nat.

(** ** Proof support *)

Ltac read_len := unfold len; cbn [sl_data]; lens.

(** Perform the next read of a decoder run on a concatenation of fields. *)
Ltac read :=
  first
    [ rewrite le_at_data by first [lia | read_len]
    | rewrite be_at_data by first [lia | read_len]
    | rewrite copy_at_data by first [lia | read_len]
    | unfold u8_at; rewrite slice_index_data by (split; first [lia | read_len]) ];
  cbn [mbind result_bind sl_data].

Ltac widths := unfold in_range in *; cbn in *; lia.

(** The header decoder inverts the C header layout. *)
Lemma parse_header_c h out rest sp :
  header_wf h -> length (h_Comm out) = 16%nat -> length (h_ParentComm out) = 16%nat ->
  parse_header (mk_slice (c_header h ++ rest) sp) out = Ok h.
Proof.
  intros (? & ? & ? & ? & ? & ? & Hc & Hp) Oc Op. unfold parse_header, c_header.
  rewrite <- !app_assoc. do 8 (read; sel).
  rewrite !le_combine_split_id by done.
  rewrite !copy_into_full by congruence. by destruct h.
Qed.

(** Pass the size check of a decoder. *)
Ltac enter_sized :=
  match goal with |- size_check ?s ?n _ = _ =>
    unfold size_check;
    replace (len s <? n) with false by (symmetry; apply Z.ltb_ge; read_len) end.

Lemma length_c_header h : header_wf h -> length (c_header h) = 60%nat.
Proof. intros (? & ? & ? & ? & ? & ? & ? & ?). unfold c_header. lens. Qed.

Lemma length_c_network e : network_wf e -> length (c_network e) = 38%nat.
Proof. intros (? & ? & ? & ?). unfold c_network. lens. Qed.

Lemma privesc_roundtrip h nr ret old new args rest sp out :
  header_wf h -> header_wf (rp_hdr out) -> in_range 64 old -> in_range 64 new ->
  ParsePrivescEventInto (mk_slice (c_event h (c_syscall nr ret (old :: new :: args)) rest) sp) out
  = Ok (mk_raw_privesc h old new).
Proof.
  intros Hh Ho ? ?. unfold ParsePrivescEventInto, c_event, c_syscall.
  pose proof (length_c_header h Hh) as Hl. cbn [map concat]. rewrite <- !app_assoc.
  enter_sized. rewrite parse_header_c by (done || apply Ho). cbn [mbind result_bind].
  do 2 (read; sel). by rewrite !le_combine_split_id.
Qed.

Lemma kmod_roundtrip e sp out :
  kmod_wf e -> kmod_wf out -> ParseKmodEventInto (mk_slice (c_kmod e) sp) out = Ok e.
Proof.
  intros (? & ? & ? & ? & ? & ? & ? & ? & ?) (_ & _ & _ & _ & ? & ? & _ & ? & _).
  unfold ParseKmodEventInto, c_kmod. enter_sized. do 8 (read; sel). read. sel_byte.
  rewrite !copy_into_full by congruence. rewrite !le_combine_split_id by done.
  by destruct e.
Qed.

Lemma cgroup_roundtrip e sp out :
  cgroup_wf e -> cgroup_wf out ->
  ParseCgroupEscapeEventInto (mk_slice (c_cgroup e) sp) out = Ok e.
Proof.
  intros (? & ? & ? & ? & ? & ? & ? & ? & ?) (_ & _ & _ & _ & ? & ? & _ & _ & _).
  unfold ParseCgroupEscapeEventInto, c_cgroup. enter_sized. do 9 (read; sel).
  rewrite !copy_into_full by congruence. rewrite !le_combine_split_id by done.
  by destruct e.
Qed.

Lemma i32_le_split z : in_signed 32 z -> i32 (le_combine (le_split 4 z)) = z.
Proof. intros. rewrite le_combine_split. by apply signed_wrap. Qed.

Lemma iouring_roundtrip e sp out :
  iouring_wf e -> header_wf (ri_hdr out) ->
  ParseIOUringEventInto (mk_slice (c_iouring e) sp) out = Ok e.
Proof.
  intros (Hh & ? & ? & ? & ?) Ho. unfold ParseIOUringEventInto, c_iouring.
  pose proof (length_c_header _ Hh) as Hl. enter_sized.
  rewrite parse_header_c by (done || apply Ho). cbn [mbind result_bind].
  do 3 (read; sel). read. sel_byte.
  rewrite i32_le_split by done. rewrite !le_combine_split_id by done.
  by destruct e.
Qed.

Lemma bpfmon_roundtrip e sp out :
  bpfmon_wf e -> header_wf (rb_hdr out) ->
  ParseBpfMonitorEventInto (mk_slice (c_bpfmon e) sp) out = Ok e.
Proof.
  intros (Hh & ? & ? & ?) Ho. unfold ParseBpfMonitorEventInto, c_bpfmon.
  pose proof (length_c_header _ Hh) as Hl. enter_sized.
  rewrite parse_header_c by (done || apply Ho). cbn [mbind result_bind].
  do 3 (read; sel). rewrite i32_le_split, !le_combine_split_id by done. by destruct e.
Qed.

Lemma network_decode e rest sp out :
  network_wf e -> network_wf out ->
  ParseNetworkEventInto (mk_slice (c_event (rn_hdr e) (c_network e) rest) sp) out = Ok e.
Proof.
  intros (Hh & ? & ? & ? & ? & ? & ?) (Ho & ? & ? & _).
  unfold ParseNetworkEventInto, c_event, c_network.
  pose proof (length_c_header _ Hh) as Hl. rewrite <- !app_assoc. enter_sized.
  rewrite parse_header_c by (done || apply Ho). cbn [mbind result_bind].
  do 4 (read; sel). do 2 (read; sel_byte).
  rewrite !copy_into_full by congruence. rewrite !le_combine_split_id by done.
  by destruct e.
Qed.

Lemma file_decode e sp out :
  file_wf e -> file_wf out ->
  ParseFileaccessEventInto (mk_slice (c_event (rf_hdr e) (c_file e) []) sp) out = Ok e.
Proof.
  intros (Hh & ? & ? & ? & ? & ?) (Ho & ? & _).
  unfold ParseFileaccessEventInto, c_event, c_file.
  pose proof (length_c_header _ Hh) as Hl. rewrite <- !app_assoc. enter_sized.
  rewrite parse_header_c by (done || apply Ho). cbn [mbind result_bind].
  do 3 (read; sel). do 2 (read; sel_byte).
  rewrite !copy_into_full by congruence. rewrite i32_le_split by done.
  rewrite !le_combine_split_id by done. by destruct e.
Qed.

(** ** The decoders on arbitrary samples *)

(** Run a decoder whose reads all lie inside a sample of sufficient length. *)
Ltac run_reads :=
  unfold u8_at;
  repeat first
    [ rewrite le_at_data by lia | rewrite copy_at_data by lia
    | rewrite slice_index_data by lia ];
  cbn [mbind result_bind].

Ltac total_decoder :=
  unfold size_check; split; intros;
  [ by rewrite (proj2 (Z.ltb_lt _ _)) by lia
  | rewrite (proj2 (Z.ltb_ge _ _)) by lia; cbn [parse_args]; run_reads; by eexists ].

(** [d] fails with the size error below [need] bytes and succeeds from there on. *)
Definition total_from {A} (need : Z) (raw : slice) (r : result parse_error A) : Prop :=
  (len raw < need -> r = Err (RawTooSmall (len raw) need)) /\
  (need <= len raw -> exists a, r = Ok a).

(** Eight of the ten ring-buffer decoders are total: on every sample
    (whatever its contents and spare capacity) they return the size error
    below their minimum length and an event from that length on; they never
    panic. *)
Theorem decoders_total raw
    (o1 : raw_syscall) (o2 : raw_network) (o3 : raw_file) (o4 : raw_privesc)
    (o5 : raw_kmod) (o6 : raw_cgroup) (o7 : raw_iouring) (o8 : raw_bpfmon) :
  total_from 104 raw (ParseSyscallEventInto raw o1) /\
  total_from 98 raw (ParseNetworkEventInto raw o2) /\
  total_from 326 raw (ParseFileaccessEventInto raw o3) /\
  total_from 92 raw (ParsePrivescEventInto raw o4) /\
  total_from 121 raw (ParseKmodEventInto raw o5) /\
  total_from 72 raw (ParseCgroupEscapeEventInto raw o6) /\
  total_from 73 raw (ParseIOUringEventInto raw o7) /\
  total_from 72 raw (ParseBpfMonitorEventInto raw o8).
Proof.
  unfold total_from, ParseSyscallEventInto, ParseNetworkEventInto,
    ParseFileaccessEventInto, ParsePrivescEventInto, ParseKmodEventInto,
    ParseCgroupEscapeEventInto, ParseIOUringEventInto, ParseBpfMonitorEventInto, parse_header.
  repeat (split; [total_decoder|]). total_decoder.
Qed.

Lemma decoders_total_network raw out : total_from 98 raw (ParseNetworkEventInto raw out).
Proof. unfold total_from, ParseNetworkEventInto, parse_header. total_decoder. Qed.


(** The syscall decoder does not follow the kernel layout: on the
    record the syscall probe submits (a [struct event], which has [ppid] and
    [parent_comm]), the decoded uid is the kernel's parent pid, the decoded
    comm is the 4 uid bytes followed by the first 12 comm bytes, and the
    decoded syscall number comes from the end of comm and the start of
    parent_comm. *)
Theorem syscall_layout_divergence h nr ret args rest sp out :
  header_wf h -> length (rs_Comm out) = 16%nat -> length args = 6%nat ->
  exists e, ParseSyscallEventInto (mk_slice (c_event h (c_syscall nr ret args) rest) sp) out = Ok e /\
    rs_UID e = h_PPID h /\
    rs_Comm e = le_split 4 (h_UID h) ++ take 12 (h_Comm h) /\
    rs_Nr e = i64 (le_combine (drop 12 (h_Comm h) ++ take 4 (h_ParentComm h))).
Proof.
  intros (? & ? & ? & ? & ? & ? & Hc & Hp) Ho Ha.
  do 6 (destruct args as [|? args]; [done|]). destruct args; [|done].
  unfold ParseSyscallEventInto, c_event, c_syscall, c_header. cbn [map concat].
  destruct (split_at 12 4 (h_Comm h)) as (c1 & c2 & -> & ? & ?); [lia|].
  destruct (split_at 4 12 (h_ParentComm h)) as (p1 & p2 & -> & ? & ?); [lia|].
  rewrite (take_app_exact 12 c1), (drop_app_exact 12 c1), (take_app_exact 4 p1) by lia.
  rewrite <- !app_assoc. unfold size_check.
  replace (_ <? 104) with false by (symmetry; apply Z.ltb_ge; read_len).
  cbn [parse_args].
  repeat (rewrite le_at_data by first [lia | read_len]; cbn [mbind result_bind sl_data]).
  rewrite copy_at_data by first [lia | read_len].
  repeat (rewrite le_at_data by first [lia | read_len]; cbn [mbind result_bind sl_data]).
  eexists. split; [done|]. cbn [rs_UID rs_Comm rs_Nr sl_data]. split_and!.
  - sel. by apply le_combine_split_id.
  - repeat rewrite sel_skip by lens. rewrite (app_assoc (le_split 4 _)).
    rewrite sel_here by lens. apply copy_into_full. lens.
  - repeat rewrite sel_skip by lens. rewrite (app_assoc c2).
    by rewrite sel_here by lens.
Qed.

(** ** Connection-close records *)

Lemma parse_header_total raw out : 60 <= len raw -> exists h, parse_header raw out = Ok h.
Proof. intros. unfold parse_header. run_reads. by eexists. Qed.

Lemma netclose_short raw out :
  84 <= len raw < 98 -> ParseNetworkCloseEventInto raw out = Panic.
Proof.
  intros. unfold ParseNetworkCloseEventInto, size_check.
  rewrite (proj2 (Z.ltb_ge _ _)) by lia.
  destruct (parse_header_total raw (rc_hdr out)) as [h ->]; [lia|].
  rewrite (copy_at_data (rc_Saddr out)) by lia. cbn [mbind result_bind].
  destruct (copy_at (rc_Daddr out) raw 76 16) as [d| |] eqn:Ed; cbn [mbind result_bind]; try done.
  2: { unfold copy_at in Ed. destruct (slice_range raw 76 (76 + 16)) as [| |] eqn:Er; try done.
       unfold slice_range in Er. by case_match. }
  unfold u8_at.
  destruct (decide (len raw < 94)); [by rewrite (le_at_short 2 raw 92) by lia|].
  rewrite (le_at_data 2 raw 92) by lia. cbn [mbind result_bind].
  destruct (decide (len raw < 96)); [by rewrite (le_at_short 2 raw 94) by lia|].
  rewrite (le_at_data 2 raw 94) by lia. cbn [mbind result_bind].
  destruct (decide (len raw < 97)); [by rewrite (slice_index_panic raw 96) by lia|].
  rewrite (slice_index_data raw 96) by lia. cbn [mbind result_bind].
  by rewrite (slice_index_panic raw 97) by lia.
Qed.

Lemma netclose_ok raw out :
  98 <= len raw -> length (rc_Daddr out) = 16%nat ->
  exists e, ParseNetworkCloseEventInto raw out = Ok e /\
    rc_DurationNs e = le_combine (take 8 (rc_Daddr e)).
Proof.
  intros Hl Ho. unfold ParseNetworkCloseEventInto, size_check, parse_header.
  rewrite (proj2 (Z.ltb_ge _ _)) by lia. run_reads. eexists. split; [done|].
  cbn [rc_DurationNs rc_Daddr]. rewrite copy_into_full.
  - change (Z.to_nat 16) with 16%nat. rewrite take_take. done.
  - rewrite length_take, length_drop. unfold len in Hl. lia.
Qed.

(** The connection-close decoder checks for 84 bytes but reads 98:
    below 84 it returns the size error, from 84 to 97 it panics, and from 98
    on it returns an event whose duration is the first 8 bytes of its
    destination address read as an integer, because both are read at
    offset 76. *)
Theorem netclose_decoder_behaviour raw out :
  length (rc_Daddr out) = 16%nat ->
  (len raw < 84 -> ParseNetworkCloseEventInto raw out = Err (RawTooSmall (len raw) 84)) /\
  (84 <= len raw < 98 -> ParseNetworkCloseEventInto raw out = Panic) /\
  (98 <= len raw -> exists e, ParseNetworkCloseEventInto raw out = Ok e /\
     rc_DurationNs e = le_combine (take 8 (rc_Daddr e))).
Proof.
  intros Ho. split_and!.
  - intros. unfold ParseNetworkCloseEventInto, size_check. by rewrite (proj2 (Z.ltb_lt _ _)) by lia.
  - apply netclose_short.
  - by intros; apply netclose_ok.
Qed.

Lemma netclose_ok_98 raw out :
  98 <= len raw ->
  ParseNetworkCloseEventInto raw out =
    (n ← ParseNetworkEventInto raw
       (mk_raw_network (rc_hdr out) (rc_Saddr out) (rc_Daddr out) 0 0 0 0);
     dur ← le_at 8 raw 76;
     Ok (mk_raw_netclose (rn_hdr n) (rn_Saddr n) (rn_Daddr n) (rn_Sport n) (rn_Dport n)
           (rn_Proto n) (rn_Family n) dur)).
Proof.
  intros. unfold ParseNetworkCloseEventInto, ParseNetworkEventInto, size_check, parse_header.
  rewrite !(proj2 (Z.ltb_ge _ _)) by lia. by run_reads.
Qed.

(** The close record of a tracked connection loses its peer: from
    the bytes the tcp_close probe submits, the decoder recovers the duration,
    ports and source address, but the first 8 bytes of the decoded
    destination address (all of an IPv4 address) are the duration. *)
Theorem netclose_destination_lost e dur rest sp out :
  network_wf e -> in_range 64 dur -> header_wf (rc_hdr out) ->
  length (rc_Saddr out) = 16%nat -> length (rc_Daddr out) = 16%nat ->
  ParseNetworkCloseEventInto
    (mk_slice (c_event (rn_hdr e) (c_net_close e dur) rest) sp) out
  = Ok (mk_raw_netclose (rn_hdr e) (rn_Saddr e)
          (le_split 8 dur ++ drop 8 (rn_Daddr e)) (rn_Sport e) (rn_Dport e)
          (rn_Proto e) (rn_Family e) dur).
Proof.
  intros We Hd Ho Hs Hda. pose proof We as (Hh & Ha & Hb & ? & ? & ? & ?).
  set (e' := mk_raw_network (rn_hdr e) (rn_Saddr e) (le_split 8 dur ++ drop 8 (rn_Daddr e))
               (rn_Sport e) (rn_Dport e) (rn_Proto e) (rn_Family e)).
  assert (network_wf e') as We'.
  { repeat split; try apply We; try done. cbn. lens. }
  assert (c_net_close e dur = c_network e') as E.
  { unfold c_net_close, c_network. cbn [rn_Saddr rn_Daddr rn_Sport rn_Dport rn_Proto rn_Family e'].
    rewrite (take_app_exact 16) by lia.
    rewrite drop_app_ge, drop_app_le, Ha by lia. by rewrite <- !app_assoc. }
  pose proof (length_c_header _ Hh) as Hl. pose proof (length_c_network _ We') as Hn.
  rewrite E, netclose_ok_98 by (unfold c_event; read_len).
  change (rn_hdr e) with (rn_hdr e').
  rewrite network_decode by (try done; repeat split; cbn; try apply Ho; lia || done).
  cbn [mbind result_bind]. unfold c_event, c_network, e'. cbn [rn_Saddr rn_Daddr rn_hdr].
  rewrite <- !app_assoc. read. sel. by rewrite le_combine_split_id.
Qed.

(** ** ClientHello records *)

(** The captured length the decoder works with: the 16-bit field at offset
    62, clamped to the 512 bytes of the [Data] array. *)
Definition tls_captured (raw : slice) : Z :=
  Z.min 512 (le_combine (take 2 (drop 62 (sl_data raw)))).

Lemma copy_at_cap {E} dst s off n :
  0 <= off -> 0 <= n ->
  (off + n <= cap s -> exists d, copy_at (E:=E) dst s off n = Ok d) /\
  (cap s < off + n -> copy_at (E:=E) dst s off n = Panic).
Proof.
  intros. unfold copy_at, slice_range. split; intros.
  - rewrite !(proj2 (Z.leb_le _ _)) by lia. cbn. by eexists.
  - rewrite (proj2 (Z.leb_gt _ (cap s))) by lia. by rewrite andb_false_r.
Qed.

Lemma tls_run raw out :
  69 <= len raw -> exists h dport original,
    ParseTlsClientHelloEventInto raw out =
      (d ← copy_at (rt_Data out) raw 68 (tls_captured raw);
       Ok (mk_raw_tls h dport (tls_captured raw) original d)).
Proof.
  intros Hl. unfold ParseTlsClientHelloEventInto, size_check.
  rewrite (proj2 (Z.ltb_ge _ _)) by lia.
  destruct (parse_header_total raw (rt_hdr out)) as [h ->]; [lia|].
  rewrite be_at_data, !le_at_data by lia. cbn [mbind result_bind].
  change (Z.to_nat 62) with 62%nat. unfold tls_captured.
  set (c := le_combine (take 2 (drop 62 (sl_data raw)))).
  replace (if 512 <? c then 512 else c) with (Z.min 512 c)
    by (destruct (Z.ltb_spec 512 c); lia).
  by do 3 eexists.
Qed.

(** The ClientHello decoder trusts the captured length of the
    sample: from 69 bytes on it succeeds when [68 + min(captured, 512)] bytes
    are within the capacity of the sample buffer, and panics otherwise. *)
Theorem tls_decoder_behaviour raw out :
  (len raw < 69 -> ParseTlsClientHelloEventInto raw out = Err (RawTooSmall (len raw) 69)) /\
  (69 <= len raw -> 68 + tls_captured raw <= cap raw ->
     exists e, ParseTlsClientHelloEventInto raw out = Ok e /\
       rt_CapturedLen e = tls_captured raw) /\
  (69 <= len raw -> cap raw < 68 + tls_captured raw ->
     ParseTlsClientHelloEventInto raw out = Panic).
Proof.
  assert (0 <= tls_captured raw) as H0.
  { unfold tls_captured. pose proof (le_combine_range (take 2 (drop 62 (sl_data raw)))). lia. }
  split_and!.
  - intros. unfold ParseTlsClientHelloEventInto, size_check. by rewrite (proj2 (Z.ltb_lt _ _)) by lia.
  - intros Hl Hc. destruct (tls_run raw out Hl) as (h & dp & o & ->).
    apply (copy_at_cap (E:=parse_error) (rt_Data out)) in Hc as [d ->]; [by eexists | lia..].
  - intros Hl Hc. destruct (tls_run raw out Hl) as (h & dp & o & ->).
    apply (copy_at_cap (E:=parse_error) (rt_Data out)) in Hc as ->; [done | lia..].
Qed.

(** The ClientHello decoder does not follow the kernel layout: the C
    struct is not packed, so the decoder reads 4 bytes early from [timestamp]
    on. On the bytes the probe submits it decodes the pid as the high half of
    the timestamp, the tgid as the pid, the uid as the parent pid, and the
    captured length from the last two bytes of the parent comm. *)
Theorem tls_layout_divergence e pad sp out :
  tls_wf e -> length pad = 4%nat -> length (rt_Data out) = 512%nat ->
  exists r, ParseTlsClientHelloEventInto (mk_slice (c_tls_clienthello e pad) sp) out = Ok r /\
    h_PID (rt_hdr r) = h_Timestamp (rt_hdr e) / 2 ^ 32 /\
    h_TGID (rt_hdr r) = h_PID (rt_hdr e) /\
    h_UID (rt_hdr r) = h_PPID (rt_hdr e) /\
    rt_CapturedLen r = Z.min 512 (le_combine (drop 14 (h_ParentComm (rt_hdr e)))).
Proof.
  intros ((? & Ht & ? & ? & ? & ? & Hc & Hp) & ? & ? & ? & Hd) Hpad Ho.
  destruct (split_at 14 2 (h_ParentComm (rt_hdr e))) as (p1 & p2 & Ep & ? & ?); [lia|].
  set (raw := mk_slice (c_tls_clienthello e pad) sp).
  assert (sl_data raw = le_split 4 (h_Type (rt_hdr e)) ++ pad ++
    le_split 4 (h_Timestamp (rt_hdr e)) ++ le_split 4 (h_Timestamp (rt_hdr e) / 256 ^ 4) ++
    le_split 4 (h_PID (rt_hdr e)) ++ le_split 4 (h_TGID (rt_hdr e)) ++
    le_split 4 (h_PPID (rt_hdr e)) ++ le_split 4 (h_UID (rt_hdr e)) ++ h_Comm (rt_hdr e) ++
    p1 ++ p2 ++ be_split 2 (rt_Dport e) ++ le_split 2 (rt_CapturedLen e) ++
    le_split 4 (rt_OriginalLen e) ++ rt_Data e) as Er.
  { unfold raw, c_tls_clienthello. cbn [sl_data]. rewrite Ep, (le_split_app 4 4).
    by rewrite <- !app_assoc. }
  assert (len raw = 584) as Hl by (unfold len; rewrite Er; lens).
  assert (tls_captured raw = Z.min 512 (le_combine p2)) as Ecap.
  { unfold tls_captured. rewrite Er. sel. done. }
  unfold ParseTlsClientHelloEventInto, size_check, parse_header.
  rewrite (proj2 (Z.ltb_ge _ _)) by lia.
  pose proof (le_combine_range (take 2 (drop 62 (sl_data raw)))) as Hr.
  run_reads. rewrite be_at_data by lia. cbn [mbind result_bind].
  change (Z.to_nat 62) with 62%nat.
  replace (if 512 <? le_combine (take 2 (drop 62 (sl_data raw))) then _ else _) with (tls_captured raw)
    by (unfold tls_captured; destruct (Z.ltb_spec 512 (le_combine (take 2 (drop 62 (sl_data raw))))); lia).
  rewrite copy_at_data by (unfold tls_captured in *; lia).
  eexists. split; [done|]. cbn [rt_hdr h_PID h_TGID h_UID rt_CapturedLen].
  rewrite Ep, (drop_app_exact 14) by lia. rewrite Er. split_and!; [sel.. | done].
  - rewrite le_combine_split_id; [done|]. unfold in_range in *. cbn in *.
    split; [apply Z.div_pos | apply Z.div_lt_upper_bound]; lia.
  - by apply le_combine_split_id.
  - by apply le_combine_split_id.
Qed.

(** ** The network collector's dispatcher *)

Lemma take_4 (l : list byte) :
  (4 <= length l)%nat -> exists a b c d r, l = a :: b :: c :: d :: r.
Proof.
  intros. do 4 (destruct l as [|? l]; [simpl in *; lia|]). by do 5 eexists.
Qed.

Lemma decode_type raw :
  4 <= len raw ->
  decodeNetworkEvent raw =
    if le_combine (take 4 (sl_data raw)) =? EventNetClose then
      nc ← ParseNetworkCloseEventInto raw zero_netclose; Ok (netclose_ToTypesEvent nc)
    else ne ← ParseNetworkEventInto raw zero_network; Ok (network_ToTypesEvent ne).
Proof.
  intros H. unfold decodeNetworkEvent. rewrite (proj2 (Z.ltb_ge _ _)) by lia.
  unfold u8_at. rewrite !slice_index_data by lia. cbn [mbind result_bind].
  destruct (take_4 (sl_data raw)) as (a & b & c & d & r & E); [unfold len in H; lia|].
  rewrite E. change (take 4 (a :: b :: c :: d :: r)) with [a; b; c; d]. cbn [le_combine].
  change (drop (Z.to_nat 0) (a :: b :: c :: d :: r)) with (a :: b :: c :: d :: r).
  change (drop (Z.to_nat 1) (a :: b :: c :: d :: r)) with (b :: c :: d :: r).
  change (drop (Z.to_nat 2) (a :: b :: c :: d :: r)) with (c :: d :: r).
  change (drop (Z.to_nat 3) (a :: b :: c :: d :: r)) with (d :: r). cbn [head from_option id].
  pose proof (byte_Z_range a). pose proof (byte_Z_range b). pose proof (byte_Z_range c).
  rewrite (lor_shiftl_add _ _ 8) by (unfold in_range; lia).
  rewrite (lor_shiftl_add _ _ 16) by (unfold in_range; lia).
  rewrite (lor_shiftl_add _ _ 24) by (unfold in_range; lia).
  replace (byte_Z a + byte_Z b * 2 ^ 8 + byte_Z c * 2 ^ 16 + byte_Z d * 2 ^ 24) with
    (byte_Z a + 256 * (byte_Z b + 256 * (byte_Z c + 256 * (byte_Z d + 256 * 0)))) by lia.
  done.
Qed.

(** The network dispatcher on every sample: it routes on the
    little-endian type field; from 98 bytes on it returns a connect or a close
    event; a shorter sample is an error, except that a close sample of 84 to
    97 bytes crashes the collector. *)
Theorem network_dispatch raw :
  let ty := le_combine (take 4 (sl_data raw)) in
  (98 <= len raw -> exists e, decodeNetworkEvent raw = Ok e /\
     ev_Type e = if ty =? EventNetClose then EventNetClose else EventTCPConnect) /\
  (len raw < 98 -> ty <> EventNetClose -> exists err, decodeNetworkEvent raw = Err err) /\
  (len raw < 84 -> exists err, decodeNetworkEvent raw = Err err) /\
  (84 <= len raw < 98 -> ty = EventNetClose -> decodeNetworkEvent raw = Panic).
Proof.
  intros ty.
  pose proof (proj1 (decoders_total_network raw zero_network)) as Hn.
  assert (len raw < 4 -> decodeNetworkEvent raw = Err (RawTooSmall (len raw) 4)) as H4.
  { intros. unfold decodeNetworkEvent. by rewrite (proj2 (Z.ltb_lt _ _)) by lia. }
  split_and!.
  - intros. rewrite decode_type by lia. fold ty. destruct (ty =? EventNetClose).
    + destruct (netclose_ok raw zero_netclose) as (e & -> & _); [lia | done | by eexists].
    + destruct (decoders_total_network raw zero_network) as [_ K].
      destruct K as [e ->]; [lia | by eexists].
  - intros. destruct (decide (len raw < 4)); [rewrite H4 by lia; by eexists|].
    rewrite decode_type by lia. fold ty. rewrite (proj2 (Z.eqb_neq _ _)) by done.
    rewrite Hn by lia. by eexists.
  - intros. destruct (decide (len raw < 4)); [rewrite H4 by lia; by eexists|].
    rewrite decode_type by lia. fold ty. destruct (ty =? EventNetClose).
    + unfold ParseNetworkCloseEventInto, size_check. rewrite (proj2 (Z.ltb_lt _ _)) by lia. by eexists.
    + rewrite Hn by lia. by eexists.
  - intros. rewrite decode_type by lia. fold ty. rewrite (proj2 (Z.eqb_eq _ _)) by done.
    by rewrite netclose_short by lia.
Qed.

(** ** Witnesses *)

Definition sample_header : raw_header :=
  mk_header 1 5000000000 42 43 7 1000 (string_bytes "bash" ++ zeros 12) (zeros 16).
Definition sample_network : raw_network :=
  mk_raw_network sample_header (zeros 16) (map Z_byte [10; 0; 0; 1] ++ zeros 12) 1234 443 6 2.

Lemma sample_header_wf : header_wf sample_header.
Proof. unfold header_wf, in_range; cbn; split_and!; lia || done. Qed.

Lemma syscall_layout_divergence_witness :
  exists e, ParseSyscallEventInto
      (mk_slice (c_event sample_header (c_syscall 59 0 [0;0;0;0;0;0]) []) []) zero_syscall = Ok e /\
    rs_UID e = 7 /\ h_UID sample_header = 1000 /\ rs_Nr e = 0.
Proof.
  destruct (syscall_layout_divergence sample_header 59 0 [0;0;0;0;0;0] [] [] zero_syscall
              sample_header_wf eq_refl eq_refl) as (e & E & U & _ & N).
  exists e. rewrite E, U, N. split_and!; vm_compute; reflexivity.
Defined.

Lemma netclose_decoder_witness :
  ParseNetworkCloseEventInto (of_bytes (zeros 90)) zero_netclose = Panic.
Proof.
  apply (netclose_decoder_behaviour (of_bytes (zeros 90)) zero_netclose eq_refl).
  vm_compute; split; congruence.
Defined.

Lemma netclose_destination_witness :
  exists e, ParseNetworkCloseEventInto
      (mk_slice (c_event sample_header (c_net_close sample_network 77) []) []) zero_netclose = Ok e /\
    rc_DurationNs e = 77 /\ take 4 (rc_Daddr e) = le_split 4 77 /\
    take 4 (rn_Daddr sample_network) = map Z_byte [10; 0; 0; 1].
Proof.
  eexists. split.
  - apply (netclose_destination_lost sample_network 77 [] [] zero_netclose);
      unfold network_wf, header_wf, in_range; cbn; repeat split; try lia; reflexivity.
  - split_and!; vm_compute; reflexivity.
Defined.

Definition sample_tls : raw_tls := mk_raw_tls sample_header 443 200 200 (zeros 512).

Lemma tls_layout_divergence_witness :
  exists r, ParseTlsClientHelloEventInto (mk_slice (c_tls_clienthello sample_tls (zeros 4)) [])
      (mk_raw_tls zero_header 0 0 0 (zeros 512)) = Ok r /\
    h_PID (rt_hdr r) = 1 /\ h_TGID (rt_hdr r) = 42 /\ rt_CapturedLen r = 0.
Proof.
  destruct (tls_layout_divergence sample_tls (zeros 4) [] (mk_raw_tls zero_header 0 0 0 (zeros 512)))
    as (r & E & P & T & _ & C).
  - split; [apply sample_header_wf|]. unfold in_range; cbn; split_and!; try lia; reflexivity.
  - reflexivity.
  - reflexivity.
  - exists r. rewrite E, P, T, C. split_and!; vm_compute; reflexivity.
Defined.
