(* ===== verification/DnsWire.v ===== *)
(** * The userspace DNS decoder

    Models src/internal/collector/dns_parse.go: [decodeDNSName] with its
    compression-pointer loop, [decodeDNSAnswerIPs], [parseDNSWireMessage] and
    [decodeDNSEvent]. The loop of [decodeDNSName] is one [dns_step] per
    iteration, run with fuel; running out of fuel is a [Panic], so the
    absence of panics proved below also says that the loop ends. *)
From stdpp Require Import pretty.
From S2P Require Import Prelude GoBytes Types.

(** Decoders that return no error value. *)
Abbreviation go A := (result Empty_set A).

Definition dnsRawEventFixedLen : Z := 4 + 8 + 4 + 4 + 4 + 16 + 1 + 2.
Definition dnsMaxPayload : Z := 256.
Definition dnsMaxNameJumps : Z := 32.

(** ** decodeDNSName *)

(** The loop variables: position, string builder, end position (-1 until
    known), number of pointers followed. *)
Record dns_state := mk_dns {
  d_pos : Z; d_sb : list byte; d_endPos : Z; d_jumps : Z }.

Definition dot : byte := Z_byte 46.

(** What an iteration does with the byte [b] at the current position. *)
Definition dns_byte (payload : slice) (st : dns_state) (b : byte) :
  go (dns_state + option (list byte * Z)) :=
  let pos := d_pos st in
  if byte_Z b =? 0 then
    let pos := pos + 1 in
    let endPos := if d_endPos st =? -1 then pos else d_endPos st in
    Ok (inr (Some (d_sb st, endPos)))
  else if Z.land (byte_Z b) 0xC0 =? 0xC0 then
    if len payload <=? pos + 1 then Ok (inr None) else
    let endPos := if d_endPos st =? -1 then pos + 2 else d_endPos st in
    let jumps := d_jumps st + 1 in
    if dnsMaxNameJumps <? jumps then Ok (inr None) else
    w ← slice_range payload pos (pos + 2);
    v ← be_uint 2 w;
    Ok (inl (mk_dns (Z.land v 0x3FFF) (d_sb st) endPos jumps))
  else
    let labelLen := byte_Z b in
    let pos := pos + 1 in
    if len payload <? pos + labelLen then Ok (inr None) else
    l ← slice_range payload pos (pos + labelLen);
    let sb := (if 0 <? Z.of_nat (length (d_sb st)) then d_sb st ++ [dot] else d_sb st) ++ sl_data l in
    Ok (inl (mk_dns (pos + labelLen) sb (d_endPos st) (d_jumps st))).

(** One iteration of the loop: [inl] continues it, [inr] returns
    [Some (name, end)] for ok and [None] for the failure result. *)
Definition dns_step (payload : slice) (st : dns_state) :
  go (dns_state + option (list byte * Z)) :=
  if (d_pos st <? 0) || (len payload <=? d_pos st) then Ok (inr None) else
  b ← slice_index payload (d_pos st); dns_byte payload st b.

Fixpoint dns_run (fuel : nat) (payload : slice) (st : dns_state) :
  go (option (list byte * Z)) :=
  match fuel with
  | O => Panic
  | S fuel =>
      r ← dns_step payload st;
      match r with
      | inl st' => dns_run fuel payload st'
      | inr res => Ok res
      end
  end.

(** Enough iterations for any run: at most 33 stretches between pointers,
    each at most [len payload] labels long. *)
Definition dns_fuel (payload : slice) : nat :=
  (34 * (length (sl_data payload) + 1) + 1)%nat.

Definition decodeDNSName (payload : slice) (pos : Z) : go (option (list byte * Z)) :=
  dns_run (dns_fuel payload) payload (mk_dns pos [] (-1) 0).

(** ** decodeDNSAnswerIPs *)

(** [net.IPv4(a, b, c, d).String()]: dotted decimal. *)
Definition ipv4_string (a b c d : byte) : gostring :=
  (pretty (byte_Z a) +:+ "." +:+ pretty (byte_Z b) +:+ "." +:+
   pretty (byte_Z c) +:+ "." +:+ pretty (byte_Z d))%string.

(** The counted loop over the answer records; [break] ends it with what was
    collected. *)
Fixpoint decodeDNSAnswerIPs (n : nat) (payload : slice) (pos : Z) (ips : list gostring) :
  go (list gostring) :=
  match n with
  | O => Ok ips
  | S n =>
      nm ← decodeDNSName payload pos;
      match nm with
      | None => Ok ips
      | Some (_, pos) =>
          if len payload <? pos + 10 then Ok ips else
          t ← slice_range payload pos (pos + 2); rtype ← be_uint 2 t;
          l ← slice_range payload (pos + 8) (pos + 10); rdlen ← be_uint 2 l;
          let pos := pos + 10 in
          if len payload <? pos + rdlen then Ok ips else
          if (rtype =? 1) && (rdlen =? 4) then
            b0 ← slice_index payload pos; b1 ← slice_index payload (pos + 1);
            b2 ← slice_index payload (pos + 2); b3 ← slice_index payload (pos + 3);
            decodeDNSAnswerIPs n payload (pos + rdlen) (ips ++ [ipv4_string b0 b1 b2 b3])
          else decodeDNSAnswerIPs n payload (pos + rdlen) ips
      end
  end.

(** ** parseDNSWireMessage *)
Record dnsWireMessage := mk_msg {
  m_qname : list byte; m_qtype : Z; m_rcode : Z; m_responseIPs : list gostring }.

(** [None] is the failure result [(msg, false)]; no caller reads that message. *)
Definition parseDNSWireMessage (payload : slice) : go (option dnsWireMessage) :=
  if len payload <? 12 then Ok None else
  fw ← slice_range payload 2 4; flags ← be_uint 2 fw;
  let isResponse := negb (Z.land flags 0x8000 =? 0) in
  let rcode := Z.land flags 0x000f in
  qw ← slice_range payload 4 6; qdCount ← be_uint 2 qw;
  aw ← slice_range payload 6 8; anCount ← be_uint 2 aw;
  if qdCount =? 0 then Ok None else
  nm ← decodeDNSName payload 12;
  match nm with
  | None => Ok None
  | Some (qname, pos) =>
      if len payload <? pos + 4 then Ok (Some (mk_msg qname 0 rcode [])) else
      tw ← slice_range payload pos (pos + 2); qtype ← be_uint 2 tw;
      let pos := pos + 4 in
      ips ← (if isResponse then decodeDNSAnswerIPs (Z.to_nat anCount) payload pos [] else Ok []);
      Ok (Some (mk_msg qname qtype rcode ips))
  end.

(** ** decodeDNSEvent: [None] is the nil event. *)
Definition decodeDNSEvent (raw : slice) : go (option Event) :=
  if len raw <? dnsRawEventFixedLen then Ok None else
  eventType ← le_at 4 raw 0;
  if negb (eventType =? EventDNS) then Ok None else
  timestamp ← le_at 8 raw 4;
  pid ← le_at 4 raw 12;
  tgid ← le_at 4 raw 16;
  uid ← le_at 4 raw 20;
  cs ← slice_from raw 24;
  let comm := copy_into (zeros 16) (sl_data cs) in
  direction ← slice_index raw 40;
  payloadLen ← le_at 2 raw 41;
  if (dnsMaxPayload <? payloadLen) || (len raw <? 43 + payloadLen) then Ok None else
  payload ← slice_range raw 43 (43 + payloadLen);
  msg ← parseDNSWireMessage payload;
  match msg with
  | None => Ok None
  | Some m =>
      Ok (Some (mkEvent EventDNS timestamp pid tgid 0 uid comm (zeros 16)
        None None None None
        (Some (mkDNSEvent (bytes_string (m_qname m)) (m_qtype m) (m_rcode m)
                 (byte_Z direction) (m_responseIPs m)))
        None None None None None None None None None None None "" false))
  end.

(** ** Numeric codes as strings *)
Definition qtypeToString (qtype : Z) : gostring :=
  match assoc qtype
    [(1, "A"); (2, "NS"); (5, "CNAME"); (6, "SOA"); (12, "PTR"); (15, "MX"); (16, "TXT");
     (28, "AAAA"); (33, "SRV"); (255, "ANY")]%string with
  | Some s => s
  | None => ("TYPE" +:+ pretty qtype)%string
  end.

Definition rcodeToString (rcode : Z) : gostring :=
  match assoc rcode
    [(0, "NOERROR"); (1, "FORMERR"); (2, "SERVFAIL"); (3, "NXDOMAIN"); (4, "NOTIMP");
     (5, "REFUSED")]%string with
  | Some s => s
  | None => ("RCODE" +:+ pretty rcode)%string
  end.

(** [intToIPv4]: a 32-bit address, most significant byte first. *)
Definition intToIPv4 (ip : Z) : gostring :=
  match be_split 4 ip with
  | [a; b; c; d] => ipv4_string a b c d
  | _ => ""%string
  end.

(** ** Specification: RFC 1035 names

    [name_at d j pos labels e]: a name starts at [pos] in the message [d],
    spells [labels], is read through [j] compression pointers, and ends
    (in the original stream) at [e]. *)
Inductive name_at (d : list byte) : Z -> Z -> list (list byte) -> Z -> Prop :=
| name_end pos :
    0 <= pos -> d !! Z.to_nat pos = Some Byte.x00 -> name_at d 0 pos [] (pos + 1)
| name_label j pos b rest e :
    0 <= pos -> d !! Z.to_nat pos = Some b -> 0 < byte_Z b < 192 ->
    pos + 1 + byte_Z b <= Z.of_nat (length d) ->
    name_at d j (pos + 1 + byte_Z b) rest e ->
    name_at d j pos (take (Z.to_nat (byte_Z b)) (drop (Z.to_nat (pos + 1)) d) :: rest) e
| name_pointer j pos b1 b2 labels e :
    0 <= pos -> d !! Z.to_nat pos = Some b1 -> d !! Z.to_nat (pos + 1) = Some b2 ->
    192 <= byte_Z b1 ->
    name_at d j ((byte_Z b1 - 192) * 256 + byte_Z b2) labels e ->
    name_at d (j + 1) pos labels (pos + 2).

(** Labels joined with dots. *)
Fixpoint join_dots (labels : list (list byte)) : list byte :=
  match labels with
  | [] => []
  | [l] => l
  | l :: rest => l ++ dot :: join_dots rest
  end.

(** What the string builder holds after appending [labels] to [sb]. *)
Definition sb_append (sb l : list byte) : list byte :=
  (if 0 <? Z.of_nat (length sb) then sb ++ [dot] else sb) ++ l.

(** ** Bytes *)

Lemma is_pointer_byte b : (Z.land (byte_Z b) 0xC0 =? 0xC0) = (192 <=? byte_Z b).
Proof. destruct b; vm_compute; reflexivity. Qed.

Lemma byte_zero b : (byte_Z b =? 0) = true -> b = Byte.x00.
Proof. intros H. zbool. by apply byte_Z_inj. Qed.

Lemma pointer_value b1 b2 :
  192 <= byte_Z b1 ->
  Z.land (be_combine [b1; b2]) 0x3FFF = (byte_Z b1 - 192) * 256 + byte_Z b2.
Proof.
  intros. change 0x3FFF with (Z.ones 14). rewrite Z.land_ones by lia.
  pose proof (byte_Z_range b1). pose proof (byte_Z_range b2).
  unfold be_combine. cbn [rev app le_combine].
  symmetry. apply Z.mod_unique with 3; cbn; lia.
Qed.

(** ** One iteration *)

(** The three ways an iteration can go on or succeed, given the byte at
    [pos]; in every other case the loop returns the failure result. *)
Inductive dns_outcome (d : list byte) (st : dns_state) : dns_state + option (list byte * Z) -> Prop :=
| do_fail : dns_outcome d st (inr None)
| do_end :
    0 <= d_pos st -> d !! Z.to_nat (d_pos st) = Some Byte.x00 ->
    dns_outcome d st (inr (Some (d_sb st, if d_endPos st =? -1 then d_pos st + 1 else d_endPos st)))
| do_label b :
    0 <= d_pos st -> d !! Z.to_nat (d_pos st) = Some b -> 0 < byte_Z b < 192 ->
    d_pos st + 1 + byte_Z b <= Z.of_nat (length d) ->
    dns_outcome d st (inl (mk_dns (d_pos st + 1 + byte_Z b)
      (sb_append (d_sb st) (take (Z.to_nat (byte_Z b)) (drop (Z.to_nat (d_pos st + 1)) d)))
      (d_endPos st) (d_jumps st)))
| do_jump b1 b2 :
    0 <= d_pos st -> d !! Z.to_nat (d_pos st) = Some b1 ->
    d !! Z.to_nat (d_pos st + 1) = Some b2 -> 192 <= byte_Z b1 -> d_jumps st + 1 <= dnsMaxNameJumps ->
    dns_outcome d st (inl (mk_dns ((byte_Z b1 - 192) * 256 + byte_Z b2) (d_sb st)
      (if d_endPos st =? -1 then d_pos st + 2 else d_endPos st) (d_jumps st + 1))).

Lemma slice_pair payload pos b1 b2 :
  0 <= pos -> sl_data payload !! Z.to_nat pos = Some b1 ->
  sl_data payload !! Z.to_nat (pos + 1) = Some b2 ->
  exists w, slice_range (E:=Empty_set) payload pos (pos + 2) = Ok w /\
    be_uint (E:=Empty_set) 2 w = Ok (be_combine [b1; b2]).
Proof.
  intros Hp H1 H2. pose proof (lookup_lt_Some _ _ _ H2).
  destruct (slice_range_data (E:=Empty_set) payload pos (pos + 2)) as [sp Hs];
    [lia | unfold len; lia |].
  eexists; split; [exact Hs|].
  replace (Z.to_nat (pos + 1)) with (S (Z.to_nat pos)) in H2 by lia.
  rewrite (drop_S _ _ _ H1), (drop_S _ _ _ H2).
  replace (Z.to_nat (pos + 2 - pos)) with 2%nat by lia. done.
Qed.

Lemma dns_step_outcome payload st :
  exists r, dns_step payload st = Ok r /\ dns_outcome (sl_data payload) st r.
Proof.
  unfold dns_step, dns_byte.
  destruct ((d_pos st <? 0) || (len payload <=? d_pos st)) eqn:Hb.
  { eexists; split; [done | constructor]. }
  zbool. destruct (slice_index_ok (E:=Empty_set) payload (d_pos st)) as (b & -> & Hlk); [lia|].
  cbn [mbind result_bind]. pose proof (byte_Z_range b).
  destruct (byte_Z b =? 0) eqn:Hz.
  { eexists; split; [done|]. apply byte_zero in Hz. subst. by constructor. }
  rewrite is_pointer_byte. zbool. destruct (192 <=? byte_Z b) eqn:Hp; zbool.
  - destruct (len payload <=? d_pos st + 1) eqn:Hl; [eexists; split; [done | constructor]|].
    destruct (dnsMaxNameJumps <? d_jumps st + 1) eqn:Hj; [eexists; split; [done | constructor]|].
    zbool. destruct (slice_index_ok (E:=Empty_set) payload (d_pos st + 1)) as (b2 & _ & Hlk2); [lia|].
    destruct (slice_pair payload (d_pos st) b b2) as (w & -> & Hw); [lia | done..|].
    cbn [mbind result_bind]. rewrite Hw. cbn [mbind result_bind].
    rewrite pointer_value by done. eexists; split; [done|]. by econstructor.
  - destruct (len payload <? d_pos st + 1 + byte_Z b) eqn:Hl; [eexists; split; [done | constructor]|].
    zbool. destruct (slice_range_data (E:=Empty_set) payload (d_pos st + 1)
      (d_pos st + 1 + byte_Z b)) as [sp ->]; [lia..|].
    cbn [mbind result_bind sl_data].
    replace (d_pos st + 1 + byte_Z b - (d_pos st + 1)) with (byte_Z b) by lia.
    eexists; split; [done|]. constructor; try done; unfold len in *; lia.
Qed.

(** ** The loop *)

(** Iterations left, at most. *)
Definition dns_measure (payload : slice) (st : dns_state) : Z :=
  (33 - d_jumps st) * (len payload + 1) + Z.max 0 (len payload - d_pos st).

Lemma dns_run_total fuel payload st :
  0 <= d_jumps st <= 32 -> dns_measure payload st < Z.of_nat fuel ->
  exists r, dns_run fuel payload st = Ok r.
Proof.
  revert st. induction fuel as [|fuel IH]; intros st Hj Hm.
  - pose proof (len_nonneg payload). unfold dns_measure in Hm. nia.
  - cbn [dns_run]. destruct (dns_step_outcome payload st) as (r & -> & Ho).
    cbn [mbind result_bind]. pose proof (len_nonneg payload).
    destruct Ho as [| |b|b1 b2]; [by eexists | by eexists | |]; apply IH;
      unfold dns_measure, dnsMaxNameJumps in *; cbn [d_jumps d_pos] in *; try lia.
    + unfold len in *. pose proof (lookup_lt_Some _ _ _ H1). lia.
    + pose proof (byte_Z_range b1). pose proof (byte_Z_range b2). nia.
Qed.

Lemma decodeDNSName_total payload pos : exists r, decodeDNSName payload pos = Ok r.
Proof.
  unfold decodeDNSName. destruct (decide (pos < 0)) as [Hn|Hp].
  - unfold dns_fuel. rewrite Nat.add_1_r. cbn [dns_run]. unfold dns_step. cbn [d_pos].
    rewrite (proj2 (Z.ltb_lt pos 0)) by lia. by eexists.
  - apply dns_run_total; [cbn; lia|]. unfold dns_measure, dns_fuel, len. cbn [d_jumps d_pos]. lia.
Qed.

Lemma dns_run_mono fuel k payload st r :
  dns_run fuel payload st = Ok r -> dns_run (fuel + k) payload st = Ok r.
Proof.
  revert st. induction fuel as [|fuel IH]; intros st; [done|]. cbn [dns_run Nat.add].
  destruct (dns_step payload st) as [[st'|res]| |]; cbn [mbind result_bind]; auto.
Qed.

Lemma dns_run_sound fuel payload st nm e :
  d_jumps st <= 32 -> dns_run fuel payload st = Ok (Some (nm, e)) ->
  exists j labels e0, 0 <= j /\ d_jumps st + j <= 32 /\
    name_at (sl_data payload) j (d_pos st) labels e0 /\
    nm = fold_left sb_append labels (d_sb st) /\
    e = if d_endPos st =? -1 then e0 else d_endPos st.
Proof.
  revert st. induction fuel as [|fuel IH]; intros st Hj; [done|]. cbn [dns_run].
  destruct (dns_step_outcome payload st) as (r & -> & Ho). cbn [mbind result_bind].
  destruct Ho as [|Hp Hd|b Hp Hd Hb Hl|b1 b2 Hp H1 H2 Hb Hm].
  - done.
  - intros [= <- <-]. exists 0, [], (d_pos st + 1). split_and!; try lia; by try constructor.
  - intros Hr. apply IH in Hr as (j & labels & e0 & ? & ? & ? & -> & ->); [|done].
    exists j, (take (Z.to_nat (byte_Z b)) (drop (Z.to_nat (d_pos st + 1)) (sl_data payload)) :: labels), e0.
    split_and!; try done. by constructor.
  - intros Hr. unfold dnsMaxNameJumps in *.
    apply IH in Hr as (j & labels & e0 & ? & ? & ? & -> & ->); cbn [d_jumps d_endPos d_sb d_pos] in *; [|lia].
    exists (j + 1), labels, (d_pos st + 2). split_and!; try lia; try done.
    + by econstructor.
    + destruct (d_endPos st =? -1) eqn:E; [|by rewrite E].
      by rewrite (proj2 (Z.eqb_neq _ _)) by lia.
Qed.

Lemma name_at_nonneg d j pos labels e : name_at d j pos labels e -> 0 <= j.
Proof. induction 1; lia. Qed.

Lemma dns_step_enter payload st b :
  0 <= d_pos st -> sl_data payload !! Z.to_nat (d_pos st) = Some b ->
  dns_step payload st = dns_byte payload st b.
Proof.
  intros Hp Hd. pose proof (lookup_lt_Some _ _ _ Hd). unfold dns_step.
  rewrite (proj2 (Z.ltb_ge _ 0)), (proj2 (Z.leb_gt _ _)) by (unfold len; lia).
  destruct (slice_index_ok (E:=Empty_set) payload (d_pos st)) as (b' & -> & Hlk);
    [unfold len; lia|]. cbn. congruence.
Qed.

Lemma dns_byte_label payload st b :
  0 <= d_pos st -> 0 < byte_Z b < 192 -> d_pos st + 1 + byte_Z b <= len payload ->
  dns_byte payload st b = Ok (inl (mk_dns (d_pos st + 1 + byte_Z b)
    (sb_append (d_sb st) (take (Z.to_nat (byte_Z b)) (drop (Z.to_nat (d_pos st + 1)) (sl_data payload))))
    (d_endPos st) (d_jumps st))).
Proof.
  intros. unfold dns_byte.
  rewrite is_pointer_byte, (proj2 (Z.eqb_neq _ 0)), (proj2 (Z.leb_gt 192 _)) by lia.
  rewrite (proj2 (Z.ltb_ge (len payload) _)) by lia.
  destruct (slice_range_data (E:=Empty_set) payload (d_pos st + 1) (d_pos st + 1 + byte_Z b))
    as [sp ->]; [lia..|].
  by replace (d_pos st + 1 + byte_Z b - (d_pos st + 1)) with (byte_Z b) by lia.
Qed.

Lemma dns_byte_jump payload st b1 b2 :
  0 <= d_pos st -> sl_data payload !! Z.to_nat (d_pos st) = Some b1 ->
  sl_data payload !! Z.to_nat (d_pos st + 1) = Some b2 -> 192 <= byte_Z b1 ->
  d_jumps st + 1 <= dnsMaxNameJumps ->
  dns_byte payload st b1 = Ok (inl (mk_dns ((byte_Z b1 - 192) * 256 + byte_Z b2) (d_sb st)
      (if d_endPos st =? -1 then d_pos st + 2 else d_endPos st) (d_jumps st + 1))).
Proof.
  intros Hp H1 H2 Hb Hj. pose proof (lookup_lt_Some _ _ _ H2). unfold dns_byte.
  rewrite is_pointer_byte, (proj2 (Z.eqb_neq _ 0)), (proj2 (Z.leb_le 192 _)) by lia.
  rewrite (proj2 (Z.leb_gt (len payload) _)) by (unfold len; lia).
  rewrite (proj2 (Z.ltb_ge dnsMaxNameJumps _)) by lia.
  destruct (slice_pair payload (d_pos st) b1 b2) as (w & -> & Hw); [done..|].
  cbn [mbind result_bind]. rewrite Hw. cbn [mbind result_bind]. by rewrite pointer_value.
Qed.

Lemma dns_run_complete payload j pos labels e0 sb endPos jumps :
  name_at (sl_data payload) j pos labels e0 -> 0 <= jumps -> jumps + j <= 32 ->
  exists fuel, dns_run fuel payload (mk_dns pos sb endPos jumps)
    = Ok (Some (fold_left sb_append labels sb, if endPos =? -1 then e0 else endPos)).
Proof.
  intros Hn. revert sb endPos jumps.
  induction Hn as [pos Hp Hd|j pos b rest e Hp Hd Hb Hl Hn IH|j pos b1 b2 labels e Hp H1 H2 Hb Hn IH];
    intros sb endPos jumps Hj Hs.
  - exists 1%nat. cbn [dns_run]. by rewrite (dns_step_enter _ _ Byte.x00).
  - destruct (IH (sb_append sb (take (Z.to_nat (byte_Z b)) (drop (Z.to_nat (pos + 1)) (sl_data payload))))
      endPos jumps Hj Hs) as [f Hf].
    exists (S f). cbn [dns_run]. rewrite (dns_step_enter _ _ b), dns_byte_label by done. exact Hf.
  - apply name_at_nonneg in Hn.
    destruct (IH sb (if endPos =? -1 then pos + 2 else endPos) (jumps + 1)) as [f Hf]; [lia..|].
    exists (S f). cbn [dns_run]. rewrite (dns_step_enter _ _ b1) by done.
    rewrite (dns_byte_jump _ _ b1 b2) by (cbn; unfold dnsMaxNameJumps; done || lia).
    cbn [mbind result_bind d_sb d_endPos d_jumps d_pos]. rewrite Hf.
    destruct (endPos =? -1) eqn:E; [|by rewrite E].
    by rewrite (proj2 (Z.eqb_neq _ _)) by lia.
Qed.

(** ** Correctness of the name decoder *)

Lemma name_at_labels d j pos labels e :
  name_at d j pos labels e -> Forall (fun l => l <> []) labels.
Proof.
  induction 1 as [|j pos b rest e Hp Hd Hb Hl _ IH|]; [constructor | | done].
  constructor; [|done]. intros Hn. apply (f_equal length) in Hn.
  rewrite length_take, length_drop in Hn. cbn in Hn. lia.
Qed.

Lemma name_at_end d j pos labels e :
  name_at d j pos labels e -> 1 <= e <= Z.of_nat (length d).
Proof.
  induction 1 as [pos Hp Hd| |j pos b1 b2 labels e Hp H1 H2 Hb Hn IH]; [|done|].
  - apply lookup_lt_Some in Hd. lia.
  - apply lookup_lt_Some in H2. lia.
Qed.

Lemma sb_append_nonempty sb labels :
  sb <> [] -> Forall (fun l => l <> []) labels ->
  fold_left sb_append labels sb =
    match labels with [] => sb | _ => sb ++ dot :: join_dots labels end.
Proof.
  revert sb. induction labels as [|l labels IH]; intros sb Hsb Hl; [done|].
  inversion Hl as [|? ? Hne Hl']; subst. cbn [fold_left].
  assert (sb_append sb l = sb ++ dot :: l) as E.
  { unfold sb_append. destruct sb; [done|]. rewrite (proj2 (Z.ltb_lt _ _)) by (cbn; lia).
    by rewrite <- app_assoc. }
  rewrite E, IH by (done || by destruct sb).
  destruct labels as [|l2 labels]; [done|]. by rewrite <- app_assoc.
Qed.

Lemma sb_append_join labels :
  Forall (fun l => l <> []) labels -> fold_left sb_append labels [] = join_dots labels.
Proof.
  intros Hl. destruct labels as [|l labels]; [done|]. inversion Hl; subst.
  cbn [fold_left]. change (sb_append [] l) with l.
  rewrite sb_append_nonempty by done. by destruct labels.
Qed.

Lemma decodeDNSName_iff payload pos nm e :
  decodeDNSName payload pos = Ok (Some (nm, e)) <->
  exists j labels, j <= dnsMaxNameJumps /\ name_at (sl_data payload) j pos labels e /\
    nm = join_dots labels.
Proof.
  unfold dnsMaxNameJumps. split.
  - intros H. apply dns_run_sound in H as (j & labels & e0 & ? & ? & Hn & -> & ->); [|cbn; lia].
    cbn [d_pos d_jumps d_sb] in *. exists j, labels. split_and!; [lia | done |].
    by eapply sb_append_join, name_at_labels.
  - intros (j & labels & Hj & Hn & ->). destruct (decodeDNSName_total payload pos) as [r Hr].
    destruct (dns_run_complete payload j pos labels e [] (-1) 0 Hn) as [f Hf]; [lia..|].
    unfold decodeDNSName in *.
    apply (dns_run_mono _ f) in Hr as Hr1. apply (dns_run_mono _ (dns_fuel payload)) in Hf.
    rewrite Nat.add_comm, Hr1 in Hf. rewrite Hr, Hf.
    do 3 f_equal. by eapply sb_append_join, name_at_labels.
Qed.


Lemma decodeDNSName_end payload pos nm e :
  decodeDNSName payload pos = Ok (Some (nm, e)) -> 1 <= e <= len payload.
Proof. intros H. apply decodeDNSName_iff in H as (j & labels & _ & H & _). by eapply name_at_end. Qed.

(** ** Safety of the whole decoder *)

(** A 2-byte big-endian field inside the message. *)
Lemma be16_at payload lo hi :
  0 <= lo -> hi = lo + 2 -> hi <= len payload ->
  exists w, slice_range (E:=Empty_set) payload lo hi = Ok w /\
    be_uint (E:=Empty_set) 2 w = Ok (be_combine (take 2 (drop (Z.to_nat lo) (sl_data payload)))).
Proof.
  intros ? -> ?. destruct (slice_range_data (E:=Empty_set) payload lo (lo + 2)) as [sp Hs]; [lia..|].
  eexists; split; [exact Hs|]. replace (Z.to_nat (lo + 2 - lo)) with 2%nat by lia.
  unfold be_uint. cbn [sl_data]. rewrite take_take. unfold len in *. cbn [sl_data].
  rewrite length_take, length_drop. by rewrite (proj2 (Z.ltb_ge _ _)) by lia.
Qed.

Lemma be16_ok payload lo hi :
  0 <= lo -> hi = lo + 2 -> hi <= len payload ->
  exists w v, slice_range (E:=Empty_set) payload lo hi = Ok w /\
    be_uint (E:=Empty_set) 2 w = Ok v /\ 0 <= v < 65536.
Proof.
  intros. destruct (be16_at payload lo hi) as (w & ? & ?); [done..|].
  eexists _, _. split_and!; [done | done | ..];
    pose proof (be_combine_range (take 2 (drop (Z.to_nat lo) (sl_data payload)))) as Hr;
    rewrite length_take, length_drop in Hr; unfold len in *; rewrite Nat.min_l in Hr by lia;
    cbn in Hr; lia.
Qed.

Lemma decodeDNSAnswerIPs_total n payload pos ips :
  exists r, decodeDNSAnswerIPs n payload pos ips = Ok r /\
    (length r <= length ips + n)%nat.
Proof.
  revert pos ips. induction n as [|n IH]; intros pos ips; cbn [decodeDNSAnswerIPs].
  { eexists; split; [done | lia]. }
  destruct (decodeDNSName_total payload pos) as [[[nm e]|] Hn]; rewrite Hn; cbn [mbind result_bind];
    [|eexists; split; [done | lia]].
  apply decodeDNSName_end in Hn.
  destruct (len payload <? e + 10) eqn:H10; [eexists; split; [done | lia]|]. zbool.
  destruct (be16_ok payload e (e + 2)) as (w & v & -> & Hv & _); [lia..|]. cbn [mbind result_bind]. rewrite Hv.
  destruct (be16_ok payload (e + 8) (e + 10)) as (w2 & v2 & Hw2 & Hv2 & Hr2); [lia..|].
  cbn [mbind result_bind].
  rewrite Hw2. cbn [mbind result_bind]. rewrite Hv2. cbn [mbind result_bind].
  destruct (len payload <? e + 10 + v2) eqn:Hl; [eexists; split; [done | lia]|]. zbool.
  destruct ((v =? 1) && (v2 =? 4)) eqn:Ha.
  - zbool. subst. rewrite !slice_index_data by lia. cbn [mbind result_bind].
    match goal with |- context [decodeDNSAnswerIPs n payload ?p ?i] =>
      destruct (IH p i) as (r & -> & Hlen) end.
    eexists; split; [done|]. rewrite length_app in Hlen. cbn in Hlen. lia.
  - destruct (IH (e + 10 + v2) ips) as (r & -> & Hlen). eexists; split; [done | lia].
Qed.

Lemma parseDNSWireMessage_total payload : exists r, parseDNSWireMessage payload = Ok r.
Proof.
  unfold parseDNSWireMessage. destruct (len payload <? 12) eqn:H12; [by eexists|]. zbool.
  destruct (be16_ok payload 2 4) as (w1 & v1 & -> & H1 & _); [lia..|]. cbn [mbind result_bind]. rewrite H1.
  destruct (be16_ok payload 4 6) as (w2 & v2 & -> & H2 & _); [lia..|]. cbn [mbind result_bind]. rewrite H2.
  destruct (be16_ok payload 6 8) as (w3 & v3 & -> & H3 & _); [lia..|]. cbn [mbind result_bind]. rewrite H3.
  cbn [mbind result_bind]. destruct (v2 =? 0); [by eexists|].
  destruct (decodeDNSName_total payload 12) as [[[nm e]|] Hn]; rewrite Hn; cbn [mbind result_bind];
    [|by eexists].
  apply decodeDNSName_end in Hn. destruct (len payload <? e + 4) eqn:H4; [by eexists|]. zbool.
  destruct (be16_ok payload e (e + 2)) as (w & v & -> & Hv & _); [lia..|]. cbn [mbind result_bind]. rewrite Hv.
  cbn [mbind result_bind]. case_match; [|by eexists].
  destruct (decodeDNSAnswerIPs_total (Z.to_nat v3) payload (e + 4) []) as (r & -> & _). by eexists.
Qed.

(** The DNS event decoder is safe on arbitrary kernel samples: for
    every byte sequence it terminates without an out-of-range access and
    returns an event or rejects the sample. *)
Theorem decodeDNSEvent_safe raw : exists r, decodeDNSEvent raw = Ok r.
Proof.
  unfold decodeDNSEvent, dnsRawEventFixedLen, dnsMaxPayload.
  destruct (len raw <? _) eqn:Hl; [by eexists|]. zbool.
  rewrite !le_at_data by lia. cbn [mbind result_bind].
  destruct (negb _); [by eexists|]. destruct (slice_from_data (E:=Empty_set) raw 24) as [sp ->]; [lia|].
  destruct (slice_index_ok (E:=Empty_set) raw 40) as (b & -> & _); [lia|].
  cbn [mbind result_bind]. pose proof (le_combine_range (take 2 (drop (Z.to_nat 41) (sl_data raw)))) as Hr.
  destruct (_ || _) eqn:Hb; [by eexists|]. zbool. pose proof (len_le_cap raw).
  destruct (slice_range_ok (E:=Empty_set) raw 43
    (43 + le_combine (take 2 (drop (Z.to_nat 41) (sl_data raw))))) as (w & -> & _); [lia..|].
  cbn [mbind result_bind]. destruct (parseDNSWireMessage_total w) as [[m|] ->]; by eexists.
Qed.

(** ** Wire encoding and round trip *)

(** A name without compression: length-prefixed labels, then the root. *)
Definition enc_name (labels : list (list byte)) : list byte :=
  concat (map (fun l => Z_byte (Z.of_nat (length l)) :: l) labels) ++ [Byte.x00].

(** An A record whose name is a pointer to the question at offset 12. *)
Definition enc_answer (ttl : Z) (ip : list byte) : list byte :=
  [Z_byte 0xC0; Z_byte 12] ++ be_split 2 1 ++ be_split 2 1 ++ be_split 4 ttl ++ be_split 2 4 ++ ip.

(** A response with one question and the given A records. *)
Definition enc_response (id flags qtype qclass ttl : Z) (labels : list (list byte))
    (ips : list (list byte)) : list byte :=
  (be_split 2 id ++ be_split 2 flags ++ be_split 2 1 ++ be_split 2 (Z.of_nat (length ips)) ++
   be_split 2 0 ++ be_split 2 0) ++ enc_name labels ++ (be_split 2 qtype ++ be_split 2 qclass) ++
  concat (map (enc_answer ttl) ips).

Definition label_wf (l : list byte) : Prop := (1 <= length l <= 63)%nat.

(** The dotted form of four bytes. *)
Definition ip_string (ip : list byte) : gostring :=
  match ip with [a; b; c; d] => ipv4_string a b c d | _ => ""%string end.

Lemma enc_name_cons l labels :
  enc_name (l :: labels) = (Z_byte (Z.of_nat (length l)) :: l) ++ enc_name labels.
Proof. unfold enc_name. cbn [map concat]. by rewrite <- app_assoc. Qed.

Lemma name_at_enc d pre labels post e :
  Forall label_wf labels -> d = pre ++ enc_name labels ++ post ->
  e = Z.of_nat (length pre + length (enc_name labels)) ->
  name_at d 0 (Z.of_nat (length pre)) labels e.
Proof.
  intros Hl Hd He. revert pre e Hd He.
  induction Hl as [|l labels [Hl1 Hl2] _ IH]; intros pre e Hd He.
  - replace e with (Z.of_nat (length pre) + 1) by (subst e; cbn; lia). constructor; [lia|].
    subst d. rewrite Nat2Z.id, lookup_app_r, Nat.sub_diag by lia. done.
  - rewrite enc_name_cons in Hd, He. set (n := Z.of_nat (length l)) in *.
    assert (byte_Z (Z_byte n) = n) as Hb by (rewrite byte_Z_byte; apply Z.mod_small; lia).
    assert (take (Z.to_nat (byte_Z (Z_byte n))) (drop (Z.to_nat (Z.of_nat (length pre) + 1)) d) = l) as El.
    { subst d. rewrite Hb, drop_app_ge by lia.
      replace (Z.to_nat (Z.of_nat (length pre) + 1) - length pre)%nat with 1%nat by lia.
      rewrite <- app_assoc. cbn [app drop]. rewrite drop_0. by rewrite take_app_exact by lia. }
    rewrite <- El. constructor.
    + lia.
    + subst d. rewrite Nat2Z.id, lookup_app_r, Nat.sub_diag by lia. done.
    + lia.
    + subst d. rewrite !length_app. cbn [length]. lia.
    + rewrite Hb. replace (Z.of_nat (length pre) + 1 + n)
        with (Z.of_nat (length (pre ++ Z_byte n :: l))) by (rewrite length_app; cbn [length]; lia).
      apply IH; [subst d; by rewrite <- !app_assoc|].
      subst e. rewrite !length_app. cbn [length]. lia.
Qed.

(** The 2-byte field that starts right after [pre]. *)
Lemma be16_here payload pre v post lo hi :
  sl_data payload = pre ++ be_split 2 v ++ post -> in_range 16 v ->
  lo = Z.of_nat (length pre) -> hi = lo + 2 ->
  exists w, slice_range (E:=Empty_set) payload lo hi = Ok w /\ be_uint (E:=Empty_set) 2 w = Ok v.
Proof.
  intros Hd Hv -> ->. destruct (be16_at payload (Z.of_nat (length pre)) (Z.of_nat (length pre) + 2))
    as (w & Hw & Hu); [lia | lia | |].
  - unfold len. rewrite Hd, !length_app, length_be_split. lia.
  - exists w. split; [done|]. rewrite Hu, Hd, Nat2Z.id, drop_app_length.
    rewrite take_app_exact by (by rewrite length_be_split).
    by rewrite be_combine_split_id.
Qed.

Lemma name_at_pointer12 d pre post labels e :
  d = pre ++ [Z_byte 0xC0; Z_byte 12] ++ post -> name_at d 0 12 labels e ->
  name_at d 1 (Z.of_nat (length pre)) labels (Z.of_nat (length pre) + 2).
Proof.
  intros Hd Hn. change 1 with (0 + 1). eapply (name_pointer d 0 _ (Z_byte 0xC0) (Z_byte 12)).
  - lia.
  - subst d. rewrite Nat2Z.id, lookup_app_r, Nat.sub_diag by lia. done.
  - subst d. rewrite lookup_app_r by lia.
    by replace (Z.to_nat (Z.of_nat (length pre) + 1) - length pre)%nat with 1%nat by lia.
  - by vm_compute.
  - exact Hn.
Qed.

Lemma decodeDNSName_pointer12 payload pre post labels e :
  sl_data payload = pre ++ [Z_byte 0xC0; Z_byte 12] ++ post ->
  name_at (sl_data payload) 0 12 labels e ->
  decodeDNSName payload (Z.of_nat (length pre))
    = Ok (Some (join_dots labels, Z.of_nat (length pre) + 2)).
Proof.
  intros Hd Hn. apply decodeDNSName_iff. exists 1, labels.
  split_and!; [done | by eapply name_at_pointer12 | done].
Qed.

Lemma byte_here payload pre b post i :
  sl_data payload = pre ++ b :: post -> i = Z.of_nat (length pre) ->
  slice_index (E:=Empty_set) payload i = Ok b.
Proof.
  intros Hd ->. destruct (slice_index_ok (E:=Empty_set) payload (Z.of_nat (length pre))) as (b' & -> & Hb).
  - unfold len. rewrite Hd, length_app. cbn [length]. lia.
  - rewrite Hd, Nat2Z.id, lookup_app_r, Nat.sub_diag in Hb by lia. by injection Hb as ->.
Qed.

(** One A record: the loop goes on after it with the address appended. *)
Lemma decodeDNSAnswerIPs_step n payload pre ttl ip post labels e acc :
  sl_data payload = pre ++ enc_answer ttl ip ++ post -> length ip = 4%nat ->
  name_at (sl_data payload) 0 12 labels e ->
  decodeDNSAnswerIPs (S n) payload (Z.of_nat (length pre)) acc
    = decodeDNSAnswerIPs n payload (Z.of_nat (length (pre ++ enc_answer ttl ip))) (acc ++ [ip_string ip]).
Proof.
  intros Hd Hip Hn. destruct ip as [|b0 [|b1 [|b2 [|b3 [|]]]]]; try done.
  assert (length (enc_answer ttl [b0; b1; b2; b3]) = 16%nat) as L16 by done.
  assert (Z.of_nat (length pre) + 16 <= len payload) as Hlen
    by (unfold len; rewrite Hd, !length_app, L16; lia).
  unfold enc_answer in Hd. rewrite <- !app_assoc in Hd. cbn [decodeDNSAnswerIPs].
  rewrite (decodeDNSName_pointer12 _ _ _ _ _ Hd Hn). cbn [mbind result_bind].
  rewrite (proj2 (Z.ltb_ge (len payload) _)) by lia.
  destruct (be16_here payload (pre ++ [Z_byte 0xC0; Z_byte 12]) 1
    (be_split 2 1 ++ be_split 4 ttl ++ be_split 2 4 ++ [b0; b1; b2; b3] ++ post)
    (Z.of_nat (length pre) + 2) (Z.of_nat (length pre) + 2 + 2)) as (w & -> & Hw);
    [by rewrite Hd, <- app_assoc | done | rewrite length_app; cbn; lia | done |].
  cbn [mbind result_bind]. rewrite Hw. cbn [mbind result_bind].
  destruct (be16_here payload (pre ++ [Z_byte 0xC0; Z_byte 12] ++ be_split 2 1 ++ be_split 2 1 ++ be_split 4 ttl) 4
    ([b0; b1; b2; b3] ++ post)
    (Z.of_nat (length pre) + 2 + 8) (Z.of_nat (length pre) + 2 + 10)) as (w2 & -> & Hw2);
    [by rewrite Hd, <- !app_assoc | done | rewrite !length_app, !length_be_split; cbn [length]; lia | lia |].
  cbn [mbind result_bind]. rewrite Hw2. cbn [mbind result_bind].
  rewrite (proj2 (Z.ltb_ge (len payload) _)) by lia. cbn [andb Z.eqb Pos.eqb].
  set (pre' := pre ++ [Z_byte 0xC0; Z_byte 12] ++ be_split 2 1 ++ be_split 2 1 ++ be_split 4 ttl ++ be_split 2 4).
  assert (sl_data payload = pre' ++ [b0; b1; b2; b3] ++ post) as Hd'
    by (unfold pre'; by rewrite Hd, <- !app_assoc).
  assert (Z.of_nat (length pre') = Z.of_nat (length pre) + 12) as Lp
    by (unfold pre'; rewrite !length_app, !length_be_split; cbn [length]; lia).
  set (pos := Z.of_nat (length pre) + 2 + 10).
  rewrite (byte_here payload (pre' ++ []) b0 (b1 :: b2 :: b3 :: post) pos),
    (byte_here payload (pre' ++ [b0]) b1 (b2 :: b3 :: post) (pos + 1)),
    (byte_here payload (pre' ++ [b0; b1]) b2 (b3 :: post) (pos + 2)),
    (byte_here payload (pre' ++ [b0; b1; b2]) b3 post (pos + 3))
    by (first [by rewrite Hd', <- app_assoc | rewrite length_app; unfold pos; cbn [length]; lia]).
  cbn [mbind result_bind ip_string]. f_equal. rewrite length_app, L16. unfold pos. lia.
Qed.

Lemma decodeDNSAnswerIPs_enc payload ttl ips pre labels e acc :
  Forall (fun ip => length ip = 4%nat) ips ->
  sl_data payload = pre ++ concat (map (enc_answer ttl) ips) ->
  name_at (sl_data payload) 0 12 labels e ->
  decodeDNSAnswerIPs (length ips) payload (Z.of_nat (length pre)) acc
    = Ok (acc ++ map ip_string ips).
Proof.
  intros Hips Hd Hn. revert pre acc Hd. induction Hips as [|ip ips Hip _ IH]; intros pre acc Hd.
  - cbn [length decodeDNSAnswerIPs map]. by rewrite app_nil_r.
  - cbn [length map]. cbn [map concat] in Hd.
    rewrite (decodeDNSAnswerIPs_step _ _ _ _ _ _ _ _ _ Hd Hip Hn).
    rewrite IH by (by rewrite Hd, app_assoc). by rewrite <- app_assoc.
Qed.

(** A response the resolver may send: 16-bit header fields, the QR bit set,
    labels of 1 to 63 bytes, IPv4 addresses of 4 bytes. *)
Record response_wf (id flags qtype qclass : Z) (labels ips : list (list byte)) : Prop := {
  rw_id : in_range 16 id; rw_flags : in_range 16 flags;
  rw_qr : Z.land flags 0x8000 <> 0;
  rw_qtype : in_range 16 qtype; rw_qclass : in_range 16 qclass;
  rw_ips : in_range 16 (Z.of_nat (length ips));
  rw_labels : Forall label_wf labels;
  rw_ip4 : Forall (fun ip => length ip = 4%nat) ips }.

(** Decoding a DNS response gives back what was encoded: for every
    well-formed response with one question and compressed A records,
    [parseDNSWireMessage] returns the dotted query name, the query type, the
    response code of the flags and every address in order. *)
Theorem parseDNSWireMessage_roundtrip payload id flags qtype qclass ttl labels ips :
  response_wf id flags qtype qclass labels ips ->
  sl_data payload = enc_response id flags qtype qclass ttl labels ips ->
  parseDNSWireMessage payload
    = Ok (Some (mk_msg (join_dots labels) qtype (Z.land flags 0x000f) (map ip_string ips))).
Proof.
  intros [Hid Hf Hqr Hqt Hqc Hn Hl Hip] Hd. unfold enc_response in Hd.
  set (hdr := be_split 2 id ++ be_split 2 flags ++ be_split 2 1 ++
    be_split 2 (Z.of_nat (length ips)) ++ be_split 2 0 ++ be_split 2 0) in Hd.
  assert (length hdr = 12%nat) as Lh
    by (unfold hdr; rewrite !length_app, !length_be_split; reflexivity).
  set (q := hdr ++ enc_name labels).
  assert (name_at (sl_data payload) 0 12 labels (Z.of_nat (length q))) as Hname.
  { change 12 with (Z.of_nat 12). rewrite <- Lh. eapply name_at_enc; [done | exact Hd |].
    unfold q. by rewrite length_app. }
  assert (Z.of_nat (length q) + 4 <= len payload) as Hlen.
  { unfold len, q. rewrite Hd, !length_app, !length_be_split. lia. }
  assert (12 <= Z.of_nat (length q)) as Hq by (unfold q; rewrite length_app, Lh; lia).
  unfold parseDNSWireMessage. rewrite (proj2 (Z.ltb_ge (len payload) 12)) by lia.
  unfold hdr in Hd. rewrite <- !app_assoc in Hd.
  destruct (be16_here payload (be_split 2 id) flags _ 2 4 Hd) as (w1 & -> & H1);
    [done | by rewrite length_be_split | done |]. cbn [mbind result_bind]. rewrite H1.
  destruct (be16_here payload (be_split 2 id ++ be_split 2 flags) 1
    (drop 6 (sl_data payload)) 4 6) as (w2 & -> & H2);
    [by rewrite Hd | done | by rewrite length_app, !length_be_split | done |].
  cbn [mbind result_bind]. rewrite H2.
  destruct (be16_here payload (be_split 2 id ++ be_split 2 flags ++ be_split 2 1) (Z.of_nat (length ips))
    (drop 8 (sl_data payload)) 6 8) as (w3 & -> & H3);
    [by rewrite Hd | done | by rewrite !length_app, !length_be_split | done |].
  cbn [mbind result_bind]. rewrite H3. cbn [mbind result_bind Z.eqb].
  replace (decodeDNSName payload 12) with
    (Ok (E:=Empty_set) (Some (join_dots labels, Z.of_nat (length q))))
    by (symmetry; apply decodeDNSName_iff; exists 0, labels; done).
  cbn [mbind result_bind]. rewrite (proj2 (Z.ltb_ge (len payload) _)) by lia.
  destruct (be16_here payload q qtype (be_split 2 qclass ++ concat (map (enc_answer ttl) ips))
    (Z.of_nat (length q)) (Z.of_nat (length q) + 2)) as (w4 & -> & H4);
    [by rewrite Hd; unfold q, hdr; rewrite <- !app_assoc | done | done | done |].
  cbn [mbind result_bind]. rewrite H4. cbn [mbind result_bind].
  rewrite (proj2 (Z.eqb_neq _ 0)) by done. cbn [negb]. rewrite Nat2Z.id.
  replace (Z.of_nat (length q) + 4) with (Z.of_nat (length (q ++ be_split 2 qtype ++ be_split 2 qclass)))
    by (rewrite !length_app, !length_be_split; lia).
  rewrite (decodeDNSAnswerIPs_enc payload ttl ips _ labels (Z.of_nat (length q)));
    [done | done | by rewrite Hd; unfold q, hdr; rewrite <- !app_assoc | done].
Qed.

Lemma parseDNSWireMessage_roundtrip_witness :
  response_wf 7 0x8183 1 1 [string_bytes "example"; string_bytes "com"]
    [[Z_byte 10; Z_byte 0; Z_byte 0; Z_byte 1]] /\
  parseDNSWireMessage (of_bytes (enc_response 7 0x8183 1 1 300
      [string_bytes "example"; string_bytes "com"] [[Z_byte 10; Z_byte 0; Z_byte 0; Z_byte 1]]))
    = Ok (Some (mk_msg (string_bytes "example.com") 1 3 ["10.0.0.1"%string])).
Proof.
  assert (response_wf 7 0x8183 1 1 [string_bytes "example"; string_bytes "com"]
    [[Z_byte 10; Z_byte 0; Z_byte 0; Z_byte 1]]) as W.
  { split; try (vm_compute; split; congruence); try (vm_compute; congruence).
    - repeat constructor.
    - repeat constructor. }
  split; [exact W|].
  exact (parseDNSWireMessage_roundtrip (of_bytes _) 7 0x8183 1 1 300 _ _ W eq_refl).
Defined.
