(* ===== verification/GoRing.v ===== *)
(** * Go slices of values and circular buffers

    Indexing, assignment and remainder as Go evaluates them (with their
    panics) on slices of arbitrary element type, and the reading of a slice
    with a head index and a size as the list of its live entries. The rate
    limiter, the per-process event buffer and the delivery fallback queue are
    built on it. *)
From S2P Require Import Prelude.

(** [l[i]], [l[i] = x], [a % b] and [l[lo:hi]]. *)
Definition list_get {E A} (l : list A) (i : Z) : result E A :=
  if 0 <=? i then match l !! Z.to_nat i with Some x => Ok x | None => Panic end else Panic.

Definition list_set {E A} (l : list A) (i : Z) (x : A) : result E (list A) :=
  if (0 <=? i) && (i <? Z.of_nat (length l)) then Ok (<[Z.to_nat i := x]> l) else Panic.

Definition go_rem {E} (a b : Z) : result E Z :=
  if b =? 0 then Panic else Ok (Z.rem a b).

Definition list_range {E A} (l : list A) (lo hi : Z) : result E (list A) :=
  if (0 <=? lo) && (lo <=? hi) && (hi <=? Z.of_nat (length l))
  then Ok (take (Z.to_nat (hi - lo)) (drop (Z.to_nat lo) l)) else Panic.

(** [make([]T, n)]: panics on a negative length. *)
Definition go_make {E A} (zero : A) (n : Z) : result E (list A) :=
  if n <? 0 then Panic else Ok (replicate (Z.to_nat n) zero).

(** The live entries of a ring, oldest first. *)
Definition entries {A} (ring : list A) (head size : Z) : list A :=
  take (Z.to_nat size) (rotate (Z.to_nat head) ring).

(** ** Lemmas *)

Lemma list_get_ok {E A} (l : list A) i x :
  0 <= i -> l !! Z.to_nat i = Some x -> list_get (E:=E) l i = Ok x.
Proof. intros Hi Hl. unfold list_get. rewrite (proj2 (Z.leb_le 0 i)), Hl by done. done. Qed.

Lemma list_set_ok {E A} (l : list A) i x :
  0 <= i < Z.of_nat (length l) -> list_set (E:=E) l i x = Ok (<[Z.to_nat i := x]> l).
Proof.
  intros Hi. unfold list_set. by rewrite (proj2 (Z.leb_le 0 i)), (proj2 (Z.ltb_lt i _)) by lia.
Qed.

Lemma go_rem_ok {E} a b : 0 <= a -> 0 < b -> go_rem (E:=E) a b = Ok (a mod b).
Proof.
  intros. unfold go_rem. rewrite (proj2 (Z.eqb_neq b 0)) by lia. by rewrite Z.rem_mod_nonneg by lia.
Qed.

Lemma list_range_ok {E A} (l : list A) lo hi :
  0 <= lo <= hi -> hi <= Z.of_nat (length l) ->
  list_range (E:=E) l lo hi = Ok (take (Z.to_nat (hi - lo)) (drop (Z.to_nat lo) l)).
Proof.
  intros. unfold list_range.
  by rewrite (proj2 (Z.leb_le 0 lo)), (proj2 (Z.leb_le lo hi)), (proj2 (Z.leb_le hi _)) by lia.
Qed.

Lemma go_make_ok {E A} (zero : A) n : 0 <= n -> go_make (E:=E) zero n = Ok (replicate (Z.to_nat n) zero).
Proof. intros. unfold go_make. by rewrite (proj2 (Z.ltb_ge n 0)) by lia. Qed.

Section entries.
Context {A : Type}.
Implicit Types (ring : list A) (head size : Z).
#[local] Abbreviation n ring := (Z.of_nat (length ring)).

Lemma length_entries ring head size :
  0 <= size <= n ring -> length (entries ring head size) = Z.to_nat size.
Proof. intros. unfold entries. rewrite length_take, length_rotate. lia. Qed.

Lemma entries_nil ring head : entries ring head 0 = [].
Proof. done. Qed.

Lemma entries_lookup ring head size i :
  0 <= head -> size <= n ring -> 0 <= i < size ->
  entries ring head size !! Z.to_nat i = ring !! Z.to_nat ((head + i) mod n ring).
Proof.
  intros. unfold entries. rewrite lookup_take_lt by lia. rewrite lookup_rotate_r by lia.
  unfold rotate_nat_add. by rewrite !Z2Nat.id by lia.
Qed.

(** An index of the ring holds an element. *)
Lemma ring_lookup_is_Some ring k :
  0 < n ring -> is_Some (ring !! Z.to_nat (k mod n ring)).
Proof. intros. apply lookup_lt_is_Some. pose proof (Z.mod_pos_bound k (n ring)). lia. Qed.

Lemma rotate_step ring head :
  0 <= head -> 0 < n ring ->
  rotate (Z.to_nat ((head + 1) mod n ring)) ring
    = drop 1 (rotate (Z.to_nat head) ring) ++ take 1 (rotate (Z.to_nat head) ring).
Proof.
  intros Hh Hn. apply list_eq_same_length with (length ring).
  - rewrite length_app, length_drop, length_take, length_rotate. lia.
  - by rewrite length_rotate.
  - intros i x y Hi. rewrite lookup_rotate_r by done. unfold rotate_nat_add.
    pose proof (Z.mod_pos_bound (head + 1) (n ring)).
    rewrite Z2Nat.id, Zplus_mod_idemp_l by lia.
    destruct (decide (i = length ring - 1)%nat) as [->|Hne].
    + rewrite lookup_app_r by (rewrite length_drop, length_rotate; lia).
      rewrite length_drop, length_rotate, Nat.sub_diag, lookup_take_lt, lookup_rotate_r by lia.
      unfold rotate_nat_add. rewrite Z2Nat.id by lia.
      replace (head + 1 + Z.of_nat (length ring - 1)) with (head + Z.of_nat 0 + 1 * n ring) by lia.
      rewrite Z_mod_plus_full. congruence.
    + rewrite lookup_app_l by (rewrite length_drop, length_rotate; lia).
      rewrite lookup_drop, lookup_rotate_r by lia. unfold rotate_nat_add.
      rewrite Z2Nat.id by lia. replace (head + 1 + Z.of_nat i) with (head + Z.of_nat (1 + i)) by lia.
      congruence.
Qed.

(** Dropping the oldest entry. *)
Lemma entries_pop ring head size :
  0 <= head -> 0 < size <= n ring ->
  entries ring ((head + 1) mod n ring) (size - 1) = drop 1 (entries ring head size).
Proof.
  intros. unfold entries. rewrite rotate_step by lia.
  rewrite take_app_le by (rewrite length_drop, length_rotate; lia).
  rewrite take_drop_commute. do 2 f_equal. lia.
Qed.

(** Appending after the newest entry. *)
Lemma entries_push ring head size x :
  0 <= head -> 0 <= size < n ring ->
  entries (<[Z.to_nat ((head + size) mod n ring) := x]> ring) head (size + 1)
    = entries ring head size ++ [x].
Proof.
  intros. unfold entries.
  replace (Z.to_nat ((head + size) mod n ring))
    with (rotate_nat_add (Z.to_nat head) (Z.to_nat size) (length ring))
    by (unfold rotate_nat_add; by rewrite !Z2Nat.id by lia).
  rewrite rotate_insert_l by lia.
  replace (Z.to_nat (size + 1)) with (S (Z.to_nat size)) by lia.
  erewrite take_S_r.
  - by rewrite take_insert_ge by lia.
  - apply list_lookup_insert_eq. rewrite length_rotate. lia.
Qed.

(** Overwriting the oldest entry of a full ring. *)
Lemma entries_overwrite ring head x :
  0 <= head < n ring ->
  entries (<[Z.to_nat head := x]> ring) ((head + 1) mod n ring) (n ring)
    = drop 1 (entries ring head (n ring)) ++ [x].
Proof.
  intros. replace (Z.to_nat head) with (Z.to_nat ((((head + 1) mod n ring) + (n ring - 1)) mod n ring)).
  2: { rewrite Zplus_mod_idemp_l. replace (head + 1 + (n ring - 1)) with (head + 1 * n ring) by lia.
       rewrite Z_mod_plus_full, Z.mod_small by lia. done. }
  replace (n ring) with (n ring - 1 + 1) at 5 by lia.
  rewrite entries_push by (pose proof (Z.mod_pos_bound (head + 1) (n ring)); lia).
  by rewrite entries_pop by lia.
Qed.

(** A ring whose head is at the start of the array is read in place. *)
Lemma entries_linear ring size :
  entries ring 0 size = take (Z.to_nat size) ring.
Proof.
  unfold entries, rotate. cbn. destruct ring as [|a ring]; [done|].
  rewrite Nat.Div0.mod_0_l. by rewrite drop_0, take_0, app_nil_r.
Qed.

(** A full ring is read in two pieces. *)
Lemma entries_full ring head :
  0 <= head < n ring ->
  entries ring head (n ring) = drop (Z.to_nat head) ring ++ take (Z.to_nat head) ring.
Proof.
  intros. unfold entries. rewrite take_ge by (rewrite length_rotate; lia).
  unfold rotate. rewrite Nat.mod_small by lia. done.
Qed.
End entries.

(** [n := copy(dst, src)]: the destination after the call and [n]. *)
Definition go_copy {A} (dst src : list A) : list A * Z :=
  (take (length dst) src ++ drop (length src) dst, Z.min (Z.of_nat (length dst)) (Z.of_nat (length src))).

Lemma go_copy_fits {A} (dst src : list A) :
  (length src <= length dst)%nat ->
  go_copy dst src = (src ++ drop (length src) dst, Z.of_nat (length src)).
Proof. intros. unfold go_copy. rewrite take_ge by lia. f_equal. lia. Qed.

Lemma go_copy_exact {A} (dst src : list A) :
  length src = length dst -> (go_copy dst src).1 = src.
Proof. intros. rewrite go_copy_fits by lia. cbn. by rewrite drop_ge, app_nil_r by lia. Qed.
