(* ===== verification/RateLimiter.v ===== *)
(** * The per-rule alert rate limiter

    Models src/internal/correlator/ratelimiter.go. [ruleState] is the ring
    buffer of one rule, [RateLimiter] the map of rule states with the atomic
    configuration. Each operation takes the instant [now] that the code reads
    from [time.Now()]. The abstract limiter keeps the complete history of
    accepted alerts per rule and accepts an alert when fewer than the maximum
    were accepted within the window; the ring buffer refines it. *)
From Stdlib Require Import Sorting.Sorted.
From S2P Require Import Prelude GoRing.

Abbreviation go A := (result Empty_set A).

(** ** One rule *)
Record ruleState := mkRuleState {
  rs_ring : list Z; rs_head : Z; rs_size : Z; rs_window : Z; rs_maxCount : Z }.

Definition newRuleState (window maxCount : Z) : go ruleState :=
  ring ← go_make zero_time maxCount;
  Ok (mkRuleState ring 0 0 window maxCount).

(** The eviction loop of [allow]; every iteration decrements [size]. *)
Fixpoint evict (fuel : nat) (cutoff : Z) (rs : ruleState) : go ruleState :=
  if 0 <? rs_size rs then
    t ← list_get (rs_ring rs) (rs_head rs);
    if time_Before t cutoff then
      head ← go_rem (rs_head rs + 1) (rs_maxCount rs);
      match fuel with
      | O => Panic
      | S fuel => evict fuel cutoff
          (mkRuleState (rs_ring rs) head (rs_size rs - 1) (rs_window rs) (rs_maxCount rs))
      end
    else Ok rs
  else Ok rs.

Definition allow (now : Z) (rs : ruleState) : go (ruleState * bool) :=
  let cutoff := time_Add now (neg_duration (rs_window rs)) in
  rs ← evict (Z.to_nat (rs_size rs)) cutoff rs;
  if rs_maxCount rs <=? rs_size rs then Ok (rs, false) else
  tail ← go_rem (rs_head rs + rs_size rs) (rs_maxCount rs);
  ring ← list_set (rs_ring rs) tail now;
  Ok (mkRuleState ring (rs_head rs) (rs_size rs + 1) (rs_window rs) (rs_maxCount rs), true).

(** The loop of [count] from index [i] with [fuel] entries left. *)
Fixpoint count_loop (fuel : nat) (i cutoff : Z) (rs : ruleState) : go Z :=
  match fuel with
  | O => Ok 0
  | S fuel =>
      k ← go_rem (rs_head rs + i) (rs_maxCount rs);
      t ← list_get (rs_ring rs) k;
      if negb (time_Before t cutoff) then Ok (rs_size rs - i)
      else count_loop fuel (i + 1) cutoff rs
  end.

Definition count (now : Z) (rs : ruleState) : go Z :=
  if rs_size rs =? 0 then Ok 0 else
  count_loop (Z.to_nat (rs_size rs)) 0 (time_Add now (neg_duration (rs_window rs))) rs.

(** ** The limiter *)
Record RateLimiter := mkRL {
  rl_states : gmap gostring ruleState;
  rl_window : Z; rl_maxAlerts : Z; rl_enabled : bool }.

(** [maxAlerts] is stored as an [atomic.Int32]. *)
Definition NewRateLimiter (window maxAlerts : Z) (enabled : bool) : RateLimiter :=
  mkRL ∅ window (i32 maxAlerts) enabled.

Definition set_states (rl : RateLimiter) (m : gmap gostring ruleState) : RateLimiter :=
  mkRL m (rl_window rl) (rl_maxAlerts rl) (rl_enabled rl).

Definition Allow (ruleID : gostring) (now : Z) (rl : RateLimiter) : go (RateLimiter * bool) :=
  if negb (rl_enabled rl) then Ok (rl, true) else
  state ← match rl_states rl !! ruleID with
          | Some state => Ok state
          | None => newRuleState (rl_window rl) (rl_maxAlerts rl)
          end;
  '(state, b) ← allow now state;
  Ok (set_states rl (<[ruleID := state]> (rl_states rl)), b).

Definition GetCount (ruleID : gostring) (now : Z) (rl : RateLimiter) : go Z :=
  match rl_states rl !! ruleID with
  | None => Ok 0
  | Some state => count now state
  end.

Definition Reset (rl : RateLimiter) : RateLimiter := set_states rl ∅.

Definition StateCount (rl : RateLimiter) : Z := Z.of_nat (size (rl_states rl)).

(** [Cleanup]'s test of one state. *)
Definition hasRecent (cutoff : Z) (s : ruleState) : go bool :=
  if 0 <? rs_size s then
    k ← go_rem (rs_head s + rs_size s - 1) (rs_maxCount s);
    t ← list_get (rs_ring s) k;
    Ok (negb (time_Before t cutoff))
  else Ok false.

(** The first pass of [Cleanup] over the map's pairs: the stale ids. *)
Fixpoint stale_ids (cutoff : Z) (l : list (gostring * ruleState)) : go (list gostring) :=
  match l with
  | [] => Ok []
  | (id, s) :: l =>
      b ← hasRecent cutoff s;
      stale ← stale_ids cutoff l;
      Ok (if b : bool then stale else id :: stale)
  end.

Definition Cleanup (maxAge now : Z) (rl : RateLimiter) : go (RateLimiter * Z) :=
  stale ← stale_ids (time_Add now (neg_duration maxAge)) (map_to_list (rl_states rl));
  Ok (set_states rl (foldr delete (rl_states rl) stale), Z.of_nat (length stale)).

(** [UpdateConfig] on one state: the copy loop of the resize. *)
Fixpoint resize_copy (fuel : nat) (i skip : Z) (rs : ruleState) (newRing : list Z) : go (list Z) :=
  match fuel with
  | O => Ok newRing
  | S fuel =>
      k ← go_rem (rs_head rs + skip + i) (rs_maxCount rs);
      t ← list_get (rs_ring rs) k;
      newRing ← list_set newRing i t;
      resize_copy fuel (i + 1) skip rs newRing
  end.

Definition update_state (window maxAlerts : Z) (rs : ruleState) : go ruleState :=
  let rs := mkRuleState (rs_ring rs) (rs_head rs) (rs_size rs) window (rs_maxCount rs) in
  if negb (rs_maxCount rs =? maxAlerts) then
    newRing ← go_make zero_time maxAlerts;
    let keep := if maxAlerts <? rs_size rs then maxAlerts else rs_size rs in
    let skip := rs_size rs - keep in
    newRing ← resize_copy (Z.to_nat keep) 0 skip rs newRing;
    Ok (mkRuleState newRing 0 keep window maxAlerts)
  else Ok rs.

Fixpoint update_states (window maxAlerts : Z) (l : list (gostring * ruleState)) :
  go (gmap gostring ruleState) :=
  match l with
  | [] => Ok ∅
  | (id, s) :: l =>
      s ← update_state window maxAlerts s;
      m ← update_states window maxAlerts l;
      Ok (<[id := s]> m)
  end.

Definition UpdateConfig (window maxAlerts : Z) (rl : RateLimiter) : go RateLimiter :=
  m ← update_states window maxAlerts (map_to_list (rl_states rl));
  Ok (mkRL m window (i32 maxAlerts) (rl_enabled rl)).

Record RateLimiterStats := mkStats { TotalRules : Z; TotalAlerts : Z; LimitedAlerts : Z }.

(** [GetStats]: the number of states and the live entries of all of them. *)
Definition GetStats (rl : RateLimiter) : RateLimiterStats :=
  fold_left (fun st '(_, s) =>
      mkStats (TotalRules st + 1) (TotalAlerts st + rs_size s) (LimitedAlerts st))
    (map_to_list (rl_states rl)) (mkStats 0 0 0).

(** ** The abstract limiter

    The history of accepted alerts of every rule, oldest first. *)
Abbreviation history := (gmap gostring (list Z)).
Definition hist (h : history) (id : gostring) : list Z := default [] (h !! id).

(** Accepted alerts that are still inside the window at [now]. *)
Definition in_window (window now : Z) (l : list Z) : Z :=
  Z.of_nat (length (filter (fun t => now - window <= t) l)).

Inductive op :=
| OpAllow (id : gostring) (now : Z)
| OpGetCount (id : gostring) (now : Z)
| OpCleanup (maxAge now : Z).

Inductive out := OutBool (b : bool) | OutCount (n : Z) | OutNone.

Definition op_time (o : op) : Z :=
  match o with OpAllow _ t | OpGetCount _ t | OpCleanup _ t => t end.

Definition abs_step (window max : Z) (o : op) (h : history) : history * out :=
  match o with
  | OpAllow id now =>
      if in_window window now (hist h id) <? max
      then (<[id := hist h id ++ [now]]> h, OutBool true)
      else (h, OutBool false)
  | OpGetCount id now => (h, OutCount (in_window window now (hist h id)))
  | OpCleanup _ _ => (h, OutNone)
  end.

Fixpoint abs_run (window max : Z) (ops : list op) (h : history) : history * list out :=
  match ops with
  | [] => (h, [])
  | o :: ops =>
      let '(h, r) := abs_step window max o h in
      let '(h, rs) := abs_run window max ops h in (h, r :: rs)
  end.

(** The code on the same operations. *)
Definition step (o : op) (rl : RateLimiter) : go (RateLimiter * out) :=
  match o with
  | OpAllow id now => '(rl, b) ← Allow id now rl; Ok (rl, OutBool b)
  | OpGetCount id now => n ← GetCount id now rl; Ok (rl, OutCount n)
  | OpCleanup maxAge now => '(rl, _) ← Cleanup maxAge now rl; Ok (rl, OutNone)
  end.

Fixpoint run (ops : list op) (rl : RateLimiter) : go (RateLimiter * list out) :=
  match ops with
  | [] => Ok (rl, [])
  | o :: ops =>
      '(rl, r) ← step o rl;
      '(rl, rs) ← run ops rl;
      Ok (rl, r :: rs)
  end.

(** The clock does not go back, and [Cleanup] is called with an age of at
    least the window. *)
Fixpoint well_timed (window last : Z) (ops : list op) : Prop :=
  match ops with
  | [] => True
  | o :: ops =>
      last <= op_time o /\
      match o with OpCleanup maxAge _ => window <= maxAge <= max_duration | _ => True end /\
      well_timed window (op_time o) ops
  end.

(** ** Invariant and contents of a rule state *)
Record wf (rs : ruleState) : Prop := {
  wf_max : 0 <= rs_maxCount rs;
  wf_ring : Z.of_nat (length (rs_ring rs)) = rs_maxCount rs;
  wf_size : 0 <= rs_size rs <= rs_maxCount rs;
  wf_head : 0 <= rs_head rs <= rs_maxCount rs;
  wf_head_lt : 0 < rs_maxCount rs -> rs_head rs < rs_maxCount rs }.

Definition live (rs : ruleState) : list Z := entries (rs_ring rs) (rs_head rs) (rs_size rs).

(** Dropping the leading entries before [cutoff]. *)
Fixpoint drop_old (cutoff : Z) (l : list Z) : list Z :=
  match l with
  | [] => []
  | t :: l' => if t <? cutoff then drop_old cutoff l' else l
  end.

Lemma live_nil rs : rs_size rs = 0 -> live rs = [].
Proof. unfold live. by intros ->. Qed.

Lemma length_live rs : wf rs -> Z.of_nat (length (live rs)) = rs_size rs.
Proof. intros []. unfold live. rewrite length_entries by lia. lia. Qed.

Lemma live_get rs i t :
  wf rs -> 0 <= i < rs_size rs -> live rs !! Z.to_nat i = Some t ->
  list_get (E:=Empty_set) (rs_ring rs) ((rs_head rs + i) mod rs_maxCount rs) = Ok t.
Proof.
  intros [] Hi Hl. apply list_get_ok; [apply Z.mod_pos_bound; lia|].
  unfold live in Hl. rewrite entries_lookup in Hl by lia. congruence.
Qed.

Lemma newRuleState_ok window maxCount :
  0 <= maxCount ->
  exists rs, newRuleState window maxCount = Ok rs /\ wf rs /\ live rs = [] /\
    rs_window rs = window /\ rs_maxCount rs = maxCount.
Proof.
  intros. unfold newRuleState. rewrite go_make_ok by done. cbn [mbind result_bind].
  eexists. split_and!; [done | | done..].
  split; cbn [rs_ring rs_head rs_size rs_maxCount]; rewrite ?length_replicate; lia.
Qed.

Lemma ring_evict_spec fuel cutoff rs :
  wf rs -> rs_size rs <= Z.of_nat fuel ->
  exists rs', evict fuel cutoff rs = Ok rs' /\ wf rs' /\
    live rs' = drop_old cutoff (live rs) /\
    rs_window rs' = rs_window rs /\ rs_maxCount rs' = rs_maxCount rs.
Proof.
  revert rs. induction fuel as [|fuel IH]; intros rs Hwf Hf; cbn [evict];
    pose proof (length_live rs Hwf) as Hlen;
    (destruct (0 <? rs_size rs) eqn:Hs; zbool;
      [|exists rs; rewrite (live_nil rs) by (destruct Hwf; lia); done]).
  { lia. }
  destruct (live rs) as [|t l] eqn:El; [cbn in Hlen; lia|].
  assert (list_get (E:=Empty_set) (rs_ring rs) (rs_head rs) = Ok t) as ->.
  { rewrite <- (live_get rs 0 t Hwf) by (rewrite ?El; done || lia).
    rewrite Z.add_0_r, Z.mod_small; [done|]. destruct Hwf. lia. }
  cbn [mbind result_bind drop_old]. unfold time_Before. destruct (t <? cutoff); [|by exists rs].
  rewrite go_rem_ok by (destruct Hwf; lia). cbn [mbind result_bind].
  set (rs1 := mkRuleState _ _ _ _ _).
  assert (live rs1 = l) as E1.
  { unfold live, rs1. cbn [rs_ring rs_head rs_size]. destruct Hwf as [? <- ? ? ?].
    rewrite entries_pop by lia. unfold live in El. by rewrite El. }
  destruct (IH rs1) as (rs' & -> & Hwf' & Hl & Hw & Hm).
  - destruct Hwf. pose proof (Z.mod_pos_bound (rs_head rs + 1) (rs_maxCount rs)).
    split; cbn; lia.
  - cbn. lia.
  - exists rs'. rewrite E1 in Hl. done.
Qed.

Lemma allow_spec now rs :
  wf rs -> 0 <= rs_window rs <= max_duration ->
  let l := drop_old (now - rs_window rs) (live rs) in
  let b := Z.of_nat (length l) <? rs_maxCount rs in
  exists rs', allow now rs = Ok (rs', b) /\ wf rs' /\
    live rs' = (if b then l ++ [now] else l) /\
    rs_window rs' = rs_window rs /\ rs_maxCount rs' = rs_maxCount rs.
Proof.
  intros Hwf Hw l b. unfold allow, time_Add. rewrite neg_duration_id by done.
  destruct (ring_evict_spec (Z.to_nat (rs_size rs)) (now + - rs_window rs) rs Hwf)
    as (rs1 & -> & Hwf1 & Hl1 & Hw1 & Hm1); [destruct Hwf; lia|].
  replace (now + - rs_window rs) with (now - rs_window rs) in Hl1 by lia. fold l in Hl1.
  cbn [mbind result_bind]. pose proof (length_live rs1 Hwf1) as Hlen. rewrite Hl1 in Hlen.
  unfold b. rewrite Hlen, Hm1. destruct (rs_maxCount rs <=? rs_size rs1) eqn:Hc; zbool.
  - rewrite (proj2 (Z.ltb_ge _ _)) by lia. by exists rs1.
  - rewrite (proj2 (Z.ltb_lt _ _)) by lia. destruct Hwf1 as [Hx Hr ? ? ?].
    rewrite go_rem_ok by lia. cbn [mbind result_bind].
    rewrite list_set_ok by (rewrite Hr, Hm1; apply Z.mod_pos_bound; lia). cbn [mbind result_bind].
    eexists. split_and!; [done | | | done | done].
    + split; cbn [rs_ring rs_head rs_size rs_maxCount]; rewrite ?length_insert; lia.
    + unfold live. cbn [rs_ring rs_head rs_size]. rewrite <- Hm1, <- Hr.
      rewrite entries_push by lia. unfold live in Hl1. by rewrite Hl1.
Qed.

(** The result of [count]: the entries from the first one inside the window. *)
Lemma count_loop_spec fuel i cutoff rs :
  wf rs -> 0 <= i -> i + Z.of_nat fuel = rs_size rs ->
  count_loop fuel i cutoff rs
    = Ok (Z.of_nat (length (drop_old cutoff (drop (Z.to_nat i) (live rs))))).
Proof.
  intros Hwf. revert i. induction fuel as [|fuel IH]; intros i Hi Hf; cbn [count_loop];
    pose proof (length_live rs Hwf).
  - by rewrite drop_ge by lia.
  - destruct (lookup_lt_is_Some_2 (live rs) (Z.to_nat i)) as [t Ht]; [lia|].
    rewrite go_rem_ok by (destruct Hwf; lia). cbn [mbind result_bind].
    rewrite (live_get rs i t) by (done || lia). cbn [mbind result_bind].
    rewrite (drop_S _ _ _ Ht). cbn [drop_old]. unfold time_Before.
    destruct (t <? cutoff); cbn [negb].
    + rewrite IH by lia. by replace (Z.to_nat (i + 1)) with (S (Z.to_nat i)) by lia.
    + f_equal. rewrite <- (drop_S _ _ _ Ht), length_drop. lia.
Qed.

Lemma count_spec now rs :
  wf rs -> 0 <= rs_window rs <= max_duration ->
  count now rs = Ok (Z.of_nat (length (drop_old (now - rs_window rs) (live rs)))).
Proof.
  intros Hwf Hw. unfold count, time_Add. rewrite neg_duration_id by done.
  destruct (rs_size rs =? 0) eqn:Hs; zbool; [by rewrite (live_nil rs Hs)|].
  rewrite count_loop_spec by (done || destruct Hwf; lia). by rewrite drop_0.
Qed.

Lemma hasRecent_spec cutoff rs :
  wf rs ->
  hasRecent cutoff rs
    = Ok match list.last (live rs) with Some t => negb (t <? cutoff) | None => false end.
Proof.
  intros Hwf. unfold hasRecent. pose proof (length_live rs Hwf).
  destruct (0 <? rs_size rs) eqn:Hs; zbool.
  - destruct (lookup_lt_is_Some_2 (live rs) (Z.to_nat (rs_size rs - 1))) as [t Ht]; [lia|].
    replace (rs_head rs + rs_size rs - 1) with (rs_head rs + (rs_size rs - 1)) by lia.
    rewrite go_rem_ok by (destruct Hwf; lia). cbn [mbind result_bind].
    rewrite (live_get rs _ t) by (done || lia). cbn [mbind result_bind].
    rewrite last_lookup. replace (pred (length (live rs))) with (Z.to_nat (rs_size rs - 1)) by lia.
    by rewrite Ht.
  - by rewrite (live_nil rs) by (destruct Hwf; lia).
Qed.

(** ** Sliding windows of sorted histories *)

Lemma drop_old_filter cutoff l :
  StronglySorted Z.le l -> drop_old cutoff l = filter (fun t => cutoff <= t) l.
Proof.
  induction 1 as [|t l Hs IH Hf]; [done|]. cbn [drop_old]. rewrite filter_cons.
  destruct (t <? cutoff) eqn:E; zbool; [by rewrite decide_False by lia|].
  rewrite decide_True by lia. f_equal. symmetry. apply filter_all_id.
  eapply Forall_impl; [exact Hf|]. cbn. lia.
Qed.

Lemma filter_old_nil cutoff l :
  Forall (fun t => t < cutoff) l -> filter (fun t => cutoff <= t) l = [].
Proof.
  intros H. apply filter_none_nil. eapply Forall_impl; [exact H|]. cbn. lia.
Qed.

Lemma sorted_snoc l t :
  StronglySorted Z.le l -> Forall (fun x => x <= t) l -> StronglySorted Z.le (l ++ [t]).
Proof.
  induction 1 as [|x l Hs IH Hf]; intros Ht; cbn [app]; [repeat constructor|].
  inversion Ht; subst. constructor; [by apply IH|]. by apply Forall_app; repeat constructor.
Qed.

Lemma stale_ids_spec cutoff l :
  Forall (fun p => wf p.2) l ->
  exists stale, stale_ids cutoff l = Ok stale /\
    forall id, id ∈ stale <-> exists s, (id, s) ∈ l /\ hasRecent cutoff s = Ok false.
Proof.
  induction 1 as [|[id s] l Hwf _ (stale & E & Hi)]; cbn [stale_ids].
  - exists []. split; [done|]. intros id. split; [by intros ?%elem_of_nil | by intros (? & ?%elem_of_nil & _)].
  - cbn in Hwf. destruct (hasRecent cutoff s) as [b| |] eqn:Hb;
      [|rewrite hasRecent_spec in Hb by done; done..].
    cbn [mbind result_bind]. rewrite E. cbn [mbind result_bind]. eexists; split; [done|].
    intros id'. destruct b.
    + rewrite Hi. split; intros (s' & Hin & Hr); exists s'; (split; [|done]).
      * by right.
      * apply elem_of_cons in Hin as [[= -> ->]|Hin]; [congruence | done].
    + rewrite elem_of_cons, Hi. split.
      * intros [->|(s' & ? & ?)]; [exists s | exists s']; (split; [|done]); by constructor.
      * intros (s' & Hin & Hr). apply elem_of_cons in Hin as [[= -> ->]|Hin]; eauto.
Qed.

Lemma lookup_foldr_delete {A} (m : gmap gostring A) l k :
  foldr delete m l !! k = if decide (k ∈ l) then None else m !! k.
Proof.
  induction l as [|x l IH]; cbn [foldr]; [by rewrite decide_False by set_solver|].
  destruct (decide (x = k)) as [->|Hne].
  - by rewrite lookup_delete_eq, decide_True by set_solver.
  - rewrite lookup_delete_ne, IH by done. apply decide_ext. rewrite elem_of_cons. intuition congruence.
Qed.

(** ** The simulation *)
Section refinement.
Context (window max : Z) (Hwindow : 0 <= window <= max_duration) (Hmax : 0 <= max).

(** A rule state (or its absence) represents a history: the live entries are
    what is left of it after dropping alerts that have left the window. *)
Record rule_rel (now : Z) (s : option ruleState) (l : list Z) : Prop := {
  rr_wf : forall rs, s = Some rs -> wf rs /\ rs_window rs = window /\ rs_maxCount rs = max;
  rr_sorted : StronglySorted Z.le l;
  rr_now : Forall (fun t => t <= now) l;
  rr_live : exists old, l = old ++ match s with Some rs => live rs | None => [] end /\
    Forall (fun t => t < now - window) old }.

Record rl_rel (now : Z) (rl : RateLimiter) (h : history) : Prop := {
  rel_enabled : rl_enabled rl = true;
  rel_window : rl_window rl = window;
  rel_max : rl_maxAlerts rl = max;
  rel_rules : forall id, rule_rel now (rl_states rl !! id) (hist h id) }.

Lemma rule_rel_mono now now' s l :
  now <= now' -> rule_rel now s l -> rule_rel now' s l.
Proof.
  intros Hn [Hw Hs Hle (old & E & Ho)]. split; [done | done | |].
  - eapply Forall_impl; [exact Hle|]. cbn. lia.
  - exists old. split; [done|]. eapply Forall_impl; [exact Ho|]. cbn. lia.
Qed.

(** What the code sees inside the window is what the history has there. *)
Lemma rule_rel_window now rs l :
  rule_rel now (Some rs) l ->
  Z.of_nat (length (drop_old (now - window) (live rs))) = in_window window now l.
Proof.
  intros [_ Hs _ (old & -> & Ho)]. unfold in_window.
  rewrite filter_app, (filter_old_nil _ _ Ho). cbn [app].
  rewrite drop_old_filter; [done|]. clear Ho. induction old as [|x old IH]; [done|].
  inversion Hs; auto.
Qed.

Lemma sorted_app_r (l1 l2 : list Z) : StronglySorted Z.le (l1 ++ l2) -> StronglySorted Z.le l2.
Proof. induction l1 as [|x l1 IH]; intros H; [done|]. inversion H; auto. Qed.

(** [drop_old] cuts a prefix of entries before the cutoff. *)
Lemma drop_old_app cutoff l :
  exists old, l = old ++ drop_old cutoff l /\ Forall (fun t => t < cutoff) old.
Proof.
  induction l as [|t l (old & E & Ho)]; [by exists []|]. cbn [drop_old].
  destruct (t <? cutoff) eqn:Ht; [|by exists []]. zbool.
  exists (t :: old). split; [cbn; by rewrite <- E | by constructor].
Qed.

(** [allow] on a related state follows the abstract step. *)
Lemma allow_refines now rs l :
  rule_rel now (Some rs) l ->
  let b := in_window window now l <? max in
  exists rs', allow now rs = Ok (rs', b) /\
    rule_rel now (Some rs') (if b then l ++ [now] else l).
Proof.
  intros Hr b. destruct (rr_wf _ _ _ Hr rs eq_refl) as (Hwf & Hw & Hm).
  destruct (allow_spec now rs Hwf) as (rs' & Ha & Hwf' & Hl & Hw' & Hm'); [by rewrite Hw|].
  rewrite Hw, Hm, (rule_rel_window _ _ _ Hr) in Ha, Hl. fold b in Ha, Hl.
  exists rs'. split; [done|]. destruct Hr as [_ Hs Hle (old & E & Ho)].
  destruct (drop_old_app (now - window) (live rs)) as (old2 & E2 & Ho2).
  assert (Forall (fun t => t < now - window) (old ++ old2)) as Hold by (by apply Forall_app).
  split.
  - intros ? [= <-]. by rewrite Hw', Hm'.
  - destruct b; [by apply sorted_snoc | done].
  - destruct b; [|done]. apply Forall_app. split; [done | repeat constructor; lia].
  - exists (old ++ old2). split; [|done]. rewrite Hl.
    assert (l = (old ++ old2) ++ drop_old (now - window) (live rs)) as El
      by (by rewrite <- app_assoc, <- E2).
    destruct b; [rewrite El at 1; by rewrite <- app_assoc | done].
Qed.

(** A state that is dropped had only entries before the window. *)
Lemma stale_drops now rs l cutoff :
  rule_rel now (Some rs) l -> cutoff <= now - window ->
  hasRecent cutoff rs = Ok false -> rule_rel now None l.
Proof.
  intros Hr Hc Hrec. destruct (rr_wf _ _ _ Hr rs eq_refl) as (Hwf & _).
  rewrite hasRecent_spec in Hrec by done. destruct Hr as [_ Hs Hle (old & -> & Ho)].
  split; [done | done | done |]. exists (old ++ live rs). split; [by rewrite app_nil_r|].
  apply Forall_app. split; [done|]. apply sorted_app_r in Hs.
  destruct (live rs) as [|t0 l0 _] using rev_ind; [constructor|].
  rewrite last_snoc in Hrec. injection Hrec as Hrec. zbool.
  assert (forall x, x ∈ l0 -> x <= t0) as Hle0.
  { clear -Hs. induction l0 as [|y l0 IH]; intros x Hx; [by apply elem_of_nil in Hx|].
    inversion Hs as [|? ? Hs' Hf]; subst. apply elem_of_cons in Hx as [->|Hx]; [|by apply IH].
    rewrite Forall_forall in Hf. apply Hf. set_solver. }
  apply Forall_app. split; [|repeat constructor; lia].
  apply Forall_forall. intros x Hx. specialize (Hle0 x Hx). lia.
Qed.

Lemma rl_rel_wf now rl h id rs :
  rl_rel now rl h -> rl_states rl !! id = Some rs -> wf rs.
Proof. intros Hr Hs. pose proof (rel_rules _ _ _ Hr id) as H. rewrite Hs in H. by eapply rr_wf. Qed.

Lemma Allow_refines now rl h id :
  rl_rel now rl h ->
  exists rl', step (OpAllow id now) rl = Ok (rl', (abs_step window max (OpAllow id now) h).2) /\
    rl_rel now rl' (abs_step window max (OpAllow id now) h).1.
Proof.
  intros [He Hw Hm Hr]. cbn [step abs_step]. unfold Allow. rewrite He. cbn [negb].
  assert (exists rs, (match rl_states rl !! id with Some state => Ok state
      | None => newRuleState (rl_window rl) (rl_maxAlerts rl) end) = Ok rs /\
    rule_rel now (Some rs) (hist h id)) as (rs & -> & Hrs).
  { specialize (Hr id). destruct (rl_states rl !! id) as [rs|]; [by exists rs|].
    destruct (newRuleState_ok (rl_window rl) (rl_maxAlerts rl)) as (rs & E & Hwf & Hl & ? & ?);
      [by rewrite Hm|]. exists rs. split; [done|]. destruct Hr as [_ Hs Hle (old & Eo & Ho)].
    split; [|done|done|exists old; by rewrite Hl].
    intros ? [= <-]. split_and!; [done | congruence | congruence]. }
  cbn [mbind result_bind]. destruct (allow_refines now rs (hist h id) Hrs) as (rs' & -> & Hrs').
  cbn [mbind result_bind].
  destruct (in_window window now (hist h id) <? max); cbn [fst snd]; eexists;
    (split; [done|]); (split; [done..|]); intros id'; cbn [rl_states set_states];
    (destruct (decide (id = id')) as [->|Hne];
      [rewrite lookup_insert_eq | rewrite lookup_insert_ne by done]);
    unfold hist in *; rewrite ?lookup_insert_eq, ?lookup_insert_ne by done; done || apply Hr.
Qed.

Lemma GetCount_refines now rl h id :
  rl_rel now rl h -> GetCount id now rl = Ok (in_window window now (hist h id)).
Proof.
  intros [He Hw Hm Hr]. unfold GetCount. specialize (Hr id).
  destruct (rl_states rl !! id) as [rs|].
  - destruct (rr_wf _ _ _ Hr rs eq_refl) as (Hwf & Hrw & Hrm).
    rewrite count_spec, Hrw by (by rewrite ?Hrw). by rewrite (rule_rel_window _ _ _ Hr).
  - destruct Hr as [_ _ _ (old & -> & Ho)]. unfold in_window. rewrite app_nil_r.
    by rewrite (filter_old_nil _ _ Ho).
Qed.

Lemma Cleanup_refines now rl h maxAge :
  rl_rel now rl h -> window <= maxAge <= max_duration ->
  exists rl' n, Cleanup maxAge now rl = Ok (rl', n) /\ rl_rel now rl' h.
Proof.
  intros Hrel Ha. unfold Cleanup, time_Add. rewrite neg_duration_id by lia.
  destruct (stale_ids_spec (now + - maxAge) (map_to_list (rl_states rl))) as (stale & -> & Hi).
  { apply Forall_forall. intros [id s] Hin. apply elem_of_map_to_list in Hin.
    by eapply rl_rel_wf. }
  cbn [mbind result_bind]. eexists _, _. split; [done|]. pose proof Hrel as [He Hw Hm Hr].
  split; [done..|]. intros id. cbn [rl_states set_states]. rewrite lookup_foldr_delete.
  destruct (decide (id ∈ stale)) as [Hin|]; [|done].
  apply Hi in Hin as (s & Hin & Hrec). apply elem_of_map_to_list in Hin. specialize (Hr id).
  rewrite Hin in Hr. eapply stale_drops; [done| |done]. lia.
Qed.

Lemma run_refines ops last rl h :
  well_timed window last ops -> rl_rel last rl h ->
  exists rl', run ops rl = Ok (rl', (abs_run window max ops h).2).
Proof.
  revert last rl h. induction ops as [|o ops IH]; intros last rl h Ht Hr; [by eexists|].
  destruct Ht as (Hle & Ha & Ht). cbn [run abs_run].
  assert (rl_rel (op_time o) rl h) as Hr'.
  { destruct Hr. split; [done..|]. intros id. by eapply rule_rel_mono. }
  assert (exists rl', step o rl = Ok (rl', (abs_step window max o h).2) /\
    rl_rel (op_time o) rl' (abs_step window max o h).1) as (rl' & -> & Hr1).
  { destruct o as [id now|id now|maxAge now]; cbn [op_time] in *.
    - by apply Allow_refines.
    - cbn [step abs_step]. rewrite (GetCount_refines _ _ _ _ Hr'). by eexists.
    - cbn [step abs_step]. destruct (Cleanup_refines _ _ _ _ Hr' Ha) as (rl' & n & -> & ?).
      by exists rl'. }
  destruct (abs_step window max o h) as [h1 r]. cbn [mbind result_bind fst snd] in *.
  destruct (IH _ _ _ Ht Hr1) as [rl2 ->]. destruct (abs_run window max ops h1) as [h2 rs].
  cbn. by eexists.
Qed.
End refinement.

Lemma new_rel window max now :
  0 <= max < 2 ^ 31 -> rl_rel window max now (NewRateLimiter window max true) ∅.
Proof.
  intros. split; cbn; [done | done | |].
  - unfold i32. rewrite <- (signed_wrap 32 max) at 2 by lia. unfold signed, wrap.
    by rewrite Z.mod_mod by lia.
  - intros id. rewrite lookup_empty. unfold hist. rewrite lookup_empty.
    split; [done | constructor | constructor | by exists []].
Qed.

(** Claim C9. The ring-buffer rate limiter refines the sliding-window
    specification: on any time-ordered sequence of [Allow], [GetCount] and
    [Cleanup] calls (with a clean-up age of at least the window), no call
    panics and every answer is that of the limiter that remembers the complete
    history, that is, an alert is accepted exactly when fewer than the maximum
    were accepted for its rule in the window that ends at the call. *)
Theorem ratelimiter_refines window max start ops :
  0 <= window <= max_duration -> 0 <= max < 2 ^ 31 -> well_timed window start ops ->
  exists rl, run ops (NewRateLimiter window max true) = Ok (rl, (abs_run window max ops ∅).2).
Proof. intros Hw Hm Ht. eapply run_refines; [done | lia | done | by apply new_rel]. Qed.

Definition demo_ops : list op :=
  [OpAllow "r1" 100; OpAllow "r1" 105; OpAllow "r1" 109; OpGetCount "r1" 110; OpCleanup 10 112;
   OpAllow "r1" 112; OpAllow "r2" 112]%string.

Lemma ratelimiter_refines_witness :
  well_timed 10 100 demo_ops /\
  exists rl, run demo_ops (NewRateLimiter 10 2 true)
    = Ok (rl, [OutBool true; OutBool true; OutBool false; OutCount 2; OutNone; OutBool true; OutBool true]).
Proof.
  assert (well_timed 10 100 demo_ops) as W by (vm_compute; intuition congruence).
  split; [exact W|].
  exact (ratelimiter_refines 10 2 100 demo_ops ltac:(vm_compute; split; congruence) ltac:(lia) W).
Defined.

(** ** The bound *)

(** The instants at which alerts of [id] were accepted in a run. *)
Fixpoint accepted (id : gostring) (ops : list op) (outs : list out) : list Z :=
  match ops, outs with
  | OpAllow i t :: ops, OutBool true :: outs =>
      if decide (i = id) then t :: accepted id ops outs else accepted id ops outs
  | _ :: ops, _ :: outs => accepted id ops outs
  | _, _ => []
  end.

(** Alerts of a list in the closed interval that starts at [t]. *)
Definition in_interval (window t : Z) (l : list Z) : Z :=
  Z.of_nat (length (filter (fun x => t <= x <= t + window) l)).

Lemma abs_step_bound window max o h id t :
  (forall t, in_interval window t (hist h id) <= max) ->
  in_interval window t (hist (abs_step window max o h).1 id) <= max.
Proof.
  intros Hb. destruct o as [i now|i now|a now]; cbn [abs_step]; [|apply Hb..].
  destruct (in_window window now (hist h i) <? max) eqn:Hw; cbn [fst]; [|apply Hb]. zbool.
  unfold hist in *. destruct (decide (i = id)) as [->|Hne];
    [|rewrite lookup_insert_ne by done; apply Hb].
  rewrite lookup_insert_eq. cbn [from_option Datatypes.id]. unfold in_interval. rewrite filter_app, length_app.
  destruct (decide (t <= now <= t + window)) as [Hin|Hout].
  - rewrite filter_cons_True by done. cbn. unfold in_window in Hw.
    enough (Nat.le (length (filter (fun x => t <= x <= t + window) (default [] (h !! id))))
      (length (filter (fun x => now - window <= x) (default [] (h !! id))))) by lia.
    clear -Hin. induction (default [] (h !! id)) as [|x l IH]; [done|].
    rewrite !filter_cons. repeat case_decide; cbn [length]; lia.
  - rewrite filter_cons_False by done. cbn. specialize (Hb t). unfold in_interval in Hb. lia.
Qed.

Lemma abs_run_accepted window max ops h id :
  hist (abs_run window max ops h).1 id
    = hist h id ++ accepted id ops (abs_run window max ops h).2.
Proof.
  revert h. induction ops as [|o ops IH]; intros h; [by rewrite app_nil_r|].
  cbn [abs_run]. destruct (abs_step window max o h) as [h1 r] eqn:Es.
  destruct (abs_run window max ops h1) as [h2 rs] eqn:Er. cbn [fst snd].
  specialize (IH h1). rewrite Er in IH. cbn [fst snd] in IH. rewrite IH.
  destruct o as [i now|i now|a now]; cbn [abs_step] in Es;
    [destruct (_ <? _)| |]; simplify_eq; cbn [accepted]; try done.
  unfold hist. case_decide; simplify_eq.
  - rewrite lookup_insert_eq. cbn [from_option Datatypes.id]. by rewrite <- app_assoc.
  - by rewrite lookup_insert_ne by done.
Qed.

Lemma abs_run_bound window max ops h id :
  (forall t, in_interval window t (hist h id) <= max) ->
  forall t, in_interval window t (hist (abs_run window max ops h).1 id) <= max.
Proof.
  revert h. induction ops as [|o ops IH]; intros h Hb t; [apply Hb|]. cbn [abs_run].
  destruct (abs_step window max o h) as [h1 r] eqn:Es.
  assert (forall t, in_interval window t (hist h1 id) <= max) as H1.
  { intros t'. replace h1 with (abs_step window max o h).1 by (by rewrite Es).
    by apply abs_step_bound. }
  specialize (IH h1 H1 t). by destruct (abs_run window max ops h1) as [h2 rs].
Qed.

(** The rate limit holds: in any time-ordered run of the limiter,
    at most [max] alerts of a rule are accepted in any closed interval of
    length [window]. *)
Theorem ratelimiter_bound window max start ops rl outs id t :
  0 <= window <= max_duration -> 0 <= max < 2 ^ 31 -> well_timed window start ops ->
  run ops (NewRateLimiter window max true) = Ok (rl, outs) ->
  in_interval window t (accepted id ops outs) <= max.
Proof.
  intros Hw Hm Ht Hr.
  destruct (run_refines window max Hw ltac:(lia) ops start _ ∅ Ht (new_rel _ _ _ Hm)) as [rl' Hr'].
  rewrite Hr in Hr'. injection Hr' as -> ->.
  pose proof (abs_run_accepted window max ops ∅ id) as E. cbn [hist] in E.
  replace (hist ∅ id) with (@nil Z) in E by done. cbn [app] in E. rewrite <- E.
  apply abs_run_bound. intros t'. unfold in_interval, hist. rewrite lookup_empty. cbn. lia.
Qed.

Lemma ratelimiter_bound_witness :
  exists rl outs, run demo_ops (NewRateLimiter 10 2 true) = Ok (rl, outs) /\
    accepted "r1" demo_ops outs = [100; 105; 112] /\
    in_interval 10 100 (accepted "r1" demo_ops outs) <= 2.
Proof.
  eexists _, _. split; [vm_compute; reflexivity|]. split; [vm_compute; reflexivity|].
  refine (ratelimiter_bound 10 2 100 demo_ops _ _ "r1" 100 _ _ _ _);
    [vm_compute; split; congruence | lia | vm_compute; intuition congruence | vm_compute; reflexivity].
Defined.

(** ** Reconfiguration *)

Lemma resize_copy_spec fuel i skip rs ring :
  wf rs -> 0 <= i -> 0 <= skip -> skip + i + Z.of_nat fuel = rs_size rs ->
  i + Z.of_nat fuel <= Z.of_nat (length ring) ->
  resize_copy fuel i skip rs ring
    = Ok (take (Z.to_nat i) ring ++ drop (Z.to_nat (skip + i)) (live rs)
          ++ drop (Z.to_nat i + fuel) ring).
Proof.
  intros Hwf. revert i ring. induction fuel as [|fuel IH]; intros i ring Hi Hs Hf Hr;
    cbn [resize_copy]; pose proof (length_live rs Hwf).
  - rewrite (drop_ge (live rs)) by lia. cbn [app].
    rewrite Nat.add_0_r. by rewrite take_drop.
  - destruct (lookup_lt_is_Some_2 (live rs) (Z.to_nat (skip + i))) as [t Ht]; [lia|].
    rewrite go_rem_ok by (destruct Hwf; lia). cbn [mbind result_bind].
    replace (rs_head rs + skip + i) with (rs_head rs + (skip + i)) by lia.
    rewrite (live_get rs (skip + i) t) by (done || lia). cbn [mbind result_bind].
    rewrite list_set_ok by lia. cbn [mbind result_bind].
    rewrite IH by (rewrite ?length_insert; lia). rewrite (drop_S _ _ _ Ht).
    replace (Z.to_nat (i + 1)) with (S (Z.to_nat i)) by lia.
    replace (Z.to_nat (skip + (i + 1))) with (S (Z.to_nat (skip + i))) by lia.
    rewrite (take_S_r _ _ t) by (apply list_lookup_insert_eq; lia).
    rewrite take_insert_ge by lia. rewrite drop_insert_lt by lia.
    rewrite <- app_assoc. cbn [app]. by replace (S (Z.to_nat i) + fuel)%nat with (Z.to_nat i + S fuel)%nat by lia.
Qed.

Lemma update_state_spec window maxAlerts rs :
  wf rs -> 0 <= maxAlerts ->
  exists rs', update_state window maxAlerts rs = Ok rs' /\ wf rs' /\
    live rs' = lastn (Z.to_nat maxAlerts) (live rs) /\
    rs_window rs' = window /\ rs_maxCount rs' = maxAlerts.
Proof.
  intros Hwf Hm. unfold update_state. cbn [rs_maxCount rs_size]. pose proof (length_live rs Hwf) as Hlen.
  destruct (rs_maxCount rs =? maxAlerts) eqn:E; cbn [negb]; zbool.
  - eexists. split_and!; [done | destruct Hwf; by split | | done | done].
    rewrite lastn_all; [done|]. destruct Hwf. lia.
  - rewrite go_make_ok by done. cbn [mbind result_bind].
    set (keep := if maxAlerts <? rs_size rs then maxAlerts else rs_size rs).
    assert (0 <= keep <= maxAlerts /\ keep <= rs_size rs) as [Hk1 Hk2].
    { unfold keep. destruct (maxAlerts <? rs_size rs) eqn:?; zbool; destruct Hwf; lia. }
    set (rs0 := mkRuleState _ _ _ window _).
    assert (wf rs0) as Hwf0 by (destruct Hwf; by split).
    rewrite (resize_copy_spec _ 0 (rs_size rs - keep) rs0); [|done|lia|lia|cbn; lia|rewrite length_replicate; lia].
    cbn [mbind result_bind]. change (Z.to_nat 0) with 0%nat. rewrite take_0, Z.add_0_r. cbn [app Nat.add].
    eexists. split_and!; [done | | | done | done].
    + split; cbn [rs_ring rs_head rs_size rs_maxCount]; try lia.
      rewrite length_app, !length_drop, length_replicate. fold (live rs).
      change (live rs0) with (live rs). lia.
    + unfold live at 1. cbn [rs_ring rs_head rs_size]. rewrite entries_linear.
      change (live rs0) with (live rs).
      rewrite take_app_exact by (rewrite length_drop; lia). unfold lastn. f_equal.
      unfold keep. destruct (maxAlerts <? rs_size rs) eqn:?; zbool; lia.
Qed.

Lemma update_states_spec window maxAlerts l :
  NoDup l.*1 -> Forall (fun p => wf p.2) l -> 0 <= maxAlerts ->
  exists m, update_states window maxAlerts l = Ok m /\
    forall id, match (list_to_map l : gmap gostring ruleState) !! id, m !! id with
      | Some rs, Some rs' => wf rs' /\ live rs' = lastn (Z.to_nat maxAlerts) (live rs) /\
          rs_window rs' = window /\ rs_maxCount rs' = maxAlerts
      | None, None => True
      | _, _ => False
      end.
Proof.
  intros Hnd Hwf Hm. induction l as [|[k s] l IH]; cbn [update_states].
  - exists ∅. split; [done|]. intros id. by rewrite lookup_empty.
  - cbn in Hnd. apply NoDup_cons in Hnd as [_ Hnd]. inversion Hwf; subst.
    destruct (update_state_spec window maxAlerts s) as (s' & -> & Hs'); [done..|].
    cbn [mbind result_bind]. destruct IH as (m & -> & Hi); [done..|]. cbn [mbind result_bind].
    eexists; split; [done|]. intros id. cbn [list_to_map foldr fst snd].
    destruct (decide (k = id)) as [->|]; [by rewrite !lookup_insert_eq|].
    rewrite !lookup_insert_ne by done. apply Hi.
Qed.

(** Reconfiguring a limiter keeps its state: [UpdateConfig] does
    not panic, every tracked rule stays tracked with a well-formed ring of the
    new capacity, and the ring holds the most recent of the old live entries,
    as many as fit. *)
Theorem UpdateConfig_keeps_recent window maxAlerts rl :
  0 <= maxAlerts < 2 ^ 31 ->
  (forall id rs, rl_states rl !! id = Some rs -> wf rs) ->
  exists rl', UpdateConfig window maxAlerts rl = Ok rl' /\
    rl_window rl' = window /\ rl_maxAlerts rl' = maxAlerts /\
    forall id, match rl_states rl !! id, rl_states rl' !! id with
      | Some rs, Some rs' => wf rs' /\ live rs' = lastn (Z.to_nat maxAlerts) (live rs) /\
          rs_window rs' = window /\ rs_maxCount rs' = maxAlerts
      | None, None => True
      | _, _ => False
      end.
Proof.
  intros Hm Hwf. unfold UpdateConfig.
  destruct (update_states_spec window maxAlerts (map_to_list (rl_states rl))) as (m & -> & Hi).
  - apply NoDup_fst_map_to_list.
  - apply Forall_forall. intros [id rs] Hin. apply elem_of_map_to_list in Hin. by eapply Hwf.
  - lia.
  - cbn [mbind result_bind]. eexists. split_and!; [done | done | |].
    + pose proof (rel_max _ _ _ _ _ (new_rel 0 maxAlerts 0 Hm)). done.
    + intros id. specialize (Hi id). by rewrite list_to_map_to_list in Hi.
Qed.

Definition demo_state : ruleState := mkRuleState [40; 10; 20; 30] 1 4 60 4.

Lemma UpdateConfig_witness :
  exists rl', UpdateConfig 30 2 (mkRL {["r1" := demo_state]} 60 4 true) = Ok rl' /\
    (live <$> rl_states rl' !! "r1"%string) = Some [30; 40].
Proof.
  destruct (UpdateConfig_keeps_recent 30 2 (mkRL {["r1"%string := demo_state]} 60 4 true))
    as (rl' & E & _ & _ & H).
  - lia.
  - intros id rs Hs. cbn [rl_states] in Hs. apply lookup_singleton_Some in Hs as [<- <-].
    split; vm_compute; intuition congruence.
  - exists rl'. split; [exact E|]. specialize (H "r1"%string). cbn [rl_states] in H.
    rewrite lookup_singleton_eq in H. destruct (rl_states rl' !! "r1"%string) as [rs'|]; [|done].
    destruct H as (_ & E2 & _). change (Some (live rs') = Some [30; 40]). rewrite E2. reflexivity.
Defined.
