(* ===== verification/EventBuffer.v ===== *)
(** * The sharded per-process event buffer

    Models src/internal/correlator/sharded_buffer.go: [ringBuffer] grows by
    doubling to [maxSize] and then overwrites its oldest entry;
    [ShardedEventBuffer] spreads the processes over a power-of-two number of
    shards by masking the PID. Locking makes each operation atomic, so an
    execution is a sequence of operations. *)
From S2P Require Import Prelude GoRing Types.

Abbreviation go A := (result Empty_set A).

Definition initialRingCapacity : Z := 8.

Record ringBuffer := mkRB { rb_events : list Event; rb_head : Z; rb_size : Z }.
Definition zero_rb : ringBuffer := mkRB [] 0 0.

(** ** Shard counts: the doubling loop [for p < n { p <<= 1 }]. *)
Fixpoint double_until (fuel : nat) (p n : Z) : Z :=
  match fuel with
  | O => p
  | S fuel => if p <? n then double_until fuel (Z.shiftl p 1) n else p
  end.

(** Both functions with their lower clamp; [p] doubles at least [n] up. *)
Definition compute_shards (lo numCPU gomaxprocs : Z) : Z * Z :=
  let n := if numCPU <? gomaxprocs then gomaxprocs else numCPU in
  let n := n * 4 in
  let n := if n <? lo then lo else n in
  let p := double_until (Z.to_nat n) lo n in
  let p := if 256 <? p then 256 else p in
  (p, u32 (p - 1)).
Definition computeBufferShards : Z -> Z -> Z * Z := compute_shards 4.
Definition computeLockShards : Z -> Z -> Z * Z := compute_shards 16.

(** ** State *)
Record eventBufferShard := mkShard { sh_buffers : gmap Z ringBuffer; sh_lastSeen : gmap Z Z }.
Definition empty_shard : eventBufferShard := mkShard ∅ ∅.

Record ShardedEventBuffer := mkSB {
  sb_shards : list eventBufferShard; sb_numShards : Z; sb_mask : Z; sb_maxSize : Z }.

Definition bufferShardIdx (sb : ShardedEventBuffer) (pid : Z) : Z := Z.land pid (sb_mask sb).

Definition NewShardedEventBuffer (numCPU gomaxprocs maxSize : Z) : ShardedEventBuffer :=
  let '(numShards, mask) := computeBufferShards numCPU gomaxprocs in
  mkSB (replicate (Z.to_nat numShards) empty_shard) numShards mask maxSize.

Definition set_shard (sb : ShardedEventBuffer) (i : Z) (s : eventBufferShard) : go ShardedEventBuffer :=
  shards ← list_set (sb_shards sb) i s;
  Ok (mkSB shards (sb_numShards sb) (sb_mask sb) (sb_maxSize sb)).

(** ** Operations *)

(** [Add]'s growth of the backing array: doubling from
    [initialRingCapacity], at most to [maxSize]. *)
Definition rb_grow (maxSize : Z) (rb : ringBuffer) : go (list Event) :=
  if rb_size rb =? Z.of_nat (length (rb_events rb)) then
    let newCap := Z.of_nat (length (rb_events rb)) * 2 in
    let newCap := if newCap <? initialRingCapacity then initialRingCapacity else newCap in
    let newCap := if maxSize <? newCap then maxSize else newCap in
    grown ← go_make empty_event newCap;
    Ok (go_copy grown (rb_events rb)).1
  else Ok (rb_events rb).

(** The body of [Add] on the ring of one process. *)
Definition rb_add (maxSize : Z) (e : Event) (rb : ringBuffer) : go ringBuffer :=
  if rb_size rb <? maxSize then
    events ← rb_grow maxSize rb;
    events ← list_set events (rb_size rb) e;
    let size := rb_size rb + 1 in
    head ← go_rem size maxSize;
    Ok (mkRB events head size)
  else
    events ← list_set (rb_events rb) (rb_head rb) e;
    head ← go_rem (rb_head rb + 1) maxSize;
    Ok (mkRB events head (rb_size rb)).

Definition Add (pid : Z) (e : Event) (now : Z) (sb : ShardedEventBuffer) : go ShardedEventBuffer :=
  let i := bufferShardIdx sb pid in
  shard ← list_get (sb_shards sb) i;
  let rb := default zero_rb (sh_buffers shard !! pid) in
  let lastSeen := <[pid := now]> (sh_lastSeen shard) in
  rb ← rb_add (sb_maxSize sb) e rb;
  set_shard sb i (mkShard (<[pid := rb]> (sh_buffers shard)) lastSeen).

(** Copying all events of a ring in chronological order. *)
Definition rb_all (maxSize : Z) (rb : ringBuffer) : go (list Event) :=
  result ← go_make empty_event (rb_size rb);
  if rb_size rb <? maxSize then
    src ← list_range (rb_events rb) 0 (rb_size rb);
    Ok (go_copy result src).1
  else
    src ← list_range (rb_events rb) (rb_head rb) (Z.of_nat (length (rb_events rb)));
    let '(result, copied) := go_copy result src in
    src2 ← list_range (rb_events rb) 0 (rb_head rb);
    Ok (take (Z.to_nat copied) result ++ (go_copy (drop (Z.to_nat copied) result) src2).1).

Definition Get (pid : Z) (sb : ShardedEventBuffer) : go (list Event) :=
  shard ← list_get (sb_shards sb) (bufferShardIdx sb pid);
  let rb := default zero_rb (sh_buffers shard !! pid) in
  if rb_size rb =? 0 then Ok [] else rb_all (sb_maxSize sb) rb.

Definition rb_recent (maxSize n : Z) (rb : ringBuffer) : go (list Event) :=
  if rb_size rb =? 0 then Ok [] else
  if rb_size rb <=? n then rb_all maxSize rb else
  result ← go_make empty_event n;
  if rb_size rb <? maxSize then
    src ← list_range (rb_events rb) (rb_size rb - n) (rb_size rb);
    Ok (go_copy result src).1
  else
    start ← go_rem (rb_head rb + maxSize - n) maxSize;
    if start + n <=? maxSize then
      src ← list_range (rb_events rb) start (start + n);
      Ok (go_copy result src).1
    else
      src ← list_range (rb_events rb) start (Z.of_nat (length (rb_events rb)));
      let '(result, copied) := go_copy result src in
      src2 ← list_range (rb_events rb) 0 (n - copied);
      Ok (take (Z.to_nat copied) result ++ (go_copy (drop (Z.to_nat copied) result) src2).1).

Definition GetRecent (pid n : Z) (sb : ShardedEventBuffer) : go (list Event) :=
  if n <=? 0 then Ok [] else
  shard ← list_get (sb_shards sb) (bufferShardIdx sb pid);
  rb_recent (sb_maxSize sb) n (default zero_rb (sh_buffers shard !! pid)).

Definition Remove (pid : Z) (sb : ShardedEventBuffer) : go ShardedEventBuffer :=
  let i := bufferShardIdx sb pid in
  shard ← list_get (sb_shards sb) i;
  set_shard sb i (mkShard (delete pid (sh_buffers shard)) (delete pid (sh_lastSeen shard))).

Definition map_shards (f : eventBufferShard -> eventBufferShard) (sb : ShardedEventBuffer) :
  ShardedEventBuffer :=
  mkSB (map f (sb_shards sb)) (sb_numShards sb) (sb_mask sb) (sb_maxSize sb).

Definition Clear (sb : ShardedEventBuffer) : ShardedEventBuffer :=
  map_shards (fun _ => empty_shard) sb.

(** The processes of a shard not seen since [cutoff], and the shard without
    them. *)
Definition expired (cutoff : Z) (s : eventBufferShard) : gmap Z Z :=
  filter (fun '(_, ts) => time_Before ts cutoff = true) (sh_lastSeen s).

Definition expire_shard (cutoff : Z) (s : eventBufferShard) : eventBufferShard :=
  mkShard (sh_buffers s ∖ (const zero_rb <$> expired cutoff s))
    (sh_lastSeen s ∖ expired cutoff s).

Definition CleanupExpired (ttl now : Z) (sb : ShardedEventBuffer) : ShardedEventBuffer * Z :=
  let cutoff := time_Add now (neg_duration ttl) in
  (map_shards (expire_shard cutoff) sb,
   fold_left (fun removed s => removed + Z.of_nat (size (expired cutoff s))) (sb_shards sb) 0).

Definition PIDs (sb : ShardedEventBuffer) : list Z :=
  concat (map (fun s => (map_to_list (sh_buffers s)).*1) (sb_shards sb)).

Definition Count (sb : ShardedEventBuffer) : Z :=
  fold_left (fun count s => count + Z.of_nat (size (sh_buffers s))) (sb_shards sb) 0.

(** ** The ring of one process *)

(** Its events, oldest first. *)
Definition rb_contents (maxSize : Z) (rb : ringBuffer) : list Event :=
  if rb_size rb <? maxSize then take (Z.to_nat (rb_size rb)) (rb_events rb)
  else entries (rb_events rb) (rb_head rb) (rb_size rb).

Record rb_wf (maxSize : Z) (rb : ringBuffer) : Prop := {
  rbw_size : 0 <= rb_size rb <= maxSize;
  rbw_len : rb_size rb <= Z.of_nat (length (rb_events rb)) <= maxSize;
  rbw_head : rb_size rb = maxSize -> 0 <= rb_head rb < maxSize }.

Lemma zero_rb_wf maxSize : 0 < maxSize -> rb_wf maxSize zero_rb.
Proof. intros. split; cbn; lia. Qed.

Lemma length_rb_contents maxSize rb :
  rb_wf maxSize rb -> Z.of_nat (length (rb_contents maxSize rb)) = rb_size rb.
Proof.
  intros []. unfold rb_contents. destruct (rb_size rb <? maxSize) eqn:E; zbool.
  - rewrite length_take. lia.
  - rewrite length_entries by lia. lia.
Qed.

(** The array of the fill phase after a possible growth. *)
Lemma grow_ok maxSize rb :
  0 < maxSize -> rb_wf maxSize rb -> rb_size rb < maxSize ->
  exists ev, rb_grow maxSize rb = Ok ev /\
    rb_size rb < Z.of_nat (length ev) <= maxSize /\
    take (Z.to_nat (rb_size rb)) ev = take (Z.to_nat (rb_size rb)) (rb_events rb).
Proof.
  intros Hm [Hs Hl Hh] Hlt. unfold rb_grow. destruct (rb_size rb =? _) eqn:E; zbool.
  - assert (0 <= Z.of_nat (length (rb_events rb))) by lia.
    set (L := Z.of_nat (length (rb_events rb))) in *. cbv zeta.
    set (c := if maxSize <? _ then _ else _).
    assert (L < c <= maxSize) as Hc.
    { unfold c, initialRingCapacity. repeat case_match; zbool; lia. }
    rewrite go_make_ok by lia. cbn [mbind result_bind].
    rewrite go_copy_fits by (rewrite length_replicate; lia). cbn [fst].
    eexists. split_and!; [done | | |].
    + rewrite length_app, length_drop, length_replicate. lia.
    + rewrite length_app, length_drop, length_replicate. lia.
    + rewrite take_app_le by lia. done.
  - eexists. split_and!; [done | lia | lia | done].
Qed.

Lemma rb_add_spec maxSize e rb :
  0 < maxSize -> rb_wf maxSize rb ->
  exists rb', rb_add maxSize e rb = Ok rb' /\ rb_wf maxSize rb' /\
    rb_contents maxSize rb' = lastn (Z.to_nat maxSize) (rb_contents maxSize rb ++ [e]).
Proof.
  intros Hm Hwf. pose proof (length_rb_contents _ _ Hwf) as Hlen. unfold rb_add.
  destruct (rb_size rb <? maxSize) eqn:Hs.
  - pose proof (proj1 (Z.ltb_lt _ _) Hs) as Hlt. destruct (grow_ok maxSize rb Hm Hwf Hlt) as (ev & -> & He & Ht).
    cbn [mbind result_bind]. destruct Hwf as [Hsz Hl Hh].
    rewrite list_set_ok by lia. cbn [mbind result_bind].
    rewrite go_rem_ok by lia. cbn [mbind result_bind]. eexists. split_and!; [done | |].
    + split; cbn [rb_events rb_head rb_size]; rewrite ?length_insert; try lia.
      intros ->. rewrite Z.mod_same by lia. lia.
    + rewrite lastn_all by (rewrite length_app; cbn [length]; lia).
      unfold rb_contents. rewrite Hs. cbn [rb_events rb_head rb_size].
      assert (take (Z.to_nat (rb_size rb + 1)) (<[Z.to_nat (rb_size rb) := e]> ev)
        = take (Z.to_nat (rb_size rb)) (rb_events rb) ++ [e]) as E.
      { replace (Z.to_nat (rb_size rb + 1)) with (S (Z.to_nat (rb_size rb))) by lia.
        rewrite (take_S_r _ _ e) by (apply list_lookup_insert_eq; lia).
        by rewrite take_insert_ge, Ht by lia. }
      destruct (rb_size rb + 1 <? maxSize) eqn:Hn; zbool; [done|].
      replace (rb_size rb + 1) with maxSize in E |- * by lia.
      by rewrite Z.mod_same, entries_linear by lia.
  - pose proof (proj1 (Z.ltb_ge _ _) Hs) as Hge. destruct Hwf as [Hsz Hl Hh].
    assert (rb_size rb = maxSize) as Es by lia. specialize (Hh Es).
    assert (Z.of_nat (length (rb_events rb)) = maxSize) as El by lia.
    rewrite list_set_ok by lia. cbn [mbind result_bind].
    rewrite go_rem_ok by lia. cbn [mbind result_bind]. eexists. split_and!; [done | |].
    + pose proof (Z.mod_pos_bound (rb_head rb + 1) maxSize).
      split; cbn [rb_events rb_head rb_size]; rewrite ?length_insert; lia.
    + rewrite lastn_snoc_full by lia. rewrite lastn_all by lia.
      unfold rb_contents. cbn [rb_events rb_head rb_size]. rewrite Hs, Es, <- El.
      apply entries_overwrite. lia.
Qed.

Lemma rb_all_spec maxSize rb :
  0 < maxSize -> rb_wf maxSize rb -> rb_all maxSize rb = Ok (rb_contents maxSize rb).
Proof.
  intros Hm [Hs Hl Hh]. unfold rb_all, rb_contents. rewrite go_make_ok by lia.
  cbn [mbind result_bind]. destruct (rb_size rb <? maxSize) eqn:E; zbool.
  - rewrite list_range_ok by lia. cbn [mbind result_bind]. rewrite Z.sub_0_r, drop_0.
    rewrite go_copy_exact; [done|]. rewrite length_take, length_replicate. lia.
  - assert (rb_size rb = maxSize) as Es by lia. specialize (Hh Es).
    assert (Z.of_nat (length (rb_events rb)) = maxSize) as El by lia.
    rewrite Es, <- El, entries_full by lia. rewrite (list_range_ok _ (rb_head rb)) by lia. cbn [mbind result_bind].
    rewrite (take_ge (drop _ _)) by (rewrite length_drop; lia).
    rewrite go_copy_fits by (rewrite length_replicate, length_drop; lia).
    rewrite list_range_ok by lia. cbn [mbind result_bind]. rewrite Nat2Z.id, drop_0, Z.sub_0_r.
    rewrite take_app_length, drop_app_length. rewrite go_copy_exact; [done|].
    rewrite length_take, !length_drop, length_replicate. lia.
Qed.

Lemma rb_recent_spec maxSize n rb :
  0 < maxSize -> rb_wf maxSize rb -> 0 < n ->
  rb_recent maxSize n rb = Ok (lastn (Z.to_nat n) (rb_contents maxSize rb)).
Proof.
  intros Hm Hwf Hn. pose proof (length_rb_contents _ _ Hwf) as Hlen. unfold rb_recent.
  destruct (rb_size rb =? 0) eqn:E0; zbool.
  { destruct (rb_contents maxSize rb); [done | cbn in Hlen; lia]. }
  destruct (rb_size rb <=? n) eqn:En; zbool.
  { rewrite rb_all_spec, lastn_all by (done || lia). done. }
  unfold lastn. pose proof Hwf as [Hs Hl Hh]. rewrite go_make_ok by lia. cbn [mbind result_bind].
  destruct (rb_size rb <? maxSize) eqn:E.
  - unfold rb_contents in *. rewrite E in *. zbool. rewrite list_range_ok by lia. cbn [mbind result_bind].
    rewrite go_copy_exact by (rewrite length_take, length_drop, length_replicate; lia).
    f_equal. rewrite skipn_firstn_comm. f_equal; [lia | f_equal; lia].
  - assert (rb_size rb = maxSize) as Es by (zbool; lia). specialize (Hh Es).
    assert (Z.of_nat (length (rb_events rb)) = maxSize) as El by lia.
    unfold rb_contents in *. rewrite E in *. rewrite Es, <- El, entries_full in * by lia.
    rewrite go_rem_ok by lia. cbn [mbind result_bind].
    set (M := Z.of_nat (length (rb_events rb))) in *. set (h := rb_head rb) in *.
    assert (length (drop (Z.to_nat h) (rb_events rb) ++ take (Z.to_nat h) (rb_events rb))
      - Z.to_nat n = Z.to_nat (M - n))%nat as -> by lia.
    destruct (decide (h < n)) as [Hlt|Hge].
    + replace ((h + M - n) mod M) with (h + M - n) by (symmetry; apply Z.mod_small; lia).
      rewrite drop_app_le by (rewrite length_drop; lia). rewrite drop_drop.
      replace (Z.to_nat h + Z.to_nat (M - n))%nat with (Z.to_nat (h + M - n)) by lia.
      destruct (h + M - n + n <=? M) eqn:Ef; zbool.
      * assert (h = 0) as H0 by lia. rewrite list_range_ok by lia. cbn [mbind result_bind].
        rewrite H0. cbn [Z.to_nat take]. rewrite app_nil_r.
        rewrite (take_ge (drop _ _)) by (rewrite length_drop; lia).
        rewrite go_copy_exact; [done|]. rewrite length_drop, length_replicate. lia.
      * rewrite (list_range_ok _ (h + M - n)) by lia. cbn [mbind result_bind].
        rewrite (take_ge (drop _ _)) by (rewrite length_drop; lia).
        rewrite go_copy_fits by (rewrite length_replicate, length_drop; lia).
        rewrite list_range_ok by (rewrite length_drop; lia). cbn [mbind result_bind].
        rewrite Nat2Z.id, take_app_length, drop_app_length, drop_0, Z.sub_0_r.
        rewrite go_copy_exact
          by (rewrite length_take, !length_drop, length_replicate; lia).
        do 3 f_equal. rewrite length_drop. lia.
    + replace ((h + M - n) mod M) with (h - n)
        by (symmetry; replace (h + M - n) with (h - n + 1 * M) by lia;
            rewrite Z_mod_plus_full; apply Z.mod_small; lia).
      rewrite (proj2 (Z.leb_le (h - n + n) M)) by lia.
      rewrite list_range_ok by lia. cbn [mbind result_bind].
      rewrite drop_app_ge by (rewrite length_drop; lia).
      rewrite go_copy_exact by (rewrite length_take, length_drop, length_replicate; lia).
      rewrite skipn_firstn_comm, length_drop. f_equal. f_equal; [lia | f_equal; lia].
Qed.

(** ** Shard counts *)

Lemma double_until_pow2 fuel j n :
  0 <= j -> exists k, j <= k /\ double_until fuel (2 ^ j) n = 2 ^ k /\
    (k = j \/ 2 ^ (k - 1) < n) /\ (n <= 2 ^ j * 2 ^ Z.of_nat fuel -> n <= 2 ^ k).
Proof.
  revert j. induction fuel as [|fuel IH]; intros j Hj; cbn [double_until].
  - exists j. split_and!; [lia | done | by left |]. change (2 ^ Z.of_nat 0) with 1. lia.
  - destruct (2 ^ j <? n) eqn:E; zbool.
    + rewrite Z.shiftl_mul_pow2, <- Z.pow_add_r by lia.
      destruct (IH (j + 1)) as (k & Hk & -> & Hlt & Hn); [lia|]. exists k.
      split_and!; [lia | done | |].
      * right. destruct Hlt as [->|]; [|done]. by replace (j + 1 - 1) with j by lia.
      * intros H. apply Hn. rewrite Z.pow_add_r by lia.
        rewrite Nat2Z.inj_succ, Z.pow_succ_r in H by lia. lia.
    + exists j. split_and!; [lia | done | by left | lia].
Qed.

Lemma pow2_le_256 k : 0 <= k -> 2 ^ k <= 256 -> k <= 8.
Proof. intros Hk H. change 256 with (2 ^ 8) in H. apply Z.pow_le_mono_r_iff in H; lia. Qed.

Lemma compute_shards_spec j numCPU gomaxprocs :
  0 <= j <= 8 ->
  exists k, j <= k <= 8 /\ compute_shards (2 ^ j) numCPU gomaxprocs = (2 ^ k, 2 ^ k - 1) /\
    Z.min 256 (4 * Z.max numCPU gomaxprocs) <= 2 ^ k /\
    (k = j \/ 2 ^ (k - 1) < 4 * Z.max numCPU gomaxprocs).
Proof.
  intros Hj. unfold compute_shards.
  set (n := if _ <? 2 ^ j then _ else _).
  assert (n = Z.max (2 ^ j) (4 * Z.max numCPU gomaxprocs)) as En.
  { unfold n. repeat case_match; zbool; lia. }
  clearbody n. pose proof (Z.pow_pos_nonneg 2 j ltac:(lia) ltac:(lia)) as Hp.
  destruct (double_until_pow2 (Z.to_nat n) j n) as (k & Hk & -> & Hlt & Hn); [lia|].
  assert (n <= 2 ^ k) as Hn'.
  { apply Hn. pose proof (Z.pow_gt_lin_r 2 (Z.of_nat (Z.to_nat n))). nia. }
  assert (k = j \/ 2 ^ (k - 1) < 4 * Z.max numCPU gomaxprocs) as Hlt'.
  { destruct Hlt as [?|Hlt]; [by left|]. destruct (decide (k = j)) as [|Hne]; [by left|]. right.
    assert (2 ^ j <= 2 ^ (k - 1)) by (apply Z.pow_le_mono_r; lia). lia. }
  destruct (256 <? 2 ^ k) eqn:E; zbool.
  - exists 8. change (2 ^ 8) with 256. split_and!; [lia | lia | by vm_compute | lia |].
    destruct (decide (j = 8)) as [->|]; [by left|]. right.
    assert (8 < k) as H8 by (apply (Z.pow_lt_mono_r_iff 2); [lia..|exact E]).
    destruct Hlt' as [->|Hlt']; [lia|].
    assert (2 ^ (8 - 1) <= 2 ^ (k - 1)) by (apply Z.pow_le_mono_r; lia). lia.
  - exists k. split_and!; [lia | apply pow2_le_256; [lia | done] | | lia | done].
    f_equal. unfold u32. apply wrap_id. unfold in_range. lia.
Qed.

(** The shard count is the power of two the comment promises: the
    smallest one that reaches four times the larger of [NumCPU] and
    [GOMAXPROCS], clamped to [[4, 256]] for buffers and [[16, 256]] for locks;
    the mask is one less, so masking a PID gives a valid shard index. *)
Theorem shard_counts numCPU gomaxprocs :
  let n := 4 * Z.max numCPU gomaxprocs in
  (exists k, 2 <= k <= 8 /\ computeBufferShards numCPU gomaxprocs = (2 ^ k, 2 ^ k - 1) /\
     Z.min 256 n <= 2 ^ k /\ (k = 2 \/ 2 ^ (k - 1) < n) /\
     forall pid, 0 <= Z.land pid (2 ^ k - 1) < 2 ^ k) /\
  (exists k, 4 <= k <= 8 /\ computeLockShards numCPU gomaxprocs = (2 ^ k, 2 ^ k - 1) /\
     Z.min 256 n <= 2 ^ k /\ (k = 4 \/ 2 ^ (k - 1) < n) /\
     forall pid, 0 <= Z.land pid (2 ^ k - 1) < 2 ^ k).
Proof.
  assert (forall k pid, 0 <= k -> 0 <= Z.land pid (2 ^ k - 1) < 2 ^ k) as Hland.
  { intros k pid Hk. rewrite Z.sub_1_r, <- Z.ones_equiv, Z.land_ones by done.
    apply Z.mod_pos_bound. lia. }
  split.
  - destruct (compute_shards_spec 2 numCPU gomaxprocs) as (k & Hk & E & H1 & H2); [lia|].
    exists k. split_and!; try done; try lia; intros pid; apply Hland; lia.
  - destruct (compute_shards_spec 4 numCPU gomaxprocs) as (k & Hk & E & H1 & H2); [lia|].
    exists k. split_and!; try done; try lia; intros pid; apply Hland; lia.
Qed.

(** ** The sharded buffer *)

Definition shard_of (sb : ShardedEventBuffer) (pid : Z) : eventBufferShard :=
  default empty_shard (sb_shards sb !! Z.to_nat (bufferShardIdx sb pid)).

(** The events kept for a process, oldest first, and when it was last seen. *)
Definition contents (sb : ShardedEventBuffer) (pid : Z) : list Event :=
  match sh_buffers (shard_of sb pid) !! pid with
  | Some rb => rb_contents (sb_maxSize sb) rb
  | None => []
  end.
Definition last_seen (sb : ShardedEventBuffer) (pid : Z) : option Z :=
  sh_lastSeen (shard_of sb pid) !! pid.
Definition tracked (sb : ShardedEventBuffer) (pid : Z) : Prop :=
  is_Some (sh_buffers (shard_of sb pid) !! pid).

(** A shard holds well-formed rings of the processes that map to it, and
    knows when each was last seen. *)
Record shard_inv (mask maxSize i : Z) (s : eventBufferShard) : Prop := {
  si_rings : map_Forall (fun pid rb => rb_wf maxSize rb /\ Z.land pid mask = i) (sh_buffers s);
  si_seen : dom (sh_buffers s) = dom (sh_lastSeen s) }.

Record sb_inv (sb : ShardedEventBuffer) : Prop := {
  sbi_max : 0 < sb_maxSize sb;
  sbi_pow : exists k, 0 <= k /\ sb_numShards sb = 2 ^ k /\ sb_mask sb = 2 ^ k - 1;
  sbi_len : Z.of_nat (length (sb_shards sb)) = sb_numShards sb;
  sbi_shards : forall i s, sb_shards sb !! i = Some s ->
    shard_inv (sb_mask sb) (sb_maxSize sb) (Z.of_nat i) s }.

Lemma shard_idx_range sb pid : sb_inv sb -> 0 <= bufferShardIdx sb pid < sb_numShards sb.
Proof.
  intros [_ (k & Hk & -> & Hm) _ _]. unfold bufferShardIdx.
  rewrite Hm, Z.sub_1_r, <- Z.ones_equiv, Z.land_ones by done. apply Z.mod_pos_bound. lia.
Qed.

Lemma shard_of_get sb pid :
  sb_inv sb -> sb_shards sb !! Z.to_nat (bufferShardIdx sb pid) = Some (shard_of sb pid).
Proof.
  intros H. pose proof (shard_idx_range sb pid H). unfold shard_of.
  destruct (lookup_lt_is_Some_2 (sb_shards sb) (Z.to_nat (bufferShardIdx sb pid))) as [s ->]; [|done].
  destruct H. lia.
Qed.

Lemma shard_of_inv sb pid :
  sb_inv sb -> shard_inv (sb_mask sb) (sb_maxSize sb) (bufferShardIdx sb pid) (shard_of sb pid).
Proof.
  intros H. pose proof (sbi_shards sb H _ _ (shard_of_get sb pid H)) as Hs.
  rewrite Z2Nat.id in Hs; [done|]. by apply shard_idx_range.
Qed.

(** Replacing the shard of a process. *)
Lemma set_shard_spec sb pid s :
  sb_inv sb -> shard_inv (sb_mask sb) (sb_maxSize sb) (bufferShardIdx sb pid) s ->
  exists sb', set_shard sb (bufferShardIdx sb pid) s = Ok sb' /\ sb_inv sb' /\
    sb_maxSize sb' = sb_maxSize sb /\
    forall p, shard_of sb' p = if decide (bufferShardIdx sb p = bufferShardIdx sb pid)
      then s else shard_of sb p.
Proof.
  intros H Hs. pose proof (shard_idx_range sb pid H) as Hi. unfold set_shard.
  rewrite list_set_ok by (destruct H; lia). cbn [mbind result_bind].
  eexists. split_and!; [done | | done |].
  - destruct H as [Hm Hp Hl Hall]. split; cbn [sb_maxSize sb_numShards sb_mask sb_shards];
      [done | done | by rewrite length_insert |].
    intros i s' Hlk. apply list_lookup_insert_Some in Hlk as [(<- & <- & _)|(_ & Hlk)]; [|by apply Hall].
    by rewrite Z2Nat.id by lia.
  - intros p. pose proof (shard_idx_range sb p H) as Hip.
    unfold shard_of, bufferShardIdx in *. cbn [sb_mask sb_shards]. case_decide as E.
    + rewrite E, list_lookup_insert_eq by (destruct H; lia). done.
    + rewrite list_lookup_insert_ne by lia. done.
Qed.

Lemma shard_ring_wf sb pid :
  sb_inv sb -> rb_wf (sb_maxSize sb) (default zero_rb (sh_buffers (shard_of sb pid) !! pid)).
Proof.
  intros H. destruct (shard_of_inv sb pid H) as [Hr _].
  destruct (sh_buffers (shard_of sb pid) !! pid) as [rb|] eqn:E; cbn.
  - by apply Hr in E as [? _].
  - apply zero_rb_wf. by destruct H.
Qed.

Lemma contents_ring sb pid :
  sb_inv sb -> contents sb pid
    = rb_contents (sb_maxSize sb) (default zero_rb (sh_buffers (shard_of sb pid) !! pid)).
Proof.
  intros H. unfold contents. destruct (sh_buffers (shard_of sb pid) !! pid); [done|]. cbn.
  unfold rb_contents. cbn. by rewrite (proj2 (Z.ltb_lt _ _)) by (by destruct H).
Qed.

Lemma buffer_Add_spec pid e now sb :
  sb_inv sb ->
  exists sb', Add pid e now sb = Ok sb' /\ sb_inv sb' /\ sb_maxSize sb' = sb_maxSize sb /\
    contents sb' pid = lastn (Z.to_nat (sb_maxSize sb)) (contents sb pid ++ [e]) /\
    last_seen sb' pid = Some now /\
    forall p, p <> pid -> contents sb' p = contents sb p /\ last_seen sb' p = last_seen sb p.
Proof.
  intros H. unfold Add. pose proof (shard_idx_range sb pid H).
  rewrite (list_get_ok _ _ (shard_of sb pid)) by (lia || by apply shard_of_get).
  cbn [mbind result_bind].
  destruct (rb_add_spec (sb_maxSize sb) e (default zero_rb (sh_buffers (shard_of sb pid) !! pid)))
    as (rb' & -> & Hwf & Hc); [by destruct H | by apply shard_ring_wf|].
  cbn [mbind result_bind]. rewrite <- contents_ring in Hc by done.
  destruct (shard_of_inv sb pid H) as [Hr Hd].
  edestruct (set_shard_spec sb pid) as (sb' & -> & H' & Hm & Hsh); [done| |].
  { split; cbn [sh_buffers sh_lastSeen].
    - apply map_Forall_insert_2; done.
    - by rewrite !dom_insert_L, Hd. }
  exists sb'. split_and!; [done | done | done | | |].
  - unfold contents at 1. rewrite Hsh, decide_True by done. cbn [sh_buffers].
    by rewrite lookup_insert_eq, Hm.
  - unfold last_seen. rewrite Hsh, decide_True by done. cbn. by rewrite lookup_insert_eq.
  - intros p Hp. unfold contents, last_seen. rewrite Hsh, Hm. case_decide as E; [|done].
    cbn [sh_buffers sh_lastSeen]. rewrite !lookup_insert_ne by done. unfold shard_of. by rewrite E.
Qed.

Lemma Get_spec pid sb : sb_inv sb -> Get pid sb = Ok (contents sb pid).
Proof.
  intros H. unfold Get. pose proof (shard_idx_range sb pid H).
  rewrite (list_get_ok _ _ (shard_of sb pid)) by (lia || by apply shard_of_get).
  cbn [mbind result_bind]. rewrite contents_ring by done.
  pose proof (shard_ring_wf sb pid H) as Hwf. set (rb := default _ _) in *.
  destruct (rb_size rb =? 0) eqn:E; zbool.
  - pose proof (length_rb_contents _ _ Hwf). destruct (rb_contents _ rb); [done | cbn in *; lia].
  - apply rb_all_spec; [by destruct H | done].
Qed.

Lemma GetRecent_spec pid n sb :
  sb_inv sb -> GetRecent pid n sb = Ok (lastn (Z.to_nat n) (contents sb pid)).
Proof.
  intros H. unfold GetRecent. destruct (n <=? 0) eqn:E; zbool.
  - unfold lastn. replace (Z.to_nat n) with 0%nat by lia. by rewrite drop_ge by lia.
  - pose proof (shard_idx_range sb pid H).
    rewrite (list_get_ok _ _ (shard_of sb pid)) by (lia || by apply shard_of_get).
    cbn [mbind result_bind]. rewrite contents_ring by done.
    apply rb_recent_spec; [by destruct H | by apply shard_ring_wf | done].
Qed.

Lemma new_inv numCPU gomaxprocs maxSize :
  0 < maxSize ->
  let sb := NewShardedEventBuffer numCPU gomaxprocs maxSize in
  sb_inv sb /\ sb_maxSize sb = maxSize /\ forall pid, contents sb pid = [] /\ last_seen sb pid = None.
Proof.
  intros Hm. unfold NewShardedEventBuffer, computeBufferShards.
  destruct (compute_shards_spec 2 numCPU gomaxprocs) as (k & Hk & E & _); [lia|].
  change (2 ^ 2) with 4 in E. rewrite E. cbv zeta.
  assert (forall i s, replicate (Z.to_nat (2 ^ k)) empty_shard !! i = Some s -> s = empty_shard) as He
    by (intros i s Hi; by apply lookup_replicate in Hi as [-> _]).
  split_and!; [|done|].
  - split; cbn [sb_maxSize sb_numShards sb_mask sb_shards]; [done | | rewrite length_replicate; lia |].
    + exists k. split_and!; lia.
    + intros i s Hi. apply He in Hi as ->. split; [apply map_Forall_empty | done].
  - intros pid. unfold contents, last_seen, shard_of. cbn [sb_shards].
    destruct (replicate _ _ !! _) as [s|] eqn:Hi; [apply He in Hi as ->|]; done.
Qed.

(** A sequence of [Add] calls. *)
Fixpoint add_all (l : list (Z * Event * Z)) (sb : ShardedEventBuffer) : go ShardedEventBuffer :=
  match l with
  | [] => Ok sb
  | (pid, e, now) :: l => sb ← Add pid e now sb; add_all l sb
  end.

(** The events of [pid] among the added ones. *)
Fixpoint events_of (pid : Z) (l : list (Z * Event * Z)) : list Event :=
  match l with
  | [] => []
  | (p, e, _) :: l => if decide (p = pid) then e :: events_of pid l else events_of pid l
  end.

Lemma lastn_app_lastn {A} n (l k : list A) : lastn n (lastn n l ++ k) = lastn n (l ++ k).
Proof.
  unfold lastn. rewrite !length_app, length_drop.
  destruct (decide (length k <= n)%nat) as [Hk|Hk].
  - rewrite !(drop_app_le l), !(drop_app_le (drop _ _)) by (rewrite ?length_drop; lia).
    rewrite drop_drop. do 2 f_equal. lia.
  - rewrite !drop_app_ge by (rewrite ?length_drop; lia). rewrite length_drop. f_equal. lia.
Qed.

Lemma add_all_spec l sb :
  sb_inv sb ->
  exists sb', add_all l sb = Ok sb' /\ sb_inv sb' /\ sb_maxSize sb' = sb_maxSize sb /\
    forall pid, contents sb' pid = lastn (Z.to_nat (sb_maxSize sb)) (contents sb pid ++ events_of pid l).
Proof.
  revert sb. induction l as [|[[p e] now] l IH]; intros sb H; cbn [add_all events_of].
  - exists sb. split_and!; [done..|]. intros pid. rewrite app_nil_r, lastn_all; [done|].
    rewrite contents_ring by done. pose proof (shard_ring_wf sb pid H) as Hwf.
    pose proof (length_rb_contents _ _ Hwf). destruct Hwf. lia.
  - destruct (buffer_Add_spec p e now sb H) as (sb1 & -> & H1 & Hm1 & Hc & _ & Ho). cbn [mbind result_bind].
    destruct (IH sb1 H1) as (sb2 & -> & H2 & Hm2 & Hc2). exists sb2.
    split_and!; [done | done | congruence |]. intros pid. rewrite Hc2, Hm1.
    case_decide as E; [subst; rewrite Hc, lastn_app_lastn, <- app_assoc; done|].
    destruct (Ho pid) as [-> _]; [congruence | done].
Qed.

(** Claim C13. The event buffer remembers exactly the most recent events of
    each process: for a buffer of positive size on any machine, after any
    sequence of additions for any processes, no operation has panicked, [Get]
    returns the last [maxSize] events of the process in the order they were
    added, and [GetRecent] the last [n] of those. *)
Theorem event_buffer_recent numCPU gomaxprocs maxSize l :
  0 < maxSize ->
  exists sb, add_all l (NewShardedEventBuffer numCPU gomaxprocs maxSize) = Ok sb /\
    forall pid, Get pid sb = Ok (lastn (Z.to_nat maxSize) (events_of pid l)) /\
      forall n, GetRecent pid n sb
        = Ok (lastn (Z.to_nat n) (lastn (Z.to_nat maxSize) (events_of pid l))).
Proof.
  intros Hm. destruct (new_inv numCPU gomaxprocs maxSize Hm) as (H0 & Hm0 & He).
  destruct (add_all_spec l _ H0) as (sb & -> & H & Hms & Hc). exists sb. split; [done|].
  intros pid. rewrite Hm0 in Hc. specialize (Hc pid). destruct (He pid) as [E0 _].
  rewrite E0 in Hc. cbn [app] in Hc. rewrite <- Hc.
  split; [by apply Get_spec | intros n; by apply GetRecent_spec].
Qed.

Definition demo_event (ts : Z) : Event := event_header 1 ts 7 7 1 0 (zeros 16) (zeros 16).
Definition demo_adds : list (Z * Event * Z) :=
  [(7, demo_event 1, 1); (7, demo_event 2, 2); (23, demo_event 9, 3); (7, demo_event 3, 4)].

Lemma event_buffer_recent_witness :
  exists sb, add_all demo_adds (NewShardedEventBuffer 4 4 2) = Ok sb /\
    Get 7 sb = Ok [demo_event 2; demo_event 3] /\ Get 23 sb = Ok [demo_event 9].
Proof.
  destruct (event_buffer_recent 4 4 2 demo_adds ltac:(lia)) as (sb & E & H).
  exists sb. split; [exact E|]. split; [exact (proj1 (H 7)) | exact (proj1 (H 23))].
Defined.

(** ** Removal and expiry *)

Lemma Remove_spec pid sb :
  sb_inv sb ->
  exists sb', Remove pid sb = Ok sb' /\ sb_inv sb' /\
    contents sb' pid = [] /\ last_seen sb' pid = None /\
    forall p, p <> pid -> contents sb' p = contents sb p /\ last_seen sb' p = last_seen sb p.
Proof.
  intros H. unfold Remove. pose proof (shard_idx_range sb pid H).
  rewrite (list_get_ok _ _ (shard_of sb pid)) by (lia || by apply shard_of_get).
  cbn [mbind result_bind]. destruct (shard_of_inv sb pid H) as [Hr Hd].
  edestruct (set_shard_spec sb pid) as (sb' & -> & H' & Hm & Hsh); [done| |].
  { split; cbn [sh_buffers sh_lastSeen]; [by apply map_Forall_delete | by rewrite !dom_delete_L, Hd]. }
  exists sb'. unfold contents, last_seen. split_and!; [done | done | | |].
  - rewrite Hsh, decide_True by done. cbn. by rewrite lookup_delete_eq.
  - rewrite Hsh, decide_True by done. cbn. by rewrite lookup_delete_eq.
  - intros p Hp. rewrite Hsh, Hm. case_decide as E; [|done].
    cbn [sh_buffers sh_lastSeen]. rewrite !lookup_delete_ne by done. unfold shard_of. by rewrite E.
Qed.

Lemma map_shards_shard_of f sb pid :
  sb_inv sb -> shard_of (map_shards f sb) pid = f (shard_of sb pid).
Proof.
  intros H. unfold shard_of at 1, map_shards, bufferShardIdx. cbn [sb_shards sb_mask].
  change (Z.land pid (sb_mask sb)) with (bufferShardIdx sb pid).
  rewrite list_lookup_fmap, (shard_of_get sb pid H). done.
Qed.

Lemma map_shards_inv f sb :
  sb_inv sb ->
  (forall i s, shard_inv (sb_mask sb) (sb_maxSize sb) i s ->
    shard_inv (sb_mask sb) (sb_maxSize sb) i (f s)) ->
  sb_inv (map_shards f sb).
Proof.
  intros [Hm Hp Hl Hs] Hf. split; cbn [map_shards sb_maxSize sb_numShards sb_mask sb_shards];
    [done | done | by rewrite length_map |].
  intros i s Hi. change (map f (sb_shards sb)) with (f <$> sb_shards sb) in Hi.
  apply list_lookup_fmap_Some in Hi as (s0 & -> & Hi). by apply Hf, Hs.
Qed.

Lemma lookup_expired cutoff s pid ts :
  expired cutoff s !! pid = Some ts <-> sh_lastSeen s !! pid = Some ts /\ ts < cutoff.
Proof.
  unfold expired. rewrite map_lookup_filter_Some. unfold time_Before. by rewrite Z.ltb_lt.
Qed.

Lemma expire_shard_lookup cutoff s pid :
  let old := match sh_lastSeen s !! pid with Some ts => ts <? cutoff | None => false end in
  sh_buffers (expire_shard cutoff s) !! pid = (if old then None else sh_buffers s !! pid) /\
  sh_lastSeen (expire_shard cutoff s) !! pid = (if old then None else sh_lastSeen s !! pid).
Proof.
  cbn [expire_shard sh_buffers sh_lastSeen].
  destruct (expired cutoff s !! pid) as [ts|] eqn:E.
  - apply lookup_expired in E as E'. destruct E' as [Hs Hlt]. rewrite Hs.
    rewrite (proj2 (Z.ltb_lt _ _) Hlt). split.
    + apply lookup_difference_None. right. rewrite lookup_fmap, E. by eexists.
    + apply lookup_difference_None. right. by eexists.
  - assert (match sh_lastSeen s !! pid with Some ts => ts <? cutoff | None => false end = false) as ->.
    { destruct (sh_lastSeen s !! pid) as [ts|] eqn:Hs; [|done]. apply Z.ltb_ge.
      destruct (decide (ts < cutoff)) as [Hlt|]; [|lia].
      assert (expired cutoff s !! pid = Some ts) by (by apply lookup_expired). congruence. }
    split; rewrite lookup_difference; [|by rewrite E]. by rewrite lookup_fmap, E.
Qed.

Lemma expire_shard_inv mask maxSize i cutoff s :
  shard_inv mask maxSize i s -> shard_inv mask maxSize i (expire_shard cutoff s).
Proof.
  intros [Hr Hd]. split.
  - intros pid rb Hp. rewrite (proj1 (expire_shard_lookup cutoff s pid)) in Hp.
    case_match; [done | by apply Hr].
  - apply set_eq. intros pid. rewrite !elem_of_dom.
    destruct (expire_shard_lookup cutoff s pid) as [-> ->]. case_match; [done|].
    rewrite <- !elem_of_dom. by rewrite Hd.
Qed.

(** Expiry of a process in the whole buffer. *)
Definition is_expired (cutoff : Z) (sb : ShardedEventBuffer) (pid : Z) : bool :=
  match last_seen sb pid with Some ts => ts <? cutoff | None => false end.

(** ** Enumeration *)

Lemma Count_fold l c :
  fold_left (fun count s => count + Z.of_nat (size (sh_buffers s))) l c
    = c + Z.of_nat (length (concat (map (fun s => (map_to_list (sh_buffers s)).*1) l))).
Proof.
  revert c. induction l as [|s l IH]; intros c; cbn [fold_left map concat length].
  - lia.
  - rewrite IH, length_app, length_fmap, length_map_to_list. lia.
Qed.

Lemma elem_of_PIDs sb pid : sb_inv sb -> pid ∈ PIDs sb <-> tracked sb pid.
Proof.
  intros H. unfold PIDs, tracked. rewrite list_elem_of_In, in_concat. split.
  - intros (l & Hl & Hp). apply in_map_iff in Hl as (s & <- & Hs).
    apply list_elem_of_In in Hs, Hp. apply list_elem_of_fmap in Hp as ([p rb] & Ep & Hp). cbn in Ep. subst p.
    apply elem_of_map_to_list in Hp. apply list_elem_of_lookup in Hs as [i Hi]. cbn.
    destruct (sbi_shards sb H i s Hi) as [Hr _]. destruct (Hr _ _ Hp) as [_ E].
    assert (shard_of sb pid = s) as -> by (unfold shard_of, bufferShardIdx; by rewrite E, Nat2Z.id, Hi).
    by eexists.
  - intros [rb Hp]. exists ((map_to_list (sh_buffers (shard_of sb pid))).*1). split.
    + apply in_map_iff. eexists; split; [done|]. apply list_elem_of_In, list_elem_of_lookup.
      eexists. by apply shard_of_get.
    + apply list_elem_of_In, list_elem_of_fmap. exists (pid, rb). split; [done|].
      by apply elem_of_map_to_list.
Qed.

Lemma NoDup_PIDs sb : sb_inv sb -> NoDup (PIDs sb).
Proof.
  intros H. unfold PIDs.
  assert (forall j l, (forall i s, l !! i = Some s ->
      shard_inv (sb_mask sb) (sb_maxSize sb) (Z.of_nat (j + i)) s) ->
    NoDup (concat (map (fun s => (map_to_list (sh_buffers s)).*1) l)) /\
    forall p, p ∈ concat (map (fun s => (map_to_list (sh_buffers s)).*1) l) ->
      Z.of_nat j <= Z.land p (sb_mask sb)) as G.
  { intros j l. revert j. induction l as [|s l IH]; intros j Hl; cbn [map concat].
    { split; [constructor | by intros p ?%elem_of_nil]. }
    destruct (IH (S j)) as [Hnd Hge].
    { intros i s' Hi. replace (S j + i)%nat with (j + S i)%nat by lia. by apply Hl. }
    destruct (Hl 0%nat s eq_refl) as [Hr _]. rewrite Nat.add_0_r in Hr.
    assert (forall p, p ∈ (map_to_list (sh_buffers s)).*1 -> Z.land p (sb_mask sb) = Z.of_nat j) as Hj.
    { intros p Hp. apply list_elem_of_fmap in Hp as ([p' rb] & -> & Hp).
      apply elem_of_map_to_list in Hp. by apply Hr in Hp as [_ ?]. }
    split.
    - apply NoDup_app. split_and!; [apply NoDup_fst_map_to_list | | done].
      intros p Hp Hp2. apply Hj in Hp. apply Hge in Hp2. lia.
    - intros p Hp. apply elem_of_app in Hp as [Hp|Hp]; [apply Hj in Hp | apply Hge in Hp]; lia. }
  apply (G 0%nat). intros i s Hi. by apply H.
Qed.

Lemma expired_count_fold cutoff l c :
  (forall s, s ∈ l -> dom (sh_buffers s) = dom (sh_lastSeen s)) ->
  fold_left (fun removed s => removed + Z.of_nat (size (expired cutoff s))) l c
    = c + fold_left (fun count s => count + Z.of_nat (size (sh_buffers s))) l 0
        - fold_left (fun count s => count + Z.of_nat (size (sh_buffers s))) (map (expire_shard cutoff) l) 0.
Proof.
  revert c. induction l as [|s l IH]; intros c Hd; cbn [fold_left map]; [lia|].
  rewrite IH by (intros; apply Hd; by right).
  rewrite !Count_fold. cbn [expire_shard sh_buffers].
  assert (size (sh_buffers s) = size (sh_lastSeen s)) as Es.
  { rewrite <- !size_dom. f_equal. apply Hd. by left. }
  assert (size (expired cutoff s) <= size (sh_lastSeen s))%nat as Hle
    by (apply map_subseteq_size, map_filter_subseteq).
  rewrite <- (size_dom (_ ∖ _)), dom_difference_L, dom_fmap_L.
  rewrite size_difference, !size_dom; [lia|]. rewrite (Hd s) by (by left).
  apply subseteq_dom, map_filter_subseteq.
Qed.

(** Removal and expiry only forget what they are meant to: from any
    well-formed buffer, [Remove] forgets one process, [Clear] all of them, and
    [CleanupExpired] exactly those whose last event is older than [ttl],
    returning how many it removed; every other process keeps its events. Each
    result is well-formed again, and [PIDs] lists every tracked process
    exactly once, with [Count] its length. *)
Theorem event_buffer_lifecycle sb pid ttl now :
  sb_inv sb -> 0 <= ttl <= max_duration ->
  (exists sb', Remove pid sb = Ok sb' /\ sb_inv sb' /\ contents sb' pid = [] /\
     forall p, p <> pid -> contents sb' p = contents sb p) /\
  (sb_inv (Clear sb) /\ forall p, contents (Clear sb) p = [] /\ ~ tracked (Clear sb) p) /\
  (let '(sb', removed) := CleanupExpired ttl now sb in
   sb_inv sb' /\ removed = Count sb - Count sb' /\
   forall p, contents sb' p = if is_expired (now - ttl) sb p then [] else contents sb p) /\
  NoDup (PIDs sb) /\ (forall p, p ∈ PIDs sb <-> tracked sb p) /\
  Count sb = Z.of_nat (length (PIDs sb)).
Proof.
  intros H Ht. split_and!.
  - destruct (Remove_spec pid sb H) as (sb' & E & H' & Hc & _ & Ho).
    exists sb'. split_and!; [done..|]. intros p Hp. by apply Ho.
  - apply map_shards_inv; [done|]. intros i s _. split; [apply map_Forall_empty | done].
  - intros p. unfold contents, tracked, Clear. rewrite !map_shards_shard_of by done.
    split; [done|]. by intros [? ?].
  - unfold CleanupExpired, time_Add.
    rewrite neg_duration_id by done.
    replace (now + - ttl) with (now - ttl) by lia. split_and!.
    + apply map_shards_inv; [done|]. intros. by apply expire_shard_inv.
    + rewrite expired_count_fold; [unfold Count; cbn; lia|].
      intros s Hs. apply list_elem_of_lookup in Hs as [i Hi]. by destruct (sbi_shards sb H i s Hi).
    + intros p. unfold contents, is_expired, last_seen. rewrite map_shards_shard_of by done.
      cbn [map_shards sb_maxSize]. destruct (expire_shard_lookup (now - ttl) (shard_of sb p) p) as [-> _].
      by destruct (match sh_lastSeen (shard_of sb p) !! p with Some ts => _ | None => _ end).
  - by apply NoDup_PIDs.
  - intros p. by apply elem_of_PIDs.
  - unfold Count, PIDs. rewrite Count_fold. lia.
Qed.

Lemma event_buffer_lifecycle_witness :
  exists sb sb', add_all demo_adds (NewShardedEventBuffer 4 4 2) = Ok sb /\
    CleanupExpired 1 5 sb = (sb', 1) /\ 1 = Count sb - Count sb' /\
    contents sb' 7 = contents sb 7.
Proof.
  destruct (add_all_spec demo_adds (NewShardedEventBuffer 4 4 2)) as (sb & E & H & _).
  { by apply (new_inv 4 4 2). }
  destruct (event_buffer_lifecycle sb 7 1 5 H ltac:(vm_compute; split; congruence)) as (_ & _ & C & _).
  assert (exists sb0 sb1, add_all demo_adds (NewShardedEventBuffer 4 4 2) = Ok sb0 /\
    CleanupExpired 1 5 sb0 = (sb1, 1) /\ is_expired (5 - 1) sb0 7 = false) as (sb0 & sb1 & E0 & E1 & E2)
    by (eexists _, _; split_and!; [vm_compute; reflexivity..]).
  rewrite E in E0. injection E0 as <-. rewrite E1 in C. destruct C as (_ & C1 & C2).
  exists sb, sb1. split_and!; [exact E | exact E1 | exact C1 |].
  rewrite C2, E2. reflexivity.
Defined.
