(* ===== verification/ShardedMaps.v ===== *)
(** * Cooldowns and deduplication

    Models src/internal/correlator/sharded_maps.go: [shardedCooldowns] (the
    enforcement cooldown per rule and process) and [shardedDedup] (the alert
    deduplication window per rule, process and command), both a power-of-two
    number of locked maps selected by [pid & mask] with a global entry count.
    The two components have the same map and the same eviction; the type class
    [ShardKey] says what they need of a key. Go iterates maps in an
    unspecified order: the order in which the eviction loop visits a shard is
    a parameter, constrained only to visit every entry once. *)
From S2P Require Import Prelude GoRing EventBuffer.

(** ** Keys *)
Record cooldownKey := mkCooldownKey { ck_ruleID : gostring; ck_pid : Z }.
Record dedupKey := mkDedupKey { dk_ruleID : gostring; dk_pid : Z; dk_comm : gostring }.

#[export] Instance cooldownKey_eq_dec : EqDecision cooldownKey.
Proof. solve_decision. Defined.
#[export] Instance cooldownKey_countable : Countable cooldownKey.
Proof.
  refine (inj_countable' (fun k => (ck_ruleID k, ck_pid k)) (fun '(r, p) => mkCooldownKey r p) _).
  by intros [].
Defined.
#[export] Instance dedupKey_eq_dec : EqDecision dedupKey.
Proof. solve_decision. Defined.
#[export] Instance dedupKey_countable : Countable dedupKey.
Proof.
  refine (inj_countable' (fun k => (dk_ruleID k, dk_pid k, dk_comm k))
    (fun '(r, p, c) => mkDedupKey r p c) _).
  by intros [].
Defined.

(** A key of a sharded map: a countable type with the PID that selects the
    shard. *)
Class ShardKey (K : Type) `{Countable K} := key_pid : K -> Z.
#[export] Instance cooldown_shard_key : ShardKey cooldownKey := ck_pid.
#[export] Instance dedup_shard_key : ShardKey dedupKey := dk_pid.

(** ** The sharded map *)
Section sharded.
Context {K : Type} `{ShardKey K}.

Record sharded := mkSharded { sm_shards : list (gmap K Z); sm_mask : Z; sm_total : Z }.

Definition new_sharded (numCPU gomaxprocs : Z) : sharded :=
  let '(count, mask) := computeLockShards numCPU gomaxprocs in
  mkSharded (replicate (Z.to_nat count) ∅) mask 0.

Definition shard_idx (sm : sharded) (k : K) : Z := Z.land (key_pid k) (sm_mask sm).

(** The eviction loop: the entry with the smallest timestamp, the first one
    visited on a tie. *)
Fixpoint find_oldest (acc : option (K * Z)) (l : list (K * Z)) : option (K * Z) :=
  match l with
  | [] => acc
  | (k, t) :: l =>
      match acc with
      | Some (_, ot) => if time_Before t ot then find_oldest (Some (k, t)) l else find_oldest acc l
      | None => find_oldest (Some (k, t)) l
      end
  end.

(** The map iteration order of the run-time. *)
Context (order : gmap K Z -> list (K * Z)).

(** Make room for a new key when the cap is reached, count it and record its
    time: the common tail of [tryAcquire] and [mark]. *)
Definition record_entry (maxEntries : Z) (k : K) (now : Z) (sm : sharded) (shard : gmap K Z) :
  go sharded :=
  let isNew := negb (bool_decide (is_Some (shard !! k))) in
  let '(shard, total) :=
    if isNew && (maxEntries <=? sm_total sm) then
      match find_oldest None (order shard) with
      | Some (oldest, _) => (delete oldest shard, sm_total sm - 1)
      | None => (shard, sm_total sm)
      end
    else (shard, sm_total sm) in
  let total := if isNew then total + 1 else total in
  shards ← list_set (sm_shards sm) (shard_idx sm k) (<[k := now]> shard);
  Ok (mkSharded shards (sm_mask sm) total).

(** [cleanup]: drop the entries before [cutoff], shard by shard. *)
Definition cleanup_shard (cutoff : Z) (shard : gmap K Z) : gmap K Z :=
  filter (fun p => ~ time_Before p.2 cutoff = true) shard.

Definition cleanup (cutoff : Z) (sm : sharded) : sharded :=
  fold_left (fun acc shard =>
      let removed := Z.of_nat (size (filter (fun p => time_Before p.2 cutoff = true) shard)) in
      mkSharded (sm_shards acc ++ [cleanup_shard cutoff shard]) (sm_mask acc)
        (if 0 <? removed then sm_total acc - removed else sm_total acc))
    (sm_shards sm) (mkSharded [] (sm_mask sm) (sm_total sm)).
End sharded.
Arguments sharded K {_ _}.

Definition MaxCooldownEntries : Z := 1000000.
Definition MaxDedupEntries : Z := 1000000.

(** ** shardedCooldowns *)
Definition shardedCooldowns := sharded cooldownKey.
Definition newShardedCooldowns : Z -> Z -> shardedCooldowns := new_sharded.

Definition tryAcquire (order : gmap cooldownKey Z -> list (cooldownKey * Z))
    (ruleID : gostring) (pid cooldown now : Z) (sc : shardedCooldowns) :
  go (shardedCooldowns * bool) :=
  let key := mkCooldownKey ruleID pid in
  shard ← list_get (sm_shards sc) (shard_idx sc key);
  if match shard !! key with Some prev => time_Sub now prev <? cooldown | None => false end
  then Ok (sc, false)
  else sc ← record_entry order MaxCooldownEntries key now sc shard; Ok (sc, true).

(** ** shardedDedup *)
Record shardedDedup := mkDedup { sd_map : sharded dedupKey; sd_window : Z }.

Definition newShardedDedup (numCPU gomaxprocs window : Z) : shardedDedup :=
  mkDedup (new_sharded numCPU gomaxprocs) window.

Definition check (ruleID : gostring) (pid : Z) (comm : gostring) (now : Z) (sd : shardedDedup) :
  go bool :=
  let cutoff := time_Add now (neg_duration (sd_window sd)) in
  let key := mkDedupKey ruleID pid comm in
  shard ← list_get (sm_shards (sd_map sd)) (shard_idx (sd_map sd) key);
  Ok match shard !! key with Some prev => time_After prev cutoff | None => false end.

Definition mark (order : gmap dedupKey Z -> list (dedupKey * Z))
    (ruleID : gostring) (pid : Z) (comm : gostring) (now : Z) (sd : shardedDedup) : go shardedDedup :=
  let key := mkDedupKey ruleID pid comm in
  shard ← list_get (sm_shards (sd_map sd)) (shard_idx (sd_map sd) key);
  m ← record_entry order MaxDedupEntries key now (sd_map sd) shard;
  Ok (mkDedup m (sd_window sd)).

Definition dedup_cleanup (cutoff : Z) (sd : shardedDedup) : shardedDedup :=
  mkDedup (cleanup cutoff (sd_map sd)) (sd_window sd).

(** ** Sums over shards *)

Lemma sum_list_with_insert {A} (f : A -> nat) (l : list A) i x y :
  l !! i = Some y -> (sum_list_with f (<[i := x]> l) + f y = sum_list_with f l + f x)%nat.
Proof.
  revert i. induction l as [|a l IH]; intros [|i] Hi; try discriminate Hi.
  - injection Hi as ->. cbn [sum_list_with insert list_insert]. simpl. lia.
  - specialize (IH i Hi). simpl. lia.
Qed.

(** ** The invariant *)
Section invariant.
Context {K : Type} `{ShardKey K}.
Implicit Types (sm : sharded K) (k v : K) (shard : gmap K Z).

Definition shard_at sm k : gmap K Z := default ∅ (sm_shards sm !! Z.to_nat (shard_idx sm k)).
(** The timestamp recorded for a key. *)
Definition sm_at sm k : option Z := shard_at sm k !! k.

Definition entry_count sm : Z := Z.of_nat (sum_list_with size (sm_shards sm)).
Definition occupied sm : Z := Z.of_nat (sum_list_with (fun m : gmap K Z => Nat.min 1 (size m)) (sm_shards sm)).

Record sm_inv (maxEntries : Z) sm : Prop := {
  smi_pow : exists j, 0 <= j /\ Z.of_nat (length (sm_shards sm)) = 2 ^ j /\ sm_mask sm = 2 ^ j - 1;
  smi_keys : forall i shard, sm_shards sm !! i = Some shard ->
    map_Forall (fun k _ => Z.land (key_pid k) (sm_mask sm) = Z.of_nat i) shard;
  smi_total : sm_total sm = entry_count sm;
  smi_cap : sm_total sm <= Z.max maxEntries (maxEntries + occupied sm - 1) }.

Lemma shard_idx_bound maxEntries sm k :
  sm_inv maxEntries sm -> 0 <= shard_idx sm k < Z.of_nat (length (sm_shards sm)).
Proof.
  intros [(j & Hj & -> & Hm) _ _ _]. unfold shard_idx.
  rewrite Hm, Z.sub_1_r, <- Z.ones_equiv, Z.land_ones by done. apply Z.mod_pos_bound. lia.
Qed.

Lemma shard_at_get maxEntries sm k :
  sm_inv maxEntries sm -> sm_shards sm !! Z.to_nat (shard_idx sm k) = Some (shard_at sm k).
Proof.
  intros Hi. pose proof (shard_idx_bound _ _ k Hi). unfold shard_at.
  destruct (lookup_lt_is_Some_2 (sm_shards sm) (Z.to_nat (shard_idx sm k))) as [s ->]; [lia | done].
Qed.

Lemma list_get_shard maxEntries sm k :
  sm_inv maxEntries sm ->
  list_get (E:=Empty_set) (sm_shards sm) (shard_idx sm k) = Ok (shard_at sm k).
Proof.
  intros Hi. pose proof (shard_idx_bound _ _ k Hi).
  apply list_get_ok; [lia | by eapply shard_at_get].
Qed.

(** The eviction loop finds an entry with the least timestamp. *)
Lemma find_oldest_min acc (l : list (K * Z)) :
  match find_oldest acc l with
  | None => acc = None /\ l = []
  | Some (k, t) => (acc = Some (k, t) \/ (k, t) ∈ l) /\
      (forall k' t', (k', t') ∈ l -> t <= t') /\ (forall k' t', acc = Some (k', t') -> t <= t')
  end.
Proof.
  revert acc. induction l as [|[k t] l IH]; intros acc; cbn [find_oldest].
  - destruct acc as [[k t]|]; [|done]. split_and!; [by left | by intros ? ? ?%elem_of_nil |].
    intros k' t' [= <- <-]. lia.
  - destruct acc as [[k0 t0]|]; [unfold time_Before; destruct (t <? t0) eqn:E; zbool|].
    + specialize (IH (Some (k, t))). destruct (find_oldest _ l) as [[k1 t1]|]; [|by destruct IH].
      destruct IH as (Hin & Hmin & Hacc). specialize (Hacc _ _ eq_refl) as Hacc1. split_and!.
      * destruct Hin as [[= <- <-]|Hin]; right; [by left | by right].
      * intros k' t' [[= -> ->]|Hin']%elem_of_cons; [done | by eapply Hmin].
      * intros k' t' [= <- <-]. lia.
    + specialize (IH (Some (k0, t0))). destruct (find_oldest _ l) as [[k1 t1]|]; [|by destruct IH].
      destruct IH as (Hin & Hmin & Hacc). specialize (Hacc _ _ eq_refl) as Hacc1. split_and!.
      * destruct Hin as [?|Hin]; [by left | right; by right].
      * intros k' t' [[= -> ->]|Hin']%elem_of_cons; [lia | by eapply Hmin].
      * done.
    + specialize (IH (Some (k, t))). destruct (find_oldest _ l) as [[k1 t1]|]; [|by destruct IH].
      destruct IH as (Hin & Hmin & Hacc). specialize (Hacc _ _ eq_refl) as Hacc1. split_and!.
      * destruct Hin as [[= <- <-]|Hin]; right; [by left | by right].
      * intros k' t' [[= -> ->]|Hin']%elem_of_cons; [done | by eapply Hmin].
      * done.
Qed.

Context (order : gmap K Z -> list (K * Z)) (Horder : forall m, order m ≡ₚ map_to_list m).

(** The victim of an insertion: an oldest entry of the shard, only for a new
    key and only at the cap. *)
Definition victim_ok (maxEntries : Z) sm k (victim : option K) : Prop :=
  forall v, victim = Some v ->
    v <> k /\ sm_at sm k = None /\ maxEntries <= sm_total sm /\
    exists t, shard_at sm k !! v = Some t /\
      forall k' t', shard_at sm k !! k' = Some t' -> t <= t'.

Lemma replace_shard maxEntries sm k shard total :
  sm_inv maxEntries sm ->
  map_Forall (fun k' _ => Z.land (key_pid k') (sm_mask sm) = shard_idx sm k) shard ->
  total = sm_total sm + Z.of_nat (size shard) - Z.of_nat (size (shard_at sm k)) ->
  (sm_total sm < total -> total <= maxEntries \/ shard_at sm k = ∅ /\ size shard = 1%nat /\ 0 < maxEntries <= sm_total sm) ->
  (total <= sm_total sm -> (size (shard_at sm k) <= size shard)%nat) ->
  let sm' := mkSharded (<[Z.to_nat (shard_idx sm k) := shard]> (sm_shards sm)) (sm_mask sm) total in
  sm_inv maxEntries sm' /\
  forall k', sm_at sm' k' = if decide (shard_idx sm k' = shard_idx sm k) then shard !! k' else sm_at sm k'.
Proof.
  intros Hi Hkeys Ht Hup Hdown. pose proof (shard_idx_bound _ _ k Hi) as Hb.
  pose proof (shard_at_get _ _ k Hi) as Hg.
  pose proof (sum_list_with_insert size _ _ shard _ Hg) as Hsum.
  pose proof (sum_list_with_insert (fun m : gmap K Z => Nat.min 1 (size m)) _ _ shard _ Hg) as Hocc.
  pose proof Hi as [Hp Hk Htot Hcap]. unfold entry_count, occupied in *. split.
  - split; unfold entry_count, occupied; cbn [sm_shards sm_mask sm_total].
    + by rewrite length_insert.
    + intros i s Hs. apply list_lookup_insert_Some in Hs as [(<- & <- & _)|(_ & Hs)]; [|by apply Hk].
      by rewrite Z2Nat.id by lia.
    + lia.
    + destruct (decide (sm_total sm < total)) as [Hlt|Hge].
      * destruct (Hup Hlt) as [?|(He & Hne & Hm)]; [lia|]. rewrite He, map_size_empty in *.
        assert (0 < sum_list_with (fun m : gmap K Z => Nat.min 1 (size m)) (sm_shards sm))%nat as Hpos.
        { clear -Htot Hm. assert (0 < sum_list_with size (sm_shards sm))%nat as Hs by lia. clear -Hs.
          induction (sm_shards sm) as [|m l IH]; cbn [sum_list_with] in *; [lia|].
          destruct (decide (size m = 0)%nat); lia. }
        lia.
      * specialize (Hdown ltac:(lia)). lia.
  - intros k'. pose proof (shard_idx_bound _ _ k' Hi) as Hb'.
    unfold sm_at, shard_at, shard_idx in *. cbn [sm_shards sm_mask]. case_decide as E.
    + by rewrite E, list_lookup_insert_eq by lia.
    + rewrite list_lookup_insert_ne by lia. done.
Qed.

Lemma record_entry_spec maxEntries sm k now :
  0 < maxEntries -> sm_inv maxEntries sm ->
  exists sm' victim, record_entry order maxEntries k now sm (shard_at sm k) = Ok sm' /\
    sm_inv maxEntries sm' /\ sm_at sm' k = Some now /\ victim_ok maxEntries sm k victim /\
    sm_mask sm' = sm_mask sm /\
    (sm_total sm < maxEntries -> victim = None) /\
    (forall k', k' <> k -> sm_at sm' k' = if decide (victim = Some k') then None else sm_at sm k') /\
    sm_total sm <= sm_total sm' <= sm_total sm + 1 /\
    (sm_at sm k = None -> victim = None -> sm_total sm' = sm_total sm + 1).
Proof.
  intros Hmax Hi. pose proof (shard_idx_bound _ _ k Hi) as Hb. pose proof (shard_at_get _ _ k Hi) as Hg.
  pose proof (smi_keys _ _ Hi _ _ Hg) as Hkeys. rewrite Z2Nat.id in Hkeys by lia.
  assert (forall k', k' <> k -> forall m, shard_idx sm k' = shard_idx sm k ->
    <[k := now]> m !! k' = m !! k') as Hins by (intros; by rewrite lookup_insert_ne).
  assert (forall k', shard_idx sm k' = shard_idx sm k -> sm_at sm k' = shard_at sm k !! k') as Hat
    by (intros k' E; unfold sm_at, shard_at; by rewrite E).
  unfold record_entry. destruct (shard_at sm k !! k) as [t0|] eqn:Hk.
  - rewrite bool_decide_true by (by eexists). cbn [negb andb].
    rewrite list_set_ok by lia. cbn [mbind result_bind].
    edestruct (replace_shard maxEntries sm k (<[k := now]> (shard_at sm k)) (sm_total sm)) as [Hi' Hat'];
      [done | by apply map_Forall_insert_2 | rewrite map_size_insert_Some by (by eexists); lia | lia
      | intros _; rewrite map_size_insert_Some by (by eexists); lia |].
    eexists _, None. split_and!; [done | done | | done | done | done | | cbn; lia | cbn; lia | by unfold sm_at; rewrite Hk].
    + rewrite Hat', decide_True by done. by rewrite lookup_insert_eq.
    + intros k' Hne. rewrite Hat', (decide_False (P := None = Some k')) by done. case_decide as E; [|done].
      by rewrite Hins, Hat.
  - rewrite bool_decide_false by (by intros [? ?]). cbn [negb andb].
    destruct (maxEntries <=? sm_total sm) eqn:Hcap; zbool.
    + pose proof (find_oldest_min None (order (shard_at sm k))) as Hold.
      destruct (find_oldest None (order (shard_at sm k))) as [[v tv]|].
      * destruct Hold as ([?|Hin] & Hmin & _); [done|].
        rewrite Horder in Hin. apply elem_of_map_to_list in Hin.
        assert (v <> k) as Hvk by congruence.
        assert (size (<[k := now]> (delete v (shard_at sm k))) = size (shard_at sm k)) as Hsz.
        { rewrite map_size_insert_None by (by rewrite lookup_delete_ne).
          rewrite map_size_delete_Some by (by eexists).
          assert (size (shard_at sm k) <> 0)%nat; [|lia].
          intros He%map_size_empty_iff. rewrite He in Hin. by apply lookup_empty_Some in Hin. }
        rewrite list_set_ok by lia. cbn [mbind result_bind].
        replace (sm_total sm - 1 + 1) with (sm_total sm) by lia.
        edestruct (replace_shard maxEntries sm k (<[k := now]> (delete v (shard_at sm k))) (sm_total sm))
          as [Hi' Hat']; [done | apply map_Forall_insert_2; [done | by apply map_Forall_delete] | lia.. |].
        eexists _, (Some v). split_and!; [done | done | | | done | lia | | cbn; lia | cbn; lia | done].
        -- rewrite Hat', decide_True by done. by rewrite lookup_insert_eq.
        -- intros ? [= <-]. split_and!; [done | done | lia |]. exists tv. split; [done|].
           intros k' t' Hk'. eapply Hmin. rewrite Horder. by apply elem_of_map_to_list.
        -- intros k' Hne. rewrite Hat'. case_decide as E.
           ++ rewrite Hins by done. case_decide as Ev; simplify_eq; [by rewrite lookup_delete_eq|].
              rewrite lookup_delete_ne by congruence. by rewrite Hat.
           ++ rewrite decide_False; [done|]. intros [= ->]. apply E.
              apply (map_Forall_lookup_1 _ _ _ _ Hkeys) in Hin. exact Hin.
      * destruct Hold as [_ Hnil].
        assert (shard_at sm k = ∅) as Hemp.
        { apply map_to_list_empty_iff. apply Permutation_nil. rewrite <- Hnil. apply Horder. }
        rewrite list_set_ok by lia. cbn [mbind result_bind].
        assert (size (<[k := now]> (shard_at sm k)) = 1%nat) as Hsz
          by (rewrite map_size_insert_None, Hemp, map_size_empty by done; done).
        edestruct (replace_shard maxEntries sm k (<[k := now]> (shard_at sm k)) (sm_total sm + 1))
          as [Hi' Hat']; [done | by apply map_Forall_insert_2
          | rewrite Hsz, Hemp, map_size_empty; lia | intros _; right; split_and!; [done | done | lia | lia]
          | rewrite Hsz, Hemp, map_size_empty; lia |].
        eexists _, None. split_and!; [done | done | | done | done | done | | cbn; lia | cbn; lia | done].
        -- rewrite Hat', decide_True by done. by rewrite lookup_insert_eq.
        -- intros k' Hne. rewrite Hat', (decide_False (P := None = Some k')) by done. case_decide as E; [|done].
           by rewrite Hins, Hat.
    + rewrite list_set_ok by lia. cbn [mbind result_bind].
      assert (size (<[k := now]> (shard_at sm k)) = S (size (shard_at sm k))) as Hsz
        by (by rewrite map_size_insert_None).
      edestruct (replace_shard maxEntries sm k (<[k := now]> (shard_at sm k)) (sm_total sm + 1))
        as [Hi' Hat']; [done | by apply map_Forall_insert_2 | lia | intros _; left; lia | lia |].
      eexists _, None. split_and!; [done | done | | done | done | done | | cbn; lia | cbn; lia | done].
      -- rewrite Hat', decide_True by done. by rewrite lookup_insert_eq.
      -- intros k' Hne. rewrite Hat', (decide_False (P := None = Some k')) by done. case_decide as E; [|done].
         by rewrite Hins, Hat.
Qed.

Lemma cleanup_fold cutoff l sm :
  fold_left (fun acc shard =>
      let removed := Z.of_nat (size (filter (fun p => time_Before p.2 cutoff = true) shard)) in
      mkSharded (sm_shards acc ++ [cleanup_shard cutoff shard]) (sm_mask acc)
        (if 0 <? removed then sm_total acc - removed else sm_total acc)) l sm
  = mkSharded (sm_shards sm ++ map (cleanup_shard cutoff) l) (sm_mask sm)
      (sm_total sm - Z.of_nat (sum_list_with size l)
        + Z.of_nat (sum_list_with size (map (cleanup_shard cutoff) l))).
Proof.
  revert sm. induction l as [|m l IH]; intros sm; cbn [fold_left map sum_list_with].
  - rewrite app_nil_r. destruct sm as [? ? tot]. cbn. f_equal. lia.
  - rewrite IH. cbn [sm_shards sm_mask sm_total]. rewrite <- app_assoc. cbn [app]. f_equal.
    assert (size m = size (filter (fun p : K * Z => time_Before p.2 cutoff = true) m)
      + size (cleanup_shard cutoff m))%nat as E.
    { unfold cleanup_shard. rewrite <- map_size_disj_union by apply map_disjoint_filter_complement.
      by rewrite map_filter_union_complement. }
    destruct (0 <? _) eqn:Hr; zbool; lia.
Qed.

Lemma cleanup_spec maxEntries sm cutoff :
  0 <= maxEntries -> sm_inv maxEntries sm ->
  sm_inv maxEntries (cleanup cutoff sm) /\
  forall k, sm_at (cleanup cutoff sm) k
    = match sm_at sm k with Some t => if t <? cutoff then None else Some t | None => None end.
Proof.
  intros Hmax Hi. unfold cleanup. rewrite cleanup_fold. cbn [sm_shards sm_mask sm_total app].
  pose proof Hi as [Hp Hk Htot Hcap]. unfold entry_count, occupied in *. split.
  - split; unfold entry_count, occupied; cbn [sm_shards sm_mask sm_total].
    + by rewrite length_map.
    + intros i s Hs. apply list_lookup_fmap_Some in Hs as (s0 & -> & Hs).
      apply Hk in Hs.
      intros k t Ht. apply map_lookup_filter_Some in Ht as [Ht _]. by apply Hs in Ht.
    + lia.
    + assert (forall l : list (gmap K Z),
        let r := map (cleanup_shard cutoff) l in
        let o l := sum_list_with (fun m : gmap K Z => Nat.min 1 (size m)) l in
        (sum_list_with size r <= sum_list_with size l)%nat /\
        (sum_list_with size r + o l <= sum_list_with size l + o r)%nat) as G.
      { clear. induction l as [|m l IH]; cbn [map sum_list_with]; [done|].
        assert (size (cleanup_shard cutoff m) <= size m)%nat
          by (apply map_subseteq_size, map_filter_subseteq).
        cbv zeta in *. lia. }
      specialize (G (sm_shards sm)). cbv zeta in G. lia.
  - intros k. unfold sm_at, shard_at, shard_idx. cbn [sm_shards sm_mask].
    change (map (cleanup_shard cutoff) (sm_shards sm)) with (cleanup_shard cutoff <$> sm_shards sm).
    rewrite list_lookup_fmap. fold (shard_idx sm k). rewrite (shard_at_get _ _ k Hi). cbn.
    unfold cleanup_shard. rewrite map_lookup_filter.
    destruct (shard_at sm k !! k) as [t|]; [|done]. cbn. unfold time_Before.
    destruct (t <? cutoff); [by rewrite option_guard_False by auto | by rewrite option_guard_True].
Qed.

Lemma new_sharded_inv maxEntries numCPU gomaxprocs :
  0 <= maxEntries ->
  let sm : sharded K := new_sharded numCPU gomaxprocs in
  sm_inv maxEntries sm /\ sm_total sm = 0 /\ forall k, sm_at sm k = None.
Proof.
  intros Hmax. unfold new_sharded, computeLockShards.
  destruct (compute_shards_spec 4 numCPU gomaxprocs) as (j & Hj & E & _); [lia|].
  change (2 ^ 4) with 16 in E. rewrite E. cbv zeta.
  assert (forall (f : gmap K Z -> nat) n, f ∅ = 0%nat -> sum_list_with f (replicate n ∅) = 0%nat) as Hz
    by (intros f n Hf; induction n; cbn [replicate sum_list_with]; lia).
  split_and!; [|done|].
  - split; unfold entry_count, occupied; cbn [sm_shards sm_mask sm_total].
    + exists j. rewrite length_replicate. lia.
    + intros i s Hs. apply lookup_replicate in Hs as [-> _]. apply map_Forall_empty.
    + by rewrite Hz.
    + lia.
  - intros k. unfold sm_at, shard_at. cbn [sm_shards].
    destruct (replicate _ _ !! _) as [s|] eqn:Hs; [apply lookup_replicate in Hs as [-> _]|];
      cbn; apply lookup_empty.
Qed.

(** The number of entries exceeds the cap by less than the number of shards. *)
Lemma sm_inv_bound maxEntries sm :
  0 < maxEntries -> sm_inv maxEntries sm ->
  sm_total sm < maxEntries + Z.of_nat (length (sm_shards sm)).
Proof.
  intros Hm [(j & Hj & Hl & _) _ _ Hcap]. unfold occupied in Hcap.
  assert (forall l : list (gmap K Z),
    sum_list_with (fun m : gmap K Z => Nat.min 1 (size m)) l <= length l)%nat as G
    by (induction l as [|m l IH]; cbn [sum_list_with length]; lia).
  specialize (G (sm_shards sm)).
  assert (0 < 2 ^ j) by (by apply Z.pow_pos_nonneg). lia.
Qed.
End invariant.

(** ** Cooldowns: every call *)
Section cooldowns.
Context (order : gmap cooldownKey Z -> list (cooldownKey * Z))
  (Horder : forall m, order m ≡ₚ map_to_list m).
Implicit Types sc : shardedCooldowns.

Lemma tryAcquire_spec ruleID pid cooldown now sc :
  sm_inv MaxCooldownEntries sc ->
  let k := mkCooldownKey ruleID pid in
  if match sm_at sc k with Some prev => time_Sub now prev <? cooldown | None => false end
  then tryAcquire order ruleID pid cooldown now sc = Ok (sc, false)
  else exists sc' victim, tryAcquire order ruleID pid cooldown now sc = Ok (sc', true) /\
    sm_inv MaxCooldownEntries sc' /\ sm_at sc' k = Some now /\
    victim_ok MaxCooldownEntries sc k victim /\ sm_mask sc' = sm_mask sc /\
    (sm_total sc < MaxCooldownEntries -> victim = None) /\
    (forall k', k' <> k -> sm_at sc' k' = if decide (victim = Some k') then None else sm_at sc k') /\
    sm_total sc <= sm_total sc' <= sm_total sc + 1 /\
    (sm_at sc k = None -> victim = None -> sm_total sc' = sm_total sc + 1).
Proof.
  intros Hi k. unfold tryAcquire. fold k. rewrite (list_get_shard _ _ _ Hi). cbn [mbind result_bind].
  change (shard_at sc k !! k) with (sm_at sc k).
  destruct (match sm_at sc k with Some prev => _ | None => _ end); [done|].
  destruct (record_entry_spec order Horder MaxCooldownEntries sc k now) as (sc' & v & -> & Hspec); [done..|].
  cbn [mbind result_bind]. by exists sc', v.
Qed.

(** States reachable from a fresh map by acquisitions and clean-ups. *)
Inductive cooldown_reach : shardedCooldowns -> Prop :=
| cr_new numCPU gomaxprocs : cooldown_reach (newShardedCooldowns numCPU gomaxprocs)
| cr_acquire sc ruleID pid cooldown now sc' b :
    cooldown_reach sc -> tryAcquire order ruleID pid cooldown now sc = Ok (sc', b) ->
    cooldown_reach sc'
| cr_cleanup sc cutoff : cooldown_reach sc -> cooldown_reach (cleanup cutoff sc).

Lemma cooldown_reach_inv sc : cooldown_reach sc -> sm_inv MaxCooldownEntries sc.
Proof.
  induction 1 as [|sc r p cd now sc' b _ IH Ht|sc cutoff _ IH].
  - by apply new_sharded_inv.
  - pose proof (tryAcquire_spec r p cd now sc IH) as Hs. cbv zeta in Hs.
    destruct (match sm_at sc _ with Some prev => _ | None => _ end).
    + by rewrite Hs in Ht; simplify_eq.
    + destruct Hs as (? & ? & E & ? & _). by rewrite E in Ht; simplify_eq.
  - by apply cleanup_spec.
Qed.

(** Filling one shard: [n] processes that all map to shard 0. *)
Lemma cooldown_fill n :
  Z.of_nat n <= MaxCooldownEntries ->
  exists sc, cooldown_reach sc /\ sm_total sc = Z.of_nat n /\ sm_mask sc = 15 /\
    forall k, is_Some (sm_at sc k) -> exists i, 0 <= i < Z.of_nat n /\ k = mkCooldownKey "r" (16 * i).
Proof.
  induction n as [|n IH]; intros Hn.
  - exists (newShardedCooldowns 1 1). destruct (new_sharded_inv (K:=cooldownKey) MaxCooldownEntries 1 1)
      as (_ & H1 & H2); [done|]. split_and!; [constructor | done | done |].
    intros k [t Ht]. unfold newShardedCooldowns in Ht. by rewrite H2 in Ht.
  - destruct IH as (sc & Hr & Ht & Hm & Hk); [lia|]. pose proof (cooldown_reach_inv sc Hr) as Hi.
    assert (sm_at sc (mkCooldownKey "r" (16 * Z.of_nat n)) = None) as Hnone.
    { destruct (sm_at sc _) eqn:E; [|done]. destruct (Hk _ (mk_is_Some _ _ E)) as (i & Hb & [=]). lia. }
    pose proof (tryAcquire_spec "r" (16 * Z.of_nat n) 0 0 sc Hi) as Hs. cbv zeta in Hs.
    rewrite Hnone in Hs. destruct Hs as (sc' & v & E & Hi' & Hat & _ & Hm' & Hv & Ho & _ & Ht').
    specialize (Hv ltac:(lia)). subst v. exists sc'.
    split_and!; [by eapply cr_acquire | rewrite Ht' by done; lia | congruence |].
    intros k Hs. destruct (decide (k = mkCooldownKey "r" (16 * Z.of_nat n))) as [->|Hne].
    + exists (Z.of_nat n). split; [lia | done].
    + rewrite Ho in Hs by done. rewrite decide_False in Hs by done.
      destruct (Hk k Hs) as (i & ? & ->). exists i. split; [lia | done].
Qed.
End cooldowns.

(** Memory stays bounded and the entry counter is exact: in every
    state reachable by acquisitions and clean-ups, whatever the map iteration
    order, the atomic total is the number of entries, every entry is in the
    shard of its PID, and the total exceeds [MaxCooldownEntries] by less than
    the number of shards. The overshoot is real: the "hard cap" is exceeded in
    some reachable state, since nothing is evicted when the target shard is
    empty. *)
Theorem cooldown_bounded (order : gmap cooldownKey Z -> list (cooldownKey * Z)) :
  (forall m, order m ≡ₚ map_to_list m) ->
  (forall sc, cooldown_reach order sc ->
    sm_total sc = entry_count sc /\
    (forall i shard, sm_shards sc !! i = Some shard ->
      map_Forall (fun k _ => Z.land (ck_pid k) (sm_mask sc) = Z.of_nat i) shard) /\
    sm_total sc < MaxCooldownEntries + Z.of_nat (length (sm_shards sc))) /\
  (exists sc, cooldown_reach order sc /\ MaxCooldownEntries < sm_total sc).
Proof.
  intros Hord. split.
  - intros sc Hr. pose proof (cooldown_reach_inv order Hord sc Hr) as Hi.
    split_and!; [by destruct Hi | by destruct Hi | by apply sm_inv_bound].
  - destruct (cooldown_fill order Hord (Z.to_nat MaxCooldownEntries)) as (sc & Hr & Ht & Hm & Hk);
      [rewrite Z2Nat.id by done; done|]. rewrite Z2Nat.id in Ht, Hk by done.
    pose proof (cooldown_reach_inv order Hord sc Hr) as Hi. set (k := mkCooldownKey "r" 1).
    assert (shard_at sc k = ∅) as Hemp.
    { apply map_eq. intros k'. rewrite lookup_empty. destruct (shard_at sc k !! k') eqn:E; [|done].
      assert (shard_idx sc k' = 1) as Hidx.
      { pose proof (shard_at_get _ _ k Hi) as Hg. apply (smi_keys _ _ Hi) in Hg.
        apply Hg in E. unfold shard_idx in *. rewrite E, Hm. done. }
      assert (sm_at sc k' = Some z) as E'.
      { unfold sm_at, shard_at in *. rewrite Hidx. unfold shard_idx in E. rewrite Hm in E. exact E. }
      destruct (Hk k') as (i & Hb & ->); [by eexists|]. unfold shard_idx in Hidx. rewrite Hm in Hidx.
      change 15 with (Z.ones 4) in Hidx. rewrite Z.land_ones in Hidx by done. cbn in Hidx.
      rewrite Z.mul_comm, Z_mod_mult in Hidx. done. }
    pose proof (tryAcquire_spec order Hord "r" 1 0 0 sc Hi) as Hs. cbv zeta in Hs. fold k in Hs.
    assert (sm_at sc k = None) as Hnone by (unfold sm_at; by rewrite Hemp, lookup_empty).
    rewrite Hnone in Hs. destruct Hs as (sc' & v & E & Hi' & _ & Hv & _ & _ & _ & _ & Ht').
    exists sc'. split; [by eapply cr_acquire|].
    assert (v = None) as Hvn.
    { destruct v as [v|]; [|done]. destruct (Hv v eq_refl) as (_ & _ & _ & t & Hlk & _).
      by rewrite Hemp, lookup_empty in Hlk. }
    rewrite Ht' by done. lia.
Qed.

Lemma cooldown_bounded_witness :
  exists sc, cooldown_reach map_to_list sc /\ 1000000 < sm_total sc.
Proof. exact (proj2 (cooldown_bounded map_to_list (fun m => Permutation_refl _))). Defined.

(** ** Cooldowns: runs *)
Inductive cd_op :=
| CdAcquire (ruleID : gostring) (pid now : Z)
| CdCleanup (cutoff : Z).

Section cooldown_runs.
Context (order : gmap cooldownKey Z -> list (cooldownKey * Z))
  (Horder : forall m, order m ≡ₚ map_to_list m) (cooldown : Z).

(** The code on a sequence of calls: the answers of the acquisitions. *)
Fixpoint cd_run (ops : list cd_op) (sc : shardedCooldowns) : go (list bool) :=
  match ops with
  | [] => Ok []
  | CdAcquire r p now :: ops =>
      '(sc, b) ← tryAcquire order r p cooldown now sc;
      bs ← cd_run ops sc;
      Ok (b :: bs)
  | CdCleanup cutoff :: ops => cd_run ops (cleanup cutoff sc)
  end.

(** The specification: [last] holds the latest successful acquisition of each
    key, and an acquisition fails exactly within [cooldown] of it. *)
Fixpoint cd_spec (ops : list cd_op) (last : gmap cooldownKey Z) : list bool :=
  match ops with
  | [] => []
  | CdAcquire r p now :: ops =>
      if match last !! mkCooldownKey r p with Some prev => now - prev <? cooldown | None => false end
      then false :: cd_spec ops last
      else true :: cd_spec ops (<[mkCooldownKey r p := now]> last)
  | CdCleanup _ :: ops => cd_spec ops last
  end.

(** The clock does not go back, and clean-up spares the entries within the
    cooldown. *)
Fixpoint cd_timed (now : Z) (ops : list cd_op) : Prop :=
  match ops with
  | [] => True
  | CdAcquire _ _ t :: ops => now <= t /\ cd_timed t ops
  | CdCleanup cutoff :: ops => cutoff <= now - cooldown /\ cd_timed now ops
  end.

Lemma cd_run_refines ops now sc last :
  0 <= cooldown <= max_duration -> cd_timed now ops ->
  sm_inv MaxCooldownEntries sc -> sm_total sc + Z.of_nat (length ops) <= MaxCooldownEntries ->
  (forall k, sm_at sc k = last !! k \/
    sm_at sc k = None /\ exists t, last !! k = Some t /\ t <= now - cooldown) ->
  cd_run ops sc = Ok (cd_spec ops last).
Proof.
  intros Hcd. revert now sc last.
  induction ops as [|[r p t|cutoff] ops IH]; intros now sc last Ht Hi Hsz Hrel; [done| |];
    cbn [cd_run cd_spec cd_timed length] in *.
  - destruct Ht as [Hle Ht]. pose proof (tryAcquire_spec order Horder r p cooldown t sc Hi) as Hs.
    cbv zeta in Hs. set (k := mkCooldownKey r p) in *.
    assert (match sm_at sc k with Some prev => time_Sub t prev <? cooldown | None => false end
      = match last !! k with Some prev => t - prev <? cooldown | None => false end) as Eb.
    { assert (forall prev, (time_Sub t prev <? cooldown) = (t - prev <? cooldown)) as Hsub
        by (intros; apply time_Sub_lt; unfold is_duration, min_duration in *; lia).
      destruct (Hrel k) as [->|(-> & t0 & -> & Ht0)].
      - destruct (last !! k); [apply Hsub | done].
      - symmetry. apply Z.ltb_ge. lia. }
    rewrite Eb in Hs. destruct (match last !! k with Some prev => _ | None => _ end).
    + rewrite Hs. cbn [mbind result_bind]. rewrite (IH t sc last); [done | done | done | lia |].
      intros k'. destruct (Hrel k') as [?|(? & t0 & ? & ?)]; [by left | right].
      split; [done|]. exists t0. split; [done | lia].
    + destruct Hs as (sc' & v & -> & Hi' & Hat & _ & _ & Hv & Ho & Htot & _). cbn [mbind result_bind].
      specialize (Hv ltac:(lia)). subst v. rewrite (IH t sc' (<[k := t]> last)); [done | done | done | lia |].
      intros k'. destruct (decide (k' = k)) as [->|Hne]; [left; by rewrite lookup_insert_eq|].
      rewrite Ho, decide_False, lookup_insert_ne by done.
      destruct (Hrel k') as [?|(? & t0 & ? & ?)]; [by left | right].
      split; [done|]. exists t0. split; [done | lia].
  - destruct Ht as [Hc Ht]. destruct (cleanup_spec MaxCooldownEntries sc cutoff) as [Hi' Hat]; [done | done |].
    apply (IH now); [done | done | |].
    + assert (sm_total (cleanup cutoff sc) <= sm_total sc); [|lia].
      unfold cleanup. rewrite cleanup_fold. cbn [sm_total].
      assert (forall l : list (gmap cooldownKey Z),
        sum_list_with size (map (cleanup_shard cutoff) l) <= sum_list_with size l)%nat as G.
      { induction l as [|m l IHl]; cbn [map sum_list_with]; [done|].
        assert (size (cleanup_shard cutoff m) <= size m)%nat
          by (apply map_subseteq_size, map_filter_subseteq). lia. }
      specialize (G (sm_shards sc)). lia.
    + intros k. rewrite Hat. destruct (Hrel k) as [E|(-> & ?)]; [|by right].
      rewrite E. destruct (last !! k) as [t|]; [|by left].
      destruct (t <? cutoff) eqn:El; zbool; [|by left].
      right. split; [done|]. exists t. split; [done | lia].
Qed.
End cooldown_runs.

(** Enforcement cooldowns are exact while the map is below its cap:
    for any time-ordered sequence of acquisitions and clean-ups (of entries
    past the cooldown), an acquisition fails exactly when an acquisition of
    the same rule and process succeeded less than the cooldown ago, whatever
    the number of shards and the map iteration order. *)
Theorem cooldown_exact (order : gmap cooldownKey Z -> list (cooldownKey * Z))
    numCPU gomaxprocs cooldown start ops :
  (forall m, order m ≡ₚ map_to_list m) ->
  0 <= cooldown <= max_duration -> cd_timed cooldown start ops ->
  Z.of_nat (length ops) <= MaxCooldownEntries ->
  cd_run order cooldown ops (newShardedCooldowns numCPU gomaxprocs) = Ok (cd_spec cooldown ops ∅).
Proof.
  intros Hord Hcd Ht Hlen.
  destruct (new_sharded_inv (K:=cooldownKey) MaxCooldownEntries numCPU gomaxprocs) as (Hi & H0 & Hn); [done|].
  apply (cd_run_refines order Hord cooldown ops start); [done | done | exact Hi | |].
  - unfold newShardedCooldowns. lia.
  - intros k. left. rewrite lookup_empty. apply Hn.
Qed.

Definition demo_cd : list cd_op :=
  [CdAcquire "kill" 7 100; CdAcquire "kill" 7 120; CdAcquire "kill" 8 121; CdAcquire "kill" 7 130;
   CdCleanup 99; CdAcquire "kill" 7 159]%string.

Lemma cooldown_exact_witness :
  cd_run map_to_list 30 demo_cd (newShardedCooldowns 8 8) = Ok [true; false; true; true; false].
Proof.
  exact (cooldown_exact map_to_list 8 8 30 100 demo_cd (fun m => Permutation_refl _)
    ltac:(vm_compute; split; congruence) ltac:(vm_compute; intuition congruence) ltac:(vm_compute; congruence)).
Defined.

(** ** Deduplication *)

(** Deduplication answers by its window: marking an alert keeps the
    map well-formed, a later check of the same rule, process and command is
    positive exactly when the mark is less than the window old, and the answer
    for any other key changes only if that key was evicted, which takes a full
    map and an entry that is the oldest of the same shard. *)
Theorem dedup_check_mark (order : gmap dedupKey Z -> list (dedupKey * Z)) sd ruleID pid comm now :
  (forall m, order m ≡ₚ map_to_list m) ->
  sm_inv MaxDedupEntries (sd_map sd) -> 0 <= sd_window sd <= max_duration ->
  exists sd' victim, mark order ruleID pid comm now sd = Ok sd' /\
    sm_inv MaxDedupEntries (sd_map sd') /\ sd_window sd' = sd_window sd /\
    victim_ok MaxDedupEntries (sd_map sd) (mkDedupKey ruleID pid comm) victim /\
    (forall t, check ruleID pid comm t sd' = Ok (t - now <? sd_window sd)) /\
    (forall r p c t, mkDedupKey r p c <> mkDedupKey ruleID pid comm ->
      victim <> Some (mkDedupKey r p c) -> check r p c t sd' = check r p c t sd).
Proof.
  intros Hord Hi Hw. set (k := mkDedupKey ruleID pid comm). unfold mark. fold k.
  rewrite (list_get_shard _ _ _ Hi). cbn [mbind result_bind].
  destruct (record_entry_spec order Hord MaxDedupEntries (sd_map sd) k now)
    as (m & v & -> & Hi' & Hat & Hv & Hm & _ & Ho & _); [done | done |].
  cbn [mbind result_bind]. exists (mkDedup m (sd_window sd)), v.
  split_and!; [done | done | done | done | |].
  - intros t. unfold check. cbn [sd_map sd_window]. rewrite (list_get_shard _ _ _ Hi').
    cbn [mbind result_bind]. fold k. change (shard_at m k !! k) with (sm_at m k).
    rewrite Hat, neg_duration_id by done. unfold time_After, time_Add. f_equal.
    apply eq_true_iff_eq. rewrite !Z.ltb_lt. lia.
  - intros r p c t Hne Hnv. unfold check. cbn [sd_map sd_window].
    rewrite (list_get_shard _ _ _ Hi'), (list_get_shard _ _ _ Hi). cbn [mbind result_bind].
    set (k' := mkDedupKey r p c) in *.
    change (shard_at m k' !! k') with (sm_at m k').
    change (shard_at (sd_map sd) k' !! k') with (sm_at (sd_map sd) k').
    by rewrite Ho, decide_False by (done || congruence).
Qed.

Lemma dedup_check_mark_witness :
  exists sd', mark map_to_list "r1" 7 "sh" 100 (newShardedDedup 2 2 60) = Ok sd' /\
    check "r1" 7 "sh" 159 sd' = Ok true /\ check "r1" 7 "sh" 160 sd' = Ok false.
Proof.
  destruct (dedup_check_mark map_to_list (newShardedDedup 2 2 60) "r1" 7 "sh" 100)
    as (sd' & v & E & _ & _ & _ & H & _).
  - intros m. reflexivity.
  - exact (proj1 (new_sharded_inv (K:=dedupKey) MaxDedupEntries 2 2 ltac:(vm_compute; congruence))).
  - vm_compute. split; congruence.
  - exists sd'. split; [exact E|]. split; [exact (H 159) | exact (H 160)].
Defined.
