(* ===== verification/Aggregator.v ===== *)
(** * Alert aggregation

    Models src/internal/correlator/aggregator.go: [AlertAggregator] folds the
    repeats of an aggregation key inside a window into one alert with a count.
    [Ingest] forwards the head of each window and flushes an expired
    aggregate; [Reap] flushes the expired windows in the unspecified order of
    a map iteration, which is a parameter. *)
From Stdlib Require Import Ascii Sorting.Sorted.
From S2P Require Import Prelude GoBytes Types.
#[local] Open Scope Z_scope.

(** ** Aggregation keys *)

(** [strings.Split(s, "/")] *)
Fixpoint split_slash (acc : gostring) (s : gostring) : list gostring :=
  match s with
  | EmptyString => [acc]
  | String c s =>
      if decide (c = "/"%char) then acc :: split_slash EmptyString s
      else split_slash (acc +:+ String c EmptyString) s
  end.

(** [strings.Join(l, "/")] *)
Fixpoint join_slash (l : list gostring) : gostring :=
  match l with
  | [] => EmptyString
  | [s] => s
  | s :: l => (s +:+ "/" +:+ join_slash l)%string
  end.

Definition is_digit (c : Ascii.ascii) : bool :=
  (48 <=? Z.of_N (Ascii.N_of_ascii c)) && (Z.of_N (Ascii.N_of_ascii c) <=? 57).

Fixpoint all_digits (s : gostring) : bool :=
  match s with
  | EmptyString => true
  | String c s => is_digit c && all_digits s
  end.

(** Ranging over runes: a byte above 127 is never part of a digit's rune. *)
Definition isNumeric (s : gostring) : bool :=
  match s with EmptyString => false | _ => all_digits s end.

Definition pathPrefixMaxDepth : nat := 2.

(** The loop over the segments; [kept] holds the segments kept so far. *)
Fixpoint keep_segments (segs kept : list gostring) : list gostring :=
  match segs with
  | [] => kept
  | s :: segs =>
      if decide (s = EmptyString) then keep_segments segs kept else
      let s := if isNumeric s then "*"%string else s in
      let kept := kept ++ [s] in
      if bool_decide (pathPrefixMaxDepth <= length kept)%nat then kept else keep_segments segs kept
  end.

Definition normalizePathPrefix (path : gostring) : gostring :=
  if decide (path = EmptyString) then EmptyString
  else ("/" +:+ join_slash (keep_segments (split_slash EmptyString path) []))%string.

Definition alertPath (alert : Alert) : gostring :=
  match ev_File (al_Event alert) with
  | Some f => if decide (file_FDPath f = EmptyString) then BytesToString (file_Filename f) else file_FDPath f
  | None => EmptyString
  end.

Definition aggregationKey (alert : Alert) : gostring :=
  (al_RuleID alert +:+ "|" +:+ al_Comm alert +:+ "|" +:+ normalizePathPrefix (alertPath alert) +:+ "|" +:+
   en_Namespace (al_Enrichment alert) +:+ "|" +:+ en_PodName (al_Enrichment alert))%string.

(** ** State *)
Record AlertAggregationConfig := mkAggConfig { agg_Enabled : bool; agg_Window : Z }.
Definition DefaultAlertAggregationConfig : AlertAggregationConfig := mkAggConfig false (60 * Second).

Record aggregateEntry := mkAggEntry { ae_alert : Alert; ae_windowEnd : Z }.

Record AlertAggregator := mkAggregator {
  agg_cfg : AlertAggregationConfig; agg_entries : gmap gostring aggregateEntry }.

Definition NewAlertAggregator (cfg : AlertAggregationConfig) : AlertAggregator :=
  mkAggregator
    (if agg_Window cfg <=? 0 then mkAggConfig (agg_Enabled cfg) (60 * Second) else cfg) ∅.

(** The assignments to [Count], [FirstSeen] and [LastSeen] of an alert. *)
Definition set_seen (a : Alert) (count first last : Z) : Alert :=
  mkAlert (al_ID a) (al_Timestamp a) (al_RuleID a) (al_RuleName a) (al_Severity a) (al_PID a)
    (al_Comm a) (al_Message a) (al_TraceID a) (al_SpanID a) (al_TraceContext a) (al_Enrichment a)
    (al_Event a) (al_ProcessTree a) (al_Fingerprint a) (al_Action a) (al_Enforced a)
    (al_PreAlertContext a) count first last (al_Class a).

(** ** Operations *)

(** One alert of [Ingest]: the entries after it and what it appends to the
    output. *)
Definition ingest_one (window now : Z) (entries : gmap gostring aggregateEntry) (alert : Alert) :
  gmap gostring aggregateEntry * list Alert :=
  let key := aggregationKey alert in
  let head := set_seen alert 1 now now in
  let opened := <[key := mkAggEntry head (time_Add now window)]> entries in
  match entries !! key with
  | None => (opened, [head])
  | Some entry =>
      if time_After now (ae_windowEnd entry) then
        (opened, (if 1 <? al_Count (ae_alert entry) then [ae_alert entry] else []) ++ [head])
      else
        let a := ae_alert entry in
        (<[key := mkAggEntry (set_seen a (al_Count a + 1) (al_FirstSeen a) now) (ae_windowEnd entry)]> entries, [])
  end.

Fixpoint ingest_all (window now : Z) (entries : gmap gostring aggregateEntry) (alerts : list Alert) :
  gmap gostring aggregateEntry * list Alert :=
  match alerts with
  | [] => (entries, [])
  | alert :: alerts =>
      let '(entries, o) := ingest_one window now entries alert in
      let '(entries, out) := ingest_all window now entries alerts in
      (entries, o ++ out)
  end.

Definition Ingest (alerts : list Alert) (now : Z) (a : AlertAggregator) : AlertAggregator * list Alert :=
  if negb (agg_Enabled (agg_cfg a)) || (Z.of_nat (length alerts) =? 0) then (a, alerts) else
  let '(entries, out) := ingest_all (agg_Window (agg_cfg a)) now (agg_entries a) alerts in
  (mkAggregator (agg_cfg a) entries, out).

(** [Reap]'s loop over the entries in the order [l]. *)
Fixpoint reap_loop (now : Z) (l : list (gostring * aggregateEntry))
    (entries : gmap gostring aggregateEntry) : gmap gostring aggregateEntry * list Alert :=
  match l with
  | [] => (entries, [])
  | (key, entry) :: l =>
      if time_Before now (ae_windowEnd entry) then reap_loop now l entries
      else
        let '(entries, out) := reap_loop now l (delete key entries) in
        (entries, (if 1 <? al_Count (ae_alert entry) then [ae_alert entry] else []) ++ out)
  end.

Definition Reap (order : gmap gostring aggregateEntry -> list (gostring * aggregateEntry))
    (now : Z) (a : AlertAggregator) : AlertAggregator * list Alert :=
  if negb (agg_Enabled (agg_cfg a)) then (a, []) else
  let '(entries, out) := reap_loop now (order (agg_entries a)) (agg_entries a) in
  (mkAggregator (agg_cfg a) entries, out).

(** ** Runs *)
Inductive agg_op :=
| AggIngest (alerts : list Alert) (now : Z)
| AggReap (now : Z).

Definition agg_time (o : agg_op) : Z := match o with AggIngest _ t | AggReap t => t end.

Section runs.
Context (order : gmap gostring aggregateEntry -> list (gostring * aggregateEntry)).

Definition agg_step (o : agg_op) (a : AlertAggregator) : AlertAggregator * list Alert :=
  match o with
  | AggIngest alerts now => Ingest alerts now a
  | AggReap now => Reap order now a
  end.

(** The outputs of a run, each with the instant of its call. *)
Fixpoint agg_run (ops : list agg_op) (a : AlertAggregator) : AlertAggregator * list (Z * Alert) :=
  match ops with
  | [] => (a, [])
  | o :: ops =>
      let '(a, out) := agg_step o a in
      let '(a, outs) := agg_run ops a in
      (a, map (pair (agg_time o)) out ++ outs)
  end.
End runs.

(** ** Accounting

    The occurrences an output reports that no earlier output did: a head
    reports itself, a final aggregate the repeats after its head. *)
Definition reported (a : Alert) : Z := if al_Count a =? 1 then 1 else al_Count a - 1.

Fixpoint reported_for (key : gostring) (l : list (Z * Alert)) : Z :=
  match l with
  | [] => 0
  | (_, a) :: l => (if decide (aggregationKey a = key) then reported a else 0) + reported_for key l
  end.

(** Alerts of a key that were given to the aggregator. *)
Fixpoint count_key (key : gostring) (l : list Alert) : Z :=
  match l with
  | [] => 0
  | a :: l => (if decide (aggregationKey a = key) then 1 else 0) + count_key key l
  end.

Fixpoint ingested_for (key : gostring) (ops : list agg_op) : Z :=
  match ops with
  | [] => 0
  | AggIngest alerts _ :: ops => count_key key alerts + ingested_for key ops
  | AggReap _ :: ops => ingested_for key ops
  end.

(** Repeats folded into the open window of a key and not reported yet. *)
Definition pending (key : gostring) (entries : gmap gostring aggregateEntry) : Z :=
  match entries !! key with Some e => al_Count (ae_alert e) - 1 | None => 0 end.

Definition entries_ok (entries : gmap gostring aggregateEntry) : Prop :=
  map_Forall (fun key e => aggregationKey (ae_alert e) = key /\ 1 <= al_Count (ae_alert e)) entries.

Lemma aggregationKey_set_seen a c f l : aggregationKey (set_seen a c f l) = aggregationKey a.
Proof. done. Qed.

Lemma reported_for_app key l1 l2 :
  reported_for key (l1 ++ l2) = reported_for key l1 + reported_for key l2.
Proof. induction l1 as [|[t a] l1 IH]; cbn [app reported_for]; lia. Qed.

(** The flush of a closed window reports what was pending. *)
Lemma reported_flush key k t (e : aggregateEntry) :
  aggregationKey (ae_alert e) = k -> 1 <= al_Count (ae_alert e) ->
  reported_for key (map (pair t) (if 1 <? al_Count (ae_alert e) then [ae_alert e] else []))
    = if decide (k = key) then al_Count (ae_alert e) - 1 else 0.
Proof.
  intros <- Hc. destruct (1 <? al_Count (ae_alert e)) eqn:E; zbool; cbn [map reported_for].
  - unfold reported. rewrite (proj2 (Z.eqb_neq _ 1)) by lia. lia.
  - case_decide; lia.
Qed.

Lemma ingest_one_account window now entries alert key :
  entries_ok entries ->
  let '(entries', out) := ingest_one window now entries alert in
  entries_ok entries' /\
  reported_for key (map (pair now) out) + pending key entries'
    = pending key entries + count_key key [alert].
Proof.
  intros Hok. unfold ingest_one. set (k := aggregationKey alert).
  assert (entries_ok (<[k := mkAggEntry (set_seen alert 1 now now) (time_Add now window)]> entries)) as Hnew
    by (apply map_Forall_insert_2; [split; [done | cbn; lia] | done]).
  assert (forall e, pending key (<[k := e]> entries)
    = if decide (k = key) then al_Count (ae_alert e) - 1 else pending key entries) as Hp.
  { intros e. unfold pending. case_decide; [subst; by rewrite lookup_insert_eq|].
    by rewrite lookup_insert_ne. }
  assert (reported_for key [(now, set_seen alert 1 now now)] = if decide (k = key) then 1 else 0) as Hh
    by (cbn [reported_for]; rewrite aggregationKey_set_seen; fold k; case_decide; done).
  destruct (entries !! k) as [e|] eqn:Ek.
  - destruct (map_Forall_lookup_1 _ _ _ _ Hok Ek) as [Eke Hc].
    assert (pending k entries = al_Count (ae_alert e) - 1) as Hpk by (unfold pending; by rewrite Ek).
    destruct (time_After now (ae_windowEnd e)).
    + split; [done|]. rewrite map_app, reported_for_app, (reported_flush key k) by done.
      rewrite Hp. cbn [map]. rewrite Hh. cbn [count_key ae_alert al_Count set_seen]. fold k.
      case_decide; [subst|]; lia.
    + split; [apply map_Forall_insert_2; [split; [done | cbn; lia] | done]|].
      rewrite Hp. cbn [map reported_for count_key ae_alert al_Count set_seen]. fold k.
      case_decide; [subst|]; lia.
  - assert (pending k entries = 0) as Hpk by (unfold pending; by rewrite Ek).
    split; [done|]. rewrite Hp. cbn [map]. rewrite Hh. cbn [count_key ae_alert al_Count set_seen]. fold k.
    case_decide; [subst|]; lia.
Qed.

Lemma ingest_all_account window now alerts entries key :
  entries_ok entries ->
  let '(entries', out) := ingest_all window now entries alerts in
  entries_ok entries' /\
  reported_for key (map (pair now) out) + pending key entries'
    = pending key entries + count_key key alerts.
Proof.
  revert entries. induction alerts as [|alert alerts IH]; intros entries Hok; cbn [ingest_all].
  - split; [done | cbn; lia].
  - pose proof (ingest_one_account window now entries alert key Hok) as H1.
    destruct (ingest_one window now entries alert) as [e1 o1]. destruct H1 as [Hok1 H1].
    specialize (IH e1 Hok1). destruct (ingest_all window now e1 alerts) as [e2 o2].
    destruct IH as [Hok2 H2]. split; [done|].
    rewrite map_app, reported_for_app. cbn [count_key] in *. lia.
Qed.

Lemma reap_loop_account now l entries key :
  entries_ok entries -> NoDup l.*1 -> (forall k e, (k, e) ∈ l -> entries !! k = Some e) ->
  let '(entries', out) := reap_loop now l entries in
  entries_ok entries' /\
  reported_for key (map (pair now) out) + pending key entries' = pending key entries.
Proof.
  revert entries. induction l as [|[k e] l IH]; intros entries Hok Hnd Hl; cbn [reap_loop].
  - split; [done | cbn; lia].
  - cbn in Hnd. apply NoDup_cons in Hnd as [Hk Hnd].
    destruct (time_Before now (ae_windowEnd e)).
    + apply IH; [done | done |]. intros k' e' Hin. apply Hl. by right.
    + assert (entries !! k = Some e) as Ek by (apply Hl; by left).
      specialize (IH (delete k entries)).
      destruct (reap_loop now l (delete k entries)) as [e2 o2].
      destruct IH as [Hok2 H2]; [by apply map_Forall_delete | done | |].
      { intros k' e' Hin. rewrite lookup_delete_ne; [apply Hl; by right|]. intros ->.
        apply Hk. apply list_elem_of_fmap. by exists (k', e'). }
      split; [done|]. destruct (map_Forall_lookup_1 _ _ _ _ Hok Ek) as [Eke Hc].
      rewrite map_app, reported_for_app, (reported_flush key k) by done.
      unfold pending in *. case_decide.
      * subst key. rewrite lookup_delete_eq in H2. rewrite Ek. lia.
      * rewrite lookup_delete_ne in H2 by done. lia.
Qed.

Section accounting.
Context (order : gmap gostring aggregateEntry -> list (gostring * aggregateEntry))
  (Horder : forall m, order m ≡ₚ map_to_list m).

Lemma order_props entries :
  NoDup (order entries).*1 /\ forall k e, (k, e) ∈ order entries -> entries !! k = Some e.
Proof.
  split.
  - rewrite Horder. apply NoDup_fst_map_to_list.
  - intros k e Hin. rewrite Horder in Hin. by apply elem_of_map_to_list.
Qed.

Lemma agg_step_account o a key :
  agg_Enabled (agg_cfg a) = true -> entries_ok (agg_entries a) ->
  let '(a', out) := agg_step order o a in
  agg_cfg a' = agg_cfg a /\ entries_ok (agg_entries a') /\
  reported_for key (map (pair (agg_time o)) out) + pending key (agg_entries a')
    = pending key (agg_entries a) + ingested_for key [o].
Proof.
  intros He Hok. destruct o as [alerts now|now]; cbn [agg_step agg_time ingested_for].
  - unfold Ingest. rewrite He. cbn [negb orb]. destruct (_ =? 0) eqn:El; zbool.
    + destruct alerts; [|cbn in El; lia]. split_and!; [done | done | cbn; lia].
    + pose proof (ingest_all_account (agg_Window (agg_cfg a)) now alerts _ key Hok) as H.
      destruct (ingest_all _ _ _ _) as [e o]. cbn [agg_cfg agg_entries]. destruct H as [H1 H2].
      split_and!; [done | done | lia].
  - unfold Reap. rewrite He. cbn [negb]. destruct (order_props (agg_entries a)) as [Hnd Hl].
    pose proof (reap_loop_account now _ _ key Hok Hnd Hl) as H.
    destruct (reap_loop _ _ _) as [e o]. cbn [agg_cfg agg_entries]. destruct H as [H1 H2].
    split_and!; [done | done | lia].
Qed.

Lemma agg_run_account ops a key :
  agg_Enabled (agg_cfg a) = true -> entries_ok (agg_entries a) ->
  let '(a', outs) := agg_run order ops a in
  reported_for key outs + pending key (agg_entries a')
    = pending key (agg_entries a) + ingested_for key ops.
Proof.
  revert a. induction ops as [|o ops IH]; intros a He Hok; cbn [agg_run].
  - cbn. lia.
  - pose proof (agg_step_account o a key He Hok) as H1.
    destruct (agg_step order o a) as [a1 o1]. destruct H1 as (Hc & Hok1 & H1).
    specialize (IH a1 ltac:(congruence) Hok1). destruct (agg_run order ops a1) as [a2 o2].
    rewrite reported_for_app. destruct o; cbn [ingested_for] in *; lia.
Qed.
End accounting.

(** Aggregation loses no occurrence: in any run of [Ingest] and
    [Reap] calls of an enabled aggregator, at any instants and in any map
    iteration order, the occurrences of a key that the forwarded alerts report
    (one per head, the repeats per final aggregate) and the repeats still
    pending in its open window add up to the alerts of that key that came in. *)
Theorem aggregation_conserves (order : gmap gostring aggregateEntry -> list (gostring * aggregateEntry))
    window ops key :
  (forall m, order m ≡ₚ map_to_list m) ->
  let '(a, outs) := agg_run order ops (NewAlertAggregator (mkAggConfig true window)) in
  reported_for key outs + pending key (agg_entries a) = ingested_for key ops.
Proof.
  intros Hord. pose proof (agg_run_account order Hord ops
    (NewAlertAggregator (mkAggConfig true window)) key) as H.
  destruct (agg_run order ops _) as [a outs]. apply H; [|apply map_Forall_empty].
  unfold NewAlertAggregator. cbn. by destruct (window <=? 0).
Qed.

Definition demo_alert (rule comm : gostring) : Alert :=
  mkAlert "" 0 rule "" "" 7 comm "" "" "" None empty_enrichment empty_event [] "" "" false [] 0 0 0 "".
Definition demo_agg : list agg_op :=
  [AggIngest [demo_alert "r1" "sh"; demo_alert "r1" "sh"; demo_alert "r2" "sh"] 100;
   AggIngest [demo_alert "r1" "sh"] 120; AggReap 170; AggIngest [demo_alert "r1" "sh"] 180]%string.

Lemma aggregation_conserves_witness :
  ingested_for "r1|sh|||" demo_agg = 4 /\
  let '(a, outs) := agg_run map_to_list demo_agg (NewAlertAggregator (mkAggConfig true 60)) in
  reported_for "r1|sh|||" outs + pending "r1|sh|||" (agg_entries a) = ingested_for "r1|sh|||" demo_agg.
Proof.
  split; [vm_compute; reflexivity|].
  exact (aggregation_conserves map_to_list 60 demo_agg "r1|sh|||" (fun m => Permutation_refl _)).
Defined.

(** ** Spacing of the forwarded heads *)

(** The instants at which a head of [key] was forwarded. *)
Fixpoint head_times (key : gostring) (l : list (Z * Alert)) : list Z :=
  match l with
  | [] => []
  | (t, a) :: l =>
      if decide (aggregationKey a = key /\ al_Count a = 1) then t :: head_times key l else head_times key l
  end.

(** Each instant is at least [window] after its predecessor. *)
Fixpoint spaced (window : Z) (prev : option Z) (l : list Z) : Prop :=
  match l with
  | [] => True
  | t :: l => match prev with Some p => p + window <= t | None => True end /\ spaced window (Some t) l
  end.

Fixpoint agg_timed (now : Z) (ops : list agg_op) : Prop :=
  match ops with
  | [] => True
  | o :: ops => now <= agg_time o /\ agg_timed (agg_time o) ops
  end.

Definition last_head (prev : option Z) (l : list Z) : option Z :=
  match last l with Some t => Some t | None => prev end.

Lemma spaced_app window prev l1 l2 :
  spaced window prev (l1 ++ l2) <-> spaced window prev l1 /\ spaced window (last_head prev l1) l2.
Proof.
  revert prev. induction l1 as [|t l1 IH]; intros prev; cbn [app spaced]; [unfold last_head; cbn; tauto|].
  rewrite IH. unfold last_head. destruct l1 as [|t1 l1]; [cbn; tauto|].
  change (last (t :: t1 :: l1)) with (last (t1 :: l1)).
  destruct (last (t1 :: l1)) eqn:E; [tauto|]. by apply last_None in E.
Qed.

Lemma head_times_app key l1 l2 : head_times key (l1 ++ l2) = head_times key l1 ++ head_times key l2.
Proof.
  induction l1 as [|[t a] l1 IH]; cbn [app head_times]; [done|]. case_decide; cbn [app]; by rewrite IH.
Qed.

Lemma last_head_app prev l1 l2 : last_head prev (l1 ++ l2) = last_head (last_head prev l1) l2.
Proof. unfold last_head. rewrite last_app. by destruct (last l2), (last l1). Qed.

Section spacing.
Context (window : Z) (key : gostring).

(** The last head of [key] opened the window that is still open, or its
    window is over. *)
Definition head_rel (prev : option Z) (now : Z) (entries : gmap gostring aggregateEntry) : Prop :=
  match entries !! key with
  | Some e => exists t, prev = Some t /\ ae_windowEnd e = t + window
  | None => forall t, prev = Some t -> t + window <= now
  end.

Lemma head_rel_mono prev now now' entries : now <= now' -> head_rel prev now entries -> head_rel prev now' entries.
Proof.
  unfold head_rel. destruct (entries !! key); [done|]. intros Hle H t Ht. specialize (H t Ht). lia.
Qed.

(** A flush is not a head. *)
Lemma head_times_flush t (e : aggregateEntry) :
  head_times key (map (pair t) (if 1 <? al_Count (ae_alert e) then [ae_alert e] else [])) = [].
Proof.
  destruct (1 <? al_Count (ae_alert e)) eqn:E; zbool; [|done]. cbn [map head_times].
  by rewrite decide_False by lia.
Qed.

Lemma ingest_one_spaced now entries alert prev :
  head_rel prev now entries ->
  let '(entries', out) := ingest_one window now entries alert in
  let h := head_times key (map (pair now) out) in
  spaced window prev h /\ head_rel (last_head prev h) now entries'.
Proof.
  intros Hr. unfold ingest_one. set (k := aggregationKey alert).
  assert (head_times key [(now, set_seen alert 1 now now)] = if decide (k = key) then [now] else []) as Hh.
  { cbn [head_times]. rewrite aggregationKey_set_seen. fold k. cbn [al_Count set_seen].
    destruct (decide (k = key)); [by rewrite decide_True | rewrite decide_False; [done | tauto]]. }
  assert (forall e, (forall t, prev = Some t -> k = key -> t + window <= now) ->
    ae_windowEnd e = now + window ->
    spaced window prev (head_times key [(now, set_seen alert 1 now now)]) /\
    head_rel (last_head prev (head_times key [(now, set_seen alert 1 now now)])) now (<[k := e]> entries))
    as Hopen.
  { intros e Hprev He. rewrite Hh. unfold head_rel in *. destruct (decide (k = key)) as [<-|Hne].
    - rewrite lookup_insert_eq. cbn. split; [|by eexists].
      split; [|done]. destruct prev as [p|]; [|done]. by apply Hprev.
    - rewrite lookup_insert_ne by done. cbn. by split. }
  destruct (entries !! k) as [e|] eqn:Ek.
  - destruct (time_After now (ae_windowEnd e)) eqn:Ea; unfold time_After in Ea; zbool.
    + rewrite map_app, head_times_app, head_times_flush. cbn [app map].
      apply Hopen; [|done]. intros t -> Ekk. unfold head_rel in Hr. rewrite <- Ekk, Ek in Hr.
      destruct Hr as (t' & [= <-] & E). lia.
    + cbn [map head_times]. split; [done|]. cbn. unfold head_rel in *.
      destruct (decide (k = key)) as [<-|Hne].
      * rewrite lookup_insert_eq. rewrite Ek in Hr. done.
      * by rewrite lookup_insert_ne.
  - cbn [map]. apply Hopen; [|done]. intros t -> Ekk. unfold head_rel in Hr. rewrite <- Ekk, Ek in Hr. by apply Hr.
Qed.

Lemma ingest_all_spaced now alerts entries prev :
  head_rel prev now entries ->
  let '(entries', out) := ingest_all window now entries alerts in
  let h := head_times key (map (pair now) out) in
  spaced window prev h /\ head_rel (last_head prev h) now entries'.
Proof.
  revert entries prev. induction alerts as [|alert alerts IH]; intros entries prev Hr; cbn [ingest_all]; [done|].
  pose proof (ingest_one_spaced now entries alert prev Hr) as H1.
  destruct (ingest_one window now entries alert) as [e1 o1]. destruct H1 as [S1 R1].
  specialize (IH e1 _ R1). destruct (ingest_all window now e1 alerts) as [e2 o2].
  destruct IH as [S2 R2]. cbv zeta. rewrite map_app, head_times_app, spaced_app, last_head_app. done.
Qed.

Lemma reap_loop_spaced now l entries prev :
  (forall k e, (k, e) ∈ l -> entries !! k = Some e) -> NoDup l.*1 -> head_rel prev now entries ->
  let '(entries', out) := reap_loop now l entries in
  head_times key (map (pair now) out) = [] /\ head_rel prev now entries'.
Proof.
  revert entries. induction l as [|[k e] l IH]; intros entries Hl Hnd Hr; cbn [reap_loop]; [done|].
  cbn in Hnd. apply NoDup_cons in Hnd as [Hk Hnd].
  destruct (time_Before now (ae_windowEnd e)) eqn:Eb; unfold time_Before in Eb; zbool.
  - apply IH; [|done|done]. intros k' e' Hin. apply Hl. by right.
  - specialize (IH (delete k entries)). destruct (reap_loop now l (delete k entries)) as [e2 o2].
    destruct IH as [H1 H2].
    + intros k' e' Hin. rewrite lookup_delete_ne; [apply Hl; by right|]. intros ->.
      apply Hk. apply list_elem_of_fmap. by exists (k', e').
    + done.
    + assert (entries !! k = Some e) as Ek by (apply Hl; by left). unfold head_rel in *.
      destruct (decide (k = key)) as [<-|Hne]; [|by rewrite lookup_delete_ne].
      rewrite lookup_delete_eq. rewrite Ek in Hr. destruct Hr as (t & -> & E).
      intros ? [= <-]. lia.
    + by rewrite map_app, head_times_app, head_times_flush.
Qed.

Context (order : gmap gostring aggregateEntry -> list (gostring * aggregateEntry))
  (Horder : forall m, order m ≡ₚ map_to_list m).

Lemma agg_run_spaced ops now a prev :
  agg_cfg a = mkAggConfig true window -> agg_timed now ops -> head_rel prev now (agg_entries a) ->
  spaced window prev (head_times key (agg_run order ops a).2).
Proof.
  revert now a prev. induction ops as [|o ops IH]; intros now a prev Hc Ht Hr; cbn [agg_run]; [done|].
  destruct Ht as [Hle Ht]. apply (head_rel_mono _ _ (agg_time o)) in Hr; [|done].
  assert (let '(a', out) := agg_step order o a in
    let h := head_times key (map (pair (agg_time o)) out) in
    agg_cfg a' = agg_cfg a /\ spaced window prev h /\ head_rel (last_head prev h) (agg_time o) (agg_entries a'))
    as Hstep.
  { destruct o as [alerts t|t]; cbn [agg_step agg_time] in *.
    - unfold Ingest. rewrite Hc. cbn [agg_Enabled agg_Window negb orb]. destruct (_ =? 0) eqn:El; zbool.
      + destruct alerts; [|cbn in El; lia]. by split_and!.
      + pose proof (ingest_all_spaced t alerts (agg_entries a) prev Hr) as H.
        destruct (ingest_all _ _ _ _) as [e out]. by destruct H; split_and!.
    - unfold Reap. rewrite Hc. cbn [agg_Enabled negb].
      destruct (order_props order Horder (agg_entries a)) as [Hnd Hl].
      pose proof (reap_loop_spaced t _ _ prev Hl Hnd Hr) as H.
      destruct (reap_loop _ _ _) as [e out]. destruct H as [H1 H2]. rewrite H1. by split_and!. }
  destruct (agg_step order o a) as [a1 o1]. destruct Hstep as (Hc1 & S1 & R1).
  specialize (IH _ a1 _ ltac:(congruence) Ht R1). destruct (agg_run order ops a1) as [a2 o2].
  cbn [snd] in *. rewrite head_times_app, spaced_app. done.
Qed.
End spacing.

(** Aggregation throttles: over any time-ordered run of an enabled
    aggregator, two heads of the same key are forwarded at least one window
    apart, whatever is ingested in between and whenever [Reap] runs. *)
Theorem aggregation_spacing (order : gmap gostring aggregateEntry -> list (gostring * aggregateEntry))
    window start ops key :
  (forall m, order m ≡ₚ map_to_list m) -> 0 < window -> agg_timed start ops ->
  spaced window None
    (head_times key (agg_run order ops (NewAlertAggregator (mkAggConfig true window))).2).
Proof.
  intros Hord Hw Ht. eapply agg_run_spaced; [done | | done |].
  - unfold NewAlertAggregator. cbn. by rewrite (proj2 (Z.leb_gt window 0)) by lia.
  - unfold head_rel. cbn. rewrite lookup_empty. done.
Qed.

Lemma aggregation_spacing_witness :
  head_times "r1|sh|||" (agg_run map_to_list demo_agg (NewAlertAggregator (mkAggConfig true 60))).2 = [100; 180] /\
  spaced 60 None [100; 180].
Proof.
  split; [vm_compute; reflexivity|].
  exact (aggregation_spacing map_to_list 60 100 demo_agg "r1|sh|||" (fun m => Permutation_refl _)
    ltac:(lia) ltac:(vm_compute; intuition congruence)).
Defined.

(** ** Keys *)

Lemma keep_segments_length segs kept :
  (length kept < pathPrefixMaxDepth)%nat -> (length (keep_segments segs kept) <= pathPrefixMaxDepth)%nat.
Proof.
  revert kept. induction segs as [|s segs IH]; intros kept Hk; cbn [keep_segments]; [lia|].
  case_decide; [by apply IH|]. cbv zeta. rewrite length_app. cbn [length].
  case_bool_decide; [rewrite length_app; cbn [length]; lia|]. apply IH. rewrite length_app. cbn [length]. lia.
Qed.

(** The aggregation key is coarser and less separating than its
    comments say. At most two path segments enter the key, so two files two
    levels deep keep distinct keys ("/etc/passwd" and "/etc/shadow" do not
    collapse to "/etc"); and the separator is not escaped, so alerts that
    differ in rule, command or pod can share one key. *)
Theorem aggregationKey_collapse :
  (forall path, (length (keep_segments (split_slash EmptyString path) []) <= 2)%nat) /\
  normalizePathPrefix "/etc/passwd" <> normalizePathPrefix "/etc/shadow" /\
  normalizePathPrefix "/proc/1234/mem" = "/proc/*"%string /\
  exists a b, aggregationKey a = aggregationKey b /\ al_RuleID a <> al_RuleID b /\ al_Comm a <> al_Comm b.
Proof.
  split_and!.
  - intros path. apply keep_segments_length. unfold pathPrefixMaxDepth. cbn. lia.
  - by vm_compute.
  - reflexivity.
  - exists (demo_alert "r" "a|b"), (demo_alert "r|a" "b"). by vm_compute.
Qed.
