(* ===== verification/Incidents.v ===== *)
(** * Incident grouping

    Models src/internal/correlator/incident.go. [open] and [byID] hold
    pointers to the same incident records, and [Add] updates a record through
    the pointer found in [open]; the model keeps a heap of records and both
    maps point into it. *)
From Stdlib Require Import Ascii.
From stdpp Require Import pretty.
From S2P Require Import Prelude Types.

Definition incidentRetentionMultiplier : Z := 5.

Record incidentKey := mkIncidentKey { ik_pid : Z; ik_namespace : gostring }.
#[export] Instance incidentKey_eq_dec : EqDecision incidentKey.
Proof. solve_decision. Defined.
#[export] Instance incidentKey_countable : Countable incidentKey.
Proof.
  refine (inj_countable' (fun k => (ik_pid k, ik_namespace k)) (fun '(p, n) => mkIncidentKey p n) _).
  by intros [].
Defined.

(** A heap location. *)
Abbreviation loc := nat.

Record IncidentTracker := mkTracker {
  it_window : Z;
  it_heap : gmap loc Incident; it_next : loc;
  it_open : gmap incidentKey loc;
  it_byID : gmap gostring loc;
  it_seq : Z }.

Definition newIncidentTracker (window : Z) : IncidentTracker :=
  mkTracker (if window <=? 0 then 60 * Second else window) ∅ 0 ∅ ∅ 0.

(** ** Helpers *)
Definition incidentSeverityRank (s : Severity) : Z :=
  if decide (s = SeverityCritical) then 2 else if decide (s = SeverityWarning) then 1 else 0.

Definition maxIncidentSeverity (a b : Severity) : Severity :=
  if incidentSeverityRank b <=? incidentSeverityRank a then a else b.

Definition UnixMilli (ts : Z) : Z := ts / 1000000.

(** [fmt.Sprintf("inc-%d-%d", ...)] with the incremented sequence number. *)
Definition incident_id (ts seq : Z) : gostring :=
  ("inc-" +:+ pretty (UnixMilli ts) +:+ "-" +:+ pretty seq)%string.

Definition nextID (ts : Z) (t : IncidentTracker) : IncidentTracker * gostring :=
  let seq := u64 (it_seq t + 1) in
  (mkTracker (it_window t) (it_heap t) (it_next t) (it_open t) (it_byID t) seq, incident_id ts seq).

Definition incStatus (inc : Incident) (now window : Z) : gostring :=
  if time_Sub now (in_LastSeen inc) <=? window then "open"%string else "closed"%string.

(** ** Operations *)

(** The field updates of [Add] on the incident it found or created. *)
Definition record_alert (ts : Z) (alert : Alert) (inc : Incident) : Incident :=
  let ids := in_AlertIDs inc ++ [al_ID alert] in
  mkIncident (in_ID inc) (in_FirstSeen inc) ts (in_PID inc) (in_Namespace inc)
    ids (Z.of_nat (length ids)) (maxIncidentSeverity (in_Severity inc) (al_Severity alert))
    (in_Status inc)
    (if existsb (fun r => bool_decide (r = al_RuleID alert)) (in_RuleIDs inc)
     then in_RuleIDs inc else in_RuleIDs inc ++ [al_RuleID alert]).

(** A fresh incident, allocated and entered in both maps. *)
Definition open_incident (key : incidentKey) (ts : Z) (t : IncidentTracker) : IncidentTracker * loc :=
  let '(t, id) := nextID ts t in
  let l := it_next t in
  let inc := mkIncident id ts zero_time (ik_pid key) (ik_namespace key) [] 0 ""%string ""%string [] in
  (mkTracker (it_window t) (<[l := inc]> (it_heap t)) (S l) (<[key := l]> (it_open t))
     (<[id := l]> (it_byID t)) (it_seq t), l).

Definition alter_heap (f : Incident -> Incident) (l : loc) (t : IncidentTracker) : IncidentTracker :=
  mkTracker (it_window t) (alter f l (it_heap t)) (it_next t) (it_open t) (it_byID t) (it_seq t).

(** The open incident of a key, when its last alert is within the window. *)
Definition find_open (key : incidentKey) (ts : Z) (t : IncidentTracker) : option loc :=
  match it_open t !! key with
  | Some l =>
      match it_heap t !! l with
      | Some inc => if it_window t <? time_Sub ts (in_LastSeen inc) then None else Some l
      | None => None
      end
  | None => None
  end.

Definition alert_time (alert : Alert) (now : Z) : Z :=
  if time_IsZero (al_Timestamp alert) then now else al_Timestamp alert.

Definition Add (alert : Alert) (now : Z) (t : IncidentTracker) : IncidentTracker :=
  let key := mkIncidentKey (al_PID alert) (en_Namespace (al_Enrichment alert)) in
  let ts := alert_time alert now in
  let '(t, l) := match find_open key ts t with
                 | Some l => (t, l)
                 | None => open_incident key ts t
                 end in
  alter_heap (record_alert ts alert) l t.

Definition set_status (inc : Incident) (s : gostring) : Incident :=
  mkIncident (in_ID inc) (in_FirstSeen inc) (in_LastSeen inc) (in_PID inc) (in_Namespace inc)
    (in_AlertIDs inc) (in_AlertCount inc) (in_Severity inc) s (in_RuleIDs inc).

Definition deref (t : IncidentTracker) (l : loc) : option Incident := it_heap t !! l.

Definition GetByID (id : gostring) (now : Z) (t : IncidentTracker) : option Incident :=
  l ← it_byID t !! id;
  inc ← deref t l;
  Some (set_status inc (incStatus inc now (it_window t))).

(** The loop of [GetAll] over the ids in the order [l]. *)
Fixpoint get_all_loop (namespace status : gostring) (limit now : Z) (t : IncidentTracker)
    (l : list (gostring * loc)) (out : list Incident) : list Incident :=
  match l with
  | [] => out
  | (_, p) :: l =>
      match deref t p with
      | None => get_all_loop namespace status limit now t l out
      | Some inc =>
          let s := incStatus inc now (it_window t) in
          if negb (bool_decide (namespace = ""%string)) && negb (bool_decide (in_Namespace inc = namespace))
          then get_all_loop namespace status limit now t l out else
          if negb (bool_decide (status = ""%string)) && negb (bool_decide (s = status))
          then get_all_loop namespace status limit now t l out else
          let out := out ++ [set_status inc s] in
          if (0 <? limit) && (limit <=? Z.of_nat (length out)) then out
          else get_all_loop namespace status limit now t l out
      end
  end.

Definition GetAll (order : gmap gostring loc -> list (gostring * loc))
    (namespace status : gostring) (limit now : Z) (t : IncidentTracker) : list Incident :=
  get_all_loop namespace status limit now t (order (it_byID t)) [].

Definition older_than (d now : Z) (t : IncidentTracker) (l : loc) : bool :=
  match deref t l with Some inc => d <? time_Sub now (in_LastSeen inc) | None => false end.

Definition Cleanup (now : Z) (t : IncidentTracker) : IncidentTracker :=
  let retention := i64 (it_window t * incidentRetentionMultiplier) in
  mkTracker (it_window t) (it_heap t) (it_next t)
    (filter (fun p => older_than (it_window t) now t p.2 = false) (it_open t))
    (filter (fun p => older_than retention now t p.2 = false) (it_byID t))
    (it_seq t).

Definition Count (t : IncidentTracker) : Z := Z.of_nat (size (it_byID t)).

(** ** Incident ids are unique *)

Fixpoint no_dash (s : gostring) : Prop :=
  match s with EmptyString => True | String c s => c <> "-"%char /\ no_dash s end.

Lemma no_dash_app_dash s u : ~ no_dash (s +:+ "-" +:+ u).
Proof. induction s as [|c s IH]; cbn; [by intros [? _] | by intros [_ ?]]. Qed.

(** The text after the last dash is determined. *)
Lemma last_dash_inj x y u v :
  no_dash u -> no_dash v -> x +:+ "-" +:+ u = y +:+ "-" +:+ v -> u = v.
Proof.
  intros Hu Hv. revert y. induction x as [|c x IH]; intros [|d y] E; injection E as Ec E || injection E as E.
  - done.
  - change (u = y +:+ "-" +:+ v) in E. rewrite E in Hu. by apply no_dash_app_dash in Hu.
  - change (x +:+ "-" +:+ u = v) in E. rewrite <- E in Hv. by apply no_dash_app_dash in Hv.
  - by apply (IH y).
Qed.

Lemma pretty_N_go_no_dash x s : no_dash s -> no_dash (pretty_N_go x s).
Proof.
  revert s. induction (N.lt_wf_0 x) as [x _ IH]; intros s Hs.
  assert (x = 0 \/ 0 < x)%N as [->|Hx] by lia; [by rewrite pretty_N_go_0|].
  rewrite pretty_N_go_step by done. apply IH; [by apply N.div_lt|]. split; [|done].
  unfold pretty_N_char. by repeat case_match.
Qed.

Lemma pretty_no_dash n : 0 <= n -> no_dash (pretty n).
Proof.
  intros Hn. destruct n as [|p|p]; [done | | lia]. unfold pretty, pretty_Z, pretty, pretty_positive, pretty, pretty_N.
  case_decide; [done|]. by apply pretty_N_go_no_dash.
Qed.

Lemma incident_id_inj ts n ts' m :
  0 <= n -> 0 <= m -> incident_id ts n = incident_id ts' m -> n = m.
Proof.
  intros Hn Hm E. unfold incident_id in E. cbn in E. injection E as E.
  apply last_dash_inj in E; [|by apply pretty_no_dash..]. by apply (inj pretty) in E.
Qed.

(** ** The invariant *)

Definition lookup_id (t : IncidentTracker) (id : gostring) : option Incident :=
  it_byID t !! id ≫= deref t.
Definition lookup_open (t : IncidentTracker) (k : incidentKey) : option Incident :=
  it_open t !! k ≫= deref t.

Definition key_of (inc : Incident) : incidentKey := mkIncidentKey (in_PID inc) (in_Namespace inc).

Record it_inv (t : IncidentTracker) : Prop := {
  ii_window : 0 < it_window t /\ incidentRetentionMultiplier * it_window t <= max_duration;
  ii_heap : map_Forall (fun l inc => (l < it_next t)%nat /\
    in_AlertCount inc = Z.of_nat (length (in_AlertIDs inc)) /\ NoDup (in_RuleIDs inc)) (it_heap t);
  ii_open : map_Forall (fun k l => exists inc, it_heap t !! l = Some inc /\ key_of inc = k /\
    it_byID t !! in_ID inc = Some l) (it_open t);
  ii_byID : map_Forall (fun id l => (exists inc, it_heap t !! l = Some inc /\ in_ID inc = id) /\
    exists ts n, id = incident_id ts n /\ 0 <= n <= it_seq t) (it_byID t);
  ii_seq : 0 <= it_seq t < 2 ^ 64 }.

Lemma new_tracker_inv window :
  incidentRetentionMultiplier * window <= max_duration -> it_inv (newIncidentTracker window).
Proof.
  unfold incidentRetentionMultiplier, max_duration, newIncidentTracker, Second. intros Hw.
  split; cbn; [|apply map_Forall_empty..|lia].
  destruct (window <=? 0) eqn:E; zbool; unfold incidentRetentionMultiplier, max_duration; lia.
Qed.

Lemma record_alert_ok ts alert inc :
  NoDup (in_RuleIDs inc) ->
  in_AlertCount (record_alert ts alert inc) = Z.of_nat (length (in_AlertIDs (record_alert ts alert inc))) /\
  NoDup (in_RuleIDs (record_alert ts alert inc)).
Proof.
  intros Hnd. cbn. split; [done|]. rewrite existsb_eq_elem. case_bool_decide as E; [done|].
  apply NoDup_app. split_and!; [done | | apply NoDup_singleton].
  intros x Hx ->%list_elem_of_singleton. done.
Qed.

(** Updating an incident through a pointer keeps the invariant. *)
Lemma alter_heap_inv f l t :
  it_inv t -> (forall inc, in_ID (f inc) = in_ID inc /\ key_of (f inc) = key_of inc) ->
  (forall inc, NoDup (in_RuleIDs inc) ->
    in_AlertCount (f inc) = Z.of_nat (length (in_AlertIDs (f inc))) /\ NoDup (in_RuleIDs (f inc))) ->
  it_inv (alter_heap f l t).
Proof.
  intros [Hw Hh Ho Hb Hs] Hf Hok. split; cbn [it_window it_heap it_next it_open it_byID it_seq alter_heap];
    [done | | | | done].
  - intros l' inc Hl'. destruct (decide (l = l')) as [<-|Hne].
    + rewrite lookup_alter_eq in Hl'. destruct (it_heap t !! l) as [inc0|] eqn:E; [|done].
      cbn in Hl'. simplify_eq. destruct (Hh _ _ E) as (? & ? & ?). split; [done | by apply Hok].
    + rewrite lookup_alter_ne in Hl' by done. by apply Hh.
  - intros k l' Hk. destruct (Ho k l' Hk) as (inc & Hl' & Hkey & Hid).
    destruct (decide (l = l')) as [<-|Hne].
    + exists (f inc). destruct (Hf inc) as [E1 E2]. rewrite lookup_alter_eq, Hl', E1, E2. done.
    + exists inc. by rewrite lookup_alter_ne.
  - intros id l' Hid. destruct (Hb id l' Hid) as [(inc & Hl' & E) Hn]. split; [|done].
    destruct (decide (l = l')) as [<-|Hne].
    + exists (f inc). destruct (Hf inc) as [E1 _]. rewrite lookup_alter_eq, Hl'. split; [done | congruence].
    + exists inc. by rewrite lookup_alter_ne.
Qed.

(** What both views show after an update through the pointer of incident
    [inc]: only that incident changes, in both maps. *)
Lemma alter_heap_views f l t inc :
  it_inv t -> it_heap t !! l = Some inc ->
  it_byID t !! in_ID inc = Some l -> it_open t !! key_of inc = Some l ->
  let t' := alter_heap f l t in
  lookup_id t' (in_ID inc) = Some (f inc) /\ lookup_open t' (key_of inc) = Some (f inc) /\
  (forall id, id <> in_ID inc -> lookup_id t' id = lookup_id t id) /\
  (forall k, k <> key_of inc -> lookup_open t' k = lookup_open t k).
Proof.
  intros Hi Hl Hb Ho. unfold lookup_id, lookup_open, deref. cbn [alter_heap it_byID it_open it_heap].
  split_and!.
  - rewrite Hb. cbn. by rewrite lookup_alter_eq, Hl.
  - rewrite Ho. cbn. by rewrite lookup_alter_eq, Hl.
  - intros id Hne. destruct (it_byID t !! id) as [l'|] eqn:E; [|done]. cbn.
    apply lookup_alter_ne. intros <-.
    destruct (ii_byID t Hi id l E) as [(inc' & Hl' & Eid) _]. rewrite Hl in Hl'. simplify_eq.
  - intros k Hne. destruct (it_open t !! k) as [l'|] eqn:E; [|done]. cbn.
    apply lookup_alter_ne. intros <-.
    destruct (ii_open t Hi k l E) as (inc' & Hl' & Ek & _). rewrite Hl in Hl'. simplify_eq.
Qed.

(** The record a new incident starts from. *)
Definition fresh_incident (id : gostring) (ts : Z) (key : incidentKey) : Incident :=
  mkIncident id ts zero_time (ik_pid key) (ik_namespace key) [] 0 ""%string ""%string [].

Lemma open_incident_spec key ts t :
  it_inv t -> it_seq t < 2 ^ 64 - 1 ->
  let '(t', l) := open_incident key ts t in
  let id := incident_id ts (it_seq t + 1) in
  it_inv t' /\ it_heap t' !! l = Some (fresh_incident id ts key) /\
  it_byID t' !! id = Some l /\ it_open t' !! key = Some l /\
  lookup_id t id = None /\ it_window t' = it_window t /\ it_seq t' = it_seq t + 1 /\
  (forall id', id' <> id -> lookup_id t' id' = lookup_id t id') /\
  (forall k, k <> key -> lookup_open t' k = lookup_open t k).
Proof.
  intros Hi Hseq. pose proof Hi as [Hw Hh Ho Hb Hs]. unfold open_incident, nextID.
  assert (u64 (it_seq t + 1) = it_seq t + 1) as -> by (unfold u64; apply wrap_id; unfold in_range; lia).
  cbn [it_window it_heap it_next it_open it_byID it_seq].
  set (id := incident_id ts (it_seq t + 1)). set (l := it_next t). set (inc := mkIncident id _ _ _ _ _ _ _ _ _).
  assert (it_byID t !! id = None) as Hfresh.
  { destruct (it_byID t !! id) as [l'|] eqn:E; [|done].
    destruct (Hb id l' E) as [_ (ts' & n & Eid & Hn)]. apply incident_id_inj in Eid; lia. }
  assert (forall l' inc', it_heap t !! l' = Some inc' -> l' <> l) as Hnl
    by (intros l' inc' E ->; apply Hh in E as [? _]; unfold l in *; lia).
  split_and!; try done; unfold lookup_id, lookup_open, deref; cbn [it_byID it_open it_heap].
  - split; cbn [it_window it_heap it_next it_open it_byID it_seq]; [done | | | | lia].
    + apply map_Forall_insert_2; [unfold l; split_and!; [lia | done | constructor]|].
      eapply map_Forall_impl; [exact Hh|]. cbn. intros l' i (? & ? & ?). split_and!; [unfold l in *; lia | done | done].
    + apply map_Forall_insert_2.
      * exists inc. rewrite lookup_insert_eq. split_and!; [done | by destruct key | by rewrite lookup_insert_eq].
      * eapply map_Forall_impl; [exact Ho|]. cbn. intros k l' (i & Hl' & ? & Hid).
        exists i. rewrite lookup_insert_ne by (intros E; by apply (Hnl _ _ Hl')).
        rewrite lookup_insert_ne by congruence. done.
    + apply map_Forall_insert_2.
      * split; [exists inc; by rewrite lookup_insert_eq|]. exists ts, (it_seq t + 1). split; [done | lia].
      * eapply map_Forall_impl; [exact Hb|]. cbn. intros id' l' [(i & Hl' & ?) (ts' & n & ? & ?)].
        split; [|exists ts', n; split; [done | lia]]. exists i.
        rewrite lookup_insert_ne by (intros E; by apply (Hnl _ _ Hl')). done.
  - by rewrite lookup_insert_eq.
  - by rewrite lookup_insert_eq.
  - by rewrite lookup_insert_eq.
  - by rewrite Hfresh.
  - intros id' Hne. rewrite lookup_insert_ne by congruence.
    destruct (it_byID t !! id') as [l'|] eqn:E; [|done]. cbn.
    destruct (Hb id' l' E) as [(i & Hl' & _) _].
    by rewrite lookup_insert_ne by (intros El; by apply (Hnl _ _ Hl')).
  - intros k Hne. rewrite lookup_insert_ne by congruence.
    destruct (it_open t !! k) as [l'|] eqn:E; [|done]. cbn.
    destruct (Ho k l' E) as (i & Hl' & _).
    by rewrite lookup_insert_ne by (intros El; by apply (Hnl _ _ Hl')).
Qed.

Lemma record_alert_id ts alert inc :
  in_ID (record_alert ts alert inc) = in_ID inc /\ key_of (record_alert ts alert inc) = key_of inc.
Proof. done. Qed.

(** The outcome of [Add] seen through both maps. *)
Lemma tracker_Add_spec alert now t :
  it_inv t -> it_seq t < 2 ^ 64 - 1 ->
  let key := mkIncidentKey (al_PID alert) (en_Namespace (al_Enrichment alert)) in
  let ts := alert_time alert now in
  let t' := Add alert now t in
  it_inv t' /\ it_window t' = it_window t /\
  exists id inc,
    match lookup_open t key with
    | Some o => if it_window t <? time_Sub ts (in_LastSeen o)
                then lookup_id t id = None /\ inc = fresh_incident id ts key
                else lookup_id t id = Some o /\ inc = o
    | None => lookup_id t id = None /\ inc = fresh_incident id ts key
    end /\
    lookup_id t' id = Some (record_alert ts alert inc) /\
    lookup_open t' key = Some (record_alert ts alert inc) /\
    (forall id', id' <> id -> lookup_id t' id' = lookup_id t id') /\
    (forall k, k <> key -> lookup_open t' k = lookup_open t k).
Proof.
  intros Hi Hseq key ts t'. unfold t', Add. fold key ts.
  assert (forall t1 l inc, it_inv t1 -> it_heap t1 !! l = Some inc -> it_byID t1 !! in_ID inc = Some l ->
    it_open t1 !! key_of inc = Some l ->
    it_inv (alter_heap (record_alert ts alert) l t1) /\
    (let t2 := alter_heap (record_alert ts alert) l t1 in
     lookup_id t2 (in_ID inc) = Some (record_alert ts alert inc) /\
     lookup_open t2 (key_of inc) = Some (record_alert ts alert inc) /\
     (forall id', id' <> in_ID inc -> lookup_id t2 id' = lookup_id t1 id') /\
     (forall k, k <> key_of inc -> lookup_open t2 k = lookup_open t1 k))) as Hupd.
  { intros t1 l inc H1 Hl Hb Ho. split; [|by apply alter_heap_views].
    apply alter_heap_inv; [done | intros; apply record_alert_id | intros; by apply record_alert_ok]. }
  pose proof (open_incident_spec key ts t Hi Hseq) as Hnew.
  assert (find_open key ts t = None -> match lookup_open t key with
    | Some o => (it_window t <? time_Sub ts (in_LastSeen o)) = true | None => True end) as Hfn.
  { unfold find_open, lookup_open, deref. destruct (it_open t !! key) as [l|]; [|done]. cbn.
    destruct (it_heap t !! l); [|done]. by destruct (it_window t <? _). }
  destruct (find_open key ts t) as [l|] eqn:Ef.
  - assert (exists inc, it_open t !! key = Some l /\ it_heap t !! l = Some inc /\
      (it_window t <? time_Sub ts (in_LastSeen inc)) = false) as (inc & Ho & Hl & Hw).
    { unfold find_open in Ef. destruct (it_open t !! key) as [l'|]; [|done].
      destruct (it_heap t !! l') as [inc|] eqn:Hl; [|done]. exists inc.
      destruct (it_window t <? _) eqn:?; [done|]. injection Ef as ->. done. }
    destruct (ii_open t Hi key l Ho) as (inc' & Hl' & Ek & Hb). rewrite Hl in Hl'. injection Hl' as <-.
    rewrite <- Ek in Ho. destruct (Hupd t l inc Hi Hl Hb Ho) as (H1 & H2 & H3 & H4 & H5).
    split_and!; [done | done |]. exists (in_ID inc), inc. rewrite Ek in *.
    unfold lookup_open at 1, deref. rewrite Ho. cbn. rewrite Hl. cbn. rewrite Hw.
    split_and!; try done. unfold lookup_id, deref. rewrite Hb. done.
  - specialize (Hfn eq_refl). destruct (open_incident key ts t) as [t1 l].
    destruct Hnew as (H1 & Hl & Hb & Ho & Hnone & Hw & _ & Hid & Hop).
    set (id := incident_id ts (it_seq t + 1)) in *.
    assert (key_of (fresh_incident id ts key) = key) as Ek by (by destruct key).
    destruct (Hupd t1 l (fresh_incident id ts key) H1 Hl Hb) as (G1 & G2 & G3 & G4 & G5); [by rewrite Ek|].
    rewrite Ek in *. cbn [in_ID fresh_incident] in *.
    split_and!; [done | done |]. exists id, (fresh_incident id ts key).
    split_and!; [| done | done | |].
    + destruct (lookup_open t key); [|done]. by rewrite Hfn.
    + intros id' Hne. rewrite G4 by done. by apply Hid.
    + intros k Hne. rewrite G5 by done. by apply Hop.
Qed.

Lemma Cleanup_spec now t :
  it_inv t ->
  it_inv (Cleanup now t) /\
  (forall id, lookup_id (Cleanup now t) id = match lookup_id t id with
    | Some inc => if incidentRetentionMultiplier * it_window t <? time_Sub now (in_LastSeen inc) then None else Some inc
    | None => None end) /\
  (forall k, lookup_open (Cleanup now t) k = match lookup_open t k with
    | Some inc => if it_window t <? time_Sub now (in_LastSeen inc) then None else Some inc
    | None => None end).
Proof.
  intros Hi. pose proof Hi as [Hw Hh Ho Hb Hs].
  assert (i64 (it_window t * incidentRetentionMultiplier) = incidentRetentionMultiplier * it_window t) as Er.
  { unfold i64, incidentRetentionMultiplier, max_duration in *.
    rewrite <- (signed_wrap 64 (5 * it_window t)) by lia. unfold signed, wrap.
    rewrite Z.mod_mod by lia. by rewrite (Z.mul_comm _ 5). }
  assert (forall {K} `{Countable K} (m : gmap K loc) d k, d = d ->
    (filter (fun p => older_than d now t p.2 = false) m !! k ≫= deref t)
    = match m !! k ≫= deref t with
      | Some inc => if d <? time_Sub now (in_LastSeen inc) then None else Some inc
      | None => None end) as Hf.
  { intros K ? ? m d k _. destruct (m !! k) as [l|] eqn:E; cbn.
    - destruct (deref t l) as [inc|] eqn:El.
      + destruct (d <? time_Sub now (in_LastSeen inc)) eqn:Ed.
        * rewrite (proj2 (map_lookup_filter_None _ _ _)); [done|]. right. intros l' Hl' Hold.
          rewrite E in Hl'. injection Hl' as <-. cbn in Hold. unfold older_than in Hold. rewrite El, Ed in Hold. done.
        * rewrite (proj2 (map_lookup_filter_Some _ _ _ l)); [done|]. split; [done|]. cbn. unfold older_than. by rewrite El.
      + destruct (filter _ m !! k) as [l'|] eqn:Ef; [|done].
        apply map_lookup_filter_Some in Ef as [Ef _]. rewrite E in Ef. injection Ef as <-. done.
    - rewrite (proj2 (map_lookup_filter_None _ _ _)); [done | by left]. }
  split_and!.
  - split; cbn [Cleanup it_window it_heap it_next it_open it_byID it_seq]; [done | done | | | done].
    + intros k l Hk. apply map_lookup_filter_Some in Hk as [Hk Hold]. cbn in Hold.
      destruct (Ho k l Hk) as (inc & Hl & Ek & Hid). exists inc. split_and!; [done | done |].
      apply map_lookup_filter_Some. split; [done|]. cbn. unfold older_than, deref in *. rewrite Hl in *.
      rewrite Er. apply Z.ltb_ge. zbool. unfold incidentRetentionMultiplier. lia.
    + intros id l Hid. apply map_lookup_filter_Some in Hid as [Hid _]. by apply Hb.
  - intros id. unfold lookup_id. cbn [Cleanup it_byID]. rewrite Er. by apply Hf.
  - intros k. unfold lookup_open. cbn [Cleanup it_open]. by apply Hf.
Qed.

(** Trackers reachable by fewer than 2^64 additions and any clean-ups. *)
Inductive it_reach (window : Z) : IncidentTracker -> Prop :=
| ir_new : it_reach window (newIncidentTracker window)
| ir_add t alert now :
    it_reach window t -> it_seq t < 2 ^ 64 - 1 -> it_reach window (Add alert now t)
| ir_cleanup t now : it_reach window t -> it_reach window (Cleanup now t).

Lemma it_reach_inv window t :
  incidentRetentionMultiplier * window <= max_duration -> it_reach window t -> it_inv t.
Proof.
  intros Hw. induction 1 as [|t alert now _ IH Hs|t now _ IH];
    [by apply new_tracker_inv | by apply tracker_Add_spec | by apply Cleanup_spec].
Qed.

(** Alerts are grouped as documented, and the two indexes stay in
    step although they share the records: in every reachable tracker, [Add]
    appends the alert to the open incident of its process and namespace when
    that incident's last alert is within the window, and otherwise to a new
    incident under an unused id; the incident is the same through both maps,
    its alert count is the number of its alert ids, its rule ids have no
    duplicates, and no other incident changes. *)
Theorem incident_add window t alert now :
  incidentRetentionMultiplier * window <= max_duration -> it_reach window t -> it_seq t < 2 ^ 64 - 1 ->
  let key := mkIncidentKey (al_PID alert) (en_Namespace (al_Enrichment alert)) in
  let ts := alert_time alert now in
  let t' := Add alert now t in
  exists id inc,
    match lookup_open t key with
    | Some o => if it_window t <? time_Sub ts (in_LastSeen o)
                then lookup_id t id = None /\ inc = fresh_incident id ts key
                else lookup_id t id = Some o /\ inc = o
    | None => lookup_id t id = None /\ inc = fresh_incident id ts key
    end /\
    lookup_id t' id = Some (record_alert ts alert inc) /\
    lookup_open t' key = Some (record_alert ts alert inc) /\
    (forall id', id' <> id -> lookup_id t' id' = lookup_id t id') /\
    (forall k, k <> key -> lookup_open t' k = lookup_open t k) /\
    (forall id' i, lookup_id t' id' = Some i ->
       in_ID i = id' /\ in_AlertCount i = Z.of_nat (length (in_AlertIDs i)) /\ NoDup (in_RuleIDs i)).
Proof.
  intros Hw Hr Hs key ts t'. pose proof (it_reach_inv window t Hw Hr) as Hi.
  destruct (tracker_Add_spec alert now t Hi Hs) as (Hi' & _ & id & inc & Hspec).
  fold key ts t' in Hspec. exists id, inc. destruct Hspec as (H1 & H2 & H3 & H4 & H5).
  split_and!; try done. intros id' i Hl. unfold lookup_id, deref in Hl.
  destruct (it_byID t' !! id') as [l|] eqn:E; [|done]. cbn in Hl.
  destruct (ii_byID _ Hi' _ _ E) as [(i' & Hl' & Eid) _]. fold t' in Hl'. rewrite Hl in Hl'. injection Hl' as <-.
  destruct (ii_heap _ Hi' _ _ Hl) as (_ & Hc & Hn). done.
Qed.

Definition demo_incident_alert (id rule sev : gostring) (ts : Z) : Alert :=
  mkAlert id ts rule "" sev 7 "sh" "" "" "" None empty_enrichment empty_event [] "" "" false [] 0 0 0 "".
Definition demo_tracker : IncidentTracker :=
  Add (demo_incident_alert "a1" "r1" "warning" (100 * Second)) 0 (newIncidentTracker (60 * Second)).

Lemma incident_add_witness :
  let t' := Add (demo_incident_alert "a2" "r2" "critical" (130 * Second)) 0 demo_tracker in
  exists id i, lookup_id t' id = Some i /\ in_AlertIDs i = ["a1"; "a2"]%string /\
    in_Severity i = SeverityCritical /\ in_RuleIDs i = ["r1"; "r2"]%string.
Proof.
  destruct (incident_add (60 * Second) demo_tracker (demo_incident_alert "a2" "r2" "critical" (130 * Second)) 0)
    as (id & inc & H1 & H2 & _).
  - vm_compute. congruence.
  - apply ir_add; [apply ir_new | vm_compute; reflexivity].
  - vm_compute. reflexivity.
  - vm_compute in H1. destruct H1 as [_ ->]. eexists id, _. split; [exact H2|].
    split_and!; vm_compute; reflexivity.
Defined.

(** Clean-up closes and forgets by age only: it removes from the
    open map exactly the incidents whose last alert is older than the window,
    and from the id map exactly those older than five windows; every open
    incident stays retrievable by its id, so a later alert can never extend an
    incident that is no longer listed. *)
Theorem incident_cleanup window t now :
  incidentRetentionMultiplier * window <= max_duration -> it_reach window t ->
  let t' := Cleanup now t in
  (forall id, lookup_id t' id = match lookup_id t id with
    | Some inc => if incidentRetentionMultiplier * it_window t <? time_Sub now (in_LastSeen inc) then None else Some inc
    | None => None end) /\
  (forall k, lookup_open t' k = match lookup_open t k with
    | Some inc => if it_window t <? time_Sub now (in_LastSeen inc) then None else Some inc
    | None => None end) /\
  (forall k inc, lookup_open t' k = Some inc -> key_of inc = k /\ lookup_id t' (in_ID inc) = Some inc).
Proof.
  intros Hw Hr t'. pose proof (it_reach_inv window t Hw Hr) as Hi.
  destruct (Cleanup_spec now t Hi) as (Hi' & Hid & Ho). split_and!; [done | done |].
  intros k inc Hl. unfold lookup_open, deref in Hl. destruct (it_open t' !! k) as [l|] eqn:E; [|done].
  change (it_heap t' !! l = Some inc) in Hl. destruct (ii_open _ Hi' _ _ E) as (inc' & Hl' & Ek & Hb). fold t' in Hl', Hb.
  rewrite Hl in Hl'. injection Hl' as <-. split; [done|]. unfold lookup_id, deref. by rewrite Hb.
Qed.

Lemma incident_cleanup_witness :
  lookup_open (Cleanup (170 * Second) demo_tracker) (mkIncidentKey 7 "") = None /\
  exists i, lookup_id (Cleanup (170 * Second) demo_tracker) "inc-100000-1" = Some i.
Proof.
  destruct (incident_cleanup (60 * Second) demo_tracker (170 * Second)) as (Hid & Ho & _).
  - vm_compute. congruence.
  - apply ir_add; [apply ir_new | vm_compute; reflexivity].
  - split; [rewrite Ho; vm_compute; reflexivity|]. rewrite Hid. eexists. vm_compute. reflexivity.
Defined.
