(* ===== verification/Delivery.v ===== *)
(** * Alert delivery: circuit breaker, fallback queue, silences

    Models src/internal/exporter/alertmanager_circuit.go ([CircuitBreaker],
    [FallbackQueue]) and src/internal/exporter/silencer.go ([AlertSilencer]).
    Prometheus gauges are left out except the counter of dropped alerts. State
    transitions run under the breaker's mutex, so a run is a sequence of
    calls. *)
From S2P Require Import Prelude GoRing Types.

(** ** CircuitBreaker *)
Module Circuit.
Inductive cbState := cbStateClosed | cbStateOpen | cbStateHalfOpen.
#[export] Instance cbState_eq_dec : EqDecision cbState.
Proof. solve_decision. Defined.

Record CircuitBreaker := mkCB {
  cb_state : cbState; cb_failCount : Z; cb_threshold : Z; cb_resetTimeout : Z; cb_openedAt : Z }.

Definition newCircuitBreaker (threshold resetTimeout : Z) : CircuitBreaker :=
  let threshold := if threshold <=? 0 then 5 else threshold in
  let resetTimeout := if resetTimeout <=? 0 then 30 * Second else resetTimeout in
  mkCB cbStateClosed 0 (i32 threshold) resetTimeout 0.

Definition set_state (cb : CircuitBreaker) (s : cbState) (fails openedAt : Z) : CircuitBreaker :=
  mkCB s fails (cb_threshold cb) (cb_resetTimeout cb) openedAt.

Definition TryRecover (now : Z) (cb : CircuitBreaker) : CircuitBreaker :=
  if negb (bool_decide (cb_state cb = cbStateOpen)) then cb else
  if time_Sub now (cb_openedAt cb) <? cb_resetTimeout cb then cb
  else set_state cb cbStateHalfOpen (cb_failCount cb) (cb_openedAt cb).

Definition Allow (cb : CircuitBreaker) : bool := negb (bool_decide (cb_state cb = cbStateOpen)).

Definition RecordSuccess (cb : CircuitBreaker) : CircuitBreaker * bool :=
  match cb_state cb with
  | cbStateHalfOpen => (set_state cb cbStateClosed 0 0, true)
  | s => (set_state cb s 0 (cb_openedAt cb), false)
  end.

Definition RecordFailure (now : Z) (cb : CircuitBreaker) : CircuitBreaker :=
  let newCount := i32 (cb_failCount cb + 1) in
  match cb_state cb with
  | cbStateHalfOpen => set_state cb cbStateOpen 0 now
  | cbStateClosed =>
      if cb_threshold cb <=? newCount then set_state cb cbStateOpen newCount now
      else set_state cb cbStateClosed newCount (cb_openedAt cb)
  | cbStateOpen => set_state cb cbStateOpen newCount (cb_openedAt cb)
  end.

Inductive cb_op := CbTry (now : Z) | CbSuccess | CbFailure (now : Z).

Definition cb_step (o : cb_op) (cb : CircuitBreaker) : CircuitBreaker :=
  match o with
  | CbTry now => TryRecover now cb
  | CbSuccess => (RecordSuccess cb).1
  | CbFailure now => RecordFailure now cb
  end.

Definition cb_run (ops : list cb_op) (cb : CircuitBreaker) : CircuitBreaker :=
  fold_left (fun cb o => cb_step o cb) ops cb.

(** *** Specification

    The documented machine: a closed breaker knows the failures since the last
    success, an open one when it opened. *)
Inductive breaker :=
| Closed (failures : Z)
| Open (since : Z)
| HalfOpen.

Definition breaker_step (threshold reset : Z) (o : cb_op) (b : breaker) : breaker :=
  match b, o with
  | Closed f, CbFailure now => if threshold <=? f + 1 then Open now else Closed (f + 1)
  | Closed f, CbSuccess => Closed 0
  | Closed f, CbTry _ => Closed f
  | Open t, CbTry now => if now - t <? reset then Open t else HalfOpen
  | Open t, _ => Open t
  | HalfOpen, CbSuccess => Closed 0
  | HalfOpen, CbFailure now => Open now
  | HalfOpen, CbTry _ => HalfOpen
  end.

Definition breaker_run (threshold reset : Z) (ops : list cb_op) (b : breaker) : breaker :=
  fold_left (fun b o => breaker_step threshold reset o b) ops b.

(** The code's breaker represents the abstract one. *)
Definition cb_rel (threshold reset : Z) (cb : CircuitBreaker) (b : breaker) : Prop :=
  cb_threshold cb = threshold /\ cb_resetTimeout cb = reset /\
  match b with
  | Closed f => cb_state cb = cbStateClosed /\ cb_failCount cb = f /\ 0 <= f < threshold
  | Open t => cb_state cb = cbStateOpen /\ cb_openedAt cb = t
  | HalfOpen => cb_state cb = cbStateHalfOpen
  end.

Lemma i32_small z : 0 <= z < 2 ^ 31 -> i32 z = z.
Proof.
  intros. unfold i32. rewrite <- (signed_wrap 32 z) at 2 by lia. unfold signed, wrap.
  by rewrite Z.mod_mod by lia.
Qed.

#[local] Ltac rel_solve := unfold cb_rel; cbn; split_and!; first [done | lia].

Lemma cb_step_rel threshold reset o cb b :
  0 < threshold < 2 ^ 31 -> 0 < reset <= max_duration ->
  cb_rel threshold reset cb b -> cb_rel threshold reset (cb_step o cb) (breaker_step threshold reset o b).
Proof.
  intros Ht Hr (Eth & Ers & Hb).
  assert (forall a c, (time_Sub a c <? reset) = (a - c <? reset)) as Hsub
    by (intros; apply time_Sub_lt; unfold is_duration, min_duration, max_duration in *; lia).
  destruct o as [now| |now], b as [f|t|]; cbn [cb_step breaker_step];
    unfold TryRecover, RecordSuccess, RecordFailure.
  - destruct Hb as (Es & Ef & Hf). rewrite Es, bool_decide_false by done. rel_solve.
  - destruct Hb as (Es & Eo). rewrite Es, bool_decide_true by done. cbn [negb].
    rewrite Ers, Eo, Hsub. destruct (now - t <? reset); rel_solve.
  - rewrite Hb, bool_decide_false by done. rel_solve.
  - destruct Hb as (Es & Ef & Hf). rewrite Es. cbn. rel_solve.
  - destruct Hb as (Es & Eo). rewrite Es. rel_solve.
  - rewrite Hb. cbn. rel_solve.
  - destruct Hb as (Es & Ef & Hf). rewrite Es, Ef, Eth, i32_small by lia.
    destruct (threshold <=? f + 1) eqn:E; zbool; rel_solve.
  - destruct Hb as (Es & Eo). rewrite Es. rel_solve.
  - rewrite Hb. rel_solve.
Qed.

Lemma cb_run_rel threshold reset ops cb b :
  0 < threshold < 2 ^ 31 -> 0 < reset <= max_duration -> cb_rel threshold reset cb b ->
  cb_rel threshold reset (cb_run ops cb) (breaker_run threshold reset ops b).
Proof.
  intros Ht Hr. revert cb b. induction ops as [|o ops IH]; intros cb b Hb; [done|].
  apply IH. by apply cb_step_rel.
Qed.


End Circuit.

(** ** FallbackQueue *)
Module Fallback.
Section queue.
(** The element type stands for [types.AlertPayload]: no operation looks
    into it. *)
Context {P : Type}.

Record FallbackQueue := mkQueue { q_items : list P; q_maxSize : Z; q_dropped : Z }.

Definition newFallbackQueue (maxSize : Z) : FallbackQueue :=
  mkQueue [] (if maxSize <=? 0 then 10000 else maxSize) 0.

Definition Enqueue (payload : P) (q : FallbackQueue) : result Empty_set FallbackQueue :=
  '(items, dropped) ←
    (if q_maxSize q <=? Z.of_nat (length (q_items q)) then
       items ← list_range (q_items q) 1 (Z.of_nat (length (q_items q)));
       Ok (items, q_dropped q + 1)
     else Ok (q_items q, q_dropped q));
  Ok (mkQueue (items ++ [payload]) (q_maxSize q) dropped).

Definition DrainAll (q : FallbackQueue) : FallbackQueue * list P :=
  if Z.of_nat (length (q_items q)) =? 0 then (q, [])
  else (mkQueue [] (q_maxSize q) (q_dropped q), q_items q).

Definition Len (q : FallbackQueue) : Z := Z.of_nat (length (q_items q)).

Fixpoint enqueue_all (l : list P) (q : FallbackQueue) : result Empty_set FallbackQueue :=
  match l with
  | [] => Ok q
  | p :: l => q ← Enqueue p q; enqueue_all l q
  end.

Lemma Enqueue_spec p q :
  0 < q_maxSize q -> Z.of_nat (length (q_items q)) <= q_maxSize q ->
  Enqueue p q = Ok (mkQueue (lastn (Z.to_nat (q_maxSize q)) (q_items q ++ [p])) (q_maxSize q)
    (q_dropped q + if q_maxSize q <=? Z.of_nat (length (q_items q)) then 1 else 0)).
Proof.
  intros Hm Hl. unfold Enqueue. destruct (q_maxSize q <=? _) eqn:E; zbool; cbn [mbind result_bind].
  - rewrite list_range_ok by lia. cbn [mbind result_bind].
    rewrite lastn_snoc_full, (lastn_all _ (q_items q)) by lia.
    rewrite take_ge by (rewrite length_drop; lia). done.
  - rewrite Z.add_0_r, lastn_all; [done|]. rewrite length_app. cbn [length]. lia.
Qed.

Lemma enqueue_all_spec l q :
  0 < q_maxSize q -> Z.of_nat (length (q_items q)) <= q_maxSize q ->
  enqueue_all l q = Ok (mkQueue (lastn (Z.to_nat (q_maxSize q)) (q_items q ++ l)) (q_maxSize q)
    (q_dropped q + Z.max 0 (Z.of_nat (length (q_items q) + length l) - q_maxSize q))).
Proof.
  revert q. induction l as [|p l IH]; intros q Hm Hl; cbn [enqueue_all].
  - rewrite app_nil_r, lastn_all by lia. destruct q. cbn [q_items q_maxSize q_dropped length] in *.
    do 2 f_equal. lia.
  - rewrite Enqueue_spec by done. cbn [mbind result_bind]. rewrite IH; cbn [q_items q_maxSize q_dropped].
    + rewrite length_lastn, length_app. cbn [length]. do 2 f_equal.
      * unfold lastn at 2. rewrite length_app. cbn [length].
        destruct (decide (length (q_items q) + 1 <= Z.to_nat (q_maxSize q))%nat).
        -- replace (length (q_items q) + 1 - Z.to_nat (q_maxSize q))%nat with 0%nat by lia.
           rewrite drop_0. by rewrite <- app_assoc.
        -- replace (length (q_items q) + 1 - Z.to_nat (q_maxSize q))%nat with 1%nat by lia.
           destruct (q_items q) as [|x l0]; [cbn [length] in *; lia|]. cbn [app drop]. rewrite drop_0.
           unfold lastn. rewrite <- app_assoc. cbn [app]. rewrite !length_app. cbn [length].
           rewrite !length_app. cbn [length] in *.
           replace (S (length l0 + S (length l)) - Z.to_nat (q_maxSize q))%nat
             with (S (length l0 + S (length l) - Z.to_nat (q_maxSize q)))%nat by lia. done.
      * destruct (q_maxSize q <=? _) eqn:E; zbool; lia.
    + done.
    + rewrite length_lastn. lia.
Qed.
End queue.
Arguments FallbackQueue : clear implicits.

(** The fallback queue is a bounded FIFO that drops the oldest:
    after any sequence of enqueues it holds the last [maxSize] payloads in
    order, it has counted one drop per payload that is missing, and draining
    returns the payloads oldest first and leaves it empty. *)
Theorem fallback_queue_fifo {P} (maxSize : Z) (l : list P) :
  0 < maxSize ->
  exists q, enqueue_all l (newFallbackQueue maxSize) = Ok q /\
    Len q <= maxSize /\
    q_dropped q = Z.max 0 (Z.of_nat (length l) - maxSize) /\
    (DrainAll q).2 = lastn (Z.to_nat maxSize) l /\ Len (DrainAll q).1 = 0.
Proof.
  intros Hm. unfold newFallbackQueue. rewrite (proj2 (Z.leb_gt maxSize 0)) by lia.
  rewrite enqueue_all_spec by (cbn; lia). cbn [q_items q_maxSize q_dropped app length Nat.add].
  eexists. split; [done|]. unfold Len, DrainAll. cbn [q_items q_maxSize q_dropped]. split_and!.
  - rewrite length_lastn. lia.
  - lia.
  - destruct (_ =? 0) eqn:E; [|done]. zbool. by destruct (lastn (Z.to_nat maxSize) l); [|cbn in E; lia].
  - destruct (_ =? 0) eqn:E; zbool; done.
Qed.

Lemma fallback_queue_fifo_witness :
  exists q, enqueue_all [1; 2; 3; 4; 5] (newFallbackQueue 3) = Ok q /\
    q_dropped q = 2 /\ (DrainAll q).2 = [3; 4; 5].
Proof.
  destruct (fallback_queue_fifo 3 [1; 2; 3; 4; 5] ltac:(lia)) as (q & E & _ & Hd & Hi & _).
  exists q. split; [exact E|]. split; [exact Hd | exact Hi].
Defined.
End Fallback.

(** ** AlertSilencer *)
Module Silencer.
Record silenceWindow := mkWindow { sw_until : Z; sw_reason : gostring }.
Abbreviation AlertSilencer := (gmap gostring silenceWindow).

Definition NewAlertSilencer : AlertSilencer := ∅.

Definition Silence (key : gostring) (duration : Z) (reason : gostring) (now : Z) (s : AlertSilencer) :
  AlertSilencer := <[key := mkWindow (time_Add now duration) reason]> s.

Definition makeKey (alert : Alert) : gostring := (al_RuleID alert +:+ ":" +:+ al_Severity alert)%string.

Definition IsSilenced (alert : Alert) (now : Z) (s : AlertSilencer) : AlertSilencer * bool :=
  match s !! makeKey alert with
  | None => (s, false)
  | Some w => if time_After now (sw_until w) then (delete (makeKey alert) s, false) else (s, true)
  end.

Definition RemoveSilence (key : gostring) (s : AlertSilencer) : AlertSilencer := delete key s.

Definition Cleanup (now : Z) (s : AlertSilencer) : AlertSilencer * Z :=
  let gone : AlertSilencer := filter (fun p => time_After now (sw_until p.2) = true) s in
  (filter (fun p => ~ time_After now (sw_until p.2) = true) s, Z.of_nat (size gone)).

(** Whether a key is silenced at an instant. *)
Definition silenced (s : AlertSilencer) (key : gostring) (t : Z) : bool :=
  match s !! key with Some w => t <=? sw_until w | None => false end.

(** Silences last as long as requested, and expiry is invisible:
    a silence of a key holds from its creation to its end and overrides an
    earlier one; the answer of [IsSilenced] is the one of the recorded
    window, and neither its lazy deletion nor a [Cleanup] changes any answer
    from that instant on. *)
Theorem silence_windows (s : AlertSilencer) key duration reason (now : Z) alert :
  (forall t, silenced (Silence key duration reason now s) key t = (t <=? now + duration)) /\
  (forall k t, k <> key -> silenced (Silence key duration reason now s) k t = silenced s k t) /\
  (IsSilenced alert now s).2 = silenced s (makeKey alert) now /\
  (forall k t, now <= t -> silenced (IsSilenced alert now s).1 k t = silenced s k t) /\
  (forall k t, now <= t -> silenced (Cleanup now s).1 k t = silenced s k t) /\
  (Cleanup now s).2 = Z.of_nat (size s) - Z.of_nat (size (Cleanup now s).1).
Proof.
  unfold silenced, Silence, IsSilenced, Cleanup, time_Add, time_After. split_and!.
  - intros t. by rewrite lookup_insert_eq.
  - intros k t Hne. by rewrite lookup_insert_ne.
  - destruct (s !! makeKey alert) as [w|]; [|done].
    destruct (sw_until w <? now) eqn:E; zbool; cbn; symmetry; [apply Z.leb_gt | apply Z.leb_le]; lia.
  - intros k t Ht. destruct (s !! makeKey alert) as [w|] eqn:Ew; [|done].
    destruct (sw_until w <? now) eqn:E; zbool; cbn [fst]; [|done].
    destruct (decide (k = makeKey alert)) as [->|Hne]; [|by rewrite lookup_delete_ne].
    rewrite lookup_delete_eq, Ew. symmetry. apply Z.leb_gt. lia.
  - intros k t Ht. cbn [fst]. rewrite map_lookup_filter. destruct (s !! k) as [w|]; [|done]. cbn.
    destruct (sw_until w <? now) eqn:E; [rewrite option_guard_False by auto | by rewrite option_guard_True].
    zbool. symmetry. apply Z.leb_gt. lia.
  - cbn [fst snd].
    assert (size s = Nat.add (size (filter (fun p : gostring * silenceWindow => (sw_until p.2 <? now) = true) s))
      (size (filter (fun p : gostring * silenceWindow => ~ (sw_until p.2 <? now) = true) s))) as E.
    { rewrite <- map_size_disj_union by apply map_disjoint_filter_complement.
      by rewrite map_filter_union_complement. }
    lia.
Qed.
End Silencer.
