(* ===== verification/MemStore.v ===== *)
(** * The in-memory alert store

    Models src/internal/store/memory.go (the [MemoryStore] of the
    [AlertStore] interface) and [QueryFilters] of src/internal/store/store.go.
    The store keeps the alerts by id, an index of all entries sorted newest
    first, one such index per severity, and an atomic count. [sort.Search] is
    the binary search of the standard library; [sort.Slice] is not stable, so
    it is a parameter of which only the documented contract is assumed. The
    pool that recycles result slices is not modelled. *)
From Stdlib Require Import Sorting.Sorted.
From stdpp Require Import pretty sorting.
From S2P Require Import Prelude GoRing Types.

Abbreviation go A := (result Empty_set A).

(** ** Data *)
Record byTimeEntry := mkEntry {
  te_id : gostring; te_ts : Z; te_severity : Severity; te_namespace : gostring }.
#[export] Instance byTimeEntry_eq_dec : EqDecision byTimeEntry.
Proof. solve_decision. Defined.

Record MemoryStore := mkStore {
  ms_count : Z;
  ms_alerts : gmap gostring Alert;
  ms_byTime : list byTimeEntry;
  ms_bySev : gmap Severity (list byTimeEntry);
  ms_seq : Z;
  ms_MaxAlerts : Z }.

Definition newMemoryStore (maxAlerts : Z) : MemoryStore := mkStore 0 ∅ [] ∅ 0 maxAlerts.

Record QueryFilters := mkFilters {
  qf_Since : Z; qf_Until : Z; qf_PIDs : list Z; qf_Severity : list Severity;
  qf_RuleIDs : list gostring; qf_Comm : gostring; qf_PodName : gostring;
  qf_Namespace : gostring; qf_Namespaces : list gostring; qf_Limit : Z; qf_Offset : Z }.

Definition bucket (s : MemoryStore) (sev : Severity) : list byTimeEntry := default [] (ms_bySev s !! sev).

(** ** sort.Search

    The binary search of package sort for the first index of [[0, n)] where
    [f] holds, on an interval shorter than [fuel]. *)
Fixpoint search_loop (fuel : nat) (f : nat -> bool) (i j : nat) : nat :=
  match fuel with
  | O => i
  | S fuel =>
      if bool_decide (i < j)%nat then
        let h := ((i + j) / 2)%nat in
        if f h then search_loop fuel f i h else search_loop fuel f (S h) j
      else i
  end.
Definition sort_Search (n : nat) (f : nat -> bool) : nat := search_loop (S n) f 0 n.

(** Searching an index with a predicate on its entries. *)
Definition search_entries (l : list byTimeEntry) (p : byTimeEntry -> bool) : nat :=
  sort_Search (length l) (fun i => match l !! i with Some e => p e | None => false end).

(** ** Writing *)

(** [append], [copy] one up and assignment: insertion at [pos]. *)
Definition insert_at (pos : nat) (e : byTimeEntry) (l : list byTimeEntry) : list byTimeEntry :=
  take pos l ++ e :: drop pos l.

Definition insert_by_ts (e : byTimeEntry) (l : list byTimeEntry) : list byTimeEntry :=
  insert_at (search_entries l (fun x => time_Before (te_ts x) (te_ts e))) e l.

Definition insertSorted (id : gostring) (ts : Z) (sev : Severity) (ns : gostring) (s : MemoryStore) :
  MemoryStore :=
  let e := mkEntry id ts sev ns in
  mkStore (ms_count s) (ms_alerts s) (insert_by_ts e (ms_byTime s))
    (<[sev := insert_by_ts e (bucket s sev)]> (ms_bySev s)) (ms_seq s) (ms_MaxAlerts s).

(** Removing the first entry with [id]. *)
Fixpoint remove_id (id : gostring) (l : list byTimeEntry) : list byTimeEntry :=
  match l with
  | [] => []
  | e :: l => if decide (te_id e = id) then l else e :: remove_id id l
  end.

(** The bucket is written back only when the id was found in it. *)
Definition removeFromIndexes (id : gostring) (sev : Severity) (s : MemoryStore) : MemoryStore :=
  mkStore (ms_count s) (ms_alerts s) (remove_id id (ms_byTime s))
    (if existsb (fun e => bool_decide (te_id e = id)) (bucket s sev)
     then <[sev := remove_id id (bucket s sev)]> (ms_bySev s) else ms_bySev s)
    (ms_seq s) (ms_MaxAlerts s).

(** Rebuilding the severity index from [byTime]. *)
Definition rebuild_bySev (byTime : list byTimeEntry) (m : gmap Severity (list byTimeEntry)) :
  gmap Severity (list byTimeEntry) :=
  fold_left (fun m e => <[te_severity e := default [] (m !! te_severity e) ++ [e]]> m)
    byTime ((fun _ => []) <$> m).

Definition evictOldestLocked (s : MemoryStore) : go MemoryStore :=
  let max := ms_MaxAlerts s in
  let n := Z.of_nat (size (ms_alerts s)) in
  if (max <=? 0) || (n <=? max) then Ok s else
  let excess := n - max in
  let len := Z.of_nat (length (ms_byTime s)) in
  tail ← list_range (ms_byTime s) (len - excess) len;
  kept ← list_range (ms_byTime s) 0 (len - excess);
  Ok (mkStore (ms_count s - excess) (foldr (fun e m => delete (te_id e) m) (ms_alerts s) tail) kept
        (rebuild_bySev kept (ms_bySev s)) (ms_seq s) (ms_MaxAlerts s)).

Definition set_id_ts (a : Alert) (id : gostring) (ts : Z) : Alert :=
  mkAlert id ts (al_RuleID a) (al_RuleName a) (al_Severity a) (al_PID a)
    (al_Comm a) (al_Message a) (al_TraceID a) (al_SpanID a) (al_TraceContext a) (al_Enrichment a)
    (al_Event a) (al_ProcessTree a) (al_Fingerprint a) (al_Action a) (al_Enforced a)
    (al_PreAlertContext a) (al_Count a) (al_FirstSeen a) (al_LastSeen a) (al_Class a).

(** The defaults [Store] fills in: a generated id, the current time. *)
Definition prepare (now : Z) (alert : Alert) (seq : Z) : Z * Alert :=
  let '(seq, id) := if decide (al_ID alert = ""%string)
    then (seq + 1, ("mem-" +:+ pretty (seq + 1))%string) else (seq, al_ID alert) in
  (seq, set_id_ts alert id (if time_IsZero (al_Timestamp alert) then now else al_Timestamp alert)).

Definition entry_of (a : Alert) : byTimeEntry :=
  mkEntry (al_ID a) (al_Timestamp a) (al_Severity a) (en_Namespace (al_Enrichment a)).

Definition set_seq (s : MemoryStore) (seq : Z) : MemoryStore :=
  mkStore (ms_count s) (ms_alerts s) (ms_byTime s) (ms_bySev s) seq (ms_MaxAlerts s).

(** Dropping the old index entries of an update, or counting a new alert. *)
Definition unindex (a : Alert) (s : MemoryStore) : MemoryStore :=
  match ms_alerts s !! al_ID a with
  | Some old => removeFromIndexes (al_ID a) (al_Severity old) s
  | None => mkStore (ms_count s + 1) (ms_alerts s) (ms_byTime s) (ms_bySev s) (ms_seq s) (ms_MaxAlerts s)
  end.

Definition put_alert (a : Alert) (s : MemoryStore) : MemoryStore :=
  mkStore (ms_count s) (<[al_ID a := a]> (ms_alerts s)) (ms_byTime s) (ms_bySev s) (ms_seq s) (ms_MaxAlerts s).

Definition Store (alert : Alert) (now : Z) (s : MemoryStore) : go MemoryStore :=
  let '(seq, a) := prepare now alert (ms_seq s) in
  let s := put_alert a (unindex a (set_seq s seq)) in
  let s := insertSorted (al_ID a) (al_Timestamp a) (al_Severity a) (en_Namespace (al_Enrichment a)) s in
  evictOldestLocked s.

(** One alert of [StoreBatch]: appended to the indexes, sorted later. *)
Definition batch_one (now : Z) (s : MemoryStore) (alert : Alert) : MemoryStore :=
  let '(seq, a) := prepare now alert (ms_seq s) in
  let s := put_alert a (unindex a (set_seq s seq)) in
  let e := entry_of a in
  mkStore (ms_count s) (ms_alerts s) (ms_byTime s ++ [e])
    (<[al_Severity a := bucket s (al_Severity a) ++ [e]]> (ms_bySev s)) (ms_seq s) (ms_MaxAlerts s).

Section store.
(** [sort.Slice] with the order of the indexes, and the lower-casing of the
    standard library. *)
Context (sort_Slice : list byTimeEntry -> list byTimeEntry) (ToLower : gostring -> gostring).

Definition StoreBatch (alerts : list Alert) (now : Z) (s : MemoryStore) : go MemoryStore :=
  if Z.of_nat (length alerts) =? 0 then Ok s else
  let s := fold_left (batch_one now) alerts s in
  evictOldestLocked (mkStore (ms_count s) (ms_alerts s) (sort_Slice (ms_byTime s))
    (sort_Slice <$> ms_bySev s) (ms_seq s) (ms_MaxAlerts s)).

Definition Delete (olderThan now : Z) (s : MemoryStore) : go (MemoryStore * Z) :=
  let cutoff := time_Add now (neg_duration olderThan) in
  let idx := search_entries (ms_byTime s) (fun e => time_Before (te_ts e) cutoff) in
  let gone := drop idx (ms_byTime s) in
  let kept := take idx (ms_byTime s) in
  let deleted := Z.of_nat (length gone) in
  Ok (mkStore (ms_count s - deleted) (foldr (fun e m => delete (te_id e) m) (ms_alerts s) gone) kept
        (rebuild_bySev kept (ms_bySev s)) (ms_seq s) (ms_MaxAlerts s), deleted).

(** ** Reading *)
Fixpoint has_prefix (p s : gostring) : bool :=
  match p, s with
  | EmptyString, _ => true
  | String a p, String b s => bool_decide (a = b) && has_prefix p s
  | _, EmptyString => false
  end.
(** [strings.Contains(s, sub)] *)
Fixpoint contains (s sub : gostring) : bool :=
  has_prefix sub s || match s with EmptyString => false | String _ s => contains s sub end.

(** An empty list is no constraint; otherwise [x] must be in it. *)
Definition in_list {A} `{EqDecision A} (l : list A) (x : A) : bool :=
  match l with [] => true | _ => existsb (fun y => bool_decide (x = y)) l end.

Definition namespace_ok (f : QueryFilters) (ns : gostring) : bool :=
  match qf_Namespaces f with
  | [] => bool_decide (qf_Namespace f = ""%string) || bool_decide (ns = qf_Namespace f)
  | l => existsb (fun y => bool_decide (ns = y)) l
  end.

Definition matchesFilters (alert : Alert) (f : QueryFilters) : bool :=
  negb (negb (time_IsZero (qf_Since f)) && time_Before (al_Timestamp alert) (qf_Since f)) &&
  negb (negb (time_IsZero (qf_Until f)) && time_After (al_Timestamp alert) (qf_Until f)) &&
  in_list (qf_PIDs f) (al_PID alert) &&
  in_list (qf_Severity f) (al_Severity alert) &&
  in_list (qf_RuleIDs f) (al_RuleID alert) &&
  negb (negb (bool_decide (qf_Comm f = ""%string)) &&
        negb (contains (ToLower (al_Comm alert)) (ToLower (qf_Comm f)))) &&
  negb (negb (bool_decide (qf_PodName f = ""%string)) &&
        negb (bool_decide (en_PodName (al_Enrichment alert) = qf_PodName f))) &&
  namespace_ok f (en_Namespace (al_Enrichment alert)).

(** The scan of an index slice with a pre-filter on the cached fields. *)
Fixpoint query_loop (s : MemoryStore) (f : QueryFilters) (pre : byTimeEntry -> bool)
    (l : list byTimeEntry) (skipped : Z) (results : list Alert) : list Alert :=
  match l with
  | [] => results
  | e :: l =>
      if negb (pre e) then query_loop s f pre l skipped results else
      let alert := default empty_alert (ms_alerts s !! te_id e) in
      if negb (matchesFilters alert f) then query_loop s f pre l skipped results else
      if skipped <? qf_Offset f then query_loop s f pre l (skipped + 1) results else
      let results := results ++ [alert] in
      if (0 <? qf_Limit f) && (qf_Limit f <=? Z.of_nat (length results)) then results
      else query_loop s f pre l skipped results
  end.

(** The part of [byTime] inside the time filters. *)
Definition time_window (s : MemoryStore) (f : QueryFilters) : list byTimeEntry :=
  let start := if negb (time_IsZero (qf_Until f))
    then search_entries (ms_byTime s) (fun e => negb (time_After (te_ts e) (qf_Until f))) else 0%nat in
  let stop := if negb (time_IsZero (qf_Since f))
    then search_entries (ms_byTime s) (fun e => time_Before (te_ts e) (qf_Since f))
    else length (ms_byTime s) in
  take (stop - start) (drop start (ms_byTime s)).

Definition pre_ns (f : QueryFilters) (e : byTimeEntry) : bool := namespace_ok f (te_namespace e).
Definition pre_std (f : QueryFilters) (e : byTimeEntry) : bool :=
  in_list (qf_Severity f) (te_severity e) && pre_ns f e.

Definition fast_path (f : QueryFilters) : option Severity :=
  if time_IsZero (qf_Since f) && time_IsZero (qf_Until f) then
    match qf_Severity f with [sev] => Some sev | _ => None end
  else None.

Definition Query (s : MemoryStore) (f : QueryFilters) : list Alert :=
  match fast_path f with
  | Some sev => query_loop s f (pre_ns f) (bucket s sev) 0 []
  | None => query_loop s f (pre_std f) (time_window s f) 0 []
  end.

Definition QueryByID (s : MemoryStore) (id : gostring) : option Alert := ms_alerts s !! id.
Definition Count (s : MemoryStore) : Z := ms_count s.
End store.

(** ** Binary search *)

Lemma search_loop_spec fuel f i j n :
  (i <= j <= n)%nat -> (j - i < fuel)%nat ->
  (forall a b, (a <= b < n)%nat -> f a = true -> f b = true) ->
  (forall a, (a < i)%nat -> f a = false) -> (forall a, (j <= a < n)%nat -> f a = true) ->
  let k := search_loop fuel f i j in
  (k <= n)%nat /\ (forall a, (a < k)%nat -> f a = false) /\ (forall a, (k <= a < n)%nat -> f a = true).
Proof.
  intros Hij Hf Hmono. revert i j Hij Hf. induction fuel as [|fuel IH]; intros i j Hij Hf Hlo Hhi;
    cbn [search_loop]; [lia|].
  case_bool_decide as Hlt.
  - set (h := ((i + j) / 2)%nat).
    assert (i <= h < j)%nat as Hh.
    { unfold h. split; [apply Nat.div_le_lower_bound; lia | apply Nat.Div0.div_lt_upper_bound; lia]. }
    destruct (f h) eqn:Eh; apply IH; try lia; try done.
    + intros a Ha. destruct (decide (a < j)%nat); [|apply Hhi; lia]. apply (Hmono h); [lia | done].
    + intros a Ha. destruct (f a) eqn:Ea; [|done].
      assert (f h = true) by (apply (Hmono a); [lia | done]). congruence.
  - assert (i = j) as -> by lia. cbv zeta. split_and!; [lia | done | done].
Qed.

(** The order of the indexes: newest first. *)
Definition newer (e1 e2 : byTimeEntry) : Prop := te_ts e2 <= te_ts e1.

Lemma sorted_lookup l i j a b :
  StronglySorted newer l -> l !! i = Some a -> l !! j = Some b -> (i <= j)%nat -> te_ts b <= te_ts a.
Proof.
  intros Hs. revert i j. induction Hs as [|x l Hs IH Hf]; intros [|i] [|j] Ha Hb Hij; try done; cbn in *;
    simplify_eq; [lia | | lia |].
  - rewrite Forall_forall in Hf. apply Hf. by eapply list_elem_of_lookup_2.
  - eapply IH; [done | done | lia].
Qed.

(** Searching a sorted index with a predicate that old entries satisfy cuts
    it in two. *)
Lemma search_entries_spec l p :
  StronglySorted newer l -> (forall a b, te_ts b <= te_ts a -> p a = true -> p b = true) ->
  take (search_entries l p) l = filter (fun e => p e = false) l /\
  drop (search_entries l p) l = filter (fun e => p e = true) l.
Proof.
  intros Hs Hp. set (f := fun i => match l !! i with Some e => p e | None => false end).
  assert (forall a b, (a <= b < length l)%nat -> f a = true -> f b = true) as Hmono.
  { intros a b Hab. unfold f. destruct (lookup_lt_is_Some_2 l a ltac:(lia)) as [x Ex].
    destruct (lookup_lt_is_Some_2 l b ltac:(lia)) as [y Ey]. rewrite Ex, Ey. apply Hp.
    eapply sorted_lookup; [done | done | done | lia]. }
  destruct (search_loop_spec (S (length l)) f 0 (length l) (length l)) as (Hk & Hlo & Hhi);
    [lia | lia | done | lia | lia |].
  change (search_loop (S (length l)) f 0 (length l)) with (search_entries l p) in *.
  set (k := search_entries l p) in *.
  assert (Forall (fun e => p e = false) (take k l)) as Ft.
  { apply Forall_lookup. intros i e He. apply lookup_take_Some in He as [He Hi].
    specialize (Hlo i Hi). unfold f in Hlo. by rewrite He in Hlo. }
  assert (Forall (fun e => p e = true) (drop k l)) as Fd.
  { apply Forall_lookup. intros i e He. rewrite lookup_drop in He. pose proof (lookup_lt_Some _ _ _ He).
    specialize (Hhi (k + i)%nat ltac:(lia)). unfold f in Hhi. by rewrite He in Hhi. }
  split; rewrite <- (take_drop k l) at 2; rewrite filter_app.
  - rewrite (filter_all_id _ _ Ft), (filter_none_nil _ (drop k l)), app_nil_r; [done|].
    eapply Forall_impl; [exact Fd|]. cbn. congruence.
  - rewrite (filter_all_id _ _ Fd), (filter_none_nil _ (take k l)); [done|].
    eapply Forall_impl; [exact Ft|]. cbn. congruence.
Qed.

(** ** Sorted indexes *)

Lemma sorted_app_intro l1 l2 :
  StronglySorted newer l1 -> StronglySorted newer l2 ->
  (forall a b, a ∈ l1 -> b ∈ l2 -> newer a b) -> StronglySorted newer (l1 ++ l2).
Proof.
  induction 1 as [|x l1 Hs IH Hf]; intros H2 Hx; cbn [app]; [done|]. constructor.
  - apply IH; [done|]. intros a b Ha Hb. apply Hx; [by right | done].
  - apply Forall_app. split; [done|]. apply Forall_forall. intros b Hb. apply Hx; [by left | done].
Qed.

Lemma sorted_filter (P : byTimeEntry -> Prop) `{forall x, Decision (P x)} l :
  StronglySorted newer l -> StronglySorted newer (filter P l).
Proof.
  induction 1 as [|x l Hs IH Hf]; [constructor|]. rewrite filter_cons. case_decide; [|done].
  constructor; [done|]. apply Forall_forall. intros y Hy. apply list_elem_of_filter in Hy as [_ Hy].
  rewrite Forall_forall in Hf. by apply Hf.
Qed.

Lemma sorted_take_drop k l :
  StronglySorted newer l -> StronglySorted newer (take k l) /\ StronglySorted newer (drop k l).
Proof.
  intros Hs. revert k. induction Hs as [|x l Hs IH Hf]; intros [|k]; cbn; try by repeat constructor.
  destruct (IH k) as [H1 H2]. split; [|done]. constructor; [done|].
  apply Forall_forall. intros y Hy. rewrite Forall_forall in Hf. apply Hf.
  by eapply elem_of_take in Hy as (? & ?%list_elem_of_lookup_2 & _).
Qed.

Lemma insert_by_ts_perm e l : insert_by_ts e l ≡ₚ e :: l.
Proof.
  unfold insert_by_ts, insert_at. set (k := search_entries _ _).
  rewrite <- (take_drop k l) at 3. symmetry. apply Permutation_middle.
Qed.

Lemma insert_by_ts_sorted e l : StronglySorted newer l -> StronglySorted newer (insert_by_ts e l).
Proof.
  intros Hs. unfold insert_by_ts, insert_at.
  destruct (search_entries_spec l (fun x => time_Before (te_ts x) (te_ts e)) Hs) as [Et Ed].
  { unfold time_Before. intros a b Hab. rewrite !Z.ltb_lt. lia. }
  rewrite Et, Ed. apply sorted_app_intro.
  - by apply sorted_filter.
  - constructor; [by apply sorted_filter|]. apply Forall_forall. intros y Hy.
    apply list_elem_of_filter in Hy as [Hy _]. unfold time_Before in Hy. zbool. unfold newer. lia.
  - intros a b Ha Hb. apply list_elem_of_filter in Ha as [Ha _]. unfold time_Before in *. zbool.
    apply elem_of_cons in Hb as [->|Hb]; [unfold newer; lia|].
    apply list_elem_of_filter in Hb as [Hb _]. zbool. unfold newer. lia.
Qed.

Lemma remove_id_filter id l :
  NoDup (te_id <$> l) -> remove_id id l = filter (fun e => te_id e <> id) l.
Proof.
  induction l as [|e l IH]; intros Hnd; [done|]. cbn [remove_id]. cbn in Hnd.
  apply NoDup_cons in Hnd as [He Hnd]. rewrite filter_cons. case_decide as E.
  - rewrite decide_False by tauto. symmetry. apply filter_all_id. apply Forall_forall. intros x Hx Ex.
    apply He. rewrite E, <- Ex. by apply list_elem_of_fmap_2.
  - rewrite decide_True by done. by rewrite IH.
Qed.

(** ** Indexes of the alert map *)

(** [l] lists the entries of the alerts of [m], each once. *)
Record index (m : gmap gostring Alert) (l : list byTimeEntry) : Prop := {
  ix_nodup : NoDup (te_id <$> l);
  ix_elem : forall e, e ∈ l <-> exists a, m !! te_id e = Some a /\ e = entry_of a }.

(** Every alert is stored under its id. *)
Definition keyed (m : gmap gostring Alert) : Prop := map_Forall (fun id a => al_ID a = id) m.

#[export] Instance index_proper m : Proper ((≡ₚ) ==> iff) (index m).
Proof.
  assert (forall l1 l2, l1 ≡ₚ l2 -> index m l1 -> index m l2) as G.
  { intros l1 l2 E [Hn He]. split; [by rewrite <- E|]. intros e. by rewrite <- E. }
  intros l1 l2 E. split; apply G; [done | by symmetry].
Qed.

Lemma index_ids m l : keyed m -> index m l -> te_id <$> l ≡ₚ elements (dom m).
Proof.
  intros Hk [Hn He]. apply NoDup_Permutation; [done | apply NoDup_elements |].
  intros id. rewrite elem_of_elements, elem_of_dom, list_elem_of_fmap. split.
  - intros (e & -> & Hin). apply He in Hin as (a & Ha & _). by eexists.
  - intros [a Ha]. exists (entry_of a). split; [symmetry; by apply (Hk id a)|]. apply He.
    exists a. cbn. by rewrite (Hk id a Ha).
Qed.

Lemma index_length m l : keyed m -> index m l -> length l = size m.
Proof.
  intros Hk Hi. rewrite <- (length_fmap te_id), (index_ids m l) by done.
  by rewrite <- size_dom.
Qed.

Lemma keyed_insert m a : keyed m -> keyed (<[al_ID a := a]> m).
Proof. intros. by apply map_Forall_insert_2. Qed.

Lemma keyed_delete m id : keyed m -> keyed (delete id m).
Proof. intros. by apply map_Forall_delete. Qed.

Lemma index_insert m l a :
  index m l -> m !! al_ID a = None -> index (<[al_ID a := a]> m) (entry_of a :: l).
Proof.
  intros [Hn He] Hm. split.
  - cbn. apply NoDup_cons. split; [|done]. intros Hin. apply list_elem_of_fmap in Hin as (e & Ee & Hin).
    apply He in Hin as (a' & Ha' & _). congruence.
  - intros e. rewrite elem_of_cons, He. split.
    + intros [->|(a' & Ha' & ->)]; [exists a; cbn; by rewrite lookup_insert_eq|].
      exists a'. rewrite lookup_insert_ne; [done|]. intros E. cbn in *. congruence.
    + intros (a' & Ha' & ->). destruct (decide (te_id (entry_of a') = al_ID a)) as [E|E].
      * left. rewrite E, lookup_insert_eq in Ha'. by injection Ha' as ->.
      * right. exists a'. by rewrite lookup_insert_ne in Ha'.
Qed.

Lemma index_delete m l id :
  index m l -> index (delete id m) (filter (fun e => te_id e <> id) l).
Proof.
  intros [Hn He]. split.
  - eapply sublist_NoDup; [exact Hn|]. apply fmap_sublist. apply sublist_filter.
  - intros e. rewrite list_elem_of_filter, He. split.
    + intros [Hne (a & Ha & ->)]. exists a. by rewrite lookup_delete_ne.
    + intros (a & Ha & ->). apply lookup_delete_Some in Ha as [Hne Ha]. split; [done|]. by exists a.
Qed.

(** Dropping the entries of a suffix and their alerts. *)
Lemma index_split m kept gone :
  index m (kept ++ gone) -> index (foldr (fun e m => delete (te_id e) m) m gone) kept.
Proof.
  revert m kept. induction gone as [|e gone IH] using rev_ind; intros m kept Hi.
  - by rewrite app_nil_r in Hi.
  - rewrite foldr_app. cbn [foldr]. apply IH.
    pose proof (index_delete m _ (te_id e) Hi) as Hd. replace (filter _ _) with (kept ++ gone) in Hd; [done|].
    destruct Hi as [Hn _]. rewrite app_assoc, fmap_app in Hn. rewrite app_assoc, filter_app.
    apply NoDup_app in Hn as (_ & Hdis & _). rewrite filter_cons_False by (cbn; tauto).
    cbn. rewrite app_nil_r. symmetry. apply filter_all_id. apply Forall_forall. intros x Hx Ex.
    apply (Hdis (te_id x)); [by apply list_elem_of_fmap_2 | rewrite Ex; cbn; by left].
Qed.

Lemma keyed_foldr m gone : keyed m -> keyed (foldr (fun e m => delete (te_id e) m) m gone).
Proof. intros Hk. induction gone as [|e gone IH]; cbn [foldr]; [done | by apply keyed_delete]. Qed.

(** ** The store invariant *)

Abbreviation with_sev sev := (fun e => te_severity e = sev).

Lemma rebuild_fold l (m : gmap Severity (list byTimeEntry)) sev :
  default [] (fold_left (fun m e => <[te_severity e := default [] (m !! te_severity e) ++ [e]]> m) l m !! sev)
  = default [] (m !! sev) ++ filter (with_sev sev) l.
Proof.
  revert m. induction l as [|e l IH]; intros m; cbn [fold_left]; [by rewrite app_nil_r|].
  rewrite IH, filter_cons. case_decide as E.
  - subst. rewrite lookup_insert_eq. cbn. by rewrite <- app_assoc.
  - by rewrite lookup_insert_ne.
Qed.

Lemma rebuild_bucket l m sev :
  default [] (rebuild_bySev l m !! sev) = filter (with_sev sev) l.
Proof.
  unfold rebuild_bySev. rewrite rebuild_fold, lookup_fmap. by destruct (m !! sev).
Qed.

Record ms_inv (s : MemoryStore) : Prop := {
  mi_keyed : keyed (ms_alerts s);
  mi_index : index (ms_alerts s) (ms_byTime s);
  mi_count : ms_count s = Z.of_nat (size (ms_alerts s));
  mi_sev : forall sev, bucket s sev ≡ₚ filter (with_sev sev) (ms_byTime s) }.

Record ms_sorted (s : MemoryStore) : Prop := {
  so_byTime : StronglySorted newer (ms_byTime s);
  so_bucket : forall sev, StronglySorted newer (bucket s sev) }.

Definition ms_capped (s : MemoryStore) : Prop :=
  0 < ms_MaxAlerts s -> Z.of_nat (size (ms_alerts s)) <= ms_MaxAlerts s.

(** What holds after an alert was put in the map and its old entries, if any,
    were taken out of the indexes. *)
Record ms_pending (a : Alert) (s : MemoryStore) : Prop := {
  mp_keyed : keyed (ms_alerts s);
  mp_index : index (ms_alerts s) (entry_of a :: ms_byTime s);
  mp_count : ms_count s = Z.of_nat (size (ms_alerts s));
  mp_sev : forall sev, bucket s sev ≡ₚ filter (with_sev sev) (ms_byTime s) }.

Lemma remove_bucket id s old sev :
  ms_inv s -> ms_alerts s !! id = Some old ->
  bucket (removeFromIndexes id (al_Severity old) s) sev = filter (fun e => te_id e <> id) (bucket s sev).
Proof.
  intros [Hk Hi _ Hs] Hold.
  assert (forall e, e ∈ ms_byTime s -> te_id e = id -> e = entry_of old) as Huniq.
  { intros e He E. apply (ix_elem _ _ Hi) in He as (a & Ha & ->). rewrite E, Hold in Ha. by injection Ha as ->. }
  assert (forall sev, NoDup (te_id <$> bucket s sev)) as Hnd.
  { intros sev'. rewrite Hs. eapply sublist_NoDup; [apply Hi|]. apply fmap_sublist, sublist_filter. }
  assert (forall sev, sev <> al_Severity old ->
    filter (fun e => te_id e <> id) (bucket s sev) = bucket s sev) as Hother.
  { intros sev' Hne. apply filter_all_id. apply Forall_forall. intros e He E. rewrite Hs in He.
    apply list_elem_of_filter in He as [Hsev He]. apply Huniq in He; [|done]. by subst. }
  unfold removeFromIndexes, bucket at 1. cbn [ms_bySev].
  destruct (existsb _ _) eqn:Ex.
  - destruct (decide (sev = al_Severity old)) as [->|Hne].
    + rewrite lookup_insert_eq. cbn. by apply remove_id_filter.
    + rewrite lookup_insert_ne by done. symmetry. by apply Hother.
  - fold (bucket s sev). destruct (decide (sev = al_Severity old)) as [->|Hne]; [|symmetry; by apply Hother].
    symmetry. apply filter_all_id. apply Forall_forall. intros e He E.
    assert (existsb (fun e => bool_decide (te_id e = id)) (bucket s (al_Severity old)) = true); [|congruence].
    apply existsb_exists. exists e. split; [by apply list_elem_of_In | by apply bool_decide_eq_true].
Qed.

Lemma filter_comm_sev id sev (l : list byTimeEntry) :
  filter (fun e => te_id e <> id) (filter (with_sev sev) l)
  = filter (with_sev sev) (filter (fun e => te_id e <> id) l).
Proof. rewrite !list_filter_filter. apply list_filter_iff. tauto. Qed.

Lemma upsert_pending a s :
  ms_inv s -> ms_pending a (put_alert a (unindex a s)).
Proof.
  intros Hinv. pose proof Hinv as [Hk Hi Hc Hs]. unfold unindex.
  destruct (ms_alerts s !! al_ID a) as [old|] eqn:Hold.
  - split; cbn [put_alert removeFromIndexes ms_alerts ms_byTime ms_count].
    + by apply keyed_insert.
    + rewrite remove_id_filter by apply Hi. rewrite <- insert_delete_eq.
      apply index_insert; [by apply index_delete | by rewrite lookup_delete_eq].
    + by rewrite map_size_insert_Some by (by eexists).
    + intros sev. change (bucket _ sev) with (bucket (removeFromIndexes (al_ID a) (al_Severity old) s) sev).
      rewrite (remove_bucket _ _ old) by done. rewrite remove_id_filter by apply Hi.
      by rewrite Hs, filter_comm_sev.
  - split; cbn [put_alert ms_alerts ms_byTime ms_count].
    + by apply keyed_insert.
    + by apply index_insert.
    + rewrite map_size_insert_None by done. lia.
    + intros sev. apply Hs.
Qed.

Lemma upsert_sorted a s :
  ms_inv s -> ms_sorted s -> ms_sorted (put_alert a (unindex a s)).
Proof.
  intros Hinv [Ht Hb]. unfold unindex. destruct (ms_alerts s !! al_ID a) as [old|] eqn:Hold.
  - split; cbn [put_alert removeFromIndexes ms_byTime].
    + rewrite remove_id_filter by apply Hinv. by apply sorted_filter.
    + intros sev. change (bucket _ sev) with (bucket (removeFromIndexes (al_ID a) (al_Severity old) s) sev).
      rewrite (remove_bucket _ _ old) by done. by apply sorted_filter.
  - by split.
Qed.

Lemma insertSorted_spec a s :
  ms_pending a s -> ms_sorted s ->
  let s' := insertSorted (al_ID a) (al_Timestamp a) (al_Severity a) (en_Namespace (al_Enrichment a)) s in
  ms_inv s' /\ ms_sorted s'.
Proof.
  intros [Hk Hi Hc Hs] [Ht Hb].
  assert (forall sev, bucket (insertSorted (al_ID a) (al_Timestamp a) (al_Severity a)
      (en_Namespace (al_Enrichment a)) s) sev
    = if decide (sev = al_Severity a) then insert_by_ts (entry_of a) (bucket s sev) else bucket s sev) as Hbk.
  { intros sev. unfold bucket at 1, insertSorted. cbn [ms_bySev]. case_decide as E.
    - subst. by rewrite lookup_insert_eq.
    - by rewrite lookup_insert_ne. }
  split; split.
  - done.
  - cbn [insertSorted ms_alerts ms_byTime]. change (mkEntry _ _ _ _) with (entry_of a).
    by rewrite insert_by_ts_perm.
  - done.
  - intros sev. rewrite Hbk. cbn [insertSorted ms_byTime]. change (mkEntry _ _ _ _) with (entry_of a).
    rewrite (insert_by_ts_perm _ (ms_byTime s)), filter_cons. case_decide as E.
    + subst. rewrite decide_True by done. by rewrite insert_by_ts_perm, Hs.
    + rewrite decide_False by (cbn; congruence). apply Hs.
  - cbn [insertSorted ms_byTime]. by apply insert_by_ts_sorted.
  - intros sev. rewrite Hbk. case_decide; [by apply insert_by_ts_sorted | done].
Qed.

(** Cutting the store at a position of its index. *)
Lemma cut_inv k s n :
  ms_inv s -> ms_sorted s -> (k <= length (ms_byTime s))%nat -> n = Z.of_nat (length (ms_byTime s) - k) ->
  let s' := mkStore (ms_count s - n)
    (foldr (fun e m => delete (te_id e) m) (ms_alerts s) (drop k (ms_byTime s)))
    (take k (ms_byTime s)) (rebuild_bySev (take k (ms_byTime s)) (ms_bySev s)) (ms_seq s) (ms_MaxAlerts s) in
  ms_inv s' /\ ms_sorted s' /\ size (ms_alerts s') = k.
Proof.
  intros [Hk Hi Hc Hs] [Ht Hb] Hle -> s'.
  assert (keyed (ms_alerts s')) as Hk' by (by apply keyed_foldr).
  assert (index (ms_alerts s') (ms_byTime s')) as Hi'
    by (unfold s'; cbn [ms_alerts ms_byTime]; apply index_split; by rewrite take_drop).
  assert (size (ms_alerts s') = k) as Hsz.
  { rewrite <- (index_length _ _ Hk' Hi'). cbn. rewrite length_take. lia. }
  assert (forall sev, bucket s' sev = filter (with_sev sev) (ms_byTime s')) as Hbk
    by (intros sev; apply rebuild_bucket).
  split_and!; [split | split |]; try done.
  - rewrite Hsz. cbn. rewrite Hc, <- (index_length _ _ Hk Hi). lia.
  - intros sev. by rewrite Hbk.
  - by apply sorted_take_drop.
  - intros sev. rewrite Hbk. by apply sorted_filter, sorted_take_drop.
Qed.

Lemma store_evict_spec s :
  ms_inv s -> ms_sorted s ->
  exists s', evictOldestLocked s = Ok s' /\ ms_inv s' /\ ms_sorted s' /\ ms_capped s' /\
    ms_seq s' = ms_seq s /\ ms_MaxAlerts s' = ms_MaxAlerts s /\
    (exists k, ms_byTime s' = take k (ms_byTime s) /\
      ms_alerts s' = foldr (fun e m => delete (te_id e) m) (ms_alerts s) (drop k (ms_byTime s)) /\
      Z.of_nat k = if 0 <? ms_MaxAlerts s then Z.min (ms_MaxAlerts s) (ms_count s) else ms_count s).
Proof.
  intros Hi Hso. unfold evictOldestLocked. pose proof (mi_count s Hi) as Hc.
  pose proof (index_length _ _ (mi_keyed s Hi) (mi_index s Hi)) as Hl.
  destruct ((ms_MaxAlerts s <=? 0) || (Z.of_nat (size (ms_alerts s)) <=? ms_MaxAlerts s)) eqn:E.
  - exists s. split_and!; [done..| | done | done |].
    + intros Hm. apply orb_true_iff in E as [E|E]; zbool; lia.
    + exists (length (ms_byTime s)). rewrite take_ge, drop_ge by lia. split_and!; [done | done |].
      apply orb_true_iff in E as [E|E]; zbool; destruct (0 <? ms_MaxAlerts s) eqn:?; zbool; lia.
  - zbool. rewrite !list_range_ok by lia. cbn [mbind result_bind].
    set (k := Z.to_nat (ms_MaxAlerts s)).
    destruct (cut_inv k s (Z.of_nat (length (ms_byTime s) - k)) Hi Hso) as (Hi' & Hso' & Hsz);
      [unfold k; lia | done |].
    eexists. split; [|split_and!; [exact Hi' | exact Hso' | | done | done |]].
    + rewrite Z.sub_0_r, drop_0. rewrite (take_ge (drop _ _)) by (rewrite length_drop; lia).
      replace (Z.to_nat (Z.of_nat (length (ms_byTime s)) - (Z.of_nat (size (ms_alerts s)) - ms_MaxAlerts s)))
        with k by (unfold k; lia).
      replace (Z.of_nat (size (ms_alerts s)) - ms_MaxAlerts s)
        with (Z.of_nat (length (ms_byTime s) - k)) by (unfold k; lia). done.
    + intros Hm. rewrite Hsz. cbn. unfold k. lia.
    + exists k. split_and!; [done | done |]. rewrite (proj2 (Z.ltb_lt 0 _)) by lia. unfold k. lia.
Qed.

(** [kept] are the newest alerts of [full], as many as the cap allows. *)
Record newest_of (max : Z) (full kept : gmap gostring Alert) : Prop := {
  no_sub : kept ⊆ full;
  no_old : forall id x id' y, full !! id = Some x -> kept !! id = None -> kept !! id' = Some y ->
    al_Timestamp x <= al_Timestamp y;
  no_size : Z.of_nat (size kept)
    = if 0 <? max then Z.min max (Z.of_nat (size full)) else Z.of_nat (size full) }.

Lemma foldr_delete_lookup m gone id :
  foldr (fun e m => delete (te_id e) m) m gone !! id
  = if decide (id ∈ (te_id <$> gone)) then None else (m : gmap gostring Alert) !! id.
Proof.
  induction gone as [|e gone IH]; cbn [foldr]; [by rewrite decide_False by apply not_elem_of_nil|].
  change (te_id <$> e :: gone) with (te_id e :: (te_id <$> gone)).
  destruct (decide (te_id e = id)) as [<-|Hne].
  - rewrite lookup_delete_eq, decide_True; [done | by left].
  - rewrite lookup_delete_ne, IH by done. apply decide_ext. rewrite elem_of_cons. intuition congruence.
Qed.

Lemma cut_newest m l k :
  keyed m -> index m l -> StronglySorted newer l -> (k <= length l)%nat ->
  let kept := foldr (fun e m => delete (te_id e) m) m (drop k l) in
  kept ⊆ m /\ size kept = k /\
  forall id x id' y, m !! id = Some x -> kept !! id = None -> kept !! id' = Some y ->
    al_Timestamp x <= al_Timestamp y.
Proof.
  intros Hk Hi Hs Hle kept.
  assert (index kept (take k l)) as Hi' by (apply index_split; by rewrite take_drop).
  assert (keyed kept) as Hk' by (by apply keyed_foldr). split_and!.
  - apply map_subseteq_spec. intros id x Hx. unfold kept in Hx. rewrite foldr_delete_lookup in Hx.
    by case_decide.
  - rewrite <- (index_length _ _ Hk' Hi'), length_take. lia.
  - intros id x id' y Hx Hn Hy. unfold kept in Hn. rewrite foldr_delete_lookup in Hn.
    case_decide as Hin; [|congruence]. apply list_elem_of_fmap in Hin as (e & Ee & Hin).
    assert (e ∈ l) as Hel by (rewrite <- (take_drop k l); apply elem_of_app; by right).
    apply (ix_elem _ _ Hi) in Hel as (x' & Hx' & He). rewrite <- Ee, Hx in Hx'. injection Hx' as <-.
    assert (entry_of y ∈ take k l) as Hyk
      by (apply (ix_elem _ _ Hi'); exists y; split; [cbn; by rewrite (Hk' _ _ Hy) | done]).
    apply list_elem_of_lookup in Hyk as [i Hyk]. apply list_elem_of_lookup in Hin as [j Hej].
    apply lookup_take_Some in Hyk as [Hyk Hik]. rewrite lookup_drop in Hej.
    pose proof (sorted_lookup l i (k + j) _ _ Hs Hyk Hej ltac:(lia)) as Hts. subst e. done.
Qed.

Lemma evict_newest s :
  ms_inv s -> ms_sorted s ->
  exists s', evictOldestLocked s = Ok s' /\ ms_inv s' /\ ms_sorted s' /\ ms_capped s' /\
    ms_seq s' = ms_seq s /\ ms_MaxAlerts s' = ms_MaxAlerts s /\
    newest_of (ms_MaxAlerts s) (ms_alerts s) (ms_alerts s').
Proof.
  intros Hi Hso. destruct (store_evict_spec s Hi Hso) as (s' & E & Hi' & Hso' & Hc & Hq & Hm & k & Hb & Ha & Hk).
  exists s'. split_and!; try done. rewrite (mi_count s Hi) in Hk.
  pose proof (index_length _ _ (mi_keyed s Hi) (mi_index s Hi)) as Hl.
  assert (k <= length (ms_byTime s))%nat as Hle by (destruct (0 <? ms_MaxAlerts s); lia).
  destruct (cut_newest (ms_alerts s) (ms_byTime s) k (mi_keyed s Hi) (mi_index s Hi) (so_byTime s Hso) Hle)
    as (Hsub & Hsz & Hold).
  rewrite <- Ha in *. split; [done | done |]. by rewrite Hsz.
Qed.

Lemma ms_inv_set_seq s q : ms_inv s -> ms_inv (set_seq s q).
Proof. by intros []. Qed.
Lemma ms_sorted_set_seq s q : ms_sorted s -> ms_sorted (set_seq s q).
Proof. by intros []. Qed.

Lemma unindex_put_alerts a s :
  ms_alerts (put_alert a (unindex a s)) = <[al_ID a := a]> (ms_alerts s) /\
  ms_MaxAlerts (put_alert a (unindex a s)) = ms_MaxAlerts s /\
  ms_seq (put_alert a (unindex a s)) = ms_seq s.
Proof. unfold unindex. by destruct (ms_alerts s !! al_ID a). Qed.

Lemma Store_spec alert now s :
  ms_inv s -> ms_sorted s ->
  let '(seq, a) := prepare now alert (ms_seq s) in
  exists s', Store alert now s = Ok s' /\ ms_inv s' /\ ms_sorted s' /\ ms_capped s' /\
    ms_MaxAlerts s' = ms_MaxAlerts s /\
    newest_of (ms_MaxAlerts s) (<[al_ID a := a]> (ms_alerts s)) (ms_alerts s').
Proof.
  intros Hi Hso. unfold Store. destruct (prepare now alert (ms_seq s)) as [seq a].
  set (s0 := set_seq s seq).
  assert (ms_inv s0) as Hi0 by (by apply ms_inv_set_seq).
  assert (ms_sorted s0) as Hso0 by (by apply ms_sorted_set_seq).
  destruct (insertSorted_spec a (put_alert a (unindex a s0))) as [Hi1 Hso1];
    [by apply upsert_pending | by apply upsert_sorted |].
  destruct (evict_newest _ Hi1 Hso1) as (s' & E & Hi' & Hso' & Hc & _ & Hm & Hn).
  destruct (unindex_put_alerts a s0) as (Ea & Em & _).
  exists s'. split_and!; try done.
  - rewrite Hm. exact Em.
  - cbn [insertSorted ms_MaxAlerts ms_alerts] in Hn. by rewrite Ea, Em in Hn.
Qed.

(** ** StoreBatch and Delete *)

Lemma batch_one_inv now s alert :
  ms_inv s ->
  let '(seq, a) := prepare now alert (ms_seq s) in
  ms_inv (batch_one now s alert) /\ ms_alerts (batch_one now s alert) = <[al_ID a := a]> (ms_alerts s) /\
  ms_MaxAlerts (batch_one now s alert) = ms_MaxAlerts s /\ ms_seq (batch_one now s alert) = seq.
Proof.
  intros Hi. unfold batch_one. destruct (prepare now alert (ms_seq s)) as [seq a].
  set (s0 := set_seq s seq). assert (ms_inv s0) as Hi0 by (by apply ms_inv_set_seq).
  destruct (upsert_pending a s0 Hi0) as [Hk Hix Hc Hs]. destruct (unindex_put_alerts a s0) as (Ea & Em & Eq).
  set (s1 := put_alert a (unindex a s0)) in *. cbn [ms_alerts ms_MaxAlerts ms_seq].
  split_and!; [split | done | done | done]; cbn [ms_alerts ms_byTime ms_count]; try done.
  - rewrite (Permutation_app_comm (ms_byTime s1)). exact Hix.
  - intros sev. unfold bucket at 1. cbn [ms_bySev]. rewrite filter_app, filter_cons.
    destruct (decide (sev = al_Severity a)) as [->|Hne].
    + rewrite lookup_insert_eq, decide_True by done. cbn. by rewrite Hs.
    + rewrite lookup_insert_ne, decide_False by (done || (cbn; congruence)). cbn. rewrite app_nil_r. apply Hs.
Qed.

(** The alerts of a batch put in the map one after the other. *)
Fixpoint upsert_all (now : Z) (alerts : list Alert) (seq : Z) (m : gmap gostring Alert) :
  gmap gostring Alert :=
  match alerts with
  | [] => m
  | alert :: alerts =>
      let '(seq, a) := prepare now alert seq in upsert_all now alerts seq (<[al_ID a := a]> m)
  end.

Lemma batch_all_inv now alerts s :
  ms_inv s ->
  let s' := fold_left (batch_one now) alerts s in
  ms_inv s' /\ ms_alerts s' = upsert_all now alerts (ms_seq s) (ms_alerts s) /\
  ms_MaxAlerts s' = ms_MaxAlerts s.
Proof.
  revert s. induction alerts as [|alert alerts IH]; intros s Hi; cbn [fold_left upsert_all]; [done|].
  pose proof (batch_one_inv now s alert Hi) as H1. destruct (prepare now alert (ms_seq s)) as [seq a].
  destruct H1 as (Hi1 & Ea & Em & Eq). destruct (IH _ Hi1) as (H2 & E2 & M2).
  rewrite Ea, Eq in E2. split_and!; [done | done | congruence].
Qed.

(** The documented contract of [sort.Slice] with the indexes' order. *)
Class SortSlice (sort : list byTimeEntry -> list byTimeEntry) : Prop := {
  sort_perm : forall l, sort l ≡ₚ l;
  sort_sorted : forall l, StronglySorted newer (sort l) }.

Lemma StoreBatch_spec sort `{SortSlice sort} alerts now s :
  ms_inv s -> ms_sorted s -> ms_capped s ->
  exists s', StoreBatch sort alerts now s = Ok s' /\ ms_inv s' /\ ms_sorted s' /\ ms_capped s' /\
    ms_MaxAlerts s' = ms_MaxAlerts s /\
    newest_of (ms_MaxAlerts s) (upsert_all now alerts (ms_seq s) (ms_alerts s)) (ms_alerts s').
Proof.
  intros Hi Hso Hcap. unfold StoreBatch. destruct (_ =? 0) eqn:E.
  - zbool. destruct alerts; [|cbn in E; lia]. exists s. split_and!; try done. cbn [upsert_all].
    split; [done | congruence |]. unfold ms_capped in Hcap.
    destruct (0 <? ms_MaxAlerts s) eqn:Em; zbool; [|done]. specialize (Hcap Em). lia.
  - destruct (batch_all_inv now alerts s Hi) as ([Hk1 Hix1 Hc1 Hs1] & Ea & Em).
    set (s1 := fold_left (batch_one now) alerts s) in *. set (s2 := mkStore _ _ _ _ _ _).
    assert (forall sev, bucket s2 sev = match ms_bySev s1 !! sev with Some l => sort l | None => [] end) as Hb.
    { intros sev. unfold bucket, s2. cbn [ms_bySev]. rewrite lookup_fmap. by destruct (ms_bySev s1 !! sev). }
    assert (ms_inv s2) as Hi2.
    { split; unfold s2; cbn [ms_alerts ms_byTime ms_count]; try done.
      - by rewrite sort_perm.
      - intros sev. fold s2. rewrite Hb, sort_perm, <- Hs1. unfold bucket.
        destruct (ms_bySev s1 !! sev); [cbn; apply sort_perm | done]. }
    assert (ms_sorted s2) as Hso2.
    { split; [unfold s2; cbn [ms_byTime]; apply sort_sorted|]. intros sev. rewrite Hb.
      destruct (ms_bySev s1 !! sev); [apply sort_sorted | constructor]. }
    destruct (evict_newest s2 Hi2 Hso2) as (s' & Ev & Hi' & Hso' & Hc' & _ & Hm' & Hn).
    exists s'. split_and!; try done; [rewrite Hm'; exact Em|].
    unfold s2 in Hn. cbn [ms_MaxAlerts ms_alerts] in Hn. by rewrite Ea, Em in Hn.
Qed.

Lemma Delete_spec olderThan now s :
  ms_inv s -> ms_sorted s -> ms_capped s -> 0 <= olderThan <= max_duration ->
  exists s' n, Delete olderThan now s = Ok (s', n) /\ ms_inv s' /\ ms_sorted s' /\ ms_capped s' /\
    n = ms_count s - ms_count s' /\
    forall id, ms_alerts s' !! id = match ms_alerts s !! id with
      | Some a => if al_Timestamp a <? now - olderThan then None else Some a | None => None end.
Proof.
  intros Hi Hso Hcap Ho. unfold Delete, time_Add. rewrite neg_duration_id by done.
  replace (now + - olderThan) with (now - olderThan) by lia.
  set (p := fun e => time_Before (te_ts e) (now - olderThan)). set (k := search_entries (ms_byTime s) p).
  destruct (search_entries_spec (ms_byTime s) p (so_byTime s Hso)) as [Et Ed].
  { unfold p, time_Before. intros a b Hab. rewrite !Z.ltb_lt. lia. }
  fold k in Et, Ed.
  assert (k <= length (ms_byTime s))%nat as Hle.
  { unfold k, search_entries, sort_Search. apply search_loop_spec; try lia.
    intros a b Hab. destruct (lookup_lt_is_Some_2 (ms_byTime s) a ltac:(lia)) as [x Ex].
    destruct (lookup_lt_is_Some_2 (ms_byTime s) b ltac:(lia)) as [y Ey]. rewrite Ex, Ey.
    unfold p, time_Before. rewrite !Z.ltb_lt.
    pose proof (sorted_lookup _ a b x y (so_byTime s Hso) Ex Ey ltac:(lia)). lia. }
  destruct (cut_inv k s (Z.of_nat (length (drop k (ms_byTime s)))) Hi Hso Hle) as (Hi' & Hso' & Hsz);
    [by rewrite length_drop|].
  eexists _, _. split; [done|]. split_and!; [exact Hi' | exact Hso' | | cbn [ms_count]; lia |].
  - intros Hm. specialize (Hcap Hm). rewrite Hsz. cbn [ms_MaxAlerts].
    rewrite <- (index_length _ _ (mi_keyed s Hi) (mi_index s Hi)) in Hcap. lia.
  - intros id. cbn [ms_alerts]. rewrite foldr_delete_lookup, Ed. clear Hi' Hso' Hsz Hle Et Ed k.
    destruct (ms_alerts s !! id) as [a|] eqn:Ha; [|by case_decide].
    assert (id ∈ (te_id <$> filter (fun e => p e = true) (ms_byTime s)) <-> al_Timestamp a < now - olderThan) as Hiff.
    { rewrite list_elem_of_fmap. split.
      - intros (e & -> & He). apply list_elem_of_filter in He as [Hp He].
        apply (ix_elem _ _ (mi_index s Hi)) in He as (a' & Ha' & ->). rewrite Ha in Ha'. injection Ha' as <-.
        unfold p, time_Before in Hp. by apply Z.ltb_lt in Hp.
      - intros Hlt. exists (entry_of a). split; [symmetry; by apply (mi_keyed s Hi)|].
        apply list_elem_of_filter. split; [unfold p, time_Before; by apply Z.ltb_lt|].
        apply (ix_elem _ _ (mi_index s Hi)). exists a. cbn. by rewrite (mi_keyed s Hi _ _ Ha). }
    destruct (al_Timestamp a <? now - olderThan) eqn:El; zbool.
    + by rewrite decide_True by (apply Hiff; lia).
    + rewrite decide_False; [done|]. rewrite Hiff. lia.
Qed.

(** ** Queries *)
Section query.
Context (ToLower : gostring -> gostring).
#[local] Abbreviation matches := (matchesFilters ToLower).

Definition alert_at (s : MemoryStore) (e : byTimeEntry) : Alert :=
  default empty_alert (ms_alerts s !! te_id e).

(** The alerts of an index slice that pass the filters. *)
Definition hits (s : MemoryStore) (f : QueryFilters) (l : list byTimeEntry) : list Alert :=
  filter (fun a => matches a f = true) (alert_at s <$> l).

(** Pagination: skip [Offset], then at most [Limit] when it is positive. *)
Definition page (f : QueryFilters) (l : list Alert) : list Alert :=
  let l := drop (Z.to_nat (qf_Offset f)) l in
  if 0 <? qf_Limit f then take (Z.to_nat (qf_Limit f)) l else l.

Lemma query_loop_spec s f pre l skipped results :
  (forall e, e ∈ l -> matches (alert_at s e) f = true -> pre e = true) ->
  0 <= skipped -> (0 < qf_Limit f -> Z.of_nat (length results) < qf_Limit f) ->
  query_loop ToLower s f pre l skipped results
  = results ++ (let r := drop (Z.to_nat (qf_Offset f - skipped)) (hits s f l) in
                if 0 <? qf_Limit f then take (Z.to_nat (qf_Limit f) - length results) r else r).
Proof.
  revert skipped results. induction l as [|e l IH]; intros skipped results Hpre Hs Hr.
  - cbn [query_loop]. unfold hits. cbn. rewrite drop_nil. destruct (0 <? _); rewrite ?take_nil; by rewrite app_nil_r.
  - assert (hits s f (e :: l) = (if matches (alert_at s e) f then [alert_at s e] else []) ++ hits s f l) as Eh.
    { unfold hits. cbn [fmap list_fmap]. rewrite filter_cons.
      destruct (matches (alert_at s e) f) eqn:E; [by rewrite decide_True | by rewrite decide_False]. }
    assert (forall e', e' ∈ l -> matches (alert_at s e') f = true -> pre e' = true) as Hpre'
      by (intros e' He'; apply Hpre; by right).
    cbn [query_loop]. fold (alert_at s e). rewrite Eh.
    destruct (matches (alert_at s e) f) eqn:Em; cbn [negb app].
    + rewrite (Hpre e) by (done || by left). cbn [negb].
      destruct (skipped <? qf_Offset f) eqn:Eo; zbool.
      * rewrite IH by (done || lia).
        replace (Z.to_nat (qf_Offset f - skipped)) with (S (Z.to_nat (qf_Offset f - (skipped + 1)))) by lia.
        done.
      * replace (Z.to_nat (qf_Offset f - skipped)) with 0%nat by lia. rewrite drop_0.
        destruct (0 <? qf_Limit f) eqn:El; zbool; cbn [andb].
        -- specialize (Hr El). rewrite length_app. cbn [length].
           destruct (qf_Limit f <=? _) eqn:Ef; zbool.
           ++ replace (Z.to_nat (qf_Limit f) - length results)%nat with 1%nat by lia. done.
           ++ rewrite IH; [|done|done|rewrite length_app; cbn [length]; lia].
              replace (Z.to_nat (qf_Offset f - skipped)) with 0%nat by lia.
              rewrite drop_0, length_app. cbn [length].
              replace (Z.to_nat (qf_Limit f) - length results)%nat
                with (S (Z.to_nat (qf_Limit f) - (length results + 1)))%nat by lia.
              cbn [take]. by rewrite <- app_assoc.
        -- rewrite IH; [|done|done|lia].
           replace (Z.to_nat (qf_Offset f - skipped)) with 0%nat by lia.
           rewrite drop_0. by rewrite <- app_assoc.
    + destruct (pre e); cbn [negb]; by apply IH.
Qed.

Lemma query_loop_page s f pre l :
  (forall e, e ∈ l -> matches (alert_at s e) f = true -> pre e = true) ->
  query_loop ToLower s f pre l 0 [] = page f (hits s f l).
Proof.
  intros Hpre. rewrite query_loop_spec by (done || (cbn; lia)). unfold page.
  rewrite Z.sub_0_r. cbn [length app]. by rewrite Nat.sub_0_r.
Qed.

(** The entries of a well-formed store cache the fields of their alerts. *)
Lemma alert_at_entry s e :
  ms_inv s -> e ∈ ms_byTime s -> ms_alerts s !! te_id e = Some (alert_at s e) /\ e = entry_of (alert_at s e).
Proof.
  intros Hi He. apply (ix_elem _ _ (mi_index s Hi)) in He as (a & Ha & He).
  unfold alert_at. rewrite Ha. done.
Qed.

Lemma matches_cached a f :
  matches a f = true ->
  pre_std f (entry_of a) = true /\
  (time_IsZero (qf_Since f) = false -> qf_Since f <= al_Timestamp a) /\
  (time_IsZero (qf_Until f) = false -> al_Timestamp a <= qf_Until f).
Proof.
  unfold matchesFilters, pre_std, pre_ns. cbn [te_severity te_namespace entry_of].
  intros H. repeat (apply andb_true_iff in H as [H ?]). rewrite H4, H0. split_and!; [done | |].
  - intros Ez. rewrite Ez in H. cbn in H. unfold time_Before in H. zbool. lia.
  - intros Ez. rewrite Ez in H6. cbn in H6. unfold time_After in H6. zbool. lia.
Qed.

Lemma hits_app s f l1 l2 : hits s f (l1 ++ l2) = hits s f l1 ++ hits s f l2.
Proof. unfold hits. by rewrite fmap_app, filter_app. Qed.

Lemma hits_none s f l : (forall e, e ∈ l -> matches (alert_at s e) f = false) -> hits s f l = [].
Proof.
  intros H. unfold hits. apply filter_none_nil. apply Forall_forall. intros a Ha.
  apply list_elem_of_fmap in Ha as (e & -> & He). rewrite (H e He). done.
Qed.

(** The time window of the standard path loses no match. *)
Lemma hits_time_window s f :
  ms_inv s -> ms_sorted s -> hits s f (time_window s f) = hits s f (ms_byTime s).
Proof.
  intros Hi Hso. unfold time_window.
  set (start := if negb (time_IsZero (qf_Until f)) then _ else _).
  set (stop := if negb (time_IsZero (qf_Since f)) then _ else _).
  assert (forall e, e ∈ ms_byTime s -> te_ts e = al_Timestamp (alert_at s e)) as Hts.
  { intros e He. destruct (alert_at_entry s e Hi He) as [_ E]. by rewrite E at 1. }
  assert (forall e, e ∈ take start (ms_byTime s) -> matches (alert_at s e) f = false) as Hlo.
  { intros e He. destruct (matches (alert_at s e) f) eqn:Em; [|done]. exfalso.
    apply matches_cached in Em as (_ & _ & Hu). unfold start in He.
    destruct (time_IsZero (qf_Until f)) eqn:Ez; cbn [negb] in He; [by rewrite take_0 in He; apply elem_of_nil in He|].
    destruct (search_entries_spec (ms_byTime s) (fun e => negb (time_After (te_ts e) (qf_Until f)))
      (so_byTime s Hso)) as [Et _];
      [unfold time_After; intros a b ?; rewrite !negb_true_iff, !Z.ltb_ge; lia|]. rewrite Et in He.
    apply list_elem_of_filter in He as [Hp He]. unfold time_After in Hp. zbool.
    rewrite (Hts e He) in Hp. specialize (Hu eq_refl). lia. }
  assert (forall k e, (stop <= k)%nat -> e ∈ drop k (ms_byTime s) -> matches (alert_at s e) f = false) as Hhi.
  { intros k e Hk He. destruct (matches (alert_at s e) f) eqn:Em; [|done]. exfalso.
    apply matches_cached in Em as (_ & Hu & _). unfold stop in Hk.
    destruct (time_IsZero (qf_Since f)) eqn:Ez; cbn [negb] in Hk;
      [by rewrite drop_ge in He by lia; apply elem_of_nil in He|].
    set (st := search_entries _ _) in Hk.
    assert (e ∈ drop st (ms_byTime s)) as He'.
    { apply list_elem_of_lookup in He as [i Hlk]. rewrite lookup_drop in Hlk.
      apply list_elem_of_lookup. exists (k - st + i)%nat. rewrite lookup_drop.
      by replace (st + (k - st + i))%nat with (k + i)%nat by lia. }
    destruct (search_entries_spec (ms_byTime s) (fun e => time_Before (te_ts e) (qf_Since f))
      (so_byTime s Hso)) as [_ Ed];
      [unfold time_Before; intros a b ?; rewrite !Z.ltb_lt; lia|]. unfold st in He'. rewrite Ed in He'.
    apply list_elem_of_filter in He' as [Hp He']. unfold time_Before in Hp. zbool.
    rewrite (Hts e He') in Hp. specialize (Hu eq_refl). lia. }
  rewrite <- (take_drop start (ms_byTime s)) at 2. rewrite hits_app, (hits_none _ _ _ Hlo). cbn [app].
  rewrite <- (take_drop (stop - start) (drop start (ms_byTime s))) at 2.
  rewrite hits_app, drop_drop, (hits_none _ _ (drop _ _)), app_nil_r; [done|].
  intros e He. eapply Hhi; [|exact He]. lia.
Qed.

Lemma hits_bucket s f sev :
  ms_inv s -> qf_Severity f = [sev] -> hits s f (bucket s sev) ≡ₚ hits s f (ms_byTime s).
Proof.
  intros Hi Hf. unfold hits. rewrite (mi_sev s Hi sev).
  assert (forall l, (forall e, e ∈ l -> e ∈ ms_byTime s) ->
    filter (fun a => matches a f = true) (alert_at s <$> filter (with_sev sev) l)
    = filter (fun a => matches a f = true) (alert_at s <$> l)) as ->; [|done | done].
  induction l as [|e l IH]; intros Hl; [done|]. rewrite filter_cons.
  assert (forall e, e ∈ l -> e ∈ ms_byTime s) as Hl' by (intros e' He'; apply Hl; by right).
  case_decide as Es; cbn [fmap list_fmap]; rewrite !filter_cons, IH by done; [done|].
  rewrite decide_False; [done|]. intros Em. apply Es.
  apply matches_cached in Em as (Hp & _). destruct (alert_at_entry s e Hi) as [_ E]; [apply Hl; by left|].
  rewrite <- E in Hp. unfold pre_std, in_list in Hp. rewrite Hf in Hp. cbn in Hp.
  apply andb_true_iff in Hp as [Hp _]. rewrite orb_false_r in Hp. by apply bool_decide_eq_true in Hp.
Qed.

Lemma alerts_of_index s :
  ms_inv s -> alert_at s <$> ms_byTime s ≡ₚ (map_to_list (ms_alerts s)).*2.
Proof.
  intros Hi. transitivity (((fun e => (te_id e, alert_at s e)) <$> ms_byTime s).*2);
    [by rewrite <- list_fmap_compose|]. apply fmap_Permutation. apply NoDup_Permutation.
  - apply (NoDup_fmap_1 fst). rewrite <- list_fmap_compose. apply (ix_nodup _ _ (mi_index s Hi)).
  - apply NoDup_map_to_list.
  - intros [id a]. rewrite elem_of_map_to_list, list_elem_of_fmap. split.
    + intros (e & [= -> ->] & He). by apply alert_at_entry.
    + intros Ha. exists (entry_of a).
      assert (al_ID a = id) as Eid by (by apply (mi_keyed s Hi)). cbn. unfold alert_at. cbn.
      rewrite Eid, Ha. split; [done|]. apply (ix_elem _ _ (mi_index s Hi)). exists a. cbn. by rewrite Eid.
Qed.

(** Newest first. *)
Definition newer_alert (a b : Alert) : Prop := al_Timestamp b <= al_Timestamp a.

Lemma hits_sorted s f l :
  ms_inv s -> StronglySorted newer l -> (forall e, e ∈ l -> e ∈ ms_byTime s) ->
  StronglySorted newer_alert (hits s f l).
Proof.
  intros Hi Hs Hl. unfold hits.
  assert (forall e, e ∈ l -> te_ts e = al_Timestamp (alert_at s e)) as Hts.
  { intros e He. destruct (alert_at_entry s e Hi (Hl e He)) as [_ E]. by rewrite E at 1. }
  clear Hl Hi. induction Hs as [|e l Hs IH Hf]; [constructor|]. cbn [fmap list_fmap]. rewrite filter_cons.
  assert (StronglySorted newer_alert (filter (fun a => matches a f = true) (alert_at s <$> l))) as IH'
    by (apply IH; intros e' He'; apply Hts; by right).
  case_decide; [|done]. constructor; [done|]. apply Forall_forall. intros a Ha.
  apply list_elem_of_filter in Ha as [_ Ha]. apply list_elem_of_fmap in Ha as (e' & -> & He').
  unfold newer_alert. rewrite <- !Hts by (by left || by right).
  rewrite Forall_forall in Hf. by apply Hf.
Qed.

Lemma Query_spec s f :
  ms_inv s -> ms_sorted s ->
  exists l, Query ToLower s f = page f l /\ StronglySorted newer_alert l /\
    l ≡ₚ filter (fun a => matches a f = true) (map_to_list (ms_alerts s)).*2 /\
    (fast_path f = None -> l = hits s f (ms_byTime s)).
Proof.
  intros Hi Hso.
  assert (hits s f (ms_byTime s) ≡ₚ filter (fun a => matches a f = true) (map_to_list (ms_alerts s)).*2) as Hp
    by (unfold hits; by rewrite alerts_of_index).
  assert (forall e, e ∈ ms_byTime s -> matches (alert_at s e) f = true -> pre_std f e = true) as Hpre.
  { intros e He Em. apply matches_cached in Em as [Hpre _].
    destruct (alert_at_entry s e Hi He) as [_ E]. by rewrite <- E in Hpre. }
  unfold Query. destruct (fast_path f) as [sev|] eqn:Ef.
  - assert (qf_Severity f = [sev]) as Es.
    { unfold fast_path in Ef. destruct (_ && _); [|done]. destruct (qf_Severity f) as [|? [|]]; by simplify_eq. }
    assert (forall e, e ∈ bucket s sev -> e ∈ ms_byTime s) as Hb.
    { intros e He. rewrite (mi_sev s Hi sev) in He. by apply list_elem_of_filter in He as [_ He]. }
    exists (hits s f (bucket s sev)). split_and!; [|apply hits_sorted; [done | by apply Hso | done] | | done].
    + apply query_loop_page. intros e He Em. specialize (Hpre e (Hb e He) Em). unfold pre_std in Hpre.
      by apply andb_true_iff in Hpre as [_ ?].
    + rewrite <- Hp. by apply hits_bucket.
  - exists (hits s f (ms_byTime s)). split_and!; [|apply hits_sorted; [done | by apply Hso | done] | done | done].
    rewrite <- hits_time_window by done. apply query_loop_page. intros e He Em. apply Hpre; [|done].
    unfold time_window in He. apply elem_of_take in He as (i & Hlk & _).
    rewrite lookup_drop in Hlk. by eapply list_elem_of_lookup_2.
Qed.
End query.

(** ** Reachable stores *)
Section reach.
Context (sort : list byTimeEntry -> list byTimeEntry) `{SortSlice sort}.

Inductive ms_reach (maxAlerts : Z) : MemoryStore -> Prop :=
| mr_new : ms_reach maxAlerts (newMemoryStore maxAlerts)
| mr_store s alert now s' :
    ms_reach maxAlerts s -> Store alert now s = Ok s' -> ms_reach maxAlerts s'
| mr_batch s alerts now s' :
    ms_reach maxAlerts s -> StoreBatch sort alerts now s = Ok s' -> ms_reach maxAlerts s'
| mr_delete s olderThan now s' n :
    ms_reach maxAlerts s -> 0 <= olderThan <= max_duration ->
    Delete olderThan now s = Ok (s', n) -> ms_reach maxAlerts s'.

Lemma ms_reach_inv maxAlerts s :
  ms_reach maxAlerts s -> ms_inv s /\ ms_sorted s /\ ms_capped s /\ ms_MaxAlerts s = maxAlerts.
Proof.
  induction 1 as [|s alert now s' _ IH E|s alerts now s' _ IH E|s o now s' n _ IH Ho E].
  - assert (forall sev, bucket (newMemoryStore maxAlerts) sev = []) as Hb
      by (intros sev; unfold bucket; cbn; by rewrite lookup_empty).
    split_and!; [|split | |done].
    + split; [apply map_Forall_empty | | done | intros sev; by rewrite Hb].
      split; [constructor|]. intros e. split; [by intros ?%elem_of_nil|].
      intros (a & Ha & _). cbn in Ha. by rewrite lookup_empty in Ha.
    + constructor.
    + intros sev. rewrite Hb. constructor.
    + intros Hm. change (size (ms_alerts (newMemoryStore maxAlerts))) with 0%nat. cbn in *. lia.
  - destruct IH as (Hi & Hso & Hc & Hm). pose proof (Store_spec alert now s Hi Hso) as Hs.
    destruct (prepare now alert (ms_seq s)) as [seq a].
    destruct Hs as (s1 & E1 & H1 & H2 & H3 & H4 & _). rewrite E1 in E. injection E as ->.
    split_and!; congruence || done.
  - destruct IH as (Hi & Hso & Hc & Hm).
    destruct (StoreBatch_spec sort alerts now s Hi Hso Hc) as (s1 & E1 & H1 & H2 & H3 & H4 & _).
    rewrite E1 in E. injection E as ->. split_and!; congruence || done.
  - destruct IH as (Hi & Hso & Hc & Hm).
    destruct (Delete_spec o now s Hi Hso Hc Ho) as (s1 & n1 & E1 & H1 & H2 & H3 & _).
    assert (ms_MaxAlerts s' = ms_MaxAlerts s) as Em by (unfold Delete in E; by injection E as <- _).
    rewrite E1 in E. injection E as -> ->. split_and!; congruence || done.
Qed.
End reach.

(** An insertion sort by timestamp, newest first: one implementation of the
    contract. *)
Fixpoint isort (l : list byTimeEntry) : list byTimeEntry :=
  match l with [] => [] | e :: l => insert_by_ts e (isort l) end.
#[export] Instance isort_SortSlice : SortSlice isort.
Proof.
  assert (forall l, StronglySorted newer (isort l)) as Hs.
  { induction l as [|e l IH]; cbn [isort]; [constructor | by apply insert_by_ts_sorted]. }
  split; [|done]. induction l as [|e l IH]; cbn [isort]; [done|]. by rewrite insert_by_ts_perm, IH.
Qed.

(** Claim C8. The store's indexes never go out of step: in every store
    reachable by [Store], [StoreBatch] and [Delete], with any sorting routine
    that meets the contract of [sort.Slice], the time index lists every stored
    alert exactly once, newest first, with its current timestamp, severity and
    namespace; each severity index is the part of it with that severity,
    newest first; the atomic count is the number of alerts and respects the
    cap. *)
Theorem memstore_indexes (sort : list byTimeEntry -> list byTimeEntry) `{SortSlice sort} maxAlerts s :
  ms_reach sort maxAlerts s ->
  (forall e, e ∈ ms_byTime s <-> exists a, ms_alerts s !! te_id e = Some a /\ e = entry_of a) /\
  NoDup (te_id <$> ms_byTime s) /\ StronglySorted newer (ms_byTime s) /\
  (forall sev, bucket s sev ≡ₚ filter (with_sev sev) (ms_byTime s) /\ StronglySorted newer (bucket s sev)) /\
  Count s = Z.of_nat (size (ms_alerts s)) /\ (0 < maxAlerts -> Count s <= maxAlerts).
Proof.
  intros Hr. destruct (ms_reach_inv sort maxAlerts s Hr) as ([Hk [Hn He] Hc Hs] & [Ht Hb] & Hcap & <-).
  unfold Count. split_and!; try done. rewrite Hc. done.
Qed.

Definition demo_stored (id sev : gostring) (ts : Z) : Alert :=
  set_id_ts (mkAlert "" 0 "r" "" sev 7 "sh" "" "" "" None empty_enrichment empty_event [] "" "" false [] 0 0 0 "")
    id ts.
Definition demo_batch : list Alert :=
  [demo_stored "a" "warning" 10; demo_stored "b" "critical" 30; demo_stored "c" "warning" 20].
Definition demo_store : MemoryStore :=
  match StoreBatch isort demo_batch 0 (newMemoryStore 2) with Ok s => s | _ => newMemoryStore 2 end.

Lemma demo_reach : ms_reach isort 2 demo_store.
Proof.
  apply (mr_batch isort 2 (newMemoryStore 2) demo_batch 0); [constructor | vm_compute; reflexivity].
Qed.

Lemma memstore_indexes_witness :
  te_id <$> ms_byTime demo_store = ["b"; "c"]%string /\ Count demo_store = 2 /\ Count demo_store <= 2.
Proof.
  split; [vm_compute; reflexivity|]. split; [vm_compute; reflexivity|].
  exact (proj2 (proj2 (proj2 (proj2 (proj2 (memstore_indexes isort 2 demo_store demo_reach))))) ltac:(lia)).
Defined.

(** Writing keeps the newest alerts: from a reachable store, [Store]
    and [StoreBatch] do not fail; the new contents are the old ones with the
    given alerts put in under their ids (generated or own), cut to the cap by
    dropping alerts none of which is newer than a kept one. *)
Theorem memstore_writes (sort : list byTimeEntry -> list byTimeEntry) `{SortSlice sort} maxAlerts s alert alerts now :
  ms_reach sort maxAlerts s ->
  (exists s', Store alert now s = Ok s' /\
     newest_of maxAlerts (upsert_all now [alert] (ms_seq s) (ms_alerts s)) (ms_alerts s')) /\
  (exists s', StoreBatch sort alerts now s = Ok s' /\
     newest_of maxAlerts (upsert_all now alerts (ms_seq s) (ms_alerts s)) (ms_alerts s')).
Proof.
  intros Hr. destruct (ms_reach_inv sort maxAlerts s Hr) as (Hi & Hso & Hcap & <-). split.
  - pose proof (Store_spec alert now s Hi Hso) as Hs. cbn [upsert_all].
    destruct (prepare now alert (ms_seq s)) as [seq a].
    destruct Hs as (s' & E & _ & _ & _ & _ & Hn). by exists s'.
  - destruct (StoreBatch_spec sort alerts now s Hi Hso Hcap) as (s' & E & _ & _ & _ & _ & Hn). by exists s'.
Qed.

Lemma memstore_writes_witness :
  exists s', Store (demo_stored "d" "critical" 40) 0 demo_store = Ok s' /\
    newest_of 2 (upsert_all 0 [demo_stored "d" "critical" 40] (ms_seq demo_store) (ms_alerts demo_store)) (ms_alerts s').
Proof.
  exact (proj1 (memstore_writes isort 2 demo_store (demo_stored "d" "critical" 40) [] 0 demo_reach)).
Defined.

(** Queries are exact: in a reachable store, the result of [Query]
    is the requested page of a list that contains exactly the stored alerts
    that match every filter, newest first, whether the severity index or the
    binary-searched time index answers it. *)
Theorem memstore_query (sort : list byTimeEntry -> list byTimeEntry) `{SortSlice sort}
    (ToLower : gostring -> gostring) maxAlerts s f :
  ms_reach sort maxAlerts s ->
  exists l, Query ToLower s f = page f l /\ StronglySorted newer_alert l /\
    l ≡ₚ filter (fun a => matchesFilters ToLower a f = true) (map_to_list (ms_alerts s)).*2.
Proof.
  intros Hr. destruct (ms_reach_inv sort maxAlerts s Hr) as (Hi & Hso & _ & _).
  destruct (Query_spec ToLower s f Hi Hso) as (l & H1 & H2 & H3 & _). by exists l.
Qed.

Definition demo_filter : QueryFilters :=
  mkFilters zero_time 25 [] [] [] "" "" "" [] 5 0.

Lemma memstore_query_witness :
  al_ID <$> Query (fun s => s) demo_store demo_filter = ["c"]%string /\
  exists l, Query (fun s => s) demo_store demo_filter = page demo_filter l /\ StronglySorted newer_alert l.
Proof.
  split; [vm_compute; reflexivity|].
  destruct (memstore_query isort (fun s => s) 2 demo_store demo_filter) as (l & H1 & H2 & _).
  - exact demo_reach.
  - exists l. split; [exact H1 | exact H2].
Defined.

(** Retention deletes exactly the expired alerts: [Delete] removes
    the alerts whose timestamp is before [now - olderThan], keeps all others,
    and returns how many it removed. *)
Theorem memstore_delete (sort : list byTimeEntry -> list byTimeEntry) `{SortSlice sort} maxAlerts s olderThan now :
  ms_reach sort maxAlerts s -> 0 <= olderThan <= max_duration ->
  exists s' n, Delete olderThan now s = Ok (s', n) /\ n = Count s - Count s' /\
    forall id, QueryByID s' id = match QueryByID s id with
      | Some a => if al_Timestamp a <? now - olderThan then None else Some a | None => None end.
Proof.
  intros Hr Ho. destruct (ms_reach_inv sort maxAlerts s Hr) as (Hi & Hso & Hcap & _).
  destruct (Delete_spec olderThan now s Hi Hso Hcap Ho) as (s' & n & E & _ & _ & _ & Hn & Ha).
  by exists s', n.
Qed.

Lemma memstore_delete_witness :
  exists s' n, Delete 10 35 demo_store = Ok (s', n) /\ n = Count demo_store - Count s' /\
    QueryByID s' "c" = None.
Proof.
  destruct (memstore_delete isort 2 demo_store 10 35) as (s' & n & E & Hn & Ha).
  - exact demo_reach.
  - vm_compute. split; congruence.
  - exists s', n. split; [exact E|]. split; [exact Hn|]. rewrite Ha. vm_compute. reflexivity.
Defined.
