(* ===== verification/Fields.v ===== *)
(** * Event fields and the library interface of the rule engine

    Models [getFieldValue], [normaliseFieldName] and [capNameToBit] of
    src/internal/correlator/rules.go and the naming helpers of
    src/pkg/types/event.go and src/internal/util/bytes.go. What the rule
    engine takes from Go's standard library (regular expressions, CIDR and IP
    parsing, floating-point arithmetic, parsing and formatting, Unicode case
    mapping) and the floating-point DNS name analyzer are the operations of
    the type class [GoLib]; no law is assumed of them, so the theorems hold
    for every implementation. [permille_below h rate] is the comparison
    [float64(h) < rate*1000] of the sampling gate. *)
From Stdlib Require Import Ascii.
From stdpp Require Import pretty.
From S2P Require Import Prelude GoBytes Types.

(** ** What the engine calls *)

(** The part of [DomainAnalysis] the rule fields read. *)
Record DomainAnalysis (Float : Type) := mkAnalysis {
  da_Entropy : Float; da_NgramScore : Float; da_DigitRatio : Float;
  da_SubdomainCount : Z; da_IsDGA : bool }.
Arguments da_Entropy {Float}.
Arguments da_NgramScore {Float}.
Arguments da_DigitRatio {Float}.
Arguments da_SubdomainCount {Float}.
Arguments da_IsDGA {Float}.

Class GoLib := {
  Regexp : Type;
  regexp_Compile : gostring -> option Regexp;
  MatchString : Regexp -> gostring -> bool;
  IP : Type;
  IPNet : Type;
  ParseIP : gostring -> option IP;
  ParseCIDR : gostring -> option IPNet;
  IPNet_Contains : IPNet -> IP -> bool;
  IP_String : list byte -> gostring;
  Float : Type;
  ParseFloat : gostring -> option Float;
  FormatFloat4 : Float -> gostring;
  float_gt : Float -> Float -> bool;
  float_ge : Float -> Float -> bool;
  float_0 : Float;
  float_1 : Float;
  permille_below : Z -> Float -> bool;
  Duration_Seconds : Z -> Z;
  ToLower : gostring -> gostring;
  ToUpper : gostring -> gostring;
  AnalyzeDomain : gostring -> DomainAnalysis Float;
  dga_threshold : Float }.

(** [a < b] and [a <= b] on floats. *)
Definition float_lt `{GoLib} (a b : Float) : bool := float_gt b a.
Definition float_le `{GoLib} (a b : Float) : bool := float_ge b a.

(** ** Helpers *)

(** [strconv.FormatUint(z, 16)] *)
Fixpoint hex_digits (fuel : nat) (z : Z) (acc : gostring) : gostring :=
  match fuel with
  | O => acc
  | S fuel =>
      let d := Z.to_N (z mod 16) in
      let c := Ascii.ascii_of_N (if (d <? 10)%N then 48 + d else 87 + d)%N in
      if z <? 16 then String c acc else hex_digits fuel (z / 16) (String c acc)
  end.
Definition hex (z : Z) : gostring := hex_digits 16 z ""%string.

(** The text before the last [c] and from it on. *)
Fixpoint split_last (c : ascii) (s : gostring) : option (gostring * gostring) :=
  match s with
  | EmptyString => None
  | String a s' =>
      match split_last c s' with
      | Some (p, q) => Some (String a p, q)
      | None => if decide (a = c) then Some (EmptyString, s) else None
      end
  end.

Definition bool_string (b : bool) : gostring := if b then "true"%string else "false"%string.

Section fields.
Context `{GoLib}.

Definition FormatIP (addr : list byte) (family : Z) : gostring :=
  if family =? AFInet6 then IP_String addr
  else if Z.of_nat (length addr) <? 4 then "<invalid>"%string
  else IP_String (take 4 addr).
Definition FormatIP16 (addr : list byte) (family : Z) : gostring :=
  if family =? AFInet6 then IP_String addr else IP_String (take 4 addr).

Definition bpfProgTypeNames : list (Z * gostring) :=
  [ (0, "SOCKET_FILTER"); (3, "SCHED_CLS"); (4, "SCHED_ACT"); (5, "TRACEPOINT"); (6, "XDP");
    (8, "CGROUP_SKB"); (11, "SK_MSG"); (15, "KPROBE"); (17, "CGROUP_SOCK_ADDR"); (26, "LSM");
    (28, "STRUCT_OPS"); (31, "SK_LOOKUP") ]%string.

Definition BPFProgTypeName (t : Z) : gostring :=
  match assoc t bpfProgTypeNames with Some n => n | None => ("UNKNOWN_" +:+ pretty t)%string end.

Definition BPFCmdName (cmd : Z) : gostring :=
  match assoc cmd
    [ (0, "MAP_CREATE"); (1, "MAP_LOOKUP_ELEM"); (2, "MAP_UPDATE_ELEM"); (3, "MAP_DELETE_ELEM");
      (4, "MAP_GET_NEXT_KEY"); (5, "PROG_LOAD"); (6, "OBJ_PIN"); (7, "OBJ_GET"); (8, "PROG_ATTACH");
      (9, "PROG_DETACH") ]%string with
  | Some n => n
  | None => ("BPF_CMD_" +:+ pretty cmd)%string
  end.

Definition fileOpNames : list gostring := ["open"; "read"; "write"]%string.
Definition gpuOpNames : list gostring :=
  ["alloc"; "free"; "memcpy_htod"; "memcpy_dtoh"; "memcpy_dtod"; "kernel_launch"]%string.

(** A table of names indexed by a small number, decimal outside of it. *)
Definition op_name (names : list gostring) (op : Z) : gostring :=
  if op <? Z.of_nat (length names) then default ""%string (names !! Z.to_nat op) else pretty op.

Definition normaliseFieldName (field : gostring) : gostring :=
  default field (assoc field
    [ ("file.path", "filename"); ("file.op", "op"); ("file.flags", "flags"); ("file.mode", "mode");
      ("file.directory", "directory"); ("file.extension", "extension"); ("proc.comm", "comm");
      ("network.dport", "dport"); ("network.sport", "sport"); ("network.daddr", "daddr");
      ("network.saddr", "saddr"); ("network.proto", "proto"); ("network.family", "family");
      ("syscall.nr", "nr"); ("syscall.ret", "ret"); ("syscall.arg0", "arg0"); ("syscall.arg1", "arg1");
      ("syscall.arg2", "arg2"); ("syscall.arg3", "arg3"); ("syscall.arg4", "arg4");
      ("syscall.arg5", "arg5") ]%string).

(** The sentinel of an unknown field. *)
Definition fieldNotFound : gostring := String Ascii.zero "__field_not_found__".

(** ** Fields by event type: the inner [switch field] of each case *)
Abbreviation fields := (list (gostring * gostring)).

Definition proc_fields (e : Event) : fields :=
  [ ("comm", BytesToString (ev_Comm e)); ("uid", pretty (ev_UID e)) ]%string.
Definition args_fields (e : Event) : fields :=
  [ ("proc.args", ev_ProcArgs e); ("proc.args_truncated", bool_string (ev_ProcArgsTruncated e)) ]%string.
Definition family_string (family : Z) : gostring :=
  if family =? AFInet6 then "ipv6"%string else "ipv4"%string.

Definition network_fields (e : Event) (n : NetworkEvent) : fields :=
  [ ("dport", pretty (net_Dport n)); ("sport", pretty (net_Sport n));
    ("daddr", FormatIP (net_Daddr n) (net_Family n)); ("saddr", FormatIP (net_Saddr n) (net_Family n));
    ("proto", pretty (net_Proto n)); ("family", family_string (net_Family n)) ]%string
  ++ args_fields e ++ proc_fields e.

Definition file_directory (p : gostring) : gostring :=
  match split_last "/" p with Some (d, _) => d | None => "/"%string end.
Definition file_extension (p : gostring) : gostring :=
  match split_last "." p with Some (_, x) => x | None => ""%string end.

Definition file_fields (e : Event) (f : FileEvent) : fields :=
  let p := BytesToString (file_Filename f) in
  [ ("filename", p); ("fd.name", file_FDPath f);
    ("fd.name_truncated", bool_string (file_FDPathTruncated f)); ("flags", pretty (file_Flags f));
    ("mode", pretty (file_Mode f)); ("op", op_name fileOpNames (file_Op f));
    ("directory", file_directory p); ("extension", file_extension p) ]%string
  ++ args_fields e ++ proc_fields e.

(** [syscallNrStrings[nr]] is the decimal text too. *)
Definition syscall_fields (e : Event) (s : SyscallEvent) : fields :=
  let arg i := pretty (default 0 (sys_Args s !! i)) in
  [ ("nr", pretty (sys_Nr s)); ("ret", pretty (sys_Ret s)) ]%string ++ proc_fields e ++
  [ ("arg0", arg 0%nat); ("arg1", arg 1%nat); ("arg2", arg 2%nat); ("arg3", arg 3%nat);
    ("arg4", arg 4%nat); ("arg5", arg 5%nat);
    ("fd.name", match ev_File e with Some f => file_FDPath f | None => ""%string end) ]%string
  ++ args_fields e.

(** The enriched fields read the analysis of the query name, computed once per
    rule and passed in, or computed here. *)
Definition dns_fields (d : DNSEvent) (dnsAnalysis : option (DomainAnalysis Float)) : fields :=
  let a := match dnsAnalysis with Some a => a | None => AnalyzeDomain (dns_QName d) end in
  [ ("qname", dns_QName d); ("dns.qname", dns_QName d); ("qtype", pretty (dns_QType d));
    ("rcode", pretty (dns_RCode d)); ("direction", pretty (dns_Direction d));
    ("qname_length", pretty (Z.of_nat (String.length (dns_QName d))));
    ("qname_entropy", FormatFloat4 (da_Entropy a)); ("qname_dga_score", FormatFloat4 (da_NgramScore a));
    ("qname_digit_ratio", FormatFloat4 (da_DigitRatio a));
    ("qname_subdomain_count", pretty (da_SubdomainCount a));
    ("qname_is_dga", bool_string (da_IsDGA a || float_ge (da_NgramScore a) dga_threshold)) ]%string.

(** [string(data[:min(len, cap)])] *)
Definition data_string (dataLen : Z) (data : list byte) : gostring :=
  let l := if Z.of_nat (length data) <? dataLen then Z.of_nat (length data) else dataLen in
  bytes_string (take (Z.to_nat l) data).

Definition tls_fields (t : TLSEvent) : fields :=
  [ ("tls_data", data_string (tls_DataLen t) (tls_Data t)); ("data", data_string (tls_DataLen t) (tls_Data t));
    ("direction", pretty (tls_Direction t)); ("data_len", pretty (tls_DataLen t));
    ("ja3", tls_JA3 t); ("ja4", tls_JA4 t); ("ja3s", tls_JA3S t) ]%string.

Definition http_fields (e : Event) (h : HTTPEvent) : fields :=
  [ ("http_data", data_string (http_DataLen h) (http_Data h)); ("data", data_string (http_DataLen h) (http_Data h));
    ("direction", pretty (http_Direction h)); ("data_len", pretty (http_DataLen h));
    ("comm", BytesToString (ev_Comm e)) ]%string.

Definition privesc_fields (e : Event) : fields :=
  [ ("uid", pretty (ev_UID e)); ("comm", BytesToString (ev_Comm e));
    ("caps", match ev_Privesc e with Some p => "0x" +:+ hex (priv_NewCaps p) | None => "0x0" end) ]%string.

Definition netclose_fields (n : NetworkCloseEvent) : fields :=
  [ ("dport", pretty (nc_Dport n)); ("sport", pretty (nc_Sport n));
    ("daddr", FormatIP (nc_Daddr n) (nc_Family n)); ("saddr", FormatIP (nc_Saddr n) (nc_Family n));
    ("family", family_string (nc_Family n)); ("duration_sec", pretty (Duration_Seconds (nc_Duration n)));
    ("duration_ms", pretty (Z.quot (nc_Duration n) 1000000)) ]%string.

Definition gpu_fields (e : Event) (g : GPUEvent) : fields :=
  [ ("gpu_op", op_name gpuOpNames (gpu_Op g)); ("gpu_size", pretty (gpu_Size g));
    ("gpu_dev_ptr", "0x" +:+ hex (gpu_DevPtr g)); ("gpu_host_ptr", "0x" +:+ hex (gpu_HostPtr g)) ]%string
  ++ proc_fields e.

Definition cloud_fields (c : CloudAuditEvent) : fields :=
  [ ("cloud.provider", ca_Provider c); ("cloud.service", ca_Service c); ("cloud.action", ca_Action c);
    ("cloud.principal", ca_Principal c); ("cloud.resource", ca_ResourceARN c);
    ("cloud.source_ip", ca_SourceIP c); ("cloud.user_agent", ca_UserAgent c);
    ("cloud.error_code", ca_ErrorCode c); ("cloud.region", ca_Region c); ("cloud.event_id", ca_EventID c) ]%string.

Definition kmod_fields (e : Event) (k : KmodEvent) : fields :=
  [ ("name", kmod_ModName k); ("filename", kmod_ModName k); ("from_tmpfs", bool_string (kmod_FromTmpfs k));
    ("comm", BytesToString (ev_Comm e)); ("parent_comm", BytesToString (ev_ParentComm e));
    ("uid", pretty (ev_UID e)); ("fingerprint", "") ]%string.

Definition iouring_op (op : Z) : gostring := if op =? 0 then "setup"%string else "enter"%string.

Definition iouring_fields (e : Event) (i : IOUringEvent) : fields :=
  [ ("op", iouring_op (iou_Op i)); ("flags", pretty (iou_Flags i));
    ("fd", pretty (iou_Fd i)); ("to_submit", pretty (iou_ToSubmit i)) ]%string ++ proc_fields e.

Definition bpf_fields (e : Event) (b : BPFProgramEvent) : fields :=
  [ ("cmd", BPFCmdName (bpf_Cmd b)); ("cmd_nr", pretty (bpf_Cmd b));
    ("prog_type", BPFProgTypeName (bpf_ProgType b)); ("prog_type_nr", pretty (bpf_ProgType b));
    ("ret", pretty (bpf_Ret b)); ("uid", pretty (ev_UID e)); ("comm", BytesToString (ev_Comm e)) ]%string.

(** ** getFieldValue *)

(** A nil payload gives "", an unknown field the sentinel. *)
Definition payload_field {A} (field : gostring) (payload : option A) (fs : A -> fields) : gostring :=
  match payload with
  | None => ""%string
  | Some p => default fieldNotFound (assoc field (fs p))
  end.

Definition getFieldValue (e : Event) (field : gostring) (dnsAnalysis : option (DomainAnalysis Float)) : gostring :=
  let field := normaliseFieldName field in
  let t := ev_Type e in
  if t =? EventTCPConnect then payload_field field (ev_Network e) (network_fields e)
  else if t =? EventFileAccess then payload_field field (ev_File e) (file_fields e)
  else if t =? EventSyscall then payload_field field (ev_Syscall e) (syscall_fields e)
  else if t =? EventDNS then payload_field field (ev_DNS e) (fun d => dns_fields d dnsAnalysis)
  else if t =? EventTLS then payload_field field (ev_TLS e) tls_fields
  else if t =? EventHTTPPlaintext then payload_field field (ev_HTTPPlaintext e) (http_fields e)
  else if t =? EventPrivesc then default fieldNotFound (assoc field (privesc_fields e))
  else if t =? EventNetClose then payload_field field (ev_NetClose e) netclose_fields
  else if t =? EventGPU then payload_field field (ev_GPU e) (gpu_fields e)
  else if t =? EventCloudAudit then payload_field field (ev_CloudAudit e) cloud_fields
  else if t =? EventKmodLoad then payload_field field (ev_Kmod e) (kmod_fields e)
  else if t =? EventIOUring then payload_field field (ev_IOUring e) (iouring_fields e)
  else if t =? EventBPFProgram then payload_field field (ev_BPFProgram e) (bpf_fields e)
  else fieldNotFound.

(** ** Capabilities *)
Definition capBitByName : list (gostring * Z) :=
  [ ("CAP_CHOWN", 0); ("CAP_DAC_OVERRIDE", 1); ("CAP_DAC_READ_SEARCH", 2); ("CAP_FOWNER", 3);
    ("CAP_FSETID", 4); ("CAP_KILL", 5); ("CAP_SETGID", 6); ("CAP_SETUID", 7); ("CAP_SETPCAP", 8);
    ("CAP_LINUX_IMMUTABLE", 9); ("CAP_NET_BIND_SERVICE", 10); ("CAP_NET_BROADCAST", 11);
    ("CAP_NET_ADMIN", 12); ("CAP_NET_RAW", 13); ("CAP_IPC_LOCK", 14); ("CAP_IPC_OWNER", 15);
    ("CAP_SYS_MODULE", 16); ("CAP_SYS_RAWIO", 17); ("CAP_SYS_CHROOT", 18); ("CAP_SYS_PTRACE", 19);
    ("CAP_SYS_PACCT", 20); ("CAP_SYS_ADMIN", 21); ("CAP_SYS_BOOT", 22); ("CAP_SYS_NICE", 23);
    ("CAP_SYS_RESOURCE", 24); ("CAP_SYS_TIME", 25); ("CAP_SYS_TTY_CONFIG", 26); ("CAP_MKNOD", 27);
    ("CAP_LEASE", 28); ("CAP_AUDIT_WRITE", 29); ("CAP_AUDIT_CONTROL", 30); ("CAP_SETFCAP", 31);
    ("CAP_MAC_OVERRIDE", 32); ("CAP_MAC_ADMIN", 33); ("CAP_SYSLOG", 34); ("CAP_WAKE_ALARM", 35);
    ("CAP_BLOCK_SUSPEND", 36); ("CAP_AUDIT_READ", 37); ("CAP_PERFMON", 38); ("CAP_BPF", 39);
    ("CAP_CHECKPOINT_RESTORE", 40) ]%string.

Definition capNameToBit (name : gostring) : option Z := assoc (ToUpper name) capBitByName.

(** ** Lemmas *)

(** The analysis passed in by the engine does not change any field. *)
Lemma getFieldValue_analysis e field d :
  ev_DNS e = Some d ->
  getFieldValue e field (Some (AnalyzeDomain (dns_QName d))) = getFieldValue e field None.
Proof. intros Hd. unfold getFieldValue. by rewrite Hd. Qed.
End fields.

(** ** A concrete library, for evaluating the model on examples

    Patterns are literal prefixes (an open parenthesis does not compile),
    addresses are their text, a range contains the addresses it is a prefix
    of, floats are whole thousandths and case mapping is that of ASCII. *)
Definition ascii_upper (c : ascii) : ascii :=
  let n := N_of_ascii c in if (97 <=? n)%N && (n <=? 122)%N then ascii_of_N (n - 32) else c.
Definition ascii_lower (c : ascii) : ascii :=
  let n := N_of_ascii c in if (65 <=? n)%N && (n <=? 90)%N then ascii_of_N (n + 32) else c.
Fixpoint string_map (f : ascii -> ascii) (s : gostring) : gostring :=
  match s with EmptyString => EmptyString | String c s => String (f c) (string_map f s) end.

(** Decimal digits. *)
Fixpoint digits (acc : Z) (s : gostring) : option Z :=
  match s with
  | EmptyString => Some acc
  | String c s =>
      let n := Z.of_N (N_of_ascii c) in
      if (48 <=? n) && (n <=? 57) then digits (acc * 10 + (n - 48)) s else None
  end.
Definition decimal (s : gostring) : option Z :=
  match s with EmptyString => None | _ => digits 0 s end.

Definition sample_lib : GoLib := {|
  Regexp := gostring;
  regexp_Compile p := if String.prefix "(" p then None else Some p;
  MatchString := String.prefix;
  IP := gostring; IPNet := gostring;
  ParseIP s := if String.prefix "<" s then None else Some s;
  ParseCIDR s := if String.prefix "<" s then None else Some s;
  IPNet_Contains := String.prefix;
  IP_String := bytes_string;
  Float := Z;
  ParseFloat s := Z.mul 1000 <$> decimal s;
  FormatFloat4 := pretty;
  float_gt := Z.gtb; float_ge := Z.geb; float_0 := 0; float_1 := 1000;
  permille_below h rate := h <? rate;
  Duration_Seconds d := Z.quot d Second;
  ToLower := string_map ascii_lower; ToUpper := string_map ascii_upper;
  AnalyzeDomain _ := mkAnalysis _ 0 0 0 0 false;
  dga_threshold := 700 |}.
