(* ===== verification/RuleTypes.v ===== *)
(** * Detection rules: the data of the rule engine

    Models the types of src/internal/correlator/rules.go: operators and their
    integer codes, conditions, condition groups, exceptions and rules, the
    traversals that collect the conditions of a rule, and the key under which
    a value list is cached. *)
From Stdlib Require Import Ascii OrdersEx.
From stdpp Require Import sorting.
From S2P Require Import Prelude GoBytes Types Fields.

(** ** Operators *)
Abbreviation RuleConditionOperator := gostring.

Variant condOpCode :=
| condOpUnknown | condOpIn | condOpNotIn | condOpEquals | condOpNotEquals | condOpPrefix
| condOpNotPrefix | condOpSuffix | condOpNotSuffix | condOpContains | condOpRegex
| condOpGT | condOpLT | condOpGTE | condOpLTE | condOpInCIDR | condOpNotInCIDR
| condOpCapsGained | condOpCapsDropped.

#[export] Instance condOpCode_eq_dec : EqDecision condOpCode.
Proof. solve_decision. Defined.

(** The [case] labels of [opCodeOf], the aliases [eq] and [neq] included. *)
Definition operatorCodes : list (RuleConditionOperator * condOpCode) :=
  [ ("in", condOpIn); ("not_in", condOpNotIn); ("equals", condOpEquals); ("eq", condOpEquals);
    ("not_equals", condOpNotEquals); ("neq", condOpNotEquals); ("prefix", condOpPrefix);
    ("not_prefix", condOpNotPrefix); ("suffix", condOpSuffix); ("not_suffix", condOpNotSuffix);
    ("contains", condOpContains); ("regex", condOpRegex); ("gt", condOpGT); ("lt", condOpLT);
    ("gte", condOpGTE); ("lte", condOpLTE); ("in_cidr", condOpInCIDR);
    ("not_in_cidr", condOpNotInCIDR); ("caps_gained", condOpCapsGained);
    ("caps_dropped", condOpCapsDropped) ]%string.

Definition opCodeOf (op : RuleConditionOperator) : condOpCode :=
  default condOpUnknown (assoc op operatorCodes).

(** ** Conditions, groups, exceptions, rules *)

(** [setKey], [valueSet] and [opCode] are written when the engine compiles the
    rule; a rule read from a file has their zero values. *)
Record RuleCondition := mkCondition {
  rc_Field : gostring; rc_Op : RuleConditionOperator; rc_Values : list gostring;
  rc_setKey : gostring; rc_valueSet : option (gset gostring); rc_opCode : condOpCode }.

Definition condition (field : gostring) (op : RuleConditionOperator) (values : list gostring) :
  RuleCondition := mkCondition field op values ""%string None condOpUnknown.

Inductive RuleConditionGroup := mkGroup
  (Operator : gostring) (Conditions : list RuleCondition) (SubGroups : list RuleConditionGroup).

Definition rg_Operator (g : RuleConditionGroup) := let 'mkGroup o _ _ := g in o.
Definition rg_Conditions (g : RuleConditionGroup) := let 'mkGroup _ c _ := g in c.
Definition rg_SubGroups (g : RuleConditionGroup) := let 'mkGroup _ _ s := g in s.

Record RuleException := mkException {
  ex_Name : gostring; ex_Condition : RuleCondition; ex_ConditionGroup : option RuleConditionGroup }.

Definition ActionDrop : gostring := "drop"%string.
Definition ClassThreat : gostring := "threat"%string.
Definition ClassDrift : gostring := "drift"%string.

(** The nested [sampling] block of a rule file. *)
Record RuleSampling `{GoLib} := mkRuleSampling { rsam_Rate : Float; rsam_Mode : gostring }.

Record Rule `{GoLib} := mkRule {
  r_ID : gostring; r_Name : gostring; r_Description : gostring; r_EventType : Z;
  r_skipSampler : bool; r_Condition : RuleCondition; r_ConditionGroup : option RuleConditionGroup;
  r_Severity : Severity; r_Action : gostring; r_Exceptions : list RuleException;
  r_Tags : list gostring; r_Class : gostring; r_Sampling : option RuleSampling;
  r_SampleRate : Float; r_SampleDeterministic : bool }.

(** Induction over groups, through the list of subgroups. *)
Fixpoint group_ind' (P : RuleConditionGroup -> Prop)
  (H : forall o cs gs, Forall P gs -> P (mkGroup o cs gs)) (g : RuleConditionGroup) : P g :=
  match g with
  | mkGroup o cs gs =>
      H o cs gs ((fix all l : Forall P l :=
        match l with
        | [] => Forall_nil_2 P
        | g :: l => Forall_cons_2 P g l (group_ind' P H g) (all l)
        end) gs)
  end.

Section rules.
Context `{GoLib}.

Definition EffectiveClass (r : Rule) : gostring :=
  if bool_decide (r_Class r = ""%string) then ClassThreat else r_Class r.

(** ** Traversals *)
Fixpoint extractGroupConditions (g : RuleConditionGroup) : list RuleCondition :=
  match g with
  | mkGroup _ cs gs => cs ++ concat (map extractGroupConditions gs)
  end.

(** The condition or the group, whichever decides. *)
Definition main_conditions (c : RuleCondition) (g : option RuleConditionGroup) : list RuleCondition :=
  match g with Some g => extractGroupConditions g | None => [c] end.

Definition extractAllRuleConditions (r : Rule) : list RuleCondition :=
  main_conditions (r_Condition r) (r_ConditionGroup r) ++
  concat (map (fun x => main_conditions (ex_Condition x) (ex_ConditionGroup x)) (r_Exceptions r)).

(** [collectConditions] has the body of [extractGroupConditions]. *)
Definition collectConditions : RuleConditionGroup -> list RuleCondition := extractGroupConditions.

Definition getAllConditions (r : Rule) : list RuleCondition :=
  match r_ConditionGroup r with Some g => collectConditions g | None => [r_Condition r] end.
End rules.

(** ** Cache keys of value lists *)
Definition str_le (s t : gostring) : Prop := String.leb s t = true.
#[export] Instance str_le_dec s t : Decision (str_le s t) := decide (String.leb s t = true).

Definition nul : gostring := String Ascii.zero EmptyString.

(** A sorted copy joined with NUL bytes. *)
Definition valueSetKey (values : list gostring) : gostring :=
  String.concat nul (merge_sort str_le values).

(** ** Lemmas on keys *)

(** No NUL byte in a string. *)
Fixpoint nul_free (s : gostring) : bool :=
  match s with
  | EmptyString => true
  | String c s => bool_decide (c <> Ascii.zero) && nul_free s
  end.

#[export] Instance str_le_total : Total str_le.
Proof. intros s t. destruct (String.leb_total s t); auto. Qed.

#[export] Instance str_le_antisymm : AntiSymm eq str_le.
Proof. intros s t Hs Ht. by apply String.leb_antisym. Qed.

Lemma string_compare_OT s t : String.compare s t = String_as_OT.compare s t.
Proof. revert t. induction s as [|c s IH]; intros [|d t]; simpl; [done..|]. by rewrite IH. Qed.

#[export] Instance str_le_trans : Transitive str_le.
Proof.
  intros s t u. unfold str_le, String.leb. rewrite (string_compare_OT s t), (string_compare_OT t u), (string_compare_OT s u).
  destruct (String_as_OT.compare_spec s t) as [<-|Hst|]; [done| |done].
  destruct (String_as_OT.compare_spec t u) as [<-|Htu|]; intros _ ?; [| |done].
  - by rewrite Hst.
  - assert (String_as_OT.lt s u) as Hsu by (etransitivity; eauto). by rewrite Hsu.
Qed.

Lemma merge_sort_perm l k : l ≡ₚ k -> merge_sort str_le l = merge_sort str_le k.
Proof.
  intros Hp. apply (StronglySorted_unique str_le).
  - apply StronglySorted_merge_sort; apply _.
  - apply StronglySorted_merge_sort; apply _.
  - by rewrite !merge_sort_Permutation.
Qed.

Lemma nul_free_app_nul a b s t :
  nul_free a -> nul_free b ->
  (a +:+ nul +:+ s)%string = (b +:+ nul +:+ t)%string -> a = b /\ s = t.
Proof.
  revert b. induction a as [|c a IH]; intros [|d b] Ha Hb E; simpl in *; simplify_eq; [done| | |].
  - by apply andb_True in Hb as [?%bool_decide_unpack _].
  - by apply andb_True in Ha as [?%bool_decide_unpack _].
  - apply andb_True in Ha as [_ Ha]. apply andb_True in Hb as [_ Hb].
    destruct (IH b) as [-> ->]; auto.
Qed.

Lemma nul_free_no_nul a b s : nul_free a -> a <> (b +:+ nul +:+ s)%string.
Proof.
  revert b. induction a as [|c a IH]; intros b Ha E; [by destruct b|].
  apply andb_True in Ha as [Hc%bool_decide_unpack Ha].
  destruct b as [|d b]; injection E as Ec Es; [done|]. by apply (IH b).
Qed.

(** Joining with NUL is injective on non-empty lists of NUL-free strings. *)
Lemma concat_nul_inj l k :
  Forall nul_free l -> Forall nul_free k -> l <> [] -> k <> [] ->
  String.concat nul l = String.concat nul k -> l = k.
Proof.
  revert k. induction l as [|a l IH]; intros [|b k] Hl Hk Nl Nk E; try done.
  apply Forall_cons in Hl as [Ha Hl]. apply Forall_cons in Hk as [Hb Hk].
  destruct l as [|a' l], k as [|b' k].
  - simpl in E. by subst.
  - by apply nul_free_no_nul in E.
  - symmetry in E. by apply nul_free_no_nul in E.
  - apply (nul_free_app_nul a b) in E as [-> E]; [|done..]. f_equal. by apply IH.
Qed.

Lemma valueSetKey_perm l k : l ≡ₚ k -> valueSetKey l = valueSetKey k.
Proof. intros. unfold valueSetKey. by rewrite (merge_sort_perm l k). Qed.

(** Two lists with the same key are the same up to order. *)
Lemma valueSetKey_inj l k :
  Forall nul_free l -> Forall nul_free k -> l <> [] -> k <> [] ->
  valueSetKey l = valueSetKey k -> l ≡ₚ k.
Proof.
  intros Hl Hk Nl Nk E. pose proof (merge_sort_Permutation str_le l) as Pl.
  pose proof (merge_sort_Permutation str_le k) as Pk.
  unfold valueSetKey in E. apply concat_nul_inj in E.
  - by rewrite <- Pl, E.
  - by rewrite Pl.
  - by rewrite Pk.
  - intros N. rewrite N in Pl. by apply Permutation_nil_l in Pl.
  - intros N. rewrite N in Pk. by apply Permutation_nil_l in Pk.
Qed.
