(* ===== verification/Sampler.v ===== *)
(** * Per-rule sampling

    Models src/internal/correlator/sampler.go and [shouldSample] of
    src/internal/correlator/rules.go: the map of sampled rules with its
    lock-free entry count, the sampling decision (random draw or FNV hash of
    the PID and a one-second window) and the CPU-triggered adaptive overrides.
    Rates are the floats of [GoLib]; a random draw is an argument. *)
From S2P Require Import Prelude GoBytes Types Fields RuleTypes.

(** ** Operations *)
Definition SamplingModeRandom : gostring := "random"%string.
Definition SamplingModeHashPID : gostring := "hash_pid"%string.

(** [hash/fnv.New32]: FNV-1, 32 bits. *)
Definition fnv_step (h : Z) (b : byte) : Z := Z.lxor (u32 (h * 16777619)) (byte_Z b).
Definition fnv32 (l : list byte) : Z := foldl fnv_step 2166136261 l.

Section sampler.
Context `{GoLib}.

Record ruleEntry := mkEntry { se_baseRate : Float; se_adaptiveRate : Float; se_mode : gostring }.

Definition effective (e : ruleEntry) : Float :=
  if float_gt (se_adaptiveRate e) float_0 && float_lt (se_adaptiveRate e) (se_baseRate e)
  then se_adaptiveRate e else se_baseRate e.

(** [rate <= 0 || rate >= 1.0]: nothing to sample. *)
Definition unsampled (rate : Float) : bool := float_le rate float_0 || float_ge rate float_1.

Record RuleSampler := mkSampler { sp_entries : gmap gostring ruleEntry; sp_entryCount : Z }.

Definition add_entry (m : gmap gostring ruleEntry) (r : Rule) : gmap gostring ruleEntry :=
  if unsampled (r_SampleRate r) then m
  else <[r_ID r := mkEntry (r_SampleRate r) float_0
          (if r_SampleDeterministic r then SamplingModeHashPID else SamplingModeRandom)]> m.

(** [entryCount.Store(int32(len(entries)))] *)
Definition count_entries (m : gmap gostring ruleEntry) : Z := i32 (Z.of_nat (size m)).

Definition NewRuleSampler (rules : list Rule) : RuleSampler :=
  let m := foldl add_entry ∅ rules in mkSampler m (count_entries m).

(** [rnd] is the value of [rand.Float64()]. *)
Definition shouldSample (rnd : Float) (pid ts : Z) (rate : Float) (deterministic : bool) : bool :=
  if deterministic then
    permille_below (fnv32 (le_split 4 pid ++ le_split 8 (Z.shiftr ts 30)) mod 1000) rate
  else float_lt rnd rate.

(** [active], [skip] and the mode label. *)
Definition CheckSampling (s : RuleSampler) (rnd : Float) (ruleID : gostring) (pid ts : Z) :
  bool * bool * gostring :=
  match sp_entries s !! ruleID with
  | None => (false, false, ""%string)
  | Some e =>
      let rate := effective e in
      if unsampled rate then (false, false, ""%string)
      else if shouldSample rnd pid ts rate (bool_decide (se_mode e = SamplingModeHashPID))
           then (true, false, se_mode e) else (true, true, se_mode e)
  end.

Definition ShouldEvaluate (s : RuleSampler) (rnd : Float) (ruleID : gostring) (pid ts : Z) : bool :=
  match sp_entries s !! ruleID with
  | None => true
  | Some e =>
      let rate := effective e in
      if float_ge rate float_1 then true
      else shouldSample rnd pid ts rate (bool_decide (se_mode e = SamplingModeHashPID))
  end.

Definition HasSampling (s : RuleSampler) (ruleID : gostring) : bool :=
  match sp_entries s !! ruleID with
  | None => false
  | Some e => float_gt (effective e) float_0 && float_lt (effective e) float_1
  end.

Definition Mode (s : RuleSampler) (ruleID : gostring) : gostring :=
  match sp_entries s !! ruleID with
  | Some e => if bool_decide (se_mode e = ""%string) then SamplingModeRandom else se_mode e
  | None => SamplingModeRandom
  end.

(** The count is stored again only when the number of entries changed. *)
Definition with_entries (s : RuleSampler) (m : gmap gostring ruleEntry) : RuleSampler :=
  mkSampler m (if decide (size m = size (sp_entries s)) then sp_entryCount s else count_entries m).

Definition override (rate : Float) (e : option ruleEntry) : option ruleEntry :=
  match e with
  | Some e => Some (mkEntry (se_baseRate e) rate (se_mode e))
  | None => if float_gt rate float_0 && float_lt rate float_1
            then Some (mkEntry float_1 rate SamplingModeRandom) else None
  end.

Definition setAdaptiveRate (s : RuleSampler) (ruleID : gostring) (rate : Float) : RuleSampler :=
  with_entries s (partial_alter (override rate) ruleID (sp_entries s)).

Definition restore (e : option ruleEntry) : option ruleEntry :=
  match e with
  | Some e => if float_ge (se_baseRate e) float_1 then None
              else Some (mkEntry (se_baseRate e) float_0 (se_mode e))
  | None => None
  end.

Definition clearAdaptiveRate (s : RuleSampler) (ruleID : gostring) : RuleSampler :=
  with_entries s (partial_alter restore ruleID (sp_entries s)).

(** ** The adaptive sampler *)
Record AdaptiveSamplingConfig := mkAdaptiveConfig {
  as_TriggerCPUPercent : Float; as_WarningSampleRate : Float }.

Record AdaptiveSampler := mkAdaptive {
  ad_cfg : AdaptiveSamplingConfig; ad_rules : list Rule; ad_sampler : RuleSampler; ad_active : bool }.

(** The body of the loop of [check] over the rules. *)
Definition check_rule (rate : Float) (activate : bool) (s : RuleSampler) (r : Rule) : RuleSampler :=
  if bool_decide (r_Severity r = SeverityCritical) then s
  else if activate then setAdaptiveRate s (r_ID r) rate else clearAdaptiveRate s (r_ID r).

(** [pcts] is the result of [cpu.Percent], [None] for an error or no value. *)
Definition check (a : AdaptiveSampler) (pcts : option Float) : AdaptiveSampler :=
  match pcts with
  | None => a
  | Some pct =>
      let activate := float_ge pct (as_TriggerCPUPercent (ad_cfg a)) in
      if bool_decide (activate = ad_active a) then a
      else mkAdaptive (ad_cfg a) (ad_rules a)
             (foldl (check_rule (as_WarningSampleRate (ad_cfg a)) activate) (ad_sampler a) (ad_rules a))
             activate
  end.

(** ** The sampler invariant: the count is the number of entries *)
Definition sampler_ok (s : RuleSampler) : Prop :=
  sp_entryCount s = count_entries (sp_entries s).

Lemma NewRuleSampler_ok rules : sampler_ok (NewRuleSampler rules).
Proof. done. Qed.

Lemma with_entries_ok s m : sampler_ok s -> sampler_ok (with_entries s m).
Proof.
  unfold sampler_ok, with_entries, count_entries. simpl. intros Hs.
  case_decide as E; [|done]. by rewrite Hs, E.
Qed.

Lemma check_rule_ok rate b s r : sampler_ok s -> sampler_ok (check_rule rate b s r).
Proof. unfold check_rule, setAdaptiveRate, clearAdaptiveRate. repeat case_match; auto using with_entries_ok. Qed.

Lemma count_entries_pos m :
  Z.of_nat (size m) < 2 ^ 31 -> count_entries m = Z.of_nat (size m).
Proof.
  intros. unfold count_entries, i32, signed. rewrite wrap_id by (unfold in_range; lia).
  change (32 - 1) with 31. destruct (Z.ltb_spec (Z.of_nat (size m)) (2 ^ 31)); lia.
Qed.

(** Skipping the sampler when it has no entry changes nothing. *)
Lemma sampler_fast_path s rnd ruleID pid ts :
  sampler_ok s -> Z.of_nat (size (sp_entries s)) < 2 ^ 31 -> sp_entryCount s <= 0 ->
  CheckSampling s rnd ruleID pid ts = (false, false, ""%string).
Proof.
  intros Hok Hs Hc. rewrite Hok, count_entries_pos in Hc by done.
  unfold CheckSampling. assert (sp_entries s = ∅) as ->; [|done].
  apply map_size_empty_inv. lia.
Qed.

(** ** What a run of [check] does to each entry *)
Definition check_entry (rate : Float) (activate : bool) : option ruleEntry -> option ruleEntry :=
  if activate then override rate else restore.

Lemma check_entry_idemp rate b e : check_entry rate b (check_entry rate b e) = check_entry rate b e.
Proof.
  destruct b, e as [e|]; simpl; try done.
  - unfold override. by destruct (_ && _).
  - unfold restore. destruct (float_ge (se_baseRate e) float_1) eqn:E; [done|]. simpl. by rewrite ?E.
Qed.

(** The rules the adaptive sampler may downsample. *)
Definition adjustable (rules : list Rule) : list gostring :=
  map r_ID (filter (fun r => r_Severity r <> SeverityCritical) rules).

Lemma check_rule_lookup rate b s r id :
  sp_entries (check_rule rate b s r) !! id =
  if bool_decide (id ∈ adjustable [r]) then check_entry rate b (sp_entries s !! id) else sp_entries s !! id.
Proof.
  unfold check_rule, adjustable. rewrite filter_cons, filter_nil.
  destruct (decide (r_Severity r = SeverityCritical)) as [Hc|Hc].
  - rewrite bool_decide_true by done. rewrite decide_False by tauto.
    done.
  - rewrite bool_decide_false, decide_True by done. simpl.
    transitivity (partial_alter (check_entry rate b) (r_ID r) (sp_entries s) !! id); [by destruct b|].
    destruct (decide (id = r_ID r)) as [->|Hne].
    + rewrite lookup_partial_alter_eq, bool_decide_true; [done|]. apply list_elem_of_singleton. done.
    + rewrite lookup_partial_alter_ne, bool_decide_false; [done| |done]. by intros ?%list_elem_of_singleton.
Qed.

Lemma check_rules_lookup rate b s rules id :
  sp_entries (foldl (check_rule rate b) s rules) !! id =
  if bool_decide (id ∈ adjustable rules) then check_entry rate b (sp_entries s !! id) else sp_entries s !! id.
Proof.
  revert s. induction rules as [|r rules IH]; intros s; [done|]. simpl. rewrite IH, check_rule_lookup.
  replace (adjustable (r :: rules)) with (adjustable [r] ++ adjustable rules)
    by (unfold adjustable; rewrite <- map_app, <- filter_app; done).
  rewrite (bool_decide_ext (id ∈ adjustable [r] ++ adjustable rules)
             (id ∈ adjustable [r] \/ id ∈ adjustable rules)) by apply elem_of_app.
  repeat case_bool_decide; try tauto; by rewrite ?check_entry_idemp.
Qed.

Lemma check_rules_ok rate b s rules : sampler_ok s -> sampler_ok (foldl (check_rule rate b) s rules).
Proof. revert s. induction rules; simpl; auto using check_rule_ok. Qed.

(** No override is in force and no entry evaluates everything. *)
Definition no_overrides (s : RuleSampler) : Prop :=
  forall id e, sp_entries s !! id = Some e ->
    se_adaptiveRate e = float_0 /\ float_ge (se_baseRate e) float_1 = false.

Lemma no_overrides_New rules : no_overrides (NewRuleSampler rules).
Proof.
  unfold no_overrides, NewRuleSampler. simpl.
  assert (forall m, (forall id e, m !! id = Some e ->
     se_adaptiveRate e = float_0 /\ float_ge (se_baseRate e) float_1 = false) ->
     forall id e, foldl add_entry m rules !! id = Some e ->
     se_adaptiveRate e = float_0 /\ float_ge (se_baseRate e) float_1 = false) as Hg.
  { induction rules as [|r rules IH]; simpl; [done|]. intros m Hm. apply IH.
    intros id e. unfold add_entry, unsampled. case_match eqn:E; [apply Hm|].
    intros [[<- <-]|[_ Hl]]%lookup_insert_Some; [|by eapply Hm].
    simpl. by apply orb_false_iff in E as [_ ->]. }
  apply Hg. by intros ?? ?%lookup_empty_Some.
Qed.

Lemma restore_override rate e :
  float_ge float_1 float_1 = true ->
  (forall x, e = Some x -> se_adaptiveRate x = float_0 /\ float_ge (se_baseRate x) float_1 = false) ->
  restore (override rate e) = e.
Proof.
  intros H1 He. destruct e as [e|]; simpl.
  - destruct (He e) as [<- ->]; [done|]. by destruct e.
  - case_match; simpl; by rewrite ?H1.
Qed.

(** Adaptive sampling is transparent outside overload: from a sampler
    with no override in force, when the CPU load reaches the trigger exactly
    the entries of the non-critical rules get the override (a critical rule's
    entry is never touched), and when the load falls again the sampler is
    back in the very state it had, its lock-free entry count included. *)
Theorem adaptive_sampling (a : AdaptiveSampler) (hot cold : Float) :
  float_ge float_1 float_1 = true ->
  sampler_ok (ad_sampler a) -> no_overrides (ad_sampler a) -> ad_active a = false ->
  float_ge hot (as_TriggerCPUPercent (ad_cfg a)) = true ->
  float_ge cold (as_TriggerCPUPercent (ad_cfg a)) = false ->
  let a' := check a (Some hot) in
  ad_active a' = true /\
  (forall id, sp_entries (ad_sampler a') !! id =
     if bool_decide (id ∈ adjustable (ad_rules a))
     then override (as_WarningSampleRate (ad_cfg a)) (sp_entries (ad_sampler a) !! id)
     else sp_entries (ad_sampler a) !! id) /\
  check a' (Some hot) = a' /\ check a' None = a' /\
  check a' (Some cold) = a.
Proof.
  intros H1 Hok Hno Hact Hhot Hcold. unfold check. rewrite Hhot, Hact. simpl.
  rewrite Hhot, Hcold. simpl. split; [done|].
  split; [intros; apply (check_rules_lookup _ true)|]. split; [done|]. split; [done|].
  destruct a as [cfg rules s act]; simpl in *. subst act. f_equal.
  set (s1 := foldl (check_rule _ true) s rules). set (s2 := foldl _ s1 rules).
  assert (sp_entries s2 = sp_entries s) as E.
  { apply map_eq. intros id. unfold s2, s1. rewrite !check_rules_lookup. case_bool_decide; [|done].
    apply restore_override; [done|]. intros x Hx. by eapply Hno. }
  assert (sampler_ok s2) as Hok2 by (unfold s2, s1; auto using check_rules_ok).
  unfold sampler_ok in *. destruct s as [m c], s2 as [m2 c2]. simpl in *. congruence.
Qed.

(** [hash_pid] sampling is a function of the PID and of the window
    [timestamp >> 30]: events of one process in one window are all evaluated
    or all skipped, whatever the random source does; and [CheckSampling] never
    reports a skip for a rule the three-call gate would evaluate. *)
Theorem hash_sampling_stable (s : RuleSampler) (id : gostring) (e : ruleEntry) (r1 r2 : Float) (pid t1 t2 : Z) :
  sp_entries s !! id = Some e -> se_mode e = SamplingModeHashPID ->
  Z.shiftr t1 30 = Z.shiftr t2 30 ->
  CheckSampling s r1 id pid t1 = CheckSampling s r2 id pid t2 /\
  (CheckSampling s r1 id pid t1).1.2 =
    negb (unsampled (effective e)) && negb (ShouldEvaluate s r1 id pid t1).
Proof.
  intros He Hm Ht. unfold CheckSampling, ShouldEvaluate. rewrite He, Hm.
  rewrite bool_decide_true by done. unfold shouldSample. rewrite Ht. split; [done|].
  unfold unsampled. destruct (float_ge (effective e) float_1); rewrite ?orb_true_r, ?orb_false_r; [done|].
  destruct (float_le (effective e) float_0); [done|].
  by destruct (permille_below _ _).
Qed.
End sampler.

(** ** Witnesses *)
Definition sample_rule (id : gostring) (sev : Severity) (rate : Z) (det : bool) : @Rule sample_lib :=
  @mkRule sample_lib id id ""%string 1 false (condition "nr" "in" ["59"])%string None sev "alert"%string []
    [] ""%string None rate det.

Definition sample_adaptive : @AdaptiveSampler sample_lib :=
  let rules := [sample_rule "a" SeverityCritical 1000 false; sample_rule "b" SeverityWarning 1000 false;
                sample_rule "c" SeverityWarning 500 true]%string in
  @mkAdaptive sample_lib (@mkAdaptiveConfig sample_lib 80000 250) rules (NewRuleSampler rules) false.

Lemma adaptive_sampling_witness :
  let a' := check sample_adaptive (Some (90000 : @Float sample_lib)) in
  sp_entryCount (ad_sampler a') = 2 /\ sp_entries (ad_sampler a') !! "a"%string = None /\
  check a' (Some (10000 : @Float sample_lib)) = sample_adaptive.
Proof.
  split; [vm_compute; reflexivity|]. split; [vm_compute; reflexivity|].
  apply (@adaptive_sampling sample_lib sample_adaptive 90000 10000).
  - vm_compute. reflexivity.
  - vm_compute. reflexivity.
  - apply no_overrides_New.
  - vm_compute. reflexivity.
  - vm_compute. reflexivity.
  - vm_compute. reflexivity.
Defined.

Lemma hash_sampling_stable_witness :
  let s := ad_sampler sample_adaptive in
  CheckSampling s (0 : @Float sample_lib) "c"%string 42 5 =
  CheckSampling s (999 : @Float sample_lib) "c"%string 42 1000000000.
Proof.
  apply (@hash_sampling_stable sample_lib (ad_sampler sample_adaptive) "c"%string
           (@mkEntry sample_lib 500 0 SamplingModeHashPID) 0 999 42 5 1000000000).
  - vm_compute. reflexivity.
  - vm_compute. reflexivity.
  - vm_compute. reflexivity.
Defined.
