(* ===== verification/Rules.v ===== *)
(** * The rule engine

    Models src/internal/correlator/rules.go: compiling the patterns of a rule
    set into the engine's caches (inherited across hot reloads), the index of
    rules by event type, evaluation of conditions, condition groups,
    exceptions and the sampling gate, and the syscall numbers a rule set
    references. Prometheus counters and the slice pool are left out. *)
From Stdlib Require Import Ascii.
From stdpp Require Import sorting pretty.
From S2P Require Import Prelude GoBytes Types Fields RuleTypes Sampler.

(** ** Package strings *)
Definition HasPrefix (s p : gostring) : bool := String.prefix p s.
Definition HasSuffix (s p : gostring) : bool :=
  (Nat.leb (String.length p) (String.length s)) &&
  bool_decide (String.substring (String.length s - String.length p) (String.length p) s = p).
Fixpoint Contains (s sub : gostring) : bool :=
  HasPrefix s sub || match s with EmptyString => false | String _ s => Contains s sub end.

Definition hasPrefix (prefixes : list gostring) (value : gostring) : bool :=
  existsb (HasPrefix value) prefixes.

Section engine.
Context `{GoLib}.

(** ** Compiled patterns *)
Record caches := mkCaches {
  regexCache : gmap gostring Regexp;
  cidrCache : gmap gostring IPNet;
  valueSetCache : gmap gostring (gset gostring) }.

Definition empty_caches : caches := mkCaches ∅ ∅ ∅.

Variant compile_error := InvalidRegex (pattern : gostring) | InvalidCIDR (cidr : gostring).

(** Compile each value that is not cached yet; stop at the first failure. *)
Fixpoint compile_values {A} (compile : gostring -> option A) (m : gmap gostring A)
    (values : list gostring) : gmap gostring A * option gostring :=
  match values with
  | [] => (m, None)
  | v :: values =>
      match m !! v with
      | Some _ => compile_values compile m values
      | None =>
          match compile v with
          | Some x => compile_values compile (<[v := x]> m) values
          | None => (m, Some v)
          end
      end
  end.

Definition with_opcode (c : RuleCondition) : RuleCondition :=
  mkCondition (rc_Field c) (rc_Op c) (rc_Values c) (rc_setKey c) (rc_valueSet c) (opCodeOf (rc_Op c)).

Definition is_cidr_op (op : RuleConditionOperator) : bool :=
  bool_decide (op = "in_cidr"%string) || bool_decide (op = "not_in_cidr"%string).
Definition is_set_op (op : RuleConditionOperator) : bool :=
  bool_decide (op = "in"%string) || bool_decide (op = "not_in"%string).
Definition is_regex_op (op : RuleConditionOperator) : bool := bool_decide (op = "regex"%string).

(** On an error the condition keeps its old opcode. *)
Definition compileCondPtr (K : caches) (c : RuleCondition) :
  caches * RuleCondition * option compile_error :=
  if is_regex_op (rc_Op c) then
    let '(m, err) := compile_values regexp_Compile (regexCache K) (rc_Values c) in
    let K := mkCaches m (cidrCache K) (valueSetCache K) in
    match err with
    | Some p => (K, c, Some (InvalidRegex p))
    | None => (K, with_opcode c, None)
    end
  else if is_cidr_op (rc_Op c) then
    let '(m, err) := compile_values ParseCIDR (cidrCache K) (rc_Values c) in
    let K := mkCaches (regexCache K) m (valueSetCache K) in
    match err with
    | Some p => (K, c, Some (InvalidCIDR p))
    | None => (K, with_opcode c, None)
    end
  else if is_set_op (rc_Op c) then
    let key := valueSetKey (rc_Values c) in
    let m := match valueSetCache K !! key with
             | Some _ => valueSetCache K
             | None => <[key := list_to_set (rc_Values c)]> (valueSetCache K)
             end in
    let c := mkCondition (rc_Field c) (rc_Op c) (rc_Values c) key (m !! key) (rc_opCode c) in
    (mkCaches (regexCache K) (cidrCache K) m, with_opcode c, None)
  else (K, with_opcode c, None).

(** A loop that compiles in place and returns at the first error. *)
Definition compile_list {A} (f : caches -> A -> caches * A * option compile_error) :
  caches -> list A -> caches * list A * option compile_error :=
  fix go K l :=
    match l with
    | [] => (K, [], None)
    | x :: l =>
        let '(K1, x1, err) := f K x in
        match err with
        | Some e => (K1, x1 :: l, Some e)
        | None => let '(K2, l2, err) := go K1 l in (K2, x1 :: l2, err)
        end
    end.

Fixpoint compileGroupPatterns (K : caches) (g : RuleConditionGroup) :
  caches * RuleConditionGroup * option compile_error :=
  match g with
  | mkGroup o cs gs =>
      let o := ToLower o in
      let '(K1, cs1, err) := compile_list compileCondPtr K cs in
      match err with
      | Some e => (K1, mkGroup o cs1 gs, Some e)
      | None =>
          let '(K2, gs2, err) := compile_list compileGroupPatterns K1 gs in
          (K2, mkGroup o cs1 gs2, err)
      end
  end.

(** A group that may be absent. *)
Definition compile_opt_group (K : caches) (g : option RuleConditionGroup) :
  caches * option RuleConditionGroup * option compile_error :=
  match g with
  | None => (K, None, None)
  | Some g => let '(K1, g1, err) := compileGroupPatterns K g in (K1, Some g1, err)
  end.

(** An exception: its group when it has one, its condition otherwise. *)
Definition compile_exception (K : caches) (x : RuleException) :
  caches * RuleException * option compile_error :=
  match ex_ConditionGroup x with
  | Some _ =>
      let '(K1, g1, err) := compile_opt_group K (ex_ConditionGroup x) in
      (K1, mkException (ex_Name x) (ex_Condition x) g1, err)
  | None =>
      let '(K1, c1, err) := compileCondPtr K (ex_Condition x) in
      (K1, mkException (ex_Name x) c1 (ex_ConditionGroup x), err)
  end.

(** Unlike inside a group, an error in one exception does not stop the next. *)
Fixpoint compile_exceptions (K : caches) (xs : list RuleException) :
  caches * list RuleException * list compile_error :=
  match xs with
  | [] => (K, [], [])
  | x :: xs =>
      let '(K1, x1, err) := compile_exception K x in
      let '(K2, xs2, errs) := compile_exceptions K1 xs in
      (K2, x1 :: xs2, option_list err ++ errs)
  end.

Definition compile_rule (K : caches) (r : Rule) : caches * Rule * list compile_error :=
  let '(K1, c1, e1) := compileCondPtr K (r_Condition r) in
  let '(K2, g2, e2) := compile_opt_group K1 (r_ConditionGroup r) in
  let '(K3, xs3, e3) := compile_exceptions K2 (r_Exceptions r) in
  (K3, mkRule _ (r_ID r) (r_Name r) (r_Description r) (r_EventType r) (r_skipSampler r) c1 g2
         (r_Severity r) (r_Action r) xs3 (r_Tags r) (r_Class r) (r_Sampling r) (r_SampleRate r) (r_SampleDeterministic r),
   option_list e1 ++ option_list e2 ++ e3).

Fixpoint compilePatterns (K : caches) (rules : list Rule) : caches * list Rule * list compile_error :=
  match rules with
  | [] => (K, [], [])
  | r :: rules =>
      let '(K1, r1, e1) := compile_rule K r in
      let '(K2, rs2, e2) := compilePatterns K1 rules in
      (K2, r1 :: rs2, e1 ++ e2)
  end.

(** ** Patterns inherited on a hot reload *)
Definition patterns_of (sel : RuleConditionOperator -> bool) (rules : list Rule) : gset gostring :=
  list_to_set (concat (map rc_Values
    (base.filter (fun c => sel (rc_Op c)) (concat (map extractAllRuleConditions rules))))).

Definition set_keys_of (rules : list Rule) : gset gostring :=
  list_to_set (map (fun c => valueSetKey (rc_Values c))
    (base.filter (fun c => is_set_op (rc_Op c)) (concat (map extractAllRuleConditions rules)))).

(** The regex patterns, CIDR ranges and value-set keys the rules reference. *)
Definition collectRequiredPatterns (rules : list Rule) :
  gset gostring * gset gostring * gset gostring :=
  (patterns_of is_regex_op rules, patterns_of is_cidr_op rules, set_keys_of rules).

(** The entries of [prior] whose key is needed, over those of [cur]. *)
Definition inherit {A} (needed : gset gostring) (prior cur : gmap gostring A) : gmap gostring A :=
  base.filter (fun kv : gostring * A => kv.1 ∈ needed) prior ∪ cur.

Definition inheritCache (K prior : caches) (rules : list Rule) : caches :=
  let '(neededRe, neededCIDR, neededSets) := collectRequiredPatterns rules in
  mkCaches (inherit neededRe (regexCache prior) (regexCache K))
    (inherit neededCIDR (cidrCache prior) (cidrCache K))
    (inherit neededSets (valueSetCache prior) (valueSetCache K)).

(** ** The engine *)
Definition byTypeSize : Z := 24.

Record RuleEngine := mkEngine {
  re_rules : list Rule; re_byType : list (list Rule); re_caches : caches;
  re_sampler : RuleSampler; re_compileErrors : list compile_error }.

Definition with_skip (r : Rule) : Rule :=
  mkRule _ (r_ID r) (r_Name r) (r_Description r) (r_EventType r) (unsampled (r_SampleRate r))
    (r_Condition r) (r_ConditionGroup r) (r_Severity r) (r_Action r) (r_Exceptions r)
    (r_Tags r) (r_Class r) (r_Sampling r) (r_SampleRate r) (r_SampleDeterministic r).

Definition index_rule (byType : list (list Rule)) (r : Rule) : list (list Rule) :=
  let t := r_EventType r in
  if (0 <? t) && (t <? byTypeSize) then alter (fun b => b ++ [with_skip r]) (Z.to_nat t) byType
  else byType.

Definition buildTypeIndex (rules : list Rule) : list Rule * list (list Rule) :=
  (map with_skip rules, foldl index_rule (replicate (Z.to_nat byTypeSize) []) rules).

Definition NewRuleEngineWithCache (rules : list Rule) (prior : option RuleEngine) : RuleEngine :=
  let K := match prior with
           | Some p => inheritCache empty_caches (re_caches p) rules
           | None => empty_caches
           end in
  let '(K, rules1, errs) := compilePatterns K rules in
  let '(rules2, byType) := buildTypeIndex rules1 in
  mkEngine rules2 byType K (NewRuleSampler rules) errs.

Definition NewRuleEngine (rules : list Rule) : RuleEngine := NewRuleEngineWithCache rules None.

Definition CompileErrors (re : RuleEngine) : option (list compile_error) :=
  match re_compileErrors re with [] => None | errs => Some errs end.

Definition GetRules (re : RuleEngine) : list Rule := re_rules re.

(** ** Conditions *)
Definition inSetLookup (K : caches) (key value : gostring) : bool :=
  match valueSetCache K !! key with
  | Some set => bool_decide (value ∈ set)
  | None => false
  end.

(** Membership for [in]: a scan up to eight values, the prebuilt set beyond. *)
Definition value_in (K : caches) (c : RuleCondition) (value : gostring) : bool :=
  if Nat.leb (length (rc_Values c)) 8 then existsb (fun v => bool_decide (v = value)) (rc_Values c)
  else match rc_valueSet c with
       | Some set => bool_decide (value ∈ set)
       | None => inSetLookup K (rc_setKey c) value
       end.

Definition matchesCaps (e : Event) (capNames : list gostring) (gained : bool) : bool :=
  match ev_Privesc e with
  | None => false
  | Some p =>
      let delta := if gained then Z.ldiff (priv_NewCaps p) (priv_OldCaps p)
                   else Z.ldiff (priv_OldCaps p) (priv_NewCaps p) in
      existsb (fun name =>
        match capNameToBit name with
        | Some bit => negb (Z.land delta (Z.shiftl 1 bit) =? 0)
        | None => false
        end) capNames
  end.

Definition matchesRegex (K : caches) (patterns : list gostring) (value : gostring) : bool :=
  existsb (fun p => match regexCache K !! p with Some r => MatchString r value | None => false end) patterns.

Definition compareNumeric (value : gostring) (thresholds : list gostring) (cmp : Float -> Float -> bool) : bool :=
  match thresholds with
  | [] => false
  | t :: _ =>
      match ParseFloat value with
      | None => false
      | Some val =>
          match ParseFloat t with
          | None => false
          | Some threshold => cmp val threshold
          end
      end
  end.

Definition matchesCIDR (K : caches) (ipStr : gostring) (cidrs : list gostring) (expectMatch : bool) : bool :=
  match ParseIP ipStr with
  | None => false
  | Some ip =>
      if existsb (fun c => match cidrCache K !! c with Some n => IPNet_Contains n ip | None => false end) cidrs
      then expectMatch else negb expectMatch
  end.

(** Operators for which an empty field value is still compared. *)
Definition empty_ok (code : condOpCode) : bool :=
  match code with condOpEquals | condOpNotEquals | condOpNotIn => true | _ => false end.

(** The second [switch], on a value that was found. *)
Definition value_matches (K : caches) (c : RuleCondition) (value : gostring) : bool :=
  let values := rc_Values c in
  match rc_opCode c with
  | condOpIn => value_in K c value
  | condOpNotIn => negb (value_in K c value)
  | condOpEquals => match values with v :: _ => bool_decide (value = v) | [] => false end
  | condOpNotEquals => match values with v :: _ => negb (bool_decide (value = v)) | [] => true end
  | condOpPrefix => hasPrefix values value
  | condOpNotPrefix => negb (hasPrefix values value)
  | condOpSuffix => existsb (HasSuffix value) values
  | condOpNotSuffix => negb (existsb (HasSuffix value) values)
  | condOpRegex => matchesRegex K values value
  | condOpGT => compareNumeric value values float_gt
  | condOpLT => compareNumeric value values float_lt
  | condOpGTE => compareNumeric value values float_ge
  | condOpLTE => compareNumeric value values float_le
  | condOpContains => existsb (Contains value) values
  | condOpInCIDR => matchesCIDR K value values true
  | condOpNotInCIDR => matchesCIDR K value values false
  | _ => false
  end.

Definition evaluateCondition (K : caches) (e : Event) (dnsAnalysis : option (DomainAnalysis Float))
    (c : RuleCondition) : bool :=
  match rc_opCode c with
  | condOpCapsGained => matchesCaps e (rc_Values c) true
  | condOpCapsDropped => matchesCaps e (rc_Values c) false
  | code =>
      let value := getFieldValue e (rc_Field c) dnsAnalysis in
      if bool_decide (value = fieldNotFound) then false
      else if bool_decide (value = ""%string) && negb (empty_ok code) then false
      else value_matches K c value
  end.

Fixpoint evaluateConditionGroup (K : caches) (e : Event) (dnsAnalysis : option (DomainAnalysis Float))
    (g : RuleConditionGroup) : bool :=
  match g with
  | mkGroup o cs gs =>
      match cs, gs with
      | [], [] => true
      | _, _ =>
          if bool_decide (o = "or"%string) then
            existsb (evaluateCondition K e dnsAnalysis) cs || existsb (evaluateConditionGroup K e dnsAnalysis) gs
          else
            forallb (evaluateCondition K e dnsAnalysis) cs && forallb (evaluateConditionGroup K e dnsAnalysis) gs
      end
  end.

(** The group when there is one, the single condition otherwise. *)
Definition evaluate_either (K : caches) (e : Event) (dnsAnalysis : option (DomainAnalysis Float))
    (c : RuleCondition) (g : option RuleConditionGroup) : bool :=
  match g with
  | Some g => evaluateConditionGroup K e dnsAnalysis g
  | None => evaluateCondition K e dnsAnalysis c
  end.

(** ** Rules *)
Definition dns_analysis (e : Event) : option (DomainAnalysis Float) :=
  if ev_Type e =? EventDNS then AnalyzeDomain ∘ dns_QName <$> ev_DNS e else None.

(** The sampling gate: [true] when the event is evaluated. *)
Definition sampling_gate (s : RuleSampler) (rnd : Float) (e : Event) (r : Rule) : bool :=
  if negb (r_skipSampler r) || (0 <? sp_entryCount s) then
    let '(active, skip, _) := CheckSampling s rnd (r_ID r) (ev_PID e) (ev_Timestamp e) in
    negb (active && skip)
  else true.

Definition matches_conditions (K : caches) (e : Event) (r : Rule) : bool :=
  let dns := dns_analysis e in
  evaluate_either K e dns (r_Condition r) (r_ConditionGroup r) &&
  negb (existsb (fun x => evaluate_either K e dns (ex_Condition x) (ex_ConditionGroup x)) (r_Exceptions r)).

Definition matchesTyped (re : RuleEngine) (rnd : Float) (e : Event) (r : Rule) : bool :=
  sampling_gate (re_sampler re) rnd e r && matches_conditions (re_caches re) e r.

(** The alert a matching rule raises. *)
Definition rule_alert (e : Event) (r : Rule) : Alert :=
  mkAlert "" (i64 (ev_Timestamp e)) (r_ID r) (r_Name r) (r_Severity r) (ev_PID e)
    (BytesToString (ev_Comm e)) (r_Description r) "" "" None empty_enrichment e []
    "" (r_Action r) false [] 0 zero_time zero_time (r_Class r).

(** The loop over the rules of one type; [rnd i] is the draw at the [i]-th. *)
Fixpoint evaluate_rules (re : RuleEngine) (rnd : nat -> Float) (e : Event) (i : nat) (rules : list Rule) :
  list Alert :=
  match rules with
  | [] => []
  | r :: rules =>
      if negb (matchesTyped re (rnd i) e r) then evaluate_rules re rnd e (i + 1) rules
      else if bool_decide (r_Action r = ActionDrop) then evaluate_rules re rnd e (i + 1) rules
      else rule_alert e r :: evaluate_rules re rnd e (i + 1) rules
  end.

(** [uint(t) >= byTypeSize] also rejects a negative [t]. *)
Definition Evaluate (re : RuleEngine) (rnd : nat -> Float) (e : Event) : list Alert :=
  let t := ev_Type e in
  if (t <? 0) || (byTypeSize <=? t) then []
  else evaluate_rules re rnd e 0 (default [] (re_byType re !! Z.to_nat t)).

(** The callback's effect is a function on a state. *)
Fixpoint evaluate_rules_into {S} (re : RuleEngine) (rnd : nat -> Float) (e : Event) (fn : S -> Alert -> S)
    (i : nat) (rules : list Rule) (s : S) : S :=
  match rules with
  | [] => s
  | r :: rules =>
      if negb (matchesTyped re (rnd i) e r) then evaluate_rules_into re rnd e fn (i + 1) rules s
      else if bool_decide (r_Action r = ActionDrop) then evaluate_rules_into re rnd e fn (i + 1) rules s
      else evaluate_rules_into re rnd e fn (i + 1) rules (fn s (rule_alert e r))
  end.

Definition EvaluateInto {S} (re : RuleEngine) (rnd : nat -> Float) (e : Event) (fn : S -> Alert -> S) (s : S) : S :=
  let t := ev_Type e in
  if (t <? 0) || (byTypeSize <=? t) then s
  else evaluate_rules_into re rnd e fn 0 (default [] (re_byType re !! Z.to_nat t)) s.

(** ** Referenced syscalls *)
Definition defaultMonitoredSyscallsU32 : list Z :=
  [59; 322; 101; 126; 308; 272; 319; 165; 166; 155; 161; 311; 310; 241; 321].

(** The numbers one condition names; [parse] is
    [strconv.ParseInt(strings.TrimSpace(v), 10, 64)]. *)
Definition condition_syscalls (parse : gostring -> option Z) (c : RuleCondition) : list Z :=
  if bool_decide (rc_Field c <> "nr"%string) then []
  else if bool_decide (rc_Op c <> "equals"%string) && bool_decide (rc_Op c <> "in"%string) then []
  else omap (fun v => n ← parse v; if (n <? 0) || (512 <=? n) then None else Some n) (rc_Values c).

Definition rule_syscalls (parse : gostring -> option Z) (r : Rule) : list Z :=
  if r_EventType r =? EventSyscall then concat (map (condition_syscalls parse) (getAllConditions r)) else [].

Definition ReferencedSyscalls (parse : gostring -> option Z) (re : RuleEngine) : list Z :=
  let seen : gset Z := list_to_set (concat (map (rule_syscalls parse) (re_rules re)) ++ defaultMonitoredSyscallsU32) in
  merge_sort Z.le (elements seen).

(** ** What a rule means: the specification, read off the rule's text *)

(** Some listed value has the property. *)
Definition any (values : list gostring) (P : gostring -> Prop) : Prop := exists v, v ∈ values /\ P v.

Definition caps_hold (e : Event) (names : list gostring) (gained : bool) : Prop :=
  exists p, ev_Privesc e = Some p /\
  any names (fun name => exists bit, capNameToBit name = Some bit /\
    Z.testbit (priv_NewCaps p) bit = gained /\ Z.testbit (priv_OldCaps p) bit = negb gained).

Definition numeric_holds (cmp : Float -> Float -> bool) (values : list gostring) (value : gostring) : Prop :=
  exists t x y, head values = Some t /\ ParseFloat value = Some x /\ ParseFloat t = Some y /\ cmp x y = true.

Definition in_some_cidr (values : list gostring) (ip : IP) : Prop :=
  any values (fun c => exists n, ParseCIDR c = Some n /\ IPNet_Contains n ip = true).

Definition value_holds (code : condOpCode) (values : list gostring) (value : gostring) : Prop :=
  match code with
  | condOpIn => value ∈ values
  | condOpNotIn => value ∉ values
  | condOpEquals => head values = Some value
  | condOpNotEquals => head values <> Some value
  | condOpPrefix => any values (fun p => exists s, value = (p +:+ s)%string)
  | condOpNotPrefix => ~ any values (fun p => exists s, value = (p +:+ s)%string)
  | condOpSuffix => any values (fun p => exists s, value = (s +:+ p)%string)
  | condOpNotSuffix => ~ any values (fun p => exists s, value = (s +:+ p)%string)
  | condOpContains => any values (fun p => exists s t, value = (s +:+ p +:+ t)%string)
  | condOpRegex => any values (fun p => exists r, regexp_Compile p = Some r /\ MatchString r value = true)
  | condOpGT => numeric_holds float_gt values value
  | condOpLT => numeric_holds float_lt values value
  | condOpGTE => numeric_holds float_ge values value
  | condOpLTE => numeric_holds float_le values value
  | condOpInCIDR => exists ip, ParseIP value = Some ip /\ in_some_cidr values ip
  | condOpNotInCIDR => exists ip, ParseIP value = Some ip /\ ~ in_some_cidr values ip
  | _ => False
  end.

(** A condition on an event. An unknown field never matches; an empty value
    only under [equals], [not_equals] and [not_in]. *)
Definition cond_holds (e : Event) (c : RuleCondition) : Prop :=
  match opCodeOf (rc_Op c) with
  | condOpCapsGained => caps_hold e (rc_Values c) true
  | condOpCapsDropped => caps_hold e (rc_Values c) false
  | code =>
      let value := getFieldValue e (rc_Field c) None in
      value <> fieldNotFound /\ (value = ""%string -> empty_ok code) /\
      value_holds code (rc_Values c) value
  end.

Fixpoint group_holds (e : Event) (g : RuleConditionGroup) : Prop :=
  match g with
  | mkGroup o cs gs =>
      (cs = [] /\ gs = []) \/
      if decide (ToLower o = "or"%string)
      then foldr or (foldr or False (map (group_holds e) gs)) (map (cond_holds e) cs)
      else foldr and (foldr and True (map (group_holds e) gs)) (map (cond_holds e) cs)
  end.

Definition either_holds (e : Event) (c : RuleCondition) (g : option RuleConditionGroup) : Prop :=
  match g with Some g => group_holds e g | None => cond_holds e c end.

Definition rule_holds (e : Event) (r : Rule) : Prop :=
  either_holds e (r_Condition r) (r_ConditionGroup r) /\
  Forall (fun x => ~ either_holds e (ex_Condition x) (ex_ConditionGroup x)) (r_Exceptions r).

(** The event passes the rule's sampling decision. *)
Definition sampled_in (s : RuleSampler) (rnd : Float) (e : Event) (r : Rule) : Prop :=
  (CheckSampling s rnd (r_ID r) (ev_PID e) (ev_Timestamp e)).1 <> (true, true).

Definition fires (s : RuleSampler) (rnd : Float) (e : Event) (r : Rule) : Prop :=
  sampled_in s rnd e r /\ rule_holds e r /\ r_Action r <> ActionDrop.

(** The alerts of a rule list: one per firing rule, in order. *)
Inductive alerts_of (s : RuleSampler) (rnd : nat -> Float) (e : Event) : nat -> list Rule -> list Alert -> Prop :=
| alerts_nil i : alerts_of s rnd e i [] []
| alerts_hit i r rules l :
    fires s (rnd i) e r -> alerts_of s rnd e (i + 1) rules l ->
    alerts_of s rnd e i (r :: rules) (rule_alert e r :: l)
| alerts_miss i r rules l :
    ~ fires s (rnd i) e r -> alerts_of s rnd e (i + 1) rules l ->
    alerts_of s rnd e i (r :: rules) l.
End engine.

(** * Theorems *)

(** ** Strings *)
Lemma HasPrefix_spec s p : HasPrefix s p = true <-> exists t, s = (p +:+ t)%string.
Proof.
  unfold HasPrefix. revert s. induction p as [|c p IH]; intros s; simpl.
  - split; [by exists s | by destruct s].
  - destruct s as [|d s]; [split; [done | by intros [t ?]]|].
    change (String.prefix (String c p) (String d s))
      with (if Ascii.ascii_dec c d then String.prefix p s else false).
    destruct (Ascii.ascii_dec c d) as [->|Hne]; [rewrite IH|].
    + split; intros [t E]; exists t; [by rewrite E | by injection E].
    + split; [done|]. intros [t E]. by injection E.
Qed.

Lemma string_app_length s t : String.length (s +:+ t) = (String.length s + String.length t)%nat.
Proof. induction s as [|c s IH]; [done|]. change (S (String.length (s +:+ t)) = S (String.length s + String.length t))%nat. by rewrite IH. Qed.

Lemma substring_full s : String.substring 0 (String.length s) s = s.
Proof. induction s; simpl; [done | by f_equal]. Qed.

Lemma substring_app s t n : String.substring (String.length s) n (s +:+ t) = String.substring 0 n t.
Proof. induction s; simpl; auto. Qed.

Lemma substring_split s n :
  (n <= String.length s)%nat ->
  s = (String.substring 0 n s +:+ String.substring n (String.length s - n) s)%string.
Proof.
  revert n. induction s as [|c s IH]; intros [|n] Hn; simpl in *; try done; try lia.
  - change (String c s = String c (String.substring 0 (String.length s) s)). by rewrite substring_full.
  - change (String c s = String c (String.substring 0 n s +:+ String.substring n (String.length s - n) s)).
    rewrite <- IH by lia. done.
Qed.

Lemma HasSuffix_spec s p : HasSuffix s p = true <-> exists t, s = (t +:+ p)%string.
Proof.
  unfold HasSuffix. rewrite andb_true_iff, Nat.leb_le, bool_decide_eq_true. split.
  - intros [Hl E]. exists (String.substring 0 (String.length s - String.length p) s).
    rewrite <- E at 2. rewrite (substring_split s (String.length s - String.length p)) at 1 by lia.
    do 2 f_equal. lia.
  - intros [t ->]. rewrite string_app_length. split; [lia|].
    replace (String.length t + String.length p - String.length p)%nat with (String.length t) by lia.
    by rewrite substring_app, substring_full.
Qed.

Lemma Contains_spec s p : Contains s p = true <-> exists a b, s = (a +:+ p +:+ b)%string.
Proof.
  induction s as [|c s IH]; cbn [Contains]; rewrite orb_true_iff, HasPrefix_spec, ?IH.
  - split; [intros [[t E]|?]; [by exists ""%string, t | done]|].
    intros ([|] & b & E); [left; by exists b | done].
  - split.
    + intros [[t E]|(a & b & E)]; [by exists ""%string, t|]. exists (String c a), b. by rewrite E.
    + intros ([|d a] & b & E); [left; by exists b|]. right. exists a, b. by injection E.
Qed.

(** ** Conditions *)
Lemma existsb_any (f : gostring -> bool) (P : gostring -> Prop) values :
  (forall v, v ∈ values -> (f v = true <-> P v)) -> existsb f values = true <-> any values P.
Proof.
  intros Hf. rewrite existsb_exists. unfold any.
  split; intros (v & Hv & Hp); exists v; rewrite <- ?list_elem_of_In in *; (split; [done|]);
    by apply Hf.
Qed.

Lemma negb_iff (b : bool) (P : Prop) : (b = true <-> P) -> (negb b = true <-> ~ P).
Proof. destruct b; simpl; intuition congruence. Qed.

Lemma assoc_elem {A B} `{EqDecision A} (k : A) (l : list (A * B)) v : assoc k l = Some v -> (k, v) ∈ l.
Proof.
  induction l as [|[x w] l IH]; simpl; [done|]. case_decide; intros; simplify_eq; [left | right; auto].
Qed.

Section correctness.
Context `{GoLib}.

Lemma capNameToBit_nonneg name bit : capNameToBit name = Some bit -> 0 <= bit.
Proof.
  intros E%assoc_elem.
  assert (Forall (fun kb => 0 <= kb.2) capBitByName) as Hf by (repeat constructor; done).
  rewrite Forall_forall in Hf. apply (Hf _ E).
Qed.

Lemma land_bit delta bit : 0 <= bit -> negb (Z.land delta (Z.shiftl 1 bit) =? 0) = Z.testbit delta bit.
Proof.
  intros. rewrite Z.shiftl_1_l. destruct (Z.testbit delta bit) eqn:E.
  - apply negb_true_iff, Z.eqb_neq. intros E0.
    apply (f_equal (fun z => Z.testbit z bit)) in E0.
    by rewrite Z.land_spec, E, Z.pow2_bits_true, Z.bits_0 in E0 by done.
  - apply negb_false_iff, Z.eqb_eq, Z.bits_inj'. intros n Hn.
    rewrite Z.land_spec, Z.pow2_bits_eqb, Z.bits_0 by done.
    destruct (Z.eqb_spec bit n) as [->|]; [by rewrite E | by rewrite andb_false_r].
Qed.

Lemma matchesCaps_spec e names gained : matchesCaps e names gained = true <-> caps_hold e names gained.
Proof.
  unfold matchesCaps, caps_hold. destruct (ev_Privesc e) as [p|]; [|by split; [|intros (? & ? & _)]].
  transitivity (any names (fun name => exists bit, capNameToBit name = Some bit /\
    Z.testbit (priv_NewCaps p) bit = gained /\ Z.testbit (priv_OldCaps p) bit = negb gained)).
  2: { split; [intros Ha; by exists p | intros (q & Hq & Ha); by simplify_eq]. }
  apply existsb_any. intros name _. destruct (capNameToBit name) as [bit|] eqn:Eb; [|by split; [|intros (? & ? & _)]].
  rewrite land_bit by eauto using capNameToBit_nonneg.
  transitivity (Z.testbit (priv_NewCaps p) bit = gained /\ Z.testbit (priv_OldCaps p) bit = negb gained).
  - destruct gained; rewrite Z.ldiff_spec;
      destruct (Z.testbit (priv_NewCaps p) bit), (Z.testbit (priv_OldCaps p) bit); simpl; intuition congruence.
  - split; [intros; by exists bit | intros (b & Hb & ?); by simplify_eq].
Qed.

Lemma compareNumeric_spec cmp values value :
  compareNumeric value values cmp = true <-> numeric_holds cmp values value.
Proof.
  unfold compareNumeric, numeric_holds. destruct values as [|t values]; simpl.
  - split; [done|]. by intros (? & ? & ? & ? & _).
  - destruct (ParseFloat value) as [x|]; [destruct (ParseFloat t) as [y|] eqn:Et|].
    + split; [intros; by exists t, x, y|]. intros (? & ? & ? & ? & ? & ? & ?). by simplify_eq.
    + split; [done|]. intros (? & ? & ? & ? & ? & ? & ?). by simplify_eq.
    + split; [done|]. by intros (? & ? & ? & ? & ? & _).
Qed.

(** ** Caches hold what the source text denotes *)
Record caches_ok (K : caches) : Prop := {
  ok_regex : forall p r, regexCache K !! p = Some r -> regexp_Compile p = Some r;
  ok_cidr : forall c n, cidrCache K !! c = Some n -> ParseCIDR c = Some n;
  ok_sets : forall k s, valueSetCache K !! k = Some s ->
    exists vs, Forall nul_free vs /\ valueSetKey vs = k /\ s = list_to_set vs }.

Record caches_le (K1 K2 : caches) : Prop := {
  le_regex : regexCache K1 ⊆ regexCache K2;
  le_cidr : cidrCache K1 ⊆ cidrCache K2 }.

#[local] Instance caches_le_preorder : PreOrder caches_le.
Proof. split; [by split | intros ??? [] []; split; etrans; eauto]. Qed.

(** A condition compiled against the caches [K]. *)
Record cond_ok (K : caches) (c : RuleCondition) : Prop := {
  ok_code : rc_opCode c = opCodeOf (rc_Op c);
  ok_patterns : rc_opCode c = condOpRegex -> Forall (fun p => is_Some (regexCache K !! p)) (rc_Values c);
  ok_ranges : rc_opCode c = condOpInCIDR \/ rc_opCode c = condOpNotInCIDR ->
    Forall (fun p => is_Some (cidrCache K !! p)) (rc_Values c);
  ok_set : rc_opCode c = condOpIn \/ rc_opCode c = condOpNotIn ->
    (8 < length (rc_Values c))%nat -> rc_valueSet c = Some (list_to_set (rc_Values c)) }.

Lemma cond_ok_mono K1 K2 c : caches_le K1 K2 -> cond_ok K1 c -> cond_ok K2 c.
Proof.
  intros [Hr Hc] [? Hp Hn ?]. split; [done| | |done].
  - intros E. eapply Forall_impl; [by apply Hp|]. simpl. eauto using lookup_weaken_is_Some.
  - intros E. eapply Forall_impl; [by apply Hn|]. simpl. eauto using lookup_weaken_is_Some.
Qed.

Lemma value_in_spec K c value :
  cond_ok K c -> rc_opCode c = condOpIn \/ rc_opCode c = condOpNotIn ->
  value_in K c value = true <-> value ∈ rc_Values c.
Proof.
  intros Hok Hop. unfold value_in. destruct (Nat.leb_spec (length (rc_Values c)) 8).
  - rewrite existsb_eq_elem. apply bool_decide_eq_true.
  - rewrite (ok_set _ _ Hok) by auto. rewrite bool_decide_eq_true. apply elem_of_list_to_set.
Qed.

Lemma matchesRegex_spec K values value :
  caches_ok K -> Forall (fun p => is_Some (regexCache K !! p)) values ->
  matchesRegex K values value = true <->
  any values (fun p => exists r, regexp_Compile p = Some r /\ MatchString r value = true).
Proof.
  intros Hok Hf. apply existsb_any. intros p Hp. rewrite Forall_forall in Hf.
  destruct (Hf p Hp) as [r Hr]. rewrite Hr. apply (ok_regex _ Hok) in Hr.
  split; [eauto | intros (? & ? & ?); by simplify_eq].
Qed.

Lemma matchesCIDR_spec K values value expect :
  caches_ok K -> Forall (fun p => is_Some (cidrCache K !! p)) values ->
  matchesCIDR K value values expect = true <->
  exists ip, ParseIP value = Some ip /\
    if expect then in_some_cidr values ip else ~ in_some_cidr values ip.
Proof.
  intros Hok Hf. unfold matchesCIDR. destruct (ParseIP value) as [ip|]; [|by split; [|intros (? & ? & _)]].
  transitivity (if expect then in_some_cidr values ip else ~ in_some_cidr values ip).
  2: { split; [by exists ip | intros (? & ? & ?); by simplify_eq]. }
  set (b := existsb _ _).
  assert (b = true <-> in_some_cidr values ip) as Hb.
  { apply existsb_any. intros p Hp. rewrite Forall_forall in Hf.
    destruct (Hf p Hp) as [n Hn]. rewrite Hn. apply (ok_cidr _ Hok) in Hn.
    split; [eauto | intros (? & ? & ?); by simplify_eq]. }
  destruct expect, b; simpl; intuition congruence.
Qed.

Lemma value_matches_spec K c value :
  caches_ok K -> cond_ok K c ->
  value_matches K c value = true <-> value_holds (rc_opCode c) (rc_Values c) value.
Proof.
  intros HK Hc. unfold value_matches, value_holds.
  pose proof (value_in_spec K c value Hc) as Hin.
  pose proof (ok_patterns _ _ Hc) as Hp. pose proof (ok_ranges _ _ Hc) as Hr.
  assert (hasPrefix (rc_Values c) value = true <->
          any (rc_Values c) (fun p => exists s, value = (p +:+ s)%string)) as Hpre
    by (apply existsb_any; intros; apply HasPrefix_spec).
  assert (existsb (HasSuffix value) (rc_Values c) = true <->
          any (rc_Values c) (fun p => exists s, value = (s +:+ p)%string)) as Hsuf
    by (apply existsb_any; intros; apply HasSuffix_spec).
  destruct (rc_opCode c) eqn:E; try by apply compareNumeric_spec.
  - done.
  - apply Hin. auto.
  - apply negb_iff, Hin. auto.
  - destruct (rc_Values c); simpl; rewrite ?bool_decide_eq_true; intuition congruence.
  - destruct (rc_Values c); simpl; rewrite ?negb_true_iff, ?bool_decide_eq_false; intuition congruence.
  - done.
  - by apply negb_iff.
  - done.
  - by apply negb_iff.
  - apply existsb_any. intros. apply Contains_spec.
  - apply matchesRegex_spec; auto.
  - apply (matchesCIDR_spec K _ _ true); auto.
  - apply (matchesCIDR_spec K _ _ false); auto.
  - done.
  - done.
Qed.

Lemma getFieldValue_dns e field : getFieldValue e field (dns_analysis e) = getFieldValue e field None.
Proof.
  unfold dns_analysis. destruct (Z.eqb_spec (ev_Type e) EventDNS); [|done].
  destruct (ev_DNS e) as [d|] eqn:E; [|done]. simpl. by apply getFieldValue_analysis.
Qed.

(** The evaluator of a compiled condition decides the condition. *)
Lemma evaluateCondition_spec K e c :
  caches_ok K -> cond_ok K c ->
  evaluateCondition K e (dns_analysis e) c = true <-> cond_holds e c.
Proof.
  intros HK Hc. pose proof (value_matches_spec K c (getFieldValue e (rc_Field c) None) HK Hc) as Hv.
  unfold evaluateCondition, cond_holds. rewrite getFieldValue_dns, <- (ok_code _ _ Hc).
  set (v := getFieldValue e (rc_Field c) None) in *.
  assert (forall code, (if bool_decide (v = fieldNotFound) then false
      else if bool_decide (v = ""%string) && negb (empty_ok code) then false
      else value_matches K c v) = true <->
    v <> fieldNotFound /\ (v = ""%string -> empty_ok code) /\ value_holds (rc_opCode c) (rc_Values c) v) as Hg.
  { intros code. case_bool_decide as E1; [by intuition|]. rewrite <- Hv.
    case_bool_decide as E2; [|simpl; intuition congruence].
    destruct (empty_ok code); simpl; [intuition|]. split; [done|]. intros (_ & He & _). by destruct (He E2). }
  destruct (rc_opCode c) eqn:E; try apply Hg; apply matchesCaps_spec.
Qed.

(** ** Compilation *)

(** The patterns of the condition compile; the values of an [in] list have no
    NUL byte, the separator of the set cache's keys. *)
Definition good_cond (c : RuleCondition) : Prop :=
  (is_regex_op (rc_Op c) -> Forall (fun p => is_Some (regexp_Compile p)) (rc_Values c)) /\
  (is_cidr_op (rc_Op c) -> Forall (fun p => is_Some (ParseCIDR p)) (rc_Values c)) /\
  (is_set_op (rc_Op c) -> Forall nul_free (rc_Values c)).

Lemma opCodeOf_elem op code : opCodeOf op = code -> code <> condOpUnknown -> (op, code) ∈ operatorCodes.
Proof.
  unfold opCodeOf. destruct (assoc op operatorCodes) as [c|] eqn:E; simpl; [|done].
  intros -> _. by apply assoc_elem.
Qed.

Lemma opCodeOf_classes op :
  (opCodeOf op = condOpRegex -> is_regex_op op) /\
  (opCodeOf op = condOpInCIDR \/ opCodeOf op = condOpNotInCIDR -> is_cidr_op op) /\
  (opCodeOf op = condOpIn \/ opCodeOf op = condOpNotIn -> is_set_op op).
Proof.
  destruct (decide (opCodeOf op = condOpUnknown)) as [E|E].
  { rewrite E. split_and!; [done| |]; by intros []. }
  pose proof (opCodeOf_elem op _ eq_refl E) as Hin. revert Hin.
  generalize (opCodeOf op). intros code Hin. unfold operatorCodes in Hin.
  repeat (apply elem_of_cons in Hin as [Hin|Hin];
    [injection Hin as -> ->; split_and!; vm_compute; intuition congruence|]).
  by apply not_elem_of_nil in Hin.
Qed.

Lemma compile_values_spec {A} (compile : gostring -> option A) m vs :
  (forall k x, m !! k = Some x -> compile k = Some x) ->
  Forall (fun p => is_Some (compile p)) vs ->
  exists m', compile_values compile m vs = (m', None) /\ m ⊆ m' /\
    (forall k x, m' !! k = Some x -> compile k = Some x) /\
    Forall (fun p => is_Some (m' !! p)) vs.
Proof.
  revert m. induction vs as [|v vs IH]; intros m Hm Hf; simpl; [by exists m|].
  apply Forall_cons in Hf as [[x Hx] Hf]. destruct (m !! v) as [y|] eqn:E.
  - destruct (IH m Hm Hf) as (m' & -> & Hle & Hok & Hall). exists m'. split_and!; auto.
    constructor; [|done]. exists y. by eapply lookup_weaken.
  - rewrite Hx. destruct (IH (<[v:=x]> m)) as (m' & -> & Hle & Hok & Hall); [|done|].
    { intros k y [[<- <-]|[_ ?]]%lookup_insert_Some; auto. }
    exists m'. split_and!; auto.
    + etrans; [by apply insert_subseteq|done].
    + constructor; [|done]. exists x. eapply lookup_weaken; [|done]. apply lookup_insert_eq.
Qed.

(** The set found under the key of a list of more than eight values is the
    set of that list, whichever condition or engine put it there. *)
Lemma cached_set_right K vs s :
  caches_ok K -> Forall nul_free vs -> (8 < length vs)%nat ->
  valueSetCache K !! valueSetKey vs = Some s -> s = list_to_set vs.
Proof.
  intros HK Hf Hlen Hs. destruct (ok_sets _ HK _ _ Hs) as (ws & Hw & Hk & ->).
  assert (ws ≡ₚ vs) as Hp; [|by rewrite Hp]. destruct ws as [|w ws].
  - exfalso. unfold valueSetKey in Hk.
    pose proof (merge_sort_Permutation str_le vs) as Hp. apply Permutation_length in Hp.
    destruct (merge_sort str_le vs) as [|a [|b l]]; simpl in Hp; try lia.
    by destruct a.
  - apply valueSetKey_inj; try done. by intros ->; simpl in Hlen; lia.
Qed.

(** The result of compiling [x]: sound, larger caches, no error and [Q]. *)
Definition compiles_to {A} (Q : caches -> A -> A -> Prop) (K : caches) (x : A)
    (res : caches * A * option compile_error) : Prop :=
  let '(K1, x1, err) := res in caches_ok K1 /\ caches_le K K1 /\ err = None /\ Q K1 x1 x.

(** [x1] evaluated over any later caches decides what [x] means. *)
Definition decides {A} (eval : caches -> Event -> A -> bool) (holds : Event -> A -> Prop)
    (K : caches) (x1 x : A) : Prop :=
  forall K2 e, caches_le K K2 -> caches_ok K2 -> eval K2 e x1 = true <-> holds e x.

Definition eval_cond (K : caches) (e : Event) := evaluateCondition K e (dns_analysis e).
Definition eval_group (K : caches) (e : Event) := evaluateConditionGroup K e (dns_analysis e).

Lemma decides_mono {A} eval holds K1 K2 (x1 x : A) :
  caches_le K1 K2 -> decides eval holds K1 x1 x -> decides eval holds K2 x1 x.
Proof. intros Hle Hd K3 e H3. apply Hd. by etrans. Qed.

Lemma cache_set_ok K vs :
  caches_ok K -> Forall nul_free vs ->
  let key := valueSetKey vs in
  let m := match valueSetCache K !! key with
           | Some _ => valueSetCache K
           | None => <[key := list_to_set vs]> (valueSetCache K)
           end in
  caches_ok (mkCaches (regexCache K) (cidrCache K) m) /\
  ((8 < length vs)%nat -> m !! key = Some (list_to_set vs)).
Proof.
  intros HK Hf. simpl. destruct (valueSetCache K !! valueSetKey vs) as [s|] eqn:E.
  - split; [by destruct K|]. intros Hlen. rewrite E. f_equal. by eapply cached_set_right.
  - split; [|intros _; apply lookup_insert_eq]. split; simpl; [apply HK..|].
    intros k s [[<- <-]|[_ Hs]]%lookup_insert_Some; [eauto|]. by apply HK.
Qed.

Lemma compileCondPtr_spec K c :
  caches_ok K -> good_cond c ->
  compiles_to (decides eval_cond cond_holds) K c (compileCondPtr K c).
Proof.
  intros HK (Hre & Hci & Hse).
  assert (forall K1 c1, rc_Field c1 = rc_Field c -> rc_Op c1 = rc_Op c -> rc_Values c1 = rc_Values c ->
    cond_ok K1 c1 -> decides eval_cond cond_holds K1 c1 c) as Hd.
  { intros K1 c1 Ef Eo Ev Hc K2 e Hle H2. unfold eval_cond.
    rewrite evaluateCondition_spec by eauto using cond_ok_mono.
    unfold cond_holds. by rewrite Ef, Eo, Ev. }
  destruct (opCodeOf_classes (rc_Op c)) as (Cr & Cc & Cs). unfold compileCondPtr.
  destruct (is_regex_op (rc_Op c)) eqn:Er; [|destruct (is_cidr_op (rc_Op c)) eqn:Ec;
    [|destruct (is_set_op (rc_Op c)) eqn:Es]].
  - destruct (compile_values_spec regexp_Compile (regexCache K) (rc_Values c)) as (m & -> & Hle & Hok & Hall);
      [apply HK | by apply Hre|]. split_and!; [by split; [|apply HK|apply HK] | by split | done|].
    apply Hd; [done..|]. split; simpl; auto; intros Hx.
    + apply Cc in Hx. apply bool_decide_eq_true in Er. by rewrite Er in Hx.
    + apply Cs in Hx. apply bool_decide_eq_true in Er. by rewrite Er in Hx.
  - destruct (compile_values_spec ParseCIDR (cidrCache K) (rc_Values c)) as (m & -> & Hle & Hok & Hall);
      [apply HK | by apply Hci|]. split_and!; [by split; [apply HK| |apply HK] | by split | done|].
    apply Hd; [done..|]. split; simpl; auto; intros Hx.
    + by apply Cr in Hx.
    + apply Cs in Hx. apply orb_true_iff in Ec as [Ec%bool_decide_eq_true|Ec%bool_decide_eq_true];
        by rewrite Ec in Hx.
  - destruct (cache_set_ok K (rc_Values c)) as [Hok Hset]; [done | by apply Hse|].
    split_and!; [done | by split | done|]. apply Hd; [done..|].
    split; simpl; auto; intros Hx; [by apply Cr in Hx | by apply Cc in Hx].
  - split_and!; [done | done | done|]. apply Hd; [done..|].
    split; simpl; auto; intros Hx; [by apply Cr in Hx | by apply Cc in Hx | by apply Cs in Hx].
Qed.

Lemma compile_list_spec {A} f (Q : caches -> A -> A -> Prop) l K :
  (forall K1 K2 x1 x, caches_le K1 K2 -> Q K1 x1 x -> Q K2 x1 x) ->
  Forall (fun x => forall K, caches_ok K -> compiles_to Q K x (f K x)) l ->
  caches_ok K -> compiles_to (fun K => Forall2 (Q K)) K l (compile_list f K l).
Proof.
  intros Hmono Hf. revert K. induction Hf as [|x l Hx Hf IH]; intros K HK; simpl; [by split_and!|].
  specialize (Hx K HK). destruct (f K x) as [[K1 x1] err]. destruct Hx as (H1 & Hle & -> & HQ).
  specialize (IH K1 H1). destruct (compile_list f K1 l) as [[K2 l2] err]. destruct IH as (H2 & Hle2 & -> & HQ2).
  split_and!; [done | by etrans | done|]. constructor; eauto.
Qed.

Lemma existsb_holds {A} (f : A -> bool) (h : A -> Prop) l1 l b (P : Prop) :
  Forall2 (fun x1 x => f x1 = true <-> h x) l1 l -> (b = true <-> P) ->
  existsb f l1 || b = true <-> foldr or P (map h l).
Proof.
  intros Hf Hb. induction Hf as [|x1 x l1 l Hx Hf IH]; simpl; [done|].
  by rewrite <- orb_assoc, orb_true_iff, Hx, IH.
Qed.

Lemma forallb_holds {A} (f : A -> bool) (h : A -> Prop) l1 l b (P : Prop) :
  Forall2 (fun x1 x => f x1 = true <-> h x) l1 l -> (b = true <-> P) ->
  forallb f l1 && b = true <-> foldr and P (map h l).
Proof.
  intros Hf Hb. induction Hf as [|x1 x l1 l Hx Hf IH]; simpl; [done|].
  by rewrite <- andb_assoc, andb_true_iff, Hx, IH.
Qed.

Lemma Forall2_decides {A} eval holds K K2 e (l1 l : list A) :
  Forall2 (decides eval holds K) l1 l -> caches_le K K2 -> caches_ok K2 ->
  Forall2 (fun x1 x => eval K2 e x1 = true <-> holds e x) l1 l.
Proof. intros Hf Hle HK. eapply Forall2_impl; [done|]. intros x1 x Hd. by apply Hd. Qed.

Lemma group_decides K o cs1 cs gs1 gs :
  Forall2 (decides eval_cond cond_holds K) cs1 cs ->
  Forall2 (decides eval_group group_holds K) gs1 gs ->
  decides eval_group group_holds K (mkGroup (ToLower o) cs1 gs1) (mkGroup o cs gs).
Proof.
  intros Hcs Hgs K2 e Hle HK2. pose proof (Forall2_decides _ _ _ _ e _ _ Hcs Hle HK2) as Hc.
  pose proof (Forall2_decides _ _ _ _ e _ _ Hgs Hle HK2) as Hg. unfold eval_group. simpl.
  fold (eval_group K2 e) (eval_cond K2 e).
  assert (existsb (eval_cond K2 e) cs1 || existsb (eval_group K2 e) gs1 = true <->
    foldr or (foldr or False (map (group_holds e) gs)) (map (cond_holds e) cs)) as Hor.
  { apply existsb_holds; [done|]. rewrite <- (orb_false_r (existsb _ gs1)). by apply existsb_holds. }
  assert (forallb (eval_cond K2 e) cs1 && forallb (eval_group K2 e) gs1 = true <->
    foldr and (foldr and True (map (group_holds e) gs)) (map (cond_holds e) cs)) as Hand.
  { apply forallb_holds; [done|]. rewrite <- (andb_true_r (forallb _ gs1)). by apply forallb_holds. }
  rewrite (bool_decide_decide (ToLower o = "or"%string)).
  inversion Hcs; inversion Hgs; subst; [by split; auto|..];
    destruct (decide (ToLower o = "or"%string)); rewrite ?Hor, ?Hand;
    (split; [by right | by intros [[? ?]|]]).
Qed.

Lemma compileGroupPatterns_spec g K :
  caches_ok K -> Forall good_cond (extractGroupConditions g) ->
  compiles_to (decides eval_group group_holds) K g (compileGroupPatterns K g).
Proof.
  revert K. induction g as [o cs gs IH] using group_ind'. intros K HK Hg. simpl in *.
  apply Forall_app in Hg as [Hcs Hgs].
  pose proof (compile_list_spec compileCondPtr (decides eval_cond cond_holds) cs K) as H1.
  destruct (compile_list compileCondPtr K cs) as [[K1 cs1] err].
  destruct H1 as (HK1 & Hle1 & -> & HQ1); [eauto using decides_mono| |done|].
  { eapply Forall_impl; [done|]. intros. by apply compileCondPtr_spec. }
  pose proof (compile_list_spec compileGroupPatterns (decides eval_group group_holds) gs K1) as H2.
  destruct (compile_list compileGroupPatterns K1 gs) as [[K2 gs2] err].
  destruct H2 as (HK2 & Hle2 & -> & HQ2); [eauto using decides_mono| |done|].
  { rewrite Forall_forall in IH |- *. intros g Hin K3 HK3. apply IH; [done..|].
    rewrite Forall_concat, Forall_map, Forall_forall in Hgs. by apply Hgs. }
  split_and!; [done | by etrans | done|]. apply group_decides; [|done].
  eapply Forall2_impl; [done|]. intros. by eapply decides_mono.
Qed.

Definition eval_exception (K : caches) (e : Event) (x : RuleException) : bool :=
  evaluate_either K e (dns_analysis e) (ex_Condition x) (ex_ConditionGroup x).
Definition exception_holds (e : Event) (x : RuleException) : Prop :=
  either_holds e (ex_Condition x) (ex_ConditionGroup x).
Definition good_exception (x : RuleException) : Prop :=
  Forall good_cond (main_conditions (ex_Condition x) (ex_ConditionGroup x)).

(** Every condition of the rule is good, the unused single condition of a rule
    with a group included. *)
Definition good_rule (r : Rule) : Prop :=
  good_cond (r_Condition r) /\ Forall good_cond (extractAllRuleConditions r).

Lemma compile_exception_spec K x :
  caches_ok K -> good_exception x ->
  compiles_to (decides eval_exception exception_holds) K x (compile_exception K x).
Proof.
  intros HK Hg. unfold good_exception in Hg.
  unfold compile_exception, compile_opt_group. destruct (ex_ConditionGroup x) as [g|] eqn:Eg; simpl in Hg.
  - pose proof (compileGroupPatterns_spec g K HK Hg) as Hc.
    destruct (compileGroupPatterns K g) as [[K1 g1] err]. destruct Hc as (H1 & Hle & -> & HQ).
    split_and!; [done..|]. intros K2 e. unfold exception_holds. rewrite Eg. apply HQ.
  - apply Forall_cons in Hg as [Hg _]. pose proof (compileCondPtr_spec K _ HK Hg) as Hc.
    destruct (compileCondPtr K (ex_Condition x)) as [[K1 c1] err]. destruct Hc as (H1 & Hle & -> & HQ).
    split_and!; [done..|]. intros K2 e. unfold exception_holds. rewrite Eg. apply HQ.
Qed.

Lemma compile_exceptions_spec K xs :
  caches_ok K -> Forall good_exception xs ->
  let '(K1, xs1, errs) := compile_exceptions K xs in
  caches_ok K1 /\ caches_le K K1 /\ errs = [] /\ Forall2 (decides eval_exception exception_holds K1) xs1 xs.
Proof.
  intros HK Hf. revert K HK. induction Hf as [|x xs Hx Hf IH]; intros K HK; simpl; [by split_and!|].
  pose proof (compile_exception_spec K x HK Hx) as Hc.
  destruct (compile_exception K x) as [[K1 x1] err]. destruct Hc as (H1 & Hle & -> & HQ).
  specialize (IH K1 H1). destruct (compile_exceptions K1 xs) as [[K2 xs2] errs].
  destruct IH as (H2 & Hle2 & -> & HQ2). split_and!; [done | by etrans | done|].
  constructor; [by eapply decides_mono | done].
Qed.

(** The compiled rule raises the same alerts of the same type, with the same
    sampling configuration, and decides the rule. *)
Record rule_ok (K : caches) (r1 r : Rule) : Prop := {
  ok_type : r_EventType r1 = r_EventType r;
  ok_id : r_ID r1 = r_ID r;
  ok_rate : r_SampleRate r1 = r_SampleRate r;
  ok_alert : forall e, rule_alert e r1 = rule_alert e r;
  ok_decides : decides matches_conditions rule_holds K r1 r }.

Lemma rule_ok_mono K1 K2 r1 r : caches_le K1 K2 -> rule_ok K1 r1 r -> rule_ok K2 r1 r.
Proof. intros Hle []. split; eauto using decides_mono. Qed.

Lemma matches_conditions_decides K r1 r :
  (forall K2 e, caches_le K K2 -> caches_ok K2 ->
     evaluate_either K2 e (dns_analysis e) (r_Condition r1) (r_ConditionGroup r1) = true <->
     either_holds e (r_Condition r) (r_ConditionGroup r)) ->
  Forall2 (decides eval_exception exception_holds K) (r_Exceptions r1) (r_Exceptions r) ->
  decides matches_conditions rule_holds K r1 r.
Proof.
  intros Hm Hx K2 e Hle HK2. unfold matches_conditions, rule_holds.
  rewrite andb_true_iff, Hm by done. fold (eval_exception K2 e) (exception_holds e).
  rewrite negb_true_iff. f_equiv.
  pose proof (Forall2_decides _ _ _ _ e _ _ Hx Hle HK2) as Hf.
  induction Hf as [|x1 x l1 l Hd Hf IH]; simpl; [by split|]. inversion Hx; subst.
  rewrite orb_false_iff, Forall_cons, <- IH by done. rewrite <- Hd.
  unfold eval_exception. by rewrite not_true_iff_false.
Qed.

Lemma compile_rule_spec K r :
  caches_ok K -> good_rule r ->
  let '(K1, r1, errs) := compile_rule K r in
  caches_ok K1 /\ caches_le K K1 /\ errs = [] /\ rule_ok K1 r1 r.
Proof.
  intros HK [Hc Hall]. unfold extractAllRuleConditions in Hall. apply Forall_app in Hall as [Hm Hx].
  unfold compile_rule. pose proof (compileCondPtr_spec K _ HK Hc) as H1.
  destruct (compileCondPtr K (r_Condition r)) as [[K1 c1] e1]. destruct H1 as (HK1 & Hle1 & -> & HQ1).
  assert (let '(K2, g2, err) := compile_opt_group K1 (r_ConditionGroup r) in
    caches_ok K2 /\ caches_le K1 K2 /\ err = None /\
    forall K3 e, caches_le K2 K3 -> caches_ok K3 ->
     evaluate_either K3 e (dns_analysis e) c1 g2 = true <->
     either_holds e (r_Condition r) (r_ConditionGroup r)) as H2.
  { unfold compile_opt_group. destruct (r_ConditionGroup r) as [g|]; simpl in Hm.
    - pose proof (compileGroupPatterns_spec g K1 HK1 Hm) as Hg.
      destruct (compileGroupPatterns K1 g) as [[K2 g2] err]. destruct Hg as (? & ? & -> & HQ).
      split_and!; [done..|]. apply HQ.
    - split_and!; [done..|]. apply HQ1. }
  destruct (compile_opt_group K1 (r_ConditionGroup r)) as [[K2 g2] e2]. destruct H2 as (HK2 & Hle2 & -> & HQ2).
  assert (Forall good_exception (r_Exceptions r)) as Hgx.
  { rewrite Forall_concat, Forall_map in Hx. exact Hx. }
  pose proof (compile_exceptions_spec K2 _ HK2 Hgx) as H3.
  destruct (compile_exceptions K2 (r_Exceptions r)) as [[K3 xs3] e3]. destruct H3 as (HK3 & Hle3 & -> & HQ3).
  split_and!; [done | by do 2 (etrans; [done|]) | done|]. split; simpl; try done.
  apply matches_conditions_decides; simpl; [|done].
  intros K4 e Hle4. apply HQ2. by etrans.
Qed.

Lemma compilePatterns_spec K rules :
  caches_ok K -> Forall good_rule rules ->
  let '(K1, rules1, errs) := compilePatterns K rules in
  caches_ok K1 /\ caches_le K K1 /\ errs = [] /\ Forall2 (rule_ok K1) rules1 rules.
Proof.
  intros HK Hf. revert K HK. induction Hf as [|r rules Hr Hf IH]; intros K HK; simpl; [by split_and!|].
  pose proof (compile_rule_spec K r HK Hr) as H1.
  destruct (compile_rule K r) as [[K1 r1] e1]. destruct H1 as (HK1 & Hle1 & -> & HQ1).
  specialize (IH K1 HK1). destruct (compilePatterns K1 rules) as [[K2 rs2] e2].
  destruct IH as (HK2 & Hle2 & -> & HQ2). split_and!; [done | by etrans | done|].
  constructor; [by eapply rule_ok_mono | done].
Qed.

(** ** Engines and reloads *)
Lemma empty_caches_ok : caches_ok empty_caches.
Proof. split; simpl; intros ?? Hl; by apply lookup_empty_Some in Hl. Qed.

Lemma inherit_Some {A} needed (prior : gmap gostring A) k x :
  inherit needed prior ∅ !! k = Some x <-> prior !! k = Some x /\ k ∈ needed.
Proof. unfold inherit. by rewrite map_union_empty, map_lookup_filter_Some. Qed.

Lemma inheritCache_ok prior rules : caches_ok prior -> caches_ok (inheritCache empty_caches prior rules).
Proof.
  intros [H1 H2 H3]. split; simpl; intros ?? [Hl _]%inherit_Some; eauto.
Qed.

(** The adaptive sampler changes rates behind the engine's back. *)
Definition with_sampler (re : RuleEngine) (s : RuleSampler) : RuleEngine :=
  mkEngine (re_rules re) (re_byType re) (re_caches re) s (re_compileErrors re).

(** Engines produced by a history of reloads of validated rule sets. *)
Inductive reloaded : option RuleEngine -> Prop :=
| reloaded_none : reloaded None
| reloaded_next prior rules s :
    reloaded prior -> Forall good_rule rules ->
    reloaded (Some (with_sampler (NewRuleEngineWithCache rules prior) s)).

Definition prior_caches (prior : option RuleEngine) (rules : list Rule) : caches :=
  match prior with
  | Some p => inheritCache empty_caches (re_caches p) rules
  | None => empty_caches
  end.

Lemma New_compiled rules prior :
  caches_ok (prior_caches prior rules) -> Forall good_rule rules ->
  exists K rules1, NewRuleEngineWithCache rules prior =
    mkEngine (map with_skip rules1) (buildTypeIndex rules1).2 K (NewRuleSampler rules) [] /\
    caches_ok K /\ Forall2 (rule_ok K) rules1 rules.
Proof.
  intros HK Hg. pose proof (compilePatterns_spec _ _ HK Hg) as Hc.
  unfold NewRuleEngineWithCache. fold (prior_caches prior rules).
  destruct (compilePatterns (prior_caches prior rules) rules) as [[K rs1] errs].
  destruct Hc as (H1 & _ & -> & H2). by exists K, rs1.
Qed.

Lemma reloaded_caches_ok prior rules : reloaded prior -> caches_ok (prior_caches prior rules).
Proof.
  intros Hr. revert rules. induction Hr as [|prior rs s Hr IH Hg]; intros rules; simpl; [apply empty_caches_ok|].
  apply inheritCache_ok. destruct (New_compiled rs prior (IH rs) Hg) as (K & rs1 & -> & HK & _). done.
Qed.

(** ** The type index *)
Definition of_type (t : Z) (rules : list Rule) : list Rule := base.filter (fun r => r_EventType r = t) rules.

(** The rules of the event's type, for a type the index covers. *)
Definition rules_for (e : Event) (rules : list Rule) : list Rule :=
  if (0 <? ev_Type e) && (ev_Type e <? byTypeSize) then of_type (ev_Type e) rules else [].

Lemma index_lookup t rules B :
  0 < t < byTypeSize ->
  foldl index_rule B rules !! Z.to_nat t =
  (fun b => b ++ map with_skip (of_type t rules)) <$> B !! Z.to_nat t.
Proof.
  intros Ht. revert B. induction rules as [|r rules IH]; intros B; simpl.
  { destruct (B !! Z.to_nat t); simpl; [by rewrite app_nil_r|done]. }
  rewrite IH. unfold index_rule, of_type. rewrite filter_cons.
  destruct (decide (r_EventType r = t)) as [->|Hne].
  - assert ((0 <? t) && (t <? byTypeSize) = true) as -> by (unfold byTypeSize in *; lia).
    rewrite list_lookup_alter_eq. destruct (B !! Z.to_nat t); simpl; [|done]. by rewrite <- app_assoc.
  - case_match eqn:E; [|done]. zbool. rewrite list_lookup_alter_ne by lia. done.
Qed.

Lemma index_lookup_0 rules B : foldl index_rule B rules !! 0%nat = B !! 0%nat.
Proof.
  revert B. induction rules as [|r rules IH]; intros B; simpl; [done|]. rewrite IH.
  unfold index_rule. case_match eqn:E; [|done]. zbool. by rewrite list_lookup_alter_ne by lia.
Qed.

Lemma bucket_of_event rules e :
  (if (ev_Type e <? 0) || (byTypeSize <=? ev_Type e) then []
   else default [] ((buildTypeIndex rules).2 !! Z.to_nat (ev_Type e))) = map with_skip (rules_for e rules).
Proof.
  unfold rules_for. set (t := ev_Type e). cbn [buildTypeIndex snd].
  destruct ((t <? 0) || (byTypeSize <=? t)) eqn:E.
  { apply orb_true_iff in E. assert ((0 <? t) && (t <? byTypeSize) = false) as ->; [|done].
    apply andb_false_iff. rewrite Z.ltb_lt, Z.leb_le in E. rewrite !Z.ltb_ge. lia. }
  zbool. destruct (decide (t = 0)) as [->|Hne].
  - rewrite index_lookup_0. done.
  - assert ((0 <? t) && (t <? byTypeSize) = true) as -> by lia.
    rewrite index_lookup by lia. rewrite lookup_replicate_2; [done|]. unfold byTypeSize in *. lia.
Qed.

Lemma rules_for_ok K e rules1 rules :
  Forall2 (rule_ok K) rules1 rules -> Forall2 (rule_ok K) (rules_for e rules1) (rules_for e rules).
Proof.
  intros Hf. unfold rules_for. case_match; [|constructor].
  unfold of_type. induction Hf as [|r1 r l1 l Hr Hf IH]; [constructor|].
  rewrite !filter_cons, (ok_type _ _ _ Hr). case_decide; [by constructor|done].
Qed.

(** ** Evaluation *)
Lemma sampling_gate_spec s rnd e r1 r :
  sampler_ok s -> Z.of_nat (size (sp_entries s)) < 2 ^ 31 -> r_ID r1 = r_ID r ->
  sampling_gate s rnd e (with_skip r1) = true <-> sampled_in s rnd e r.
Proof.
  intros Hok Hs Hid. unfold sampling_gate, sampled_in. simpl. rewrite Hid.
  case_match eqn:E.
  - destruct (CheckSampling s rnd (r_ID r) (ev_PID e) (ev_Timestamp e)) as [[[] []] m]; simpl; intuition congruence.
  - apply orb_false_iff in E as [_ E]. zbool. rewrite sampler_fast_path by (done || lia). done.
Qed.

Lemma evaluate_rules_spec re rnd e i rules1 rules :
  caches_ok (re_caches re) -> sampler_ok (re_sampler re) ->
  Z.of_nat (size (sp_entries (re_sampler re))) < 2 ^ 31 ->
  Forall2 (rule_ok (re_caches re)) rules1 rules ->
  alerts_of (re_sampler re) rnd e i rules (evaluate_rules re rnd e i (map with_skip rules1)).
Proof.
  intros HK Hs Hn Hf. revert i. induction Hf as [|r1 r l1 l Hr Hf IH]; intros i; cbn [map evaluate_rules].
  { constructor. }
  assert (matchesTyped re (rnd i) e (with_skip r1) = true <->
    sampled_in (re_sampler re) (rnd i) e r /\ rule_holds e r) as Hm.
  { unfold matchesTyped. rewrite andb_true_iff, (sampling_gate_spec _ _ _ r1 r) by eauto using ok_id.
    apply and_iff_compat_l. apply (ok_decides _ _ _ Hr); done. }
  assert (r_Action (with_skip r1) = r_Action r) as Ea.
  { pose proof (f_equal al_Action (ok_alert _ _ _ Hr e)) as E. exact E. }
  assert (rule_alert e (with_skip r1) = rule_alert e r) as -> by (rewrite <- (ok_alert _ _ _ Hr); done).
  rewrite Ea. destruct (matchesTyped re (rnd i) e (with_skip r1)); simpl.
  - case_bool_decide as Ed; [apply alerts_miss | apply alerts_hit]; try apply IH;
      unfold fires; intuition congruence.
  - apply alerts_miss; [|apply IH]. unfold fires. intuition congruence.
Qed.

Lemma alerts_of_fun s rnd e i rules l k :
  alerts_of s rnd e i rules l -> alerts_of s rnd e i rules k -> l = k.
Proof.
  intros Hl. revert k. induction Hl as [|i r rules l Hf Hl IH|i r rules l Hf Hl IH];
    intros k Hk; inversion Hk; subst; try done; [f_equal|]; auto.
Qed.

(** ** Invariants of the caches under compilation *)
Definition all_conditions (r : Rule) : list RuleCondition := r_Condition r :: extractAllRuleConditions r.

Section invariant.
Context (I : caches -> Prop) (D : RuleCondition -> Prop).
Hypothesis step : forall K c, D c -> I K -> I (compileCondPtr K c).1.1.

Lemma compile_list_invariant {A} (f : caches -> A -> caches * A * option compile_error) l K :
  Forall (fun x => forall K, I K -> I (f K x).1.1) l -> I K -> I (compile_list f K l).1.1.
Proof.
  intros Hf. revert K. induction Hf as [|x l Hx Hf IH]; intros K HK; simpl; [done|].
  specialize (Hx K HK). destruct (f K x) as [[K1 x1] [err|]]; [done|].
  specialize (IH K1 Hx). by destruct (compile_list f K1 l) as [[K2 l2] err].
Qed.

Lemma compileGroup_invariant g K :
  Forall D (extractGroupConditions g) -> I K -> I (compileGroupPatterns K g).1.1.
Proof.
  revert K. induction g as [o cs gs IH] using group_ind'. intros K HD HK. simpl in *.
  apply Forall_app in HD as [Hcs Hgs].
  pose proof (compile_list_invariant compileCondPtr cs K) as H1.
  destruct (compile_list compileCondPtr K cs) as [[K1 cs1] [err|]]; simpl in H1.
  { apply H1; [|done]. eapply Forall_impl; [done|]. auto. }
  pose proof (compile_list_invariant compileGroupPatterns gs K1) as H2.
  destruct (compile_list compileGroupPatterns K1 gs) as [[K2 gs2] err]. simpl in *. apply H2.
  - rewrite Forall_concat, Forall_map in Hgs. rewrite Forall_forall in IH, Hgs |- *. auto.
  - apply H1; [|done]. eapply Forall_impl; [done|]. auto.
Qed.

Lemma compile_exception_invariant x K :
  Forall D (main_conditions (ex_Condition x) (ex_ConditionGroup x)) -> I K -> I (compile_exception K x).1.1.
Proof.
  intros HD HK. unfold compile_exception, compile_opt_group, main_conditions in *.
  destruct (ex_ConditionGroup x) as [g|].
  - pose proof (compileGroup_invariant g K HD HK) as Hg.
    by destruct (compileGroupPatterns K g) as [[K1 g1] err].
  - apply Forall_cons in HD as [HD _]. pose proof (step K _ HD HK) as Hc.
    by destruct (compileCondPtr K (ex_Condition x)) as [[K1 c1] err].
Qed.

Lemma compile_exceptions_invariant xs K :
  Forall D (concat (map (fun x => main_conditions (ex_Condition x) (ex_ConditionGroup x)) xs)) ->
  I K -> I (compile_exceptions K xs).1.1.
Proof.
  revert K. induction xs as [|x xs IH]; intros K HD HK; simpl in *; [done|].
  apply Forall_app in HD as [Hx HD]. pose proof (compile_exception_invariant x K Hx HK) as Hc.
  destruct (compile_exception K x) as [[K1 x1] err]. specialize (IH K1 HD Hc).
  by destruct (compile_exceptions K1 xs) as [[K2 xs2] errs].
Qed.

Lemma compile_rule_invariant r K : Forall D (all_conditions r) -> I K -> I (compile_rule K r).1.1.
Proof.
  intros [Hc [Hm Hx]%Forall_app]%Forall_cons HK. unfold compile_rule.
  pose proof (step K _ Hc HK) as H1. destruct (compileCondPtr K (r_Condition r)) as [[K1 c1] e1].
  assert (I (compile_opt_group K1 (r_ConditionGroup r)).1.1) as H2.
  { unfold compile_opt_group. destruct (r_ConditionGroup r) as [g|]; [|done].
    pose proof (compileGroup_invariant g K1 Hm H1) as Hg.
    by destruct (compileGroupPatterns K1 g) as [[K2 g2] err]. }
  destruct (compile_opt_group K1 (r_ConditionGroup r)) as [[K2 g2] e2].
  pose proof (compile_exceptions_invariant _ K2 Hx H2) as H3.
  by destruct (compile_exceptions K2 (r_Exceptions r)) as [[K3 xs3] e3].
Qed.

Lemma compilePatterns_invariant rules K :
  Forall (fun r => Forall D (all_conditions r)) rules -> I K -> I (compilePatterns K rules).1.1.
Proof.
  intros Hf. revert K. induction Hf as [|r rules Hr Hf IH]; intros K HK; simpl; [done|].
  pose proof (compile_rule_invariant r K Hr HK) as H1. destruct (compile_rule K r) as [[K1 r1] e1].
  specialize (IH K1 H1). by destruct (compilePatterns K1 rules) as [[K2 rs2] e2].
Qed.

(** Each rule is compiled over caches with the invariant. *)
Lemma compilePatterns_at rules K i r :
  Forall (fun r => Forall D (all_conditions r)) rules -> I K -> rules !! i = Some r ->
  exists K0, I K0 /\ (compilePatterns K rules).1.2 !! i = Some (compile_rule K0 r).1.2 /\
    (compile_rule K0 r).2 ⊆ (compilePatterns K rules).2.
Proof.
  intros Hf. revert K i. induction Hf as [|q rules Hq Hf IH]; intros K i HK Hi; [done|]. simpl.
  pose proof (compile_rule_invariant q K Hq HK) as H1. destruct (compile_rule K q) as [[K1 q1] e1] eqn:Eq.
  destruct i as [|i]; simpl in Hi.
  - simplify_eq. exists K. rewrite Eq.
    destruct (compilePatterns K1 rules) as [[K2 rs2] e2]. simpl. split_and!; [done..|].
    apply list_subseteq_app_l. done.
  - destruct (IH K1 i H1 Hi) as (K0 & H0 & Hl & Hs).
    destruct (compilePatterns K1 rules) as [[K2 rs2] e2]. simpl in *.
    exists K0. split_and!; [done..|]. by apply list_subseteq_app_r.
Qed.
End invariant.

Lemma compile_values_keys {A} compile (m : gmap gostring A) vs k x :
  (compile_values compile m vs).1 !! k = Some x -> m !! k = Some x \/ (k ∈ vs /\ compile k = Some x).
Proof.
  revert m. induction vs as [|v vs IH]; intros m; simpl; [auto|].
  destruct (m !! v); [|destruct (compile v) eqn:E; [|simpl; auto]].
  - intros [?|[? ?]]%IH; [auto|]. right. split; [by right|done].
  - intros [Hk|[? ?]]%IH; [|right; split; [by right|done]].
    apply lookup_insert_Some in Hk as [[<- <-]|[_ ?]]; [|auto]. right. split; [by left|done].
Qed.

Lemma compile_values_fails {A} compile (m : gmap gostring A) vs p :
  (forall k x, m !! k = Some x -> compile k = Some x) ->
  p ∈ vs -> compile p = None -> exists q, (compile_values compile m vs).2 = Some q.
Proof.
  revert m. induction vs as [|v vs IH]; intros m Hm Hp Hc; simpl; [by apply not_elem_of_nil in Hp|].
  destruct (m !! v) eqn:Em; [|destruct (compile v) eqn:E; [|by exists v]].
  - apply elem_of_cons in Hp as [->|Hp]; [|auto]. apply Hm in Em. congruence.
  - apply elem_of_cons in Hp as [->|Hp]; [congruence|]. apply IH; [|done..].
    intros k x [[<- <-]|[_ ?]]%lookup_insert_Some; auto.
Qed.

(** Every cached pattern is a value of one of the conditions [cs]. *)
Record referenced (cs : list RuleCondition) (K : caches) : Prop := {
  ref_regex : forall p r, regexCache K !! p = Some r -> exists c, c ∈ cs /\ is_regex_op (rc_Op c) /\ p ∈ rc_Values c;
  ref_cidr : forall p n, cidrCache K !! p = Some n -> exists c, c ∈ cs /\ is_cidr_op (rc_Op c) /\ p ∈ rc_Values c;
  ref_sets : forall k s, valueSetCache K !! k = Some s ->
    exists c, c ∈ cs /\ is_set_op (rc_Op c) /\ valueSetKey (rc_Values c) = k }.

Lemma compileCondPtr_referenced cs K c :
  c ∈ cs -> referenced cs K -> referenced cs (compileCondPtr K c).1.1.
Proof.
  intros Hc [H1 H2 H3]. unfold compileCondPtr.
  destruct (is_regex_op (rc_Op c)) eqn:Er; [|destruct (is_cidr_op (rc_Op c)) eqn:Ec;
    [|destruct (is_set_op (rc_Op c)) eqn:Es; [|done]]].
  - pose proof (compile_values_keys regexp_Compile (regexCache K) (rc_Values c)) as Hk.
    destruct (compile_values _ _ _) as [m [q|]]; simpl in *; (split; simpl; [|done..]);
      intros p r [?|[? _]]%Hk; eauto; exists c; by rewrite Er.
  - pose proof (compile_values_keys ParseCIDR (cidrCache K) (rc_Values c)) as Hk.
    destruct (compile_values _ _ _) as [m [q|]]; simpl in *; (split; simpl; [done| |done]);
      intros p r [?|[? _]]%Hk; eauto; exists c; by rewrite Ec.
  - split; simpl; [done..|]. destruct (valueSetCache K !! valueSetKey (rc_Values c)); [done|].
    intros k s [[<- _]|[_ ?]]%lookup_insert_Some; [|eauto]. exists c. by rewrite Es.
Qed.

Lemma inherit_referenced prior rules cs :
  (forall c, c ∈ concat (map extractAllRuleConditions rules) -> c ∈ cs) ->
  referenced cs (inheritCache empty_caches prior rules).
Proof.
  intros Hcs. split; simpl; intros p x [_ Hp]%inherit_Some; unfold patterns_of, set_keys_of in Hp;
    rewrite elem_of_list_to_set in Hp.
  - apply list_elem_of_In, in_concat in Hp as (vs & Hvs%list_elem_of_In & Hp%list_elem_of_In).
    apply list_elem_of_fmap in Hvs as (c & -> & [Ho Hc]%list_elem_of_filter). eauto.
  - apply list_elem_of_In, in_concat in Hp as (vs & Hvs%list_elem_of_In & Hp%list_elem_of_In).
    apply list_elem_of_fmap in Hvs as (c & -> & [Ho Hc]%list_elem_of_filter). eauto.
  - apply list_elem_of_fmap in Hp as (c & -> & [Ho Hc]%list_elem_of_filter). eauto.
Qed.

Lemma Evaluate_alerts rules prior s rnd e :
  Forall good_rule rules -> reloaded prior -> sampler_ok s -> Z.of_nat (size (sp_entries s)) < 2 ^ 31 ->
  alerts_of s rnd e 0 (rules_for e rules)
    (Evaluate (with_sampler (NewRuleEngineWithCache rules prior) s) rnd e).
Proof.
  intros Hg Hp Hs Hn.
  destruct (New_compiled rules prior (reloaded_caches_ok _ _ Hp) Hg) as (K & rs1 & -> & HK & Hf).
  unfold Evaluate. cbn [with_sampler re_byType].
  pose proof (bucket_of_event rs1 e) as Hb.
  destruct ((ev_Type e <? 0) || (byTypeSize <=? ev_Type e)).
  - pose proof (rules_for_ok K e _ _ Hf) as Hr. destruct (rules_for e rs1); [|done].
    inversion Hr. constructor.
  - rewrite Hb. apply (evaluate_rules_spec (with_sampler (mkEngine _ _ K _ _) s)); simpl; [done..|].
    by apply rules_for_ok.
Qed.

(** ** The engine *)


(** [EvaluateInto] hands its callback exactly the alerts [Evaluate]
    returns, in the same order. *)
Theorem EvaluateInto_Evaluate {S} (re : RuleEngine) (rnd : nat -> Float) (e : Event)
    (fn : S -> Alert -> S) (st : S) :
  EvaluateInto re rnd e fn st = foldl fn st (Evaluate re rnd e).
Proof.
  unfold EvaluateInto, Evaluate. destruct (_ || _); [done|].
  generalize (default [] (re_byType re !! Z.to_nat (ev_Type e))). intros rules.
  generalize 0%nat. revert st. induction rules as [|r rules IH]; intros st i; simpl; [done|].
  destruct (negb _); [apply IH|]. case_bool_decide; apply IH.
Qed.

(** A reload drops stale patterns: whatever the prior engine had
    cached, every regex, CIDR range and value set in the new engine's caches
    belongs to a condition of the new rules. *)
Theorem reload_drops_stale (rules : list Rule) (prior : option RuleEngine) :
  referenced (concat (map all_conditions rules)) (re_caches (NewRuleEngineWithCache rules prior)).
Proof.
  unfold NewRuleEngineWithCache. fold (prior_caches prior rules).
  set (cs := concat (map all_conditions rules)).
  assert (referenced cs (prior_caches prior rules)) as H0.
  { destruct prior as [p|]; simpl.
    - apply inherit_referenced. intros c Hc. unfold cs. apply list_elem_of_In, in_concat in Hc as (l & Hl & Hc).
      apply in_map_iff in Hl as (r & <- & Hr). apply list_elem_of_In, in_concat.
      exists (all_conditions r). split; [by apply in_map | by right].
    - split; simpl; intros ?? Hl; by apply lookup_empty_Some in Hl. }
  pose proof (compilePatterns_invariant (referenced cs) (fun c => c ∈ cs)) as Hi.
  specialize (Hi (compileCondPtr_referenced cs) rules (prior_caches prior rules)).
  destruct (compilePatterns (prior_caches prior rules) rules) as [[K rs1] errs]. simpl in *.
  apply Hi; [|done]. apply Forall_forall. intros r Hr. apply Forall_forall. intros c Hc. unfold cs.
  apply list_elem_of_In, in_concat. exists (all_conditions r).
  split; [apply in_map|]; by apply list_elem_of_In.
Qed.

(** The regex cache holds only what its patterns compile to. *)
Definition regex_sound (K : caches) : Prop :=
  forall p r, regexCache K !! p = Some r -> regexp_Compile p = Some r.

Lemma compileCondPtr_regex_sound K c : regex_sound K -> regex_sound (compileCondPtr K c).1.1.
Proof.
  intros Hs. unfold compileCondPtr, regex_sound.
  destruct (is_regex_op (rc_Op c)); [|destruct (is_cidr_op (rc_Op c));
    [|destruct (is_set_op (rc_Op c)); done]].
  - pose proof (compile_values_keys regexp_Compile (regexCache K) (rc_Values c)) as Hk.
    destruct (compile_values _ _ _) as [m [q|]]; simpl in *; intros p r [?|[_ ?]]%Hk; auto.
  - by destruct (compile_values _ _ _) as [m [q|]].
Qed.

(** A rule with an invalid regular expression is reported and inert:
    in a rule set that holds a freshly read single-condition rule one of whose
    patterns does not compile, the engine records a compile error, and the
    compiled rule matches no event, whatever else the rule set holds. *)
Theorem invalid_regex_inert (rules : list Rule) (prior : option RuleEngine) (i : nat) (r : Rule) (p : gostring) :
  reloaded prior -> rules !! i = Some r ->
  r_ConditionGroup r = None -> rc_Op (r_Condition r) = "regex"%string ->
  rc_opCode (r_Condition r) = condOpUnknown ->
  p ∈ rc_Values (r_Condition r) -> regexp_Compile p = None ->
  let re := NewRuleEngineWithCache rules prior in
  CompileErrors re <> None /\
  exists r1, re_rules re !! i = Some r1 /\ r_ID r1 = r_ID r /\
    forall K e, matches_conditions K e r1 = false.
Proof.
  intros Hp Hi Hg Hop Hcode Hin Hc. unfold NewRuleEngineWithCache. fold (prior_caches prior rules).
  assert (regex_sound (prior_caches prior rules)) as H0
    by (intros ??; apply (reloaded_caches_ok prior rules Hp)).
  pose proof (compilePatterns_at regex_sound (fun _ => True)
    (fun K c _ => compileCondPtr_regex_sound K c) rules (prior_caches prior rules) i r) as Hat.
  destruct Hat as (K0 & HK0 & Hl & Hs); [by repeat (apply Forall_forall; intros) | done..|].
  destruct (compilePatterns (prior_caches prior rules) rules) as [[K rs1] errs]. simpl in *.
  destruct (compile_values_fails regexp_Compile (regexCache K0) _ p HK0 Hin Hc) as [q Hq].
  assert (exists K1, compileCondPtr K0 (r_Condition r) = (K1, r_Condition r, Some (InvalidRegex q))) as [K1 E1].
  { unfold compileCondPtr. rewrite Hop. simpl. destruct (compile_values _ _ _) as [m err].
    simpl in Hq. subst err. eauto. }
  unfold compile_rule in Hl, Hs. rewrite E1, Hg in Hl, Hs. simpl in Hl, Hs.
  destruct (compile_exceptions K1 (r_Exceptions r)) as [[K3 xs3] e3]. simpl in *. split.
  - intros E. unfold CompileErrors in E. simpl in E. destruct errs; [|discriminate E]. apply (not_elem_of_nil (InvalidRegex q)), Hs. by left.
  - eexists. split; [rewrite list_lookup_fmap, Hl; reflexivity|]. split; [done|]. intros K' e.
    unfold matches_conditions. simpl. apply andb_false_iff. left. unfold evaluateCondition. rewrite Hcode.
    case_bool_decide; [done|]. destruct (_ && _); [done|].
    unfold value_matches. by rewrite Hcode.
Qed.

(** ** Referenced syscalls *)
Lemma elem_of_condition_syscalls parse c n :
  n ∈ condition_syscalls parse c <->
  rc_Field c = "nr"%string /\ (rc_Op c = "equals"%string \/ rc_Op c = "in"%string) /\
  0 <= n < 512 /\ any (rc_Values c) (fun v => parse v = Some n).
Proof.
  unfold condition_syscalls, any. case_bool_decide as Hf; [split; [by intros ?%not_elem_of_nil | tauto]|].
  destruct (bool_decide _ && bool_decide _) eqn:Ho.
  { apply andb_true_iff in Ho as [Ho1%bool_decide_eq_true Ho2%bool_decide_eq_true].
    split; [by intros ?%not_elem_of_nil | tauto]. }
  assert (rc_Op c = "equals"%string \/ rc_Op c = "in"%string) as Hop.
  { apply andb_false_iff in Ho as [Ho%bool_decide_eq_false|Ho%bool_decide_eq_false];
      apply dec_stable in Ho; auto. }
  rewrite list_elem_of_omap. split.
  - intros (v & Hv & Hn). destruct (parse v) as [m|] eqn:Em; simpl in Hn; [|done].
    destruct ((m <? 0) || (512 <=? m)) eqn:Eb; simplify_eq. zbool. split_and!; eauto; lia.
  - intros (_ & _ & Hr & v & Hv & Hp). exists v. rewrite Hp. simpl. split; [done|].
    destruct ((n <? 0) || (512 <=? n)) eqn:Eb; [|done]. apply orb_true_iff in Eb as [?|?]; zbool; lia.
Qed.

Lemma elem_of_ReferencedSyscalls parse re n :
  n ∈ ReferencedSyscalls parse re <->
  n ∈ defaultMonitoredSyscallsU32 \/
  exists r c, r ∈ re_rules re /\ r_EventType r = EventSyscall /\ c ∈ getAllConditions r /\
    n ∈ condition_syscalls parse c.
Proof.
  unfold ReferencedSyscalls. rewrite merge_sort_Permutation, elem_of_elements, elem_of_list_to_set, elem_of_app.
  etrans; [apply Logic.or_comm|]. apply or_iff_compat_l. rewrite list_elem_of_In, in_concat. split.
  - intros (l & Hl & Hn). apply in_map_iff in Hl as (r & <- & Hr). unfold rule_syscalls in Hn.
    destruct (Z.eqb_spec (r_EventType r) EventSyscall) as [Ht|]; [|done].
    apply in_concat in Hn as (l & Hl & Hn). apply in_map_iff in Hl as (c & <- & Hc).
    exists r, c. by rewrite !list_elem_of_In.
  - intros (r & c & Hr & Ht & Hc & Hn). exists (rule_syscalls parse r).
    apply list_elem_of_In in Hr, Hc, Hn. split; [by apply in_map|]. unfold rule_syscalls.
    rewrite Ht, Z.eqb_refl. apply in_concat. eexists. split; [by apply in_map|done].
Qed.

(** The syscall numbers pushed to the kernel filter: a sorted list
    without duplicates that holds every security-baseline default and, beyond
    these, exactly the numbers below 512 that some [equals] or [in] condition
    on the field [nr] of a syscall rule lists. *)
Theorem referenced_syscalls (parse : gostring -> option Z) (re : RuleEngine) :
  Sorted Z.le (ReferencedSyscalls parse re) /\ NoDup (ReferencedSyscalls parse re) /\
  forall n, n ∈ ReferencedSyscalls parse re <->
    n ∈ defaultMonitoredSyscallsU32 \/
    exists r c, r ∈ re_rules re /\ r_EventType r = EventSyscall /\ c ∈ getAllConditions r /\
      rc_Field c = "nr"%string /\ (rc_Op c = "equals"%string \/ rc_Op c = "in"%string) /\
      0 <= n < 512 /\ any (rc_Values c) (fun v => parse v = Some n).
Proof.
  split_and!.
  - apply Sorted_merge_sort. apply _.
  - unfold ReferencedSyscalls. rewrite merge_sort_Permutation. apply NoDup_elements.
  - intros n. rewrite elem_of_ReferencedSyscalls. by setoid_rewrite elem_of_condition_syscalls.
Qed.

(** A syscall rule that lists one number, on the field [field] with operator
    [op]. *)
Definition syscall_rule (field op : gostring) (n : Z) : Rule :=
  mkRule _ "r"%string "r"%string "d"%string EventSyscall false (condition field op [pretty n]) None
    SeverityWarning "alert"%string [] [] ""%string None float_1 false.

Definition syscall_event (n : Z) : Event :=
  mkEvent EventSyscall 0 1 1 0 0 (zeros 16) (zeros 16) (Some (mkSyscallEvent n 0 [0;0;0;0;0;0]))
    None None None None None None None None None None None None None None None ""%string false.

(** The verdicts of one rule that is not sampled. *)
Lemma single_rule_fires (r : Rule) (rnd : nat -> Float) (e : Event) :
  good_rule r -> unsampled (r_SampleRate r) = true -> rules_for e [r] = [r] ->
  rule_holds e r -> r_Action r <> ActionDrop ->
  Evaluate (NewRuleEngine [r]) rnd e = [rule_alert e r].
Proof.
  intros Hg Hu Ht Hh Ha.
  assert (NewRuleSampler [r] = mkSampler ∅ 0) as Hs by (unfold NewRuleSampler; simpl; unfold add_entry; by rewrite Hu).
  pose proof (Evaluate_alerts [r] None (mkSampler ∅ 0) rnd e) as Hev.
  assert (with_sampler (NewRuleEngineWithCache [r] None) (mkSampler ∅ 0) = NewRuleEngine [r]) as E.
  { unfold NewRuleEngine, NewRuleEngineWithCache.
    destruct (compilePatterns _ _) as [[K rs] errs]. destruct (buildTypeIndex rs) as [rs2 bt].
    unfold with_sampler. simpl. by rewrite Hs. }
  rewrite E, Ht in Hev. eapply alerts_of_fun; [apply Hev; [by constructor | constructor | done | done]|].
  apply alerts_hit; [|constructor]. split; [|done]. by unfold sampled_in, CheckSampling.
Qed.

Lemma compileCondPtr_text K c :
  let c1 := (compileCondPtr K c).1.2 in
  rc_Field c1 = rc_Field c /\ rc_Op c1 = rc_Op c /\ rc_Values c1 = rc_Values c.
Proof.
  unfold compileCondPtr. repeat case_match; simplify_eq; done.
Qed.

Lemma syscall_rule_referenced parse field op n m :
  m ∈ ReferencedSyscalls parse (NewRuleEngine [syscall_rule field op n]) <->
  m ∈ defaultMonitoredSyscallsU32 \/
  (field = "nr"%string /\ (op = "equals"%string \/ op = "in"%string) /\ 0 <= m < 512 /\
   parse (pretty n) = Some m).
Proof.
  rewrite elem_of_ReferencedSyscalls. apply or_iff_compat_l.
  unfold NewRuleEngine, NewRuleEngineWithCache. simpl. unfold compile_rule. simpl.
  destruct (compileCondPtr_text empty_caches (condition field op [pretty n])) as (Hf & Ho & Hv).
  destruct (compileCondPtr empty_caches (condition field op [pretty n])) as [[K c1] err]. simpl in *.
  split.
  - intros (r & c & ->%list_elem_of_singleton & _ & Hc & Hm). simpl in Hc. apply list_elem_of_singleton in Hc as ->.
    apply elem_of_condition_syscalls in Hm as (? & ? & ? & v & Hin & ?).
    simpl in *. rewrite Hv in Hin. apply list_elem_of_singleton in Hin as ->. split_and!; congruence || lia || (by rewrite <- Ho).
  - intros (-> & Hop & Hr & Hp). eexists _, c1. split; [by left|]. split; [done|]. split; [by left|].
    apply elem_of_condition_syscalls. rewrite Hf, Ho, Hv. split_and!; [done..|lia|lia|].
    exists (pretty n). split; [by left|done].
Qed.

(** Rules that name a syscall through the alias [syscall.nr], or with
    the operator [eq], fire in the engine exactly as [nr]/[equals] rules do,
    but [ReferencedSyscalls] does not see them: the number they list is
    left out of the list pushed to the kernel filter (here socket, 41, as in
    rules/command-and-control.yaml, which no default covers). *)
Theorem syscall_alias_not_referenced (parse : gostring -> option Z) (rnd : nat -> Float) :
  unsampled float_1 = true -> parse "41"%string = Some 41 ->
  let engine field op := NewRuleEngine [syscall_rule field op 41] in
  (forall field op, field = "nr"%string \/ field = "syscall.nr"%string ->
     op = "equals"%string \/ op = "eq"%string \/ op = "in"%string ->
     Evaluate (engine field op) rnd (syscall_event 41) =
       [rule_alert (syscall_event 41) (syscall_rule field op 41)]) /\
  (41 ∈ ReferencedSyscalls parse (engine "nr"%string "equals"%string)) /\
  (41 ∈ ReferencedSyscalls parse (engine "nr"%string "in"%string)) /\
  (41 ∉ ReferencedSyscalls parse (engine "nr"%string "eq"%string)) /\
  (forall op, 41 ∉ ReferencedSyscalls parse (engine "syscall.nr"%string op)).
Proof.
  intros Hu Hp engine. unfold engine.
  assert (41 ∉ defaultMonitoredSyscallsU32) as Hd by (apply (bool_decide_unpack _); vm_compute; done).
  pose proof (syscall_rule_referenced parse) as Hr.
  split; [|split_and!; intros; rewrite Hr; [right; by auto with lia | right; by auto with lia| |]].
  2: { intros [?|(_ & [?|?] & _)]; done. }
  2: { intros [?|(? & _)]; done. }
  intros field op Hf Ho. apply single_rule_fires; [|done|done| |done].
  - assert (good_cond (condition field op [pretty 41])) as Hg;
      [|by split; [exact Hg | apply Forall_singleton]].
    split_and!; simpl; intros Hx; destruct Ho as [-> | [-> | ->]]; (done || by repeat constructor).
  - split; [|constructor]. unfold either_holds, cond_holds. simpl.
    assert (getFieldValue (syscall_event 41) field None = "41"%string) as -> by by destruct Hf as [->| ->].
    destruct Ho as [-> | [-> | ->]]; (split; [done|]); (split; [done|]); [done|done|]. by left.
Qed.
End correctness.

(** ** Witnesses *)
Module Example_rules.
#[local] Existing Instance sample_lib.

(** A rule with a list long enough for the hashed set, and an exception. *)
Definition long_rule (values : list gostring) : Rule :=
  mkRule _ "ports"%string "ports"%string "d"%string EventTCPConnect false
    (condition "dport" "in" values)%string None SeverityWarning "alert"%string
    [mkException "ops"%string (condition "comm" "prefix" ["ssh"])%string None] [] ""%string None (1000 : Float) false.

Definition ports : list gostring := ["22"; "80"; "443"; "1"; "2"; "3"; "4"; "5"; "4444"]%string.

Definition prior : RuleEngine := NewRuleEngineWithCache [long_rule (reverse ports)] None.

Definition connect (dport : Z) (comm : list byte) : Event :=
  mkEvent EventTCPConnect 0 1 1 0 0 comm (zeros 16) None
    (Some (mkNetworkEvent (zeros 16) (zeros 16) 1 dport 6 AFInet))
    None None None None None None None None None None None None None None ""%string false.

Lemma good_long_rule values : Forall nul_free values -> good_rule (long_rule values).
Proof.
  intros Hv. assert (good_cond (r_Condition (long_rule values))) as Hc by by split_and!.
  split; [exact Hc|]. apply Forall_cons; split; [exact Hc|]. apply Forall_singleton. by split_and!.
Qed.


Definition bad_rule : Rule :=
  mkRule _ "bad"%string "bad"%string "d"%string EventTCPConnect false
    (condition "comm" "regex" ["a"; "(b"])%string None SeverityWarning "alert"%string [] [] ""%string None (1000 : Float) false.

Lemma invalid_regex_inert_witness :
  let re := NewRuleEngineWithCache [long_rule ports; bad_rule] (Some prior) in
  CompileErrors re = Some [InvalidRegex "(b"%string] /\
  (CompileErrors re <> None /\
   exists r1, re_rules re !! 1%nat = Some r1 /\ r_ID r1 = "bad"%string /\
     forall K e, matches_conditions K e r1 = false).
Proof.
  split; [vm_compute; reflexivity|].
  apply (invalid_regex_inert [long_rule ports; bad_rule] (Some prior) 1 bad_rule "(b"%string).
  - apply (reloaded_next None [long_rule (reverse ports)] (re_sampler prior)); [constructor|].
    apply Forall_singleton, good_long_rule; repeat constructor.
  - reflexivity.
  - reflexivity.
  - reflexivity.
  - reflexivity.
  - right. left.
  - reflexivity.
Defined.

Lemma syscall_alias_witness :
  let engine field op := NewRuleEngine [syscall_rule field op 41] in
  (Evaluate (engine "syscall.nr" "equals")%string (fun _ => float_0) (syscall_event 41) <> []) /\
  (41 ∉ ReferencedSyscalls decimal (engine "syscall.nr" "equals")%string).
Proof.
  destruct (syscall_alias_not_referenced decimal (fun _ => float_0)) as (Hfire & _ & _ & _ & Hmiss).
  - reflexivity.
  - reflexivity.
  - simpl in *. split; [rewrite Hfire by auto; discriminate | apply Hmiss].
Defined.
End Example_rules.
