(* ===== verification/RuleLoader.v ===== *)
(** * Loading rules: validation, rule files, the tuning overlay

    Models src/internal/correlator/rule_loader.go (field tables, validation of
    conditions, rules and rule sets, loading from files, directories and
    embedded files) and src/internal/correlator/tuning_overlay.go. Reading
    files and decoding YAML are the operations of the record [files]; an
    [error] is a value of an inductive type with one constructor per message.
    A function that writes through its argument before it fails returns the
    written value with the error. *)
From Stdlib Require Import Ascii.
From S2P Require Import Prelude GoBytes Types Fields RuleTypes Sampler Rules.

(** ** Field names by event type *)
Definition validNetworkFields : list gostring :=
  [ "dport"; "sport"; "daddr"; "saddr"; "proto"; "family"; "proc.args"; "proc.args_truncated";
    "network.dport"; "network.sport"; "network.daddr"; "network.saddr"; "network.proto";
    "proc.comm"; "uid" ]%string.
Definition validFileFields : list gostring :=
  [ "filename"; "flags"; "mode"; "op"; "directory"; "extension"; "fd.name"; "fd.name_truncated";
    "proc.args"; "proc.args_truncated"; "file.path"; "file.op"; "file.flags"; "file.mode";
    "file.directory"; "file.extension"; "proc.comm"; "uid" ]%string.
Definition validSyscallFields : list gostring :=
  [ "nr"; "ret"; "uid"; "comm"; "arg0"; "arg1"; "arg2"; "arg3"; "arg4"; "arg5"; "fd.name";
    "proc.args"; "proc.args_truncated"; "syscall.nr"; "syscall.ret"; "syscall.arg0"; "syscall.arg1";
    "syscall.arg2"; "syscall.arg3"; "syscall.arg4"; "syscall.arg5"; "proc.comm" ]%string.
Definition validDNSFields : list gostring :=
  [ "qname"; "qtype"; "rcode"; "direction"; "qname_length"; "qname_entropy"; "qname_dga_score";
    "qname_digit_ratio"; "qname_subdomain_count"; "qname_is_dga"; "dns.qname"; "proc.comm"; "comm" ]%string.
Definition validTLSFields : list gostring :=
  [ "tls_data"; "direction"; "data_len"; "data"; "ja3"; "ja4"; "ja3s"; "proc.comm"; "comm" ]%string.
Definition validHTTPPlaintextFields : list gostring :=
  [ "http_data"; "direction"; "data_len"; "data"; "proc.comm"; "comm" ]%string.
Definition validPrivescFields : list gostring := [ "caps"; "uid"; "comm" ]%string.
Definition validNetCloseFields : list gostring :=
  [ "dport"; "sport"; "daddr"; "saddr"; "family"; "duration_sec"; "duration_ms" ]%string.
Definition validGPUFields : list gostring :=
  [ "gpu_op"; "gpu_size"; "gpu_dev_ptr"; "gpu_host_ptr"; "comm"; "uid" ]%string.
Definition validCgroupEscFields : list gostring :=
  [ "new_cgroup_id"; "old_cgroup_id"; "cgroup_path"; "comm"; "uid" ]%string.
Definition validKmodFields : list gostring :=
  [ "name"; "filename"; "comm"; "uid"; "fingerprint"; "from_tmpfs"; "parent_comm" ]%string.
Definition validLSMAuditFields : list gostring := [ "hook"; "comm"; "uid"; "decision" ]%string.
Definition validSequenceFields : list gostring := [ "pattern"; "comm"; "uid" ]%string.
Definition validIOUringFields : list gostring :=
  [ "op"; "flags"; "fd"; "to_submit"; "comm"; "uid" ]%string.
Definition validCloudAuditFields : list gostring :=
  [ "cloud.provider"; "cloud.service"; "cloud.action"; "cloud.principal"; "cloud.resource";
    "cloud.source_ip"; "cloud.user_agent"; "cloud.error_code"; "cloud.region"; "cloud.event_id" ]%string.
Definition validBpfProgramFields : list gostring :=
  [ "cmd"; "cmd_nr"; "prog_type"; "prog_type_nr"; "ret"; "uid"; "comm" ]%string.

(** The [switch eventType] of [validateFieldName]. *)
Definition validFields (eventType : Z) : option (list gostring) :=
  assoc eventType
    [ (EventTCPConnect, validNetworkFields); (EventFileAccess, validFileFields);
      (EventSyscall, validSyscallFields); (EventDNS, validDNSFields); (EventTLS, validTLSFields);
      (EventPrivesc, validPrivescFields); (EventNetClose, validNetCloseFields);
      (EventGPU, validGPUFields); (EventCgroupEsc, validCgroupEscFields);
      (EventKmodLoad, validKmodFields); (EventLSMAudit, validLSMAuditFields);
      (EventSequence, validSequenceFields); (EventIOUring, validIOUringFields);
      (EventCloudAudit, validCloudAuditFields); (EventBPFProgram, validBpfProgramFields);
      (EventHTTPPlaintext, validHTTPPlaintextFields) ].

(** ** Errors *)
Variant cond_error :=
| FieldRequired
| UnknownEventType (eventType : Z)
| InvalidField (field : gostring) (eventType : Z)
| RegexNoPattern (field : gostring)
| RegexTooLong (field pattern : gostring)
| RegexInvalid (field pattern : gostring)
| CIDRNoRange (field : gostring)
| CIDRInvalid (field cidr : gostring)
| CIDRField (op field : gostring)
| UnknownOperator (op : gostring).

Variant rule_error :=
| RuleIDRequired
| RuleNameRequired
| EventTypeRequired
| UnknownAction (action : gostring)
| UnknownClass (class : gostring)
| EmptyConditionGroup (id : gostring)
| InvalidSamplingMode (id mode : gostring)
| SampleRateRange (id : gostring)
| BadCondition (e : cond_error)
| ExceptionUnnamed (id : gostring) (i : nat)
| ExceptionEmptyGroup (id name : gostring).

Variant set_error :=
| RuleInvalid (i : nat) (id : gostring) (e : rule_error)
| DuplicateID (id : gostring) (prev i : nat).

(** A loop that returns the first error. *)
Definition first_error {A E} (f : A -> option E) : list A -> option E :=
  fix go l :=
    match l with
    | [] => None
    | x :: l => match f x with Some e => Some e | None => go l end
    end.

(** The same over an indexed loop. *)
Definition first_error_at {A E} (f : nat -> A -> option E) : nat -> list A -> option E :=
  fix go i l :=
    match l with
    | [] => None
    | x :: l => match f i x with Some e => Some e | None => go (S i) l end
    end.

(** ** Conditions *)
Definition maxRegexPatternLen : nat := 1024.

Definition validateFieldName (field : gostring) (eventType : Z) : option cond_error :=
  if bool_decide (field = ""%string) then Some FieldRequired
  else match validFields eventType with
       | None => Some (UnknownEventType eventType)
       | Some fs => if bool_decide (field ∈ fs) then None else Some (InvalidField field eventType)
       end.

Definition validCIDRFields : list gostring := [ "daddr"; "saddr"; "cloud.source_ip" ]%string.

(** The operators that need no check of their values. *)
Definition plain_operators : list RuleConditionOperator :=
  [ "in"; "not_in"; "equals"; "not_equals"; "eq"; "neq"; "prefix"; "not_prefix"; "suffix";
    "not_suffix"; "contains"; "gt"; "lt"; "gte"; "lte"; "caps_gained"; "caps_dropped" ]%string.

Definition ActionAlert : gostring := "alert"%string.
Definition ActionBlock : gostring := "block"%string.
Definition ActionKill : gostring := "kill"%string.
Definition ActionThrottle : gostring := "throttle"%string.

(** [cg != nil] with neither conditions nor subgroups *)
Definition empty_group (g : option RuleConditionGroup) : bool :=
  match g with Some (mkGroup _ [] []) => true | _ => false end.

Section loader.
Context `{GoLib}.

(** [a == b] on floats, false on NaN *)
Definition float_eq (a b : Float) : bool := float_ge a b && float_ge b a.

Definition validateRegexPatterns (field : gostring) (patterns : list gostring) : option cond_error :=
  match patterns with
  | [] => Some (RegexNoPattern field)
  | _ => first_error (fun p =>
      if Nat.ltb maxRegexPatternLen (String.length p) then Some (RegexTooLong field p)
      else match regexp_Compile p with None => Some (RegexInvalid field p) | Some _ => None end) patterns
  end.

Definition validateCIDRPatterns (field : gostring) (cidrs : list gostring) : option cond_error :=
  match cidrs with
  | [] => Some (CIDRNoRange field)
  | _ => first_error (fun c =>
      match ParseCIDR c with None => Some (CIDRInvalid field c) | Some _ => None end) cidrs
  end.

Definition validateCondition (eventType : Z) (c : RuleCondition) : option cond_error :=
  match validateFieldName (rc_Field c) eventType with
  | Some e => Some e
  | None =>
      if bool_decide (rc_Op c = "regex"%string) then validateRegexPatterns (rc_Field c) (rc_Values c)
      else if bool_decide (rc_Op c = "in_cidr"%string) || bool_decide (rc_Op c = "not_in_cidr"%string) then
        match validateCIDRPatterns (rc_Field c) (rc_Values c) with
        | Some e => Some e
        | None => if bool_decide (rc_Field c ∈ validCIDRFields) then None
                  else Some (CIDRField (rc_Op c) (rc_Field c))
        end
      else if bool_decide (rc_Op c ∈ plain_operators) then None
      else Some (UnknownOperator (rc_Op c))
  end.

(** ** Rules *)
Fixpoint getConditionsFromGroup (g : RuleConditionGroup) : list RuleCondition :=
  match g with
  | mkGroup _ cs gs => cs ++ concat (map getConditionsFromGroup gs)
  end.

(** The conditions of a rule and of its exceptions ([getAllConditions] of the
    loader; the engine's method of that name leaves the exceptions out). *)
Definition rule_getAllConditions (r : Rule) : list RuleCondition :=
  match r_ConditionGroup r with Some g => getConditionsFromGroup g | None => [r_Condition r] end ++
  concat (map (fun x => match ex_ConditionGroup x with
                        | Some g => getConditionsFromGroup g
                        | None => [ex_Condition x]
                        end) (r_Exceptions r)).

Definition set_action (r : Rule) (a : gostring) : Rule :=
  mkRule _ (r_ID r) (r_Name r) (r_Description r) (r_EventType r) (r_skipSampler r) (r_Condition r)
    (r_ConditionGroup r) (r_Severity r) a (r_Exceptions r) (r_Tags r) (r_Class r) (r_Sampling r)
    (r_SampleRate r) (r_SampleDeterministic r).
Definition set_severity (r : Rule) (s : Severity) : Rule :=
  mkRule _ (r_ID r) (r_Name r) (r_Description r) (r_EventType r) (r_skipSampler r) (r_Condition r)
    (r_ConditionGroup r) s (r_Action r) (r_Exceptions r) (r_Tags r) (r_Class r) (r_Sampling r)
    (r_SampleRate r) (r_SampleDeterministic r).
Definition set_sampling (r : Rule) (rate : Float) (det : bool) : Rule :=
  mkRule _ (r_ID r) (r_Name r) (r_Description r) (r_EventType r) (r_skipSampler r) (r_Condition r)
    (r_ConditionGroup r) (r_Severity r) (r_Action r) (r_Exceptions r) (r_Tags r) (r_Class r)
    (r_Sampling r) rate det.
Definition set_exceptions (r : Rule) (xs : list RuleException) : Rule :=
  mkRule _ (r_ID r) (r_Name r) (r_Description r) (r_EventType r) (r_skipSampler r) (r_Condition r)
    (r_ConditionGroup r) (r_Severity r) (r_Action r) xs (r_Tags r) (r_Class r) (r_Sampling r)
    (r_SampleRate r) (r_SampleDeterministic r).

(** The nested sampling block over the flat fields, then the default rate. *)
Definition resolve_sampling (r : Rule) : Rule * option rule_error :=
  match r_Sampling r with
  | Some s =>
      let rate := if float_eq (rsam_Rate s) float_0 then r_SampleRate r else rsam_Rate s in
      if bool_decide (rsam_Mode s = SamplingModeHashPID) then (set_sampling r rate true, None)
      else if bool_decide (rsam_Mode s = SamplingModeRandom) then
        (set_sampling r rate (r_SampleDeterministic r), None)
      else if bool_decide (rsam_Mode s = ""%string) then (set_sampling r rate true, None)
      else (set_sampling r rate (r_SampleDeterministic r), Some (InvalidSamplingMode (r_ID r) (rsam_Mode s)))
  | None =>
      if float_gt (r_SampleRate r) float_0 && float_lt (r_SampleRate r) float_1
      then (set_sampling r (r_SampleRate r) true, None) else (r, None)
  end.

Definition default_rate (r : Rule) : Rule :=
  if float_eq (r_SampleRate r) float_0 then set_sampling r float_1 (r_SampleDeterministic r) else r.

Definition validateException (id : gostring) (i : nat) (x : RuleException) : option rule_error :=
  if bool_decide (ex_Name x = ""%string) then Some (ExceptionUnnamed id i)
  else if empty_group (ex_ConditionGroup x) then Some (ExceptionEmptyGroup id (ex_Name x))
  else None.

Definition validateRule (r : Rule) : Rule * option rule_error :=
  if bool_decide (r_ID r = ""%string) then (r, Some RuleIDRequired)
  else if bool_decide (r_Name r = ""%string) then (r, Some RuleNameRequired)
  else if r_EventType r =? 0 then (r, Some EventTypeRequired)
  else
  let r := if bool_decide (r_Action r = ""%string) then set_action r ActionAlert else r in
  if negb (bool_decide (r_Action r ∈ [ActionAlert; ActionDrop; ActionBlock; ActionKill; ActionThrottle]))
  then (r, Some (UnknownAction (r_Action r)))
  else
  let r := if bool_decide (r_Severity r = ""%string) then set_severity r "warning"%string else r in
  if negb (bool_decide (r_Class r ∈ [""%string; ClassThreat; ClassDrift]))
  then (r, Some (UnknownClass (r_Class r)))
  else if empty_group (r_ConditionGroup r) then (r, Some (EmptyConditionGroup (r_ID r)))
  else
  let '(r, err) := resolve_sampling r in
  match err with
  | Some e => (r, Some e)
  | None =>
      let r := default_rate r in
      if float_lt (r_SampleRate r) float_0 || float_gt (r_SampleRate r) float_1
      then (r, Some (SampleRateRange (r_ID r)))
      else
      match first_error (validateCondition (r_EventType r)) (rule_getAllConditions r) with
      | Some e => (r, Some (BadCondition e))
      | None => (r, first_error_at (validateException (r_ID r)) 0 (r_Exceptions r))
      end
  end.

(** ** Rule sets *)
Fixpoint validate_rules (i : nat) (seen : gmap gostring nat) (rules : list Rule) :
  list Rule * list set_error :=
  match rules with
  | [] => ([], [])
  | r :: rules =>
      let '(r1, err) := validateRule r in
      let errs := match err with Some e => [RuleInvalid i (r_ID r) e] | None => [] end in
      let '(dup, seen) :=
        if bool_decide (r_ID r1 = ""%string) then ([], seen)
        else match seen !! r_ID r1 with
             | Some prev => ([DuplicateID (r_ID r1) prev i], seen)
             | None => ([], <[r_ID r1 := i]> seen)
             end in
      let '(rs1, more) := validate_rules (S i) seen rules in
      (r1 :: rs1, errs ++ dup ++ more)
  end.

(** The rules as left by the validation, and every error. *)
Definition ValidateFull (rules : list Rule) : list Rule * list set_error := validate_rules 0 ∅ rules.

(** ** Files *)

(** What the loader reads from the machine: a directory's entries (name and
    [IsDir]), a file's bytes, [filepath.Join] of a directory and an entry, and
    the YAML decoder at type [RuleSet]. *)
Record files := mkFiles {
  fs_ReadDir : gostring -> option (list (gostring * bool));
  fs_ReadFile : gostring -> option (list byte);
  fs_Join : gostring -> gostring -> gostring;
  fs_Unmarshal : list byte -> option (list Rule) }.

Variant load_error :=
| ReadError (path : gostring)
| UnmarshalError (path : gostring)
| ChecksumError
| InvalidRules (errs : list set_error).

(** [filepath.Ext]: from the last dot of the last path element. *)
Definition filepath_Ext (path : gostring) : gostring :=
  let base := match split_last "/" path with Some (_, b) => b | None => path end in
  match split_last "." base with Some (_, x) => x | None => ""%string end.

Definition is_rule_file (name : gostring) : bool :=
  let ext := ToLower (filepath_Ext name) in
  bool_decide (ext = ".yaml"%string) || bool_decide (ext = ".yml"%string).

Definition checked (res : list Rule * list set_error) : result load_error (list Rule) :=
  match res with
  | (rules, []) => Ok rules
  | (_, errs) => Err (InvalidRules errs)
  end.

Definition LoadRulesFromFile (fs : files) (path : gostring) : result load_error (list Rule) :=
  match fs_ReadFile fs path with
  | None => Err (ReadError path)
  | Some data =>
      match fs_Unmarshal fs data with
      | None => Err (UnmarshalError path)
      | Some rules => checked (ValidateFull rules)
      end
  end.

(** [files] is a map: [l] lists its entries in iteration order. *)
Fixpoint unmarshal_all (fs : files) (l : list (gostring * list byte)) : result load_error (list Rule) :=
  match l with
  | [] => Ok []
  | (name, data) :: l =>
      if negb (is_rule_file name) then unmarshal_all fs l
      else match fs_Unmarshal fs data with
           | None => Err (UnmarshalError name)
           | Some rules => rest ← unmarshal_all fs l; mret (rules ++ rest)
           end
  end.

Definition LoadRulesFromEmbedded (fs : files) (l : list (gostring * list byte)) : result load_error (list Rule) :=
  rules ← unmarshal_all fs l; checked (ValidateFull rules).

Fixpoint load_entries (fs : files) (dir : gostring) (entries : list (gostring * bool)) :
  result load_error (list Rule) :=
  match entries with
  | [] => Ok []
  | (name, isDir) :: entries =>
      if isDir || negb (is_rule_file name) then load_entries fs dir entries
      else rules ← LoadRulesFromFile fs (fs_Join fs dir name);
           rest ← load_entries fs dir entries;
           mret (rules ++ rest)
  end.

(** [verify] is [VerifyRuleChecksums] on this directory and checksum file. *)
Definition LoadRulesFromDirWithChecksums (fs : files) (dir : gostring) (verifyChecksums : bool)
    (verify : bool) : result load_error (list Rule) :=
  if verifyChecksums && negb verify then Err ChecksumError
  else match fs_ReadDir fs dir with
       | None => Err (ReadError dir)
       | Some entries => load_entries fs dir entries
       end.

Definition LoadRulesFromDir (fs : files) (dir : gostring) : result load_error (list Rule) :=
  LoadRulesFromDirWithChecksums fs dir false true.

(** ** The tuning overlay *)
Record RuleTuningOverlay := mkOverlay { ov_RuleID : gostring; ov_Exceptions : list RuleException }.
Abbreviation TuningOverlay := (list RuleTuningOverlay).

Variant overlay_error :=
| OverlayRead
| OverlayUnmarshal
| OverlayNoRuleID (i : nat)
| OverlayNoExceptions (id : gostring)
| OverlayExceptionUnnamed (id : gostring) (j : nat)
| OverlayExceptionEmptyGroup (id name : gostring)
| OverlayCondition (id name : gostring) (e : cond_error).

Definition overlay_exception_error (id : gostring) (j : nat) (x : RuleException) : option overlay_error :=
  if bool_decide (ex_Name x = ""%string) then Some (OverlayExceptionUnnamed id j)
  else if empty_group (ex_ConditionGroup x) then Some (OverlayExceptionEmptyGroup id (ex_Name x))
  else None.

Definition overlay_entry_error (i : nat) (o : RuleTuningOverlay) : option overlay_error :=
  if bool_decide (ov_RuleID o = ""%string) then Some (OverlayNoRuleID i)
  else match ov_Exceptions o with
       | [] => Some (OverlayNoExceptions (ov_RuleID o))
       | xs => first_error_at (overlay_exception_error (ov_RuleID o)) 0 xs
       end.

(** What [os.ReadFile] and the decoder give for the overlay file. *)
Variant overlay_file := FileMissing | FileUnreadable | FileMalformed | FileOverlay (o : TuningOverlay).

Definition LoadTuningOverlay (path : gostring) (read : gostring -> overlay_file) :
  result overlay_error (option TuningOverlay) :=
  if bool_decide (path = ""%string) then Ok None
  else match read path with
       | FileMissing => Ok None
       | FileUnreadable => Err OverlayRead
       | FileMalformed => Err OverlayUnmarshal
       | FileOverlay o =>
           match first_error_at overlay_entry_error 0 o with
           | Some e => Err e
           | None => Ok (Some o)
           end
       end.

(** [byID]: the last index of each ID. *)
Fixpoint index_ids (i : nat) (byID : gmap gostring nat) (rules : list Rule) : gmap gostring nat :=
  match rules with
  | [] => byID
  | r :: rules => index_ids (S i) (<[r_ID r := i]> byID) rules
  end.

Definition overlay_exception_check (eventType : Z) (id : gostring) (x : RuleException) : option overlay_error :=
  match ex_ConditionGroup x with
  | Some g => OverlayCondition id (ex_Name x) <$> first_error (validateCondition eventType) (getConditionsFromGroup g)
  | None => OverlayCondition id (ex_Name x) <$> validateCondition eventType (ex_Condition x)
  end.

(** The loop over the entries: the rules as written so far, the unknown IDs
    (dropped on an error) and the error. *)
Fixpoint apply_overlays (byID : gmap gostring nat) (rules : list Rule) (unknown : list gostring)
    (os : TuningOverlay) : list Rule * result overlay_error (list gostring) :=
  match os with
  | [] => (rules, Ok unknown)
  | o :: os =>
      match byID !! ov_RuleID o with
      | None => apply_overlays byID rules (unknown ++ [ov_RuleID o]) os
      | Some idx =>
          match rules !! idx with
          | None => (rules, Panic)
          | Some r =>
              match first_error (overlay_exception_check (r_EventType r) (ov_RuleID o)) (ov_Exceptions o) with
              | Some e => (rules, Err e)
              | None =>
                  apply_overlays byID
                    (<[idx := set_exceptions r (r_Exceptions r ++ ov_Exceptions o)]> rules) unknown os
              end
          end
      end
  end.

Definition ApplyTuningOverlay (rules : list Rule) (overlay : option TuningOverlay) :
  list Rule * result overlay_error (list gostring) :=
  match overlay with
  | None | Some [] => (rules, Ok [])
  | Some os => apply_overlays (index_ids 0 ∅ rules) rules [] os
  end.
End loader.

(** [loadRulesWithTuning] of src/cmd/ebpf-guard/main.go: [stat] tells whether
    the path exists and is a directory. *)
Section startup.
Context `{GoLib}.

Variant startup_error :=
| StatError
| LoadFailed (e : load_error)
| OverlayFailed (e : overlay_error).

Definition loadRulesWithTuning (fs : files) (stat : gostring -> option bool)
    (read : gostring -> overlay_file) (path tuningPath : gostring) : result startup_error (list Rule) :=
  match stat path with
  | None => Err StatError
  | Some isDir =>
      match (if isDir then LoadRulesFromDir fs path else LoadRulesFromFile fs path) with
      | Err e => Err (LoadFailed e)
      | Panic => Panic
      | Ok rules =>
          match LoadTuningOverlay tuningPath read with
          | Err e => Err (OverlayFailed e)
          | Panic => Panic
          | Ok overlay =>
              match ApplyTuningOverlay rules overlay with
              | (_, Err e) => Err (OverlayFailed e)
              | (_, Panic) => Panic
              | (rules, Ok _) => Ok rules
              end
          end
      end
  end.
End startup.

(** ** What the loader accepts: the specification *)
Section spec.
Context `{GoLib}.

Definition wf_operator (c : RuleCondition) : Prop :=
  (rc_Op c = "regex"%string /\ rc_Values c <> [] /\
   Forall (fun p => (String.length p <= 1024)%nat /\ is_Some (regexp_Compile p)) (rc_Values c)) \/
  ((rc_Op c = "in_cidr"%string \/ rc_Op c = "not_in_cidr"%string) /\ rc_Values c <> [] /\
   Forall (fun p => is_Some (ParseCIDR p)) (rc_Values c) /\ rc_Field c ∈ validCIDRFields) \/
  rc_Op c ∈ plain_operators.

Definition wf_condition (t : Z) (c : RuleCondition) : Prop :=
  (exists fs, validFields t = Some fs /\ rc_Field c ∈ fs) /\ wf_operator c.

(** The value of a sampling field, defaults applied. *)
Definition configured_rate (r : Rule) : Float :=
  match r_Sampling r with
  | Some s => if float_eq (rsam_Rate s) float_0 then r_SampleRate r else rsam_Rate s
  | None => r_SampleRate r
  end.
Definition effective_rate (r : Rule) : Float :=
  if float_eq (configured_rate r) float_0 then float_1 else configured_rate r.
Definition effective_det (r : Rule) : bool :=
  match r_Sampling r with
  | Some s => bool_decide (rsam_Mode s <> SamplingModeRandom) || r_SampleDeterministic r
  | None => (float_gt (r_SampleRate r) float_0 && float_lt (r_SampleRate r) float_1) ||
            r_SampleDeterministic r
  end.
Definition or_default (s d : gostring) : gostring := if decide (s = ""%string) then d else s.

(** A rule as validation leaves it. *)
Definition normalised (r : Rule) : Rule :=
  set_sampling (set_severity (set_action r (or_default (r_Action r) ActionAlert))
    (or_default (r_Severity r) "warning"%string)) (effective_rate r) (effective_det r).

Definition named_exception (x : RuleException) : Prop :=
  ex_Name x <> ""%string /\ empty_group (ex_ConditionGroup x) = false.

Record accepted (r : Rule) : Prop := {
  acc_id : r_ID r <> ""%string;
  acc_name : r_Name r <> ""%string;
  acc_action : r_Action r ∈ [""%string; ActionAlert; ActionDrop; ActionBlock; ActionKill; ActionThrottle];
  acc_class : r_Class r ∈ [""%string; ClassThreat; ClassDrift];
  acc_group : empty_group (r_ConditionGroup r) = false;
  acc_mode : forall s, r_Sampling r = Some s ->
    rsam_Mode s ∈ [""%string; SamplingModeHashPID; SamplingModeRandom];
  acc_rate : float_lt (effective_rate r) float_0 = false /\ float_gt (effective_rate r) float_1 = false;
  acc_type : r_EventType r <> 0;
  acc_conditions : Forall (wf_condition (r_EventType r)) (extractAllRuleConditions r);
  acc_exceptions : Forall named_exception (r_Exceptions r) }.

(** ** Lemmas on the loops *)
Lemma first_error_None {A E} (f : A -> option E) l :
  first_error f l = None <-> Forall (fun x => f x = None) l.
Proof.
  induction l as [|x l IH]; simpl; [by split|]. rewrite Forall_cons, <- IH.
  destruct (f x); split; intros; (done || by destruct_and?).
Qed.

Lemma first_error_at_None {A E} (f : nat -> A -> option E) (P : A -> Prop) i l :
  (forall j x, f j x = None <-> P x) -> first_error_at f i l = None <-> Forall P l.
Proof.
  intros HP. revert i. induction l as [|x l IH]; intros i; simpl; [by split|].
  rewrite Forall_cons, <- (HP i x), <- (IH (S i)). destruct (f i x); split; intros; (done || by destruct_and?).
Qed.

Lemma first_error_iff {A E} (f : A -> option E) (P : A -> Prop) l :
  (forall x, f x = None <-> P x) -> first_error f l = None <-> Forall P l.
Proof. intros HP. rewrite first_error_None. by apply Forall_iff. Qed.

(** The loader and the engine traverse a rule in the same order. *)
Lemma rule_conditions r : rule_getAllConditions r = extractAllRuleConditions r.
Proof. reflexivity. Qed.

(** ** Conditions *)
Lemma validateFieldName_spec field t :
  validateFieldName field t = None <-> exists fs, validFields t = Some fs /\ field ∈ fs.
Proof.
  unfold validateFieldName. case_bool_decide as He.
  - split; [done|]. intros (fs & Hv & Hin). exfalso. subst field. unfold validFields, assoc in Hv.
    repeat case_decide; simplify_eq; revert Hin; apply (bool_decide_unpack _); vm_compute; done.
  - destruct (validFields t) as [fs|]; [|split; [done | by intros (? & ? & _)]].
    case_bool_decide; split; intros Hx; [by exists fs | done | done | by destruct Hx as (? & [= <-] & ?)].
Qed.

Lemma validateRegexPatterns_spec field ps :
  validateRegexPatterns field ps = None <->
  ps <> [] /\ Forall (fun p => (String.length p <= 1024)%nat /\ is_Some (regexp_Compile p)) ps.
Proof.
  unfold validateRegexPatterns. destruct ps as [|p ps]; [by split; [|intros []]|].
  rewrite (first_error_iff _ (fun p => (String.length p <= 1024)%nat /\ is_Some (regexp_Compile p))); [by split; [|intros []]|].
  intros q. destruct (Nat.ltb_spec maxRegexPatternLen (String.length q)) as [Hl|Hl]; unfold maxRegexPatternLen in Hl.
  - split; [done|]. intros [? _]. lia.
  - destruct (regexp_Compile q); split; intros Hx; [by eauto | done | done | by destruct Hx as [_ [? ?]]].
Qed.

Lemma validateCIDRPatterns_spec field cs :
  validateCIDRPatterns field cs = None <-> cs <> [] /\ Forall (fun p => is_Some (ParseCIDR p)) cs.
Proof.
  unfold validateCIDRPatterns. destruct cs as [|p ps]; [by split; [|intros []]|].
  rewrite (first_error_iff _ (fun p => is_Some (ParseCIDR p))); [by split; [|intros []]|].
  intros q. destruct (ParseCIDR q); split; intros Hx; [by eauto | done | done | by destruct Hx].
Qed.

Lemma validateCondition_spec t c : validateCondition t c = None <-> wf_condition t c.
Proof.
  unfold validateCondition, wf_condition. rewrite <- validateFieldName_spec.
  destruct (validateFieldName (rc_Field c) t); [by split; [|intros []]|].
  unfold wf_operator. case_bool_decide as Hr.
  { rewrite Hr, validateRegexPatterns_spec. split; [by auto|].
    intros (_ & [(_ & ?)|[([?|?] & _)|Hp]]); [done..|]. exfalso. revert Hp.
    apply (bool_decide_unpack _); vm_compute; done. }
  destruct (bool_decide (rc_Op c = "in_cidr"%string) || bool_decide (rc_Op c = "not_in_cidr"%string)) eqn:Ec.
  { assert (rc_Op c = "in_cidr"%string \/ rc_Op c = "not_in_cidr"%string) as Hop.
    { apply orb_true_iff in Ec as [?%bool_decide_eq_true|?%bool_decide_eq_true]; auto. } clear Ec.
    assert (rc_Op c ∉ plain_operators) as Hnp.
    { destruct Hop as [-> | ->]; apply (bool_decide_unpack _); vm_compute; done. }
    pose proof (validateCIDRPatterns_spec (rc_Field c) (rc_Values c)) as Hs.
    destruct (validateCIDRPatterns (rc_Field c) (rc_Values c)).
    - split; [done|]. intros (_ & [(? & _)|[(_ & ? & ? & _)|?]]); [done| |done]. by apply Hs.
    - destruct Hs as [Hs _]. destruct (Hs eq_refl) as [Hv Hf].
      case_bool_decide as Hfld.
      + split; [|done]. intros _. split; [done|]. right. left. by split_and!.
      + split; [done|]. intros (_ & [(? & _)|[(_ & _ & _ & ?)|?]]); done. }
  apply orb_false_iff in Ec as [Hc1%bool_decide_eq_false Hc2%bool_decide_eq_false].
  case_bool_decide as Hp; split; try done; [by auto|]. intros (_ & [(? & _)|[([?|?] & _)|?]]); done.
Qed.

Lemma wf_condition_opcode t c : wf_condition t c -> opCodeOf (rc_Op c) <> condOpUnknown.
Proof.
  intros [_ [[-> _]|[[[-> | ->] _]|Hp]]]; [done..|].
  assert (Forall (fun op => opCodeOf op <> condOpUnknown) plain_operators) as Hall by by repeat constructor.
  rewrite Forall_forall in Hall. by apply Hall.
Qed.

(** ** Rules *)
Definition known_mode (r : Rule) : Prop :=
  forall s, r_Sampling r = Some s -> rsam_Mode s ∈ [""%string; SamplingModeHashPID; SamplingModeRandom].

Lemma resolve_sampling_mode r : (resolve_sampling r).2 = None <-> known_mode r.
Proof.
  unfold resolve_sampling, known_mode. destruct (r_Sampling r) as [s|]; [|by case_match].
  assert (rsam_Mode s ∈ [""%string; SamplingModeHashPID; SamplingModeRandom] <->
    rsam_Mode s = ""%string \/ rsam_Mode s = SamplingModeHashPID \/ rsam_Mode s = SamplingModeRandom) as E.
  { rewrite !elem_of_cons, elem_of_nil. tauto. }
  repeat case_bool_decide; simpl; (split; [intros _ ? [= <-]; apply E; by auto|]) ||
    (split; [done|]); intros Hm; try done. specialize (Hm s eq_refl). apply E in Hm. tauto.
Qed.

Lemma resolve_sampling_rate r :
  (resolve_sampling r).2 = None ->
  default_rate (resolve_sampling r).1 = set_sampling r (effective_rate r) (effective_det r).
Proof.
  unfold resolve_sampling, effective_rate, effective_det, configured_rate, default_rate,
    SamplingModeHashPID, SamplingModeRandom.
  destruct r as [id nm ds et sk c g sv ac xs tg cl [s|] rate det]; simpl.
  - set (x := if float_eq (rsam_Rate s) float_0 then rate else rsam_Rate s).
    rewrite bool_decide_not. repeat case_bool_decide; simpl; try congruence; intros _;
      by destruct (float_eq x float_0).
  - intros _. destruct (float_gt rate float_0 && float_lt rate float_1); simpl; by destruct (float_eq rate float_0).
Qed.

Lemma validateException_spec id i x : validateException id i x = None <-> named_exception x.
Proof.
  unfold validateException, named_exception. case_bool_decide; [by split; [|intros []]|].
  destruct (empty_group _); split; intros; by destruct_and?.
Qed.

Lemma action_allowed a l : or_default a ActionAlert ∈ ActionAlert :: l <-> a ∈ ""%string :: ActionAlert :: l.
Proof.
  unfold or_default. rewrite !elem_of_cons. destruct (decide (a = ""%string)) as [->|]; [split; by auto|].
  split; [by auto|]. by intros [?|?].
Qed.

Lemma validateRule_spec r :
  ((validateRule r).2 = None <-> accepted r) /\ ((validateRule r).2 = None -> (validateRule r).1 = normalised r).
Proof.
  unfold validateRule.
  case_bool_decide as H1; [by split; [split; [|intros []] |]|].
  case_bool_decide as H2; [by split; [split; [|intros []] |]|].
  destruct (Z.eqb_spec (r_EventType r) 0) as [H3|H3]; [by split; [split; [|intros []] |]|].
  set (r1 := if bool_decide (r_Action r = ""%string) then set_action r ActionAlert else r).
  assert (r1 = set_action r (or_default (r_Action r) ActionAlert)) as ->.
  { unfold r1, or_default. rewrite bool_decide_decide. by destruct (decide _), r. }
  cbn zeta. simpl r_Action. rewrite <- bool_decide_not. case_bool_decide as H4.
  { rewrite action_allowed in H4. split; [split; [done|by intros []] | done]. }
  rewrite action_allowed in H4.
  set (r1 := if bool_decide _ then set_severity _ _ else _).
  assert (r1 = set_severity (set_action r (or_default (r_Action r) ActionAlert))
    (or_default (r_Severity r) "warning"%string)) as ->.
  { unfold r1, or_default. simpl. rewrite bool_decide_decide. by destruct (decide (r_Severity r = ""%string)). }
  set (r1 := set_severity _ _). cbn zeta. change (r_Class r1) with (r_Class r).
  change (r_ConditionGroup r1) with (r_ConditionGroup r).
  rewrite <- bool_decide_not. case_bool_decide as H5; [by split; [split; [|intros []] |]|].
  destruct (empty_group (r_ConditionGroup r)) eqn:H6; [by split; [split; [|intros []; congruence] |]|].
  pose proof (resolve_sampling_mode r1) as Hm. pose proof (resolve_sampling_rate r1) as Hr.
  change (known_mode r1) with (known_mode r) in Hm.
  destruct (resolve_sampling r1) as [r2 [e|]]; simpl in Hm, Hr.
  { split; [split; [done|intros []; by apply Hm] | done]. }
  rewrite Hr by done. fold (normalised r). clear Hr.
  change (set_sampling r1 (effective_rate r1) (effective_det r1)) with (normalised r).
  change (r_SampleRate (normalised r)) with (effective_rate r).
  destruct (float_lt (effective_rate r) float_0) eqn:H7; [by split; [split; [|intros ?%acc_rate; destruct_and?; congruence] |]|].
  destruct (float_gt (effective_rate r) float_1) eqn:H8; [by split; [split; [|intros ?%acc_rate; destruct_and?; congruence] |]|].
  simpl orb. cbn iota. rewrite rule_conditions. change (extractAllRuleConditions (normalised r)) with (extractAllRuleConditions r).
  change (r_EventType (normalised r)) with (r_EventType r).
  pose proof (first_error_iff _ _ (extractAllRuleConditions r) (validateCondition_spec (r_EventType r))) as Hc.
  destruct (first_error _ _) as [e|].
  { split; [split; [done|intros Hacc; exfalso; discriminate (proj2 Hc (acc_conditions _ Hacc))] | done]. }
  pose proof (first_error_at_None _ _ 0 (r_Exceptions r) (validateException_spec (r_ID r))) as Hx.
  change (r_Exceptions (normalised r)) with (r_Exceptions r). simpl. change (r_ID (normalised r)) with (r_ID r). rewrite Hx.
  split; [|done]. split.
  - intros. split; try done; [by apply Hm | by apply Hc].
  - by intros [].
Qed.

(** ** Rule sets *)
Lemma validate_rules_spec i seen rules :
  ((validate_rules i seen rules).2 = [] <->
    Forall accepted rules /\ NoDup (map r_ID rules) /\ Forall (fun r => seen !! r_ID r = None) rules) /\
  ((validate_rules i seen rules).2 = [] -> (validate_rules i seen rules).1 = map normalised rules).
Proof.
  revert i seen. induction rules as [|r rules IH]; intros i seen; simpl.
  { split; [|done]. split; [|done]. intros _. split_and!; constructor. }
  destruct (validateRule_spec r) as [Ha Hn]. destruct (validateRule r) as [r1 [e|]]; simpl in Ha, Hn.
  - destruct (if bool_decide (r_ID r1 = ""%string) then _ else _) as [dup seen1].
    destruct (validate_rules (S i) seen1 rules) as [rs1 more]. simpl. split; [|done].
    split; [done|]. intros [[Hr _]%Forall_cons _]. by apply Ha in Hr.
  - rewrite (Hn eq_refl). change (r_ID (normalised r)) with (r_ID r).
    assert (accepted r) as Hr by by apply Ha. rewrite bool_decide_eq_false_2 by apply Hr.
    destruct (seen !! r_ID r) as [prev|] eqn:Es.
    + destruct (validate_rules (S i) seen rules) as [rs1 more]. simpl. split; [|done]. split; [done|].
      intros (_ & _ & [? _]%Forall_cons). congruence.
    + specialize (IH (S i) (<[r_ID r := i]> seen)). destruct (validate_rules (S i) _ rules) as [rs1 more].
      simpl in *. destruct IH as [IH1 IH2]. split; [|intros E; by rewrite IH2].
      rewrite IH1, NoDup_cons, !Forall_cons. rewrite !Forall_forall.
      split.
      * intros (? & ? & Hf). split_and!; try done.
        -- rewrite list_elem_of_fmap. intros (q & E & Hq). specialize (Hf q Hq). rewrite E, lookup_insert_eq in Hf. done.
        -- intros q Hq. specialize (Hf q Hq). by apply lookup_insert_None in Hf as [? _].
      * intros ((_ & ?) & (Hni & ?) & (_ & Hf)). split_and!; try done. intros q Hq. rewrite lookup_insert_ne; [by apply Hf|].
        intros E. apply Hni. rewrite E. apply list_elem_of_fmap. by exists q.
Qed.

Lemma ValidateFull_spec rules :
  ((ValidateFull rules).2 = [] <-> Forall accepted rules /\ NoDup (map r_ID rules)) /\
  ((ValidateFull rules).2 = [] -> (ValidateFull rules).1 = map normalised rules).
Proof.
  unfold ValidateFull. destruct (validate_rules_spec 0 ∅ rules) as [E ?]. split; [|done]. rewrite E.
  split; [by intros (? & ? & _)|]. intros [? ?]. split_and!; [done..|]. by apply Forall_forall.
Qed.
End spec.

(** ** From validation to the engine *)
Section load.
Context `{GoLib}.

(** What validation does not look at: NUL bytes in the values of an [in]
    list, and the single condition of a rule that has a group. *)
Definition unvalidated_ok (r : Rule) : Prop :=
  Forall (fun c => is_set_op (rc_Op c) -> Forall nul_free (rc_Values c)) (extractAllRuleConditions r) /\
  (r_ConditionGroup r = None \/ good_cond (r_Condition r)).

Lemma wf_condition_good t c :
  (is_set_op (rc_Op c) -> Forall nul_free (rc_Values c)) -> wf_condition t c -> good_cond c.
Proof.
  intros Hs [_ Hop]. split_and!; [| |done]; intros Ho.
  - destruct Hop as [(_ & _ & Hf)|[(Hc & _)|Hp]].
    + eapply Forall_impl; [exact Hf|]. by intros ? [].
    + unfold is_regex_op in Ho. apply bool_decide_unpack in Ho. destruct Hc; congruence.
    + apply bool_decide_unpack in Ho. rewrite Ho in Hp. revert Hp. apply (bool_decide_unpack _). by vm_compute.
  - destruct Hop as [(Hr & _)|[(_ & _ & Hf & _)|Hp]]; [by rewrite Hr in Ho | done|].
    apply orb_True in Ho as [Ho%bool_decide_unpack|Ho%bool_decide_unpack]; rewrite Ho in Hp; revert Hp;
      apply (bool_decide_unpack _); by vm_compute.
Qed.

Lemma accepted_good r : unvalidated_ok r -> accepted r -> good_rule (normalised r).
Proof.
  intros [Hn Hc] Ha. assert (Forall good_cond (extractAllRuleConditions r)) as Hall.
  { pose proof (acc_conditions _ Ha) as Hw. rewrite Forall_forall in Hn, Hw |- *.
    intros c Hin. eapply wf_condition_good; eauto. }
  split; [|exact Hall]. destruct Hc as [Hg|]; [|done].
  unfold extractAllRuleConditions, main_conditions in Hall. rewrite Hg in Hall. by inversion Hall.
Qed.

Lemma effective_rate_idem r : effective_rate (normalised r) = effective_rate r.
Proof.
  unfold effective_rate at 1. unfold configured_rate. simpl. fold (configured_rate r).
  assert ((if float_eq (effective_rate r) float_0 then float_1 else effective_rate r) = effective_rate r) as E.
  { unfold effective_rate. destruct (float_eq (configured_rate r) float_0) eqn:Ez; [by case_match | by rewrite Ez]. }
  destruct (r_Sampling r) as [s|] eqn:Es; [|exact E].
  destruct (float_eq (rsam_Rate s) float_0) eqn:Er; [exact E|]. rewrite Er.
  unfold effective_rate, configured_rate. by rewrite Es, Er, Er.
Qed.

Lemma effective_det_idem r : float_gt float_1 float_1 = false -> effective_det (normalised r) = effective_det r.
Proof.
  intros H1. unfold effective_det. simpl. unfold effective_det.
  destruct (r_Sampling r) as [s|] eqn:Es.
  { by destruct (bool_decide _), (r_SampleDeterministic r). }
  unfold effective_rate, configured_rate. rewrite Es. destruct (float_eq (r_SampleRate r) float_0).
  - unfold float_lt. rewrite H1, andb_false_r. done.
  - by destruct (_ && _), (r_SampleDeterministic r).
Qed.

Lemma or_default_idem s d : or_default (or_default s d) d = or_default s d.
Proof. unfold or_default. destruct (decide (s = ""%string)) as [->|Hs]; by case_decide. Qed.

Lemma normalised_idem r : float_gt float_1 float_1 = false -> normalised (normalised r) = normalised r.
Proof.
  intros H1. unfold normalised at 1. rewrite effective_rate_idem, effective_det_idem by done.
  change (r_Action (normalised r)) with (or_default (r_Action r) ActionAlert).
  change (r_Severity (normalised r)) with (or_default (r_Severity r) "warning"%string).
  rewrite !or_default_idem. reflexivity.
Qed.

Lemma accepted_normalised r : accepted r -> accepted (normalised r).
Proof.
  intros [Hi Hn Ha Hc Hg Hm Hr Ht Hcs Hx]. split; simpl; try done.
  - unfold or_default. case_decide; [right; left | done].
  - by rewrite effective_rate_idem.
Qed.

(** Claim C11. Validation accepts exactly the well-formed rule sets. [ValidateFull]
    reports no error if and only if every rule is well formed (identifier,
    name and event type present; action, class and sampling mode among the
    known ones; effective sampling rate not outside the range; no empty top
    group; every condition and every exception's condition on a field of the
    event type, with a known operator, compiling patterns of bounded length
    and ranges only on address fields; exceptions named) and no identifier
    occurs twice. The rules are then left with their defaults filled in, and
    a second validation, as on a hot reload, accepts and changes nothing. *)
Theorem validation_exact (rules : list Rule) :
  ((ValidateFull rules).2 = [] <-> Forall accepted rules /\ NoDup (map r_ID rules)) /\
  ((ValidateFull rules).2 = [] ->
     (ValidateFull rules).1 = map normalised rules /\
     (float_gt float_1 float_1 = false ->
      ValidateFull (map normalised rules) = (map normalised rules, []))).
Proof.
  destruct (ValidateFull_spec rules) as [Hiff Hres]. split; [exact Hiff|]. intros E.
  split; [by apply Hres|]. intros H1. apply Hiff in E as [Ha Hd].
  destruct (ValidateFull_spec (map normalised rules)) as [Hiff2 Hres2].
  destruct (ValidateFull (map normalised rules)) as [rs errs]. simpl in *.
  assert (errs = []) as ->.
  { apply Hiff2. split.
    - apply Forall_map. eapply Forall_impl; [exact Ha|]. apply accepted_normalised.
    - by rewrite map_map. }
  f_equal. rewrite Hres2 by done. rewrite map_map. apply map_ext. intros. by apply normalised_idem.
Qed.

(** Claim C37. A validated rule set loads: the engine built from it, fresh or over
    the caches of any earlier engine, records no compile error, every
    condition has a known operator, and the rules satisfy the hypotheses of
    the engine's correctness theorem, for rules without NUL bytes in [in]
    lists whose unused single condition compiles. *)
Theorem validated_rules_load (rules : list Rule) (prior : option RuleEngine) :
  Forall unvalidated_ok rules -> reloaded prior -> (ValidateFull rules).2 = [] ->
  let rules' := (ValidateFull rules).1 in
  Forall good_rule rules' /\ CompileErrors (NewRuleEngineWithCache rules' prior) = None /\
  Forall (fun r => Forall (fun c => opCodeOf (rc_Op c) <> condOpUnknown) (extractAllRuleConditions r)) rules'.
Proof.
  intros Hu Hp Hv. destruct (ValidateFull_spec rules) as [Hiff Hres]. cbn zeta. rewrite (Hres Hv).
  apply Hiff in Hv as [Ha _].
  assert (Forall good_rule (map normalised rules)) as Hg.
  { rewrite Forall_map. rewrite Forall_forall in Ha, Hu |- *. intros r Hr. apply accepted_good; auto. }
  split; [done|]. split.
  - by destruct (New_compiled _ prior (reloaded_caches_ok _ _ Hp) Hg) as (K & rs1 & -> & _).
  - rewrite Forall_map. eapply Forall_impl; [exact Ha|]. intros r Hr.
    eapply Forall_impl; [exact (acc_conditions _ Hr)|]. intros c. apply wf_condition_opcode.
Qed.
End load.

(** ** Accepted fields and the engine's fields *)
Section fields_agree.
Context `{GoLib}.

(** The fields of an event, when it carries the payload of its type. *)
Definition event_fields (e : Event) (d : option (DomainAnalysis Float)) : option (list (gostring * gostring)) :=
  let t := ev_Type e in
  if t =? EventTCPConnect then network_fields e <$> ev_Network e
  else if t =? EventFileAccess then file_fields e <$> ev_File e
  else if t =? EventSyscall then syscall_fields e <$> ev_Syscall e
  else if t =? EventDNS then (fun q => dns_fields q d) <$> ev_DNS e
  else if t =? EventTLS then tls_fields <$> ev_TLS e
  else if t =? EventHTTPPlaintext then http_fields e <$> ev_HTTPPlaintext e
  else if t =? EventPrivesc then Some (privesc_fields e)
  else if t =? EventNetClose then netclose_fields <$> ev_NetClose e
  else if t =? EventGPU then gpu_fields e <$> ev_GPU e
  else if t =? EventCloudAudit then cloud_fields <$> ev_CloudAudit e
  else if t =? EventKmodLoad then kmod_fields e <$> ev_Kmod e
  else if t =? EventIOUring then iouring_fields e <$> ev_IOUring e
  else if t =? EventBPFProgram then bpf_fields e <$> ev_BPFProgram e
  else Some [].

(** The fields validation accepts and the engine does not have. *)
Definition dead_fields (t : Z) : list gostring :=
  if bool_decide (t ∈ [EventDNS; EventTLS]) then ["proc.comm"; "comm"]%string
  else if bool_decide (t ∈ [EventCgroupEsc; EventLSMAudit; EventSequence])
  then default [] (validFields t) else [].

Lemma getFieldValue_fields e field d :
  getFieldValue e field d =
  match event_fields e d with
  | Some fs => default fieldNotFound (assoc (normaliseFieldName field) fs)
  | None => ""%string
  end.
Proof.
  unfold getFieldValue, event_fields, payload_field.
  repeat case_match; simplify_eq/=; try done;
    repeat match goal with
    | Hx : _ <$> ?o = _, Hy : ?o = _ |- _ => rewrite Hy in Hx; simplify_eq/=
    end; done.
Qed.

Lemma assoc_key {A B} `{EqDecision A} (k : A) (l : list (A * B)) :
  k ∈ map fst l -> exists v, assoc k l = Some v.
Proof.
  induction l as [|[x v] l IH]; simpl; [by intros ?%not_elem_of_nil|].
  destruct (decide (k = x)); [by eauto|]. intros [?|?]%elem_of_cons; [done|auto].
Qed.

Lemma assoc_no_key {A B} `{EqDecision A} (k : A) (l : list (A * B)) :
  k ∉ map fst l -> assoc k l = None.
Proof.
  induction l as [|[x v] l IH]; simpl; [done|]. rewrite not_elem_of_cons. intros [? ?].
  rewrite decide_False by done. auto.
Qed.

(** Which accepted fields have an entry depends on the keys only. *)
Lemma accepted_field_keys e d fs vf :
  event_fields e d = Some fs -> validFields (ev_Type e) = Some vf ->
  Forall (fun f => f ∈ dead_fields (ev_Type e) <-> normaliseFieldName f ∉ map fst fs) vf.
Proof.
  intros He Hv. apply assoc_elem in Hv. unfold event_fields in He.
  repeat (apply elem_of_cons in Hv as [Hv|Hv];
    [ injection Hv as Ht ->; rewrite Ht in *; clear Ht; simpl in He;
      first [ apply fmap_Some in He as (p & _ & ->) | injection He as <- ];
      repeat (apply Forall_cons; split; [apply (bool_decide_unpack _); vm_compute; exact I|]);
      apply Forall_nil_2 |]).
  by apply not_elem_of_nil in Hv.
Qed.

Lemma accepted_field_value e field d fs :
  event_fields e d = Some fs -> validateFieldName field (ev_Type e) = None ->
  if decide (field ∈ dead_fields (ev_Type e)) then getFieldValue e field d = fieldNotFound
  else exists v, assoc (normaliseFieldName field) fs = Some v /\ getFieldValue e field d = v.
Proof.
  intros He Hf. apply validateFieldName_spec in Hf as (vf & Hv & Hin).
  pose proof (accepted_field_keys e d fs vf He Hv) as Hk. rewrite Forall_forall in Hk. specialize (Hk _ Hin).
  rewrite getFieldValue_fields, He. case_decide as Hd.
  - apply Hk in Hd. by rewrite assoc_no_key.
  - destruct (assoc_key (normaliseFieldName field) fs) as [v Ev]; [|exists v; by rewrite Ev].
    apply dec_stable. by rewrite <- Hk.
Qed.


(** ** Rules that can never fire *)
Definition caps_op (op : RuleConditionOperator) : Prop := op = "caps_gained"%string \/ op = "caps_dropped"%string.

Lemma cond_not_found e c :
  getFieldValue e (rc_Field c) None = fieldNotFound -> ~ caps_op (rc_Op c) -> ~ cond_holds e c.
Proof.
  intros Hf Hop. unfold cond_holds. rewrite Hf.
  destruct (opCodeOf (rc_Op c)) eqn:Ec; try (by intros [? _]);
    (apply opCodeOf_elem in Ec; [|done]); exfalso; apply Hop; revert Ec; unfold operatorCodes;
    rewrite !elem_of_cons, elem_of_nil; unfold caps_op; intuition congruence.
Qed.

Lemma dead_field_accepted field t : field ∈ dead_fields t -> validateFieldName field t = None.
Proof.
  rewrite validateFieldName_spec. unfold dead_fields. intros Hd. case_bool_decide as Ht.
  - apply elem_of_cons in Ht as [-> | ->%list_elem_of_singleton]; eexists; (split; [reflexivity|]);
      revert Hd; rewrite elem_of_cons, list_elem_of_singleton; intros [-> | ->];
      apply (bool_decide_unpack _); vm_compute; exact I.
  - case_bool_decide; [|by apply not_elem_of_nil in Hd]. destruct (validFields t); [by eauto|].
    by apply not_elem_of_nil in Hd.
Qed.

(** A condition that no event with its payload satisfies. *)
Definition dead_condition (t : Z) (c : RuleCondition) : Prop :=
  rc_Field c ∈ dead_fields t /\ ~ caps_op (rc_Op c).

Lemma dead_condition_fails e c :
  is_Some (event_fields e None) -> dead_condition (ev_Type e) c -> ~ cond_holds e c.
Proof.
  intros [fs He] [Hd Hop]. apply cond_not_found; [|done].
  pose proof (accepted_field_value e _ None fs He (dead_field_accepted _ _ Hd)) as Hv. by rewrite decide_True in Hv.
Qed.

(** The condition decides the rule alone: it is the single condition, or one
    of the conjuncts of the top group. *)
Definition required_condition (r : Rule) (c : RuleCondition) : Prop :=
  match r_ConditionGroup r with
  | None => c = r_Condition r
  | Some (mkGroup o cs gs) => c ∈ cs /\ ToLower o <> "or"%string
  end.

Lemma foldr_and_elem (Q : Prop) (l : list Prop) P : P ∈ l -> foldr and Q l -> P.
Proof.
  induction l as [|P' l IH]; [by intros ?%not_elem_of_nil|]. simpl.
  intros [-> | ?]%elem_of_cons [? ?]; auto.
Qed.

Lemma required_condition_holds e r c : required_condition r c -> rule_holds e r -> cond_holds e c.
Proof.
  unfold required_condition, rule_holds, either_holds. intros Hr [Hh _].
  destruct (r_ConditionGroup r) as [[o cs gs]|]; [|by subst]. destruct Hr as [Hc Ho]. simpl in Hh.
  destruct Hh as [[-> _]|Hh]; [by apply not_elem_of_nil in Hc|]. rewrite decide_False in Hh by done.
  eapply foldr_and_elem; [|exact Hh]. apply list_elem_of_fmap. by exists c.
Qed.

Lemma alerts_of_fired s rnd e i rules l a :
  alerts_of s rnd e i rules l -> a ∈ l -> exists r, r ∈ rules /\ rule_holds e r /\ a = rule_alert e r.
Proof.
  induction 1 as [|i r rules l Hf _ IH|i r rules l _ _ IH]; [by intros ?%not_elem_of_nil| |].
  - intros [-> | Ha]%elem_of_cons.
    + exists r. split_and!; [by left | apply Hf | done].
    + destruct (IH Ha) as (q & ? & ?). exists q. split; [by right|done].
  - intros Ha. destruct (IH Ha) as (q & ? & ?). exists q. split; [by right|done].
Qed.

(** Rules with unique identifiers are told apart by them. *)
Lemma same_id (rules : list Rule) i j q r :
  NoDup (map r_ID rules) -> rules !! i = Some q -> rules !! j = Some r -> r_ID q = r_ID r -> i = j.
Proof.
  intros Hn Hi Hj E. eapply (NoDup_lookup (map r_ID rules)); [done| |].
  - rewrite list_lookup_fmap, Hi. reflexivity.
  - rewrite list_lookup_fmap, Hj. simpl. by rewrite E.
Qed.

Lemma same_id_elem (rules : list Rule) q r :
  NoDup (map r_ID rules) -> q ∈ rules -> r ∈ rules -> r_ID q = r_ID r -> q = r.
Proof.
  intros Hn [i Hi]%list_elem_of_lookup [j Hj]%list_elem_of_lookup E.
  pose proof (same_id rules i j q r Hn Hi Hj E) as ->. congruence.
Qed.

Lemma rules_for_type e rules r : r ∈ rules_for e rules -> r ∈ rules /\ r_EventType r = ev_Type e.
Proof.
  unfold rules_for, of_type. case_match; [|by intros ?%not_elem_of_nil].
  by intros [? ?]%list_elem_of_filter.
Qed.

(** The rules of a validated set that the engine's alerts come from. *)
Lemma validated_alert_rule rules prior s rnd e a :
  Forall unvalidated_ok rules -> reloaded prior -> sampler_ok s -> Z.of_nat (size (sp_entries s)) < 2 ^ 31 ->
  (ValidateFull rules).2 = [] ->
  a ∈ Evaluate (with_sampler (NewRuleEngineWithCache (ValidateFull rules).1 prior) s) rnd e ->
  exists r, r ∈ rules /\ r_EventType r = ev_Type e /\ rule_holds e r /\ al_RuleID a = r_ID r.
Proof.
  intros Hu Hp Hs Hn Hv Ha. destruct (ValidateFull_spec rules) as [Hiff Hres]. rewrite (Hres Hv) in Ha.
  apply Hiff in Hv as [Hacc _].
  assert (Forall good_rule (map normalised rules)) as Hg.
  { rewrite Forall_map. rewrite Forall_forall in Hacc, Hu |- *. intros r Hr. apply accepted_good; auto. }
  destruct (alerts_of_fired _ _ _ _ _ _ _ (Evaluate_alerts _ prior s rnd e Hg Hp Hs Hn) Ha) as (q & Hq & Hh & ->).
  apply rules_for_type in Hq as [Hq Ht]. apply list_elem_of_fmap in Hq as (r & -> & Hr).
  exists r. by split_and!.
Qed.

(** A rule that requires a dead field passes validation and never
    fires: in every validated rule set, after any history of reloads and
    whatever the sampler does, no event that carries its payload raises an
    alert of that rule. The set may hold any other rules. Shipped examples are
    the two cgroup-escape rules of rules/container-escape.yaml (one of them
    with action block) and the sequence rule of rules/cryptominer.yaml. *)
Theorem dead_rules_never_fire (rules : list Rule) (prior : option RuleEngine) (s : RuleSampler)
    (rnd : nat -> Float) (e : Event) (r : Rule) (c : RuleCondition) :
  Forall unvalidated_ok rules -> reloaded prior -> sampler_ok s -> Z.of_nat (size (sp_entries s)) < 2 ^ 31 ->
  (ValidateFull rules).2 = [] ->
  r ∈ rules -> required_condition r c -> dead_condition (r_EventType r) c ->
  is_Some (event_fields e None) ->
  r_ID r ∉ map al_RuleID (Evaluate (with_sampler (NewRuleEngineWithCache (ValidateFull rules).1 prior) s) rnd e).
Proof.
  intros Hu Hp Hs Hn Hv Hr Hc Hd He (a & Eid & Ha)%list_elem_of_fmap.
  destruct (validated_alert_rule rules prior s rnd e a) as (q & Hq & Ht & Hh & Eq); [done..|].
  destruct (ValidateFull_spec rules) as [Hiff _]. apply Hiff in Hv as [_ Hnd].
  assert (q = r) as -> by (apply (same_id_elem rules); congruence).
  rewrite Ht in Hd. eapply dead_condition_fails; [done|done|]. by eapply required_condition_holds.
Qed.

(** An empty subgroup under [or] passes validation and makes its rule
    match everything: the top-level check rejects only an empty top group, so
    a rule whose [or] group holds a subgroup without conditions is accepted
    whenever the rest of the rule is well formed, and, without exceptions or
    sampling, fires on every event of its type. *)
Theorem empty_subgroup_matches_all (r : Rule) (o o' : gostring) (cs : list RuleCondition)
    (gs : list RuleConditionGroup) (rnd : nat -> Float) (e : Event) :
  unvalidated_ok r -> (ValidateFull [r]).2 = [] ->
  r_ConditionGroup r = Some (mkGroup o cs gs) -> ToLower o = "or"%string -> mkGroup o' [] [] ∈ gs ->
  r_Exceptions r = [] -> unsampled (effective_rate r) = true -> r_Action r <> ActionDrop ->
  0 < r_EventType r < byTypeSize -> ev_Type e = r_EventType r ->
  Evaluate (NewRuleEngine (ValidateFull [r]).1) rnd e = [rule_alert e (normalised r)].
Proof.
  intros Hu Hv Hg Ho Hin Hx Hs Ha Ht He. destruct (ValidateFull_spec [r]) as [Hiff Hres].
  rewrite (Hres Hv). cbn [map]. apply Hiff in Hv as [Hacc _]. rewrite Forall_singleton in Hacc.
  apply single_rule_fires; [by apply accepted_good | done | | |].
  - unfold rules_for, of_type. rewrite He. destruct (_ && _) eqn:Eb; [|unfold byTypeSize in *; lia].
    rewrite filter_cons_True; done.
  - unfold rule_holds. simpl. rewrite Hg, Hx. split; [|constructor]. simpl. right. rewrite decide_True by done.
    assert (foldr or False (map (group_holds e) gs)) as Hgs.
    { clear -Hin. induction gs as [|g gs IH]; [by apply not_elem_of_nil in Hin|]. simpl.
      apply elem_of_cons in Hin as [<- | Hin]; [left; by left | right; auto]. }
    clear -Hgs. induction cs as [|c cs IH]; simpl; [done|]. by right.
  - simpl. unfold or_default. by case_decide.
Qed.
End fields_agree.

(** ** The tuning overlay *)
Section overlay.
Context `{GoLib}.

(** The exceptions an overlay gives to a rule. *)
Definition tuned_exceptions (os : list RuleTuningOverlay) (id : gostring) : list RuleException :=
  concat (map ov_Exceptions (base.filter (fun o => ov_RuleID o = id) os)).

Definition tuned (os : list RuleTuningOverlay) (r : Rule) : Rule :=
  set_exceptions r (r_Exceptions r ++ tuned_exceptions os (r_ID r)).

Lemma tuned_nil r : tuned [] r = r.
Proof. destruct r. unfold tuned, set_exceptions, tuned_exceptions. simpl. by rewrite app_nil_r. Qed.

Lemma index_ids_lookup i byID rules id :
  NoDup (map r_ID rules) ->
  index_ids i byID rules !! id =
    match list_find (fun r => r_ID r = id) rules with
    | Some (j, _) => Some (i + j)%nat
    | None => byID !! id
    end.
Proof.
  revert i byID. induction rules as [|r rules IH]; intros i byID Hn; simpl; [done|].
  simpl in Hn. apply NoDup_cons in Hn as [Hni Hn]. rewrite IH by done. case_decide as Hid.
  - subst id. assert (list_find (fun q => r_ID q = r_ID r) rules = None) as ->.
    { apply list_find_None, Forall_forall. intros q Hq E. apply Hni. rewrite <- E.
      apply list_elem_of_fmap. by exists q. }
    rewrite lookup_insert_eq. f_equal. lia.
  - destruct (list_find (fun q => r_ID q = id) rules) as [[j q]|]; simpl; [f_equal; lia|].
    by rewrite lookup_insert_ne.
Qed.

Lemma index_ids_Some rules id idx :
  NoDup (map r_ID rules) -> index_ids 0 ∅ rules !! id = Some idx ->
  exists r, rules !! idx = Some r /\ r_ID r = id.
Proof.
  intros Hn. rewrite index_ids_lookup by done. destruct (list_find _ rules) as [[j r]|] eqn:E; [|done].
  intros [= <-]. apply list_find_Some in E as (? & ? & _). by exists r.
Qed.

Lemma index_ids_None rules id :
  NoDup (map r_ID rules) -> index_ids 0 ∅ rules !! id = None <-> id ∉ map r_ID rules.
Proof.
  intros Hn. rewrite index_ids_lookup by done. rewrite list_elem_of_fmap.
  destruct (list_find _ rules) as [[j r]|] eqn:E; split; try done.
  - intros Hx. exfalso. apply Hx. apply list_find_Some in E as (? & <- & _). exists r.
    split; [done|]. by eapply list_elem_of_lookup_2.
  - intros _ (r & -> & Hr). apply list_find_None in E. rewrite Forall_forall in E. by apply (E r Hr).
Qed.

(** One entry for a rule of the set tunes that rule. *)
Lemma tune_step (rules : list Rule) idx r o :
  NoDup (map r_ID rules) -> rules !! idx = Some r -> r_ID r = ov_RuleID o ->
  <[idx := set_exceptions r (r_Exceptions r ++ ov_Exceptions o)]> rules = map (tuned [o]) rules.
Proof.
  intros Hn Hi Hid. apply list_eq. intros j. rewrite list_lookup_fmap.
  destruct (decide (j = idx)) as [->|Hne].
  - rewrite list_lookup_insert_eq by (by eapply lookup_lt_Some). rewrite Hi. simpl. f_equal.
    unfold tuned, tuned_exceptions. rewrite filter_cons_True by done. simpl. by rewrite app_nil_r.
  - rewrite list_lookup_insert_ne by done. destruct (rules !! j) as [q|] eqn:Ej; [|done]. simpl. f_equal.
    unfold tuned, tuned_exceptions. rewrite filter_cons_False.
    + simpl. rewrite app_nil_r. by destruct q.
    + intros E. apply Hne. apply (same_id rules j idx q r); [done..|]. by rewrite Hid, E.
Qed.

Lemma tuned_cons o os r : tuned os (tuned [o] r) = tuned (o :: os) r.
Proof.
  unfold tuned, set_exceptions, tuned_exceptions. simpl. f_equal. rewrite <- app_assoc. f_equal.
  rewrite <- concat_app, <- map_app, <- filter_app. done.
Qed.

Lemma tuned_skip o os r : ov_RuleID o <> r_ID r -> tuned (o :: os) r = tuned os r.
Proof. intros Hne. unfold tuned, tuned_exceptions. by rewrite filter_cons_False. Qed.

Definition overlay_ok (rules : list Rule) (o : RuleTuningOverlay) : Prop :=
  forall r, r ∈ rules -> r_ID r = ov_RuleID o ->
  Forall (fun x => Forall (wf_condition (r_EventType r)) (main_conditions (ex_Condition x) (ex_ConditionGroup x)))
    (ov_Exceptions o).

Lemma overlay_exception_check_spec t id x :
  overlay_exception_check t id x = None <->
  Forall (wf_condition t) (main_conditions (ex_Condition x) (ex_ConditionGroup x)).
Proof.
  unfold overlay_exception_check, main_conditions. destruct (ex_ConditionGroup x) as [g|].
  - rewrite fmap_None, (first_error_iff _ _ _ (validateCondition_spec t)). done.
  - by rewrite fmap_None, validateCondition_spec, Forall_singleton.
Qed.

Lemma tuned_ids os rules : map r_ID (map (tuned os) rules) = map r_ID rules.
Proof. rewrite map_map. by apply map_ext. Qed.

Lemma overlay_ok_tuned os rules o : overlay_ok (map (tuned os) rules) o <-> overlay_ok rules o.
Proof.
  unfold overlay_ok. split; intros Ho r Hr.
  - apply (Ho (tuned os r)). apply list_elem_of_fmap. by exists r.
  - apply list_elem_of_fmap in Hr as (q & -> & Hq). by apply (Ho q).
Qed.

Lemma overlays_ok_tuned os rules l : Forall (overlay_ok (map (tuned os) rules)) l <-> Forall (overlay_ok rules) l.
Proof. apply Forall_iff. intros o. apply overlay_ok_tuned. Qed.

(** [byID] holds the position of each rule. *)
Definition indexes (byID : gmap gostring nat) (rules : list Rule) : Prop :=
  (forall id idx, byID !! id = Some idx -> exists r, rules !! idx = Some r /\ r_ID r = id) /\
  (forall id, byID !! id = None <-> id ∉ map r_ID rules).

Lemma indexes_tuned byID os rules : indexes byID rules -> indexes byID (map (tuned os) rules).
Proof.
  intros [Hs Hn]. split; [|by rewrite tuned_ids]. intros id j Hj. destruct (Hs _ _ Hj) as (q & Hq & Eq).
  exists (tuned os q). by rewrite list_lookup_fmap, Hq.
Qed.

Lemma overlay_checked rules idx r o :
  NoDup (map r_ID rules) -> rules !! idx = Some r -> r_ID r = ov_RuleID o ->
  first_error (overlay_exception_check (r_EventType r) (ov_RuleID o)) (ov_Exceptions o) = None <-> overlay_ok rules o.
Proof.
  intros Hn Hi Hid. assert (r ∈ rules) as Hr by by eapply list_elem_of_lookup_2.
  rewrite (first_error_iff _ _ _ (overlay_exception_check_spec (r_EventType r) (ov_RuleID o))). split.
  - intros Hx q Hq Eq. assert (q = r) as -> by (apply (same_id_elem rules); congruence). done.
  - intros Ho. by apply Ho.
Qed.

Lemma apply_overlays_spec byID rules unknown os :
  NoDup (map r_ID rules) -> indexes byID rules ->
  match apply_overlays byID rules unknown os with
  | (rules', Ok ids) =>
      Forall (overlay_ok rules) os /\ rules' = map (tuned os) rules /\
      ids = unknown ++ base.filter (fun id => id ∉ map r_ID rules) (map ov_RuleID os)
  | (_, Err _) => ~ Forall (overlay_ok rules) os
  | (_, Panic) => False
  end.
Proof.
  revert rules unknown. induction os as [|o os IH]; intros rules unknown Hn Hix; simpl.
  { split_and!; [constructor| |by rewrite app_nil_r].
    rewrite <- (map_id rules) at 1. apply map_ext. intros r. by rewrite tuned_nil. }
  destruct (byID !! ov_RuleID o) as [idx|] eqn:Eo.
  - destruct (proj1 Hix _ _ Eo) as (r & Hi & Hid). rewrite Hi.
    pose proof (overlay_checked rules idx r o Hn Hi Hid) as Hx.
    destruct (first_error _ _) as [err|].
    { intros [Ho _]%Forall_cons. by apply Hx in Ho. }
    rewrite (tune_step rules idx r o) by done. specialize (IH (map (tuned [o]) rules) unknown).
    rewrite !tuned_ids in IH. specialize (IH Hn (indexes_tuned _ _ _ Hix)).
    destruct (apply_overlays byID (map (tuned [o]) rules) unknown os) as [rs' [ids|e|]]; [| |done];
      rewrite overlays_ok_tuned in IH.
    + destruct IH as (Hf & -> & ->). split_and!; [constructor; [by apply Hx|done]| |].
      * rewrite map_map. apply map_ext. intros q. apply tuned_cons.
      * rewrite filter_cons_False; [done|]. rewrite <- (proj2 Hix), Eo. done.
    + by intros [_ Hos]%Forall_cons.
  - assert (ov_RuleID o ∉ map r_ID rules) as Hni by by apply Hix.
    assert (overlay_ok rules o) as Ho.
    { intros q Hq Eq. destruct Hni. rewrite <- Eq. apply list_elem_of_fmap. by exists q. }
    specialize (IH rules (unknown ++ [ov_RuleID o]) Hn Hix).
    destruct (apply_overlays byID rules (unknown ++ [ov_RuleID o]) os) as [rs' [ids|e|]]; [| |done].
    + destruct IH as (Hf & -> & ->). split_and!; [by constructor| |].
      * apply map_ext_in. intros q Hq%list_elem_of_In. symmetry. apply tuned_skip. intros E. destruct Hni.
        rewrite E. apply list_elem_of_fmap. by exists q.
      * rewrite filter_cons_True by done. by rewrite <- app_assoc.
    + intros [_ ?]%Forall_cons. done.
Qed.

Lemma tuned_holds e os r : rule_holds e (tuned os r) -> rule_holds e r.
Proof. unfold rule_holds. simpl. rewrite Forall_app. intros (? & ? & _). done. Qed.

(** The tuning overlay. On a rule set without duplicate identifiers
    the merge never panics; it fails exactly when an entry for a present rule
    has an exception whose conditions are not well formed for that rule's
    event type; otherwise every rule is the old one with the exceptions of all
    its entries appended in order, the entries of absent rules are reported in
    order, and a tuned rule holds on no event on which the old one did not:
    tuning only suppresses. *)
Theorem tuning_overlay_applied (rules : list Rule) (os : list RuleTuningOverlay) :
  NoDup (map r_ID rules) ->
  match ApplyTuningOverlay rules (Some os) with
  | (rules', Ok unknown) =>
      Forall (overlay_ok rules) os /\ rules' = map (tuned os) rules /\
      unknown = base.filter (fun id => id ∉ map r_ID rules) (map ov_RuleID os) /\
      forall e r, r ∈ rules -> rule_holds e (tuned os r) -> rule_holds e r
  | (_, Err _) => ~ Forall (overlay_ok rules) os
  | (_, Panic) => False
  end.
Proof.
  intros Hn.
  assert (indexes (index_ids 0 ∅ rules) rules) as Hix.
  { split; [intros; by apply index_ids_Some | intros; by apply index_ids_None]. }
  destruct os as [|o os].
  - simpl. split_and!; [constructor| |done|].
    + rewrite <- (map_id rules) at 1. apply map_ext. intros r. by rewrite tuned_nil.
    + intros ? ? _. apply tuned_holds.
  - pose proof (apply_overlays_spec _ rules [] (o :: os) Hn Hix) as Ha.
    change (ApplyTuningOverlay rules (Some (o :: os))) with (apply_overlays (index_ids 0 ∅ rules) rules [] (o :: os)).
    destruct (apply_overlays (index_ids 0 ∅ rules) rules [] (o :: os)) as [rs' [ids|e|]]; [|done|done].
    destruct Ha as (? & ? & ?). split_and!; [done..|]. intros ? ? _. apply tuned_holds.
Qed.
End overlay.

(** ** Directories *)
Section directories.
Context `{GoLib}.

Lemma checked_Ok rules rs :
  checked (ValidateFull rules) = Ok rs <->
  Forall accepted rules /\ NoDup (map r_ID rules) /\ rs = map normalised rules.
Proof.
  destruct (ValidateFull_spec rules) as [Hiff Hres]. unfold checked.
  destruct (ValidateFull rules) as [rs1 [|e errs]]; simpl in *.
  - destruct Hiff as [Hiff _]. destruct (Hiff eq_refl). rewrite (Hres eq_refl). split; [by intros [= <-]|].
    by intros (_ & _ & ->).
  - split; [done|]. intros (? & ? & _). by discriminate (proj2 Hiff (conj H0 H1)).
Qed.

(** The rules a rule file holds, when the file loads. *)
Definition file_rules (fs : files) (path : gostring) (rules : list Rule) : Prop :=
  exists data, fs_ReadFile fs path = Some data /\ fs_Unmarshal fs data = Some rules /\
    Forall accepted rules /\ NoDup (map r_ID rules).

Lemma LoadRulesFromFile_Ok fs path rs :
  LoadRulesFromFile fs path = Ok rs <-> exists rules, file_rules fs path rules /\ rs = map normalised rules.
Proof.
  unfold LoadRulesFromFile, file_rules. destruct (fs_ReadFile fs path) as [data|].
  2: { split; [done|]. by intros (? & (? & ? & _) & _). }
  destruct (fs_Unmarshal fs data) as [rules|] eqn:E.
  2: { split; [done|]. intros (? & (? & [= <-] & ? & _) & _). congruence. }
  rewrite checked_Ok. split.
  - intros (? & ? & ->). exists rules. split; [|done]. by exists data.
  - intros (? & (? & [= <-] & ? & ? & ?) & ->). simplify_eq. done.
Qed.

(** The entries of a directory that are rule files. *)
Definition rule_files (entries : list (gostring * bool)) : list gostring :=
  map fst (base.filter (fun x => negb x.2 && is_rule_file x.1) entries).

Lemma load_entries_Ok fs dir entries rs :
  load_entries fs dir entries = Ok rs <->
  exists ls, Forall2 (fun name rules => file_rules fs (fs_Join fs dir name) rules) (rule_files entries) ls /\
    rs = map normalised (concat ls).
Proof.
  revert rs. induction entries as [|[name isDir] entries IH]; intros rs; simpl.
  { split; [intros [= <-]; by exists [] | intros (ls & Hf & ->); by inversion Hf]. }
  unfold rule_files in *. rewrite filter_cons. simpl.
  destruct isDir, (is_rule_file name); simpl; [apply IH|apply IH| |apply IH].
  pose proof (LoadRulesFromFile_Ok fs (fs_Join fs dir name)) as Hl.
  destruct (LoadRulesFromFile fs (fs_Join fs dir name)) as [rs1|e|]; simpl.
  - destruct (proj1 (Hl rs1) eq_refl) as (rules & Hr & ->).
    destruct (load_entries fs dir entries) as [rs2|e|]; simpl.
    + destruct (proj1 (IH rs2) eq_refl) as (ls & Hls & ->). split.
      * intros [= <-]. exists (rules :: ls). split; [by constructor|]. simpl. by rewrite map_app.
      * intros (ls' & Hf & ->). inversion Hf as [|? q ? ls'' Hq Hf']; subst. simpl. rewrite map_app. f_equal. f_equal.
        -- destruct Hr as (? & ? & ? & _), Hq as (? & ? & ? & _). by simplify_eq.
        -- pose proof (proj2 (IH _) (ex_intro _ ls'' (conj Hf' eq_refl))) as E. by injection E.
    + split; [done|]. intros (ls' & Hf & ->). inversion Hf as [|? q ? ls'' Hq Hf']; subst.
      discriminate (proj2 (IH _) (ex_intro _ ls'' (conj Hf' eq_refl))).
    + split; [done|]. intros (ls' & Hf & ->). inversion Hf as [|? q ? ls'' Hq Hf']; subst.
      discriminate (proj2 (IH _) (ex_intro _ ls'' (conj Hf' eq_refl))).
  - split; [done|]. intros (ls' & Hf & ->). inversion Hf as [|? q ? ls'' Hq Hf']; subst.
    discriminate (proj2 (Hl _) (ex_intro _ q (conj Hq eq_refl))).
  - split; [done|]. intros (ls' & Hf & ->). inversion Hf as [|? q ? ls'' Hq Hf']; subst.
    discriminate (proj2 (Hl _) (ex_intro _ q (conj Hq eq_refl))).
Qed.

(** Loading a directory checks each file on its own: it succeeds, with
    the files' rules in directory order and their defaults filled in, exactly
    when every rule file reads, decodes and is accepted without a duplicate
    identifier of its own. An identifier used in two files is not noticed
    here, while the validation of a hot reload, which sees the whole set,
    rejects the loaded rules exactly when there is one. *)
Theorem directory_load (fs : files) (dir : gostring) (entries : list (gostring * bool)) :
  fs_ReadDir fs dir = Some entries ->
  (forall rs, LoadRulesFromDir fs dir = Ok rs <->
     exists ls, Forall2 (fun name rules => file_rules fs (fs_Join fs dir name) rules) (rule_files entries) ls /\
       rs = map normalised (concat ls)) /\
  (forall rs, LoadRulesFromDir fs dir = Ok rs -> ((ValidateFull rs).2 = [] <-> NoDup (map r_ID rs))).
Proof.
  intros Hd. unfold LoadRulesFromDir, LoadRulesFromDirWithChecksums. simpl. rewrite Hd.
  split; [apply load_entries_Ok|]. intros rs (ls & Hf & ->)%load_entries_Ok.
  rewrite (proj1 (ValidateFull_spec _)). split; [by intros [_ ?]|]. intros Hn. split; [|done].
  apply Forall_map. rewrite Forall_concat. clear Hn Hd. induction Hf as [|name rules ns ls Hr Hf IH]; [constructor|].
  constructor; [|done]. destruct Hr as (? & _ & _ & Ha & _). eapply Forall_impl; [exact Ha|]. apply accepted_normalised.
Qed.
End directories.

(** ** Witnesses *)
Module Example_loader.
#[local] Existing Instance sample_lib.

Definition base_rule (id : gostring) (t : Z) (c : RuleCondition) (g : option RuleConditionGroup) : Rule :=
  mkRule _ id "n"%string "d"%string t false c g ""%string ""%string [] [] ""%string None (0 : Float) false.

(** container_escape_cgroup_to_root of rules/container-escape.yaml *)
Definition cgroup_rule : Rule :=
  base_rule "container_escape_cgroup_to_root"%string EventCgroupEsc (condition "new_cgroup_id" "equals" ["1"])%string None.
Definition file_rule : Rule :=
  base_rule "f"%string EventFileAccess (condition "filename" "prefix" ["/etc"])%string None.
Definition loose_rule : Rule :=
  base_rule "loose"%string EventFileAccess (condition "" "" [])%string
    (Some (mkGroup "OR" [condition "filename" "equals" ["/etc/shadow"]] [mkGroup "and" [] []])%string).

Definition file_event : Event :=
  mkEvent EventFileAccess 0 1 1 0 0 (zeros 16) (zeros 16) None None
    (Some (mkFileEvent (string_bytes "/tmp/x") 0 0 0 ""%string false))
    None None None None None None None None None None None None None ""%string false.
Definition cgroup_event : Event :=
  mkEvent EventCgroupEsc 0 1 1 0 0 (zeros 16) (zeros 16) None None None
    None None None None None None None None None None None None None ""%string false.

Lemma validation_exact_witness :
  (ValidateFull [cgroup_rule; file_rule]).2 = [] /\
  ValidateFull (map normalised [cgroup_rule; file_rule]) = (map normalised [cgroup_rule; file_rule], []) /\
  (ValidateFull [file_rule; file_rule]).2 = [DuplicateID "f"%string 0 1].
Proof.
  split; [vm_compute; reflexivity|]. split; [|vm_compute; reflexivity].
  apply (proj2 (validation_exact [cgroup_rule; file_rule])).
  - vm_compute. reflexivity.
  - reflexivity.
Defined.

Lemma plain_unvalidated (r : Rule) :
  forallb (fun c => negb (is_set_op (rc_Op c))) (extractAllRuleConditions r) = true ->
  (r_ConditionGroup r = None \/ r_Condition r = condition ""%string ""%string []) -> unvalidated_ok r.
Proof.
  intros Hf Hc. split.
  - apply Forall_forall. intros c Hin Hs. rewrite forallb_forall in Hf. apply list_elem_of_In, Hf in Hin.
    destruct (is_set_op (rc_Op c)); done.
  - destruct Hc as [?| ->]; [by left|]. right. by split_and!.
Qed.

Lemma validated_rules_load_witness :
  Forall good_rule (ValidateFull [cgroup_rule; loose_rule]).1 /\
  CompileErrors (NewRuleEngineWithCache (ValidateFull [cgroup_rule; loose_rule]).1 None) = None.
Proof.
  destruct (validated_rules_load [cgroup_rule; loose_rule] None) as (Hg & He & _).
  - repeat constructor; apply plain_unvalidated; by auto.
  - constructor.
  - vm_compute. reflexivity.
  - split; [exact Hg | exact He].
Defined.


Lemma dead_rules_witness :
  (ValidateFull [cgroup_rule; file_rule]).2 = [] /\
  "container_escape_cgroup_to_root"%string ∉ map al_RuleID
    (Evaluate (with_sampler (NewRuleEngineWithCache (ValidateFull [cgroup_rule; file_rule]).1 None) (mkSampler ∅ 0))
      (fun _ => 0) cgroup_event).
Proof.
  split; [vm_compute; reflexivity|].
  apply (dead_rules_never_fire [cgroup_rule; file_rule] None (mkSampler ∅ 0) (fun _ => 0) cgroup_event
    cgroup_rule (r_Condition cgroup_rule)).
  - repeat constructor; apply plain_unvalidated; by auto.
  - constructor.
  - reflexivity.
  - reflexivity.
  - vm_compute. reflexivity.
  - left.
  - reflexivity.
  - split; [left | intros [Hx|Hx]; discriminate Hx].
  - by eexists.
Defined.

Lemma empty_subgroup_witness :
  (ValidateFull [loose_rule]).2 = [] /\
  Evaluate (NewRuleEngine (ValidateFull [loose_rule]).1) (fun _ => 0) file_event =
    [rule_alert file_event (normalised loose_rule)].
Proof.
  split; [vm_compute; reflexivity|].
  apply (empty_subgroup_matches_all loose_rule "OR"%string "and"%string
    [condition "filename" "equals" ["/etc/shadow"]]%string [mkGroup "and"%string [] []]).
  - apply plain_unvalidated; by auto.
  - vm_compute. reflexivity.
  - reflexivity.
  - reflexivity.
  - left.
  - reflexivity.
  - reflexivity.
  - discriminate.
  - split; reflexivity.
  - reflexivity.
Defined.

Definition sample_overlay : list RuleTuningOverlay :=
  [ mkOverlay "f" [mkException "backup" (condition "proc.comm" "equals" ["tar"]) None];
    mkOverlay "gone" [mkException "x" (condition "proc.comm" "equals" ["y"]) None] ]%string.

Lemma tuning_overlay_witness :
  let '(rules, res) := ApplyTuningOverlay [cgroup_rule; file_rule] (Some sample_overlay) in
  res = Ok ["gone"%string] /\ rules = map (tuned sample_overlay) [cgroup_rule; file_rule].
Proof.
  pose proof (tuning_overlay_applied [cgroup_rule; file_rule] sample_overlay) as Ht.
  assert ((ApplyTuningOverlay [cgroup_rule; file_rule] (Some sample_overlay)).2 = Ok ["gone"%string]) as E
    by (vm_compute; reflexivity).
  destruct (ApplyTuningOverlay [cgroup_rule; file_rule] (Some sample_overlay)) as [rs res].
  simpl in E. subst res. split; [reflexivity|]. apply Ht. apply (bool_decide_unpack _). vm_compute. exact I.
Defined.

(** Two files that use one identifier. *)
Definition two_files : files := mkFiles (fun _ => Some [("a.yaml", false); ("README.md", false); ("b.yml", false)]%string)
  (fun p => Some (string_bytes p)) (fun d n => (d +:+ "/" +:+ n)%string) (fun _ => Some [file_rule]).

Lemma directory_load_witness :
  LoadRulesFromDir two_files "rules"%string = Ok [normalised file_rule; normalised file_rule] /\
  ((ValidateFull [normalised file_rule; normalised file_rule]).2 = [] <->
   NoDup (map r_ID [normalised file_rule; normalised file_rule])).
Proof.
  assert (LoadRulesFromDir two_files "rules"%string = Ok [normalised file_rule; normalised file_rule]) as E
    by (vm_compute; reflexivity).
  split; [exact E|].
  destruct (directory_load two_files "rules"%string [("a.yaml", false); ("README.md", false); ("b.yml", false)]%string) as [_ Hv].
  - reflexivity.
  - exact (Hv _ E).
Defined.
End Example_loader.
