(* ===== verification/LruHeap.v ===== *)
(** * The LRU index of the profilers

    Models src/internal/profiler/lru_heap.go: a binary min-heap of entries
    ordered by last access, with the position of every entry kept in the entry
    and a companion map from keys to entries. The source repeats the code for
    string, [uint32] and [WorkloadKey] keys; the section below is generic in
    the key type. The heap holds pointers and the companion map holds the same
    pointers, so entries live in a store and [Swap], [Push] and [Pop] write
    their [index] field there. [up], [down], [Push], [Pop], [Remove] and [Fix]
    are those of package container/heap. Indexing out of range is a [Panic].

    The abstract index is a finite map from keys to last-access times; the
    refinement theorem says that every operation acts on it as specified and
    that [Pop] removes a key with the least time. *)
From S2P Require Import Prelude GoRing.

Abbreviation go A := (result Empty_set A).

Section lru.
Context {K : Type} `{Countable K}.

Record lruEntry := mkEntry { le_key : K; le_lastAccess : Z; le_index : Z }.

(** The store of entries, the heap, the companion map and the next address. *)
Record lru := mkLru {
  lru_store : gmap nat lruEntry; lru_heap : list nat; lru_index : gmap K nat; lru_next : nat }.

Definition empty_lru : lru := mkLru ∅ [] ∅ 0.

(** ** The heap interface *)
Definition deref (s : lru) (p : nat) : go lruEntry :=
  match lru_store s !! p with Some e => Ok e | None => Panic end.

Definition Len (s : lru) : Z := Z.of_nat (length (lru_heap s)).

Definition Less (s : lru) (i j : Z) : go bool :=
  p ← list_get (lru_heap s) i;
  q ← list_get (lru_heap s) j;
  e ← deref s p;
  f ← deref s q;
  Ok (time_Before (le_lastAccess e) (le_lastAccess f)).

Definition set_index (s : lru) (p : nat) (i : Z) : go lru :=
  e ← deref s p;
  Ok (mkLru (<[p := mkEntry (le_key e) (le_lastAccess e) i]> (lru_store s)) (lru_heap s)
        (lru_index s) (lru_next s)).

Definition Swap (s : lru) (i j : Z) : go lru :=
  p ← list_get (lru_heap s) i;
  q ← list_get (lru_heap s) j;
  h ← list_set (lru_heap s) i q;
  h ← list_set h j p;
  let s := mkLru (lru_store s) h (lru_index s) (lru_next s) in
  s ← set_index s q i;
  set_index s p j.

(** [Push] of the entry at [p]. *)
Definition Push (s : lru) (p : nat) : go lru :=
  s ← set_index s p (Len s);
  Ok (mkLru (lru_store s) (lru_heap s ++ [p]) (lru_index s) (lru_next s)).

(** [Pop]: the last pointer of the slice, its index set to -1. *)
Definition Pop (s : lru) : go (lru * nat) :=
  p ← list_get (lru_heap s) (Len s - 1);
  s ← set_index s p (-1);
  h ← list_range (lru_heap s) 0 (Len s - 1);
  Ok (mkLru (lru_store s) h (lru_index s) (lru_next s), p).

(** ** container/heap *)
Fixpoint up (fuel : nat) (s : lru) (j : Z) : go lru :=
  let i := Z.quot (j - 1) 2 in
  if i =? j then Ok s else
  less ← Less s j i;
  if negb less then Ok s else
  match fuel with
  | O => Panic
  | S fuel => s ← Swap s i j; up fuel s i
  end.

(** The loop of [down]: the final state and position. *)
Fixpoint down_loop (fuel : nat) (s : lru) (i n : Z) : go (lru * Z) :=
  let j1 := 2 * i + 1 in
  if (n <=? j1) || (j1 <? 0) then Ok (s, i) else
  right ← (if j1 + 1 <? n then Less s (j1 + 1) j1 else Ok false);
  let j := if right : bool then j1 + 1 else j1 in
  less ← Less s j i;
  if negb less then Ok (s, i) else
  match fuel with
  | O => Panic
  | S fuel => s ← Swap s i j; down_loop fuel s j n
  end.

Definition down (s : lru) (i0 n : Z) : go (lru * bool) :=
  r ← down_loop (Z.to_nat n) s i0 n;
  Ok (r.1, i0 <? r.2).

Definition heap_Push (s : lru) (p : nat) : go lru :=
  s ← Push s p;
  up (Z.to_nat (Len s)) s (Len s - 1).

Definition heap_Pop (s : lru) : go (lru * nat) :=
  let n := Len s - 1 in
  s ← Swap s 0 n;
  r ← down s 0 n;
  Pop r.1.

Definition heap_Remove (s : lru) (i : Z) : go (lru * nat) :=
  let n := Len s - 1 in
  s ← (if n =? i then Ok s else
       s ← Swap s i n;
       r ← down s i n;
       if r.2 : bool then Ok r.1 else up (Z.to_nat (Len s)) r.1 i);
  Pop s.

Definition heap_Fix (s : lru) (i : Z) : go lru :=
  r ← down s i (Len s);
  if r.2 : bool then Ok r.1 else up (Z.to_nat (Len s)) r.1 i.

(** ** The companion map *)

(** A fresh entry for [key], pushed. *)
Definition push (s : lru) (now : Z) (key : K) : go lru :=
  let p := lru_next s in
  let s := mkLru (<[p := mkEntry key now 0]> (lru_store s)) (lru_heap s) (lru_index s) (S p) in
  s ← heap_Push s p;
  Ok (mkLru (lru_store s) (lru_heap s) (<[key := p]> (lru_index s)) (lru_next s)).

Definition touch (s : lru) (now : Z) (key : K) : go lru :=
  match lru_index s !! key with
  | None => Ok s
  | Some p =>
      e ← deref s p;
      heap_Fix (mkLru (<[p := mkEntry (le_key e) now (le_index e)]> (lru_store s)) (lru_heap s)
                  (lru_index s) (lru_next s)) (le_index e)
  end.

Definition remove (s : lru) (key : K) : go lru :=
  match lru_index s !! key with
  | None => Ok s
  | Some p =>
      e ← deref s p;
      r ← heap_Remove s (le_index e);
      let s := r.1 in
      Ok (mkLru (lru_store s) (lru_heap s) (delete key (lru_index s)) (lru_next s))
  end.

(** [heap.Pop] followed by [delete(index, e.key)], as every eviction does. *)
Definition pop_oldest (s : lru) : go (lru * K) :=
  r ← heap_Pop s;
  let '(s, p) := r in
  e ← deref s p;
  Ok (mkLru (lru_store s) (lru_heap s) (delete (le_key e) (lru_index s)) (lru_next s), le_key e).
End lru.
Arguments lruEntry : clear implicits.
Arguments lru _ {_ _}.

(** * Theorems *)

(** ** Ordered arrays

    [t] gives the time at each position; [ordered n t] is the heap order on
    the first [n] positions. *)
Definition child (i c : nat) : Prop := (c = 2 * i + 1 \/ c = 2 * i + 2)%nat.

Definition ordered (n : nat) (t : nat -> Z) : Prop :=
  forall i c, child i c -> (c < n)%nat -> t i <= t c.

(** Ordered but for [j] against its parent. *)
Definition ordered_up (n : nat) (t : nat -> Z) (j : nat) : Prop :=
  (forall i c, child i c -> (c < n)%nat -> c <> j -> t i <= t c) /\
  (forall i c, child i j -> child j c -> (c < n)%nat -> t i <= t c).

(** Ordered but for [i] against its children and [i0] against its parent; the
    latter holds too once the element has moved. *)
Definition ordered_down (n : nat) (t : nat -> Z) (i0 i : nat) : Prop :=
  (forall k c, child k c -> (c < n)%nat -> k <> i -> c <> i0 -> t k <= t c) /\
  (forall k c, child k i -> child i c -> (c < n)%nat -> t k <= t c) /\
  (i <> i0 -> forall k, child k i0 -> t k <= t i0).

Definition swp (i j k : nat) : nat := if decide (k = i) then j else if decide (k = j) then i else k.

Lemma swp_l i j : swp i j i = j.
Proof. unfold swp. by case_decide. Qed.
Lemma swp_r i j : swp i j j = i.
Proof. unfold swp. repeat case_decide; congruence. Qed.
Lemma swp_other i j k : k <> i -> k <> j -> swp i j k = k.
Proof. intros. unfold swp. by rewrite !decide_False. Qed.

(** Case analysis on the positions a swap touches. *)
Ltac swp_cases i j k :=
  destruct (decide (k = i)) as [->|?]; [rewrite ?swp_l in * |
  destruct (decide (k = j)) as [->|?]; [rewrite ?swp_r in * | rewrite ?(swp_other i j k) in * by done]].

Lemma parent_child j : (0 < j)%nat -> child ((j - 1) / 2) j.
Proof.
  intros. unfold child. pose proof (Nat.div_mod_eq (j - 1) 2).
  pose proof (Nat.mod_upper_bound (j - 1) 2 ltac:(lia)). lia.
Qed.

Lemma child_inj i i' c : child i c -> child i' c -> i = i'.
Proof. unfold child. lia. Qed.

Lemma child_lt i c : child i c -> (i < c)%nat.
Proof. unfold child. lia. Qed.

Lemma ordered_up_stop n t i j : child i j -> ordered_up n t j -> t i <= t j -> ordered n t.
Proof.
  intros Hij [H1 _] Hle k c Hk Hc. destruct (decide (c = j)) as [->|Hne]; [|by apply H1].
  by rewrite (child_inj k i j).
Qed.

Lemma ordered_up_root n t : ordered_up n t 0 -> ordered n t.
Proof. intros [H1 _] k c Hk Hc. apply H1; [done..|]. unfold child in Hk. lia. Qed.

Lemma ordered_up_step n t i j :
  child i j -> (j < n)%nat -> ordered_up n t j -> t j < t i -> ordered_up n (t ∘ swp i j) i.
Proof.
  intros Hij Hj [H1 H2] Hlt. pose proof (child_lt _ _ Hij). unfold ordered_up, compose.
  assert (forall c, child i c -> (c < n)%nat -> c <> j -> t i <= t c) as Hsib by (intros; by apply H1).
  split.
  - intros k c Hk Hc Hne. pose proof (child_lt _ _ Hk).
    swp_cases i j c; [done| |].
    + rewrite (child_inj k i j) by done. rewrite swp_l. lia.
    + swp_cases i j k.
      * pose proof (Hsib c Hk Hc ltac:(done)). lia.
      * apply (H2 i c); done.
      * by apply H1.
  - intros k c Hk Hic Hc. pose proof (child_lt _ _ Hk). pose proof (child_lt _ _ Hic).
    rewrite (swp_other i j k) by lia. assert (t k <= t i) as Hki by (apply H1; [done|lia|lia]).
    swp_cases i j c; [lia|done|]. pose proof (Hsib c Hic Hc ltac:(done)). lia.
Qed.

Lemma ordered_down_step n t i0 i j :
  (i0 <= i)%nat -> child i j -> (j < n)%nat -> (forall c, child i c -> (c < n)%nat -> t j <= t c) -> t j < t i ->
  ordered_down n t i0 i -> ordered_down n (t ∘ swp i j) i0 j.
Proof.
  intros Hi0 Hij Hj Hmin Hlt (H1 & H2 & H3). pose proof (child_lt _ _ Hij). unfold ordered_down, compose.
  split_and!.
  - intros k c Hk Hc Hkj Hci0. pose proof (child_lt _ _ Hk).
    swp_cases i j c.
    + rewrite (swp_other i j k) by lia. apply (H2 k j); done.
    + rewrite (child_inj k i j) by done. rewrite swp_l. lia.
    + swp_cases i j k; [by apply Hmin | done | by apply H1].
  - intros k c Hk Hjc Hc. rewrite (child_inj k i j) by done. rewrite swp_l.
    pose proof (child_lt _ _ Hjc). rewrite (swp_other i j c) by lia. apply H1; [done..|lia|lia].
  - intros _ k Hk. pose proof (child_lt _ _ Hk). rewrite (swp_other i j k) by lia.
    swp_cases i j i0; [by apply (H2 k j)|lia|by apply H3].
Qed.

(** Where the loop of [down] stops. *)
Lemma ordered_down_stop n t i0 i :
  (forall c, child i c -> (c < n)%nat -> t i <= t c) -> ordered_down n t i0 i ->
  (i <> i0 -> ordered n t) /\ (i = i0 -> ordered_up n t i).
Proof.
  intros Hmin (H1 & H2 & H3).
  assert (forall k c, child k c -> (c < n)%nat -> c <> i0 -> t k <= t c) as Hall.
  { intros k c Hk Hc Hne. destruct (decide (k = i)) as [->|]; [by apply Hmin|by apply H1]. }
  split.
  - intros Hne k c Hk Hc. destruct (decide (c = i0)) as [->|]; [by apply H3|by apply Hall].
  - intros ->. split; [done|]. intros k c Hk Hc. by apply H2.
Qed.

Lemma ordered_root n t i : ordered n t -> (i < n)%nat -> t 0%nat <= t i.
Proof.
  intros Ho. induction i as [i IH] using lt_wf_ind. intros Hi.
  destruct (decide (i = 0)%nat) as [->|Hne]; [done|].
  pose proof (parent_child i ltac:(lia)) as Hp. pose proof (child_lt _ _ Hp).
  etrans; [apply (IH _ ltac:(done)); lia|]. by apply Ho.
Qed.

(** ** States *)
Section states.
Context {K : Type} `{Countable K}.
Implicit Types (s : lru K) (p q : nat).

(** Key and time of the entry at an address; time at a position. *)
Definition data s p : option (K * Z) := (fun e => (le_key e, le_lastAccess e)) <$> lru_store s !! p.
Definition tm s (i : nat) : Z := default 0 (p ← lru_heap s !! i; snd <$> data s p).

(** Every position holds a distinct entry that knows its position. *)
Record indexed s : Prop := {
  ix_nodup : NoDup (lru_heap s);
  ix_entry : forall i p, lru_heap s !! i = Some p ->
    exists e, lru_store s !! p = Some e /\ le_index e = Z.of_nat i }.

(** [s'] holds the entries of [s] in another order. *)
Record moved s s' : Prop := {
  mv_indexed : indexed s';
  mv_perm : lru_heap s' ≡ₚ lru_heap s;
  mv_index : lru_index s' = lru_index s;
  mv_next : lru_next s' = lru_next s;
  mv_data : forall p, data s' p = data s p }.

Lemma moved_refl s : indexed s -> moved s s.
Proof. by split. Qed.

Lemma moved_trans s1 s2 s3 : moved s1 s2 -> moved s2 s3 -> moved s1 s3.
Proof.
  intros [? P1 I1 N1 D1] [? P2 I2 N2 D2]. split; [done | by rewrite P2 | congruence | congruence |].
  intros p. by rewrite D2.
Qed.

Lemma moved_length s s' : moved s s' -> length (lru_heap s') = length (lru_heap s).
Proof. intros Hm. by rewrite (mv_perm _ _ Hm). Qed.

Lemma tm_lookup s i p x : lru_heap s !! i = Some p -> data s p = Some x -> tm s i = x.2.
Proof. intros Hi Hd. unfold tm. rewrite Hi. simpl. by rewrite Hd. Qed.

Lemma indexed_lookup s i : indexed s -> (i < length (lru_heap s))%nat ->
  exists p e, lru_heap s !! i = Some p /\ lru_store s !! p = Some e /\ le_index e = Z.of_nat i /\
    tm s i = le_lastAccess e.
Proof.
  intros [_ Hix] [p Hp]%lookup_lt_is_Some. destruct (Hix i p Hp) as (e & He & Hi). exists p, e.
  split_and!; [done..|]. rewrite (tm_lookup s i p (le_key e, le_lastAccess e)); [done..|]. unfold data. by rewrite He.
Qed.

Lemma deref_ok s p e : lru_store s !! p = Some e -> deref s p = Ok e.
Proof. unfold deref. by intros ->. Qed.

Lemma get_nat {A} (l : list A) i x : l !! i = Some x -> list_get (E:=Empty_set) l (Z.of_nat i) = Ok x.
Proof. intros Hl. apply list_get_ok; [lia|]. by rewrite Nat2Z.id. Qed.

Lemma Less_ok s i j :
  indexed s -> (i < length (lru_heap s))%nat -> (j < length (lru_heap s))%nat ->
  Less s (Z.of_nat i) (Z.of_nat j) = Ok (tm s i <? tm s j).
Proof.
  intros Hs Hi Hj. destruct (indexed_lookup s i Hs Hi) as (p & e & Hp & He & _ & ->).
  destruct (indexed_lookup s j Hs Hj) as (q & f & Hq & Hf & _ & ->). unfold Less.
  rewrite (get_nat _ _ _ Hp), (get_nat _ _ _ Hq). simpl. by rewrite (deref_ok _ _ _ He), (deref_ok _ _ _ Hf).
Qed.

(** The heap after a swap. *)
Lemma swap_heap (h : list nat) i j p q k :
  h !! i = Some p -> h !! j = Some q -> <[j := p]> (<[i := q]> h) !! k = h !! swp i j k.
Proof.
  intros Hi Hj. pose proof (lookup_lt_Some _ _ _ Hi). pose proof (lookup_lt_Some _ _ _ Hj).
  destruct (decide (k = j)) as [->|].
  - rewrite list_lookup_insert_eq by (rewrite length_insert; lia). by rewrite swp_r.
  - rewrite list_lookup_insert_ne by done. destruct (decide (k = i)) as [->|].
    + rewrite list_lookup_insert_eq by lia. by rewrite swp_l.
    + rewrite list_lookup_insert_ne by done. by rewrite swp_other.
Qed.

Lemma swap_perm (h : list nat) i j p q :
  h !! i = Some p -> h !! j = Some q -> <[j := p]> (<[i := q]> h) ≡ₚ h.
Proof.
  intros Hi Hj. apply Permutation_inj. pose proof (lookup_lt_Some _ _ _ Hi). pose proof (lookup_lt_Some _ _ _ Hj).
  rewrite !length_insert. split; [done|]. exists (swp i j). split.
  - intros x y. unfold swp. repeat case_decide; congruence.
  - intros k. by apply swap_heap.
Qed.

(** The outcome of [Swap]: what it returns, what moves, which times change. *)
Lemma Swap_ok s i j :
  indexed s -> (i < length (lru_heap s))%nat -> (j < length (lru_heap s))%nat ->
  exists s', Swap s (Z.of_nat i) (Z.of_nat j) = Ok s' /\ moved s s' /\
    (forall k, lru_heap s' !! k = lru_heap s !! swp i j k).
Proof.
  intros Hs Hi Hj. destruct (indexed_lookup s i Hs Hi) as (p & e & Hp & He & Ei & _).
  destruct (indexed_lookup s j Hs Hj) as (q & f & Hq & Hf & Ej & _). unfold Swap.
  rewrite (get_nat _ _ _ Hp), (get_nat _ _ _ Hq). simpl.
  rewrite list_set_ok by lia. simpl. rewrite list_set_ok by (rewrite length_insert; lia). simpl.
  unfold set_index. simpl. rewrite !Nat2Z.id. rewrite (deref_ok _ q f) by done. simpl.
  assert (exists e', <[q := mkEntry (le_key f) (le_lastAccess f) (Z.of_nat i)]> (lru_store s) !! p = Some e' /\
    le_key e' = le_key e /\ le_lastAccess e' = le_lastAccess e) as (e' & He' & Ek & Et).
  { destruct (decide (p = q)) as [->|].
    - rewrite lookup_insert_eq. eexists. split; [done|]. by simplify_eq.
    - rewrite lookup_insert_ne by done. by exists e. }
  rewrite (deref_ok _ p e') by done. simpl. rewrite Ek, Et.
  pose proof (swap_perm _ _ _ _ _ Hp Hq) as Hperm. pose proof (fun k => swap_heap _ _ _ _ _ k Hp Hq) as Hlook.
  eexists. split; [reflexivity|]. split; [|exact Hlook]. split; simpl; try done.
  - split; simpl; [rewrite Hperm; apply Hs|]. intros k r. rewrite Hlook. intros Hr.
    assert (forall x y, lru_heap s !! x = lru_heap s !! y -> is_Some (lru_heap s !! x) -> x = y) as Hinj.
    { intros x y Exy [z Hz]. eapply NoDup_lookup; [apply Hs|done|congruence]. }
    destruct (decide (k = j)) as [->|Hkj]; [|destruct (decide (k = i)) as [->|Hki]].
    + rewrite swp_r in Hr. simplify_eq. rewrite lookup_insert_eq. by eexists.
    + rewrite swp_l in Hr. assert (q = r) as <- by congruence. rewrite lookup_insert_ne, lookup_insert_eq; [by eexists|].
      intros ->. apply Hkj, Hinj; [congruence|by eexists].
    + rewrite swp_other in Hr by done. destruct (ix_entry _ Hs k r Hr) as (g & Hg & Eg).
      exists g. rewrite !lookup_insert_ne; [done| |].
      * intros ->. apply Hkj, Hinj; [congruence|by eexists].
      * intros ->. apply Hki, Hinj; [congruence|by eexists].
  - intros r. unfold data. simpl. destruct (decide (r = p)) as [->|]; [rewrite lookup_insert_eq, He; done|].
    rewrite lookup_insert_ne by done. destruct (decide (r = q)) as [->|]; [rewrite lookup_insert_eq, Hf; done|].
    by rewrite lookup_insert_ne.
Qed.

Lemma tm_moved s s' f :
  (forall p, data s' p = data s p) -> (forall k, lru_heap s' !! k = lru_heap s !! f k) -> forall k, tm s' k = tm s (f k).
Proof.
  intros Hd Hh k. unfold tm. rewrite Hh. destruct (lru_heap s !! f k); simpl; [by rewrite Hd|done].
Qed.

Lemma ordered_ext n t t' : (forall k, t' k = t k) -> ordered n t -> ordered n t'.
Proof. intros E Ho i c Hi Hc. rewrite !E. by apply Ho. Qed.

Lemma ordered_up_ext n t t' j : (forall k, t' k = t k) -> ordered_up n t j -> ordered_up n t' j.
Proof. intros E [H1 H2]. split; intros; rewrite !E; eauto. Qed.

Lemma ordered_down_ext n t t' i0 i : (forall k, t' k = t k) -> ordered_down n t i0 i -> ordered_down n t' i0 i.
Proof. intros E (H1 & H2 & H3). split_and!; intros; rewrite !E; eauto. Qed.

(** The positions from [n] on are as before. *)
Definition same_from (n : nat) s s' : Prop := forall k, (n <= k)%nat -> lru_heap s' !! k = lru_heap s !! k.

Lemma up_ok fuel s j n :
  indexed s -> (n <= length (lru_heap s))%nat -> (j < n)%nat -> (j <= fuel)%nat -> ordered_up n (tm s) j ->
  exists s', up fuel s (Z.of_nat j) = Ok s' /\ moved s s' /\ ordered n (tm s') /\ same_from n s s'.
Proof.
  revert s j. induction fuel as [|fuel IH]; intros s j Hs Hn Hj Hf Ho.
  - assert (j = 0%nat) as -> by lia. exists s. split_and!; [done | by apply moved_refl | by apply ordered_up_root | done].
  - simpl. destruct (decide (j = 0)%nat) as [->|Hne].
    { exists s. split_and!; [done | by apply moved_refl | by apply ordered_up_root | done]. }
    pose proof (parent_child j ltac:(lia)) as Hp. set (i := ((j - 1) / 2)%nat) in *.
    assert (Z.quot (Z.of_nat j - 1) 2 = Z.of_nat i) as ->.
    { unfold i. rewrite Z.quot_div_nonneg by lia. rewrite Nat2Z.inj_div. f_equal; lia. }
    pose proof (child_lt _ _ Hp). rewrite (proj2 (Z.eqb_neq _ _)) by lia.
    rewrite Less_ok by (done || lia). simpl. destruct (Z.ltb_spec (tm s j) (tm s i)) as [Hlt|Hge]; simpl.
    + destruct (Swap_ok s i j Hs ltac:(lia) ltac:(lia)) as (s1 & -> & Hm1 & Hh1). simpl.
      pose proof (tm_moved s s1 _ (mv_data _ _ Hm1) Hh1) as Ht1.
      destruct (IH s1 i) as (s2 & -> & Hm2 & Ho2 & Hf2).
      * apply Hm1.
      * by rewrite (moved_length _ _ Hm1).
      * lia.
      * lia.
      * eapply ordered_up_ext; [exact Ht1|]. by apply ordered_up_step.
      * exists s2. split_and!; [done | by eapply moved_trans | done|]. intros k Hk.
        rewrite Hf2, Hh1 by done. f_equal. apply swp_other; lia.
    + exists s. split_and!; [done | by apply moved_refl | by eapply ordered_up_stop | done].
Qed.

(** The child [down] compares with: the smaller one. *)
Lemma smaller_child s i n :
  indexed s -> (n <= length (lru_heap s))%nat -> (2 * i + 1 < n)%nat ->
  exists j, child i j /\ (j < n)%nat /\ (forall c, child i c -> (c < n)%nat -> tm s j <= tm s c) /\
    (right ← (if 2 * Z.of_nat i + 1 + 1 <? Z.of_nat n then Less s (2 * Z.of_nat i + 1 + 1) (2 * Z.of_nat i + 1) else Ok false);
     Ok (if right : bool then 2 * Z.of_nat i + 1 + 1 else 2 * Z.of_nat i + 1) : go Z) = Ok (Z.of_nat j).
Proof.
  intros Hs Hn Hi.
  replace (2 * Z.of_nat i + 1 + 1) with (Z.of_nat (2 * i + 2)) by lia.
  replace (2 * Z.of_nat i + 1) with (Z.of_nat (2 * i + 1)) by lia.
  destruct (Z.ltb_spec (Z.of_nat (2 * i + 2)) (Z.of_nat n)) as [Hr|Hr].
  - rewrite Less_ok by (done || lia). cbn [mbind result_bind].
    destruct (Z.ltb_spec (tm s (2 * i + 2)) (tm s (2 * i + 1))); [exists (2 * i + 2)%nat | exists (2 * i + 1)%nat];
      (split_and!; [unfold child; lia | lia | | done]); intros c [-> | ->] _; lia.
  - exists (2 * i + 1)%nat. split_and!; [unfold child; lia | lia | | done]. intros c [-> | ->] ?; lia.
Qed.

Lemma down_loop_ok fuel s i0 i n :
  indexed s -> (n <= length (lru_heap s))%nat -> (i0 <= i)%nat -> (n - i <= fuel)%nat ->
  ordered_down n (tm s) i0 i ->
  exists s' i', down_loop fuel s (Z.of_nat i) (Z.of_nat n) = Ok (s', Z.of_nat i') /\ moved s s' /\ same_from n s s' /\
    (i <= i')%nat /\ (i' <> i0 -> ordered n (tm s')) /\ (i' = i0 -> ordered_up n (tm s') i0).
Proof.
  revert s i. induction fuel as [|fuel IH]; intros s i Hs Hn Hi Hf Ho; simpl.
  all: destruct (Z.leb_spec (Z.of_nat n) (2 * Z.of_nat i + 1)) as [Hleaf|Hin]; simpl.
  1,3: destruct (ordered_down_stop n (tm s) i0 i) as [Hs1 Hs2]; [unfold child; lia | done |];
    exists s, i; split_and!; [done | by apply moved_refl | done | lia | done | intros ->; by apply Hs2].
  { lia. }
  destruct (Z.ltb_spec (2 * Z.of_nat i + 1) 0) as [|_]; [lia|].
  destruct (smaller_child s i n Hs Hn ltac:(lia)) as (j & Hj & Hjn & Hmin & Eq).
  destruct (if _ <? Z.of_nat n then _ else _) as [right|e|]; [|done|done]. simpl in Eq. injection Eq as Eq. simpl.
  rewrite Eq. rewrite Less_ok by (done || lia). simpl. pose proof (child_lt _ _ Hj).
  destruct (Z.ltb_spec (tm s j) (tm s i)) as [Hlt|Hge]; simpl.
  - destruct (Swap_ok s i j Hs ltac:(lia) ltac:(lia)) as (s1 & -> & Hm1 & Hh1). simpl.
    pose proof (tm_moved s s1 _ (mv_data _ _ Hm1) Hh1) as Ht1.
    destruct (IH s1 j) as (s2 & i2 & -> & Hm2 & Hf2 & Hi2 & Ha & Hb).
    + apply Hm1.
    + by rewrite (moved_length _ _ Hm1).
    + lia.
    + lia.
    + eapply ordered_down_ext; [exact Ht1|]. by apply ordered_down_step.
    + exists s2, i2. split_and!; [done | by eapply moved_trans | | lia | done | done]. intros k Hk.
      rewrite Hf2, Hh1 by done. f_equal. apply swp_other; lia.
  - destruct (ordered_down_stop n (tm s) i0 i) as [Hs1 Hs2]; [|done|].
    { intros c Hc Hcn. specialize (Hmin c Hc Hcn). lia. }
    exists s, i. split_and!; [done | by apply moved_refl | done | lia | done | intros ->; by apply Hs2].
Qed.

(** [down] and, when nothing moved, [up]: the heap order is restored. *)
Lemma settle_ok s i n :
  indexed s -> (n <= length (lru_heap s))%nat -> (i < n)%nat -> ordered_down n (tm s) i i ->
  exists s', (r ← down s (Z.of_nat i) (Z.of_nat n);
     if r.2 : bool then Ok r.1 else up (length (lru_heap s)) r.1 (Z.of_nat i) : go (lru K)) = Ok s' /\
    moved s s' /\ ordered n (tm s') /\ same_from n s s'.
Proof.
  intros Hs Hn Hi Ho. unfold down.
  destruct (down_loop_ok (Z.to_nat (Z.of_nat n)) s i i n) as (s1 & i1 & -> & Hm & Hf & Hle & Ha & Hb); [done..|lia|done|].
  simpl. destruct (Z.ltb_spec (Z.of_nat i) (Z.of_nat i1)) as [Hlt|Hge].
  - exists s1. split_and!; [done..| |done]. apply Ha. lia.
  - assert (i1 = i) as -> by lia.
    destruct (up_ok (length (lru_heap s)) s1 i n) as (s2 & -> & Hm2 & Ho2 & Hf2).
    + apply Hm.
    + by rewrite (moved_length _ _ Hm).
    + done.
    + lia.
    + by apply Hb.
    + exists s2. split_and!; [done | by eapply moved_trans | done|]. intros k Hk. by rewrite Hf2, Hf.
Qed.

(** ** The invariant and the abstract index *)
Record lru_ok s : Prop := {
  ok_indexed : indexed s;
  ok_ordered : ordered (length (lru_heap s)) (tm s);
  ok_index : forall key p, lru_index s !! key = Some p <->
    p ∈ lru_heap s /\ exists t, data s p = Some (key, t);
  ok_fresh : forall p, p ∈ lru_heap s -> (p < lru_next s)%nat }.

(** Keys with their last access. *)
Definition view s : gmap K Z := (fun p => default 0 (snd <$> data s p)) <$> lru_index s.

Lemma moved_ok s s' :
  moved s s' -> lru_ok s -> ordered (length (lru_heap s')) (tm s') -> lru_ok s' /\ view s' = view s.
Proof.
  intros [Hi Hp Hx Hn Hd] [_ _ Hix Hf] Ho. split.
  - split; [done|done| |].
    + intros key p. rewrite Hx, Hix, Hp. by rewrite Hd.
    + intros p. rewrite Hp, Hn. apply Hf.
  - unfold view. rewrite Hx. apply map_fmap_ext. intros key p _. by rewrite Hd.
Qed.

Lemma view_lookup s key t :
  lru_ok s -> view s !! key = Some t <-> exists p, p ∈ lru_heap s /\ data s p = Some (key, t).
Proof.
  intros Hs. unfold view. rewrite lookup_fmap, fmap_Some. split.
  - intros (p & [Hp [t' Hd]]%(ok_index _ Hs) & ->). exists p. by rewrite Hd.
  - intros (p & Hp & Hd). exists p. rewrite (ok_index _ Hs), Hd. eauto.
Qed.

Lemma empty_lru_ok : lru_ok (empty_lru (K:=K)) /\ view (empty_lru (K:=K)) = ∅.
Proof.
  split; [|done]. split; simpl.
  - split; [constructor|done].
  - intros i c _ ?. simpl in *. lia.
  - intros key p. rewrite lookup_empty. split; [done|]. by intros [?%not_elem_of_nil _].
  - by intros p ?%not_elem_of_nil.
Qed.

(** ** Operations *)
Lemma set_index_ok s p e i :
  lru_store s !! p = Some e ->
  set_index s p i = Ok (mkLru (<[p := mkEntry (le_key e) (le_lastAccess e) i]> (lru_store s)) (lru_heap s)
    (lru_index s) (lru_next s)).
Proof. intros He. unfold set_index. by rewrite (deref_ok _ _ _ He). Qed.

Lemma data_set_index s p e i q :
  lru_store s !! p = Some e ->
  data (mkLru (<[p := mkEntry (le_key e) (le_lastAccess e) i]> (lru_store s)) (lru_heap s)
    (lru_index s) (lru_next s)) q = data s q.
Proof.
  intros He. unfold data. simpl. destruct (decide (q = p)) as [->|].
  - by rewrite lookup_insert_eq, He.
  - by rewrite lookup_insert_ne.
Qed.

Lemma elem_app_last (l : list nat) p q : p ∈ l ++ [q] <-> p ∈ l \/ p = q.
Proof. by rewrite elem_of_app, list_elem_of_singleton. Qed.

Lemma length_pos_last (l : list nat) : l <> [] -> exists l' p, l = l' ++ [p].
Proof. destruct l as [|p l'] using rev_ind; [done|]. by eauto. Qed.

(** [Pop] drops the last position. *)
Lemma Pop_ok s l p :
  indexed s -> lru_heap s = l ++ [p] ->
  exists s', Pop s = Ok (s', p) /\ indexed s' /\ lru_heap s' = l /\ lru_index s' = lru_index s /\
    lru_next s' = lru_next s /\ (forall q, data s' q = data s q).
Proof.
  intros Hs Hl. assert (lru_heap s !! length l = Some p) as Hp by (rewrite Hl; by apply list_lookup_middle).
  destruct (ix_entry _ Hs _ _ Hp) as (e & He & Hi).
  assert (Len s - 1 = Z.of_nat (length l)) as Elen by (unfold Len; rewrite Hl, length_app; simpl; lia).
  unfold Pop. rewrite Elen, (get_nat _ _ _ Hp). cbn [mbind result_bind]. rewrite (set_index_ok _ _ _ _ He).
  cbn [mbind result_bind]. unfold Len. cbn [lru_heap]. fold (Len s). rewrite Elen.
  rewrite list_range_ok by (rewrite ?Hl, ?length_app; simpl; lia). cbn [mbind result_bind].
  assert (take (Z.to_nat (Z.of_nat (length l) - 0)) (drop (Z.to_nat 0) (lru_heap s)) = l) as ->.
  { rewrite Hl. simpl. rewrite Z.sub_0_r, Nat2Z.id. by apply take_app_exact. }
  assert (NoDup (l ++ [p])) as Hnd by (rewrite <- Hl; apply Hs).
  eexists. split; [reflexivity|]. split_and!; [|done|done|done|].
  - split; simpl.
    + by apply NoDup_app in Hnd as (? & _ & _).
    + intros i q Hq. destruct (ix_entry _ Hs i q) as (f & Hf & Ef); [rewrite Hl; by apply lookup_app_l_Some|].
      exists f. rewrite lookup_insert_ne; [done|]. intros <-.
      apply NoDup_app in Hnd as (_ & Hnd & _). apply (Hnd p); [by eapply list_elem_of_lookup_2 | by apply list_elem_of_singleton].
  - intros q. apply (data_set_index s p e (-1) q He).
Qed.

(** Removing an entry from the heap and its key from the companion map. *)
Lemma drop_entry s s1 s2 l p key t :
  lru_ok s -> moved s s1 -> lru_heap s1 = l ++ [p] -> ordered (length l) (tm s1) -> data s p = Some (key, t) ->
  indexed s2 -> lru_heap s2 = l -> lru_index s2 = delete key (lru_index s1) -> lru_next s2 = lru_next s1 ->
  (forall q, data s2 q = data s1 q) ->
  lru_ok s2 /\ view s2 = delete key (view s) /\ view s !! key = Some t.
Proof.
  intros Hs [Hi1 Hp Hx Hn Hd] Hl Ho Hkey Hi2 Hh2 Hx2 Hn2 Hd2.
  assert (forall q, q ∈ lru_heap s <-> q ∈ l \/ q = p) as Hel by (intros q; rewrite <- elem_app_last, <- Hl; by rewrite Hp).
  assert (lru_index s !! key = Some p) as Hidx by (apply (ok_index _ Hs); rewrite Hel; eauto).
  assert (p ∉ l) as Hpl.
  { pose proof (ix_nodup _ Hi1) as Hnd. rewrite Hl in Hnd. apply NoDup_app in Hnd as (_ & Hnd & _).
    intros ?. eapply Hnd; [done|]. by apply list_elem_of_singleton. }
  assert (forall q, data s2 q = data s q) as Hd' by (intros; by rewrite Hd2, Hd).
  split; [split|split].
  - done.
  - rewrite Hh2. intros i c Hc Hlt. pose proof (child_lt _ _ Hc). unfold tm. rewrite Hh2.
    specialize (Ho i c Hc Hlt). unfold tm in Ho. rewrite Hl, !lookup_app_l in Ho by lia.
    destruct (l !! i), (l !! c); simpl in *; rewrite ?Hd in Ho; rewrite ?Hd'; done.
  - intros k q. rewrite Hx2, Hx, lookup_delete_Some, (ok_index _ Hs), Hh2, Hel, Hd'. split.
    + intros (Hne & [?| ->] & t' & Ht'); [by eauto|]. congruence.
    + intros (Hq & t' & Ht'). split; [|by eauto]. intros ->.
      assert (lru_index s !! k = Some q) as Hq2 by (apply (ok_index _ Hs); rewrite Hel; eauto). congruence.
  - intros q. rewrite Hh2, Hn2, Hn. intros Hq. apply (ok_fresh _ Hs). apply Hel. by left.
  - unfold view. rewrite Hx2, Hx, <- fmap_delete. apply map_fmap_ext. intros k q _. by rewrite Hd'.
  - apply (view_lookup _ _ _ Hs). exists p. split; [apply Hel; by right|done].
Qed.

(** The entry at [i] swapped with the last one. *)
Lemma swap_last s i p n :
  lru_ok s -> lru_heap s !! i = Some p -> length (lru_heap s) = S n ->
  exists s1, Swap s (Z.of_nat i) (Z.of_nat n) = Ok s1 /\ moved s s1 /\ lru_heap s1 !! n = Some p /\
    ordered_down n (tm s1) i i.
Proof.
  intros Hs Hi Hn. pose proof (lookup_lt_Some _ _ _ Hi) as Hlt.
  destruct (Swap_ok s i n (ok_indexed _ Hs) ltac:(lia) ltac:(lia)) as (s1 & -> & Hm1 & Hh1).
  pose proof (tm_moved s s1 _ (mv_data _ _ Hm1) Hh1) as Ht1.
  exists s1. split_and!; [done|done|by rewrite Hh1, swp_r|]. split_and!; [| |done].
  - intros k c Hk Hc Hki Hci. pose proof (child_lt _ _ Hk). rewrite !Ht1, !swp_other by lia.
    apply (ok_ordered _ Hs); [done|lia].
  - intros k c Hk Hc Hcn. pose proof (child_lt _ _ Hk). pose proof (child_lt _ _ Hc).
    rewrite !Ht1, !swp_other by lia. etrans; apply (ok_ordered _ Hs); done || lia.
Qed.

Lemma last_split (h : list nat) n p : length h = S n -> h !! n = Some p -> exists l, h = l ++ [p] /\ length l = n.
Proof.
  intros Hn Hp. destruct h as [|q l _] using rev_ind; [done|]. rewrite length_app in Hn. simpl in Hn.
  assert (length l = n) as <- by lia. rewrite list_lookup_middle in Hp by done. exists l. split; congruence.
Qed.

(** What [heap.Remove] and [heap.Pop] leave: the entry [p] out of the heap. *)
Definition taken_out s s2 p : Prop :=
  exists s1 l, moved s s1 /\ lru_heap s1 = l ++ [p] /\ ordered (length l) (tm s1) /\
    indexed s2 /\ lru_heap s2 = l /\ lru_index s2 = lru_index s1 /\ lru_next s2 = lru_next s1 /\
    (forall q, data s2 q = data s1 q).

Lemma take_last s s1 n p :
  length (lru_heap s) = S n -> moved s s1 -> lru_heap s1 !! n = Some p -> ordered n (tm s1) ->
  exists s2, Pop s1 = Ok (s2, p) /\ taken_out s s2 p.
Proof.
  intros Hn Hm Hp Ho. destruct (last_split (lru_heap s1) n p) as (l & Hl & Hln); [|done|].
  { by rewrite (moved_length _ _ Hm). }
  destruct (Pop_ok s1 l p (mv_indexed _ _ Hm) Hl) as (s2 & E2 & ? & ? & ? & ? & ?).
  exists s2. split; [done|]. exists s1, l. rewrite Hln. by split_and!.
Qed.

Lemma heap_Remove_ok s i p :
  lru_ok s -> lru_heap s !! i = Some p ->
  exists s2, heap_Remove s (Z.of_nat i) = Ok (s2, p) /\ taken_out s s2 p.
Proof.
  intros Hs Hi. pose proof (lookup_lt_Some _ _ _ Hi) as Hlt.
  destruct (length (lru_heap s)) as [|n] eqn:Hn; [lia|].
  unfold heap_Remove. assert (Len s - 1 = Z.of_nat n) as -> by (unfold Len; lia).
  destruct (Z.eqb_spec (Z.of_nat n) (Z.of_nat i)) as [En|Hne]; cbn [mbind result_bind].
  - assert (n = i) as -> by lia. apply (take_last s s i); [done|apply moved_refl, Hs|done|].
    intros j c Hj Hc. apply (ok_ordered _ Hs); [done|lia].
  - destruct (swap_last s i p n Hs Hi Hn) as (s1 & -> & Hm1 & Hp1 & Ho1). cbn [mbind result_bind].
    pose proof (moved_length _ _ Hm1) as Hl1.
    destruct (settle_ok s1 i n) as (s2 & E2 & Hm2 & Ho2 & Hf2); [apply Hm1 | lia | lia | done|].
    unfold Len. rewrite Nat2Z.id. cbn [mbind result_bind] in E2. rewrite E2.
    apply (take_last s s2 n); [done | by eapply moved_trans | by rewrite Hf2 | done].
Qed.

Lemma heap_Pop_ok s p :
  lru_ok s -> lru_heap s !! 0%nat = Some p -> exists s2, heap_Pop s = Ok (s2, p) /\ taken_out s s2 p.
Proof.
  intros Hs Hi. pose proof (lookup_lt_Some _ _ _ Hi) as Hlt.
  destruct (length (lru_heap s)) as [|n] eqn:Hn; [lia|].
  unfold heap_Pop. assert (Len s - 1 = Z.of_nat n) as -> by (unfold Len; lia).
  destruct (swap_last s 0 p n Hs Hi Hn) as (s1 & E1 & Hm1 & Hp1 & Ho1).
  change (Z.of_nat 0) with 0 in E1. rewrite E1. cbn [mbind result_bind]. unfold down.
  pose proof (moved_length _ _ Hm1) as Hl1.
  destruct (down_loop_ok (Z.to_nat (Z.of_nat n)) s1 0 0 n) as (s2 & i2 & E2 & Hm2 & Hf2 & _ & Ha & Hb);
    [apply Hm1 | lia | lia | lia | done|].
  change (Z.of_nat 0) with 0 in E2. rewrite E2. cbn [mbind result_bind].
  apply (take_last s s2 n); [done | by eapply moved_trans | by rewrite Hf2 |].
  destruct (decide (i2 = 0)%nat) as [->|]; [|by apply Ha]. by apply ordered_up_root, Hb.
Qed.

Lemma taken_out_ok s s2 p key t :
  lru_ok s -> taken_out s s2 p -> data s p = Some (key, t) ->
  let s3 := mkLru (lru_store s2) (lru_heap s2) (delete key (lru_index s2)) (lru_next s2) in
  lru_ok s3 /\ view s3 = delete key (view s) /\ view s !! key = Some t /\ data s2 p = Some (key, t).
Proof.
  intros Hs (s1 & l & Hm & Hl & Ho & Hi2 & Hh2 & Hx2 & Hn2 & Hd2) Hd s3.
  destruct (drop_entry s s1 s3 l p key t) as (? & ? & ?); try done.
  - by split; apply Hi2.
  - simpl. by rewrite Hx2.
  - split_and!; [done..|]. by rewrite Hd2, (mv_data _ _ Hm).
Qed.

(** Every entry of the heap carries a key. *)
Lemma heap_data s p : indexed s -> p ∈ lru_heap s -> exists e, lru_store s !! p = Some e /\
  data s p = Some (le_key e, le_lastAccess e) /\ exists i, le_index e = Z.of_nat i /\ lru_heap s !! i = Some p.
Proof.
  intros Hs [i Hi]%list_elem_of_lookup. destruct (ix_entry _ Hs i p Hi) as (e & He & Hx). exists e.
  split; [done|]. split; [|eauto]. unfold data. by rewrite He.
Qed.

Lemma remove_ok s key :
  lru_ok s -> exists s', remove s key = Ok s' /\ lru_ok s' /\ view s' = delete key (view s).
Proof.
  intros Hs. unfold remove. destruct (lru_index s !! key) as [p|] eqn:Ek.
  - apply (ok_index _ Hs) in Ek as [Hp [t Ht]].
    destruct (heap_data s p (ok_indexed _ Hs) Hp) as (e & He & Hd & i & Hi & Hh).
    rewrite (deref_ok _ _ _ He). cbn [mbind result_bind]. rewrite Hi.
    destruct (heap_Remove_ok s i p Hs Hh) as (s2 & -> & Ht2). cbn [mbind result_bind].
    eexists. split; [reflexivity|]. by destruct (taken_out_ok s s2 p key t Hs Ht2 Ht) as (? & ? & _).
  - exists s. split_and!; [done..|]. rewrite delete_id; [done|]. unfold view. by rewrite lookup_fmap, Ek.
Qed.

Lemma pop_oldest_ok s :
  lru_ok s -> lru_heap s <> [] ->
  exists s' key t, pop_oldest s = Ok (s', key) /\ lru_ok s' /\ view s' = delete key (view s) /\
    view s !! key = Some t /\ (forall k' t', view s !! k' = Some t' -> t <= t').
Proof.
  intros Hs Hne. destruct (lru_heap s) as [|p h] eqn:Eh; [done|].
  assert (lru_heap s !! 0%nat = Some p) as H0 by by rewrite Eh.
  destruct (heap_Pop_ok s p Hs H0) as (s2 & E & Ht).
  destruct (heap_data s p (ok_indexed _ Hs)) as (e & He & Hd & _); [rewrite Eh; by left|].
  destruct (taken_out_ok s s2 p _ _ Hs Ht Hd) as (Hok & Hv & Hk & Hd2).
  unfold pop_oldest. rewrite E. cbn [mbind result_bind].
  assert (exists e2, lru_store s2 !! p = Some e2 /\ le_key e2 = le_key e) as (e2 & He2 & Ek2).
  { unfold data in Hd2. destruct (lru_store s2 !! p) as [e2|]; simplify_eq/=. eauto. }
  rewrite (deref_ok _ _ _ He2). cbn [mbind result_bind]. rewrite Ek2.
  eexists _, _, _. split; [reflexivity|]. split_and!; [done|done|exact Hk|].
  intros k' t' (q & [i Hi]%list_elem_of_lookup & Hq)%(view_lookup _ _ _ Hs).
  pose proof (tm_lookup s 0 p _ H0 Hd) as E0. pose proof (tm_lookup s i q _ Hi Hq) as Ei.
  simpl in E0, Ei. rewrite <- E0, <- Ei. eapply ordered_root; [apply (ok_ordered _ Hs)|]. by eapply lookup_lt_Some.
Qed.

(** Writing a time into an entry, or a new entry, before the heap is fixed. *)
Lemma write_ok s p e now (s1 := mkLru (<[p := mkEntry (le_key e) now (le_index e)]> (lru_store s)) (lru_heap s)
    (lru_index s) (lru_next s)) :
  indexed s -> lru_store s !! p = Some e ->
  indexed s1 /\ (forall q, q <> p -> data s1 q = data s q) /\ data s1 p = Some (le_key e, now).
Proof.
  intros Hs He. split_and!.
  - split; simpl; [apply Hs|]. intros i q Hq. destruct (ix_entry _ Hs i q Hq) as (f & Hf & Ef).
    destruct (decide (q = p)) as [->|].
    + rewrite lookup_insert_eq. eexists. split; [done|]. simpl. congruence.
    + rewrite lookup_insert_ne by done. by exists f.
  - intros q Hq. unfold data, s1. simpl. by rewrite lookup_insert_ne.
  - unfold data, s1. simpl. by rewrite lookup_insert_eq.
Qed.

(** The time at the other positions is as before. *)
Lemma tm_other s s1 i p :
  indexed s -> lru_heap s !! i = Some p -> lru_heap s1 = lru_heap s -> (forall q, q <> p -> data s1 q = data s q) ->
  forall k, k <> i -> tm s1 k = tm s k.
Proof.
  intros Hs Hi Hh Hd k Hk. unfold tm. rewrite Hh. destruct (lru_heap s !! k) as [q|] eqn:Eq; [|done]. simpl.
  rewrite Hd; [done|]. intros ->. apply Hk. eapply NoDup_lookup; [apply Hs|done|done].
Qed.

(** Changing one time leaves the array ordered but at that position. *)
Lemma ordered_change n t t' i :
  ordered n t -> (i < n)%nat -> (forall k, k <> i -> t' k = t k) -> ordered_down n t' i i.
Proof.
  intros Ho Hi Ht. split_and!; [| |done].
  - intros k c Hk Hc Hki Hci. rewrite !Ht by done. by apply Ho.
  - intros k c Hk Hc Hcn. pose proof (child_lt _ _ Hk). pose proof (child_lt _ _ Hc). rewrite !Ht by lia.
    etrans; apply Ho; done || lia.
Qed.

Lemma touch_ok s now key :
  lru_ok s -> exists s', touch s now key = Ok s' /\ lru_ok s' /\ view s' = alter (fun _ => now) key (view s).
Proof.
  intros Hs. unfold touch. destruct (lru_index s !! key) as [p|] eqn:Ek.
  2: { exists s. split_and!; [done..|]. symmetry. apply map_eq. intros k.
       destruct (decide (k = key)) as [->|]; [rewrite lookup_alter_eq|by rewrite lookup_alter_ne].
       unfold view. by rewrite lookup_fmap, Ek. }
  pose proof Ek as Ek'. apply (ok_index _ Hs) in Ek' as [Hp [t Ht]].
  destruct (heap_data s p (ok_indexed _ Hs) Hp) as (e & He & Hd & i & Hi & Hh).
  assert (le_key e = key) as Ekey by congruence.
  rewrite (deref_ok _ _ _ He). cbn [mbind result_bind]. rewrite Hi.
  destruct (write_ok s p e now (ok_indexed _ Hs) He) as (Hi1 & Hd1 & Hdp). rewrite Hi in Hi1, Hd1, Hdp.
  set (s1 := mkLru _ _ _ _) in *.
  pose proof (tm_other s s1 i p (ok_indexed _ Hs) Hh eq_refl Hd1) as Ht1.
  pose proof (lookup_lt_Some _ _ _ Hh) as Hlt.
  destruct (settle_ok s1 i (length (lru_heap s1))) as (s2 & E2 & Hm2 & Ho2 & _);
    [done | done | done | by eapply ordered_change; [apply (ok_ordered _ Hs)|..] |].
  unfold heap_Fix, Len. rewrite Nat2Z.id. cbn [mbind result_bind] in E2 |- *. rewrite E2.
  exists s2. split; [done|].
  assert (forall q, data s2 q = if decide (q = p) then Some (key, now) else data s q) as Hd2.
  { intros q. rewrite (mv_data _ _ Hm2). case_decide as Hq; [subst; congruence | by apply Hd1]. }
  destruct Hm2 as [Hx2 Hp2 Hix2 Hn2 _].
  assert (lru_ok s2) as Hok.
  { split; [done| | |].
    - by rewrite Hp2.
    - intros k q. rewrite Hix2, Hp2, Hd2. simpl. rewrite (ok_index _ Hs). case_decide as Hq; [|done]. subst q.
      split; intros [Hq [t' Ht']]; (split; [done|]); [exists now | exists t]; congruence.
    - intros q. rewrite Hp2, Hn2. apply (ok_fresh _ Hs). }
  split; [done|]. apply map_eq. intros k. unfold view. rewrite Hix2. simpl.
  destruct (decide (k = key)) as [->|Hk].
  - rewrite lookup_alter_eq, !lookup_fmap, Ek. simpl. by rewrite Hd2, decide_True.
  - rewrite lookup_alter_ne, !lookup_fmap by done. destruct (lru_index s !! k) as [q|] eqn:Eq; [|done]. simpl.
    rewrite Hd2, decide_False; [done|]. intros ->. apply (ok_index _ Hs) in Eq as [_ [? ?]]. congruence.
Qed.

(** The heap with a new entry at its end, before [up]. *)
Definition appended s (now : Z) (key : K) : lru K :=
  mkLru (<[lru_next s := mkEntry key now (Len s)]> (lru_store s)) (lru_heap s ++ [lru_next s])
    (lru_index s) (S (lru_next s)).

Lemma appended_ok s now key :
  lru_ok s -> let s1 := appended s now key in
  indexed s1 /\ ordered_up (S (length (lru_heap s))) (tm s1) (length (lru_heap s)) /\
  (forall q, data s1 q = if decide (q = lru_next s) then Some (key, now) else data s q).
Proof.
  intros Hs s1. set (n := length (lru_heap s)).
  assert (lru_next s ∉ lru_heap s) as Hfresh by (intros Hin%(ok_fresh _ Hs); lia).
  assert (forall q, data s1 q = if decide (q = lru_next s) then Some (key, now) else data s q) as Hd.
  { intros q. unfold data, s1, appended. simpl. case_decide as Hq; [subst; by rewrite lookup_insert_eq | by rewrite lookup_insert_ne]. }
  split_and!; [| |done].
  - split; simpl.
    + apply NoDup_app. split_and!; [apply (ok_indexed _ Hs)| |apply NoDup_singleton].
      intros q Hq ->%list_elem_of_singleton. done.
    + intros i q [Hq|[Hn Hq]]%lookup_app_Some.
      * destruct (ix_entry _ (ok_indexed _ Hs) i q Hq) as (f & Hf & Ef). exists f.
        rewrite lookup_insert_ne; [done|]. intros <-. apply Hfresh. by eapply list_elem_of_lookup_2.
      * apply list_lookup_singleton_Some in Hq as [Hi <-]. rewrite lookup_insert_eq. eexists. split; [done|].
        simpl. unfold Len. lia.
  - assert (forall k, (k < n)%nat -> tm s1 k = tm s k) as Ht.
    { intros k Hk. unfold tm, s1, appended. simpl. rewrite lookup_app_l by done.
      destruct (lru_heap s !! k) as [q|] eqn:Eq; [|done]. simpl. fold (appended s now key). fold s1. rewrite Hd.
      rewrite decide_False; [done|]. intros ->. apply Hfresh. by eapply list_elem_of_lookup_2. }
    split.
    + intros i c Hi Hc Hne. pose proof (child_lt _ _ Hi). rewrite !Ht by lia. apply (ok_ordered _ Hs); [done|]. unfold n in *. lia.
    + intros i c _ Hc Hlt. pose proof (child_lt _ _ Hc). lia.
Qed.

Lemma Push_fresh s now key :
  Push (mkLru (<[lru_next s := mkEntry key now 0]> (lru_store s)) (lru_heap s) (lru_index s) (S (lru_next s)))
    (lru_next s) = Ok (appended s now key).
Proof.
  unfold Push. rewrite (set_index_ok _ _ (mkEntry key now 0)) by (simpl; by rewrite lookup_insert_eq).
  simpl. unfold appended. by rewrite insert_insert_eq.
Qed.

Lemma push_ok s now key :
  lru_ok s -> lru_index s !! key = None ->
  exists s', push s now key = Ok s' /\ lru_ok s' /\ view s' = <[key := now]> (view s).
Proof.
  intros Hs Hnone. destruct (appended_ok s now key Hs) as (Hi1 & Ho1 & Hd1).
  unfold push, heap_Push. rewrite Push_fresh. cbn [mbind result_bind].
  assert (Len (appended s now key) = Z.of_nat (S (length (lru_heap s)))) as El.
  { unfold Len. simpl. rewrite length_app. simpl. lia. }
  rewrite El. replace (Z.of_nat (S (length (lru_heap s))) - 1) with (Z.of_nat (length (lru_heap s))) by lia.
  destruct (up_ok (Z.to_nat (Z.of_nat (S (length (lru_heap s))))) (appended s now key) (length (lru_heap s))
    (S (length (lru_heap s)))) as (s2 & -> & Hm2 & Ho2 & _); [done | simpl; rewrite length_app; simpl; lia | lia | lia | done|].
  cbn [mbind result_bind]. eexists. split; [reflexivity|].
  destruct Hm2 as [Hx2 Hp2 Hix2 Hn2 Hd2]. set (s3 := mkLru _ _ _ _).
  assert (forall q, data s3 q = if decide (q = lru_next s) then Some (key, now) else data s q) as Hd3.
  { intros q. change (data s3 q) with (data s2 q). by rewrite Hd2, Hd1. }
  assert (forall q, q ∈ lru_heap s2 <-> q ∈ lru_heap s \/ q = lru_next s) as Hel.
  { intros q. rewrite Hp2. simpl. apply elem_app_last. }
  split.
  - split.
    + by split; apply Hx2.
    + simpl. rewrite Hp2. simpl. rewrite length_app, Nat.add_comm. exact Ho2.
    + intros k q. simpl. rewrite Hix2, Hel, Hd3. simpl. destruct (decide (k = key)) as [->|Hk].
      * rewrite lookup_insert_eq. split.
        -- intros [= <-]. split; [by right|]. exists now. by rewrite decide_True.
        -- intros [Hq [t Ht]]. case_decide; [congruence|]. destruct Hq as [Hq|]; [|done].
           assert (lru_index s !! key = Some q) by (apply (ok_index _ Hs); eauto). congruence.
      * rewrite lookup_insert_ne, (ok_index _ Hs) by done. split.
        -- intros [Hq [t Ht]]. split; [by left|]. exists t. rewrite decide_False; [done|].
           intros ->. apply (ok_fresh _ Hs) in Hq. lia.
        -- intros [Hq [t Ht]]. case_decide; [congruence|]. destruct Hq; [by eauto|done].
    + intros q. simpl. rewrite Hel, Hn2. simpl. intros [Hq%(ok_fresh _ Hs)| ->]; lia.
  - apply map_eq. intros k. unfold view. simpl. rewrite Hix2. simpl.
    destruct (decide (k = key)) as [->|Hk].
    + rewrite lookup_insert_eq, lookup_fmap, lookup_insert_eq. simpl. by rewrite Hd3, decide_True.
    + rewrite lookup_insert_ne, !lookup_fmap, lookup_insert_ne by done.
      destruct (lru_index s !! k) as [q|] eqn:Eq; [|done]. simpl. rewrite Hd3, decide_False; [done|].
      intros ->. apply (ok_index _ Hs) in Eq as [Hq _]. apply (ok_fresh _ Hs) in Hq. lia.
Qed.

Lemma heap_size s : lru_ok s -> length (lru_heap s) = size (view s).
Proof.
  intros Hs. unfold view. rewrite map_size_fmap, <- length_map_to_list, <- (length_fmap snd).
  apply Permutation_length, NoDup_Permutation.
  - apply (ok_indexed _ Hs).
  - apply NoDup_fmap_2_strong; [|apply NoDup_map_to_list]. intros [k p] [k' p'] Hk Hk' E. simpl in E. subst p'.
    apply elem_of_map_to_list in Hk, Hk'. apply (ok_index _ Hs) in Hk as [_ [? ?]], Hk' as [_ [? ?]]. congruence.
  - intros p. rewrite list_elem_of_fmap. split.
    + intros Hp. destruct (heap_data s p (ok_indexed _ Hs) Hp) as (e & _ & Hd & _).
      exists (le_key e, p). split; [done|]. apply elem_of_map_to_list, (ok_index _ Hs). eauto.
    + intros ([k q] & -> & Hk). apply elem_of_map_to_list, (ok_index _ Hs) in Hk. by apply Hk.
Qed.

(** The states an index goes through: keys are pushed once, touched, removed
    and evicted. *)
Inductive lru_reach : lru K -> Prop :=
| reach_empty : lru_reach empty_lru
| reach_push s now key s' :
    lru_reach s -> lru_index s !! key = None -> push s now key = Ok s' -> lru_reach s'
| reach_touch s now key s' : lru_reach s -> touch s now key = Ok s' -> lru_reach s'
| reach_remove s key s' : lru_reach s -> remove s key = Ok s' -> lru_reach s'
| reach_pop s s' key : lru_reach s -> pop_oldest s = Ok (s', key) -> lru_reach s'.

Lemma pop_empty s : lru_heap s = [] -> pop_oldest s = Panic.
Proof. intros E. unfold pop_oldest, heap_Pop, Swap, Len. by rewrite E. Qed.

Lemma reach_ok s : lru_reach s -> lru_ok s.
Proof.
  induction 1 as [|s now key s' _ IH Hn E|s now key s' _ IH E|s key s' _ IH E|s s' key _ IH E].
  - apply empty_lru_ok.
  - destruct (push_ok s now key IH Hn) as (? & ? & ? & _). congruence.
  - destruct (touch_ok s now key IH) as (? & ? & ? & _). congruence.
  - destruct (remove_ok s key IH) as (? & ? & ? & _). congruence.
  - destruct (decide (lru_heap s = [])) as [Hh|Hh]; [by rewrite pop_empty in E|].
    destruct (pop_oldest_ok s IH Hh) as (? & ? & ? & ? & ? & _). congruence.
Qed.

(** Claim C10. The LRU index refines a finite map from keys to last-access times.
    In every reachable state no operation panics: pushing an absent key
    inserts it, touching updates its time, removing deletes it (both are
    no-ops for an absent key), and popping a non-empty heap deletes a key
    whose last access is the least of all; the heap has one entry per key.
    The positions stored in the entries, through which the companion map
    reaches into the heap, stay correct under every swap. *)
Theorem lru_refines (s : lru K) :
  lru_reach s ->
  Len s = Z.of_nat (size (view s)) /\
  (forall now key, view s !! key = None ->
     exists s', push s now key = Ok s' /\ lru_reach s' /\ view s' = <[key := now]> (view s)) /\
  (forall now key, exists s', touch s now key = Ok s' /\ lru_reach s' /\ view s' = alter (fun _ => now) key (view s)) /\
  (forall key, exists s', remove s key = Ok s' /\ lru_reach s' /\ view s' = delete key (view s)) /\
  (view s <> ∅ -> exists s' key t, pop_oldest s = Ok (s', key) /\ lru_reach s' /\
     view s' = delete key (view s) /\ view s !! key = Some t /\
     forall key' t', view s !! key' = Some t' -> t <= t').
Proof.
  intros Hr. pose proof (reach_ok s Hr) as Hs. split_and!.
  - unfold Len. by rewrite heap_size.
  - intros now key Hk. unfold view in Hk. rewrite lookup_fmap, fmap_None in Hk.
    destruct (push_ok s now key Hs Hk) as (s' & ? & _ & ?). exists s'. split_and!; [done| |done]. by eapply reach_push.
  - intros now key. destruct (touch_ok s now key Hs) as (s' & ? & _ & ?). exists s'. split_and!; [done| |done]. by eapply reach_touch.
  - intros key. destruct (remove_ok s key Hs) as (s' & ? & _ & ?). exists s'. split_and!; [done| |done]. by eapply reach_remove.
  - intros Hne. destruct (pop_oldest_ok s Hs) as (s' & key & t & E & _ & ? & ? & ?).
    + intros Hh. apply Hne, map_size_empty_iff. rewrite <- heap_size, Hh by done. done.
    + exists s', key, t. split_and!; [done| |done..]. by eapply reach_pop.
Qed.
End states.

(** ** Witness *)
Definition demo_lru : lru nat :=
  default empty_lru (match (s ← push empty_lru 30 1; s ← push s 10 2; s ← push s 20 3; touch s 40 2)%nat : go (lru nat) with
                     | Ok s => Some s | _ => None end).

Lemma lru_demo_reach : lru_reach demo_lru.
Proof.
  assert (exists s1 s2 s3, push (empty_lru (K:=nat)) 30 1 = Ok s1 /\ push s1 10 2 = Ok s2 /\ push s2 20 3 = Ok s3 /\
    touch s3 40 2 = Ok demo_lru /\ lru_index s1 !! 2%nat = None /\ lru_index s2 !! 3%nat = None)%nat
    as (s1 & s2 & s3 & H1 & H2 & H3 & H4 & N2 & N3).
  { eexists _, _, _. split_and!; vm_compute; reflexivity. }
  eapply reach_touch; [|exact H4]. eapply reach_push; [|exact N3|exact H3].
  eapply reach_push; [|exact N2|exact H2]. eapply reach_push; [constructor|done|exact H1].
Qed.

Lemma lru_refines_witness :
  (exists s', pop_oldest demo_lru = Ok (s', 3%nat)) /\ Len demo_lru = Z.of_nat (size (view demo_lru)).
Proof.
  split; [eexists; vm_compute; reflexivity|]. apply (lru_refines demo_lru). exact lru_demo_reach.
Defined.
