(* ===== verification/Profiles.v ===== *)
(** * Behavioural profiles with bounded memory

    Models the stores of src/internal/profiler that keep one profile per key
    under a cap, evicting the least recently used one:
    [ProfileManager] of profile.go (per process), [WorkloadProfileManager] and
    [WorkloadKey] of workload.go (per workload, in 16 shards) and the drift
    baseline of driftbaseline.go (per workload). The common part, a map of
    profiles with the LRU index of [LruHeap] beside it, is generic. What a
    profile of the first two holds (floating-point statistics) is a parameter;
    the drift baseline is modelled in full. A call of [time.Now] is an
    argument. *)
From Stdlib Require Import Ascii.
From stdpp Require Import pretty.
From S2P Require Import Prelude GoBytes GoRing Types Fields Aggregator LruHeap.

(** ** A map of profiles and its LRU index *)
Section lru_map.
Context {K : Type} `{Countable K} {P : Type}.

Record lru_map := mkLruMap { lm_profiles : gmap K P; lm_lru : lru K }.

Definition empty_map : lru_map := mkLruMap ∅ empty_lru.

(** [evictLRULocked]: nothing on an empty heap. *)
Definition evictLRULocked (m : lru_map) : go lru_map :=
  if Len (lm_lru m) =? 0 then Ok m else
  r ← pop_oldest (lm_lru m);
  let '(l, key) := r in
  Ok (mkLruMap (delete key (lm_profiles m)) l).

(** A new profile under [key]: the entry of the map and of the index. *)
Definition insert_new (m : lru_map) (clock : Z) (key : K) (p : P) : go lru_map :=
  l ← push (lm_lru m) clock key;
  Ok (mkLruMap (<[key := p]> (lm_profiles m)) l).

(** Lookup or creation under the cap [max] (not positive: no cap). *)
Definition get_or_create (m : lru_map) (max clock : Z) (key : K) (new : P) : go (lru_map * P) :=
  match lm_profiles m !! key with
  | Some p => l ← touch (lm_lru m) clock key; Ok (mkLruMap (lm_profiles m) l, p)
  | None =>
      m ← (if (0 <? max) && (max <=? Z.of_nat (size (lm_profiles m))) then evictLRULocked m else Ok m);
      m ← insert_new m clock key new;
      Ok (m, new)
  end.

Definition remove_key (m : lru_map) (key : K) : go lru_map :=
  l ← remove (lm_lru m) key;
  Ok (mkLruMap (delete key (lm_profiles m)) l).

(** The loop of [CleanupExpired] over the entries as they are listed. *)
Fixpoint cleanup_loop (expired : P -> bool) (l : list (K * P)) (m : lru_map) (removed : Z) : go (lru_map * Z) :=
  match l with
  | [] => Ok (m, removed)
  | (key, p) :: l =>
      if expired p then m ← remove_key m key; cleanup_loop expired l m (removed + 1)
      else cleanup_loop expired l m removed
  end.

Definition cleanup_expired (order : gmap K P -> list (K * P)) (expired : P -> bool) (m : lru_map) : go (lru_map * Z) :=
  cleanup_loop expired (order (lm_profiles m)) m 0.
End lru_map.
Arguments lru_map _ {_ _} _.

(** ** Per-process profiles *)
Module ProfileManager.
Section manager.
(** A profile, a fresh one for a process, the update by an event. *)
Context {P : Type} (NewProcessProfile : Z -> gostring -> P) (record_event : Event -> P -> P).

Record ProfileManager := mkPM { pm_map : lru_map Z P; pm_ttl : Z; pm_maxPIDs : Z }.

Definition NewProfileManagerWithContext (ttl maxPIDs : Z) : ProfileManager :=
  mkPM empty_map ttl (if maxPIDs <=? 0 then 65536 else maxPIDs).

Definition with_map (pm : ProfileManager) (m : lru_map Z P) : ProfileManager :=
  mkPM m (pm_ttl pm) (pm_maxPIDs pm).

Definition GetOrCreate (pm : ProfileManager) (clock pid : Z) (comm : gostring) : go (ProfileManager * P) :=
  r ← get_or_create (pm_map pm) (pm_maxPIDs pm) clock pid (NewProcessProfile pid comm);
  Ok (with_map pm r.1, r.2).

Definition Get (pm : ProfileManager) (pid : Z) : option P := lm_profiles (pm_map pm) !! pid.

Definition Remove (pm : ProfileManager) (pid : Z) : go ProfileManager :=
  m ← remove_key (pm_map pm) pid; Ok (with_map pm m).

Definition Flush (pm : ProfileManager) : ProfileManager := with_map pm empty_map.

(** [expired p] is [p.IsExpired(ttl)] at the time of the call. *)
Definition CleanupExpired (order : gmap Z P -> list (Z * P)) (expired : Z -> P -> bool) (pm : ProfileManager) :
  go (ProfileManager * Z) :=
  r ← cleanup_expired order (expired (pm_ttl pm)) (pm_map pm);
  Ok (with_map pm r.1, r.2).

(** Lookup or creation under the map lock, then the update of the profile. *)
Definition RecordEvent (pm : ProfileManager) (clock : Z) (e : Event) : go ProfileManager :=
  r ← GetOrCreate pm clock (ev_PID e) (BytesToString (ev_Comm e));
  let '(pm, p) := r in
  Ok (with_map pm (mkLruMap (<[ev_PID e := record_event e p]> (lm_profiles (pm_map pm))) (lm_lru (pm_map pm)))).
End manager.
End ProfileManager.

(** ** Workload keys *)
Record WorkloadKey := mkWorkloadKey { wk_Comm : gostring; wk_Namespace : gostring; wk_AppLabel : gostring }.

#[export] Instance WorkloadKey_eq_dec : EqDecision WorkloadKey.
Proof. solve_decision. Defined.
#[export] Instance WorkloadKey_countable : Countable WorkloadKey.
Proof.
  refine (inj_countable' (fun k => (wk_Comm k, wk_Namespace k, wk_AppLabel k))
    (fun x => mkWorkloadKey x.1.1 x.1.2 x.2) _).
  by intros [].
Defined.

Definition WorkloadKey_String (k : WorkloadKey) : gostring :=
  (wk_Comm k +:+ "|" +:+ wk_Namespace k +:+ "|" +:+ wk_AppLabel k)%string.

(** [internComm]: the bytes up to the first NUL. *)
Definition WorkloadKeyFromEvent (e : Event) : WorkloadKey :=
  let comm := BytesToString (ev_Comm e) in
  match ev_Enrichment e with
  | None => mkWorkloadKey comm "" ""
  | Some en => mkWorkloadKey comm (en_Namespace en) (default ""%string (en_Labels en !! "app"%string))
  end.

(** FNV-1a over the three parts with ['|'] between them. *)
Definition fnv_byte (h : Z) (c : ascii) : Z := u32 (Z.lxor h (Z.of_N (N_of_ascii c)) * 16777619).
Fixpoint fnv_string (h : Z) (s : gostring) : Z :=
  match s with EmptyString => h | String c s => fnv_string (fnv_byte h c) s end.

Definition hashWorkloadKey (k : WorkloadKey) : Z :=
  fnv_string (fnv_byte (fnv_string (fnv_byte (fnv_string 2166136261 (wk_Comm k)) "|") (wk_Namespace k)) "|")
    (wk_AppLabel k).

Definition workloadShardCount : Z := 16.

(** ** Per-workload profiles *)
Module WorkloadManager.
Section manager.
Context {P : Type} (NewProcessProfileForWorkload : WorkloadKey -> P) (record_event : Event -> P -> P).

Record WorkloadProfileManager := mkWPM {
  wpm_shards : list (lru_map WorkloadKey P); wpm_ttl : Z; wpm_maxKeys : Z; wpm_entryCount : Z }.

(** [pidMax] is [readSystemPIDMax()]. *)
Definition NewWorkloadProfileManager (pidMax ttl maxKeys : Z) : WorkloadProfileManager :=
  mkWPM (replicate (Z.to_nat workloadShardCount) empty_map) ttl (if maxKeys <=? 0 then pidMax else maxKeys) 0.

Definition shardFor (k : WorkloadKey) : nat := Z.to_nat (hashWorkloadKey k mod workloadShardCount).

Definition shard (wpm : WorkloadProfileManager) (i : nat) : lru_map WorkloadKey P :=
  default empty_map (wpm_shards wpm !! i).

Definition set_shard (wpm : WorkloadProfileManager) (i : nat) (m : lru_map WorkloadKey P) (count : Z) :
  WorkloadProfileManager :=
  mkWPM (<[i := m]> (wpm_shards wpm)) (wpm_ttl wpm) (wpm_maxKeys wpm) count.

(** [sh.lruHeap[0].lastAccess] of a shard with entries *)
Definition head_access (m : lru_map WorkloadKey P) : go (option Z) :=
  if 0 <? Len (lm_lru m) then
    p ← list_get (lru_heap (lm_lru m)) 0;
    e ← deref (lm_lru m) p;
    Ok (Some (le_lastAccess e))
  else Ok None.

(** The scan for the shard with the oldest access, from shard [i] on. *)
Fixpoint oldest_shard (i : nat) (shards : list (lru_map WorkloadKey P)) (best : option (nat * Z)) :
  go (option (nat * Z)) :=
  match shards with
  | [] => Ok best
  | m :: shards =>
      t ← head_access m;
      let best := match t, best with
                  | None, _ => best
                  | Some t, None => Some (i, t)
                  | Some t, Some (_, b) => if time_Before t b then Some (i, t) else best
                  end in
      oldest_shard (S i) shards best
  end.

Definition evictIfOverCapacity (wpm : WorkloadProfileManager) : go WorkloadProfileManager :=
  if (wpm_maxKeys wpm <=? 0) || (wpm_entryCount wpm <? wpm_maxKeys wpm) then Ok wpm else
  best ← oldest_shard 0 (wpm_shards wpm) None;
  match best with
  | None => Ok wpm
  | Some (i, oldest) =>
      t ← head_access (shard wpm i);
      if bool_decide (t = Some oldest) then
        r ← pop_oldest (lm_lru (shard wpm i));
        let '(l, key) := r in
        Ok (set_shard wpm i (mkLruMap (delete key (lm_profiles (shard wpm i))) l) (wpm_entryCount wpm - 1))
      else Ok wpm
  end.

Definition GetByKey (wpm : WorkloadProfileManager) (key : WorkloadKey) : option P :=
  lm_profiles (shard wpm (shardFor key)) !! key.

(** The body shared by [GetOrCreateByKey] and [RecordEvent]: evict first, then
    look the key up. *)
Definition GetOrCreateByKey (wpm : WorkloadProfileManager) (clock : Z) (key : WorkloadKey) :
  go (WorkloadProfileManager * P) :=
  wpm ← evictIfOverCapacity wpm;
  let i := shardFor key in
  let sh := shard wpm i in
  match lm_profiles sh !! key with
  | Some p =>
      l ← touch (lm_lru sh) clock key;
      Ok (set_shard wpm i (mkLruMap (lm_profiles sh) l) (wpm_entryCount wpm), p)
  | None =>
      let p := NewProcessProfileForWorkload key in
      sh ← insert_new sh clock key p;
      Ok (set_shard wpm i sh (wpm_entryCount wpm + 1), p)
  end.

Definition RecordEvent (wpm : WorkloadProfileManager) (clock : Z) (e : Event) : go WorkloadProfileManager :=
  let key := WorkloadKeyFromEvent e in
  r ← GetOrCreateByKey wpm clock key;
  let '(wpm, p) := r in
  let i := shardFor key in
  let sh := shard wpm i in
  Ok (set_shard wpm i (mkLruMap (<[key := record_event e p]> (lm_profiles sh)) (lm_lru sh)) (wpm_entryCount wpm)).

Fixpoint cleanup_shards (order : gmap WorkloadKey P -> list (WorkloadKey * P)) (expired : P -> bool)
    (shards : list (lru_map WorkloadKey P)) : go (list (lru_map WorkloadKey P) * Z) :=
  match shards with
  | [] => Ok ([], 0)
  | m :: shards =>
      r ← cleanup_expired order expired m;
      rest ← cleanup_shards order expired shards;
      Ok (r.1 :: rest.1, r.2 + rest.2)
  end.

Definition CleanupExpired (order : gmap WorkloadKey P -> list (WorkloadKey * P)) (expired : Z -> P -> bool)
    (wpm : WorkloadProfileManager) : go (WorkloadProfileManager * Z) :=
  r ← cleanup_shards order (expired (wpm_ttl wpm)) (wpm_shards wpm);
  Ok (mkWPM r.1 (wpm_ttl wpm) (wpm_maxKeys wpm) (wpm_entryCount wpm - r.2), r.2).

Definition Len_ (wpm : WorkloadProfileManager) : Z :=
  foldr (fun m n => Z.of_nat (size (lm_profiles m)) + n) 0 (wpm_shards wpm).

Definition Flush (wpm : WorkloadProfileManager) : WorkloadProfileManager :=
  mkWPM (map (fun _ => empty_map) (wpm_shards wpm)) (wpm_ttl wpm) (wpm_maxKeys wpm) 0.
End manager.
End WorkloadManager.

(** ** The drift baseline *)
Module Drift.
Record DriftBaselineConfig := mkDriftConfig {
  dc_Enabled : bool; dc_LearningPeriod : Z; dc_MinSamples : Z; dc_PerWorkload : bool;
  dc_MaxWorkloads : Z; dc_EnforceDeadlinePeriods : Z }.

Definition DefaultDriftBaselineConfig : DriftBaselineConfig := mkDriftConfig false 3600 20 true 1000 3.
Definition defaultDriftMaxWorkloads : Z := 1000.
Definition defaultDriftEnforceDeadlinePeriods : Z := 3.

Record driftWorkloadProfile := mkDrift {
  dp_signatures : gset gostring; dp_startedAt : Z; dp_lastSeen : Z; dp_sampleCount : Z; dp_enforcing : bool }.

Record DriftBaselineProfiler := mkProfiler {
  db_config : DriftBaselineConfig; db_map : lru_map gostring driftWorkloadProfile;
  db_maxWorkloads : Z; db_enforceDeadline : Z }.

(** [time.Duration(n) * time.Second] *)
Definition seconds (n : Z) : Z := i64 (n * Second).

Definition NewDriftBaselineProfiler (cfg : DriftBaselineConfig) : DriftBaselineProfiler :=
  let maxWorkloads := if dc_MaxWorkloads cfg =? 0 then defaultDriftMaxWorkloads else dc_MaxWorkloads cfg in
  let maxWorkloads := if maxWorkloads <? 0 then 0 else maxWorkloads in
  let deadlinePeriods := if dc_EnforceDeadlinePeriods cfg =? 0 then defaultDriftEnforceDeadlinePeriods
                         else dc_EnforceDeadlinePeriods cfg in
  let enforceDeadline := if (0 <? deadlinePeriods) && (0 <? dc_LearningPeriod cfg)
                         then i64 (i64 (deadlinePeriods * dc_LearningPeriod cfg) * Second) else 0 in
  mkProfiler cfg empty_map maxWorkloads enforceDeadline.

Definition driftPathPrefixMaxDepth : nat := 2.

(** [isNumericSegment] has the body of the aggregator's [isNumeric]. *)
Definition isNumericSegment (s : gostring) : bool := isNumeric s.

(** The scan for ['/'] with the segment read so far. *)
Fixpoint scan_path (seg s : gostring) (kept : list gostring) : list gostring :=
  let kept' := kept ++ [if isNumericSegment seg then "*"%string else seg] in
  match s with
  | EmptyString => if bool_decide (seg = ""%string) then kept else kept'
  | String c s =>
      if decide (c = "/"%char) then
        if bool_decide (seg = ""%string) then scan_path "" s kept
        else if bool_decide (driftPathPrefixMaxDepth <= length kept')%nat then kept'
        else scan_path "" s kept'
      else scan_path (seg +:+ String c EmptyString) s kept
  end.

Definition normalizeDriftPathPrefix (path : gostring) : gostring :=
  if bool_decide (path = ""%string) then ""%string
  else ("/" +:+ join_slash (scan_path "" path []))%string.

Definition driftSignatureTarget (e : Event) : gostring :=
  if ev_Type e =? EventFileAccess then
    match ev_File e with
    | Some f =>
        normalizeDriftPathPrefix
          (if bool_decide (file_FDPath f = ""%string) then BytesToString (file_Filename f) else file_FDPath f)
    | None => ""%string
    end
  else if ev_Type e =? EventTCPConnect then
    match ev_Network e with Some n => pretty (net_Dport n) | None => ""%string end
  else if ev_Type e =? EventSyscall then
    match ev_Syscall e with Some s => pretty (sys_Nr s) | None => ""%string end
  else ""%string.

Definition resolveKey (p : DriftBaselineProfiler) (e : Event) : WorkloadKey :=
  if dc_PerWorkload (db_config p) then WorkloadKeyFromEvent e else mkWorkloadKey "" "" "".

(** The key and the signature of a match. *)
Definition obs_key (p : DriftBaselineProfiler) (e : Event) : gostring := WorkloadKey_String (resolveKey p e).
Definition obs_sig (ruleID : gostring) (e : Event) : gostring := (ruleID +:+ "|" +:+ driftSignatureTarget e)%string.

Definition evictIfOverCapacityLocked (p : DriftBaselineProfiler) : go DriftBaselineProfiler :=
  if (db_maxWorkloads p <=? 0) || (Z.of_nat (size (lm_profiles (db_map p))) <? db_maxWorkloads p) then Ok p else
  m ← evictLRULocked (db_map p);
  Ok (mkProfiler (db_config p) m (db_maxWorkloads p) (db_enforceDeadline p)).

(** The two ways learning ends. *)
Definition learning_done (p : DriftBaselineProfiler) (elapsed samples : Z) : bool :=
  ((seconds (dc_LearningPeriod (db_config p)) <=? elapsed) && (dc_MinSamples (db_config p) <=? samples)) ||
  ((0 <? db_enforceDeadline p) && (db_enforceDeadline p <=? elapsed)).

(** What [Observe] does to the profile: the new profile and the verdict. *)
Definition observe_profile (p : DriftBaselineProfiler) (now : Z) (sig : gostring) (prof : driftWorkloadProfile) :
  driftWorkloadProfile * bool :=
  if dp_enforcing prof then (prof, negb (bool_decide (sig ∈ dp_signatures prof)))
  else
    let samples := dp_sampleCount prof + 1 in
    (mkDrift ({[sig]} ∪ dp_signatures prof) (dp_startedAt prof) (dp_lastSeen prof) samples
       (learning_done p (time_Sub now (dp_startedAt prof)) samples), false).

(** A new profile; an existing one with its [lastSeen] set. *)
Definition fresh_drift (now : Z) : driftWorkloadProfile := mkDrift ∅ now now 0 false.
Definition seen_drift (now : Z) (d : driftWorkloadProfile) : driftWorkloadProfile :=
  mkDrift (dp_signatures d) (dp_startedAt d) now (dp_sampleCount d) (dp_enforcing d).

(** [now] is [nowFn()], [clock] the [time.Now()] of the LRU index. *)
Definition Observe (p : DriftBaselineProfiler) (now clock : Z) (ruleID : gostring) (e : Event) :
  go (DriftBaselineProfiler * bool) :=
  if negb (dc_Enabled (db_config p)) then Ok (p, true) else
  let key := obs_key p e in
  r ← (match lm_profiles (db_map p) !! key with
       | None =>
           p ← evictIfOverCapacityLocked p;
           m ← insert_new (db_map p) clock key (fresh_drift now);
           Ok (m, fresh_drift now)
       | Some prof =>
           l ← touch (lm_lru (db_map p)) clock key;
           Ok (mkLruMap (lm_profiles (db_map p)) l, seen_drift now prof)
       end);
  let '(m, prof) := r in
  let '(prof, alert) := observe_profile p now (obs_sig ruleID e) prof in
  Ok (mkProfiler (db_config p) (mkLruMap (<[key := prof]> (lm_profiles m)) (lm_lru m))
        (db_maxWorkloads p) (db_enforceDeadline p), alert).

Definition count_profiles (test : driftWorkloadProfile -> bool) (p : DriftBaselineProfiler) : Z :=
  Z.of_nat (size (base.filter (fun kv : gostring * driftWorkloadProfile => test kv.2) (lm_profiles (db_map p)))).

Definition LearningWorkloads (p : DriftBaselineProfiler) : Z :=
  count_profiles (fun d => negb (dp_enforcing d)) p.

Definition StuckLearningWorkloads (p : DriftBaselineProfiler) (now : Z) : Z :=
  let learningPeriod := seconds (dc_LearningPeriod (db_config p)) in
  if learningPeriod <=? 0 then 0
  else count_profiles (fun d => negb (dp_enforcing d) && (learningPeriod <? time_Sub now (dp_startedAt d))) p.

Definition ProfileCount (p : DriftBaselineProfiler) : Z := Z.of_nat (size (lm_profiles (db_map p))).
End Drift.

(** * Theorems *)

Lemma map_const_replicate {A B} (c : B) (l : list A) : map (fun _ => c) l = replicate (length l) c.
Proof. induction l; simpl; congruence. Qed.

(** ** The map and its index stay in step *)
Lemma size_nonzero `{Countable K} {A} (m : gmap K A) k x : m !! k = Some x -> size m <> 0%nat.
Proof. intros Hk E%map_size_empty_inv. by rewrite E in Hk. Qed.

Section lru_map_lemmas.
Context {K : Type} `{Countable K} {P : Type}.
Implicit Types (m : lru_map K P).

Definition lm_ok m : Prop := lru_reach (lm_lru m) /\ (dom (view (lm_lru m)) : gset K) = dom (lm_profiles m).

(** Last access of a profile. *)
Definition last_access m (key : K) : option Z := view (lm_lru m) !! key.

Lemma empty_map_ok : lm_ok (empty_map (K:=K) (P:=P)).
Proof. split; [constructor|]. unfold view. simpl. by rewrite fmap_empty. Qed.

Lemma lm_size m : lm_ok m -> Len (lm_lru m) = Z.of_nat (size (lm_profiles m)).
Proof.
  intros [Hr Hd]. unfold Len. rewrite (heap_size _ (reach_ok _ Hr)). do 2 f_equal.
  rewrite <- !size_dom. by rewrite Hd.
Qed.

Lemma lm_present m key : lm_ok m -> is_Some (last_access m key) <-> is_Some (lm_profiles m !! key).
Proof. intros [_ Hd]. unfold last_access. by rewrite <- !elem_of_dom, Hd. Qed.

Lemma lm_index_none m key : lm_ok m -> lm_profiles m !! key = None -> lru_index (lm_lru m) !! key = None.
Proof.
  intros Hm Hn. destruct (lru_index (lm_lru m) !! key) eqn:E; [|done].
  assert (is_Some (lm_profiles m !! key)) as [? ?]; [|congruence]. apply lm_present; [done|].
  unfold last_access, view. rewrite lookup_fmap, E. by eexists.
Qed.

(** [key] was used no later than any other. *)
Definition least_recent m (key : K) : Prop :=
  exists t, last_access m key = Some t /\ forall key' t', last_access m key' = Some t' -> t <= t'.

Lemma evict_ok m :
  lm_ok m ->
  exists m', evictLRULocked m = Ok m' /\ lm_ok m' /\
    ((lm_profiles m = ∅ /\ m' = m) \/
     exists key, least_recent m key /\ is_Some (lm_profiles m !! key) /\
       lm_profiles m' = delete key (lm_profiles m) /\ view (lm_lru m') = delete key (view (lm_lru m))).
Proof.
  intros Hm. unfold evictLRULocked. rewrite (lm_size m Hm).
  destruct (Z.eqb_spec (Z.of_nat (size (lm_profiles m))) 0) as [Hz|Hz].
  - exists m. split_and!; [done..|]. left. split; [|done]. apply map_size_empty_inv. lia.
  - pose proof Hm as [Hr Hd].
    destruct (pop_oldest_ok (lm_lru m) (reach_ok _ Hr)) as (l & key & t & E & _ & Hv & Hk & Hmin).
    { intros Eh. pose proof (lm_size m Hm) as Hs. unfold Len in Hs. rewrite Eh in Hs. simpl in Hs. lia. }
    rewrite E. cbn [mbind result_bind]. eexists. split; [reflexivity|]. split.
    + split; simpl; [by eapply reach_pop|]. rewrite Hv, !dom_delete_L. by rewrite Hd.
    + right. exists key. split_and!; [by exists t | | done | done]. apply (lm_present m); [done|]. by exists t.
Qed.

Lemma insert_new_ok m clock key p :
  lm_ok m -> lm_profiles m !! key = None ->
  exists m', insert_new m clock key p = Ok m' /\ lm_ok m' /\ lm_profiles m' = <[key := p]> (lm_profiles m) /\
    view (lm_lru m') = <[key := clock]> (view (lm_lru m)).
Proof.
  intros Hm Hn. pose proof Hm as [Hr Hd]. unfold insert_new.
  pose proof (lm_index_none m key Hm Hn) as Hi.
  destruct (push_ok (lm_lru m) clock key (reach_ok _ Hr) Hi) as (l & E & _ & Hv).
  rewrite E. cbn [mbind result_bind]. eexists. split; [reflexivity|]. split_and!; [|done|done].
  split; simpl; [by eapply reach_push|]. rewrite Hv, !dom_insert_L. by rewrite Hd.
Qed.

Lemma touch_map_ok m clock key :
  lm_ok m -> exists l, touch (lm_lru m) clock key = Ok l /\ lm_ok (mkLruMap (lm_profiles m) l) /\
    view l = alter (fun _ => clock) key (view (lm_lru m)).
Proof.
  intros [Hr Hd]. destruct (touch_ok (lm_lru m) clock key (reach_ok _ Hr)) as (l & E & _ & Hv).
  exists l. split_and!; [done| |done]. split; simpl; [by eapply reach_touch|]. rewrite Hv. by rewrite dom_alter_L.
Qed.

Lemma set_profile_ok m key p :
  lm_ok m -> is_Some (lm_profiles m !! key) -> lm_ok (mkLruMap (<[key := p]> (lm_profiles m)) (lm_lru m)).
Proof.
  intros [Hr Hd] Hs. split; simpl; [done|]. rewrite dom_insert_L, Hd.
  apply elem_of_dom in Hs. symmetry. by apply subseteq_union_1_L, singleton_subseteq_l.
Qed.

Lemma remove_key_ok m key :
  lm_ok m -> exists m', remove_key m key = Ok m' /\ lm_ok m' /\ lm_profiles m' = delete key (lm_profiles m) /\
    view (lm_lru m') = delete key (view (lm_lru m)).
Proof.
  intros [Hr Hd]. unfold remove_key. destruct (remove_ok (lm_lru m) key (reach_ok _ Hr)) as (l & E & _ & Hv).
  rewrite E. cbn [mbind result_bind]. eexists. split; [reflexivity|]. split_and!; [|done|done].
  split; simpl; [by eapply reach_remove|]. rewrite Hv, !dom_delete_L. by rewrite Hd.
Qed.

(** What is left of the other profiles when [key] is used under a cap. *)
Definition others_kept (max : Z) m m' (key : K) : Prop :=
  forall key', key' <> key ->
    lm_profiles m' !! key' = lm_profiles m !! key' \/
    (lm_profiles m' !! key' = None /\ least_recent m key' /\ lm_profiles m !! key = None /\
     0 < max /\ max <= Z.of_nat (size (lm_profiles m))).

Lemma get_or_create_ok m max clock key new :
  lm_ok m -> (0 < max -> Z.of_nat (size (lm_profiles m)) <= max) ->
  exists m', get_or_create m max clock key new = Ok (m', default new (lm_profiles m !! key)) /\ lm_ok m' /\
    lm_profiles m' !! key = Some (default new (lm_profiles m !! key)) /\ last_access m' key = Some clock /\
    others_kept max m m' key /\ (0 < max -> Z.of_nat (size (lm_profiles m')) <= max).
Proof.
  intros Hm Hs. unfold get_or_create. destruct (lm_profiles m !! key) as [p|] eqn:Ek.
  { destruct (touch_map_ok m clock key Hm) as (l & E & Hm' & Hv). rewrite E. cbn [mbind result_bind].
    eexists. split; [reflexivity|]. split_and!; [done|done| |by left|done].
    unfold last_access. simpl. rewrite Hv, lookup_alter_eq.
    destruct (proj2 (lm_present m key Hm)) as [t Ht]; [by eexists|]. unfold last_access in Ht. by rewrite Ht. }
  destruct ((0 <? max) && (max <=? Z.of_nat (size (lm_profiles m)))) eqn:Ec; zbool.
  - destruct (evict_ok m Hm) as (m1 & E1 & Hm1 & [[He _]|(k & Hl & Hk & Hp1 & Hv1)]).
    { rewrite He, map_size_empty in *. lia. }
    rewrite E1. cbn [mbind result_bind].
    assert (lm_profiles m1 !! key = None) as Hn1 by (rewrite Hp1; by apply lookup_delete_None; right).
    destruct (insert_new_ok m1 clock key new Hm1 Hn1) as (m2 & E2 & Hm2 & Hp2 & Hv2). rewrite E2. cbn [mbind result_bind].
    eexists. split; [reflexivity|]. split_and!; [done| | | |].
    + by rewrite Hp2, lookup_insert_eq.
    + unfold last_access. by rewrite Hv2, lookup_insert_eq.
    + intros k' Hne. rewrite Hp2, Hp1, lookup_insert_ne by done. destruct (decide (k' = k)) as [->|]; [right|left].
      * by rewrite lookup_delete_eq.
      * by rewrite lookup_delete_ne.
    + intros _. rewrite Hp2, map_size_insert_None by done. rewrite Hp1, map_size_delete. destruct Hk as [? ->].
      specialize (Hs ltac:(done)). lia.
  - cbn [mbind result_bind].
    destruct (insert_new_ok m clock key new Hm Ek) as (m2 & E2 & Hm2 & Hp2 & Hv2). rewrite E2. cbn [mbind result_bind].
    eexists. split; [reflexivity|]. split_and!; [done| | | |].
    + by rewrite Hp2, lookup_insert_eq.
    + unfold last_access. by rewrite Hv2, lookup_insert_eq.
    + intros k' Hne. left. by rewrite Hp2, lookup_insert_ne.
    + intros Hpos. rewrite Hp2, map_size_insert_None by done. apply andb_false_iff in Ec. rewrite Z.ltb_ge, Z.leb_gt in Ec. lia.
Qed.

(** [CleanupExpired] keeps exactly the live profiles, in whatever order the
    map is listed. *)
Lemma cleanup_loop_ok expired l m n :
  lm_ok m -> NoDup l.*1 -> (forall key p, (key, p) ∈ l -> lm_profiles m !! key = Some p) ->
  exists m' n', cleanup_loop expired l m n = Ok (m', n') /\ lm_ok m' /\
    n' = n + Z.of_nat (size (lm_profiles m)) - Z.of_nat (size (lm_profiles m')) /\
    forall key, lm_profiles m' !! key =
      match lm_profiles m !! key with
      | Some p => if bool_decide (key ∈ l.*1) && expired p then None else Some p
      | None => None
      end.
Proof.
  revert m n. induction l as [|[k p] l IH]; intros m n Hm Hnd Hl; simpl.
  { exists m, n. split_and!; [done|done|lia|]. intros key. by destruct (lm_profiles m !! key). }
  simpl in Hnd. apply NoDup_cons in Hnd as [Hni Hnd].
  assert (lm_profiles m !! k = Some p) as Hk by (apply Hl; by left).
  destruct (expired p) eqn:Ex.
  - destruct (remove_key_ok m k Hm) as (m1 & -> & Hm1 & Hp1 & _). cbn [mbind result_bind].
    destruct (IH m1 (n + 1) Hm1 Hnd) as (m2 & n2 & -> & Hm2 & En2 & Hp2).
    { intros key q Hq. rewrite Hp1, lookup_delete_ne; [apply Hl; by right|]. intros ->. apply Hni.
      apply list_elem_of_fmap. by exists (key, q). }
    exists m2, n2. split_and!; [done|done| |].
    { rewrite En2, Hp1, map_size_delete, Hk.
      pose proof (size_nonzero _ _ _ Hk). lia. }
    intros key. rewrite Hp2, Hp1.
    destruct (decide (key = k)) as [->|Hne].
    + rewrite lookup_delete_eq, Hk, bool_decide_eq_true_2 by (by left). by rewrite Ex.
    + rewrite lookup_delete_ne by done. destruct (lm_profiles m !! key); [|done].
      assert (key ∈ k :: l.*1 <-> key ∈ l.*1) by (rewrite elem_of_cons; tauto).
      repeat case_bool_decide; tauto.
  - destruct (IH m n Hm Hnd) as (m2 & n2 & -> & Hm2 & En2 & Hp2); [intros; apply Hl; by right|].
    exists m2, n2. split_and!; [done..|]. intros key. rewrite Hp2. destruct (decide (key = k)) as [->|Hne].
    + rewrite Hk, Ex, !andb_false_r. done.
    + destruct (lm_profiles m !! key); [|done].
      assert (key ∈ k :: l.*1 <-> key ∈ l.*1) by (rewrite elem_of_cons; tauto).
      repeat case_bool_decide; tauto.
Qed.

Lemma cleanup_ok order expired m :
  (forall x : gmap K P, order x ≡ₚ map_to_list x) -> lm_ok m ->
  exists m' n, cleanup_expired order expired m = Ok (m', n) /\ lm_ok m' /\
    n = Z.of_nat (size (lm_profiles m)) - Z.of_nat (size (lm_profiles m')) /\
    lm_profiles m' = base.filter (fun kv : K * P => expired kv.2 = false) (lm_profiles m).
Proof.
  intros Ho Hm. unfold cleanup_expired.
  destruct (cleanup_loop_ok expired (order (lm_profiles m)) m 0 Hm) as (m' & n & E & Hm' & En & Hp).
  - rewrite Ho. apply NoDup_fst_map_to_list.
  - intros key p. rewrite Ho. apply elem_of_map_to_list.
  - exists m', n. split_and!; [done..|]. apply map_eq. intros key. rewrite Hp, map_lookup_filter.
    destruct (lm_profiles m !! key) as [p|] eqn:Ek; [|done]. simpl. rewrite bool_decide_eq_true_2.
    + simpl. destruct (expired p) eqn:Ee; [by rewrite option_guard_False | by rewrite option_guard_True].
    + rewrite Ho. apply list_elem_of_fmap. exists (key, p). split; [done|]. by apply elem_of_map_to_list.
Qed.
End lru_map_lemmas.

(** ** Per-process profiles *)
Section profile_manager.
Import ProfileManager.
Context {P : Type} (NewProcessProfile : Z -> gostring -> P) (record_event : Event -> P -> P).
Abbreviation PM := (@ProfileManager P).

Inductive pm_reach : PM -> Prop :=
| pm_new ttl maxPIDs : pm_reach (NewProfileManagerWithContext ttl maxPIDs)
| pm_create pm clock pid comm pm' p :
    pm_reach pm -> GetOrCreate NewProcessProfile pm clock pid comm = Ok (pm', p) -> pm_reach pm'
| pm_record pm clock e pm' :
    pm_reach pm -> RecordEvent NewProcessProfile record_event pm clock e = Ok pm' -> pm_reach pm'
| pm_remove pm pid pm' : pm_reach pm -> Remove pm pid = Ok pm' -> pm_reach pm'
| pm_flush pm : pm_reach pm -> pm_reach (Flush pm)
| pm_cleanup order expired pm pm' n :
    (forall x : gmap Z P, order x ≡ₚ map_to_list x) ->
    pm_reach pm -> CleanupExpired order expired pm = Ok (pm', n) -> pm_reach pm'.

Record pm_ok (pm : PM) : Prop := {
  pm_map_ok : lm_ok (pm_map pm);
  pm_max : 0 < pm_maxPIDs pm;
  pm_bound : Z.of_nat (size (lm_profiles (pm_map pm))) <= pm_maxPIDs pm }.

Lemma create_ok pm clock pid comm :
  pm_ok pm ->
  exists pm', GetOrCreate NewProcessProfile pm clock pid comm =
      Ok (pm', default (NewProcessProfile pid comm) (Get pm pid)) /\
    pm_ok pm' /\ Get pm' pid = Some (default (NewProcessProfile pid comm) (Get pm pid)) /\
    others_kept (pm_maxPIDs pm) (pm_map pm) (pm_map pm') pid /\ pm_maxPIDs pm' = pm_maxPIDs pm.
Proof.
  intros [Hm Hx Hb]. unfold GetOrCreate, Get.
  destruct (get_or_create_ok (pm_map pm) (pm_maxPIDs pm) clock pid (NewProcessProfile pid comm) Hm) as (m' & -> & Hm' & Hk & _ & Ho & Hs);
    [done|]. cbn [mbind result_bind]. eexists. split; [reflexivity|]. split_and!; try done. split; simpl; auto.
Qed.

Lemma record_ok pm clock e :
  pm_ok pm ->
  exists pm', RecordEvent NewProcessProfile record_event pm clock e = Ok pm' /\ pm_ok pm' /\
    Get pm' (ev_PID e) = Some (record_event e (default (NewProcessProfile (ev_PID e) (BytesToString (ev_Comm e))) (Get pm (ev_PID e)))) /\
    others_kept (pm_maxPIDs pm) (pm_map pm) (pm_map pm') (ev_PID e).
Proof.
  intros Hpm. unfold RecordEvent.
  destruct (create_ok pm clock (ev_PID e) (BytesToString (ev_Comm e)) Hpm) as (pm1 & -> & [Hm Hx Hb] & Hg & Ho & _).
  cbn [mbind result_bind]. eexists. split; [reflexivity|]. unfold Get in Hg. split_and!.
  - split; simpl; [by apply set_profile_ok; eauto | done |].
    rewrite map_size_insert, Hg. done.
  - unfold Get at 1. simpl. by rewrite lookup_insert_eq.
  - intros k Hk. simpl. rewrite lookup_insert_ne by done. by apply Ho.
Qed.

Lemma pm_reach_ok pm : pm_reach pm -> pm_ok pm.
Proof.
  induction 1 as [ttl mx|pm clock pid comm pm' p _ IH E|pm clock e pm' _ IH E|pm pid pm' _ IH E|pm _ IH|
                  order expired pm pm' n Ho _ IH E].
  - split; simpl; [apply empty_map_ok| |]; destruct (Z.leb_spec mx 0); try lia; rewrite map_size_empty; lia.
  - destruct (create_ok pm clock pid comm IH) as (? & ? & ? & _). congruence.
  - destruct (record_ok pm clock e IH) as (? & ? & ? & _). congruence.
  - destruct IH as [Hm Hx Hb]. unfold Remove in E. destruct (remove_key_ok (pm_map pm) pid Hm) as (m' & Em & Hm' & Hp & _).
    rewrite Em in E. injection E as <-. split; simpl; [done..|]. rewrite Hp, map_size_delete. unfold id. case_match; lia.
  - destruct IH as [_ Hx _]. split; simpl; [apply empty_map_ok|done|]. rewrite map_size_empty. lia.
  - destruct IH as [Hm Hx Hb]. unfold CleanupExpired in E.
    destruct (cleanup_ok order (expired (pm_ttl pm)) (pm_map pm) Ho Hm) as (m' & n' & Em & Hm' & _ & Hp).
    rewrite Em in E. injection E as <- _. split; simpl; [done..|]. rewrite Hp.
    pose proof (map_filter_subseteq (fun kv : Z * P => expired (pm_ttl pm) kv.2 = false) (lm_profiles (pm_map pm))) as Hsub.
    apply map_subseteq_size in Hsub. lia.
Qed.

(** Per-process profiles under their cap: after any sequence of
    operations the manager holds at most the configured number of profiles;
    recording an event never panics, updates the profile of the event's
    process (a fresh one when it has none), and leaves every other profile
    untouched, except that a process without a profile evicts, when the cap is
    reached, one profile that was used least recently. *)
Theorem profile_manager_lru (pm : PM) (clock : Z) (e : Event) :
  pm_reach pm ->
  Z.of_nat (size (lm_profiles (pm_map pm))) <= pm_maxPIDs pm /\
  exists pm', RecordEvent NewProcessProfile record_event pm clock e = Ok pm' /\ pm_reach pm' /\
    Get pm' (ev_PID e) =
      Some (record_event e (default (NewProcessProfile (ev_PID e) (BytesToString (ev_Comm e))) (Get pm (ev_PID e)))) /\
    forall pid, pid <> ev_PID e ->
      Get pm' pid = Get pm pid \/
      (Get pm' pid = None /\ least_recent (pm_map pm) pid /\ Get pm (ev_PID e) = None /\
       Z.of_nat (size (lm_profiles (pm_map pm))) = pm_maxPIDs pm).
Proof.
  intros Hr. pose proof (pm_reach_ok pm Hr) as Hpm. split; [apply Hpm|].
  destruct (record_ok pm clock e Hpm) as (pm' & E & _ & Hg & Ho). exists pm'. split_and!; [done| |done|].
  - by eapply pm_record.
  - intros pid Hne. destruct (Ho pid Hne) as [?|(? & ? & ? & ? & ?)]; [by left|]. right.
    split_and!; [done..|]. pose proof (pm_bound _ Hpm). lia.
Qed.
End profile_manager.

(** ** Learning from a history

    The observations of one workload since its profile was created, with their
    times; [done elapsed samples] tells whether learning is complete. What is
    learned: everything up to and including the first observation at which it
    is. *)
Section learning.
Context {A : Type} (done : Z -> Z -> bool).

Fixpoint learn_until (start n : Z) (h : list (Z * A)) : list A * bool :=
  match h with
  | [] => ([], false)
  | (now, x) :: h =>
      if done (time_Sub now start) (n + 1) then ([x], true)
      else let '(l, b) := learn_until start (n + 1) h in (x :: l, b)
  end.

Definition first_seen (h : list (Z * A)) : Z := match h with (t, _) :: _ => t | [] => 0 end.

Lemma learn_snoc start n h now x :
  learn_until start n (h ++ [(now, x)]) =
  let '(l, b) := learn_until start n h in
  if b then (l, true)
  else (l ++ [x], done (time_Sub now start) (n + Z.of_nat (length h) + 1)).
Proof.
  revert n. induction h as [|[t g] h IH]; intros n; simpl.
  - rewrite Z.add_0_r. by destruct (done (time_Sub now start) (n + 1)).
  - destruct (done (time_Sub t start) (n + 1)); [done|]. rewrite IH.
    destruct (learn_until start (n + 1) h) as [l []]; [done|]. simpl. do 2 f_equal. lia.
Qed.

Lemma first_seen_snoc h x : h <> [] -> first_seen (h ++ [x]) = first_seen h.
Proof. by destruct h as [|[]]. Qed.
End learning.

Lemma learn_until_ext {A} (d d' : Z -> Z -> bool) start n (h : list (Z * A)) :
  (forall elapsed k, d' elapsed k = d elapsed k) -> learn_until d' start n h = learn_until d start n h.
Proof.
  intros Hd. revert n. induction h as [|[t g] h IH]; intros n; simpl; [done|]. by rewrite Hd, IH.
Qed.

(** ** The drift baseline *)
Section drift.
Import Drift.

(** The path scan keeps the segments the aggregator keeps. *)
Lemma scan_path_keep s seg kept :
  (length kept < 2)%nat -> scan_path seg s kept = keep_segments (split_slash seg s) kept.
Proof.
  revert seg kept. induction s as [|c s IH]; intros seg kept Hk; simpl.
  - rewrite bool_decide_decide. by destruct (decide (seg = ""%string)); [|case_bool_decide].
  - destruct (decide (c = "/"%char)) as [->|]; simpl; [|by apply IH].
    rewrite bool_decide_decide. destruct (decide (seg = ""%string)); [by apply IH|].
    unfold driftPathPrefixMaxDepth, pathPrefixMaxDepth, isNumericSegment.
    case_bool_decide as Hd; [done|]. apply IH. lia.
Qed.

Lemma normalizeDriftPathPrefix_aggregator path : normalizeDriftPathPrefix path = normalizePathPrefix path.
Proof.
  unfold normalizeDriftPathPrefix, normalizePathPrefix. rewrite bool_decide_decide.
  destruct (decide _); [done|]. rewrite scan_path_keep by (simpl; lia). done.
Qed.

(** What the profiler learns from a history. *)
Definition learned (p : DriftBaselineProfiler) (h : list (Z * gostring)) : list gostring :=
  (learn_until (learning_done p) (first_seen h) 0 h).1.
Definition enforcing (p : DriftBaselineProfiler) (h : list (Z * gostring)) : bool :=
  (learn_until (learning_done p) (first_seen h) 0 h).2.

(** A profile that stands for the history [h]. *)
Definition represents (p : DriftBaselineProfiler) (h : list (Z * gostring)) (d : driftWorkloadProfile) : Prop :=
  h <> [] /\ dp_startedAt d = first_seen h /\ dp_enforcing d = enforcing p h /\
  (forall sig, sig ∈ dp_signatures d <-> sig ∈ learned p h) /\
  (enforcing p h = false -> dp_sampleCount d = Z.of_nat (length h)).

Lemma represents_first p now sig :
  represents p [(now, sig)] (observe_profile p now sig (fresh_drift now)).1.
Proof.
  unfold represents, observe_profile, learned, enforcing, fresh_drift. cbn [dp_enforcing fst dp_startedAt dp_signatures dp_sampleCount first_seen learn_until].
  rewrite Z.add_0_l. destruct (learning_done p (time_Sub now now) 1); (split_and!; [done..| |done]);
    intros s; simpl; rewrite elem_of_union, elem_of_singleton, list_elem_of_singleton, elem_of_empty; tauto.
Qed.

Lemma represents_next p h d now sig last :
  represents p h d ->
  let d' := seen_drift last d in
  represents p (h ++ [(now, sig)]) (observe_profile p now sig d').1 /\
  (observe_profile p now sig d').2 = enforcing p h && negb (bool_decide (sig ∈ learned p h)).
Proof.
  intros (Hne & Hst & Henf & Hsig & Hcnt) d'.
  pose proof (first_seen_snoc h (now, sig) Hne) as Ef.
  unfold represents, learned, enforcing in *. rewrite Ef, learn_snoc.
  destruct (learn_until (learning_done p) (first_seen h) 0 h) as [l b]. simpl in *. unfold observe_profile, d'. simpl. rewrite Henf.
  destruct b; simpl.
  - split; [|f_equal; by apply bool_decide_ext]. split_and!; [|done..]. by destruct h.
  - split; [|done]. rewrite Hst, (Hcnt eq_refl), Z.add_0_l. split_and!; [by destruct h|done|done| |].
    + intros s. rewrite elem_of_union, elem_of_singleton, Hsig, elem_of_app, list_elem_of_singleton. tauto.
    + intros _. rewrite length_app. simpl. lia.
Qed.

(** A profiler with the history of every workload that has a profile. *)
Definition next_history (p p' : DriftBaselineProfiler) (H : gmap gostring (list (Z * gostring)))
    (now : Z) (ruleID : gostring) (e : Event) : gmap gostring (list (Z * gostring)) :=
  base.filter (fun kh : gostring * list (Z * gostring) => is_Some (lm_profiles (db_map p') !! kh.1))
    (<[obs_key p e := default [] (H !! obs_key p e) ++ [(now, obs_sig ruleID e)]]> H).

Inductive drift_run (cfg : DriftBaselineConfig) : DriftBaselineProfiler -> gmap gostring (list (Z * gostring)) -> Prop :=
| drift_new : drift_run cfg (NewDriftBaselineProfiler cfg) ∅
| drift_observe p H now clock ruleID e p' alert :
    drift_run cfg p H -> Observe p now clock ruleID e = Ok (p', alert) ->
    drift_run cfg p' (next_history p p' H now ruleID e).

Definition same_settings (p p' : DriftBaselineProfiler) : Prop :=
  db_config p' = db_config p /\ db_maxWorkloads p' = db_maxWorkloads p /\ db_enforceDeadline p' = db_enforceDeadline p.

Lemma learning_done_settings p p' elapsed n :
  same_settings p p' -> learning_done p' elapsed n = learning_done p elapsed n.
Proof. unfold learning_done. by intros (-> & _ & ->). Qed.

Lemma represents_settings p p' h d : same_settings p p' -> represents p' h d <-> represents p h d.
Proof.
  intros Hs. unfold represents, learned, enforcing.
  rewrite (learn_until_ext (learning_done p) (learning_done p')); [done|]. intros. by apply learning_done_settings.
Qed.

Lemma evictIfOver_get p clock key new :
  lm_profiles (db_map p) !! key = None ->
  (p1 ← evictIfOverCapacityLocked p; m ← insert_new (db_map p1) clock key new; Ok (m, new) : go _) =
  get_or_create (db_map p) (db_maxWorkloads p) clock key new.
Proof.
  intros Hn. unfold get_or_create, evictIfOverCapacityLocked. rewrite Hn.
  destruct (Z.leb_spec (db_maxWorkloads p) 0), (Z.ltb_spec 0 (db_maxWorkloads p)); try lia; simpl; [done|].
  destruct (Z.ltb_spec (Z.of_nat (size (lm_profiles (db_map p)))) (db_maxWorkloads p)),
    (Z.leb_spec (db_maxWorkloads p) (Z.of_nat (size (lm_profiles (db_map p))))); try lia; simpl; [done|].
  by destruct (evictLRULocked (db_map p)).
Qed.

(** One enabled observation. *)
Lemma Observe_ok p now clock ruleID e :
  dc_Enabled (db_config p) = true -> lm_ok (db_map p) ->
  (0 < db_maxWorkloads p -> ProfileCount p <= db_maxWorkloads p) ->
  exists p', Observe p now clock ruleID e =
      Ok (p', (observe_profile p now (obs_sig ruleID e)
                 (from_option (seen_drift now) (fresh_drift now) (lm_profiles (db_map p) !! obs_key p e))).2) /\
    same_settings p p' /\ lm_ok (db_map p') /\ (0 < db_maxWorkloads p -> ProfileCount p' <= db_maxWorkloads p) /\
    lm_profiles (db_map p') !! obs_key p e =
      Some (observe_profile p now (obs_sig ruleID e)
              (from_option (seen_drift now) (fresh_drift now) (lm_profiles (db_map p) !! obs_key p e))).1 /\
    others_kept (db_maxWorkloads p) (db_map p) (db_map p') (obs_key p e).
Proof.
  intros He Hm Hb. unfold Observe. rewrite He. simpl negb. cbn iota. set (key := obs_key p e).
  destruct (get_or_create_ok (db_map p) (db_maxWorkloads p) clock key (fresh_drift now) Hm) as (m' & E & Hm' & Hk & _ & Ho & Hs);
    [done|].
  assert (exists m1, (match lm_profiles (db_map p) !! key with
     | None => p1 ← evictIfOverCapacityLocked p; m ← insert_new (db_map p1) clock key (fresh_drift now); Ok (m, fresh_drift now)
     | Some prof => l ← touch (lm_lru (db_map p)) clock key; Ok (mkLruMap (lm_profiles (db_map p)) l, seen_drift now prof)
     end : go _) = Ok (m1, from_option (seen_drift now) (fresh_drift now) (lm_profiles (db_map p) !! key)) /\ m1 = m') as (m1 & E1 & ->).
  { destruct (lm_profiles (db_map p) !! key) as [d|] eqn:Ek.
    - unfold get_or_create in E. rewrite Ek in E. destruct (touch (lm_lru (db_map p)) clock key); [|done|done].
      simpl in *. injection E as <-. eauto.
    - rewrite evictIfOver_get, E by done. eauto. }
  rewrite E1.
  cbn [mbind result_bind].
  destruct (observe_profile p now (obs_sig ruleID e) _) as [d alert]. simpl.
  eexists. split; [reflexivity|]. split_and!; simpl; [done| | | |].
  - by apply set_profile_ok; eauto.
  - intros Hp. unfold ProfileCount. simpl. rewrite map_size_insert, Hk. by apply Hs.
  - by rewrite lookup_insert_eq.
  - intros k Hne. simpl. rewrite lookup_insert_ne by done. by apply Ho.
Qed.

Lemma same_settings_trans p1 p2 p3 : same_settings p1 p2 -> same_settings p2 p3 -> same_settings p1 p3.
Proof. intros (? & ? & ?) (? & ? & ?). split_and!; congruence. Qed.

(** Every profile stands for its history, and there is no other history. *)
Definition histories_ok (p : DriftBaselineProfiler) (H : gmap gostring (list (Z * gostring))) : Prop :=
  forall key, option_Forall2 (represents p) (H !! key) (lm_profiles (db_map p) !! key).

Record drift_ok (cfg : DriftBaselineConfig) (p : DriftBaselineProfiler) (H : gmap gostring (list (Z * gostring))) : Prop := {
  do_settings : same_settings (NewDriftBaselineProfiler cfg) p;
  do_map : lm_ok (db_map p);
  do_bound : 0 < db_maxWorkloads p -> ProfileCount p <= db_maxWorkloads p;
  do_hist : histories_ok p H }.

Lemma next_history_ok p p' H now ruleID e :
  histories_ok p H -> same_settings p p' ->
  lm_profiles (db_map p') !! obs_key p e =
    Some (observe_profile p now (obs_sig ruleID e)
            (from_option (seen_drift now) (fresh_drift now) (lm_profiles (db_map p) !! obs_key p e))).1 ->
  others_kept (db_maxWorkloads p) (db_map p) (db_map p') (obs_key p e) ->
  histories_ok p' (next_history p p' H now ruleID e).
Proof.
  intros Hh Hs Hk Ho key. unfold next_history. rewrite map_lookup_filter.
  destruct (decide (key = obs_key p e)) as [->|Hne].
  - rewrite lookup_insert_eq, Hk. simpl. rewrite option_guard_True by (rewrite Hk; eauto).
    constructor. rewrite (represents_settings p p') by done. specialize (Hh (obs_key p e)).
    destruct Hh as [h d Hr|]; simpl; [|apply represents_first]. by apply represents_next.
  - rewrite lookup_insert_ne by done. specialize (Hh key).
    destruct (Ho key Hne) as [E|(E & _)]; rewrite E.
    + destruct Hh as [h d Hr|]; simpl; [|constructor]. rewrite option_guard_True by (rewrite E; eauto).
      constructor. by rewrite (represents_settings p p').
    + destruct (H !! key); simpl; [|constructor]. rewrite option_guard_False; [constructor|].
      simpl. rewrite E. by intros [? ?].
Qed.

Lemma drift_run_ok cfg p H : dc_Enabled cfg = true -> drift_run cfg p H -> drift_ok cfg p H.
Proof.
  intros He. induction 1 as [|p H now clock ruleID e p' alert _ IH E].
  - split; [done|apply empty_map_ok| |].
    + unfold ProfileCount. simpl. rewrite map_size_empty. lia.
    + intros key. simpl. rewrite !lookup_empty. constructor.
  - destruct IH as [Hs Hm Hb Hh].
    assert (dc_Enabled (db_config p) = true) as He' by by rewrite (proj1 Hs).
    destruct (Observe_ok p now clock ruleID e He' Hm Hb) as (p1 & E1 & Hs1 & Hm1 & Hb1 & Hk1 & Ho1).
    rewrite E1 in E. injection E as -> _. split; [by eapply same_settings_trans | done | | by apply next_history_ok].
    rewrite (proj1 (proj2 Hs1)). done.
Qed.

(** The drift baseline. With the profiler enabled, after any sequence
    of observations: at most the configured number of workload profiles is
    held; an observation never panics; and it raises an alert exactly when the
    workload's learning is over and its signature was not among those observed
    up to the end of learning. The workload's history is that since its
    profile was created, so a workload that was evicted learns anew. *)
Theorem drift_verdict (cfg : DriftBaselineConfig) (p : DriftBaselineProfiler)
    (H : gmap gostring (list (Z * gostring))) (now clock : Z) (ruleID : gostring) (e : Event) :
  dc_Enabled cfg = true -> drift_run cfg p H ->
  (0 < db_maxWorkloads p -> ProfileCount p <= db_maxWorkloads p) /\
  exists p', Observe p now clock ruleID e =
    Ok (p', match H !! obs_key p e with
            | Some h => enforcing p h && negb (bool_decide (obs_sig ruleID e ∈ learned p h))
            | None => false
            end).
Proof.
  intros He Hr. destruct (drift_run_ok cfg p H He Hr) as [Hs Hm Hb Hh]. split; [done|].
  assert (dc_Enabled (db_config p) = true) as He' by by rewrite (proj1 Hs).
  destruct (Observe_ok p now clock ruleID e He' Hm Hb) as (p1 & E1 & _). exists p1. rewrite E1. do 2 f_equal.
  specialize (Hh (obs_key p e)). destruct Hh as [h d Hd|]; simpl; [|done].
  by destruct (represents_next p h d now (obs_sig ruleID e) now Hd) as [_ ->].
Qed.

Lemma learn_deadline p start n (h : list (Z * gostring)) :
  0 < db_enforceDeadline p -> (exists t sig, (t, sig) ∈ h /\ db_enforceDeadline p <= time_Sub t start) ->
  (learn_until (learning_done p) start n h).2 = true.
Proof.
  intros Hd. revert n. induction h as [|[t g] h IH]; intros n (t' & sig & Hin & Ht); [by apply not_elem_of_nil in Hin|].
  simpl. destruct (learning_done p (time_Sub t start) (n + 1)) eqn:El; [done|].
  apply elem_of_cons in Hin as [[= -> ->]|Hin].
  - exfalso. unfold learning_done in El. apply orb_false_iff in El as [_ El].
    apply andb_false_iff in El. rewrite Z.ltb_ge, Z.leb_gt in El. lia.
  - specialize (IH (n + 1)). destruct (learn_until (learning_done p) start (n + 1) h) as [l b]. simpl in *. apply IH. eauto.
Qed.

(** No permanent blind spot: with a positive enforcement deadline, a
    workload whose profile has seen an observation at or after its deadline
    enforces, however few samples it has, and from then on every observation
    of a signature outside what it learned raises an alert, as long as the
    profile is not evicted. *)
Theorem drift_deadline (cfg : DriftBaselineConfig) (p : DriftBaselineProfiler)
    (H : gmap gostring (list (Z * gostring))) (h : list (Z * gostring)) (t : Z) (sig : gostring)
    (now clock : Z) (ruleID : gostring) (e : Event) :
  dc_Enabled cfg = true -> drift_run cfg p H -> 0 < db_enforceDeadline p ->
  H !! obs_key p e = Some h -> (t, sig) ∈ h -> db_enforceDeadline p <= time_Sub t (first_seen h) ->
  obs_sig ruleID e ∉ learned p h ->
  enforcing p h = true /\ exists p', Observe p now clock ruleID e = Ok (p', true).
Proof.
  intros He Hr Hd Hh Hin Ht Hs.
  assert (enforcing p h = true) as Henf by (apply learn_deadline; eauto). split; [done|].
  destruct (drift_run_ok cfg p H He Hr) as [Hset Hm Hb Hist].
  assert (dc_Enabled (db_config p) = true) as He' by by rewrite (proj1 Hset).
  destruct (Observe_ok p now clock ruleID e He' Hm Hb) as (p1 & -> & _). exists p1. do 2 f_equal.
  specialize (Hist (obs_key p e)). rewrite Hh in Hist. inversion Hist as [? d Hd' E1 E2|]; subst. simpl.
  destruct (represents_next p h d now (obs_sig ruleID e) now Hd') as [_ ->]. rewrite Henf. simpl.
  by rewrite bool_decide_eq_false_2.
Qed.
End drift.

(** ** Per-workload profiles *)
Section workload_manager.
Import WorkloadManager.
Context {P : Type} (NewProcessProfileForWorkload : WorkloadKey -> P) (record_event : Event -> P -> P).
Abbreviation WPM := (@WorkloadProfileManager P).
Implicit Types (wpm : WPM) (m : lru_map WorkloadKey P) (key : WorkloadKey).

Lemma head_access_ok m :
  lm_ok m -> exists o, head_access m = Ok o /\
    match o with
    | None => lm_profiles m = ∅
    | Some t => (exists key, last_access m key = Some t) /\ forall key t', last_access m key = Some t' -> t <= t'
    end.
Proof.
  intros Hm. pose proof Hm as [Hr _]. pose proof (reach_ok _ Hr) as Hl. unfold head_access. rewrite (lm_size m Hm).
  destruct (Z.ltb_spec 0 (Z.of_nat (size (lm_profiles m)))) as [Hz|Hz].
  - pose proof (lm_size m Hm) as Hs. unfold Len in Hs.
    destruct (lru_heap (lm_lru m)) as [|p h] eqn:Eh; [simpl in Hs; lia|].
    assert (lru_heap (lm_lru m) !! 0%nat = Some p) as H0 by by rewrite Eh.
    destruct (heap_data (lm_lru m) p (ok_indexed _ Hl)) as (e & He & Hd & _); [rewrite Eh; by left|].
    simpl. rewrite (deref_ok _ _ _ He). simpl. eexists. split; [reflexivity|]. split.
    + exists (le_key e). apply (view_lookup _ _ _ Hl). exists p. split; [rewrite Eh; by left|done].
    + intros key t' (q & [i Hi]%list_elem_of_lookup & Hq)%(view_lookup _ _ _ Hl).
      pose proof (tm_lookup _ 0 p _ H0 Hd) as E0. pose proof (tm_lookup _ i q _ Hi Hq) as Ei.
      simpl in E0, Ei. rewrite <- E0, <- Ei. eapply ordered_root; [apply (ok_ordered _ Hl)|]. by eapply lookup_lt_Some.
  - eexists. split; [reflexivity|]. apply map_size_empty_inv. lia.
Qed.

Lemma oldest_shard_ok i shards best :
  Forall lm_ok shards ->
  exists o, oldest_shard (P:=P) i shards best = Ok o /\
    (forall j m t, shards !! j = Some m -> head_access m = Ok (Some t) -> exists k b, o = Some (k, b) /\ b <= t) /\
    (forall k b, best = Some (k, b) -> exists k' b', o = Some (k', b') /\ b' <= b) /\
    (forall k b, o = Some (k, b) -> best = Some (k, b) \/
       exists j m, k = (i + j)%nat /\ shards !! j = Some m /\ head_access m = Ok (Some b)).
Proof.
  intros Hf. revert i best. induction Hf as [|m shards Hm Hf IH]; intros i best; simpl.
  { exists best. split_and!; [done | done | eauto with lia | auto]. }
  destruct (head_access_ok m Hm) as (t & Et & _). rewrite Et. cbn [mbind result_bind].
  set (best' := match t with None => _ | Some t => _ end).
  destruct (IH (S i) best') as (o & Eo & H1 & H2 & H3). exists o. split_and!; [done| | |].
  - intros [|j] m' t' Hj Ht'; simpl in Hj; [|by eapply H1]. simplify_eq. rewrite Et in Ht'. injection Ht' as ->.
    unfold best' in H2. destruct best as [[k b]|]; [|by destruct (H2 _ _ eq_refl) as (? & ? & ? & ?); eauto].
    unfold time_Before in H2. destruct (Z.ltb_spec t' b); destruct (H2 _ _ eq_refl) as (k' & b' & ? & ?);
      exists k', b'; (split; [done|lia]).
  - intros k b ->. unfold best' in H2. destruct t as [t|]; [|eauto]. unfold time_Before in H2.
    destruct (Z.ltb_spec t b); destruct (H2 _ _ eq_refl) as (k' & b' & ? & ?); exists k', b'; (split; [done|lia]).
  - intros k b Hk. destruct (H3 k b Hk) as [Hb|(j & m' & -> & Hj & Hh)].
    + unfold best' in Hb. destruct t as [t|]; [|by left].
      assert (Some (i, t) = Some (k, b) -> exists j m0, k = (i + j)%nat /\ (m :: shards) !! j = Some m0 /\ head_access m0 = Ok (Some b)) as Hnew.
      { intros [= <- <-]. exists 0%nat, m. split_and!; [lia|done|done]. }
      destruct best as [[k0 b0]|]; [|by right; apply Hnew]. destruct (time_Before t b0); [by right; apply Hnew | by left].
    + right. exists (S j), m'. split_and!; [lia|done|done].
Qed.

Record wpm_ok wpm : Prop := {
  wo_len : length (wpm_shards wpm) = 16%nat;
  wo_maps : Forall lm_ok (wpm_shards wpm);
  wo_keys : forall i m key, wpm_shards wpm !! i = Some m -> is_Some (lm_profiles m !! key) -> shardFor key = i;
  wo_count : wpm_entryCount wpm = Len_ wpm }.

Lemma shardFor_lt key : (shardFor key < 16)%nat.
Proof.
  unfold shardFor, workloadShardCount. pose proof (Z.mod_pos_bound (hashWorkloadKey key) 16 ltac:(lia)). lia.
Qed.

Lemma shard_lookup wpm i : wpm_ok wpm -> (i < 16)%nat -> wpm_shards wpm !! i = Some (shard wpm i).
Proof.
  intros Hw Hi. unfold shard. destruct (wpm_shards wpm !! i) eqn:E; [done|].
  apply lookup_ge_None in E. rewrite (wo_len _ Hw) in E. lia.
Qed.

Lemma shard_ok wpm i : wpm_ok wpm -> (i < 16)%nat -> lm_ok (shard wpm i).
Proof. intros Hw Hi. eapply Forall_lookup_1; [apply (wo_maps _ Hw)|]. by apply shard_lookup. Qed.

Lemma Len_insert wpm i m count :
  (i < length (wpm_shards wpm))%nat ->
  Len_ (set_shard wpm i m count) = Len_ wpm - Z.of_nat (size (lm_profiles (shard wpm i))) + Z.of_nat (size (lm_profiles m)).
Proof.
  unfold Len_, set_shard, shard. simpl. generalize (wpm_shards wpm). intros l. revert i.
  induction l as [|x l IH]; intros [|i] Hi; simpl in *; [lia..| |]; [lia|]. rewrite IH by lia. lia.
Qed.

Lemma set_shard_ok wpm i m count :
  wpm_ok wpm -> (i < 16)%nat -> lm_ok m -> (forall key, is_Some (lm_profiles m !! key) -> shardFor key = i) ->
  count = wpm_entryCount wpm - Z.of_nat (size (lm_profiles (shard wpm i))) + Z.of_nat (size (lm_profiles m)) ->
  wpm_ok (set_shard wpm i m count).
Proof.
  intros Hw Hi Hm Hk Hc. split.
  - simpl. rewrite length_insert. apply Hw.
  - simpl. apply Forall_insert; [apply Hw|done].
  - simpl. intros j m' key [(-> & <- & _)|(Hne & Hj)]%list_lookup_insert_Some Hs; [by apply Hk | by eapply (wo_keys _ Hw)].
  - rewrite Len_insert by (by rewrite (wo_len _ Hw)). simpl. rewrite Hc, (wo_count _ Hw). done.
Qed.

Lemma GetByKey_set wpm i m count key :
  wpm_ok wpm -> (i < 16)%nat ->
  GetByKey (set_shard wpm i m count) key = if decide (shardFor key = i) then lm_profiles m !! key else GetByKey wpm key.
Proof.
  intros Hw Hi. unfold GetByKey, shard, set_shard. simpl. case_decide as Hs.
  - subst i. rewrite list_lookup_insert_eq by (by rewrite (wo_len _ Hw)). done.
  - by rewrite list_lookup_insert_ne.
Qed.

(** Last access of a workload, in its shard. *)
Definition wlast wpm key : option Z := last_access (shard wpm (shardFor key)) key.

(** [key] was used no later than any other workload. *)
Definition oldest wpm key : Prop :=
  exists t, wlast wpm key = Some t /\ forall key' t', wlast wpm key' = Some t' -> t <= t'.

Lemma wlast_tracked wpm key : wpm_ok wpm -> is_Some (wlast wpm key) <-> is_Some (GetByKey wpm key).
Proof. intros Hw. apply lm_present, shard_ok; [done|apply shardFor_lt]. Qed.

Lemma Len_pos wpm : 0 < Len_ wpm -> exists i m, wpm_shards wpm !! i = Some m /\ lm_profiles m <> ∅.
Proof.
  unfold Len_. induction (wpm_shards wpm) as [|m l IH]; simpl; [lia|]. intros Hp.
  destruct (decide (size (lm_profiles m) = 0)%nat) as [E|E].
  - destruct IH as (i & m' & Hi & Hm'); [lia|]. by exists (S i), m'.
  - exists 0%nat, m. split; [done|]. intros Em. rewrite Em, map_size_empty in E. done.
Qed.

(** Popping a shard removes the profile its head stands for. *)
Lemma pop_shard_ok m t :
  lm_ok m -> head_access m = Ok (Some t) ->
  exists l key, pop_oldest (lm_lru m) = Ok (l, key) /\ lm_ok (mkLruMap (delete key (lm_profiles m)) l) /\
    last_access m key = Some t /\ is_Some (lm_profiles m !! key) /\
    Z.of_nat (size (delete key (lm_profiles m))) = Z.of_nat (size (lm_profiles m)) - 1.
Proof.
  intros Hm Hh. destruct (head_access_ok m Hm) as (o & Eo & Ho). rewrite Hh in Eo. injection Eo as <-.
  destruct Ho as [[k1 Hk1] Hmin]. pose proof Hm as [Hr Hdom].
  assert (is_Some (lm_profiles m !! k1)) as [x1 Hx1] by (apply (lm_present _ _ Hm); by eexists).
  destruct (pop_oldest_ok (lm_lru m) (reach_ok _ Hr)) as (l & key & t1 & Ep & _ & Hv & Hkey & Hmin1).
  { intros Eh. pose proof (lm_size _ Hm) as Hs. unfold Len in Hs. rewrite Eh in Hs. simpl in Hs.
    pose proof (size_nonzero _ _ _ Hx1). lia. }
  assert (t1 = t) as -> by (apply Z.le_antisymm; [by eapply Hmin1 | by eapply Hmin]).
  assert (is_Some (lm_profiles m !! key)) as [x Hx] by (apply (lm_present _ _ Hm); by exists t).
  exists l, key. split_and!; [done| |done|by exists x|].
  - split; simpl; [by eapply reach_pop|]. rewrite Hv, !dom_delete_L. by rewrite Hdom.
  - rewrite map_size_delete, Hx. pose proof (size_nonzero _ _ _ Hx). lia.
Qed.

(** The globally oldest profile goes, whatever key is asked for. *)
Lemma evictIfOverCapacity_ok wpm :
  wpm_ok wpm -> 0 < wpm_maxKeys wpm <= wpm_entryCount wpm ->
  exists wpm' key, evictIfOverCapacity wpm = Ok wpm' /\ wpm_ok wpm' /\ oldest wpm key /\ is_Some (GetByKey wpm key) /\
    (forall k, GetByKey wpm' k = if decide (k = key) then None else GetByKey wpm k) /\
    wpm_entryCount wpm' = wpm_entryCount wpm - 1 /\ wpm_maxKeys wpm' = wpm_maxKeys wpm.
Proof.
  intros Hw Hc. unfold evictIfOverCapacity.
  destruct (Z.leb_spec (wpm_maxKeys wpm) 0); [lia|]. destruct (Z.ltb_spec (wpm_entryCount wpm) (wpm_maxKeys wpm)); [lia|].
  simpl. destruct (oldest_shard_ok 0 (wpm_shards wpm) None (wo_maps _ Hw)) as (o & -> & H1 & _ & H3). cbn [mbind result_bind].
  destruct (Len_pos wpm) as (i0 & m0 & Hi0 & Hm0); [rewrite <- (wo_count _ Hw); lia|].
  destruct (head_access_ok m0) as ([t0|] & Et0 & Ht0); [by eapply Forall_lookup_1; [apply (wo_maps _ Hw)|]| |done].
  destruct (H1 i0 m0 t0 Hi0 Et0) as (i & t & -> & _). destruct (H3 i t eq_refl) as [|(j & m & -> & Hj & Hh)]; [done|].
  rewrite Nat.add_0_l. assert (j < 16)%nat as Hlt by (rewrite <- (wo_len _ Hw); by eapply lookup_lt_Some).
  assert (m = shard wpm j) as -> by (pose proof (shard_lookup wpm j Hw Hlt); congruence).
  pose proof (shard_ok wpm j Hw Hlt) as Hm. rewrite Hh. cbn [mbind result_bind]. rewrite bool_decide_eq_true_2 by done.
  destruct (pop_shard_ok (shard wpm j) t Hm Hh) as (l & key & Ep & Hml & Hkey & Hpk & Hsz).
  rewrite Ep. cbn [mbind result_bind].
  assert (shardFor key = j) as Hsk by (eapply (wo_keys _ Hw); [by apply shard_lookup|done]).
  eexists _, key. split; [reflexivity|]. split_and!.
  - apply set_shard_ok; [done|done|done| |simpl in *; lia].
    intros k [x Hx]. simpl in Hx. apply lookup_delete_Some in Hx as [_ Hx].
    eapply (wo_keys _ Hw); [by apply shard_lookup|by eexists].
  - exists t. unfold wlast. rewrite Hsk. split; [done|]. intros k' t' Ht'.
    pose proof (shard_ok wpm (shardFor k') Hw (shardFor_lt k')) as Hm'.
    destruct (head_access_ok (shard wpm (shardFor k')) Hm') as ([t2|] & Et2 & Ht2).
    + destruct (H1 (shardFor k') _ t2 (shard_lookup _ _ Hw (shardFor_lt k')) Et2) as (? & ? & [= <- <-] & ?).
      destruct Ht2 as [_ Hm2]. specialize (Hm2 _ _ Ht'). lia.
    + assert (is_Some (lm_profiles (shard wpm (shardFor k')) !! k')) as [x Hx] by (apply (lm_present _ _ Hm'); by eexists).
      by rewrite Ht2 in Hx.
  - unfold GetByKey. by rewrite Hsk.
  - intros k. rewrite GetByKey_set by done. simpl. case_decide as Hk1'; case_decide as Hk2; subst.
    + by rewrite lookup_delete_eq.
    + rewrite lookup_delete_ne by done. unfold GetByKey. by rewrite Hk1'.
    + congruence.
    + done.
  - done.
  - done.
Qed.

(** After the eviction: lookup or creation in the shard of the key. *)
Lemma lookup_or_create_ok wpm clock key :
  wpm_ok wpm ->
  let i := shardFor key in
  let sh := shard wpm i in
  exists wpm', (match lm_profiles sh !! key with
    | Some p => l ← touch (lm_lru sh) clock key;
        Ok (set_shard wpm i (mkLruMap (lm_profiles sh) l) (wpm_entryCount wpm), p)
    | None => sh ← insert_new sh clock key (NewProcessProfileForWorkload key);
        Ok (set_shard wpm i sh (wpm_entryCount wpm + 1), NewProcessProfileForWorkload key)
    end : go (WPM * P)) = Ok (wpm', default (NewProcessProfileForWorkload key) (GetByKey wpm key)) /\ wpm_ok wpm' /\
    GetByKey wpm' key = Some (default (NewProcessProfileForWorkload key) (GetByKey wpm key)) /\
    (forall k, k <> key -> GetByKey wpm' k = GetByKey wpm k) /\
    wpm_entryCount wpm <= wpm_entryCount wpm' <= wpm_entryCount wpm + 1 /\ wpm_maxKeys wpm' = wpm_maxKeys wpm.
Proof.
  intros Hw i sh. pose proof (shardFor_lt key) as Hlt. pose proof (shard_ok wpm i Hw Hlt) as Hm. fold sh in Hm.
  unfold GetByKey at 1 3. fold i. fold sh. destruct (lm_profiles sh !! key) as [p|] eqn:Ek.
  - destruct (touch_map_ok sh clock key Hm) as (l & -> & Hml & _). cbn [mbind result_bind].
    eexists. split; [reflexivity|]. split_and!; simpl; [| | |lia|lia|done].
    + apply set_shard_ok; [done|done|done| |simpl; fold sh; lia]. simpl. intros k Hk.
      eapply (wo_keys _ Hw); [by apply shard_lookup|done].
    + rewrite GetByKey_set by done. by rewrite decide_True.
    + intros k Hk. rewrite GetByKey_set by done. case_decide as E; [|done]. simpl. unfold GetByKey. by rewrite E.
  - destruct (insert_new_ok sh clock key (NewProcessProfileForWorkload key) Hm Ek) as (m' & -> & Hm' & Hp & _).
    cbn [mbind result_bind]. eexists. split; [reflexivity|]. split_and!; simpl; [| | |lia|lia|done].
    + apply set_shard_ok; [done|done|done| |].
      * rewrite Hp. intros k [x [[<- _]|[_ Hx]]%lookup_insert_Some]; [done|].
        eapply (wo_keys _ Hw); [by apply shard_lookup|by eexists].
      * rewrite Hp, map_size_insert_None by done. fold sh. lia.
    + rewrite GetByKey_set, decide_True by done. by rewrite Hp, lookup_insert_eq.
    + intros k Hk. rewrite GetByKey_set by done. case_decide as E; [|done]. rewrite Hp, lookup_insert_ne by done.
      unfold GetByKey. by rewrite E.
Qed.

(** What the manager evicts before it looks the key up. *)
Definition evicted wpm (victim : option WorkloadKey) : Prop :=
  match victim with
  | None => wpm_entryCount wpm < wpm_maxKeys wpm
  | Some v => wpm_entryCount wpm = wpm_maxKeys wpm /\ oldest wpm v /\ is_Some (GetByKey wpm v)
  end.

(** The profile of [key] once [victim] is gone. *)
Definition remaining wpm (victim : option WorkloadKey) key : option P :=
  if decide (victim = Some key) then None else GetByKey wpm key.

Record wpm_inv wpm : Prop := {
  wi_ok : wpm_ok wpm;
  wi_max : 0 < wpm_maxKeys wpm;
  wi_bound : wpm_entryCount wpm <= wpm_maxKeys wpm }.

Lemma GetOrCreateByKey_ok wpm clock key :
  wpm_inv wpm ->
  exists wpm' victim, evicted wpm victim /\
    GetOrCreateByKey NewProcessProfileForWorkload wpm clock key =
      Ok (wpm', default (NewProcessProfileForWorkload key) (remaining wpm victim key)) /\ wpm_inv wpm' /\
    GetByKey wpm' key = Some (default (NewProcessProfileForWorkload key) (remaining wpm victim key)) /\
    (forall k, k <> key -> GetByKey wpm' k = remaining wpm victim k).
Proof.
  intros [Hw Hx Hb]. unfold GetOrCreateByKey.
  destruct (decide (wpm_entryCount wpm < wpm_maxKeys wpm)) as [Hlt|Hge].
  - assert (evictIfOverCapacity wpm = Ok wpm) as ->.
    { unfold evictIfOverCapacity. destruct (Z.leb_spec (wpm_maxKeys wpm) 0); [lia|].
      by destruct (Z.ltb_spec (wpm_entryCount wpm) (wpm_maxKeys wpm)); [|lia]. }
    cbn [mbind result_bind]. destruct (lookup_or_create_ok wpm clock key Hw) as (wpm' & E & Hw' & Hg & Ho & Hc & Hm).
    exists wpm', None. split_and!; [done|exact E| |done|done]. split; [done|lia|lia].
  - destruct (evictIfOverCapacity_ok wpm Hw) as (w1 & v & -> & Hw1 & Hv & Hs & Hg1 & Hc1 & Hm1); [lia|].
    cbn [mbind result_bind]. destruct (lookup_or_create_ok w1 clock key Hw1) as (wpm' & E & Hw' & Hg & Ho & Hc & Hm).
    assert (forall k, remaining wpm (Some v) k = GetByKey w1 k) as Hrem.
    { intros k. rewrite Hg1. unfold remaining. repeat case_decide; congruence. }
    exists wpm', (Some v). split_and!; [split_and!; [lia|done|done] | rewrite Hrem; exact E | | by rewrite Hrem |].
    + split; [done|lia|lia].
    + intros k Hk. rewrite Hrem. by apply Ho.
Qed.

Lemma wpm_record_ok wpm clock e (key := WorkloadKeyFromEvent e) :
  wpm_inv wpm ->
  exists wpm' victim, evicted wpm victim /\ RecordEvent NewProcessProfileForWorkload record_event wpm clock e = Ok wpm' /\
    wpm_inv wpm' /\
    GetByKey wpm' key = Some (record_event e (default (NewProcessProfileForWorkload key) (remaining wpm victim key))) /\
    (forall k, k <> key -> GetByKey wpm' k = remaining wpm victim k).
Proof.
  intros Hi. destruct (GetOrCreateByKey_ok wpm clock key Hi) as (w1 & v & Hv & E & [Hw1 Hx1 Hb1] & Hg & Ho).
  unfold RecordEvent. fold key. rewrite E. cbn [mbind result_bind].
  eexists _, v. split; [done|]. split; [reflexivity|]. pose proof (shardFor_lt key) as Hlt.
  set (p := record_event e _). unfold GetByKey in Hg. split_and!.
  - split; simpl; [|done|done]. apply set_shard_ok; [done|done| | |].
    + apply set_profile_ok; [by apply shard_ok|by rewrite Hg; eexists].
    + simpl. intros k [x [[<- _]|[_ Hx]]%lookup_insert_Some]; [done|].
      eapply (wo_keys _ Hw1); [by apply shard_lookup|by eexists].
    + simpl. rewrite map_size_insert, Hg. unfold id. lia.
  - rewrite GetByKey_set, decide_True by done. simpl. by rewrite lookup_insert_eq.
  - intros k Hk. rewrite GetByKey_set by done. rewrite <- Ho by done. case_decide as Es; [|done]. simpl.
    rewrite lookup_insert_ne by done. unfold GetByKey. by rewrite Es.
Qed.

Inductive wpm_reach : WPM -> Prop :=
| wpm_new pidMax ttl maxKeys : 0 < pidMax -> wpm_reach (NewWorkloadProfileManager pidMax ttl maxKeys)
| wpm_create wpm clock key wpm' p :
    wpm_reach wpm -> GetOrCreateByKey NewProcessProfileForWorkload wpm clock key = Ok (wpm', p) -> wpm_reach wpm'
| wpm_record wpm clock e wpm' :
    wpm_reach wpm -> RecordEvent NewProcessProfileForWorkload record_event wpm clock e = Ok wpm' -> wpm_reach wpm'
| wpm_flush wpm : wpm_reach wpm -> wpm_reach (Flush wpm)
| wpm_cleanup order expired wpm wpm' n :
    (forall x : gmap WorkloadKey P, order x ≡ₚ map_to_list x) ->
    wpm_reach wpm -> CleanupExpired order expired wpm = Ok (wpm', n) -> wpm_reach wpm'.

Lemma empty_shards_ok wpm : wpm_shards wpm = replicate 16 empty_map -> wpm_entryCount wpm = 0 -> wpm_ok wpm.
Proof.
  intros Es Ec. split.
  - by rewrite Es.
  - rewrite Es. apply Forall_replicate, empty_map_ok.
  - intros i m key. rewrite Es. intros [-> _]%lookup_replicate [x Hx]. done.
  - rewrite Ec. unfold Len_. rewrite Es. done.
Qed.

Lemma cleanup_shards_ok order expired shards :
  (forall x : gmap WorkloadKey P, order x ≡ₚ map_to_list x) -> Forall lm_ok shards ->
  exists shards' n, cleanup_shards order expired shards = Ok (shards', n) /\ Forall lm_ok shards' /\ 0 <= n /\
    n = foldr (fun m n => Z.of_nat (size (lm_profiles m)) + n) 0 shards -
        foldr (fun m n => Z.of_nat (size (lm_profiles m)) + n) 0 shards' /\
    Forall2 (fun m' m => lm_profiles m' ⊆ lm_profiles m) shards' shards.
Proof.
  intros Ho Hf. induction Hf as [|m shards Hm Hf (s' & n & E & Hs' & Hn & En & Hsub)]; simpl.
  { exists [], 0. split_and!; [done..|constructor]. }
  destruct (cleanup_ok order expired m Ho Hm) as (m' & k & Em & Hm' & Ek & Hp). rewrite Em. cbn [mbind result_bind].
  rewrite E. cbn [mbind result_bind]. assert (lm_profiles m' ⊆ lm_profiles m) as Hsub1.
  { rewrite Hp. apply map_filter_subseteq. }
  pose proof (map_subseteq_size _ _ Hsub1).
  exists (m' :: s'), (k + n). simpl. split_and!; [done|by constructor|lia|lia|by constructor].
Qed.

Lemma wpm_reach_inv wpm : wpm_reach wpm -> wpm_inv wpm.
Proof.
  induction 1 as [pm ttl mk Hp|wpm clock key wpm' p _ IH E|wpm clock e wpm' _ IH E|wpm _ IH|
                  order expired wpm wpm' n Ho _ IH E].
  - split; [by apply empty_shards_ok| |]; simpl; destruct (Z.leb_spec mk 0); lia.
  - destruct (GetOrCreateByKey_ok wpm clock key IH) as (? & ? & _ & ? & ? & _). congruence.
  - destruct (wpm_record_ok wpm clock e IH) as (? & ? & _ & ? & ? & _). congruence.
  - destruct IH as [Hw Hx Hb]. split; simpl; [|done|lia]. apply empty_shards_ok; [|done].
    unfold Flush. cbn [wpm_shards]. by rewrite map_const_replicate, (wo_len _ Hw).
  - destruct IH as [Hw Hx Hb]. unfold CleanupExpired in E.
    destruct (cleanup_shards_ok order (expired (wpm_ttl wpm)) (wpm_shards wpm) Ho (wo_maps _ Hw)) as (s' & k & Es & Hs' & Hk & Ek & Hsub).
    rewrite Es in E. injection E as <- _. split; simpl; [|done|lia]. split; simpl.
    + rewrite (Forall2_length _ _ _ Hsub). apply Hw.
    + done.
    + intros i m key Hi [x Hx']. destruct (Forall2_lookup_l _ _ _ _ _ Hsub Hi) as (m0 & Hm0 & Hsub0).
      eapply (wo_keys _ Hw); [done|]. exists x. by eapply lookup_weaken.
    + rewrite (wo_count _ Hw). unfold Len_. simpl. lia.
Qed.

(** Per-workload profiles under their cap: in every reachable state
    the number of profiles equals the entry counter and is at most the cap,
    and recording an event never panics. Below the cap only the event's
    profile changes. At the cap the profile used least recently of all shards
    is evicted before the event's workload is looked up, also when that
    workload already has a profile and no room is needed; and when the victim
    is that workload itself, its learned profile is replaced by a fresh one. *)
Theorem workload_manager_evicts_first (wpm : WPM) (clock : Z) (e : Event) (key := WorkloadKeyFromEvent e) :
  wpm_reach wpm ->
  Len_ wpm = wpm_entryCount wpm /\ wpm_entryCount wpm <= wpm_maxKeys wpm /\
  exists wpm' victim, evicted wpm victim /\
    RecordEvent NewProcessProfileForWorkload record_event wpm clock e = Ok wpm' /\ wpm_reach wpm' /\
    GetByKey wpm' key = Some (record_event e (default (NewProcessProfileForWorkload key) (remaining wpm victim key))) /\
    (forall k, k <> key -> GetByKey wpm' k = remaining wpm victim k).
Proof.
  intros Hr. pose proof (wpm_reach_inv wpm Hr) as Hi. pose proof Hi as [Hw Hx Hb].
  split; [by rewrite (wo_count _ Hw)|]. split; [done|].
  destruct (wpm_record_ok wpm clock e Hi) as (wpm' & v & Hv & E & _ & Hg & Ho).
  exists wpm', v. split_and!; [done|done| |done|done]. by eapply wpm_record.
Qed.
End workload_manager.

(** ** Workload keys as strings *)
Fixpoint has_bar (s : gostring) : bool :=
  match s with EmptyString => false | String c s => bool_decide (c = "|"%char) || has_bar s end.

Lemma split_bar a b s t :
  has_bar a = false -> has_bar b = false -> (a +:+ "|" +:+ s)%string = (b +:+ "|" +:+ t)%string -> a = b /\ s = t.
Proof.
  revert b. induction a as [|c a IH]; intros [|d b] Ha Hb E.
  - by injection E.
  - injection E as <- _. by apply orb_false_iff in Hb as [Hb%bool_decide_eq_false _].
  - injection E as -> _. by apply orb_false_iff in Ha as [Ha%bool_decide_eq_false _].
  - injection E as <- E. apply orb_false_iff in Ha as [_ Ha], Hb as [_ Hb].
    destruct (IH b Ha Hb E) as [-> ->]. done.
Qed.

Lemma append_assoc (a b c : gostring) : ((a +:+ b) +:+ c)%string = (a +:+ b +:+ c)%string.
Proof. induction a as [|x a IH]; [done|]. change (String x ((a +:+ b) +:+ c) = String x (a +:+ b +:+ c)). by rewrite IH. Qed.

(** Workload identity through strings: the canonical form of a
    workload key, under which the drift and allowlist profiles are stored,
    tells two keys apart as long as neither process name nor namespace holds
    the separator. A process that names itself with a separator in it takes
    over the key of another workload. *)
Theorem workload_key_string (k1 k2 : WorkloadKey) (comm ns : gostring) :
  (~ has_bar (wk_Comm k1) /\ ~ has_bar (wk_Comm k2) /\ ~ has_bar (wk_Namespace k1) /\ ~ has_bar (wk_Namespace k2) /\
   k1 <> k2 -> WorkloadKey_String k1 <> WorkloadKey_String k2) /\
  mkWorkloadKey (comm +:+ "|" +:+ ns) "" "" <> mkWorkloadKey comm ns "|" /\
  WorkloadKey_String (mkWorkloadKey (comm +:+ "|" +:+ ns) "" "") = WorkloadKey_String (mkWorkloadKey comm ns "|").
Proof.
  split; [|split].
  - destruct k1 as [c1 n1 a1], k2 as [c2 n2 a2]. unfold WorkloadKey_String. simpl. intros (Hc1 & Hc2 & Hn1 & Hn2 & Hne) E.
    apply Is_true_false in Hc1, Hc2, Hn1, Hn2.
    apply split_bar in E as [-> E]; [|done..]. apply split_bar in E as [-> ->]; done.
  - by intros [=].
  - unfold WorkloadKey_String. simpl. by rewrite !append_assoc.
Qed.

(** ** Witnesses *)
Module Example_profiles.
Definition proc_event (pid : Z) (comm : gostring) : Event :=
  mkEvent EventSyscall 0 pid pid 0 0 (string_bytes comm) (zeros 16) (Some (mkSyscallEvent 59 0 [])) None
    None None None None None None None None None None None None None None ""%string false.

(** A profile that counts its events. *)
Definition fresh_pid (_ : Z) (_ : gostring) : Z := 0.
Definition fresh_workload (_ : WorkloadKey) : Z := 0.
Definition count_event (_ : Event) (n : Z) : Z := n + 1.

Definition pm1 : go ProfileManager.ProfileManager :=
  pm ← ProfileManager.RecordEvent fresh_pid count_event (ProfileManager.NewProfileManagerWithContext 0 2) 10 (proc_event 1 "a");
  pm ← ProfileManager.RecordEvent fresh_pid count_event pm 20 (proc_event 2 "b");
  ProfileManager.RecordEvent fresh_pid count_event pm 30 (proc_event 1 "a").

Lemma profile_manager_witness :
  exists pm, pm1 = Ok pm /\ ProfileManager.Get pm 1 = Some 2 /\
    exists pm', ProfileManager.RecordEvent fresh_pid count_event pm 40 (proc_event 3 "c") = Ok pm' /\
      ProfileManager.Get pm' 3 = Some 1 /\ ProfileManager.Get pm' 2 = None /\ ProfileManager.Get pm' 1 = Some 2.
Proof.
  assert (exists pm, pm1 = Ok pm /\ pm_reach fresh_pid count_event pm) as (pm & E & Hr).
  { unfold pm1.
    destruct (profile_manager_lru fresh_pid count_event _ 10 (proc_event 1 "a") (pm_new fresh_pid count_event 0 2)) as (_ & p1 & -> & H1 & _).
    destruct (profile_manager_lru fresh_pid count_event p1 20 (proc_event 2 "b") H1) as (_ & p2 & E2 & H2 & _).
    cbn [mbind result_bind]. rewrite E2.
    destruct (profile_manager_lru fresh_pid count_event p2 30 (proc_event 1 "a") H2) as (_ & p3 & E3 & H3 & _).
    cbn [mbind result_bind]. by exists p3. }
  exists pm. split; [done|].
  assert (ProfileManager.Get pm 1 = Some 2) as Hg.
  { assert (match pm1 with Ok pm => ProfileManager.Get pm 1 | _ => None end = Some 2) as G by (vm_compute; reflexivity).
    by rewrite E in G. }
  split; [done|].
  destruct (profile_manager_lru fresh_pid count_event pm 40 (proc_event 3 "c") Hr) as (_ & pm' & E' & _ & Hn & _).
  exists pm'. split; [done|].
  assert (match pm1 with
    | Ok pm => match ProfileManager.RecordEvent fresh_pid count_event pm 40 (proc_event 3 "c") with
        | Ok pm' => (ProfileManager.Get pm' 3, ProfileManager.Get pm' 2, ProfileManager.Get pm' 1)
        | _ => (None, None, None) end
    | _ => (None, None, None) end = (Some 1, None, Some 2)) as G by (vm_compute; reflexivity).
  rewrite E, E' in G. injection G as G1 G2 G3. split_and!; [exact G1 | exact G2 | exact G3].
Defined.

(** Cap of one workload: the second event of the same workload evicts its own
    profile, so its count is one again. *)
Lemma workload_manager_witness :
  exists w1 w2, WorkloadManager.RecordEvent fresh_workload count_event
      (WorkloadManager.NewWorkloadProfileManager 65536 0 1) 10 (proc_event 1 "a") = Ok w1 /\
    WorkloadManager.RecordEvent fresh_workload count_event w1 20 (proc_event 2 "a") = Ok w2 /\
    WorkloadManager.GetByKey w1 (mkWorkloadKey "a" "" "") = Some 1 /\
    WorkloadManager.GetByKey w2 (mkWorkloadKey "a" "" "") = Some 1.
Proof.
  destruct (workload_manager_evicts_first fresh_workload count_event _ 10 (proc_event 1 "a")
    (wpm_new fresh_workload count_event 65536 0 1 ltac:(reflexivity))) as (_ & _ & w1 & v1 & _ & E1 & Hr1 & _).
  destruct (workload_manager_evicts_first fresh_workload count_event w1 20 (proc_event 2 "a") Hr1) as (_ & _ & w2 & v2 & _ & E2 & _).
  pose (key := mkWorkloadKey "a" "" "").
  assert (match WorkloadManager.RecordEvent fresh_workload count_event
      (WorkloadManager.NewWorkloadProfileManager 65536 0 1) 10 (proc_event 1 "a") with
    | Ok w => (WorkloadManager.GetByKey w key,
        match WorkloadManager.RecordEvent fresh_workload count_event w 20 (proc_event 2 "a") with
        | Ok w' => WorkloadManager.GetByKey w' key | _ => None end)
    | _ => (None, None) end = (Some 1, Some 1)) as G by (vm_compute; reflexivity).
  rewrite E1, E2 in G. injection G as G1 G2. exists w1, w2. split_and!; [exact E1 | exact E2 | exact G1 | exact G2].
Defined.

Definition drift_cfg : Drift.DriftBaselineConfig := Drift.mkDriftConfig true 10 100 true 0 2.
Definition drift_p0 : Drift.DriftBaselineProfiler := Drift.NewDriftBaselineProfiler drift_cfg.

Lemma drift_verdict_witness :
  (0 < Drift.db_maxWorkloads drift_p0 -> Drift.ProfileCount drift_p0 <= Drift.db_maxWorkloads drift_p0) /\
  exists p', Drift.Observe drift_p0 0 0 "r" (proc_event 1 "a") = Ok (p', false).
Proof.
  destruct (drift_verdict drift_cfg drift_p0 ∅ 0 0 "r" (proc_event 1 "a")) as (Hb & p' & E).
  - reflexivity.
  - constructor.
  - rewrite lookup_empty in E. split; [exact Hb|]. by exists p'.
Defined.

(** Two observations, the second after the deadline of 20 seconds; a third
    with another rule then alerts although 100 samples were asked for. *)
Definition late_history : list (Z * gostring) := [(0, "r|59"); (20 * Second, "r|59")]%string.

Lemma drift_deadline_witness :
  exists p1 p2 p3 b1 b2, Drift.Observe drift_p0 0 0 "r" (proc_event 1 "a") = Ok (p1, b1) /\
    Drift.Observe p1 (20 * Second) 1 "r" (proc_event 1 "a") = Ok (p2, b2) /\
    Drift.Observe p2 (21 * Second) 2 "q" (proc_event 1 "a") = Ok (p3, true).
Proof.
  pose (e := proc_event 1 "a").
  assert (match Drift.Observe drift_p0 0 0 "r" e with
    | Ok (p1, _) => match Drift.Observe p1 (20 * Second) 1 "r" e with
        | Ok (p2, _) => next_history p1 p2 (next_history drift_p0 p1 ∅ 0 "r" e) (20 * Second) "r" e !! Drift.obs_key p2 e =
              Some late_history /\ Drift.db_enforceDeadline p2 = 20 * Second /\
            bool_decide (Drift.obs_sig "q" e ∈ learned p2 late_history) = false
        | _ => False end
    | _ => False end) as G by (vm_compute; split_and!; reflexivity).
  destruct (Drift.Observe drift_p0 0 0 "r" e) as [[p1 b1]|x|] eqn:E1; [|destruct G..].
  destruct (Drift.Observe p1 (20 * Second) 1 "r" e) as [[p2 b2]|x|] eqn:E2; [|destruct G..].
  destruct G as (G1 & G2 & G3%bool_decide_eq_false).
  pose proof (drift_observe _ _ _ _ _ _ _ _ _ (drift_observe _ _ _ _ _ _ _ _ _ (drift_new drift_cfg) E1) E2) as Hr.
  destruct (drift_deadline drift_cfg p2 _ late_history (20 * Second) "r|59"%string (21 * Second) 2 "q" e eq_refl Hr)
    as (_ & p3 & E3).
  - rewrite G2. reflexivity.
  - exact G1.
  - right. left.
  - rewrite G2. discriminate.
  - exact G3.
  - exists p1, p2, p3, b1, b2. split_and!; [exact E1 | exact E2 | exact E3].
Defined.
End Example_profiles.
