(* ===== verification/Allowlist.v ===== *)
(** * The syscall allowlist

    Models src/internal/profiler/allowlist.go: per workload, the set of
    syscall numbers recorded during a learning phase, the check of syscalls
    against it once the profile enforces, and the persisted state. The
    probabilistic sampling of [Record] takes its random draw as an argument.
    The JSON file is modelled by the value that is marshalled and unmarshalled. *)
From S2P Require Import Prelude GoBytes Types Fields LruHeap Profiles.

Section allowlist.
Context `{GoLib}.

Definition AllowlistActionAlert : gostring := "alert"%string.

Record SyscallAllowlistConfig := mkAllowlistConfig {
  ac_Enabled : bool; ac_Mode : gostring; ac_EnforcingAction : gostring; ac_PerWorkload : bool;
  ac_LearningPeriod : Z; ac_MinSamples : Z; ac_SparseThreshold : Z;
  ac_GlobalAllow : list Z; ac_GlobalDeny : list Z; ac_PersistPath : gostring }.

Definition DefaultSyscallAllowlistConfig : SyscallAllowlistConfig :=
  mkAllowlistConfig false "learning" AllowlistActionAlert true 3600 100 10 [] [] "".

Record WorkloadSyscallProfile := mkSyscallProfile {
  sp_AllowedSyscalls : gset Z; sp_AllowedList : list Z; sp_ImageRef : gostring; sp_Namespace : gostring;
  sp_AppLabel : gostring; sp_LearnedAt : Z; sp_SampleCount : Z; sp_Enforcing : bool; sp_StartedAt : Z }.

Definition newWorkloadSyscallProfile (key : WorkloadKey) (now : Z) : WorkloadSyscallProfile :=
  mkSyscallProfile ∅ [] (wk_Comm key) (wk_Namespace key) (wk_AppLabel key) zero_time 0 false now.

Record AllowlistViolation := mkViolation {
  av_WorkloadKey : WorkloadKey; av_SyscallNr : Z; av_Source : gostring; av_Action : gostring }.

Record SyscallAllowlistProfiler := mkAllowlist {
  al_config : SyscallAllowlistConfig; al_profiles : gmap gostring WorkloadSyscallProfile;
  al_globalAllow : gset Z; al_globalDeny : gset Z; al_samplingRate : Float }.

(** Negative numbers are dropped, the others truncated to 32 bits. *)
Definition toSet (nrs : list Z) : gset Z :=
  list_to_set (map u32 (base.filter (fun n => 0 <= n) nrs)).

Definition NewSyscallAllowlistProfiler (cfg : SyscallAllowlistConfig) : SyscallAllowlistProfiler :=
  mkAllowlist cfg ∅ (toSet (ac_GlobalAllow cfg)) (toSet (ac_GlobalDeny cfg)) float_1.

Definition allowlist_key (p : SyscallAllowlistProfiler) (e : Event) : WorkloadKey :=
  if ac_PerWorkload (al_config p) then WorkloadKeyFromEvent e else mkWorkloadKey "" "" "".

(** The syscall number of an event the profiler looks at. *)
Definition observed (p : SyscallAllowlistProfiler) (e : Event) : option Z :=
  if ac_Enabled (al_config p) && (ev_Type e =? EventSyscall)
  then u32 ∘ sys_Nr <$> ev_Syscall e else None.

Definition transitionToEnforcing (prof : WorkloadSyscallProfile) (now : Z) : WorkloadSyscallProfile :=
  mkSyscallProfile (sp_AllowedSyscalls prof) (sp_AllowedList prof) (sp_ImageRef prof) (sp_Namespace prof)
    (sp_AppLabel prof) now (sp_SampleCount prof) true (sp_StartedAt prof).

Definition learning_complete (p : SyscallAllowlistProfiler) (elapsed samples : Z) : bool :=
  (i64 (ac_LearningPeriod (al_config p) * Second) <=? elapsed) && (ac_MinSamples (al_config p) <=? samples).

(** One recorded syscall of a profile that is still learning. *)
Definition record_syscall (p : SyscallAllowlistProfiler) (now nr : Z) (prof : WorkloadSyscallProfile) :
  WorkloadSyscallProfile :=
  let allowed := if bool_decide (nr ∈ al_globalAllow p) then sp_AllowedSyscalls prof
                 else {[nr]} ∪ sp_AllowedSyscalls prof in
  let prof := mkSyscallProfile allowed (sp_AllowedList prof) (sp_ImageRef prof) (sp_Namespace prof)
    (sp_AppLabel prof) (sp_LearnedAt prof) (sp_SampleCount prof + 1) (sp_Enforcing prof) (sp_StartedAt prof) in
  if learning_complete p (time_Sub now (sp_StartedAt prof)) (sp_SampleCount prof)
  then transitionToEnforcing prof now else prof.

Definition with_profiles (p : SyscallAllowlistProfiler) (m : gmap gostring WorkloadSyscallProfile) :
  SyscallAllowlistProfiler :=
  mkAllowlist (al_config p) m (al_globalAllow p) (al_globalDeny p) (al_samplingRate p).

(** The draw [rnd] drops the event when it is not below the sampling rate. *)
Definition Record_ (p : SyscallAllowlistProfiler) (now : Z) (rnd : Float) (e : Event) : SyscallAllowlistProfiler :=
  match observed p e with
  | None => p
  | Some nr =>
      if float_lt (al_samplingRate p) float_1 && float_ge rnd (al_samplingRate p) then p else
      let key := WorkloadKey_String (allowlist_key p e) in
      let prof := default (newWorkloadSyscallProfile (allowlist_key p e) now) (al_profiles p !! key) in
      if sp_Enforcing prof then with_profiles p (<[key := prof]> (al_profiles p))
      else with_profiles p (<[key := record_syscall p now nr prof]> (al_profiles p))
  end.

Definition Check (p : SyscallAllowlistProfiler) (e : Event) : option AllowlistViolation :=
  match observed p e with
  | None => None
  | Some nr =>
      if bool_decide (nr ∈ al_globalAllow p) then None else
      let key := allowlist_key p e in
      let action := if bool_decide (ac_EnforcingAction (al_config p) = ""%string) then AllowlistActionAlert
                    else ac_EnforcingAction (al_config p) in
      if bool_decide (nr ∈ al_globalDeny p) then Some (mkViolation key nr "global_deny" action) else
      match al_profiles p !! WorkloadKey_String key with
      | None => None
      | Some prof =>
          if negb (sp_Enforcing prof) then None
          else if bool_decide (nr ∈ sp_AllowedSyscalls prof) then None
          else Some (mkViolation key nr "unknown" action)
      end
  end.

Definition SparseProfiles (p : SyscallAllowlistProfiler) : gmap gostring WorkloadSyscallProfile :=
  base.filter (fun kp : gostring * WorkloadSyscallProfile =>
    sp_Enforcing kp.2 && (Z.of_nat (size (sp_AllowedSyscalls kp.2)) <? ac_SparseThreshold (al_config p)))
    (al_profiles p).

Definition SetSamplingRate (p : SyscallAllowlistProfiler) (rate : Float) : SyscallAllowlistProfiler :=
  let rate := if float_lt rate float_0 then float_0 else rate in
  let rate := if float_gt rate float_1 then float_1 else rate in
  mkAllowlist (al_config p) (al_profiles p) (al_globalAllow p) (al_globalDeny p) rate.

(** ** Persisted state *)

(** [toJSON]: the set listed in the order the map is iterated. *)
Definition toJSON (order : gset Z -> list Z) (prof : WorkloadSyscallProfile) : WorkloadSyscallProfile :=
  mkSyscallProfile (sp_AllowedSyscalls prof) (order (sp_AllowedSyscalls prof)) (sp_ImageRef prof)
    (sp_Namespace prof) (sp_AppLabel prof) (sp_LearnedAt prof) (sp_SampleCount prof) (sp_Enforcing prof) (sp_StartedAt prof).

(** [fromJSON], after a decoding that leaves [AllowedSyscalls] nil. *)
Definition fromJSON (prof : WorkloadSyscallProfile) : WorkloadSyscallProfile :=
  mkSyscallProfile (list_to_set (sp_AllowedList prof)) (sp_AllowedList prof) (sp_ImageRef prof)
    (sp_Namespace prof) (sp_AppLabel prof) (sp_LearnedAt prof) (sp_SampleCount prof) (sp_Enforcing prof) (sp_StartedAt prof).

(** What the JSON text keeps of a profile: every field but the set. *)
Definition json_fields (prof : WorkloadSyscallProfile) : WorkloadSyscallProfile :=
  mkSyscallProfile ∅ (sp_AllowedList prof) (sp_ImageRef prof) (sp_Namespace prof) (sp_AppLabel prof)
    (sp_LearnedAt prof) (sp_SampleCount prof) (sp_Enforcing prof) (sp_StartedAt prof).

(** The profiles written by [SaveState]. *)
Definition SaveState (order : gset Z -> list Z) (p : SyscallAllowlistProfiler) : gmap gostring WorkloadSyscallProfile :=
  json_fields ∘ toJSON order <$> al_profiles p.

(** The profiles of the file over those in memory. *)
Definition loadState (file : gmap gostring WorkloadSyscallProfile) (p : SyscallAllowlistProfiler) : SyscallAllowlistProfiler :=
  with_profiles p ((fromJSON <$> file) ∪ al_profiles p).
End allowlist.

(** * Theorems *)
Section allowlist_theorems.
Context {lib : GoLib}.
Implicit Types (p : SyscallAllowlistProfiler) (h : list (Z * Z)).

(** The abstract state: per workload, the recorded syscalls with their times. *)
Definition allowlist_learned p h : list Z := (learn_until (learning_complete p) (first_seen h) 0 h).1.
Definition allowlist_enforcing p h : bool := (learn_until (learning_complete p) (first_seen h) 0 h).2.

(** What a check has to answer in that state. *)
Definition verdict p (H : gmap gostring (list (Z * Z))) (e : Event) : option AllowlistViolation :=
  nr ← observed p e;
  let key := allowlist_key p e in
  let action := if bool_decide (ac_EnforcingAction (al_config p) = ""%string) then AllowlistActionAlert
                else ac_EnforcingAction (al_config p) in
  if decide (nr ∈ al_globalAllow p) then None
  else if decide (nr ∈ al_globalDeny p) then Some (mkViolation key nr "global_deny" action)
  else h ← H !! WorkloadKey_String key;
       if decide (allowlist_enforcing p h = true /\ nr ∉ allowlist_learned p h)
       then Some (mkViolation key nr "unknown" action) else None.

(** The syscall [Record] takes, when sampling does not drop it. *)
Definition recorded p (rnd : Float) (e : Event) : option Z :=
  if float_lt (al_samplingRate p) float_1 && float_ge rnd (al_samplingRate p) then None else observed p e.

Definition extend p (H : gmap gostring (list (Z * Z))) (now : Z) (rnd : Float) (e : Event) :
  gmap gostring (list (Z * Z)) :=
  match recorded p rnd e with
  | Some nr =>
      let key := WorkloadKey_String (allowlist_key p e) in
      <[key := default [] (H !! key) ++ [(now, nr)]]> H
  | None => H
  end.

(** Records, changes of the sampling rate, and restarts that load the state
    saved before, with the set listed in any order. *)
Inductive allowlist_run (cfg : SyscallAllowlistConfig) :
  SyscallAllowlistProfiler -> gmap gostring (list (Z * Z)) -> Prop :=
| allowlist_new : allowlist_run cfg (NewSyscallAllowlistProfiler cfg) ∅
| allowlist_record p H now rnd e :
    allowlist_run cfg p H -> allowlist_run cfg (Record_ p now rnd e) (extend p H now rnd e)
| allowlist_rate p H rate : allowlist_run cfg p H -> allowlist_run cfg (SetSamplingRate p rate) H
| allowlist_restart p H order :
    (forall s : gset Z, order s ≡ₚ elements s) -> allowlist_run cfg p H ->
    allowlist_run cfg (loadState (SaveState order p) (NewSyscallAllowlistProfiler cfg)) H.

(** A profile that stands for the history [h]. *)
Definition stands_for p h (prof : WorkloadSyscallProfile) : Prop :=
  h <> [] /\ sp_StartedAt prof = first_seen h /\ sp_Enforcing prof = allowlist_enforcing p h /\
  (forall nr, nr ∉ al_globalAllow p -> nr ∈ sp_AllowedSyscalls prof <-> nr ∈ allowlist_learned p h) /\
  (allowlist_enforcing p h = false -> sp_SampleCount prof = Z.of_nat (length h)).

Definition fixed_settings (p p' : SyscallAllowlistProfiler) : Prop :=
  al_config p' = al_config p /\ al_globalAllow p' = al_globalAllow p /\ al_globalDeny p' = al_globalDeny p.

Lemma learning_complete_settings p p' : fixed_settings p p' -> learning_complete p' = learning_complete p.
Proof. intros (E & _). unfold learning_complete. by rewrite E. Qed.

Lemma stands_for_settings p p' h prof : fixed_settings p p' -> stands_for p h prof -> stands_for p' h prof.
Proof.
  intros E. pose proof E as (_ & Ea & _). unfold stands_for, allowlist_enforcing, allowlist_learned.
  by rewrite (learning_complete_settings p p' E), Ea.
Qed.

Lemma record_elem p now nr prof x :
  x ∉ al_globalAllow p ->
  x ∈ sp_AllowedSyscalls (record_syscall p now nr prof) <-> x = nr \/ x ∈ sp_AllowedSyscalls prof.
Proof.
  intros Hx. assert (x ∈ sp_AllowedSyscalls (record_syscall p now nr prof) <->
    x ∈ (if bool_decide (nr ∈ al_globalAllow p) then sp_AllowedSyscalls prof else {[nr]} ∪ sp_AllowedSyscalls prof)) as ->.
  { unfold record_syscall. by destruct (learning_complete _ _ _). }
  case_bool_decide as Hn; [|by rewrite elem_of_union, elem_of_singleton].
  split; [tauto|]. intros [->|]; done.
Qed.

Lemma record_flags p now nr prof (prof' := record_syscall p now nr prof) :
  sp_Enforcing prof = false ->
  sp_StartedAt prof' = sp_StartedAt prof /\ sp_SampleCount prof' = sp_SampleCount prof + 1 /\
  sp_Enforcing prof' = learning_complete p (time_Sub now (sp_StartedAt prof)) (sp_SampleCount prof + 1).
Proof.
  intros Hf. subst prof'. unfold record_syscall. simpl.
  destruct (learning_complete p (time_Sub now (sp_StartedAt prof)) (sp_SampleCount prof + 1)); simpl; by rewrite ?Hf.
Qed.

Lemma stands_for_first p key now nr :
  stands_for p [(now, nr)] (record_syscall p now nr (newWorkloadSyscallProfile key now)).
Proof.
  destruct (record_flags p now nr (newWorkloadSyscallProfile key now) eq_refl) as (E1 & E2 & E3).
  unfold stands_for, allowlist_enforcing, allowlist_learned. rewrite E1, E2, E3. simpl.
  assert (forall x, x ∉ al_globalAllow p ->
    x ∈ sp_AllowedSyscalls (record_syscall p now nr (newWorkloadSyscallProfile key now)) <-> x ∈ [nr]) as Hin.
  { intros x Hx. rewrite record_elem, list_elem_of_singleton by done. simpl. rewrite elem_of_empty. tauto. }
  destruct (learning_complete p (time_Sub now now) (0 + 1)); split_and!; done.
Qed.

Lemma stands_for_next p h prof now nr :
  stands_for p h prof ->
  stands_for p (h ++ [(now, nr)]) (if sp_Enforcing prof then prof else record_syscall p now nr prof).
Proof.
  intros (Hne & Hst & Henf & Hin & Hcnt). pose proof (first_seen_snoc h (now, nr) Hne) as Ef.
  unfold stands_for, allowlist_enforcing, allowlist_learned in *. rewrite Ef, learn_snoc.
  destruct (learn_until (learning_complete p) (first_seen h) 0 h) as [l b]. simpl in *.
  assert (h ++ [(now, nr)] <> []) by by destruct h.
  destruct b; simpl; rewrite Henf; [split_and!; done|].
  destruct (record_flags p now nr prof Henf) as (E1 & E2 & E3). rewrite E1, E2, E3, Hst, (Hcnt eq_refl), Z.add_0_l.
  split_and!; [done|done|done| |intros _; rewrite length_app; simpl; lia].
  intros x Hx. rewrite record_elem, Hin, elem_of_app, list_elem_of_singleton by done. tauto.
Qed.

Definition tracks p (H : gmap gostring (list (Z * Z))) : Prop :=
  forall key, option_Forall2 (stands_for p) (H !! key) (al_profiles p !! key).

Lemma Record_tracks p H now rnd e :
  tracks p H -> fixed_settings p (Record_ p now rnd e) /\ tracks (Record_ p now rnd e) (extend p H now rnd e).
Proof.
  intros Ht. unfold Record_, extend, recorded. destruct (observed p e) as [nr|]; [|by destruct (_ && _)].
  destruct (float_lt _ _ && float_ge _ _); [done|].
  set (key := WorkloadKey_String _). set (prof := default _ _).
  assert (forall q, stands_for p (default [] (H !! key) ++ [(now, nr)]) q ->
    fixed_settings p (with_profiles p (<[key:=q]> (al_profiles p))) /\
    tracks (with_profiles p (<[key:=q]> (al_profiles p))) (<[key:=default [] (H !! key) ++ [(now, nr)]]> H)) as Hset.
  { intros q Hq. split; [done|]. intros k. simpl.
    destruct (decide (k = key)) as [->|Hk]; [rewrite !lookup_insert_eq; by constructor | rewrite !lookup_insert_ne by done; apply Ht]. }
  assert (stands_for p (default [] (H !! key) ++ [(now, nr)])
    (if sp_Enforcing prof then prof else record_syscall p now nr prof)) as Hq.
  { specialize (Ht key). subst prof. destruct Ht as [h q Hq|]; simpl; [by apply stands_for_next | apply stands_for_first]. }
  destruct (sp_Enforcing prof); by apply Hset.
Qed.

Lemma reload_stands p h prof order :
  (forall s : gset Z, order s ≡ₚ elements s) ->
  stands_for p h prof -> stands_for p h (fromJSON (json_fields (toJSON order prof))).
Proof.
  intros Ho (Hne & Hst & Henf & Hin & Hcnt). split_and!; [done..| |done].
  intros x Hx. rewrite <- Hin by done. simpl. by rewrite elem_of_list_to_set, Ho, elem_of_elements.
Qed.

Lemma allowlist_run_ok cfg p H :
  allowlist_run cfg p H -> fixed_settings (NewSyscallAllowlistProfiler cfg) p /\ tracks p H.
Proof.
  induction 1 as [|p H now rnd e _ [Hs Ht]|p H rate _ [Hs Ht]|p H order Ho _ [Hs Ht]].
  - split; [done|]. intros k. simpl. rewrite !lookup_empty. constructor.
  - destruct (Record_tracks p H now rnd e Ht) as [(E1 & E2 & E3) Ht']. split; [|done].
    destruct Hs as (F1 & F2 & F3). split_and!; congruence.
  - split; [done|]. exact Ht.
  - split; [done|]. intros k. specialize (Ht k).
    unfold loadState, SaveState. simpl. rewrite lookup_union, !lookup_fmap, lookup_empty, right_id by apply _.
    destruct Ht as [h q Hq|]; simpl; constructor. apply (stands_for_settings p).
    { destruct Hs as (F1 & F2 & F3). by split_and!. }
    by apply reload_stands.
Qed.


(** Learning needs samples: a profile keeps learning, and its
    workload raises no alert outside the deny list, until a recorded event
    comes after the learning period as the [MinSamples]-th or a later one;
    the mode of the configuration and the passing of time alone change
    nothing. *)
Theorem allowlist_needs_samples (cfg : SyscallAllowlistConfig) p (H : gmap gostring (list (Z * Z))) (e : Event)
    h (nr : Z) :
  allowlist_run cfg p H -> observed p e = Some nr -> nr ∉ al_globalDeny p ->
  H !! WorkloadKey_String (allowlist_key p e) = Some h ->
  (Z.of_nat (length h) < ac_MinSamples cfg \/
   forall t x, (t, x) ∈ h -> time_Sub t (first_seen h) < i64 (ac_LearningPeriod cfg * Second)) ->
  Check p e = None.
Proof.
  intros [(Ec & _) Ht]%allowlist_run_ok Ho Hd Hh Hfew. unfold Check. rewrite Ho.
  case_bool_decide; [done|]. case_bool_decide; [done|].
  specialize (Ht (WorkloadKey_String (allowlist_key p e))). rewrite Hh in Ht.
  inversion Ht as [? prof (_ & _ & Henf & _)|]; subst. rewrite Henf.
  assert (allowlist_enforcing p h = false) as ->; [|done].
  unfold allowlist_enforcing. clear -Hfew Ec.
  assert (forall start n (l : list (Z * Z)), (n + Z.of_nat (length l) < ac_MinSamples cfg \/
    forall t x, (t, x) ∈ l -> time_Sub t start < i64 (ac_LearningPeriod cfg * Second)) ->
    (learn_until (learning_complete p) start n l).2 = false) as Hg; [|apply Hg; by rewrite Z.add_0_l].
  intros start n l. revert n. induction l as [|[t x] l IH]; intros n Hl; [done|]. simpl.
  assert (learning_complete p (time_Sub t start) (n + 1) = false) as ->.
  { unfold learning_complete. rewrite Ec. simpl. apply andb_false_iff. rewrite !Z.leb_gt.
    destruct Hl as [Hl|Hl]; [right; simpl in Hl; lia | left; apply (Hl t x); left]. }
  specialize (IH (n + 1)). destruct (learn_until _ start (n + 1) l). apply IH.
  destruct Hl as [Hl|Hl]; [left; simpl in Hl; lia | right; intros; eapply Hl; by right].
Qed.
End allowlist_theorems.

(** ** Witnesses *)
Module Example_allowlist.
#[local] Existing Instance sample_lib.

Definition sys (nr : Z) : Event :=
  mkEvent EventSyscall 0 7 7 0 0 (string_bytes "web") (zeros 16) (Some (mkSyscallEvent nr 0 [])) None
    None None None None None None None None None None None None None None ""%string false.

(** Ten seconds of learning, at least two samples, syscall 1 always allowed
    and syscall 101 always denied. *)
Definition cfg : SyscallAllowlistConfig :=
  mkAllowlistConfig true "enforcing" "" true 10 2 10 [1; -1] [101] "".

Definition learnt : SyscallAllowlistProfiler :=
  Record_ (Record_ (NewSyscallAllowlistProfiler cfg) 0 float_0 (sys 59)) (11 * Second) float_0 (sys 1).
Definition learnt_history : gmap gostring (list (Z * Z)) :=
  extend (Record_ (NewSyscallAllowlistProfiler cfg) 0 float_0 (sys 59))
    (extend (NewSyscallAllowlistProfiler cfg) ∅ 0 float_0 (sys 59)) (11 * Second) float_0 (sys 1).

(** The learned profile survives a restart: 59 is allowed, 60 is not. *)
Definition restarted : SyscallAllowlistProfiler :=
  loadState (SaveState (fun s => reverse (elements s)) learnt) (NewSyscallAllowlistProfiler cfg).


(** One sample long after the learning period does not end learning. *)
Lemma allowlist_needs_samples_witness :
  Check (Record_ (NewSyscallAllowlistProfiler cfg) 0 float_0 (sys 59)) (sys 60) = None.
Proof.
  apply (allowlist_needs_samples cfg _ (extend (NewSyscallAllowlistProfiler cfg) ∅ 0 float_0 (sys 59)) _ [(0, 59)] 60).
  - apply allowlist_record. constructor.
  - reflexivity.
  - vm_compute. intros E. discriminate E.
  - vm_compute. reflexivity.
  - left. reflexivity.
Defined.
End Example_allowlist.
