(* ===== verification/Lineage.v ===== *)
(** * Process lineage

    Models src/internal/profiler/lineage.go: the parent of each process, the
    chain of ancestors attached to alerts as the process tree, the cache of
    /proc lookups, and the suspicious parent-child patterns. The tracker's
    shards split the process identifiers, each operation on a process works in
    the shard of that process and [Cleanup] visits all of them, so the maps of
    the shards are modelled by their unions. The text of /proc/<pid>/status is
    an argument, as is each [time.Now]. *)
From Stdlib Require Import Ascii.
From stdpp Require Import pretty.
From S2P Require Import Prelude GoBytes Types Fields.

Record LineageCondition := mkLineageCondition { lc_Field : gostring; lc_Op : gostring; lc_Values : list gostring }.

Record LineagePattern := mkLineagePattern {
  lp_Name : gostring; lp_Description : gostring; lp_ParentComms : list gostring; lp_ChildComms : list gostring;
  lp_Severity : gostring; lp_Condition : option LineageCondition }.

Record LineageConfig := mkLineageConfig {
  lg_Enabled : bool; lg_TTL : Z; lg_Patterns : list LineagePattern; lg_MaxDepth : Z }.

Definition DefaultLineageConfig : LineageConfig :=
  mkLineageConfig true (300 * Second)
    [ mkLineagePattern "web_shell_spawn" "Web server spawning shell - potential RCE or webshell"
        ["nginx"; "apache2"; "httpd"; "node"; "nodejs"; "python"; "python3"; "gunicorn"; "uwsgi"]
        ["sh"; "bash"; "dash"; "zsh"; "fish"] "critical" None;
      mkLineagePattern "shell_network_tool" "Shell spawning network tool - potential data exfil or lateral movement"
        ["sh"; "bash"; "dash"; "zsh"; "fish"]
        ["curl"; "wget"; "nc"; "netcat"; "ncat"; "python"; "python3"; "ruby"; "perl"] "critical" None;
      mkLineagePattern "shell_recon_tool" "Shell spawning reconnaissance tool"
        ["sh"; "bash"; "dash"; "zsh"; "fish"]
        ["nmap"; "masscan"; "zmap"; "dig"; "nslookup"] "warning" None ]%string 8.

Record parentInfo := mkParentInfo { pi_PPID : Z; pi_ParentComm : gostring; pi_Timestamp : Z }.
Record procEntry := mkProcEntry { pe_comm : gostring; pe_ppid : Z; pe_timestamp : Z }.

Record LineageMatch := mkLineageMatch {
  lmt_Pattern : LineagePattern; lmt_PID : Z; lmt_Comm : gostring; lmt_PPID : Z; lmt_ParentComm : gostring }.

Record LineageTracker := mkLineage {
  lt_config : LineageConfig; lt_lineage : gmap Z parentInfo; lt_ancestry : gmap Z (list ProcessNode);
  lt_procCache : gmap Z procEntry; lt_maxDepth : Z }.

Definition NewLineageTracker (config : LineageConfig) : LineageTracker :=
  let config := if lg_TTL config <=? 0
                then mkLineageConfig (lg_Enabled config) (300 * Second) (lg_Patterns config) (lg_MaxDepth config)
                else config in
  mkLineage config ∅ ∅ ∅ (if lg_MaxDepth config <=? 0 then 16 else lg_MaxDepth config).

(** ** Reading /proc/<pid>/status *)

(** [strings.Split] on one character *)
Fixpoint split_char (sep : ascii) (acc s : gostring) : list gostring :=
  match s with
  | EmptyString => [acc]
  | String c s =>
      if decide (c = sep) then acc :: split_char sep EmptyString s
      else split_char sep (acc +:+ String c EmptyString) s
  end.

(** [strings.Fields], on text without the Unicode spaces outside ASCII *)
Definition is_space (c : ascii) : bool :=
  let n := N_of_ascii c in (n =? 32)%N || ((9 <=? n)%N && (n <=? 13)%N).
Fixpoint text_fields (cur s : gostring) : list gostring :=
  let flush := if decide (cur = EmptyString) then [] else [cur] in
  match s with
  | EmptyString => flush
  | String c s => if is_space c then flush ++ text_fields EmptyString s
                  else text_fields (cur +:+ String c EmptyString) s
  end.

(** [strconv.ParseUint(s, 10, 32)] *)
Definition ParseUint32 (s : gostring) : option Z :=
  n ← decimal s; if n <? 2 ^ 32 then Some n else None.

Definition newline : ascii := Ascii.ascii_of_nat 10.

(** The loop over the lines; it ends early once both values are known. *)
Fixpoint status_loop (lines : list gostring) (comm : gostring) (ppid : Z) : gostring * Z :=
  match lines with
  | [] => (comm, ppid)
  | line :: lines =>
      let field1 := text_fields "" line !! 1%nat in
      let '(comm, ppid) :=
        if String.prefix "Name:" line then (default comm field1, ppid)
        else if String.prefix "PPid:" line then (comm, default ppid (f ← field1; ParseUint32 f))
        else (comm, ppid) in
      if negb (bool_decide (comm = ""%string)) && (0 <? ppid) then (comm, ppid) else status_loop lines comm ppid
  end.

(** [proc pid] is the content of /proc/<pid>/status, if it can be read. *)
Definition readProcStatus (proc : Z -> option gostring) (pid : Z) : gostring * Z :=
  match proc pid with
  | None => (""%string, 0)
  | Some data => status_loop (split_char newline "" data) "" 0
  end.

(** [cleanComm]: the bytes up to the first NUL. *)
Definition cleanComm (comm : list byte) : gostring := BytesToString comm.

Definition keep_if {A} (f : A -> bool) (o : option A) : option A := x ← o; if f x then Some x else None.

(** ** Ancestry *)
Section tracker.
Context `{GoLib} (proc : Z -> option gostring) (now : Z).

(** Something is known of a process. *)
Definition known (comm : gostring) (ppid : Z) : bool := negb (bool_decide (comm = ""%string)) || (0 <? ppid).

(** An entry that exists is overwritten, a new one is made when something is
    known. *)
Definition cache_store (cache : gmap Z procEntry) (pid : Z) (comm : gostring) (ppid : Z) : gmap Z procEntry :=
  if bool_decide (is_Some (cache !! pid)) || known comm ppid
  then <[pid := mkProcEntry comm ppid now]> cache else cache.

(** A cached entry with both values; otherwise /proc is read and what it
    says is cached. *)
Definition lookup_proc (cache : gmap Z procEntry) (cur : Z) : gmap Z procEntry * gostring * Z :=
  match keep_if (fun e => negb (bool_decide (pe_comm e = ""%string)) && (0 <? pe_ppid e)) (cache !! cur) with
  | Some e => (cache, pe_comm e, pe_ppid e)
  | None =>
      let '(comm, ppid) := readProcStatus proc cur in
      (if known comm ppid then <[cur := mkProcEntry comm ppid now]> cache else cache, comm, ppid)
  end.

(** The walk of [buildChainFromProc]; [None] when the fuel is used up. *)
Fixpoint proc_walk (fuel : nat) (maxDepth : Z) (cache : gmap Z procEntry) (cur : Z) (chain : list ProcessNode) :
  option (gmap Z procEntry * list ProcessNode) :=
  if (Z.of_nat (length chain) <? maxDepth) && (1 <? cur) then
    match fuel with
    | O => None
    | S fuel =>
        let '(cache, comm, ppid) := lookup_proc cache cur in
        let chain := mkProcessNode cur ppid comm :: chain in
        if (ppid =? 0) || (ppid =? cur) then Some (cache, chain)
        else proc_walk fuel maxDepth cache ppid chain
    end
  else Some (cache, chain).

Definition buildChainFromProc (cache : gmap Z procEntry) (pid maxDepth : Z) : gmap Z procEntry * list ProcessNode :=
  if maxDepth <=? 0 then (cache, [])
  else default (cache, []) (proc_walk (Z.to_nat maxDepth) maxDepth cache pid []).

(** An empty name of the parent in the copied chain is filled in. *)
Definition name_parent (ppid : Z) (parentComm : gostring) (n : ProcessNode) : ProcessNode :=
  if (pn_PID n =? ppid) && bool_decide (pn_Comm n = ""%string)
  then mkProcessNode (pn_PID n) (pn_PPID n) parentComm else n.

Definition append_node (pid ppid : Z) (parentComm comm : gostring) (parentChain : list ProcessNode) : list ProcessNode :=
  let newChain := parentChain ++ [mkProcessNode pid ppid comm] in
  if 2 <=? Z.of_nat (length newChain)
  then alter (name_parent ppid parentComm) (length newChain - 2)%nat newChain else newChain.

Definition extend_chain (maxDepth pid ppid : Z) (parentComm comm : gostring) (parentChain : list ProcessNode) :
  list ProcessNode :=
  let newChain := append_node pid ppid parentComm comm parentChain in
  if maxDepth <? Z.of_nat (length newChain)
  then drop (Z.to_nat (Z.of_nat (length newChain) - maxDepth)) newChain else newChain.

Definition chain_of (lt : LineageTracker) (pid : Z) : list ProcessNode := default [] (lt_ancestry lt !! pid).

Definition buildAncestry (lt : LineageTracker) (pid ppid : Z) (parentComm comm : gostring) : LineageTracker :=
  let '(cache, parentChain) := match chain_of lt ppid with
                               | [] => buildChainFromProc (lt_procCache lt) ppid (lt_maxDepth lt - 1)
                               | chain => (lt_procCache lt, chain)
                               end in
  let ancestry := match chain_of lt ppid, parentChain with
                  | [], _ :: _ => <[ppid := parentChain]> (lt_ancestry lt)
                  | _, _ => lt_ancestry lt
                  end in
  mkLineage (lt_config lt) (lt_lineage lt)
    (<[pid := extend_chain (lt_maxDepth lt) pid ppid parentComm comm parentChain]> ancestry) cache (lt_maxDepth lt).

(** The recorded parent and the last node of the chain already say this. *)
Definition unchanged (lt : LineageTracker) (pid ppid : Z) (parentComm comm : gostring) : bool :=
  match lt_lineage lt !! pid, last (chain_of lt pid) with
  | Some info, Some n =>
      (pi_PPID info =? ppid) && bool_decide (pi_ParentComm info = parentComm) &&
      ((pn_PID n =? pid) && (pn_PPID n =? ppid) && bool_decide (pn_Comm n = comm))
  | _, _ => false
  end.

Definition store (lt : LineageTracker) (pid ppid : Z) (parentComm comm : gostring) : LineageTracker :=
  let lt' := mkLineage (lt_config lt) (<[pid := mkParentInfo ppid parentComm now]> (lt_lineage lt)) (lt_ancestry lt)
               (cache_store (lt_procCache lt) pid comm ppid) (lt_maxDepth lt) in
  if unchanged lt pid ppid parentComm comm then lt' else buildAncestry lt' pid ppid parentComm comm.

(** The parent's name: from the event, from the lineage entry or the cached
    /proc entry of the parent, or from /proc. *)
Definition getParentInfo (lt : LineageTracker) (e : Event) : LineageTracker * (Z * gostring) :=
  let ppid := ev_PPID e in
  if 0 <? ppid then
    let parentComm := cleanComm (ev_ParentComm e) in
    if negb (bool_decide (parentComm = ""%string)) then (lt, (ppid, parentComm)) else
    match lt_lineage lt !! ppid with
    | Some info => (lt, (ppid, pi_ParentComm info))
    | None =>
        match keep_if (fun c => negb (bool_decide (pe_comm c = ""%string))) (lt_procCache lt !! ppid) with
        | Some entry => (lt, (ppid, pe_comm entry))
        | None =>
            let '(comm, grand) := readProcStatus proc ppid in
            (if known comm grand
             then mkLineage (lt_config lt) (lt_lineage lt) (lt_ancestry lt)
                    (<[ppid := mkProcEntry comm grand now]> (lt_procCache lt)) (lt_maxDepth lt)
             else lt, (ppid, comm))
        end
    end
  else (lt, (0, ""%string)).

Definition Track (lt : LineageTracker) (e : Event) : LineageTracker :=
  if negb (lg_Enabled (lt_config lt)) then lt else
  let '(lt, (ppid, parentComm)) := getParentInfo lt e in
  if ppid =? 0 then lt else store lt (ev_PID e) ppid parentComm (cleanComm (ev_Comm e)).

(** The next character allows a prefix match: a hyphen or a digit. *)
Definition extends_name (p s : gostring) : bool :=
  String.prefix p s &&
  match String.get (String.length p) s with
  | Some c => let n := N_of_ascii c in (n =? 45)%N || ((48 <=? n)%N && (n <=? 57)%N)
  | None => false
  end.

Definition matchesAny (s : gostring) (patterns : list gostring) : bool :=
  existsb (fun p => bool_decide (s = p) || extends_name p s) patterns.

Definition condition_value (e : Event) (parentComm field : gostring) : option gostring :=
  if decide (field = "comm"%string) then Some (cleanComm (ev_Comm e))
  else if decide (field = "parent_comm"%string) then Some parentComm
  else if decide (field = "uid"%string) then Some (pretty (ev_UID e))
  else if decide (field = "pid"%string) then Some (pretty (ev_PID e))
  else if decide (field = "ppid"%string) then Some (pretty (ev_PPID e))
  else None.

Definition evaluateLineageCondition (e : Event) (parentComm : gostring) (cond : option LineageCondition) : bool :=
  match cond with
  | None => true
  | Some c =>
      match condition_value e parentComm (lc_Field c) with
      | None => false
      | Some value =>
          let op := ToLower (lc_Op c) in
          let listed := existsb (fun v => bool_decide (value = v)) (lc_Values c) in
          if decide (op = "in"%string) then listed
          else if decide (op = "not_in"%string) then negb listed
          else if decide (op = "eq"%string \/ op = "equals"%string) then
            match lc_Values c with [] => false | v :: _ => bool_decide (value = v) end
          else if decide (op = "neq"%string \/ op = "not_equals"%string) then
            match lc_Values c with [] => true | v :: _ => negb (bool_decide (value = v)) end
          else false
      end
  end.

Definition pattern_matches (e : Event) (parentComm childComm : gostring) (p : LineagePattern) : bool :=
  matchesAny parentComm (lp_ParentComms p) && matchesAny childComm (lp_ChildComms p) &&
  evaluateLineageCondition e parentComm (lp_Condition p).

Definition checkPattern (lt : LineageTracker) (e : Event) (parentComm childComm : gostring) : option LineagePattern :=
  List.find (pattern_matches e parentComm childComm) (lg_Patterns (lt_config lt)).

Definition Update (lt : LineageTracker) (e : Event) : LineageTracker * option LineageMatch :=
  if negb (lg_Enabled (lt_config lt)) then (lt, None) else
  let '(lt, (ppid, parentComm)) := getParentInfo lt e in
  if ppid =? 0 then (lt, None) else
  let comm := cleanComm (ev_Comm e) in
  let lt := store lt (ev_PID e) ppid parentComm comm in
  (lt, (fun p => mkLineageMatch p (ev_PID e) comm ppid parentComm) <$> checkPattern lt e parentComm comm).
End tracker.

Definition GetProcessTree (lt : LineageTracker) (pid : Z) : list ProcessNode := chain_of lt pid.

(** The entries of [lineage] past their time to live go with their chains;
    the cached /proc entries older than it go too. *)
Definition stale (lt : LineageTracker) (now : Z) (info : parentInfo) : bool :=
  lg_TTL (lt_config lt) <? time_Sub now (pi_Timestamp info).

Definition stale_pid (lt : LineageTracker) (now pid : Z) : bool :=
  match lt_lineage lt !! pid with Some info => stale lt now info | None => false end.

Definition Cleanup (lt : LineageTracker) (now : Z) : LineageTracker :=
  let cutoff := time_Add now (neg_duration (lg_TTL (lt_config lt))) in
  mkLineage (lt_config lt)
    (base.filter (fun kv : Z * parentInfo => negb (stale_pid lt now kv.1)) (lt_lineage lt))
    (base.filter (fun kv : Z * list ProcessNode => negb (stale_pid lt now kv.1)) (lt_ancestry lt))
    (base.filter (fun kv : Z * procEntry => negb (time_Before (pe_timestamp kv.2) cutoff)) (lt_procCache lt))
    (lt_maxDepth lt).

Definition Size (lt : LineageTracker) : Z := Z.of_nat (size (lt_lineage lt)).

(** * Theorems *)

(** ** Chains *)
Definition ids (n : ProcessNode) : Z * Z := (pn_PID n, pn_PPID n).

(** Each node is the parent of the next. *)
Fixpoint linked (l : list (Z * Z)) : Prop :=
  match l with
  | a :: ((b :: _) as t) => b.2 = a.1 /\ linked t
  | _ => True
  end.

Lemma linked_cons a l : linked (a :: l) <-> (forall b, head l = Some b -> b.2 = a.1) /\ linked l.
Proof.
  destruct l as [|b l]; simpl; [split; [intros _; split; [by intros ? [=]|done] | done]|].
  split; [intros [E Hl]; split; [by intros ? [= <-]|done] | intros [Hb Hl]; split; [by apply Hb|done]].
Qed.

Lemma linked_snoc l n : linked l -> (forall a, last l = Some a -> n.2 = a.1) -> linked (l ++ [n]).
Proof.
  induction l as [|a l IH]; [done|]. rewrite linked_cons. intros [Ha Hl] Hn. cbn [app]. rewrite linked_cons.
  destruct l as [|b l]; cbn [app].
  - split; [intros b [= <-]; by apply Hn|done].
  - split; [intros c [= <-]; by apply Ha | by apply IH].
Qed.

Lemma linked_drop k l : linked l -> linked (drop k l).
Proof. revert l. induction k as [|k IH]; intros [|a l] Hl; [done..|]. apply IH. by apply linked_cons in Hl as [_ Hl]. Qed.

Lemma ids_name_parent ppid c n : ids (name_parent ppid c n) = ids n.
Proof. unfold name_parent. by destruct (_ && _). Qed.

Lemma ids_alter f (i : nat) (l : list ProcessNode) : (forall n, ids (f n) = ids n) -> fmap ids (alter f i l) = fmap ids l.
Proof.
  intros Hf. revert i. induction l as [|n l IH]; intros [|i]; [done..| |].
  - change (ids (f n) :: fmap ids l = ids n :: fmap ids l). by rewrite Hf.
  - change (ids n :: fmap ids (alter f i l) = ids n :: fmap ids l). by rewrite IH.
Qed.

(** What is stored for a process: a chain of parents that ends with it, of
    bounded length. *)
Definition chain_ok (maxDepth pid : Z) (chain : list ProcessNode) : Prop :=
  linked (fmap ids chain) /\ Z.of_nat (length chain) <= maxDepth /\ exists n, last chain = Some n /\ pn_PID n = pid.

Lemma last_map_ids (chain : list ProcessNode) a : last (fmap ids chain) = Some a -> exists n, last chain = Some n /\ ids n = a.
Proof. rewrite fmap_last. destruct (last chain); simpl; intros [= <-]. by eexists. Qed.

Lemma append_node_ok pid ppid pc c chain (l := append_node pid ppid pc c chain) :
  fmap ids l = fmap ids chain ++ [(pid, ppid)] /\ last l = Some (mkProcessNode pid ppid c).
Proof.
  subst l. unfold append_node. set (node := mkProcessNode pid ppid c).
  destruct (Z.leb_spec 2 (Z.of_nat (length (chain ++ [node])))) as [Hl|]; [|by rewrite fmap_app, last_snoc].
  split; [by rewrite ids_alter, fmap_app by apply ids_name_parent|].
  rewrite last_lookup, length_alter. rewrite length_app in *. simpl in *.
  rewrite list_lookup_alter_ne, lookup_app_r by lia.
  by replace (Init.Nat.pred (length chain + 1) - length chain)%nat with 0%nat by lia.
Qed.

Lemma last_drop {A} k (l : list A) : (k < length l)%nat -> last (drop k l) = last l.
Proof. intros Hk. rewrite !last_lookup, lookup_drop, length_drop. f_equal. lia. Qed.

(** The new chain: linked, bounded, with the new node last. *)
Lemma extend_chain_ok maxDepth pid ppid pc c chain :
  0 < maxDepth -> linked (fmap ids chain) -> (forall n, last chain = Some n -> pn_PID n = ppid) ->
  chain_ok maxDepth pid (extend_chain maxDepth pid ppid pc c chain) /\
  last (extend_chain maxDepth pid ppid pc c chain) = Some (mkProcessNode pid ppid c).
Proof.
  intros Hd Hl Hp. unfold extend_chain. destruct (append_node_ok pid ppid pc c chain) as [Hids Hlast].
  set (l := append_node _ _ _ _ _) in *. assert (linked (fmap ids l)) as Hlk.
  { rewrite Hids. apply linked_snoc; [done|]. intros a (n & Hn & <-)%last_map_ids. simpl. symmetry. by apply Hp. }
  destruct (Z.ltb_spec maxDepth (Z.of_nat (length l))) as [Hlt|Hge].
  - rewrite <- (last_drop (Z.to_nat (Z.of_nat (length l) - maxDepth))) in Hlast by lia. split; [|done].
    split_and!; [rewrite fmap_drop; by apply linked_drop | rewrite length_drop; lia | by eexists].
  - split; [|done]. split_and!; [done..|by eexists].
Qed.

(** ** The walk through /proc *)
Section walk.
Context (proc : Z -> option gostring) (now : Z).

Definition walk_ok (pid cur : Z) (chain : list ProcessNode) : Prop :=
  linked (fmap ids chain) /\
  match chain with
  | [] => cur = pid
  | n :: _ => pn_PPID n = cur /\ exists m, last chain = Some m /\ pn_PID m = pid
  end.

Lemma walk_ok_cons pid cur chain comm ppid :
  walk_ok pid cur chain -> walk_ok pid ppid (mkProcessNode cur ppid comm :: chain).
Proof.
  intros [Hl Hc]. split.
  - rewrite fmap_cons, linked_cons. split; [|done]. destruct chain as [|n chain]; [done|]. intros b [= <-]. apply Hc.
  - split; [done|]. destruct chain as [|n chain]; [by eexists|]. destruct Hc as (_ & m & Hm & Hp).
    exists m. by rewrite last_cons, Hm.
Qed.

Lemma proc_walk_ok fuel maxDepth cache cur chain pid :
  maxDepth - Z.of_nat (length chain) <= Z.of_nat fuel -> walk_ok pid cur chain ->
  Z.of_nat (length chain) <= maxDepth ->
  exists cache' chain' cur', proc_walk proc now fuel maxDepth cache cur chain = Some (cache', chain') /\
    walk_ok pid cur' chain' /\ Z.of_nat (length chain') <= maxDepth.
Proof.
  revert cache cur chain. induction fuel as [|fuel IH]; intros cache cur chain Hf Hw Hl; simpl.
  { destruct (Z.ltb_spec (Z.of_nat (length chain)) maxDepth); [lia|]. simpl. eauto 10. }
  destruct (Z.ltb_spec (Z.of_nat (length chain)) maxDepth); simpl; [|eauto 10].
  destruct (1 <? cur); [|eauto 10]. destruct (lookup_proc proc now cache cur) as [[cache' comm] ppid].
  pose proof (walk_ok_cons pid cur chain comm ppid Hw) as Hw'.
  destruct ((ppid =? 0) || (ppid =? cur)).
  - eexists _, _, ppid. split; [reflexivity|]. split; [done|]. simpl. lia.
  - apply IH; [simpl; lia | done | simpl; lia].
Qed.

Lemma buildChainFromProc_ok cache pid maxDepth :
  exists cache' chain, buildChainFromProc proc now cache pid maxDepth = (cache', chain) /\
    linked (fmap ids chain) /\ Z.of_nat (length chain) <= Z.max 0 maxDepth /\
    (forall n, last chain = Some n -> pn_PID n = pid).
Proof.
  unfold buildChainFromProc. destruct (Z.leb_spec maxDepth 0); [by exists cache, []; split_and!; [done|done|simpl; lia|]|].
  destruct (proc_walk_ok (Z.to_nat maxDepth) maxDepth cache pid [] pid) as (cache' & chain & cur' & -> & [Hl Hc] & Hlen);
    [simpl; lia | done | simpl; lia|].
  exists cache', chain. split; [done|]. split; [done|]. split; [lia|].
  destruct chain as [|n chain]; [done|]. destruct Hc as (_ & m & Hm & Hp). intros n'. rewrite Hm. by intros [= <-].
Qed.

(** Claim C12. The walk up /proc ends: whatever the process table says, also
    when parents form a cycle, the loop runs at most [maxDepth] times, and it
    yields a chain of at most that many processes in which each is the parent
    of the next. *)
Theorem proc_walk_terminates (fuel : nat) (maxDepth pid : Z) (cache : gmap Z procEntry) :
  0 <= maxDepth <= Z.of_nat fuel ->
  exists cache' chain, proc_walk proc now fuel maxDepth cache pid [] = Some (cache', chain) /\
    Z.of_nat (length chain) <= maxDepth /\ linked (fmap ids chain).
Proof.
  intros Hd. destruct (proc_walk_ok fuel maxDepth cache pid [] pid) as (cache' & chain & cur' & E & [Hl _] & Hlen);
    [simpl; lia | done | simpl; lia|]. by exists cache', chain.
Qed.
End walk.

(** ** The tracker *)
Record lineage_inv (lt : LineageTracker) : Prop := {
  li_depth : 0 < lt_maxDepth lt;
  li_chains : forall pid chain, lt_ancestry lt !! pid = Some chain -> chain_ok (lt_maxDepth lt) pid chain;
  li_parents : forall pid info, lt_lineage lt !! pid = Some info ->
    exists n, last (chain_of lt pid) = Some n /\ pn_PPID n = pi_PPID info }.

Lemma chain_of_last lt pid n : lineage_inv lt -> last (chain_of lt pid) = Some n -> pn_PID n = pid.
Proof.
  unfold chain_of. intros Hi. destruct (lt_ancestry lt !! pid) as [chain|] eqn:E; [|done]. simpl.
  destruct (li_chains lt Hi pid chain E) as (_ & _ & m & Hm & Hp). rewrite Hm. by intros [= <-].
Qed.

Lemma chain_of_linked lt pid : lineage_inv lt -> linked (fmap ids (chain_of lt pid)).
Proof.
  unfold chain_of. intros Hi. destruct (lt_ancestry lt !! pid) as [chain|] eqn:E; [|done].
  by destruct (li_chains lt Hi pid chain E).
Qed.

(** The chain the new one is built on, and where it is kept. *)
Lemma buildAncestry_ok proc now lt pid ppid pc c (lt' := buildAncestry proc now lt pid ppid pc c) :
  0 < lt_maxDepth lt ->
  (forall q chain, lt_ancestry lt !! q = Some chain -> chain_ok (lt_maxDepth lt) q chain) ->
  lt_maxDepth lt' = lt_maxDepth lt /\ lt_config lt' = lt_config lt /\ lt_lineage lt' = lt_lineage lt /\
  (forall q chain, lt_ancestry lt' !! q = Some chain -> chain_ok (lt_maxDepth lt) q chain) /\
  last (chain_of lt' pid) = Some (mkProcessNode pid ppid c) /\
  (forall q, q <> pid -> chain_of lt q <> [] \/ q <> ppid -> chain_of lt' q = chain_of lt q).
Proof.
  intros Hd Hc. subst lt'. unfold buildAncestry.
  destruct (buildChainFromProc_ok proc now (lt_procCache lt) ppid (lt_maxDepth lt - 1)) as (cache' & boot & -> & Hbl & Hbn & Hbp).
  assert (forall n, last (chain_of lt ppid) = Some n -> pn_PID n = ppid) as Hpl.
  { unfold chain_of. destruct (lt_ancestry lt !! ppid) as [ch|] eqn:E; [|done]. simpl.
    destruct (Hc ppid ch E) as (_ & _ & m & Hm & Hp). rewrite Hm. by intros n [= <-]. }
  assert (linked (fmap ids (chain_of lt ppid))) as Hpk.
  { unfold chain_of. destruct (lt_ancestry lt !! ppid) as [ch|] eqn:E; [|done]. by destruct (Hc ppid ch E). }
  assert (forall cache' anc ch, linked (fmap ids ch) -> (forall n, last ch = Some n -> pn_PID n = ppid) ->
    (forall q chain, anc !! q = Some chain -> chain_ok (lt_maxDepth lt) q chain) ->
    (forall q, q <> pid -> chain_of lt q <> [] \/ q <> ppid -> anc !! q = lt_ancestry lt !! q) ->
    let lt' := mkLineage (lt_config lt) (lt_lineage lt)
      (<[pid:=extend_chain (lt_maxDepth lt) pid ppid pc c ch]> anc) cache' (lt_maxDepth lt) in
    lt_maxDepth lt' = lt_maxDepth lt /\ lt_config lt' = lt_config lt /\ lt_lineage lt' = lt_lineage lt /\
    (forall q chain, lt_ancestry lt' !! q = Some chain -> chain_ok (lt_maxDepth lt) q chain) /\
    last (chain_of lt' pid) = Some (mkProcessNode pid ppid c) /\
    (forall q, q <> pid -> chain_of lt q <> [] \/ q <> ppid -> chain_of lt' q = chain_of lt q)) as Hgen.
  { intros cache2 anc ch Hl Hp Ha Ho lt'. destruct (extend_chain_ok (lt_maxDepth lt) pid ppid pc c ch Hd Hl Hp) as [Hok Hlast].
    split_and!; [done..| | |].
    - intros q chain. simpl. intros [[<- <-]|[_ Hq]]%lookup_insert_Some; [done|by apply Ha].
    - unfold chain_of. simpl. by rewrite lookup_insert_eq.
    - intros q Hq Hn. unfold chain_of. simpl. rewrite lookup_insert_ne, Ho by done. done. }
  destruct (chain_of lt ppid) as [|n0 ch0] eqn:Ec; [|by apply Hgen].
  destruct boot as [|n1 boot]; [by apply Hgen|]. apply Hgen; [done|done| |].
  - intros q chain [[<- <-]|[_ Hq]]%lookup_insert_Some; [|by apply Hc]. split; [done|]. split; [lia|].
    destruct (last (n1 :: boot)) as [m|] eqn:El; [|by rewrite last_None in El]. exists m. split; [done|by apply Hbp].
  - intros q Hq Hn. rewrite lookup_insert_ne; [done|]. intros <-. destruct Hn as [Hn|Hn]; [by rewrite Ec in Hn|done].
Qed.

Lemma store_ok proc now lt pid ppid pc c (lt' := store proc now lt pid ppid pc c) :
  lineage_inv lt ->
  lineage_inv lt' /\ lt_maxDepth lt' = lt_maxDepth lt /\ lt_config lt' = lt_config lt /\
  last (chain_of lt' pid) = Some (mkProcessNode pid ppid c) /\
  lt_lineage lt' = <[pid := mkParentInfo ppid pc now]> (lt_lineage lt) /\
  (forall q, q <> pid -> chain_of lt q <> [] \/ q <> ppid -> chain_of lt' q = chain_of lt q).
Proof.
  intros [Hd Hc Hp]. subst lt'. unfold store. destruct (unchanged lt pid ppid pc c) eqn:Eu.
  - unfold unchanged in Eu. destruct (lt_lineage lt !! pid) as [info|] eqn:Ei; [|done].
    destruct (last (chain_of lt pid)) as [[np npp nc]|] eqn:El; [|done]. zbool. simpl in *. subst.
    repeat match goal with H : bool_decide _ = true |- _ => apply bool_decide_eq_true in H end. subst.
    split; [|done]. split; simpl; [done|done|]. intros q info' [[<- <-]|[_ Hq]]%lookup_insert_Some; [|by apply Hp].
    eexists. split; [exact El|done].
  - set (lt1 := mkLineage _ _ _ _ _). destruct (buildAncestry_ok proc now lt1 pid ppid pc c Hd Hc) as (Em & Ec & El & Hc' & Hl & Ho).
    split_and!; [|done..]. split; [by rewrite Em|rewrite Em; exact Hc'|].
    rewrite El. simpl. intros q info [[<- <-]|[Hne Hq]]%lookup_insert_Some; [by eexists|].
    destruct (Hp q info Hq) as (n & Hn & E). exists n. split; [|done].
    rewrite Ho; [exact Hn|done|]. left. change (chain_of lt1 q) with (chain_of lt q). intros E'. by rewrite E' in Hn.
Qed.

Lemma getParentInfo_ok proc now lt e lt' ppid pc :
  getParentInfo proc now lt e = (lt', (ppid, pc)) ->
  lt_config lt' = lt_config lt /\ lt_lineage lt' = lt_lineage lt /\ lt_ancestry lt' = lt_ancestry lt /\
  lt_maxDepth lt' = lt_maxDepth lt /\ ppid = if 0 <? ev_PPID e then ev_PPID e else 0.
Proof.
  unfold getParentInfo. destruct (0 <? ev_PPID e); [|by intros [= <- <- <-]].
  case_match; [by intros [= <- <- <-]|]. destruct (lt_lineage lt !! ev_PPID e); [by intros [= <- <- <-]|].
  case_match; [by intros [= <- <- <-]|]. destruct (readProcStatus proc (ev_PPID e)) as [cm gp].
  by destruct (known cm gp); intros [= <- <- <-].
Qed.

Lemma inv_parts lt lt' :
  lt_lineage lt' = lt_lineage lt -> lt_ancestry lt' = lt_ancestry lt -> lt_maxDepth lt' = lt_maxDepth lt ->
  lineage_inv lt -> lineage_inv lt'.
Proof.
  intros E1 E2 E3 [Hd Hc Hp]. split; rewrite ?E1, ?E2, ?E3; [done..|]. unfold chain_of. by rewrite E2.
Qed.

Lemma Track_ok proc now lt e (lt' := Track proc now lt e) :
  lineage_inv lt ->
  lineage_inv lt' /\ lt_maxDepth lt' = lt_maxDepth lt /\ lt_config lt' = lt_config lt /\
  (lg_Enabled (lt_config lt) = true -> 0 < ev_PPID e ->
   last (chain_of lt' (ev_PID e)) = Some (mkProcessNode (ev_PID e) (ev_PPID e) (cleanComm (ev_Comm e)))) /\
  (forall q, q <> ev_PID e -> chain_of lt q <> [] \/ q <> ev_PPID e -> chain_of lt' q = chain_of lt q).
Proof.
  intros Hi. subst lt'. unfold Track. destruct (lg_Enabled (lt_config lt)) eqn:Ee; simpl; [|by split_and!].
  destruct (getParentInfo proc now lt e) as [lt1 [ppid pc]] eqn:E.
  destruct (getParentInfo_ok _ _ _ _ _ _ _ E) as (E1 & E2 & E3 & E4 & Ep).
  pose proof (inv_parts lt lt1 E2 E3 E4 Hi) as Hi1.
  assert (forall q, chain_of lt1 q = chain_of lt q) as Eq by (intros q; unfold chain_of; by rewrite E3).
  destruct (Z.eqb_spec ppid 0) as [->|Hne].
  - split_and!; [done..| |by intros; apply Eq]. intros _ Hpos. destruct (Z.ltb_spec 0 (ev_PPID e)); lia.
  - destruct (Z.ltb_spec 0 (ev_PPID e)); [subst ppid|lia].
    destruct (store_ok proc now lt1 (ev_PID e) (ev_PPID e) pc (cleanComm (ev_Comm e)) Hi1) as (Hi2 & Em & Ec & Hl & _ & Ho).
    split_and!; [done|congruence|congruence|done|]. intros q Hq Hn. rewrite Ho by (rewrite ?Eq; done). apply Eq.
Qed.

Lemma Update_state `{GoLib} proc now lt e : (Update proc now lt e).1 = Track proc now lt e.
Proof.
  unfold Update, Track. destruct (negb _); [done|]. destruct (getParentInfo proc now lt e) as [lt1 [ppid pc]].
  by destruct (ppid =? 0).
Qed.

Lemma Cleanup_chain lt now pid :
  chain_of (Cleanup lt now) pid = if stale_pid lt now pid then [] else chain_of lt pid.
Proof.
  unfold chain_of, Cleanup. simpl. rewrite map_lookup_filter.
  destruct (lt_ancestry lt !! pid) as [chain|]; simpl; [|by destruct (stale_pid _ _ _)].
  unfold guard. case_decide as Hs; simpl in Hs; destruct (stale_pid lt now pid); done.
Qed.

Lemma Cleanup_ok lt now : lineage_inv lt -> lineage_inv (Cleanup lt now).
Proof.
  intros [Hd Hc Hp]. split; simpl; [done| |].
  - intros pid chain [Hl _]%map_lookup_filter_Some. by apply Hc.
  - intros pid info [Hl Hs]%map_lookup_filter_Some. simpl in Hs. rewrite Cleanup_chain.
    destruct (stale_pid lt now pid); [done|]. by apply Hp.
Qed.

Inductive lineage_reach `{GoLib} (cfg : LineageConfig) : LineageTracker -> Prop :=
| lineage_new : lineage_reach cfg (NewLineageTracker cfg)
| lineage_track proc now lt e : lineage_reach cfg lt -> lineage_reach cfg (Track proc now lt e)
| lineage_update proc now lt e : lineage_reach cfg lt -> lineage_reach cfg (Update proc now lt e).1
| lineage_cleanup now lt : lineage_reach cfg lt -> lineage_reach cfg (Cleanup lt now).

Lemma lineage_reach_ok `{GoLib} cfg lt :
  lineage_reach cfg lt ->
  lineage_inv lt /\ lt_config lt = lt_config (NewLineageTracker cfg) /\
  lt_maxDepth lt = lt_maxDepth (NewLineageTracker cfg).
Proof.
  induction 1 as [|proc now lt e _ (Hi & Ec & Em)|proc now lt e _ (Hi & Ec & Em)|now lt _ (Hi & Ec & Em)].
  - split; [|done]. split; simpl; [case_match; zbool; lia|intros ? ? [=]|intros ? ? [=]].
  - destruct (Track_ok proc now lt e Hi) as (? & ? & ? & _). split_and!; congruence || done.
  - rewrite Update_state. destruct (Track_ok proc now lt e Hi) as (? & ? & ? & _). split_and!; congruence || done.
  - split; [by apply Cleanup_ok|done].
Qed.

(** Process trees. In every reachable state each non-empty process
    tree is a chain in which every process is the parent of the next, ends
    with the process it was asked for and has at most [maxDepth] nodes. After
    an event with a parent is tracked, the tree of its process ends with the
    event's identifier, parent and name, and the trees of other processes stay
    as they were, except that a parent without a tree may get one. *)
Theorem lineage_trees `{GoLib} (cfg : LineageConfig) (lt : LineageTracker) (proc : Z -> option gostring) (now : Z) (e : Event) :
  lineage_reach cfg lt -> lg_Enabled cfg = true -> 0 < ev_PPID e ->
  let lt' := Track proc now lt e in
  (forall pid, GetProcessTree lt' pid <> [] -> chain_ok (lt_maxDepth lt') pid (GetProcessTree lt' pid)) /\
  last (GetProcessTree lt' (ev_PID e)) = Some (mkProcessNode (ev_PID e) (ev_PPID e) (cleanComm (ev_Comm e))) /\
  (forall pid, pid <> ev_PID e -> GetProcessTree lt pid <> [] \/ pid <> ev_PPID e ->
     GetProcessTree lt' pid = GetProcessTree lt pid).
Proof.
  intros Hr He Hp lt'. destruct (lineage_reach_ok cfg lt Hr) as (Hi & Ec & _).
  destruct (Track_ok proc now lt e Hi) as (Hi' & _ & _ & Hl & Ho). fold lt' in Hi', Hl, Ho.
  split; [|split; [|exact Ho]].
  - intros pid. unfold GetProcessTree, chain_of. destruct (lt_ancestry lt' !! pid) as [chain|] eqn:E; [|done].
    intros _. by apply (li_chains lt' Hi').
  - apply Hl; [|done]. rewrite Ec. simpl. by destruct (lg_TTL cfg <=? 0).
Qed.

(** Expiry of process trees: a cleanup removes exactly the trees of
    the processes whose own last event is older than the time to live. The
    tree of a process that never had an event of its own, made for it when one
    of its children was tracked, is therefore never removed, at whatever times
    cleanups run. *)
Theorem lineage_expiry (lt : LineageTracker) (now pid : Z) (times : list Z) :
  GetProcessTree (Cleanup lt now) pid =
    match lt_lineage lt !! pid with
    | Some info => if lg_TTL (lt_config lt) <? time_Sub now (pi_Timestamp info) then [] else GetProcessTree lt pid
    | None => GetProcessTree lt pid
    end /\
  (lt_lineage lt !! pid = None -> GetProcessTree (foldl Cleanup lt times) pid = GetProcessTree lt pid).
Proof.
  unfold GetProcessTree. split; [rewrite Cleanup_chain; unfold stale_pid, stale; by destruct (lt_lineage lt !! pid)|].
  revert lt. induction times as [|t times IH]; intros lt Hn; simpl; [done|]. rewrite IH.
  - rewrite Cleanup_chain. unfold stale_pid. by rewrite Hn.
  - simpl. rewrite map_lookup_filter, Hn. done.
Qed.

Lemma Track_lineage proc now lt e pc :
  lg_Enabled (lt_config lt) = true -> 0 < ev_PPID e -> cleanComm (ev_ParentComm e) = pc -> pc <> ""%string ->
  lineage_inv lt ->
  lt_lineage (Track proc now lt e) !! ev_PID e = Some (mkParentInfo (ev_PPID e) pc now).
Proof.
  intros He Hp Epc Hne Hi. unfold Track, getParentInfo. rewrite He. cbn [negb].
  destruct (Z.ltb_spec 0 (ev_PPID e)); [|lia]. rewrite Epc, bool_decide_eq_false_2 by done. cbn [negb].
  destruct (Z.eqb_spec (ev_PPID e) 0); [lia|].
  destruct (store_ok proc now lt (ev_PID e) (ev_PPID e) pc (cleanComm (ev_Comm e)) Hi) as (_ & _ & _ & _ & -> & _).
  by rewrite lookup_insert_eq.
Qed.

(** The parent's name skips a generation: when an event carries no
    parent name and its parent process has been tracked, the patterns are
    matched against the name of the parent's parent, not of the parent. *)
Theorem parent_name_skips_generation `{GoLib} (cfg : LineageConfig) (lt : LineageTracker)
    (proc proc' : Z -> option gostring) (now now' : Z) (e child : Event) (grandparent : gostring) :
  lineage_reach cfg lt -> lg_Enabled cfg = true ->
  0 < ev_PPID e -> cleanComm (ev_ParentComm e) = grandparent -> grandparent <> ""%string ->
  0 < ev_PID e -> ev_PPID child = ev_PID e -> cleanComm (ev_ParentComm child) = ""%string ->
  let comm := cleanComm (ev_Comm child) in
  (Update proc' now' (Track proc now lt e) child).2 =
  (fun p => mkLineageMatch p (ev_PID child) comm (ev_PID e) grandparent) <$>
    List.find (pattern_matches child grandparent comm) (lg_Patterns cfg).
Proof.
  intros Hr He Hp Eg Hg Hpid Ec Ecc comm. destruct (lineage_reach_ok cfg lt Hr) as (Hi & Econf & _).
  assert (lg_Enabled (lt_config lt) = true) as He' by (rewrite Econf; simpl; by destruct (lg_TTL cfg <=? 0)).
  assert (lg_Patterns (lt_config lt) = lg_Patterns cfg) as Ep by (rewrite Econf; simpl; by destruct (lg_TTL cfg <=? 0)).
  pose proof (Track_lineage proc now lt e grandparent He' Hp Eg Hg Hi) as Hl.
  destruct (Track_ok proc now lt e Hi) as (Hi1 & _ & Ec1 & _). set (lt1 := Track proc now lt e) in *.
  unfold Update. rewrite Ec1, He'. cbn [negb]. unfold getParentInfo. rewrite Ec.
  destruct (Z.ltb_spec 0 (ev_PID e)); [|lia]. rewrite Ecc, bool_decide_eq_true_2 by done. cbn [negb]. rewrite Hl.
  destruct (Z.eqb_spec (ev_PID e) 0); [lia|]. cbn [snd pi_ParentComm]. unfold checkPattern.
  destruct (store_ok proc' now' lt1 (ev_PID child) (ev_PID e) grandparent comm Hi1) as (_ & _ & Es & _).
  fold comm. by rewrite Es, Ec1, Ep.
Qed.

(** ** Witnesses *)
Module Example_lineage.
#[local] Existing Instance sample_lib.

Definition spawn (pid ppid : Z) (comm parent : gostring) : Event :=
  mkEvent EventSyscall 0 pid pid ppid 0 (string_bytes comm) (string_bytes parent) (Some (mkSyscallEvent 59 0 [])) None
    None None None None None None None None None None None None None None ""%string false.

(** Processes 5 and 6 are each other's parent. *)
Definition cyclic (pid : Z) : option gostring :=
  if pid =? 5 then Some ("Name: a" +:+ String newline "PPid: 6")%string
  else if pid =? 6 then Some ("Name: b" +:+ String newline "PPid: 5")%string else None.

Lemma proc_walk_witness :
  exists cache chain, proc_walk cyclic 0 4 4 ∅ 5 [] = Some (cache, chain) /\
    chain = [mkProcessNode 6 5 "b"; mkProcessNode 5 6 "a"; mkProcessNode 6 5 "b"; mkProcessNode 5 6 "a"]%string.
Proof.
  destruct (proc_walk_terminates cyclic 0 4 4 5 ∅) as (cache & chain & E & _ & _); [lia|].
  exists cache, chain. split; [exact E|].
  assert (snd <$> proc_walk cyclic 0 4 4 ∅ 5 [] =
    Some [mkProcessNode 6 5 "b"; mkProcessNode 5 6 "a"; mkProcessNode 6 5 "b"; mkProcessNode 5 6 "a"]%string) as G
    by (vm_compute; reflexivity).
  rewrite E in G. by injection G.
Defined.

Definition tracker : LineageTracker := NewLineageTracker DefaultLineageConfig.

Lemma lineage_trees_witness :
  last (GetProcessTree (Track cyclic 10 tracker (spawn 7 5 "sh" "a")) 7) = Some (mkProcessNode 7 5 "sh") /\
  GetProcessTree (Track cyclic 10 tracker (spawn 7 5 "sh" "a")) 9 = [].
Proof.
  destruct (lineage_trees DefaultLineageConfig tracker cyclic 10 (spawn 7 5 "sh" "a")) as (_ & Hl & Ho).
  - constructor.
  - reflexivity.
  - reflexivity.
  - split; [exact Hl|]. rewrite Ho; [reflexivity | discriminate | right; discriminate].
Defined.

(** nginx starts bash, bash starts curl; the event of curl has no parent
    name. The pattern for shells that start network tools does not fire. *)
Lemma skips_generation_witness :
  (Update cyclic 20 (Track cyclic 10 tracker (spawn 20 10 "bash" "nginx")) (spawn 30 20 "curl" "")).2 = None /\
  (lp_Name ∘ lmt_Pattern <$>
     (Update cyclic 20 (Track cyclic 10 tracker (spawn 20 10 "bash" "nginx")) (spawn 30 20 "curl" "bash")).2)
  = Some "shell_network_tool"%string.
Proof.
  split; [|vm_compute; reflexivity].
  rewrite (parent_name_skips_generation DefaultLineageConfig tracker cyclic cyclic 10 20 (spawn 20 10 "bash" "nginx")
    (spawn 30 20 "curl" "") "nginx"%string).
  - vm_compute. reflexivity.
  - constructor.
  - reflexivity.
  - reflexivity.
  - vm_compute. reflexivity.
  - discriminate.
  - reflexivity.
  - reflexivity.
  - vm_compute. reflexivity.
Defined.
End Example_lineage.
