(* ===== verification/Feedback.v ===== *)
(** * Analyst feedback

    Models src/internal/feedback/manager.go: verdicts on alerts, the
    suppression of the (rule, process name) pairs judged false positives, and
    the records that are written to and read from a file. The YAML text is
    modelled by the records it holds; a call of [time.Now] is an argument. *)
From S2P Require Import Prelude Types.

Definition VerdictFalsePositive : gostring := "false_positive"%string.
Definition VerdictTruePositive : gostring := "true_positive"%string.

Record Response := mkResponse { rs_AlertID : gostring; rs_Verdict : gostring; rs_Suppressed : bool }.

Record FeedbackRecord := mkRecord {
  fr_AlertID : gostring; fr_Verdict : gostring; fr_RuleID : gostring; fr_Comm : gostring;
  fr_Timestamp : Z; fr_Reason : gostring }.

Definition anomalyRuleID : gostring := "anomaly_detection"%string.

Record Manager := mkManager {
  fm_records : list FeedbackRecord; fm_suppressions : gset (gostring * gostring);
  fm_anomalySuppressions : gset gostring; fm_exportPath : gostring }.

Definition NewManager (exportPath : gostring) : Manager := mkManager [] ∅ ∅ exportPath.

(** The sets after a record of this verdict. *)
Definition suppress (verdict ruleID comm : gostring) (s : gset (gostring * gostring)) (a : gset gostring) :
  gset (gostring * gostring) * gset gostring :=
  if decide (verdict = VerdictFalsePositive)
  then ({[(ruleID, comm)]} ∪ s, if decide (ruleID = anomalyRuleID) then {[comm]} ∪ a else a)
  else (s, a).

(** A new entry was added to one of the sets. *)
Definition newly_suppressed (verdict ruleID comm : gostring) (m : Manager) : bool :=
  bool_decide (verdict = VerdictFalsePositive) &&
  (bool_decide ((ruleID, comm) ∉ fm_suppressions m) ||
   bool_decide (ruleID = anomalyRuleID) && bool_decide (comm ∉ fm_anomalySuppressions m)).

(** The records written to the export file; nothing without a path. *)
Definition ExportToFile (m : Manager) : option (list FeedbackRecord) :=
  if decide (fm_exportPath m = ""%string) then None else Some (fm_records m).

Definition Submit (m : Manager) (now : Z) (alert : Alert) (verdict reason : gostring) :
  Manager * Response * option (list FeedbackRecord) :=
  let rec := mkRecord (al_ID alert) verdict (al_RuleID alert) (al_Comm alert) now reason in
  let '(s, a) := suppress verdict (al_RuleID alert) (al_Comm alert) (fm_suppressions m) (fm_anomalySuppressions m) in
  let m' := mkManager (fm_records m ++ [rec]) s a (fm_exportPath m) in
  (m', mkResponse (al_ID alert) verdict (newly_suppressed verdict (al_RuleID alert) (al_Comm alert) m), ExportToFile m').

Definition IsSuppressed (m : Manager) (ruleID comm : gostring) : bool :=
  bool_decide ((ruleID, comm) ∈ fm_suppressions m) ||
  bool_decide (ruleID = anomalyRuleID) && bool_decide (comm ∈ fm_anomalySuppressions m).

Fixpoint FilterAlerts (m : Manager) (alerts : list Alert) : list Alert :=
  match alerts with
  | [] => []
  | a :: alerts =>
      if bool_decide ((al_RuleID a, al_Comm a) ∈ fm_suppressions m) then FilterAlerts m alerts
      else if bool_decide (al_RuleID a = anomalyRuleID) && bool_decide (al_Comm a ∈ fm_anomalySuppressions m)
      then FilterAlerts m alerts
      else a :: FilterAlerts m alerts
  end.

Definition SuppressionCount (m : Manager) : Z :=
  Z.of_nat (size (fm_suppressions m)) + Z.of_nat (size (fm_anomalySuppressions m)).

(** The records of the file, when it exists, are appended and applied. *)
Definition load_record (m : Manager) (rec : FeedbackRecord) : Manager :=
  let '(s, a) := suppress (fr_Verdict rec) (fr_RuleID rec) (fr_Comm rec) (fm_suppressions m) (fm_anomalySuppressions m) in
  mkManager (fm_records m ++ [rec]) s a (fm_exportPath m).

Definition LoadFromFile (file : option (list FeedbackRecord)) (m : Manager) : Manager :=
  if decide (fm_exportPath m = ""%string) then m
  else match file with None => m | Some recs => foldl load_record m recs end.

(** * Theorems *)

(** Submissions, and restarts that load what the last submission wrote. *)
Inductive feedback_run (path : gostring) : Manager -> Prop :=
| feedback_new : feedback_run path (NewManager path)
| feedback_submit m now alert verdict reason :
    feedback_run path m -> feedback_run path (Submit m now alert verdict reason).1.1
| feedback_restart m : feedback_run path m -> feedback_run path (LoadFromFile (ExportToFile m) (NewManager path)).

(** Some record judges the pair a false positive. *)
Definition judged (recs : list FeedbackRecord) (ruleID comm : gostring) : bool :=
  existsb (fun r => bool_decide (fr_Verdict r = VerdictFalsePositive) && bool_decide (fr_RuleID r = ruleID) &&
                    bool_decide (fr_Comm r = comm)) recs.

Definition feedback_inv (m : Manager) : Prop :=
  (forall r c, (r, c) ∈ fm_suppressions m <-> judged (fm_records m) r c = true) /\
  (forall c, c ∈ fm_anomalySuppressions m <-> judged (fm_records m) anomalyRuleID c = true).

Lemma load_record_inv m rec : feedback_inv m -> feedback_inv (load_record m rec).
Proof.
  intros [Hs Ha]. unfold load_record, suppress.
  assert (forall r c, judged (fm_records m ++ [rec]) r c = true <->
    judged (fm_records m) r c = true \/ fr_Verdict rec = VerdictFalsePositive /\ fr_RuleID rec = r /\ fr_Comm rec = c) as Hj.
  { intros r c. unfold judged. rewrite existsb_app, orb_true_iff. simpl.
    rewrite orb_false_r, !andb_true_iff, !bool_decide_eq_true. tauto. }
  destruct (decide (fr_Verdict rec = VerdictFalsePositive)) as [Ev|Ev]; split; simpl; intros.
  - rewrite elem_of_union, elem_of_singleton, Hj, Hs. split; [intros [[= -> ->]|]; auto | intros [|(_ & <- & <-)]; auto].
  - case_decide as Er; [rewrite elem_of_union, elem_of_singleton|]; rewrite Hj, Ha; [|tauto].
    split; [intros [->|]; auto | intros [|(_ & _ & <-)]; auto].
  - rewrite Hj, Hs. tauto.
  - rewrite Hj, Ha. tauto.
Qed.

Lemma Submit_load m now alert verdict reason :
  (Submit m now alert verdict reason).1.1 =
  load_record m (mkRecord (al_ID alert) verdict (al_RuleID alert) (al_Comm alert) now reason).
Proof. unfold Submit, load_record. simpl. by destruct (suppress _ _ _ _ _). Qed.

Lemma load_record_path m rec : fm_exportPath (load_record m rec) = fm_exportPath m.
Proof. unfold load_record. by destruct (suppress _ _ _ _ _). Qed.

Lemma load_records recs m : fm_records (foldl load_record m recs) = fm_records m ++ recs.
Proof.
  revert m. induction recs as [|rec recs IH]; intros m; simpl; [by rewrite app_nil_r|]. rewrite IH.
  unfold load_record. destruct (suppress _ _ _ _ _). simpl. by rewrite <- app_assoc.
Qed.

Lemma load_inv recs m : feedback_inv m -> feedback_inv (foldl load_record m recs).
Proof. revert m. induction recs as [|rec recs IH]; intros m Hm; simpl; [done|]. by apply IH, load_record_inv. Qed.

Lemma feedback_new_inv path : feedback_inv (NewManager path).
Proof. split; simpl; intros; split; intros Hx; (by apply elem_of_empty in Hx) || done. Qed.

Lemma feedback_run_ok path m : feedback_run path m -> feedback_inv m /\ fm_exportPath m = path.
Proof.
  induction 1 as [|m now alert verdict reason _ [Hi Hp]|m _ [Hi Hp]]; [by split; [apply feedback_new_inv|] | |].
  - rewrite Submit_load, load_record_path. split; [by apply load_record_inv|done].
  - unfold LoadFromFile, ExportToFile. simpl. rewrite Hp. case_decide as E; [by split; [apply feedback_new_inv|]|].
    split; [by apply load_inv, feedback_new_inv|]. clear. assert (forall m recs, fm_exportPath (foldl load_record m recs) = fm_exportPath m) as H.
    { intros m' recs. revert m'. induction recs as [|rec recs IH]; intros m'; simpl; [done|]. by rewrite IH, load_record_path. }
    by rewrite H.
Qed.

Lemma FilterAlerts_filter m alerts :
  FilterAlerts m alerts = base.filter (fun a => ~ IsSuppressed m (al_RuleID a) (al_Comm a)) alerts.
Proof.
  induction alerts as [|a alerts IH]; simpl; [done|]. rewrite filter_cons, IH. unfold IsSuppressed.
  case_decide as Hd; revert Hd;
    destruct (bool_decide ((al_RuleID a, al_Comm a) ∈ fm_suppressions m)),
      (bool_decide (al_RuleID a = anomalyRuleID) && bool_decide (al_Comm a ∈ fm_anomalySuppressions m));
    cbn [orb Is_true]; tauto || done.
Qed.

(** Feedback suppresses what was judged, and survives a restart.
    After any sequence of submissions and restarts, the alerts that pass the
    filter are, in their order, those whose rule and process name no recorded
    verdict calls a false positive; and when records are exported, loading the
    export into a new manager gives the same records and lets the same alerts
    pass. A later verdict that the alerts are true positives does not lift the
    suppression. *)
Theorem feedback_suppression (path : gostring) (m : Manager) (alerts : list Alert) :
  feedback_run path m ->
  FilterAlerts m alerts =
    base.filter (fun a => ~ judged (fm_records m) (al_RuleID a) (al_Comm a)) alerts /\
  (path <> ""%string ->
   let m' := LoadFromFile (ExportToFile m) (NewManager path) in
   fm_records m' = fm_records m /\ FilterAlerts m' alerts = FilterAlerts m alerts).
Proof.
  intros Hr. assert (forall m', feedback_run path m' -> FilterAlerts m' alerts =
    base.filter (fun a => ~ judged (fm_records m') (al_RuleID a) (al_Comm a)) alerts) as Hf.
  { intros m' Hr'. destruct (feedback_run_ok path m' Hr') as [[Hs Ha] _]. rewrite FilterAlerts_filter.
    apply list_filter_iff. intros a. unfold IsSuppressed.
    rewrite !Is_true_true, orb_true_iff, andb_true_iff, !bool_decide_eq_true, Hs, Ha.
    split; [tauto|]. intros Hn [Hx|[E Hx]]; [done|]. by rewrite E in Hn. }
  split; [by apply Hf|]. intros Hp m'. assert (fm_records m' = fm_records m) as E.
  { subst m'. unfold LoadFromFile, ExportToFile. simpl. rewrite (proj2 (feedback_run_ok path m Hr)).
    rewrite !decide_False by done. by rewrite load_records. }
  split; [done|]. rewrite (Hf m), (Hf m') by (try done; by apply feedback_restart). by rewrite E.
Qed.

Lemma feedback_witness :
  let a := mkAlert "a1" 0 "r" "" "" 7 "sh" "" "" "" None empty_enrichment empty_event [] "" "" false [] 0 0 0 "" in
  let b := mkAlert "b1" 0 "r" "" "" 8 "curl" "" "" "" None empty_enrichment empty_event [] "" "" false [] 0 0 0 "" in
  let m := (Submit (Submit (NewManager "f") 0 a VerdictFalsePositive "").1.1 1 a VerdictTruePositive "").1.1 in
  FilterAlerts (LoadFromFile (ExportToFile m) (NewManager "f")) [a; b] = [b].
Proof.
  intros a b m. destruct (feedback_suppression "f" m [a; b]) as [E H].
  - do 2 apply feedback_submit. constructor.
  - destruct H as [_ ->]; [discriminate|]. rewrite E. reflexivity.
Defined.
