(* ===== verification/TraceCtx.v ===== *)
(** * Trace context of a process

    Models src/internal/correlator/trace_extractor.go: the trace identifiers in
    the environment of a process (W3C, OpenTelemetry, Datadog and Jaeger
    conventions, in that order) and the cache of the lookups. The content of
    /proc/<pid>/environ is an argument. *)
From Stdlib Require Import Ascii.
From S2P Require Import Prelude Types Fields Lineage.

Definition traceContextTTL : Z := 30 * Second.

Record traceCacheEntry := mkTraceEntry { te_tc : option TraceContext; te_expires : Z }.
Definition traceContextCache : Type := gmap Z traceCacheEntry.
Definition newTraceContextCache : traceContextCache := ∅.

(** ** Parsing *)
Fixpoint index_byte (c : ascii) (s : gostring) : option nat :=
  match s with
  | EmptyString => None
  | String a s => if decide (a = c) then Some O else S <$> index_byte c s
  end.

Definition string_to (n : nat) (s : gostring) : gostring := String.substring 0 n s.
Definition string_from (n : nat) (s : gostring) : gostring := String.substring n (String.length s - n) s.

(** Entries with a name, the last one of a name kept. *)
Definition parseEnviron (data : gostring) : gmap gostring gostring :=
  foldl (fun env entry =>
      match index_byte "=" entry with
      | Some (S i) => <[string_to (S i) entry := string_from (S (S i)) entry]> env
      | _ => env
      end) ∅ (split_char Ascii.zero "" data).

(** [strings.SplitN(s, sep, n)]: the last part keeps its separators. *)
Fixpoint split_n (n : nat) (sep : ascii) (acc s : gostring) : list gostring :=
  match n, s with
  | S (S _), String c s' =>
      if decide (c = sep) then acc :: split_n (pred n) sep EmptyString s'
      else split_n n sep (acc +:+ String c EmptyString) s'
  | _, _ => [(acc +:+ s)%string]
  end.

Definition is_len (n : nat) (s : gostring) : bool := Nat.eqb (String.length s) n.

Definition parseTraceparent (tp : gostring) : option TraceContext :=
  match split_n 4 "-" "" tp with
  | [version; traceID; spanID; flags] =>
      if bool_decide (version = "ff"%string) then None
      else if negb (is_len 32 traceID && is_len 16 spanID && is_len 2 flags) then None
      else Some (mkTraceContext traceID spanID flags "" "")
  | _ => None
  end.

(** [fmt.Sprintf("%0<n>s", s)] of an ASCII string *)
Fixpoint zeros_string (n : nat) : gostring := match n with O => ""%string | S n => String "0" (zeros_string n) end.
Definition zero_pad (n : nat) (s : gostring) : gostring := (zeros_string (n - String.length s) +:+ s)%string.

Definition parseJaegerTraceID (val : gostring) : option TraceContext :=
  match split_n 4 ":" "" val with
  | traceID :: spanID :: _ =>
      if bool_decide (traceID = ""%string) || bool_decide (traceID = "0"%string) then None
      else Some (mkTraceContext
        (if Nat.leb (String.length traceID) 16 then zero_pad 32 traceID else traceID)
        (if Nat.leb (String.length spanID) 16 then zero_pad 16 spanID else spanID) "" "" "")
  | _ => None
  end.

(** [fmt.Sscanf(s, "%d", &v)] for a [uint64]: leading blanks are skipped, a
    newline among them is an error, what follows the digits is ignored. *)
Fixpoint skip_blanks (s : gostring) : option gostring :=
  match s with
  | String c s' => if decide (c = newline) then None else if is_space c then skip_blanks s' else Some s
  | EmptyString => Some EmptyString
  end.
Fixpoint leading_digits (s : gostring) : gostring :=
  match s with
  | String c s =>
      let n := N_of_ascii c in
      if (48 <=? n)%N && (n <=? 57)%N then String c (leading_digits s) else EmptyString
  | EmptyString => EmptyString
  end.
Definition Sscan_uint64 (s : gostring) : option Z :=
  s ← skip_blanks s; n ← decimal (leading_digits s); if n <? 2 ^ 64 then Some n else None.

Definition datadogDecimalToHex (s : gostring) : gostring :=
  if bool_decide (s = ""%string) then ""%string
  else match Sscan_uint64 s with Some v => zero_pad 32 (hex v) | None => ""%string end.

(** ** Extraction *)
Definition with_source (tc : TraceContext) (source : gostring) : TraceContext :=
  mkTraceContext (tc_TraceID tc) (tc_SpanID tc) (tc_TraceFlags tc) (tc_TraceState tc) source.

Definition w3c_context (env : gmap gostring gostring) : option TraceContext :=
  tp ← env !! "TRACEPARENT"%string;
  tc ← parseTraceparent tp;
  Some (mkTraceContext (tc_TraceID tc) (tc_SpanID tc) (tc_TraceFlags tc)
          (default (tc_TraceState tc) (env !! "TRACESTATE"%string)) "environ").

Definition otel_context (env : gmap gostring gostring) : option TraceContext :=
  id ← keep_if (fun v => negb (bool_decide (v = ""%string))) (env !! "OTEL_TRACE_ID"%string);
  Some (mkTraceContext id (default ""%string (env !! "OTEL_SPAN_ID"%string)) "" "" "environ").

Definition datadog_context (env : gmap gostring gostring) : option TraceContext :=
  id ← keep_if (fun v => negb (bool_decide (v = ""%string))) (env !! "DD_TRACE_ID"%string);
  let tc := mkTraceContext (datadogDecimalToHex id)
              (datadogDecimalToHex (default ""%string (env !! "DD_SPAN_ID"%string))) "" "" "environ" in
  if bool_decide (tc_TraceID tc = ""%string) then None else Some tc.

Definition jaeger_context (env : gmap gostring gostring) (key : gostring) : option TraceContext :=
  val ← keep_if (fun v => negb (bool_decide (v = ""%string))) (env !! key);
  tc ← parseJaegerTraceID val;
  Some (with_source tc "environ").

Fixpoint first_some {A} (l : list (option A)) : option A :=
  match l with [] => None | Some a :: _ => Some a | None :: l => first_some l end.

Definition extract_env (env : gmap gostring gostring) : option TraceContext :=
  first_some [w3c_context env; otel_context env; datadog_context env;
              jaeger_context env "UBER_TRACE_ID"; jaeger_context env "JAEGER_TRACE_ID"].

Definition extractTraceContext (environ : Z -> option gostring) (pid : Z) : option TraceContext :=
  data ← environ pid; extract_env (parseEnviron data).

(** ** The cache *)
Definition lookup_trace (environ : Z -> option gostring) (pid now : Z) (c : traceContextCache) :
  traceContextCache * option TraceContext :=
  match keep_if (fun e => time_Before now (te_expires e)) (c !! pid) with
  | Some e => (c, te_tc e)
  | None =>
      let tc := extractTraceContext environ pid in
      (<[pid := mkTraceEntry tc (time_Add now traceContextTTL)]> c, tc)
  end.

Definition cleanup_traces (now : Z) (c : traceContextCache) : traceContextCache :=
  base.filter (fun kv : Z * traceCacheEntry => time_Before now (te_expires kv.2)) c.

(** * Theorems *)

Lemma length_append a b : String.length (a +:+ b)%string = (String.length a + String.length b)%nat.
Proof. induction a as [|c a IH]; simpl; [done|]. change (S (String.length (a +:+ b)) = S (String.length a + String.length b)). by rewrite IH. Qed.

Lemma append_nil_r (a : gostring) : (a +:+ "")%string = a.
Proof. induction a as [|c a IH]; [done|]. change (String c (a +:+ "") = String c a). by rewrite IH. Qed.

Lemma append_cons_assoc (a b : gostring) c : (a +:+ String c b)%string = ((a +:+ String c "") +:+ b)%string.
Proof. induction a as [|d a IH]; [done|]. change (String d (a +:+ String c b) = String d ((a +:+ String c "") +:+ b)). by rewrite IH. Qed.

(** The text holds no [sep]. *)
Definition free_of (sep : ascii) (s : gostring) : Prop := index_byte sep s = None.

Lemma split_n_part n sep acc part s :
  free_of sep part -> split_n (S (S n)) sep acc (part +:+ String sep s)%string =
  (acc +:+ part)%string :: split_n (S n) sep "" s.
Proof.
  revert acc. induction part as [|c part IH]; intros acc Hf.
  - change (split_n (S (S n)) sep acc (String sep s) = (acc +:+ "")%string :: split_n (S n) sep "" s).
    simpl. rewrite decide_True by done. by rewrite append_nil_r.
  - unfold free_of in Hf. simpl in Hf. destruct (decide (c = sep)) as [|Hc]; [done|].
    destruct (index_byte sep part) eqn:Ei; [done|].
    change ((String c part +:+ String sep s)%string) with (String c (part +:+ String sep s)%string).
    cbn [split_n]. rewrite decide_False by done. rewrite IH by done. by rewrite (append_cons_assoc acc part c).
Qed.

(** W3C trace context: a [traceparent] value built from a version
    other than the reserved one, a trace identifier of 32, a span identifier of
    16 and flags of 2 characters, none with a hyphen before the flags, is
    parsed back into these parts; a value with less than four parts or parts
    of other lengths gives nothing. The characters are not checked to be
    hexadecimal digits. *)
Theorem traceparent_roundtrip (version traceID spanID flags : gostring) :
  free_of "-" version -> free_of "-" traceID -> free_of "-" spanID ->
  parseTraceparent (version +:+ String "-" (traceID +:+ String "-" (spanID +:+ String "-" flags)))%string =
    if decide (version <> "ff"%string /\ String.length traceID = 32%nat /\ String.length spanID = 16%nat /\
               String.length flags = 2%nat)
    then Some (mkTraceContext traceID spanID flags "" "") else None.
Proof.
  intros Hv Ht Hs. unfold parseTraceparent. rewrite !split_n_part by done.
  assert (split_n 1 "-" "" flags = [flags]) as -> by by destruct flags.
  change (("" +:+ version)%string) with version. change (("" +:+ traceID)%string) with traceID.
  change (("" +:+ spanID)%string) with spanID.
  case_bool_decide as Hff; [by rewrite decide_False by tauto|]. unfold is_len.
  destruct (Nat.eqb_spec (String.length traceID) 32), (Nat.eqb_spec (String.length spanID) 16),
    (Nat.eqb_spec (String.length flags) 2); cbn [andb negb];
    case_decide; tauto || done.
Qed.

Lemma hex_digits_length fuel z acc :
  (String.length (hex_digits fuel z acc) <= fuel + String.length acc)%nat.
Proof.
  revert z acc. induction fuel as [|fuel IH]; intros z acc; simpl; [lia|].
  destruct (z <? 16); simpl; [lia|]. etransitivity; [apply IH|]. simpl. lia.
Qed.

Lemma zeros_string_length n : String.length (zeros_string n) = n.
Proof. induction n; simpl; congruence. Qed.

Lemma zero_pad_length n s : (String.length s <= n)%nat -> String.length (zero_pad n s) = n.
Proof. intros Hs. unfold zero_pad. rewrite length_append, zeros_string_length. lia. Qed.

(** Datadog identifiers: whenever an environment without the other
    conventions names a trace identifier that starts with a decimal 64-bit
    number, the context has a trace identifier of 32 characters, and a span
    identifier that also is a number comes out with 32 characters too, twice
    the width of a span identifier. *)
Theorem datadog_widths (env : gmap gostring gostring) (trace span : gostring) (t s : Z) :
  w3c_context env = None -> otel_context env = None ->
  env !! "DD_TRACE_ID"%string = Some trace -> env !! "DD_SPAN_ID"%string = Some span ->
  Sscan_uint64 trace = Some t -> Sscan_uint64 span = Some s ->
  exists tc, extract_env env = Some tc /\ String.length (tc_TraceID tc) = 32%nat /\
    String.length (tc_SpanID tc) = 32%nat.
Proof.
  intros Hw Ho Ht Hs Et Es.
  assert (forall x v, Sscan_uint64 x = Some v -> datadogDecimalToHex x = zero_pad 32 (hex v)) as Hd.
  { intros x v E. unfold datadogDecimalToHex. rewrite E. case_bool_decide; [by subst|done]. }
  assert (forall v, String.length (zero_pad 32 (hex v)) = 32%nat) as Hl.
  { intros v. apply zero_pad_length. unfold hex. etransitivity; [apply hex_digits_length|]. simpl. lia. }
  unfold extract_env. rewrite Hw, Ho. cbn [first_some].
  assert (datadog_context env = Some (mkTraceContext (zero_pad 32 (hex t)) (zero_pad 32 (hex s)) "" "" "environ")) as ->.
  { unfold datadog_context, keep_if. rewrite Ht. cbn [mbind option_bind].
    rewrite bool_decide_eq_false_2 by (intros ->; done). cbn [negb mbind option_bind].
    rewrite Hs. change (default ""%string (Some span)) with span. cbn [tc_TraceID]. rewrite (Hd trace t Et), (Hd span s Es).
    rewrite bool_decide_eq_false_2; [done|]. intros E. pose proof (Hl t) as Hx. by rewrite E in Hx. }
  eexists. split; [reflexivity|]. simpl. by rewrite !Hl.
Qed.

(** What a lookup may return at [now]: what the environment held at a time
    less than the time to live ago. *)
Inductive trace_run : list (Z * (Z -> option gostring)) -> traceContextCache -> Prop :=
| trace_new : trace_run [] newTraceContextCache
| trace_lookup reads c environ pid now :
    trace_run reads c -> trace_run ((now, environ) :: reads) (lookup_trace environ pid now c).1
| trace_cleanup reads c now : trace_run reads c -> trace_run reads (cleanup_traces now c).

Definition entry_ok (reads : list (Z * (Z -> option gostring))) (pid : Z) (e : traceCacheEntry) : Prop :=
  exists t environ, (t, environ) ∈ reads /\ te_expires e = time_Add t traceContextTTL /\
    te_tc e = extractTraceContext environ pid.

Lemma trace_run_ok reads c : trace_run reads c -> map_Forall (entry_ok reads) c.
Proof.
  induction 1 as [|reads c environ pid now _ IH|reads c now _ IH].
  - apply map_Forall_empty.
  - assert (map_Forall (entry_ok ((now, environ) :: reads)) c) as IH'.
    { intros k e He. destruct (IH k e He) as (t & env & Hin & E). exists t, env. split; [by right|done]. }
    unfold lookup_trace. destruct (keep_if _ _); [done|]. simpl. apply map_Forall_insert_2; [|done].
    exists now, environ. split; [by left|done].
  - apply map_Forall_lookup. intros k e [He _]%map_lookup_filter_Some. by apply IH.
Qed.

(** The cache of trace contexts is never older than its time to
    live: after any sequence of lookups and cleanups, a lookup returns what
    the environment of the process holds now or held at an earlier lookup less
    than thirty seconds ago, also when that was nothing. *)
Theorem trace_cache_fresh (reads : list (Z * (Z -> option gostring))) (c : traceContextCache)
    (environ : Z -> option gostring) (pid now : Z) :
  trace_run reads c ->
  exists t env, (t, env) ∈ (now, environ) :: reads /\ now < t + traceContextTTL /\
    (lookup_trace environ pid now c).2 = extractTraceContext env pid.
Proof.
  intros Hr. pose proof (trace_run_ok reads c Hr) as Hc. unfold lookup_trace, keep_if.
  assert (exists t env, (t, env) ∈ (now, environ) :: reads /\ now < t + traceContextTTL /\
    extractTraceContext environ pid = extractTraceContext env pid) as Hnow.
  { exists now, environ. split; [by left|]. split; [unfold traceContextTTL, Second; lia|done]. }
  destruct (c !! pid) as [e|] eqn:Ec; cbn [mbind option_bind]; [|exact Hnow].
  destruct (time_Before now (te_expires e)) eqn:Eb; [|exact Hnow].
  destruct (Hc pid e Ec) as (t & env & Hin & Ee & Et). exists t, env. split; [by right|]. split; [|done].
  unfold time_Before in Eb. rewrite Ee in Eb. unfold time_Add in Eb. by apply Z.ltb_lt.
Qed.

(** ** Witnesses *)
Module Example_traces.
Lemma traceparent_witness :
  parseTraceparent "00-0af7651916cd43dd8448eb211c80319c-b7ad6b7169203331-01" =
    Some (mkTraceContext "0af7651916cd43dd8448eb211c80319c" "b7ad6b7169203331" "01" "" "").
Proof.
  refine (eq_trans (traceparent_roundtrip "00" "0af7651916cd43dd8448eb211c80319c" "b7ad6b7169203331" "01" _ _ _) _);
    reflexivity.
Defined.

Definition dd_env : gmap gostring gostring := {[ "DD_TRACE_ID"%string := "12"%string; "DD_SPAN_ID"%string := "34"%string ]}.

Lemma datadog_widths_witness :
  exists tc, extract_env dd_env = Some tc /\ String.length (tc_TraceID tc) = 32%nat /\ String.length (tc_SpanID tc) = 32%nat.
Proof. apply (datadog_widths dd_env "12" "34" 12 34); reflexivity. Defined.

Definition no_env (_ : Z) : option gostring := None.
Definition late_env (_ : Z) : option gostring := Some "OTEL_TRACE_ID=t"%string.

(** A missing context found at time 0 is still the answer at time 10. *)
Lemma trace_cache_witness :
  (lookup_trace late_env 7 10 (lookup_trace no_env 7 0 newTraceContextCache).1).2 = None /\
  exists t env, (t, env) ∈ [(10, late_env); (0, no_env)] /\ 10 < t + traceContextTTL /\
    (lookup_trace late_env 7 10 (lookup_trace no_env 7 0 newTraceContextCache).1).2 = extractTraceContext env 7.
Proof.
  split; [reflexivity|].
  apply (trace_cache_fresh [(0, no_env)] (lookup_trace no_env 7 0 newTraceContextCache).1 late_env 7 10).
  apply trace_lookup. constructor.
Defined.
End Example_traces.
