(* ===== verification/Engine.v ===== *)
(** * The correlation engine

    Models the ingest pipeline of src/internal/correlator/engine.go, which
    composes the components of the other files: [ingestWithAD] takes one event
    through lineage tracking, the rules with drift baseline, deduplication,
    rate limits and enforcement, the WebAssembly plugins, the IOC matcher, the
    anomaly detector and the syscall allowlist, hands the alerts to the policy
    queue or filters and groups them; [Ingest], [Flush], [UpdateRules] and the
    two queue workers complete it.

    The engine's fields are a record; the code is a state monad over [go].
    Parameters: the token bucket of golang.org/x/time/rate, the WebAssembly and
    policy engines, the cluster-wide matcher, and the anomaly detector, whose
    floating-point scoring is not modelled. Prometheus metrics other than the
    counters below, logging and tracing spans are left out. The i-th reading of
    the clock is [clock i]. One call runs in one goroutine, so the process tree
    it computes on first use is the tree at any time during the call. *)
From Stdlib Require Import Ascii.
From stdpp Require Import pretty.
From S2P Require Import Prelude GoBytes GoRing Types Fields RuleTypes Sampler Rules EventBuffer ShardedMaps RateLimiter.
From S2P Require Import Incidents LruHeap Profiles Allowlist Lineage Feedback TraceCtx.

(** ** Alerts under construction *)
Definition with_ID (id : gostring) (a : Alert) : Alert :=
  mkAlert id (al_Timestamp a) (al_RuleID a) (al_RuleName a) (al_Severity a) (al_PID a) (al_Comm a) (al_Message a)
    (al_TraceID a) (al_SpanID a) (al_TraceContext a) (al_Enrichment a) (al_Event a) (al_ProcessTree a)
    (al_Fingerprint a) (al_Action a) (al_Enforced a) (al_PreAlertContext a) (al_Count a) (al_FirstSeen a)
    (al_LastSeen a) (al_Class a).
Definition with_trace (tc : TraceContext) (a : Alert) : Alert :=
  mkAlert (al_ID a) (al_Timestamp a) (al_RuleID a) (al_RuleName a) (al_Severity a) (al_PID a) (al_Comm a)
    (al_Message a) (tc_TraceID tc) (tc_SpanID tc) (Some tc) (al_Enrichment a) (al_Event a) (al_ProcessTree a)
    (al_Fingerprint a) (al_Action a) (al_Enforced a) (al_PreAlertContext a) (al_Count a) (al_FirstSeen a)
    (al_LastSeen a) (al_Class a).
Definition with_enrichment (en : EnrichmentInfo) (a : Alert) : Alert :=
  mkAlert (al_ID a) (al_Timestamp a) (al_RuleID a) (al_RuleName a) (al_Severity a) (al_PID a) (al_Comm a)
    (al_Message a) (al_TraceID a) (al_SpanID a) (al_TraceContext a) en (al_Event a) (al_ProcessTree a)
    (al_Fingerprint a) (al_Action a) (al_Enforced a) (al_PreAlertContext a) (al_Count a) (al_FirstSeen a)
    (al_LastSeen a) (al_Class a).
Definition with_tree (tree : list ProcessNode) (a : Alert) : Alert :=
  mkAlert (al_ID a) (al_Timestamp a) (al_RuleID a) (al_RuleName a) (al_Severity a) (al_PID a) (al_Comm a)
    (al_Message a) (al_TraceID a) (al_SpanID a) (al_TraceContext a) (al_Enrichment a) (al_Event a) tree
    (al_Fingerprint a) (al_Action a) (al_Enforced a) (al_PreAlertContext a) (al_Count a) (al_FirstSeen a)
    (al_LastSeen a) (al_Class a).
Definition with_context (ctx : list Event) (a : Alert) : Alert :=
  mkAlert (al_ID a) (al_Timestamp a) (al_RuleID a) (al_RuleName a) (al_Severity a) (al_PID a) (al_Comm a)
    (al_Message a) (al_TraceID a) (al_SpanID a) (al_TraceContext a) (al_Enrichment a) (al_Event a) (al_ProcessTree
    a) (al_Fingerprint a) (al_Action a) (al_Enforced a) ctx (al_Count a) (al_FirstSeen a) (al_LastSeen a) (al_Class
    a).
Definition with_enforced  (a : Alert) : Alert :=
  mkAlert (al_ID a) (al_Timestamp a) (al_RuleID a) (al_RuleName a) (al_Severity a) (al_PID a) (al_Comm a)
    (al_Message a) (al_TraceID a) (al_SpanID a) (al_TraceContext a) (al_Enrichment a) (al_Event a) (al_ProcessTree
    a) (al_Fingerprint a) (al_Action a) true (al_PreAlertContext a) (al_Count a) (al_FirstSeen a) (al_LastSeen a)
    (al_Class a).

(** ** What the engine is given *)

(** [profiler.AnomalyResult], the part the engine reads. *)
Record AnomalyResult (Float : Type) := mkAnomaly {
  ar_Score : Float; ar_IsAnomaly : bool; ar_Contributions : list (gostring * gostring) }.
Arguments mkAnomaly {Float}.
Arguments ar_Score {Float}.
Arguments ar_IsAnomaly {Float}.
Arguments ar_Contributions {Float}.

Class EngineLib `{GoLib} := {
  Limiter : Type;
  NewLimiter : Z -> Limiter;
  Limiter_Allow : Z -> Limiter -> Limiter * bool;
  Detector : Type;
  ProcessEvent : Detector -> Event -> bool -> Detector * option (AnomalyResult Float);
  float_mul : Float -> Float -> Float;
  cooldown_order : gmap cooldownKey Z -> list (cooldownKey * Z);
  dedup_order : gmap dedupKey Z -> list (dedupKey * Z);
  cooldown_order_ok : forall m, cooldown_order m ≡ₚ map_to_list m;
  dedup_order_ok : forall m, dedup_order m ≡ₚ map_to_list m }.

(** [IOCMatcher] *)
Record IOCMatcher := mkIOC { MatchIP : gostring -> bool; MatchDNS : gostring -> bool }.

Section engine.
Context `{EngineLib}.

(** The settings read on the way, fixed when the engine is built. *)
Record settings := mkSettings {
  cfg_enableEventBuffer : bool; cfg_enableAnomaly : bool; cfg_enableDedup : bool; cfg_globalLimiterEnabled : bool;
  cfg_enforceCooldown : Z; cfg_enforceQueueSize : Z; cfg_actionExecutor : bool;
  cfg_rego : bool; cfg_regoQueueSize : Z; cfg_iocMatcher : option IOCMatcher;
  cfg_sensitivity : option (gostring -> Float); cfg_baseAnomalyThreshold : Float }.

(** What one call reads from outside: the clock, the random draws, /proc, and
    the alerts of the WebAssembly plugins for the event. *)
Record outside := mkOutside {
  clock : nat -> Z; rule_draw : nat -> Float; allowlist_draw : Float; proc_status : Z -> option gostring;
  proc_environ : Z -> option gostring; wasm_alerts : Event -> list Alert }.

(** The counters of the engine. *)
Inductive counter :=
| processedEvents | alertsGenerated | alertsDropped | alertsDedupDropped | alertsDroppedGlobal
| enforcedCounter | enforceQueueDropped | regoQueueDropped.

#[export] Instance counter_eq_dec : EqDecision counter.
Proof. solve_decision. Defined.

Record engine := mkEngineState {
  ce_rules : option RuleEngine;
  ce_buffer : ShardedEventBuffer;
  ce_limiter : RateLimiter;
  ce_global : Limiter;
  ce_dedup : shardedDedup;
  ce_cooldowns : shardedCooldowns;
  ce_drift : option Drift.DriftBaselineProfiler;
  ce_allowlist : option SyscallAllowlistProfiler;
  ce_lineage : LineageTracker;
  ce_traces : traceContextCache;
  ce_feedback : option Manager;
  ce_incidents : IncidentTracker;
  ce_detector : Detector;
  ce_seq : Z;
  ce_enforceQueue : list (gostring * Alert);
  ce_regoQueue : list (list Alert);
  ce_pending : list Alert;
  ce_count : counter -> Z;
  ce_ticks : nat }.

Definition set_rules (x : option RuleEngine) (ce : engine) : engine :=
  mkEngineState x (ce_buffer ce) (ce_limiter ce) (ce_global ce) (ce_dedup ce) (ce_cooldowns ce) (ce_drift ce)
    (ce_allowlist ce) (ce_lineage ce) (ce_traces ce) (ce_feedback ce) (ce_incidents ce) (ce_detector ce) (ce_seq ce)
    (ce_enforceQueue ce) (ce_regoQueue ce) (ce_pending ce) (ce_count ce) (ce_ticks ce).
Definition set_buffer (x : ShardedEventBuffer) (ce : engine) : engine :=
  mkEngineState (ce_rules ce) x (ce_limiter ce) (ce_global ce) (ce_dedup ce) (ce_cooldowns ce) (ce_drift ce)
    (ce_allowlist ce) (ce_lineage ce) (ce_traces ce) (ce_feedback ce) (ce_incidents ce) (ce_detector ce) (ce_seq ce)
    (ce_enforceQueue ce) (ce_regoQueue ce) (ce_pending ce) (ce_count ce) (ce_ticks ce).
Definition set_limiter (x : RateLimiter) (ce : engine) : engine :=
  mkEngineState (ce_rules ce) (ce_buffer ce) x (ce_global ce) (ce_dedup ce) (ce_cooldowns ce) (ce_drift ce)
    (ce_allowlist ce) (ce_lineage ce) (ce_traces ce) (ce_feedback ce) (ce_incidents ce) (ce_detector ce) (ce_seq ce)
    (ce_enforceQueue ce) (ce_regoQueue ce) (ce_pending ce) (ce_count ce) (ce_ticks ce).
Definition set_global (x : Limiter) (ce : engine) : engine :=
  mkEngineState (ce_rules ce) (ce_buffer ce) (ce_limiter ce) x (ce_dedup ce) (ce_cooldowns ce) (ce_drift ce)
    (ce_allowlist ce) (ce_lineage ce) (ce_traces ce) (ce_feedback ce) (ce_incidents ce) (ce_detector ce) (ce_seq ce)
    (ce_enforceQueue ce) (ce_regoQueue ce) (ce_pending ce) (ce_count ce) (ce_ticks ce).
Definition set_dedup (x : shardedDedup) (ce : engine) : engine :=
  mkEngineState (ce_rules ce) (ce_buffer ce) (ce_limiter ce) (ce_global ce) x (ce_cooldowns ce) (ce_drift ce)
    (ce_allowlist ce) (ce_lineage ce) (ce_traces ce) (ce_feedback ce) (ce_incidents ce) (ce_detector ce) (ce_seq ce)
    (ce_enforceQueue ce) (ce_regoQueue ce) (ce_pending ce) (ce_count ce) (ce_ticks ce).
Definition set_cooldowns (x : shardedCooldowns) (ce : engine) : engine :=
  mkEngineState (ce_rules ce) (ce_buffer ce) (ce_limiter ce) (ce_global ce) (ce_dedup ce) x (ce_drift ce)
    (ce_allowlist ce) (ce_lineage ce) (ce_traces ce) (ce_feedback ce) (ce_incidents ce) (ce_detector ce) (ce_seq ce)
    (ce_enforceQueue ce) (ce_regoQueue ce) (ce_pending ce) (ce_count ce) (ce_ticks ce).
Definition set_drift (x : option Drift.DriftBaselineProfiler) (ce : engine) : engine :=
  mkEngineState (ce_rules ce) (ce_buffer ce) (ce_limiter ce) (ce_global ce) (ce_dedup ce) (ce_cooldowns ce) x
    (ce_allowlist ce) (ce_lineage ce) (ce_traces ce) (ce_feedback ce) (ce_incidents ce) (ce_detector ce) (ce_seq ce)
    (ce_enforceQueue ce) (ce_regoQueue ce) (ce_pending ce) (ce_count ce) (ce_ticks ce).
Definition set_allowlist (x : option SyscallAllowlistProfiler) (ce : engine) : engine :=
  mkEngineState (ce_rules ce) (ce_buffer ce) (ce_limiter ce) (ce_global ce) (ce_dedup ce) (ce_cooldowns ce)
    (ce_drift ce) x (ce_lineage ce) (ce_traces ce) (ce_feedback ce) (ce_incidents ce) (ce_detector ce) (ce_seq ce)
    (ce_enforceQueue ce) (ce_regoQueue ce) (ce_pending ce) (ce_count ce) (ce_ticks ce).
Definition set_lineage (x : LineageTracker) (ce : engine) : engine :=
  mkEngineState (ce_rules ce) (ce_buffer ce) (ce_limiter ce) (ce_global ce) (ce_dedup ce) (ce_cooldowns ce)
    (ce_drift ce) (ce_allowlist ce) x (ce_traces ce) (ce_feedback ce) (ce_incidents ce) (ce_detector ce) (ce_seq ce)
    (ce_enforceQueue ce) (ce_regoQueue ce) (ce_pending ce) (ce_count ce) (ce_ticks ce).
Definition set_traces (x : traceContextCache) (ce : engine) : engine :=
  mkEngineState (ce_rules ce) (ce_buffer ce) (ce_limiter ce) (ce_global ce) (ce_dedup ce) (ce_cooldowns ce)
    (ce_drift ce) (ce_allowlist ce) (ce_lineage ce) x (ce_feedback ce) (ce_incidents ce) (ce_detector ce) (ce_seq
    ce) (ce_enforceQueue ce) (ce_regoQueue ce) (ce_pending ce) (ce_count ce) (ce_ticks ce).
Definition set_feedback (x : option Manager) (ce : engine) : engine :=
  mkEngineState (ce_rules ce) (ce_buffer ce) (ce_limiter ce) (ce_global ce) (ce_dedup ce) (ce_cooldowns ce)
    (ce_drift ce) (ce_allowlist ce) (ce_lineage ce) (ce_traces ce) x (ce_incidents ce) (ce_detector ce) (ce_seq ce)
    (ce_enforceQueue ce) (ce_regoQueue ce) (ce_pending ce) (ce_count ce) (ce_ticks ce).
Definition set_incidents (x : IncidentTracker) (ce : engine) : engine :=
  mkEngineState (ce_rules ce) (ce_buffer ce) (ce_limiter ce) (ce_global ce) (ce_dedup ce) (ce_cooldowns ce)
    (ce_drift ce) (ce_allowlist ce) (ce_lineage ce) (ce_traces ce) (ce_feedback ce) x (ce_detector ce) (ce_seq ce)
    (ce_enforceQueue ce) (ce_regoQueue ce) (ce_pending ce) (ce_count ce) (ce_ticks ce).
Definition set_detector (x : Detector) (ce : engine) : engine :=
  mkEngineState (ce_rules ce) (ce_buffer ce) (ce_limiter ce) (ce_global ce) (ce_dedup ce) (ce_cooldowns ce)
    (ce_drift ce) (ce_allowlist ce) (ce_lineage ce) (ce_traces ce) (ce_feedback ce) (ce_incidents ce) x (ce_seq ce)
    (ce_enforceQueue ce) (ce_regoQueue ce) (ce_pending ce) (ce_count ce) (ce_ticks ce).
Definition set_seq (x : Z) (ce : engine) : engine :=
  mkEngineState (ce_rules ce) (ce_buffer ce) (ce_limiter ce) (ce_global ce) (ce_dedup ce) (ce_cooldowns ce)
    (ce_drift ce) (ce_allowlist ce) (ce_lineage ce) (ce_traces ce) (ce_feedback ce) (ce_incidents ce) (ce_detector
    ce) x (ce_enforceQueue ce) (ce_regoQueue ce) (ce_pending ce) (ce_count ce) (ce_ticks ce).
Definition set_enforceQueue (x : list (gostring * Alert)) (ce : engine) : engine :=
  mkEngineState (ce_rules ce) (ce_buffer ce) (ce_limiter ce) (ce_global ce) (ce_dedup ce) (ce_cooldowns ce)
    (ce_drift ce) (ce_allowlist ce) (ce_lineage ce) (ce_traces ce) (ce_feedback ce) (ce_incidents ce) (ce_detector
    ce) (ce_seq ce) x (ce_regoQueue ce) (ce_pending ce) (ce_count ce) (ce_ticks ce).
Definition set_regoQueue (x : list (list Alert)) (ce : engine) : engine :=
  mkEngineState (ce_rules ce) (ce_buffer ce) (ce_limiter ce) (ce_global ce) (ce_dedup ce) (ce_cooldowns ce)
    (ce_drift ce) (ce_allowlist ce) (ce_lineage ce) (ce_traces ce) (ce_feedback ce) (ce_incidents ce) (ce_detector
    ce) (ce_seq ce) (ce_enforceQueue ce) x (ce_pending ce) (ce_count ce) (ce_ticks ce).
Definition set_pending (x : list Alert) (ce : engine) : engine :=
  mkEngineState (ce_rules ce) (ce_buffer ce) (ce_limiter ce) (ce_global ce) (ce_dedup ce) (ce_cooldowns ce)
    (ce_drift ce) (ce_allowlist ce) (ce_lineage ce) (ce_traces ce) (ce_feedback ce) (ce_incidents ce) (ce_detector
    ce) (ce_seq ce) (ce_enforceQueue ce) (ce_regoQueue ce) x (ce_count ce) (ce_ticks ce).
Definition set_count (x : counter -> Z) (ce : engine) : engine :=
  mkEngineState (ce_rules ce) (ce_buffer ce) (ce_limiter ce) (ce_global ce) (ce_dedup ce) (ce_cooldowns ce)
    (ce_drift ce) (ce_allowlist ce) (ce_lineage ce) (ce_traces ce) (ce_feedback ce) (ce_incidents ce) (ce_detector
    ce) (ce_seq ce) (ce_enforceQueue ce) (ce_regoQueue ce) (ce_pending ce) x (ce_ticks ce).
Definition set_ticks (x : nat) (ce : engine) : engine :=
  mkEngineState (ce_rules ce) (ce_buffer ce) (ce_limiter ce) (ce_global ce) (ce_dedup ce) (ce_cooldowns ce)
    (ce_drift ce) (ce_allowlist ce) (ce_lineage ce) (ce_traces ce) (ce_feedback ce) (ce_incidents ce) (ce_detector
    ce) (ce_seq ce) (ce_enforceQueue ce) (ce_regoQueue ce) (ce_pending ce) (ce_count ce) x.

(** ** The monad *)
Definition M (A : Type) : Type := engine -> go (engine * A).

#[export] Instance M_ret : MRet M := fun A a ce => Ok (ce, a).
#[export] Instance M_bind : MBind M := fun A B f m ce =>
  match m ce with
  | Ok (ce, a) => f a ce
  | Err e => Err e
  | Panic => Panic
  end.

(** An operation of a component on its part of the state. *)
Definition zoom {T A} (part : engine -> T) (put : T -> engine -> engine) (f : T -> go (T * A)) : M A :=
  fun ce => match f (part ce) with
            | Ok (x, a) => Ok (put x ce, a)
            | Err e => Err e
            | Panic => Panic
            end.
Definition gets {A} (f : engine -> A) : M A := fun ce => Ok (ce, f ce).
Definition modify (f : engine -> engine) : M unit := fun ce => Ok (f ce, tt).

Definition add_to (c : counter) (n : Z) (cnt : counter -> Z) : counter -> Z :=
  fun c' => if decide (c' = c) then cnt c' + n else cnt c'.
Definition inc (c : counter) : M unit := modify (fun ce => set_count (add_to c 1 (ce_count ce)) ce).

(** ** Identifiers *)
Definition buildAlertID (prefix : gostring) (ts pid seq : Z) : gostring :=
  (prefix +:+ "-" +:+ pretty ts +:+ "-" +:+ pretty pid +:+ "-" +:+ pretty seq)%string.

(** [alertSeq.Add(1)] *)
Definition next_seq : M Z := fun ce => let n := u64 (ce_seq ce + 1) in Ok (set_seq n ce, n).

Definition isEnforcedAction (action : gostring) : bool :=
  bool_decide (action = "block"%string) || bool_decide (action = "kill"%string) || bool_decide (action = "throttle"%string).

Definition preAlertContextWindow : Z := 20.
Definition localFlushBatch : Z := 64.

Section ingest.
Context (cfg : settings) (out : outside).

Definition time_now : M Z := fun ce => Ok (set_ticks (S (ce_ticks ce)) ce, clock out (ce_ticks ce)).

(** ** The components as the pipeline calls them *)
Definition checkDup (ruleID : gostring) (pid : Z) (comm : gostring) : M bool :=
  t ← time_now;
  zoom ce_dedup set_dedup (fun sd => b ← ShardedMaps.check ruleID pid comm t sd; Ok (sd, b)).

Definition markDedup (ruleID : gostring) (pid : Z) (comm : gostring) (now : Z) : M unit :=
  zoom ce_dedup set_dedup (fun sd => sd ← ShardedMaps.mark dedup_order ruleID pid comm now sd; Ok (sd, tt)).

(** [enableDedup && checkDup(...)] *)
Definition is_dup (a : Alert) : M bool :=
  if cfg_enableDedup cfg then checkDup (al_RuleID a) (al_PID a) (al_Comm a) else mret false.
Definition mark_emitted (a : Alert) (start : Z) : M unit :=
  if cfg_enableDedup cfg then markDedup (al_RuleID a) (al_PID a) (al_Comm a) start else mret tt.

Definition rule_allowed (ruleID : gostring) : M bool :=
  t ← time_now; zoom ce_limiter set_limiter (RateLimiter.Allow ruleID t).

(** [!globalLimiterEnabled || globalLimiter.Allow()] *)
Definition global_allowed : M bool :=
  if cfg_globalLimiterEnabled cfg then
    t ← time_now; zoom ce_global set_global (fun l => Ok (Limiter_Allow t l))
  else mret true.

Definition tryAcquireEnforceCooldown (ruleID : gostring) (pid now : Z) : M bool :=
  zoom ce_cooldowns set_cooldowns (ShardedMaps.tryAcquire cooldown_order ruleID pid (cfg_enforceCooldown cfg) now).

Definition process_tree (e : Event) : M (list ProcessNode) := gets (fun ce => GetProcessTree (ce_lineage ce) (ev_PID e)).

Definition add_tree (e : Event) (a : Alert) : M Alert := tree ← process_tree e; mret (with_tree tree a).

Definition add_context (e : Event) (a : Alert) : M Alert :=
  if cfg_enableEventBuffer cfg then
    ctx ← zoom ce_buffer set_buffer
            (fun sb => l ← EventBuffer.GetRecent (ev_PID e) preAlertContextWindow sb; Ok (sb, l));
    mret (with_context ctx a)
  else mret a.

(** The trace context of the event, or of the environment of its process. *)
Definition add_trace (e : Event) (t : Z) (a : Alert) : M Alert :=
  match ev_TraceContext e with
  | Some tc => mret (with_trace (with_source tc "tls_header") a)
  | None =>
      r ← zoom ce_traces set_traces (fun c => Ok (lookup_trace (proc_environ out) (ev_PID e) t c));
      mret (match r with Some tc => with_trace tc a | None => a end)
  end.

Definition add_enrichment (e : Event) (a : Alert) : Alert :=
  match ev_Enrichment e with Some en => with_enrichment en a | None => a end.

(** ** Rules *)

(** The drift baseline lets the match through. *)
Definition drift_passes (e : Event) (a : Alert) : M bool :=
  d ← gets ce_drift;
  match d with
  | Some p =>
      if bool_decide (al_Class a = ClassDrift) then
        t1 ← time_now;
        t2 ← time_now;
        zoom (fun _ => p) (fun p => set_drift (Some p)) (fun p => Drift.Observe p t1 t2 (al_RuleID a) e)
      else mret true
  | None => mret true
  end.

(** The two rate limits, with the counters of a refusal. *)
Definition within_limits (a : Alert) : M bool :=
  b ← rule_allowed (al_RuleID a);
  if negb b then inc alertsDropped;; mret false else
  g ← global_allowed;
  if negb g then inc alertsDropped;; inc alertsDroppedGlobal;; mret false else mret true.

(** Non-blocking send on the enforcement queue. *)
Definition send_enforce (action : gostring) (a : Alert) : M unit :=
  q ← gets ce_enforceQueue;
  if Z.of_nat (length q) <? cfg_enforceQueueSize cfg
  then modify (set_enforceQueue (q ++ [(action, a)]))
  else inc enforceQueueDropped.

Definition enforce (start : Z) (a : Alert) : M Alert :=
  if cfg_actionExecutor cfg && isEnforcedAction (al_Action a) then
    ok ← tryAcquireEnforceCooldown (al_RuleID a) (al_PID a) start;
    if ok : bool then
      let a := with_enforced a in
      inc enforcedCounter;;
      send_enforce (al_Action a) a;;
      mret a
    else mret a
  else mret a.

(** Identifier, trace context, enrichment, process tree and recent events. *)
Definition annotate (e : Event) (start : Z) (a : Alert) : M Alert :=
  seq ← next_seq;
  let a := with_ID (buildAlertID (al_RuleID a) (ev_Timestamp e) (ev_PID e) seq) a in
  a ← add_trace e start a;
  a ← add_tree e (add_enrichment e a);
  add_context e a.

(** The rest of the callback for a match that passed the limits or repeats an
    earlier one: enforcement runs in both cases, the alert leaves in one. *)
Definition complete_rule_alert (e : Event) (start : Z) (isDup : bool) (a : Alert) : M (option Alert) :=
  a ← annotate e start a;
  a ← enforce start a;
  if isDup then inc alertsDedupDropped;; inc alertsDropped;; mret None else
  mark_emitted a start;;
  inc alertsGenerated;;
  mret (Some a).

(** The callback of [EvaluateInto]: [None] when no alert is emitted. *)
Definition on_rule_match (e : Event) (start : Z) (a : Alert) : M (option Alert) :=
  pass ← drift_passes e a;
  if negb pass then mret None else
  isDup ← is_dup a;
  if isDup : bool then complete_rule_alert e start true a else
  ok ← within_limits a;
  if negb ok then mret None else complete_rule_alert e start false a.

Definition emitted (r : option Alert) : list Alert := match r with Some a => [a] | None => [] end.

Definition rule_alerts (e : Event) (start : Z) : M (list Alert) :=
  fun ce => match ce_rules ce with
            | None => Ok (ce, [])
            | Some re =>
                EvaluateInto re (rule_draw out) e
                  (fun (s : go (engine * list Alert)) a =>
                     '(ce, alerts) ← s; '(ce, r) ← on_rule_match e start a ce; Ok (ce, alerts ++ emitted r))
                  (Ok (ce, []))
            end.

(** ** WebAssembly plugins *)
Definition on_wasm_alert (e : Event) (start : Z) (a : Alert) : M (option Alert) :=
  isDup ← is_dup a;
  if isDup : bool then inc alertsDedupDropped;; inc alertsDropped;; mret None else
  ok ← within_limits a;
  if negb ok then mret None else
  mark_emitted a start;;
  seq ← next_seq;
  let a := with_ID (buildAlertID (al_RuleID a) (ev_Timestamp e) (ev_PID e) seq) a in
  a ← add_tree e a;
  a ← add_context e a;
  inc alertsGenerated;;
  mret (Some a).

Fixpoint wasm_loop (e : Event) (start : Z) (l : list Alert) : M (list Alert) :=
  match l with
  | [] => mret []
  | a :: l => r ← on_wasm_alert e start a; rest ← wasm_loop e start l; mret (emitted r ++ rest)
  end.

(** ** Alerts of the engine itself *)

(** An alert without enrichment, trace or tree. *)
Definition engine_alert (e : Event) (id ruleID name message : gostring) (sev : Severity) (action : gostring) : Alert :=
  mkAlert id (i64 (ev_Timestamp e)) ruleID name sev (ev_PID e) (BytesToString (ev_Comm e)) message "" "" None
    empty_enrichment e [] "" action false [] 0 zero_time zero_time "".

(** Deduplication, then the limits in the order of [&&], then the mark; the
    end of the IOC and allowlist paths. *)
Definition accept_alert (start : Z) (a : Alert) : M (option Alert) :=
  isDup ← is_dup a;
  if isDup : bool then inc alertsDedupDropped;; inc alertsDropped;; mret None else
  b ← rule_allowed (al_RuleID a);
  g ← (if b : bool then global_allowed else mret false);
  if g : bool then mark_emitted a start;; inc alertsGenerated;; mret (Some a)
  else inc alertsDropped;; mret None.

(** The end of the anomaly path: both limits are asked. *)
Definition accept_anomaly (start : Z) (a : Alert) : M (option Alert) :=
  isDup ← is_dup a;
  if isDup : bool then inc alertsDedupDropped;; inc alertsDropped;; mret None else
  b ← rule_allowed (al_RuleID a);
  g ← global_allowed;
  if b && g then mark_emitted a start;; inc alertsGenerated;; mret (Some a)
  else inc alertsDropped;; (if negb g then inc alertsDroppedGlobal else mret tt);; mret None.

(** ** Cluster-wide indicators *)
Definition ioc_indicator (m : IOCMatcher) (e : Event) : option gostring :=
  if ev_Type e =? EventTCPConnect then
    n ← ev_Network e;
    let ip := FormatIP (net_Daddr n) (net_Family n) in
    if MatchIP m ip then Some ("ip:" +:+ ip)%string else None
  else if ev_Type e =? EventDNS then
    d ← ev_DNS e;
    if MatchDNS m (dns_QName d) then Some ("dns:" +:+ dns_QName d)%string else None
  else None.

Definition checkIOCMatch (m : IOCMatcher) (e : Event) : M (option Alert) :=
  match ioc_indicator m e with
  | None => mret None
  | Some indicator =>
      seq ← next_seq;
      let a := engine_alert e (buildAlertID "gossip_ioc_match" (ev_Timestamp e) (ev_PID e) seq) "gossip_ioc_match"
                 "Gossip IOC Match" ("Event matched a cluster-wide IOC: " +:+ indicator)%string SeverityCritical "" in
      a ← (match ev_TraceContext e with
           | Some _ => add_trace e 0 a
           | None => t ← time_now; add_trace e t a
           end);
      mret (Some (add_enrichment e a))
  end.

Definition ioc_alert (e : Event) (start : Z) : M (list Alert) :=
  match cfg_iocMatcher cfg with
  | None => mret []
  | Some m =>
      r ← checkIOCMatch m e;
      match r with
      | None => mret []
      | Some a => a ← add_tree e a; a ← add_context e a; r ← accept_alert start a; mret (emitted r)
      end
  end.

(** ** Anomalies *)
Fixpoint join_contributions (l : list (gostring * gostring)) : gostring :=
  match l with
  | [] => ""%string
  | [(f, v)] => (f +:+ "=" +:+ v)%string
  | (f, v) :: l => (f +:+ "=" +:+ v +:+ ", " +:+ join_contributions l)%string
  end.

Definition formatAnomalyDescription (r : AnomalyResult Float) : gostring :=
  match ar_Contributions r with
  | [] => "Anomalous behavior detected"%string
  | l => ("Anomalous behavior detected: " +:+ join_contributions l)%string
  end.

(** A peer's alert in the namespace lowers the threshold. *)
Definition is_anomaly (e : Event) (r : AnomalyResult Float) : bool :=
  ar_IsAnomaly r ||
  match cfg_sensitivity cfg, ev_Enrichment e with
  | Some multiplier, Some en =>
      negb (bool_decide (en_Namespace en = ""%string)) &&
      (let m := multiplier (en_Namespace en) in
       float_lt m float_1 && float_ge (ar_Score r) (float_mul (cfg_baseAnomalyThreshold cfg) m))
  | _, _ => false
  end.

Definition anomaly_alert (e : Event) (start : Z) (confirmed : bool) : M (list Alert) :=
  if cfg_enableAnomaly cfg then
    r ← zoom ce_detector set_detector (fun ad => Ok (ProcessEvent ad e confirmed));
    match r with
    | Some r =>
        if is_anomaly e r then
          seq ← next_seq;
          let a := engine_alert e (buildAlertID "anomaly" (ev_Timestamp e) (ev_PID e) seq) "anomaly_detection"
                     "Behavioral Anomaly Detected" (formatAnomalyDescription r) SeverityWarning "" in
          a ← add_trace e start a;
          a ← add_tree e (add_enrichment e a);
          a ← add_context e a;
          r ← accept_anomaly start a;
          mret (emitted r)
        else mret []
    | None => mret []
    end
  else mret [].

(** ** The syscall allowlist *)
Definition allowlist_message (v : AllowlistViolation) : gostring :=
  if decide (av_Source v = "global_deny"%string)
  then ("Syscall " +:+ pretty (av_SyscallNr v) +:+ " matches global deny list for workload " +:+
        WorkloadKey_String (av_WorkloadKey v))%string
  else ("Unknown syscall " +:+ pretty (av_SyscallNr v) +:+ " not in learned allowlist for workload " +:+
        WorkloadKey_String (av_WorkloadKey v))%string.

Definition allowlist_check_event (e : Event) : M (option AllowlistViolation) :=
  d ← gets ce_allowlist;
  match d with
  | Some p =>
      if ev_Type e =? EventSyscall then
        t ← time_now;
        zoom (fun _ => p) (fun p => set_allowlist (Some p))
          (fun p => let p := Record_ p t (allowlist_draw out) e in Ok (p, Check p e))
      else mret None
  | None => mret None
  end.

Definition allowlist_alert (e : Event) (start : Z) : M (list Alert) :=
  v ← allowlist_check_event e;
  match v with
  | None => mret []
  | Some v =>
      seq ← next_seq;
      let a := engine_alert e (buildAlertID "auto_allowlist_violation" (ev_Timestamp e) (ev_PID e) seq)
                 "auto_allowlist_violation" "Syscall Allowlist Violation" (allowlist_message v) SeverityWarning (av_Action v) in
      a ← add_context e a;
      a ← add_tree e a;
      r ← accept_alert start (add_enrichment e a);
      mret (emitted r)
  end.

(** ** The pipeline *)

(** Everything up to the alerts that leave the detectors. *)
Definition detect (e : Event) (start : Z) : M (list Alert) :=
  inc processedEvents;;
  (if cfg_enableEventBuffer cfg then
     t ← time_now;
     zoom ce_buffer set_buffer (fun sb => sb ← EventBuffer.Add (ev_PID e) e t sb; Ok (sb, tt))
   else mret tt);;
  t ← time_now;
  modify (fun ce => set_lineage (Track (proc_status out) t (ce_lineage ce) e) ce);;
  rules ← rule_alerts e start;
  wasm ← wasm_loop e start (wasm_alerts out e);
  ioc ← ioc_alert e start;
  let alerts := rules ++ wasm ++ ioc in
  anomaly ← anomaly_alert e start (negb (bool_decide (alerts = [])));
  allow ← allowlist_alert e start;
  mret (alerts ++ anomaly ++ allow).

Fixpoint add_incidents (alerts : list Alert) : M unit :=
  match alerts with
  | [] => mret tt
  | a :: alerts =>
      t ← time_now;
      modify (fun ce => set_incidents (Incidents.Add a t (ce_incidents ce)) ce);;
      add_incidents alerts
  end.

(** What happens to the alerts: the policy queue, or feedback and incidents.
    The flag says that the queue took them. *)
Definition dispatch (alerts : list Alert) : M (list Alert * bool) :=
  q ← gets ce_regoQueue;
  if cfg_rego cfg && negb (bool_decide (alerts = [])) && (Z.of_nat (length q) <? cfg_regoQueueSize cfg) then
    modify (set_regoQueue (q ++ [alerts]));; mret (alerts, true)
  else
    (if cfg_rego cfg && negb (bool_decide (alerts = [])) then inc regoQueueDropped else mret tt);;
    fb ← gets ce_feedback;
    let alerts := match fb with Some m => FilterAlerts m alerts | None => alerts end in
    add_incidents alerts;;
    mret (alerts, false).

Definition ingestWithAD (e : Event) : M (list Alert * bool) :=
  start ← time_now;
  alerts ← detect e start;
  dispatch alerts.

Definition Ingest (e : Event) : M (list Alert) :=
  r ← ingestWithAD e;
  let '(alerts, regoQueued) := r in
  (if negb (bool_decide (alerts = [])) && negb regoQueued
   then modify (fun ce => set_pending (ce_pending ce ++ alerts) ce) else mret tt);;
  mret alerts.
End ingest.

(** ** Around the pipeline *)
Definition Flush_alerts : M (list Alert) := fun ce => Ok (set_pending [] ce, ce_pending ce).

Definition UpdateRules (rules : list Rule) : M unit :=
  modify (fun ce => set_rules (Some (NewRuleEngineWithCache rules (ce_rules ce))) ce).

(** [policy.PolicyDecision], the part that changes an alert. *)
Record PolicyDecision := mkDecision { pd_RuleID : gostring; pd_Severity : Severity; pd_Message : gostring }.

Definition selectMostSevereDecision (ds : list PolicyDecision) : option PolicyDecision :=
  match ds with
  | [] => None
  | d :: rest =>
      match rest with
      | [] => Some d
      | _ => Some (default d (List.find (fun d => bool_decide (pd_Severity d = SeverityCritical)) ds))
      end
  end.

(** [decide a] is the result of the policy engine on the alert: [None] for an
    error; [prefilter a] says that the DNS prefilter rules a decision out. *)
Definition apply_policies (prefilter : Alert -> bool) (policies : Alert -> option (list PolicyDecision)) (a : Alert) : Alert :=
  if (ev_Type (al_Event a) =? EventDNS) && bool_decide (is_Some (ev_DNS (al_Event a))) && prefilter a then a else
  match selectMostSevereDecision (default [] (policies a)) with
  | None => a
  | Some d =>
      mkAlert (al_ID a) (al_Timestamp a) (pd_RuleID d) (al_RuleName a)
        (if bool_decide (pd_Severity d = ""%string) then al_Severity a else pd_Severity d) (al_PID a) (al_Comm a)
        (if bool_decide (pd_Message d = ""%string) then al_Message a else pd_Message d) (al_TraceID a) (al_SpanID a)
        (al_TraceContext a) (al_Enrichment a) (al_Event a) (al_ProcessTree a) (al_Fingerprint a) (al_Action a)
        (al_Enforced a) (al_PreAlertContext a) (al_Count a) (al_FirstSeen a) (al_LastSeen a) (al_Class a)
  end.

Definition evaluateRegoPolicies (prefilter : Alert -> bool) (policies : Alert -> option (list PolicyDecision))
    (alerts : list Alert) : list Alert :=
  map (apply_policies prefilter policies) alerts.

(** One task of a policy worker, with its local buffer. *)
Definition rego_step (prefilter : Alert -> bool) (policies : Alert -> option (list PolicyDecision))
    (local : list Alert) (ce : engine) : engine * list Alert :=
  match ce_regoQueue ce with
  | [] => (ce, local)
  | alerts :: q =>
      let enriched := evaluateRegoPolicies prefilter policies alerts in
      let enriched := match ce_feedback ce with Some m => FilterAlerts m enriched | None => enriched end in
      let local := local ++ enriched in
      let ce := set_regoQueue q ce in
      if localFlushBatch <=? Z.of_nat (length local) then (set_pending (ce_pending ce ++ local) ce, []) else (ce, local)
  end.

(** [flushPending] *)
Definition flushPending (local : list Alert) (ce : engine) : engine * list Alert :=
  match local with [] => (ce, []) | _ => (set_pending (ce_pending ce ++ local) ce, []) end.

(** One task of an enforcement worker: what [ExecuteAction] is called with. *)
Definition enforce_step (ce : engine) : engine * option (gostring * Alert) :=
  match ce_enforceQueue ce with
  | [] => (ce, None)
  | t :: q => (set_enforceQueue q ce, Some t)
  end.

(** The periodic clean-up of the engine's maps. *)
Definition housekeeping (cfg : settings) (now : Z) (ce : engine) : engine :=
  let cutoff d := time_Add now (neg_duration d) in
  set_cooldowns (ShardedMaps.cleanup (cutoff (cfg_enforceCooldown cfg)) (ce_cooldowns ce))
    (set_dedup (ShardedMaps.dedup_cleanup (cutoff (sd_window (ce_dedup ce))) (ce_dedup ce))
      (set_incidents (Incidents.Cleanup now (ce_incidents ce))
        (set_lineage (Lineage.Cleanup (ce_lineage ce) now) (set_traces (cleanup_traces now (ce_traces ce)) ce)))).

(** ** Construction *)
Record CorrelationEngineConfig := mkEngineConfig {
  cc_Rules : list Rule; cc_BufferSize : Z; cc_EnableEventBuffer : bool; cc_EnableAnomaly : bool;
  cc_AnomalyThreshold : Float; cc_EnableRateLimit : bool; cc_RateLimitWindow : Z; cc_MaxAlertsPerWindow : Z;
  cc_RegoEngine : bool; cc_RegoQueueSize : Z; cc_MaxAlertsPerSecond : Z; cc_LineageTracker : option LineageTracker;
  cc_FeedbackManager : option Manager; cc_IOCMatcher : option IOCMatcher; cc_SensitivityAdjuster : option (gostring -> Float);
  cc_ActionExecutor : bool; cc_EnforcementCooldown : Z; cc_EnforceQueueSize : Z; cc_EnableDedup : bool; cc_DedupWindow : Z;
  cc_IncidentWindow : Z; cc_AllowlistProfiler : option SyscallAllowlistProfiler;
  cc_DriftBaselineProfiler : option Drift.DriftBaselineProfiler }.

(** A configured value that is not positive is replaced by the default. *)
Definition or_default (n default : Z) : Z := if n <=? 0 then default else n.

Definition engine_settings (c : CorrelationEngineConfig) : settings :=
  mkSettings (cc_EnableEventBuffer c) (cc_EnableAnomaly c) (cc_EnableDedup c) true
    (or_default (cc_EnforcementCooldown c) (5 * Second)) (or_default (cc_EnforceQueueSize c) 4096) (cc_ActionExecutor c)
    (cc_RegoEngine c) (or_default (cc_RegoQueueSize c) 4096) (cc_IOCMatcher c) (cc_SensitivityAdjuster c)
    (cc_AnomalyThreshold c).

(** [ad] is the detector made for the engine; the shard counts depend on the
    number of processors. *)
Definition NewCorrelationEngineWithConfig (numCPU gomaxprocs : Z) (ad : Detector) (c : CorrelationEngineConfig) : engine :=
  mkEngineState (Some (NewRuleEngine (cc_Rules c))) (NewShardedEventBuffer numCPU gomaxprocs (cc_BufferSize c))
    (NewRateLimiter (cc_RateLimitWindow c) (cc_MaxAlertsPerWindow c) (cc_EnableRateLimit c))
    (NewLimiter (or_default (cc_MaxAlertsPerSecond c) 10000))
    (newShardedDedup numCPU gomaxprocs (or_default (cc_DedupWindow c) (5 * Second)))
    (newShardedCooldowns numCPU gomaxprocs) (cc_DriftBaselineProfiler c) (cc_AllowlistProfiler c)
    (default (NewLineageTracker DefaultLineageConfig) (cc_LineageTracker c)) newTraceContextCache (cc_FeedbackManager c)
    (newIncidentTracker (cc_IncidentWindow c)) ad 0 [] [] [] (fun _ => 0) 0.
End engine.
