(* ===== verification/EngineCorrect.v ===== *)
(** * Properties of the correlation engine

    A small program logic for the monad of [Engine] and, with it, what the
    composition of the components guarantees: an ingest never panics, every
    candidate alert is counted once as emitted or as dropped, identifiers are
    unique, tasks in the enforcement queue are the ones flagged as enforced;
    and what it does not guarantee: enforcement of rate-limited matches,
    execution of what is flagged as enforced, incidents for alerts that go
    through the policy queue. *)
From Stdlib Require Import Ascii.
From stdpp Require Import pretty.
From S2P Require Import Prelude GoBytes GoRing Types Fields RuleTypes Sampler Rules EventBuffer ShardedMaps RateLimiter.
From S2P Require Import Incidents LruHeap Profiles Allowlist Lineage Feedback TraceCtx Engine.

(** ** Components that stay well-formed *)
Definition limiter_ok (rl : RateLimiter) : Prop :=
  0 <= rl_maxAlerts rl /\ 0 <= rl_window rl <= max_duration /\
  map_Forall (fun _ rs => wf rs /\ 0 <= rs_window rs <= max_duration) (rl_states rl).

Lemma Allow_ok rl id now : limiter_ok rl -> exists rl' b, RateLimiter.Allow id now rl = Ok (rl', b) /\ limiter_ok rl'.
Proof.
  intros (Hm & Hw & Hs). unfold RateLimiter.Allow. destruct (negb (rl_enabled rl)); [by exists rl, true|].
  assert (exists rs, match rl_states rl !! id with Some s => Ok s | None => newRuleState (rl_window rl) (rl_maxAlerts rl) end
    = Ok rs /\ wf rs /\ 0 <= rs_window rs <= max_duration) as (rs & -> & Hwf & Hrw).
  { destruct (rl_states rl !! id) as [rs|] eqn:E; [exists rs; by destruct (Hs id rs E)|].
    destruct (newRuleState_ok (rl_window rl) (rl_maxAlerts rl) Hm) as (rs & E' & Hwf & _ & Ew & _). exists rs. by rewrite Ew. }
  cbn [mbind result_bind]. destruct (allow_spec now rs Hwf Hrw) as (rs' & E & Hwf' & _ & Ew & _). rewrite E. cbn [mbind result_bind].
  eexists _, _. split; [reflexivity|]. split; [done|]. split; [done|]. simpl. apply map_Forall_insert_2; [|done]. by rewrite Ew.
Qed.

Lemma mark_ok order ruleID pid comm now sd :
  (forall m, order m ≡ₚ map_to_list m) -> sm_inv MaxDedupEntries (sd_map sd) ->
  exists sd', ShardedMaps.mark order ruleID pid comm now sd = Ok sd' /\ sm_inv MaxDedupEntries (sd_map sd').
Proof.
  intros Ho Hi. unfold ShardedMaps.mark. rewrite (list_get_shard _ _ _ Hi). cbn [mbind result_bind].
  destruct (record_entry_spec order Ho MaxDedupEntries (sd_map sd) (mkDedupKey ruleID pid comm) now)
    as (m & v & -> & Hi' & _); [done|done|]. cbn [mbind result_bind]. eexists. split; [reflexivity|done].
Qed.

Lemma check_ok ruleID pid comm now sd :
  sm_inv MaxDedupEntries (sd_map sd) -> exists b, ShardedMaps.check ruleID pid comm now sd = Ok b.
Proof. intros Hi. unfold ShardedMaps.check. rewrite (list_get_shard _ _ _ Hi). cbn [mbind result_bind]. by eexists. Qed.

Lemma tryAcquire_ok order ruleID pid cooldown now sc :
  (forall m, order m ≡ₚ map_to_list m) -> sm_inv MaxCooldownEntries sc ->
  exists sc' b, ShardedMaps.tryAcquire order ruleID pid cooldown now sc = Ok (sc', b) /\ sm_inv MaxCooldownEntries sc'.
Proof.
  intros Ho Hi. pose proof (tryAcquire_spec order Ho ruleID pid cooldown now sc Hi) as Hs. cbv zeta in Hs.
  destruct (match sm_at sc _ with Some prev => _ | None => _ end); [by exists sc, false|].
  destruct Hs as (sc' & v & E & Hi' & _). by exists sc', true.
Qed.

Definition drift_wf (p : Drift.DriftBaselineProfiler) : Prop :=
  lm_ok (Drift.db_map p) /\ (0 < Drift.db_maxWorkloads p -> Drift.ProfileCount p <= Drift.db_maxWorkloads p).

Lemma drift_observe_ok p t1 t2 ruleID e :
  drift_wf p -> exists p' b, Drift.Observe p t1 t2 ruleID e = Ok (p', b) /\ drift_wf p'.
Proof.
  intros [Hm Hb]. destruct (Drift.dc_Enabled (Drift.db_config p)) eqn:Ee.
  - destruct (Observe_ok p t1 t2 ruleID e Ee Hm Hb) as (p' & E & Hs & Hm' & Hb' & _). eexists p', _. split; [exact E|].
    split; [done|]. destruct Hs as (_ & Ew & _). by rewrite Ew.
  - exists p, true. unfold Drift.Observe. by rewrite Ee.
Qed.

(** ** The program logic *)
Section logic.
(** [nodrift]: the engine has no drift baseline; [rules]: its rules. *)
Context `{EngineLib} (cfg : settings) (nodrift : bool) (rules : option RuleEngine).

(** A task flagged as enforced, with the action it was queued for. *)
Definition task_ok (t : gostring * Alert) : Prop :=
  isEnforcedAction t.1 = true /\ al_Action t.2 = t.1 /\ al_Enforced t.2 = true.

Record ce_inv (ce : engine) : Prop := {
  ci_seq : in_range 64 (ce_seq ce);
  ci_buffer : cfg_enableEventBuffer cfg = true -> sb_inv (ce_buffer ce);
  ci_limiter : limiter_ok (ce_limiter ce);
  ci_dedup : sm_inv MaxDedupEntries (sd_map (ce_dedup ce));
  ci_cooldowns : sm_inv MaxCooldownEntries (ce_cooldowns ce);
  ci_drift : forall p, ce_drift ce = Some p -> drift_wf p;
  ci_nodrift : nodrift = true -> ce_drift ce = None;
  ci_rules : ce_rules ce = rules;
  ci_queue : Forall task_ok (ce_enforceQueue ce);
  ci_queue_len : ce_enforceQueue ce = [] \/ Z.of_nat (length (ce_enforceQueue ce)) <= cfg_enforceQueueSize cfg }.

(** From [ce] to [ce'] the sequence number advanced by [k], [g] alerts were
    counted as generated and [d] as dropped; what the detectors do not own is
    as before. *)
Record eff (ce ce' : engine) (k g d : Z) : Prop := {
  eff_inv : ce_inv ce';
  eff_seq : ce_seq ce' = u64 (ce_seq ce + k);
  eff_gen : ce_count ce' alertsGenerated = ce_count ce alertsGenerated + g;
  eff_drop : ce_count ce' alertsDropped = ce_count ce alertsDropped + d;
  eff_feedback : ce_feedback ce' = ce_feedback ce;
  eff_incidents : ce_incidents ce' = ce_incidents ce;
  eff_rego : ce_regoQueue ce' = ce_regoQueue ce;
  eff_pending : ce_pending ce' = ce_pending ce }.

Lemma u64_id z : in_range 64 z -> u64 z = z.
Proof. apply wrap_id. Qed.

Lemma u64_range z : in_range 64 (u64 z).
Proof. by apply wrap_range. Qed.

Lemma u64_add a b : u64 (u64 a + b) = u64 (a + b).
Proof. unfold u64, wrap. by rewrite Zplus_mod_idemp_l. Qed.

Lemma eff_refl ce : ce_inv ce -> eff ce ce 0 0 0.
Proof. intros Hi. split; try done; [|lia..]. rewrite Z.add_0_r. symmetry. apply u64_id, Hi. Qed.

Lemma eff_trans ce ce1 ce2 k1 g1 d1 k2 g2 d2 :
  eff ce ce1 k1 g1 d1 -> eff ce1 ce2 k2 g2 d2 -> eff ce ce2 (k1 + k2) (g1 + g2) (d1 + d2).
Proof.
  intros [? E1 ? ? ? ? ? ?] [? E2 ? ? ? ? ? ?]. split; try congruence; try lia.
  rewrite E2, E1, u64_add. f_equal. lia.
Qed.

(** From any good state with sequence number [s], [m] returns and has an
    effect within [Q]. *)
Definition does {A} (s : Z) (m : M A) (Q : A -> Z -> Z -> Z -> Prop) : Prop :=
  forall ce, ce_inv ce -> ce_seq ce = s ->
  exists ce' a k g d, m ce = Ok (ce', a) /\ eff ce ce' k g d /\ Q a k g d.

(** No number is taken, nothing is counted. *)
Definition quiet {A} (m : M A) (P : A -> Prop) : Prop :=
  forall s, does s m (fun a k g d => k = 0 /\ g = 0 /\ d = 0 /\ P a).

Lemma does_ret {A} s (a : A) (Q : A -> Z -> Z -> Z -> Prop) : Q a 0 0 0 -> does s (mret a) Q.
Proof. intros Hq ce Hi _. exists ce, a, 0, 0, 0. split; [done|]. split; [by apply eff_refl|done]. Qed.

Lemma does_mono {A} s (m : M A) (Q Q' : A -> Z -> Z -> Z -> Prop) :
  does s m Q -> (forall a k g d, Q a k g d -> Q' a k g d) -> does s m Q'.
Proof. intros Hm Hq ce Hi Hs. destruct (Hm ce Hi Hs) as (ce' & a & k & g & d & E & He & HQ). exists ce', a, k, g, d. auto. Qed.

Lemma does_bind {A B} s (m : M A) (f : A -> M B) (Q1 : A -> Z -> Z -> Z -> Prop) Q :
  does s m Q1 ->
  (forall a k1 g1 d1, Q1 a k1 g1 d1 -> does (u64 (s + k1)) (f a) (fun b k g d => Q b (k1 + k) (g1 + g) (d1 + d))) ->
  does s (m ≫= f) Q.
Proof.
  intros Hm Hf ce Hi Hs. destruct (Hm ce Hi Hs) as (ce1 & a & k1 & g1 & d1 & E1 & He1 & HQ1).
  destruct (Hf a k1 g1 d1 HQ1 ce1 (eff_inv _ _ _ _ _ He1)) as (ce2 & b & k & g & d & E2 & He2 & HQ).
  { by rewrite (eff_seq _ _ _ _ _ He1), Hs. }
  exists ce2, b, (k1 + k), (g1 + g), (d1 + d). split; [|split; [by eapply eff_trans|done]].
  unfold mbind, M_bind. by rewrite E1.
Qed.

(** The sequence number is in range in every good state. *)
Lemma does_range {A} s (m : M A) Q : (in_range 64 s -> does s m Q) -> does s m Q.
Proof. intros Hm ce Hi Hs. apply (Hm ltac:(rewrite <- Hs; apply Hi) ce Hi Hs). Qed.

Lemma quiet_bind {A B} s (m : M A) (f : A -> M B) P Q :
  quiet m P -> (forall a, P a -> does s (f a) Q) -> does s (m ≫= f) Q.
Proof.
  intros Hm Hf. apply does_range. intros Hr. eapply does_bind; [apply Hm|]. intros a k g d (-> & -> & -> & HP).
  rewrite Z.add_0_r, u64_id by done. eapply does_mono; [by apply Hf|]. done.
Qed.

Lemma quiet_bind_quiet {A B} (m : M A) (f : A -> M B) P Q :
  quiet m P -> (forall a, P a -> quiet (f a) Q) -> quiet (m ≫= f) Q.
Proof. intros Hm Hf s. eapply quiet_bind; [exact Hm|]. intros a HP. by apply Hf. Qed.

Lemma quiet_ret {A} (a : A) (P : A -> Prop) : P a -> quiet (mret a) P.
Proof. intros HP s. by apply does_ret. Qed.

Lemma quiet_mono {A} (m : M A) (P P' : A -> Prop) : quiet m P -> (forall a, P a -> P' a) -> quiet m P'.
Proof. intros Hm HP s. eapply does_mono; [apply Hm|]. intros a k g d (-> & -> & -> & Ha). auto. Qed.

(** ** Primitives *)

(** A change of the parts that [eff] does not mention. *)
Lemma quiet_step {A} (m : M A) (P : A -> Prop) :
  (forall ce, ce_inv ce -> exists ce' a, m ce = Ok (ce', a) /\ ce_inv ce' /\ P a /\
     ce_seq ce' = ce_seq ce /\ ce_count ce' alertsGenerated = ce_count ce alertsGenerated /\
     ce_count ce' alertsDropped = ce_count ce alertsDropped /\
     ce_feedback ce' = ce_feedback ce /\ ce_incidents ce' = ce_incidents ce /\ ce_regoQueue ce' = ce_regoQueue ce /\
     ce_pending ce' = ce_pending ce) ->
  quiet m P.
Proof.
  intros Hm s ce Hi _. destruct (Hm ce Hi) as (ce' & a & E & Hi' & HP & Es & Eg & Ed & Hrest).
  exists ce', a, 0, 0, 0. split; [done|]. split; [|done].
  destruct Hrest as (? & ? & ? & ?). split; try done; [|lia..].
  rewrite Es, Z.add_0_r. symmetry. apply u64_id, Hi.
Qed.

Ltac keep_inv Hi := destruct Hi; split; simpl in *; done || auto.

Lemma quiet_now out : quiet (time_now out) (fun _ => True).
Proof.
  apply quiet_step. intros ce Hi. eexists _, _. split; [reflexivity|]. split; [keep_inv Hi|]. by split_and!.
Qed.

Lemma quiet_gets {A} (f : engine -> A) (P : A -> Prop) : (forall ce, ce_inv ce -> P (f ce)) -> quiet (gets f) P.
Proof. intros HP. apply quiet_step. intros ce Hi. eexists _, _. split; [reflexivity|]. split_and!; auto. Qed.

Lemma quiet_inc c : c <> alertsGenerated -> c <> alertsDropped -> quiet (inc c) (fun _ => True).
Proof.
  intros H1 H2. apply quiet_step. intros ce Hi. eexists _, _. split; [reflexivity|]. split; [keep_inv Hi|].
  simpl. unfold add_to. rewrite !decide_False by done. by split_and!.
Qed.

Lemma does_next {B} s (f : Z -> M B) Q :
  does (u64 (s + 1)) (f (u64 (s + 1))) (fun b k g d => Q b (1 + k) g d) -> does s (next_seq ≫= f) Q.
Proof.
  intros Hf. eapply (does_bind _ _ _ (fun n k g d => n = u64 (s + 1) /\ k = 1 /\ g = 0 /\ d = 0)).
  - intros ce Hi Hs. unfold next_seq. rewrite Hs. eexists _, _, 1, 0, 0. split; [reflexivity|]. split; [|done].
    split; simpl; try done; [destruct Hi; split; simpl in *; try done; apply u64_range|by rewrite Hs|lia..].
  - intros n k g d (-> & -> & -> & ->). done.
Qed.

Lemma does_count {B} s c (m : M B) Q (gc dc : Z) :
  (c = alertsGenerated /\ gc = 1 /\ dc = 0) \/ (c = alertsDropped /\ gc = 0 /\ dc = 1) ->
  does s m (fun b k g d => Q b k (gc + g) (dc + d)) -> does s (inc c;; m) Q.
Proof.
  intros Hc Hm. apply does_range. intros Hr.
  eapply (does_bind _ _ _ (fun _ k g d => k = 0 /\ g = gc /\ d = dc)).
  - intros ce Hi Hs. eexists _, tt, 0, gc, dc. split; [reflexivity|]. split; [|done].
    split; simpl; try done; [keep_inv Hi|by rewrite Z.add_0_r, u64_id by apply Hi| |];
      destruct Hc as [(-> & -> & ->)|(-> & -> & ->)]; unfold add_to; case_decide; lia || done.
  - intros _ k g d (-> & -> & ->). by rewrite Z.add_0_r, u64_id by done.
Qed.

(** ** The pieces of the pipeline *)
Context (out : outside).

Lemma quiet_is_dup a : quiet (is_dup cfg out a) (fun _ => True).
Proof.
  unfold is_dup. destruct (cfg_enableDedup cfg); [|by apply quiet_ret]. unfold checkDup.
  eapply quiet_bind_quiet; [apply quiet_now|]. intros t _. apply quiet_step. intros ce Hi.
  destruct (check_ok (al_RuleID a) (al_PID a) (al_Comm a) t (ce_dedup ce) (ci_dedup _ Hi)) as (b & E).
  unfold zoom. rewrite E. eexists _, _. split; [reflexivity|]. split; [keep_inv Hi|]. by split_and!.
Qed.

Lemma quiet_mark a start : quiet (mark_emitted cfg a start) (fun _ => True).
Proof.
  unfold mark_emitted. destruct (cfg_enableDedup cfg); [|by apply quiet_ret]. apply quiet_step. intros ce Hi.
  destruct (mark_ok dedup_order (al_RuleID a) (al_PID a) (al_Comm a) start (ce_dedup ce) dedup_order_ok (ci_dedup _ Hi)) as (sd & E & Hs).
  unfold markDedup, zoom. rewrite E. eexists _, _. split; [reflexivity|]. split; [keep_inv Hi|]. by split_and!.
Qed.

Lemma quiet_rule_allowed id : quiet (rule_allowed out id) (fun _ => True).
Proof.
  unfold rule_allowed. eapply quiet_bind_quiet; [apply quiet_now|]. intros t _. apply quiet_step. intros ce Hi.
  destruct (Allow_ok (ce_limiter ce) id t (ci_limiter _ Hi)) as (rl & b & E & Hl).
  unfold zoom. rewrite E. eexists _, _. split; [reflexivity|]. split; [keep_inv Hi|]. by split_and!.
Qed.

Lemma quiet_global_allowed : quiet (global_allowed cfg out) (fun _ => True).
Proof.
  unfold global_allowed. destruct (cfg_globalLimiterEnabled cfg); [|by apply quiet_ret].
  eapply quiet_bind_quiet; [apply quiet_now|]. intros t _. apply quiet_step. intros ce Hi.
  unfold zoom. destruct (Limiter_Allow t (ce_global ce)) as [l b]. eexists _, _. split; [reflexivity|].
  split; [keep_inv Hi|]. by split_and!.
Qed.

Lemma quiet_drift e a : quiet (drift_passes out e a) (fun b => nodrift = true -> b = true).
Proof.
  apply quiet_step. intros ce Hi. unfold drift_passes, mbind, M_bind, gets.
  destruct (ce_drift ce) as [p|] eqn:Ep; [|by exists ce, true; split_and!].
  case_bool_decide; [|by exists ce, true; split_and!]. cbn.
  destruct (drift_observe_ok p (clock out (ce_ticks ce)) (clock out (S (ce_ticks ce))) (al_RuleID a) e (ci_drift _ Hi p Ep))
    as (p' & b & E & Hw). unfold zoom. rewrite E. eexists _, _. split; [reflexivity|].
  assert (nodrift = true -> False) as Hn by (intros En; by rewrite (ci_nodrift _ Hi En) in Ep).
  split; [destruct Hi; split; simpl in *; try done; by intros ? [= <-]|]. by split_and!.
Qed.

Lemma quiet_acquire a start : quiet (tryAcquireEnforceCooldown cfg (al_RuleID a) (al_PID a) start) (fun _ => True).
Proof.
  apply quiet_step. intros ce Hi. unfold tryAcquireEnforceCooldown, zoom.
  destruct (tryAcquire_ok cooldown_order (al_RuleID a) (al_PID a) (cfg_enforceCooldown cfg) start (ce_cooldowns ce)
    cooldown_order_ok (ci_cooldowns _ Hi)) as (sc & b & E & Hs).
  rewrite E. eexists _, _. split; [reflexivity|]. split; [keep_inv Hi|]. by split_and!.
Qed.

(** The identifier, rule, action and process of an alert under construction. *)
Definition same_alert (a a' : Alert) : Prop :=
  al_ID a' = al_ID a /\ al_RuleID a' = al_RuleID a /\ al_Action a' = al_Action a /\ al_PID a' = al_PID a.

Lemma quiet_tree e a : quiet (add_tree e a) (same_alert a).
Proof.
  unfold add_tree, process_tree. eapply quiet_bind_quiet; [by apply (quiet_gets _ (fun _ => True))|]. intros tree _. by apply quiet_ret.
Qed.

Lemma quiet_context e a : quiet (add_context cfg e a) (same_alert a).
Proof.
  unfold add_context. destruct (cfg_enableEventBuffer cfg) eqn:Eb; [|by apply quiet_ret].
  eapply (quiet_bind_quiet _ _ (fun _ => True)); [|intros ctx _; by apply quiet_ret].
  apply quiet_step. intros ce Hi. unfold zoom. rewrite (GetRecent_spec _ _ _ (ci_buffer _ Hi Eb)).
  eexists _, _. split; [reflexivity|]. split; [keep_inv Hi|]. by split_and!.
Qed.

Lemma quiet_trace e t a : quiet (add_trace out e t a) (same_alert a).
Proof.
  unfold add_trace. destruct (ev_TraceContext e); [by apply quiet_ret|].
  eapply (quiet_bind_quiet _ _ (fun _ => True)); [|intros [tc|] _; by apply quiet_ret].
  apply quiet_step. intros ce Hi. unfold zoom. destruct (lookup_trace _ _ _ _) as [c r].
  eexists _, _. split; [reflexivity|]. split; [keep_inv Hi|]. by split_and!.
Qed.

Lemma same_enrichment e a : same_alert a (add_enrichment e a).
Proof. unfold add_enrichment. by destruct (ev_Enrichment e). Qed.

Lemma same_alert_trans a b c : same_alert a b -> same_alert b c -> same_alert a c.
Proof. intros (?&?&?&?) (?&?&?&?). split_and!; congruence. Qed.

Lemma quiet_send a :
  isEnforcedAction (al_Action a) = true -> al_Enforced a = true -> quiet (send_enforce cfg (al_Action a) a) (fun _ => True).
Proof.
  intros Ha He. apply quiet_step. intros ce Hi. unfold send_enforce, mbind, M_bind, gets.
  destruct (Z.ltb_spec (Z.of_nat (length (ce_enforceQueue ce))) (cfg_enforceQueueSize cfg)).
  - eexists _, _. split; [reflexivity|]. split; [|by split_and!]. destruct Hi; split; simpl in *; try done.
    + apply Forall_app. split; [done|]. by repeat constructor.
    + right. rewrite length_app. simpl. lia.
  - eexists _, _. split; [reflexivity|]. split; [keep_inv Hi|]. by split_and!.
Qed.

Lemma quiet_enforce start a : quiet (enforce cfg start a) (same_alert a).
Proof.
  unfold enforce. destruct (cfg_actionExecutor cfg); [|by apply quiet_ret]. simpl.
  destruct (isEnforcedAction (al_Action a)) eqn:Ea; [|by apply quiet_ret].
  eapply quiet_bind_quiet; [apply quiet_acquire|]. intros [] _; [|by apply quiet_ret].
  eapply quiet_bind_quiet; [by apply quiet_inc|]. intros _ _.
  eapply quiet_bind_quiet; [by apply (quiet_send (with_enforced a))|]. intros _ _. by apply quiet_ret.
Qed.

(** ** Candidates *)

(** The identifier carries the number [s + i]. *)
Definition stamped_at (s i : Z) (a : Alert) : Prop :=
  exists prefix ts pid, al_ID a = buildAlertID prefix ts pid (u64 (s + i)).

(** One candidate: emitted under the next number and counted as generated, or
    not emitted and, unless the drift baseline held it back, counted as
    dropped. *)
Definition candidate (s : Z) (r : option Alert) (k g d : Z) : Prop :=
  match r with
  | Some a => k = 1 /\ g = 1 /\ d = 0 /\ stamped_at s 1 a
  | None => g = 0 /\ 0 <= k <= d /\ d <= 1 /\ (nodrift = true -> d = 1)
  end.

Lemma does_limits a s Q (f : bool -> M (option Alert)) :
  does s (f true) Q -> does s (f false) (fun b k g d => Q b k g (1 + d)) -> does s (within_limits cfg out a ≫= f) Q.
Proof.
  intros Ht Hf. apply does_range. intros Hr.
  eapply (does_bind _ _ _ (fun (b : bool) k g d => k = 0 /\ g = 0 /\ d = if b then 0 else 1)).
  - unfold within_limits. eapply quiet_bind; [apply quiet_rule_allowed|]. intros [] _; simpl.
    + eapply quiet_bind; [apply quiet_global_allowed|]. intros [] _; simpl; [by apply does_ret|].
      eapply (does_count _ _ _ _ 0 1); [by right|]. eapply quiet_bind; [by apply quiet_inc|]. intros _ _. by apply does_ret.
    + eapply (does_count _ _ _ _ 0 1); [by right|]. by apply does_ret.
  - intros [] k g d (-> & -> & ->); rewrite Z.add_0_r, u64_id by done; eapply does_mono; eauto.
Qed.

(** The end of a duplicate: two counters, no alert. *)
Lemma does_duplicate s s' k0 :
  0 <= k0 <= 1 -> does s (inc alertsDedupDropped;; inc alertsDropped;; mret None) (fun r k g d => candidate s' r (k0 + k) g d).
Proof.
  intros Hk. eapply quiet_bind; [by apply quiet_inc|]. intros _ _.
  eapply (does_count _ _ _ _ 0 1); [by right|]. apply does_ret. simpl. split_and!; lia || done.
Qed.

(** The end of an alert that was given the number [s + 1]. *)
Lemma does_emit s s' (a : Alert) k0 (start : Z) :
  stamped_at s' 1 a -> k0 = 1 ->
  does s (mark_emitted cfg a start;; inc alertsGenerated;; mret (Some a)) (fun r k g d => candidate s' r (k0 + k) g d).
Proof.
  intros Ha ->. eapply quiet_bind; [apply quiet_mark|]. intros _ _.
  eapply (does_count _ _ _ _ 1 0); [by left|]. by apply does_ret.
Qed.

Lemma stamped_same s i a a' : stamped_at s i a -> same_alert a a' -> stamped_at s i a'.
Proof. intros (p & ts & pid & E) (E' & _). exists p, ts, pid. congruence. Qed.

Lemma does_annotate e start a s :
  does s (annotate cfg out e start a) (fun a k g d => k = 1 /\ g = 0 /\ d = 0 /\ stamped_at s 1 a).
Proof.
  unfold annotate. apply does_next. set (a0 := with_ID _ a). assert (stamped_at s 1 a0) as Ha0 by by eexists _, _, _.
  eapply quiet_bind; [apply quiet_trace|]. intros a1 H1. eapply quiet_bind; [apply quiet_tree|]. intros a2 H2.
  eapply does_mono; [apply quiet_context|]. intros a3 k g d (-> & -> & -> & H3). split_and!; [done..|].
  eapply stamped_same; [exact Ha0|]. eapply same_alert_trans; [exact H1|].
  eapply same_alert_trans; [apply same_enrichment|]. by eapply same_alert_trans.
Qed.

Lemma complete_candidate e start isDup a s : does s (complete_rule_alert cfg out e start isDup a) (candidate s).
Proof.
  unfold complete_rule_alert. eapply does_bind; [apply does_annotate|]. intros a1 k g d (-> & -> & -> & Ha).
  eapply quiet_bind; [apply quiet_enforce|]. intros a2 H2.
  destruct isDup; [apply does_duplicate; lia|]. apply does_emit; [|done]. by eapply stamped_same.
Qed.

Lemma rule_match_candidate e start a s : does s (on_rule_match cfg out e start a) (candidate s).
Proof.
  unfold on_rule_match. eapply quiet_bind; [apply quiet_drift|]. intros [] Hpass; simpl negb; cbn iota.
  2: { apply does_ret. simpl. split_and!; [done|lia..|]. intros En. by specialize (Hpass En). }
  eapply quiet_bind; [apply quiet_is_dup|]. intros [] _; [apply complete_candidate|].
  apply does_limits; [apply complete_candidate|]. apply does_ret. simpl. split_and!; [done|lia..].
Qed.

Lemma wasm_candidate e start a s : does s (on_wasm_alert cfg out e start a) (candidate s).
Proof.
  unfold on_wasm_alert. eapply quiet_bind; [apply quiet_is_dup|]. intros [] _; [apply (does_duplicate _ _ 0); lia|].
  apply does_limits; [|apply does_ret; simpl; split_and!; [done|lia..]]. simpl negb. cbn iota.
  eapply quiet_bind; [apply quiet_mark|]. intros _ _. apply does_next. set (a0 := with_ID _ a).
  eapply quiet_bind; [apply quiet_tree|]. intros a1 H1. eapply quiet_bind; [apply quiet_context|]. intros a2 H2.
  eapply (does_count _ _ _ _ 1 0); [by left|]. apply does_ret. split_and!; [done..|].
  apply (stamped_same _ _ a0); [by eexists _, _, _ | by eapply same_alert_trans].
Qed.

(** The two endings of an alert that already has its number. *)
Lemma accept_candidate start a s s' : stamped_at s' 1 a -> does s (accept_alert cfg out start a) (fun r k g d => candidate s' r (1 + k) g d).
Proof.
  intros Ha. unfold accept_alert. eapply quiet_bind; [apply quiet_is_dup|]. intros [] _; [apply does_duplicate; lia|].
  eapply quiet_bind; [apply quiet_rule_allowed|]. intros b _.
  eapply (quiet_bind _ _ _ (fun _ => True)); [destruct b; [apply quiet_global_allowed | by apply quiet_ret]|]. intros [] _.
  - by apply does_emit.
  - eapply (does_count _ _ _ _ 0 1); [by right|]. apply does_ret. simpl. split_and!; [done|lia..].
Qed.

Lemma accept_anomaly_candidate start a s s' :
  stamped_at s' 1 a -> does s (accept_anomaly cfg out start a) (fun r k g d => candidate s' r (1 + k) g d).
Proof.
  intros Ha. unfold accept_anomaly. eapply quiet_bind; [apply quiet_is_dup|]. intros [] _; [apply does_duplicate; lia|].
  eapply quiet_bind; [apply quiet_rule_allowed|]. intros b _. eapply quiet_bind; [apply quiet_global_allowed|]. intros g _.
  destruct (b && g); [by apply does_emit|]. eapply (does_count _ _ _ _ 0 1); [by right|].
  eapply (quiet_bind _ _ _ (fun _ => True)); [destruct g; [by apply quiet_ret | by apply quiet_inc]|]. intros _ _.
  apply does_ret. simpl. split_and!; [done|lia..].
Qed.

(** ** Batches *)

(** Numbers of emitted alerts increase from [lo] and stay up to [hi]. *)
Fixpoint stamped (s lo : Z) (l : list Alert) (hi : Z) : Prop :=
  match l with
  | [] => lo <= hi
  | a :: l => exists i, lo < i /\ stamped_at s i a /\ stamped s i l hi
  end.

(** [n] candidates were looked at, of which the emitted ones are [l]. *)
Definition batch (n s : Z) (l : list Alert) (k g d : Z) : Prop :=
  g = Z.of_nat (length l) /\ 0 <= k <= g + d /\ 0 <= d /\ g + d <= n /\ (nodrift = true -> g + d = n) /\ stamped s 0 l k.

Lemma stamped_shift s k l lo hi : stamped (u64 (s + k)) lo l hi -> stamped s (k + lo) l (k + hi).
Proof.
  revert lo. induction l as [|a l IH]; intros lo; simpl; [lia|]. intros (i & Hi & (p & ts & pid & E) & Hl).
  exists (k + i). split; [lia|]. split; [|by apply IH]. exists p, ts, pid. rewrite E. f_equal. rewrite u64_add. f_equal. lia.
Qed.

Lemma stamped_weaken s lo lo' l hi hi' : lo' <= lo -> hi <= hi' -> stamped s lo l hi -> stamped s lo' l hi'.
Proof.
  revert lo lo'. induction l as [|a l IH]; intros lo lo' H1 H2; simpl; [lia|]. intros (i & Hi & Ha & Hl).
  exists i. split; [lia|]. split; [done|]. by eapply (IH i i).
Qed.

Lemma stamped_app s lo l1 mid l2 hi : stamped s lo l1 mid -> stamped s mid l2 hi -> stamped s lo (l1 ++ l2) hi.
Proof.
  revert lo. induction l1 as [|a l1 IH]; intros lo; simpl; [intros; by eapply stamped_weaken|].
  intros (i & Hi & Ha & Hl) H2. exists i. split; [done|]. split; [done|]. by apply IH.
Qed.

Lemma batch_app n1 n2 s l1 l2 k1 g1 d1 k2 g2 d2 :
  batch n1 s l1 k1 g1 d1 -> batch n2 (u64 (s + k1)) l2 k2 g2 d2 -> batch (n1 + n2) s (l1 ++ l2) (k1 + k2) (g1 + g2) (d1 + d2).
Proof.
  intros (-> & Hk1 & Hd1 & Hn1 & He1 & Hs1) (-> & Hk2 & Hd2 & Hn2 & He2 & Hs2). unfold batch. rewrite length_app.
  split_and!; [lia..|intros En; specialize (He1 En); specialize (He2 En); lia|].
  eapply stamped_app; [exact Hs1|]. pose proof (stamped_shift _ _ _ _ _ Hs2) as Hx. by rewrite Z.add_0_r in Hx.
Qed.

Lemma batch_empty s : batch 0 s [] 0 0 0.
Proof. unfold batch. simpl. split_and!; lia. Qed.

Lemma batch_candidate s r k g d : candidate s r k g d -> batch 1 s (emitted r) k g d.
Proof.
  destruct r as [a|]; simpl; unfold batch; simpl.
  - intros (-> & -> & -> & Ha). split_and!; try lia. exists 1. split; [lia|]. split; [done|lia].
  - intros (-> & Hk & Hd & He). split_and!; try lia. intros En. specialize (He En). lia.
Qed.

(** ** The detectors *)
Definition rule_matches (e : Event) : list Alert :=
  match rules with Some re => Evaluate re (rule_draw out) e | None => [] end.

Lemma rule_loop_batch e start l ce acc :
  ce_inv ce ->
  exists ce' em k g d,
    foldl (fun (st : go (engine * list Alert)) a =>
        '(ce, alerts) ← st; '(ce, r) ← on_rule_match cfg out e start a ce; Ok (ce, alerts ++ emitted r)) (Ok (ce, acc)) l =
      Ok (ce', acc ++ em) /\ eff ce ce' k g d /\ batch (Z.of_nat (length l)) (ce_seq ce) em k g d.
Proof.
  revert ce acc. induction l as [|a l IH]; intros ce acc Hi; cbn [foldl].
  { exists ce, [], 0, 0, 0. rewrite app_nil_r. split; [done|]. split; [by apply eff_refl|apply batch_empty]. }
  destruct (rule_match_candidate e start a (ce_seq ce) ce Hi eq_refl) as (ce1 & r & k1 & g1 & d1 & E1 & He1 & Hc1).
  cbn [mbind result_bind]. rewrite E1. cbn [mbind result_bind].
  destruct (IH ce1 (acc ++ emitted r) (eff_inv _ _ _ _ _ He1)) as (ce2 & em & k2 & g2 & d2 & E2 & He2 & Hb2).
  exists ce2, (emitted r ++ em), (k1 + k2), (g1 + g2), (d1 + d2). rewrite app_assoc. split; [exact E2|].
  split; [by eapply eff_trans|]. replace (Z.of_nat (length (a :: l))) with (1 + Z.of_nat (length l)) by (simpl; lia).
  apply batch_app; [by apply batch_candidate|]. by rewrite (eff_seq _ _ _ _ _ He1) in Hb2.
Qed.

Lemma rule_alerts_batch e start s :
  does s (rule_alerts cfg out e start) (batch (Z.of_nat (length (rule_matches e))) s).
Proof.
  intros ce Hi Hs. unfold rule_alerts, rule_matches. rewrite (ci_rules _ Hi). destruct rules as [re|].
  - rewrite EvaluateInto_Evaluate. destruct (rule_loop_batch e start (Evaluate re (rule_draw out) e) ce [] Hi)
      as (ce' & em & k & g & d & E & He & Hb). rewrite Hs in Hb. exists ce', em, k, g, d. by rewrite E.
  - exists ce, [], 0, 0, 0. split; [done|]. split; [by apply eff_refl|apply batch_empty].
Qed.

Lemma does_batch_app {B} s (m : M (list Alert)) (f : list Alert -> M B) n Q :
  does s m (batch n s) ->
  (forall l k g d, batch n s l k g d -> does (u64 (s + k)) (f l) (fun b k' g' d' => Q b (k + k') (g + g') (d + d'))) ->
  does s (m ≫= f) Q.
Proof. intros Hm Hf. eapply does_bind; [exact Hm|]. exact Hf. Qed.

Lemma wasm_batch e start l s : does s (wasm_loop cfg out e start l) (batch (Z.of_nat (length l)) s).
Proof.
  revert s. induction l as [|a l IH]; intros s; [apply does_ret, batch_empty|]. cbn [wasm_loop].
  eapply does_bind; [apply wasm_candidate|]. intros r k1 g1 d1 Hc. eapply does_bind; [apply IH|].
  intros em k2 g2 d2 Hb. apply does_ret. rewrite !Z.add_0_r.
  replace (Z.of_nat (length (a :: l))) with (1 + Z.of_nat (length l)) by (simpl; lia).
  apply batch_app; [by apply batch_candidate|done].
Qed.

(** A detector that makes at most one candidate. *)
Definition single (s : Z) (l : list Alert) (k g d : Z) : Prop := exists n, 0 <= n <= 1 /\ batch n s l k g d.

Lemma single_empty s : single s [] 0 0 0.
Proof. exists 0. split; [lia|apply batch_empty]. Qed.

Lemma single_emitted s (m : M (option Alert)) (Q := fun (r : option Alert) k g d => candidate s r (1 + k) g d) s' :
  does s' m Q -> does s' (r ← m; mret (emitted r)) (fun l k g d => single s l (1 + k) g d).
Proof.
  intros Hm. eapply does_bind; [exact Hm|]. intros r k g d Hc. apply does_ret. rewrite !Z.add_0_r.
  exists 1. split; [lia|by apply batch_candidate].
Qed.

Lemma ioc_batch e start s : does s (ioc_alert cfg out e start) (single s).
Proof.
  unfold ioc_alert. destruct (cfg_iocMatcher cfg) as [m|]; [|apply does_ret, single_empty].
  unfold checkIOCMatch. destruct (ioc_indicator m e) as [ind|].
  2: { eapply does_bind; [by apply (does_ret _ _ (fun r k g d => r = None /\ k = 0 /\ g = 0 /\ d = 0))|].
       intros r k g d (-> & -> & -> & ->). apply does_ret, single_empty. }
  eapply (does_bind _ _ _ (fun r k g d => k = 1 /\ g = 0 /\ d = 0 /\ exists a, r = Some a /\ stamped_at s 1 a)).
  - apply does_next. set (a0 := engine_alert _ _ _ _ _ _ _).
    eapply (quiet_bind _ _ _ (same_alert a0)).
    { destruct (ev_TraceContext e); [apply quiet_trace|]. eapply quiet_bind_quiet; [apply quiet_now|]. intros t _. apply quiet_trace. }
    intros a1 H1. apply does_ret. split_and!; [done..|]. eexists. split; [reflexivity|].
    apply (stamped_same _ _ a0); [by eexists _, _, _|]. eapply same_alert_trans; [exact H1|apply same_enrichment].
  - intros r k g d (-> & -> & -> & a & -> & Ha).
    eapply quiet_bind; [apply quiet_tree|]. intros a1 H1. eapply quiet_bind; [apply quiet_context|]. intros a2 H2.
    apply single_emitted, accept_candidate. eapply stamped_same; [exact Ha|by eapply same_alert_trans].
Qed.

Lemma quiet_detector e confirmed : quiet (zoom ce_detector set_detector (fun ad => Ok (ProcessEvent ad e confirmed))) (fun _ => True).
Proof.
  apply quiet_step. intros ce Hi. unfold zoom. destruct (ProcessEvent (ce_detector ce) e confirmed) as [ad r].
  eexists _, _. split; [reflexivity|]. split; [keep_inv Hi|]. by split_and!.
Qed.

Lemma anomaly_batch e start confirmed s : does s (anomaly_alert cfg out e start confirmed) (single s).
Proof.
  unfold anomaly_alert. destruct (cfg_enableAnomaly cfg); [|apply does_ret, single_empty].
  eapply quiet_bind; [apply quiet_detector|]. intros [r|] _; [|apply does_ret, single_empty].
  destruct (is_anomaly cfg e r); [|apply does_ret, single_empty]. apply does_next. set (a0 := engine_alert _ _ _ _ _ _ _).
  eapply quiet_bind; [apply quiet_trace|]. intros a1 H1. eapply quiet_bind; [apply quiet_tree|]. intros a2 H2.
  eapply quiet_bind; [apply quiet_context|]. intros a3 H3. apply single_emitted, accept_anomaly_candidate.
  apply (stamped_same _ _ a0); [by eexists _, _, _|]. eapply same_alert_trans; [exact H1|].
  eapply same_alert_trans; [apply same_enrichment|]. by eapply same_alert_trans.
Qed.

Lemma quiet_allowlist e : quiet (allowlist_check_event out e) (fun _ => True).
Proof.
  unfold allowlist_check_event. eapply (quiet_bind_quiet _ _ (fun _ => True)); [by apply quiet_gets|].
  intros [p|] _; [|by apply quiet_ret]. destruct (_ =? _); [|by apply quiet_ret].
  eapply quiet_bind_quiet; [apply quiet_now|]. intros t _. apply quiet_step. intros ce Hi.
  eexists _, _. split; [reflexivity|]. split; [keep_inv Hi|]. by split_and!.
Qed.

Lemma allowlist_batch e start s : does s (allowlist_alert cfg out e start) (single s).
Proof.
  unfold allowlist_alert. eapply quiet_bind; [apply quiet_allowlist|]. intros [v|] _; [|apply does_ret, single_empty].
  apply does_next. set (a0 := engine_alert _ _ _ _ _ _ _). eapply quiet_bind; [apply quiet_context|]. intros a1 H1.
  eapply quiet_bind; [apply quiet_tree|]. intros a2 H2. apply single_emitted, accept_candidate.
  apply (stamped_same _ _ a0); [by eexists _, _, _|]. eapply same_alert_trans; [exact H1|].
  eapply same_alert_trans; [exact H2|]. apply same_enrichment.
Qed.

Lemma quiet_buffer e :
  quiet (if cfg_enableEventBuffer cfg then
     t ← time_now out; zoom ce_buffer set_buffer (fun sb => sb ← EventBuffer.Add (ev_PID e) e t sb; Ok (sb, tt))
   else mret tt) (fun _ => True).
Proof.
  destruct (cfg_enableEventBuffer cfg) eqn:Eb; [|by apply quiet_ret].
  eapply quiet_bind_quiet; [apply quiet_now|]. intros t _. apply quiet_step. intros ce Hi. unfold zoom.
  destruct (buffer_Add_spec (ev_PID e) e t (ce_buffer ce) (ci_buffer _ Hi Eb)) as (sb & E & Hsb & _). rewrite E.
  eexists _, _. split; [reflexivity|]. split; [keep_inv Hi|]. by split_and!.
Qed.

Lemma quiet_track e t : quiet (modify (fun ce => set_lineage (Track (proc_status out) t (ce_lineage ce) e) ce)) (fun _ => True).
Proof. apply quiet_step. intros ce Hi. eexists _, _. split; [reflexivity|]. split; [keep_inv Hi|]. by split_and!. Qed.

(** One more detector after those that made the batch so far. *)
Lemma does_more {B} s l k g d n (P : Z -> Prop) (m : M (list Alert)) (f : list Alert -> M B) Q :
  batch n s l k g d ->
  does (u64 (s + k)) m (fun l' k' g' d' => exists n', P n' /\ batch n' (u64 (s + k)) l' k' g' d') ->
  (forall l' k' g' d' n', P n' -> batch (n + n') s (l ++ l') (k + k') (g + g') (d + d') ->
     does (u64 (s + (k + k'))) (f l') (fun b k'' g'' d'' => Q b (k + k' + k'') (g + g' + g'') (d + d' + d''))) ->
  does (u64 (s + k)) (m ≫= f) (fun b k'' g'' d'' => Q b (k + k'') (g + g'') (d + d'')).
Proof.
  intros Hb Hm Hf. eapply does_bind; [exact Hm|]. intros l' k' g' d' (n' & Hn & Hb').
  rewrite u64_add, <- Z.add_assoc. eapply does_mono; [apply (Hf l' k' g' d' n' Hn); by apply batch_app|].
  intros b k'' g'' d''. by rewrite !Z.add_assoc.
Qed.

Lemma detect_batch e start s :
  does s (detect cfg out e start) (fun l k g d =>
    exists x, 0 <= x <= 3 /\ batch (Z.of_nat (length (rule_matches e)) + Z.of_nat (length (wasm_alerts out e)) + x) s l k g d).
Proof.
  set (Q := fun l k g d => exists x, _ /\ _).
  unfold detect. eapply quiet_bind; [by apply quiet_inc|]. intros _ _. eapply quiet_bind; [apply quiet_buffer|]. intros _ _.
  eapply quiet_bind; [apply quiet_now|]. intros t _. eapply quiet_bind; [apply quiet_track|]. intros _ _.
  eapply does_bind; [apply rule_alerts_batch|]. intros l1 k1 g1 d1 H1.
  eapply (does_more _ _ _ _ _ _ (fun n => n = Z.of_nat (length (wasm_alerts out e))) _ _ Q); [exact H1| |].
  { eapply does_mono; [apply wasm_batch|]. intros. by eexists. }
  intros l2 k2 g2 d2 n2 -> H2. eapply (does_more _ _ _ _ _ _ _ _ _ Q); [exact H2|apply ioc_batch|].
  intros l3 k3 g3 d3 n3 Hn3 H3. cbv zeta.
  eapply (does_more _ _ _ _ _ _ _ _ _ Q); [exact H3|apply anomaly_batch|]. intros l4 k4 g4 d4 n4 Hn4 H4.
  eapply (does_more _ _ _ _ _ _ _ _ _ Q); [exact H4|apply allowlist_batch|]. intros l5 k5 g5 d5 n5 Hn5 H5. apply does_ret.
  cbv beta in *. exists (n3 + n4 + n5). split; [lia|]. rewrite !Z.add_0_r, !Z.add_assoc. by rewrite <- !app_assoc in *.
Qed.
End logic.

(** ** Whole ingests *)
Section engine_theorems.
Context `{EngineLib}.
Implicit Types (ce : engine) (cfg : settings) (out : outside) (e : Event).

Definition engine_ok cfg ce : Prop := ce_inv cfg false (ce_rules ce) ce.

(** The invariant with what is known of the drift baseline. *)
Definition nodrift ce : bool := match ce_drift ce with None => true | Some _ => false end.

Lemma engine_ok_inv cfg ce : engine_ok cfg ce -> ce_inv cfg (nodrift ce) (ce_rules ce) ce.
Proof. intros []. split; try done. unfold nodrift. by destruct (ce_drift ce). Qed.

Lemma inv_engine_ok cfg nd rs ce : ce_inv cfg nd rs ce -> engine_ok cfg ce /\ ce_rules ce = rs.
Proof. intros []. split; [|done]. by split. Qed.

(** What stays as it is after the detectors have run. *)
Record after_detect ce ce' : Prop := {
  ad_seq : ce_seq ce' = ce_seq ce;
  ad_gen : ce_count ce' alertsGenerated = ce_count ce alertsGenerated;
  ad_drop : ce_count ce' alertsDropped = ce_count ce alertsDropped;
  ad_rules : ce_rules ce' = ce_rules ce }.

Lemma add_incidents_ok cfg out alerts ce :
  engine_ok cfg ce ->
  exists ce', add_incidents out alerts ce = Ok (ce', tt) /\ engine_ok cfg ce' /\ after_detect ce ce' /\
    ce_pending ce' = ce_pending ce /\ ce_regoQueue ce' = ce_regoQueue ce.
Proof.
  revert ce. induction alerts as [|a alerts IH]; intros ce Hi; [by exists ce|]. cbn [add_incidents].
  unfold mbind, M_bind, time_now, modify. set (ce1 := set_incidents _ _).
  assert (engine_ok cfg ce1) as Hi1 by (destruct Hi; by split).
  destruct (IH ce1 Hi1) as (ce' & E & Hi' & [Es Eg Ed Er] & Ep & Eq). exists ce'. split; [exact E|]. by split_and!.
Qed.

Definition queue_takes cfg ce (alerts : list Alert) : bool :=
  cfg_rego cfg && negb (bool_decide (alerts = [])) && (Z.of_nat (length (ce_regoQueue ce)) <? cfg_regoQueueSize cfg).

Lemma dispatch_ok cfg out alerts ce :
  engine_ok cfg ce ->
  exists ce' alerts' q, dispatch cfg out alerts ce = Ok (ce', (alerts', q)) /\ engine_ok cfg ce' /\ after_detect ce ce' /\
    q = queue_takes cfg ce alerts /\ ce_pending ce' = ce_pending ce /\
    alerts' = (if q then alerts else match ce_feedback ce with Some m => FilterAlerts m alerts | None => alerts end) /\
    ce_regoQueue ce' = ce_regoQueue ce ++ (if q then [alerts] else []) /\
    (q = true -> ce_incidents ce' = ce_incidents ce).
Proof.
  intros Hi. unfold dispatch, mbind, M_bind, gets. fold (queue_takes cfg ce alerts).
  destruct (queue_takes cfg ce alerts).
  - unfold modify, mret, M_ret. eexists _, _, _. split; [reflexivity|]. split; [destruct Hi; by split|]. by split_and!.
  - set (m := if cfg_rego cfg && _ then _ else _).
    assert (exists ce1, m ce = Ok (ce1, tt) /\ engine_ok cfg ce1 /\ after_detect ce ce1 /\ ce_feedback ce1 = ce_feedback ce /\
      ce_pending ce1 = ce_pending ce /\ ce_regoQueue ce1 = ce_regoQueue ce) as (ce1 & -> & Hi1 & [? ? ? ?] & Ef & Ep & Eq).
    { subst m. destruct (cfg_rego cfg && _); [|by exists ce].
      eexists. split; [reflexivity|]. split; [destruct Hi; by split|]. by split_and!. }
    rewrite Ef. set (kept := match ce_feedback ce with Some m => _ | None => _ end).
    destruct (add_incidents_ok cfg out kept ce1 Hi1) as (ce2 & -> & Hi2 & [? ? ? ?] & Ep2 & Eq2).
    eexists _, _, _. split; [reflexivity|]. rewrite app_nil_r. split; [done|]. split; [split; congruence|]. split_and!; congruence.
Qed.

(** The numbers of a subsequence still increase. *)
Lemma stamped_sublist s lo l l' hi : sublist l' l -> stamped s lo l hi -> stamped s lo l' hi.
Proof.
  intros Hs. revert lo. induction Hs as [|a l' l _ IH|a l' l _ IH]; intros lo; [done| |].
  - simpl. intros (i & Hi & Ha & Hl). exists i. split; [done|]. split; [done|by apply IH].
  - simpl. intros (i & Hi & _ & Hl). apply IH. eapply stamped_weaken; [| |exact Hl]; lia.
Qed.

Lemma ingest_ok cfg out e ce :
  engine_ok cfg ce ->
  exists ce' alerts k g d, Ingest cfg out e ce = Ok (ce', alerts) /\ engine_ok cfg ce' /\ ce_rules ce' = ce_rules ce /\
    ce_seq ce' = u64 (ce_seq ce + k) /\ 0 <= k <= g + d /\ 0 <= d /\
    ce_count ce' alertsGenerated = ce_count ce alertsGenerated + g /\
    ce_count ce' alertsDropped = ce_count ce alertsDropped + d /\
    stamped (ce_seq ce) 0 alerts k /\ Z.of_nat (length alerts) <= g /\
    (ce_feedback ce = None -> Z.of_nat (length alerts) = g) /\
    let n := Z.of_nat (length (rule_matches (ce_rules ce) out e)) + Z.of_nat (length (wasm_alerts out e)) in
    g + d <= n + 3 /\ (ce_drift ce = None -> n <= g + d).
Proof.
  intros Hi. unfold Ingest, ingestWithAD, mbind, M_bind. cbn [time_now].
  set (start := clock out (ce_ticks ce)). set (ce0 := set_ticks _ ce).
  assert (ce_inv cfg (nodrift ce) (ce_rules ce) ce0) as Hi0 by (apply engine_ok_inv in Hi; destruct Hi; by split).
  destruct (detect_batch cfg _ _ out e start _ ce0 Hi0 eq_refl) as (ce1 & det & k & g & d & E & He & x & Hx & Hb).
  change (detect cfg out e start ce0) with (detect cfg out e start ce0) in E. rewrite E.
  destruct (inv_engine_ok _ _ _ _ (eff_inv _ _ _ _ _ _ _ _ He)) as [Hi1 Er1].
  destruct (dispatch_ok cfg out det ce1 Hi1) as (ce2 & alerts & q & E2 & Hi2 & [Es2 Eg2 Ed2 Er2] & _ & _ & Ea & _). rewrite E2.
  assert (sublist alerts det /\ (ce_feedback ce = None -> alerts = det)) as [Hsub Hfb].
  { subst alerts. rewrite (eff_feedback _ _ _ _ _ _ _ _ He). change (ce_feedback ce0) with (ce_feedback ce).
    destruct q; [done|]. destruct (ce_feedback ce); [|done]. split; [|done]. rewrite FilterAlerts_filter. apply sublist_filter. }
  destruct Hb as (Eg & Hk & Hd & Hn & Hex & Hst).
  pose proof (stamped_sublist _ _ _ _ _ Hsub Hst) as Hst'. pose proof (sublist_length _ _ Hsub) as Hlen.
  set (m := if negb _ && negb q then _ else _).
  assert (exists ce3, m ce2 = Ok (ce3, tt) /\ engine_ok cfg ce3 /\ after_detect ce2 ce3) as (ce3 & -> & Hi3 & [Es3 Eg3 Ed3 Er3]).
  { subst m. destruct (_ && _); [|by exists ce2]. eexists. split; [reflexivity|]. split; [destruct Hi2; by split|done]. }
  destruct He as [_ Es1 Eg1 Ed1 _ _ _ _]. change (ce_seq ce0) with (ce_seq ce) in *. change (ce_count ce0) with (ce_count ce) in *.
  exists ce3, alerts, k, g, d. split; [reflexivity|]. split; [done|]. split; [congruence|].
  split_and!; [congruence|lia..|congruence|congruence|done|lia| |lia|].
  - intros Hf. by rewrite Hfb.
  - intros Hn0. unfold nodrift in Hex. rewrite Hn0 in Hex. specialize (Hex eq_refl). lia.
Qed.

(** ** Reachable engines *)
Definition config_ok (c : CorrelationEngineConfig) : Prop :=
  (cc_EnableEventBuffer c = true -> 0 < cc_BufferSize c) /\ 0 <= cc_RateLimitWindow c <= max_duration /\
  0 <= cc_MaxAlertsPerWindow c < 2 ^ 31 /\ (forall p, cc_DriftBaselineProfiler c = Some p -> drift_wf p).

Lemma new_engine_ok numCPU gomaxprocs ad c :
  config_ok c -> engine_ok (engine_settings c) (NewCorrelationEngineWithConfig numCPU gomaxprocs ad c).
Proof.
  intros (Hb & Hw & Hm & Hd). split; simpl; try done; try (by apply new_sharded_inv); try (by left).
  - intros Eb. by apply new_inv, Hb.
  - split; [|split; [done|apply map_Forall_empty]]. simpl. unfold i32, signed, wrap. rewrite Z.mod_small by lia.
    case_match; zbool; lia.
Qed.

(** An engine and the alerts its ingests have returned so far. *)
Inductive engine_run (c : CorrelationEngineConfig) : engine -> list Alert -> Prop :=
| run_new numCPU gomaxprocs ad : engine_run c (NewCorrelationEngineWithConfig numCPU gomaxprocs ad c) []
| run_ingest out e ce ce' alerts hist :
    engine_run c ce hist -> Ingest (engine_settings c) out e ce = Ok (ce', alerts) -> engine_run c ce' (hist ++ alerts)
| run_flush ce hist : engine_run c ce hist -> engine_run c (set_pending [] ce) hist
| run_reload rules ce hist :
    engine_run c ce hist -> engine_run c (set_rules (Some (NewRuleEngineWithCache rules (ce_rules ce))) ce) hist
| run_policies prefilter policies local ce hist :
    engine_run c ce hist -> engine_run c (rego_step prefilter policies local ce).1 hist
| run_enforce ce hist : engine_run c ce hist -> engine_run c (enforce_step ce).1 hist
| run_housekeeping now ce hist : engine_run c ce hist -> engine_run c (housekeeping (engine_settings c) now ce) hist.

(** Same numbers and counters. *)
Definition same_numbers ce ce' : Prop :=
  ce_seq ce' = ce_seq ce /\ ce_count ce' alertsGenerated = ce_count ce alertsGenerated /\
  ce_count ce' alertsDropped = ce_count ce alertsDropped.

Lemma rego_step_ok cfg prefilter policies local ce :
  engine_ok cfg ce ->
  let ce' := (rego_step prefilter policies local ce).1 in
  engine_ok cfg ce' /\ same_numbers ce ce' /\ ce_incidents ce' = ce_incidents ce.
Proof.
  intros Hi. unfold rego_step. destruct (ce_regoQueue ce); [by split_and!|]. cbv zeta.
  destruct (localFlushBatch <=? _); (split; [destruct Hi; by split|done]).
Qed.

Lemma enforce_step_ok cfg ce : engine_ok cfg ce -> engine_ok cfg (enforce_step ce).1 /\ same_numbers ce (enforce_step ce).1.
Proof.
  intros Hi. unfold enforce_step. destruct (ce_enforceQueue ce) as [|t q] eqn:Eq; [done|].
  split; [|done]. destruct Hi as [? ? ? ? ? ? ? ? Hq Hl]. rewrite Eq in Hq, Hl. inversion Hq; subst. split; simpl in *; try done.
  destruct Hl as [|Hl]; [done|]. right. simpl in Hl. lia.
Qed.

Lemma housekeeping_ok cfg now ce : engine_ok cfg ce -> engine_ok cfg (housekeeping cfg now ce) /\ same_numbers ce (housekeeping cfg now ce).
Proof.
  intros Hi. split; [|done]. destruct Hi. split; simpl; try done; by apply cleanup_spec.
Qed.

Lemma engine_run_ok c ce hist :
  config_ok c -> engine_run c ce hist ->
  engine_ok (engine_settings c) ce /\
  exists k, ce_seq ce = u64 k /\ 0 <= k <= ce_count ce alertsGenerated + ce_count ce alertsDropped /\ stamped 0 0 hist k.
Proof.
  intros Hc. set (cfg := engine_settings c).
  assert (forall ce ce' hist, same_numbers ce ce' ->
    (exists k, ce_seq ce = u64 k /\ 0 <= k <= ce_count ce alertsGenerated + ce_count ce alertsDropped /\ stamped 0 0 hist k) ->
    exists k, ce_seq ce' = u64 k /\ 0 <= k <= ce_count ce' alertsGenerated + ce_count ce' alertsDropped /\ stamped 0 0 hist k) as Hsame.
  { intros ce1 ce2 h (E1 & E2 & E3). by rewrite E1, E2, E3. }
  induction 1 as [numCPU gmp ad|out e ce ce' alerts hist _ [Hi (k & Es & Hk & Hst)] E|ce hist _ [Hi Hk]|rules ce hist _ [Hi Hk]|
                  prefilter policies local ce hist _ [Hi Hk]|ce hist _ [Hi Hk]|now ce hist _ [Hi Hk]].
  - split; [by apply new_engine_ok|]. exists 0. simpl. split_and!; lia || done.
  - destruct (ingest_ok cfg out e ce Hi) as (ce2 & al2 & k2 & g & d & E' & Hi' & _ & Es' & Hk2 & Hd & Eg & Ed & Hst2 & _).
    fold cfg in E. rewrite E in E'. injection E' as <- <-. split; [done|]. exists (k + k2). rewrite Es', Es, u64_add.
    split; [done|]. split; [lia|]. eapply stamped_app; [exact Hst|]. rewrite Es in Hst2.
    pose proof (stamped_shift 0 k alerts 0 k2) as Hsh. rewrite Z.add_0_l, Z.add_0_r in Hsh. by apply Hsh.
  - split; [destruct Hi; by split|]. by eapply Hsame.
  - split; [destruct Hi; by split|]. by eapply Hsame.
  - destruct (rego_step_ok cfg prefilter policies local ce Hi) as (Hi' & Hn & _). split; [done|]. by eapply Hsame.
  - destruct (enforce_step_ok cfg ce Hi) as (Hi' & Hn). split; [done|]. by eapply Hsame.
  - destruct (housekeeping_ok cfg now ce Hi) as (Hi' & Hn). split; [done|]. by eapply Hsame.
Qed.


Lemma stamped_ids s lo l hi : stamped s lo l hi -> 0 <= lo -> hi < 2 ^ 64 -> NoDup (fmap al_ID l).
Proof.
  assert (forall s l lo hi, stamped s lo l hi -> lo <= hi /\
    forall a, a ∈ l -> exists i, lo < i <= hi /\ stamped_at s i a) as Hin.
  { clear. intros s l. induction l as [|a l IH]; intros lo hi; simpl; [intros; split; [done|by intros a Ha%elem_of_nil]|].
    intros (i & Hi & Ha & Hl). destruct (IH i hi Hl) as [Hh Hin]. split; [lia|]. intros b [->|Hb]%elem_of_cons; [exists i; split; [lia|done]|].
    destruct (Hin b Hb) as (j & Hj & Hs). exists j. split; [lia|done]. }
  revert lo. induction l as [|a l IH]; intros lo Hs Hlo Hhi; [constructor|]. destruct Hs as (i & Hi & (p & ts & pid & Ea) & Hl).
  cbn [fmap list_fmap]. constructor; [|by apply (IH i); [done|lia|]].
  intros (b & Eb & Hb)%list_elem_of_fmap. destruct (Hin s l i hi Hl) as [_ Hin']. destruct (Hin' b Hb) as (j & Hj & p' & ts' & pid' & Ej).
  rewrite Ea, Ej in Eb. unfold buildAlertID in Eb.
  assert (forall x y z w : gostring, (x +:+ "-" +:+ y +:+ "-" +:+ z +:+ "-" +:+ w)%string = ((x +:+ "-" +:+ y +:+ "-" +:+ z) +:+ "-" +:+ w)%string) as Hassoc.
  { intros. by rewrite !append_assoc. }
  rewrite !Hassoc in Eb. apply last_dash_inj in Eb; [|by apply pretty_no_dash; apply u64_range..].
  apply (inj pretty) in Eb. unfold u64, wrap in Eb.
  pose proof (Z.div_mod (s + i) (2 ^ 64) ltac:(done)). pose proof (Z.div_mod (s + j) (2 ^ 64) ltac:(done)). lia.
Qed.

(** Claim C7. Alert identifiers are unique: over any run of ingests, reloads,
    flushes, worker steps and clean-ups in which fewer than 2^64 alerts were
    generated or dropped, no two alerts returned by the engine have the same
    identifier, whatever rules and processes they come from. *)
Theorem engine_alert_ids (c : CorrelationEngineConfig) ce (hist : list Alert) :
  config_ok c -> engine_run c ce hist ->
  ce_count ce alertsGenerated + ce_count ce alertsDropped < 2 ^ 64 -> NoDup (fmap al_ID hist).
Proof.
  intros Hc Hr Hlt. destruct (engine_run_ok c ce hist Hc Hr) as (_ & k & _ & Hk & Hst).
  eapply stamped_ids; [exact Hst|lia|lia].
Qed.

(** The enforcement queue is sound: in every reachable engine each
    queued task carries an alert flagged as enforced whose rule asks for the
    queued action, one of block, kill and throttle, and the queue never holds
    more than its configured size. *)
Theorem enforcement_queue_sound (c : CorrelationEngineConfig) ce (hist : list Alert) :
  config_ok c -> engine_run c ce hist ->
  Forall (fun t => isEnforcedAction t.1 = true /\ al_Action t.2 = t.1 /\ al_Enforced t.2 = true) (ce_enforceQueue ce) /\
  Z.of_nat (length (ce_enforceQueue ce)) <= cfg_enforceQueueSize (engine_settings c).
Proof.
  intros Hc Hr. destruct (engine_run_ok c ce hist Hc Hr) as [[? ? ? ? ? ? ? ? Hq Hl] _]. split; [exact Hq|].
  destruct Hl as [->|Hl]; [|done]. simpl. unfold or_default. case_match; zbool; lia.
Qed.

(** ** Enforcement *)

(** The parts enforcement reads and writes. *)
Definition same_enforcement ce ce' : Prop :=
  ce_enforceQueue ce' = ce_enforceQueue ce /\ ce_cooldowns ce' = ce_cooldowns ce /\
  (forall cnt, cnt = enforcedCounter \/ cnt = enforceQueueDropped -> ce_count ce' cnt = ce_count ce cnt).

Definition keeps {A} cfg (m : M A) (P : A -> Prop) : Prop :=
  forall ce, engine_ok cfg ce -> exists ce' a, m ce = Ok (ce', a) /\ engine_ok cfg ce' /\ same_enforcement ce ce' /\ P a.

Lemma keeps_ret {A} cfg (a : A) (P : A -> Prop) : P a -> keeps cfg (mret a) P.
Proof. intros HP ce Hi. by exists ce, a. Qed.

Lemma keeps_bind {A B} cfg (m : M A) (f : A -> M B) P Q :
  keeps cfg m P -> (forall a, P a -> keeps cfg (f a) Q) -> keeps cfg (m ≫= f) Q.
Proof.
  intros Hm Hf ce Hi. destruct (Hm ce Hi) as (ce1 & a & E1 & Hi1 & (Eq1 & Ec1 & En1) & HP).
  destruct (Hf a HP ce1 Hi1) as (ce2 & b & E2 & Hi2 & (Eq2 & Ec2 & En2) & HQ). exists ce2, b.
  split; [unfold mbind, M_bind; by rewrite E1|]. split; [done|]. split; [|done].
  split_and!; [congruence..|]. intros cnt Hcnt. by rewrite En2, En1.
Qed.

Lemma keeps_now cfg out : keeps cfg (time_now out) (fun _ => True).
Proof. intros ce Hi. eexists _, _. split; [reflexivity|]. split; [destruct Hi; by split|done]. Qed.

Lemma keeps_inc cfg c : c <> enforcedCounter -> c <> enforceQueueDropped -> keeps cfg (inc c) (fun _ => True).
Proof.
  intros H1 H2 ce Hi. eexists _, _. split; [reflexivity|]. split; [destruct Hi; by split|]. split; [|done].
  split_and!; [done..|]. intros cnt [->| ->]; simpl; unfold add_to; by rewrite decide_False by congruence.
Qed.

Lemma keeps_next cfg : keeps cfg next_seq (fun _ => True).
Proof.
  intros ce Hi. eexists _, _. split; [reflexivity|]. split; [|done]. destruct Hi. split; try done. apply u64_range.
Qed.

Lemma keeps_tree cfg e a : keeps cfg (add_tree e a) (same_alert a).
Proof. intros ce Hi. eexists _, _. split; [reflexivity|]. split; [done|]. by split_and!. Qed.

Lemma keeps_context cfg e a : keeps cfg (add_context cfg e a) (same_alert a).
Proof.
  unfold add_context. destruct (cfg_enableEventBuffer cfg) eqn:Eb; [|by apply keeps_ret].
  eapply (keeps_bind _ _ _ (fun _ => True)); [|intros; by apply keeps_ret]. intros ce Hi. unfold zoom.
  rewrite (GetRecent_spec _ _ _ (ci_buffer _ _ _ _ Hi Eb)). eexists _, _. split; [reflexivity|]. split; [destruct Hi; by split|done].
Qed.

Lemma keeps_trace cfg out e t a : keeps cfg (add_trace out e t a) (same_alert a).
Proof.
  unfold add_trace. destruct (ev_TraceContext e); [by apply keeps_ret|].
  eapply (keeps_bind _ _ _ (fun _ => True)); [|intros [tc|] _; by apply keeps_ret].
  intros ce Hi. unfold zoom. destruct (lookup_trace _ _ _ _) as [c r]. eexists _, _. split; [reflexivity|].
  split; [destruct Hi; by split|done].
Qed.

Lemma keeps_mark cfg a start : keeps cfg (mark_emitted cfg a start) (fun _ => True).
Proof.
  unfold mark_emitted. destruct (cfg_enableDedup cfg); [|by apply keeps_ret]. intros ce Hi. unfold markDedup, zoom.
  destruct (mark_ok dedup_order (al_RuleID a) (al_PID a) (al_Comm a) start (ce_dedup ce) dedup_order_ok (ci_dedup _ _ _ _ Hi)) as (sd & E & Hs).
  rewrite E. eexists _, _. split; [reflexivity|]. split; [destruct Hi; by split|done].
Qed.

(** The alert is completed without touching enforcement. *)
Lemma keeps_annotate cfg out e start a :
  keeps cfg (annotate cfg out e start a)
    (fun a' => al_RuleID a' = al_RuleID a /\ al_Action a' = al_Action a /\ al_PID a' = al_PID a).
Proof.
  unfold annotate. eapply keeps_bind; [apply keeps_next|]. intros seq _. cbv zeta. eapply keeps_bind; [apply keeps_trace|]. intros a1 H1.
  eapply keeps_bind; [apply keeps_tree|]. intros a2 H2. intros ce Hi.
  destruct (keeps_context cfg e a2 ce Hi) as (ce' & a3 & E & Hi' & Hs & H3). exists ce', a3. split; [done|]. split; [done|]. split; [done|].
  destruct (same_alert_trans _ _ _ H1 (same_alert_trans _ _ _ (same_enrichment e a1) (same_alert_trans _ _ _ H2 H3))) as (_ & E1 & E2 & E3).
  by rewrite E1, E2, E3.
Qed.

(** With an executor, an enforced action and an acquired cooldown the alert is
    flagged, and the task queued if there is room. *)
Lemma enforce_acquired cfg start a ce sc :
  cfg_actionExecutor cfg = true -> isEnforcedAction (al_Action a) = true ->
  tryAcquire cooldown_order (al_RuleID a) (al_PID a) (cfg_enforceCooldown cfg) start (ce_cooldowns ce) = Ok (sc, true) ->
  exists ce', enforce cfg start a ce = Ok (ce', with_enforced a) /\
    if Z.of_nat (length (ce_enforceQueue ce)) <? cfg_enforceQueueSize cfg
    then ce_enforceQueue ce' = ce_enforceQueue ce ++ [(al_Action a, with_enforced a)]
    else ce_enforceQueue ce' = ce_enforceQueue ce /\
         ce_count ce' enforceQueueDropped = ce_count ce enforceQueueDropped + 1.
Proof.
  intros Hx Ha Ht. unfold enforce. rewrite Hx, Ha. cbn [andb].
  unfold mbind, M_bind, tryAcquireEnforceCooldown, zoom, send_enforce, inc, modify, gets, mbind, M_bind. rewrite Ht. cbn.
  destruct (_ <? _); (eexists; split; [reflexivity|done]).
Qed.

(** The end of the callback keeps what enforcement did. *)
Lemma keeps_finish cfg start a (isDup : bool) :
  keeps cfg (if isDup then inc alertsDedupDropped;; inc alertsDropped;; mret None
             else mark_emitted cfg a start;; inc alertsGenerated;; mret (Some a))
    (fun r => r = if isDup then None else Some a).
Proof.
  destruct isDup.
  - eapply keeps_bind; [by apply keeps_inc|]. intros _ _. eapply keeps_bind; [by apply keeps_inc|]. intros _ _. by apply keeps_ret.
  - eapply keeps_bind; [apply keeps_mark|]. intros _ _. eapply keeps_bind; [by apply keeps_inc|]. intros _ _. by apply keeps_ret.
Qed.

Lemma enforce_ok cfg start a ce :
  engine_ok cfg ce -> exists ce' a', enforce cfg start a ce = Ok (ce', a') /\ engine_ok cfg ce'.
Proof.
  intros Hi. destruct (quiet_enforce cfg false (ce_rules ce) start a (ce_seq ce) ce Hi eq_refl) as (ce' & a' & k & g & d & E & He & _).
  exists ce', a'. split; [done|]. by destruct (inv_engine_ok _ _ _ _ (eff_inv _ _ _ _ _ _ _ _ He)).
Qed.

Lemma complete_enforced cfg out e start isDup a ce sc :
  engine_ok cfg ce -> cfg_actionExecutor cfg = true -> isEnforcedAction (al_Action a) = true ->
  tryAcquire cooldown_order (al_RuleID a) (al_PID a) (cfg_enforceCooldown cfg) start (ce_cooldowns ce) = Ok (sc, true) ->
  exists ce' a', complete_rule_alert cfg out e start isDup a ce = Ok (ce', if isDup then None else Some a') /\
    al_Enforced a' = true /\ al_Action a' = al_Action a /\
    if Z.of_nat (length (ce_enforceQueue ce)) <? cfg_enforceQueueSize cfg
    then ce_enforceQueue ce' = ce_enforceQueue ce ++ [(al_Action a, a')]
    else ce_enforceQueue ce' = ce_enforceQueue ce /\
         ce_count ce' enforceQueueDropped = ce_count ce enforceQueueDropped + 1.
Proof.
  intros Hi Hx Ha Ht. unfold complete_rule_alert.
  destruct (keeps_annotate cfg out e start a ce Hi) as (ce1 & a1 & E1 & Hi1 & (Eq1 & Ec1 & En1) & Er & Eac & Ep).
  destruct (enforce_acquired cfg start a1 ce1 sc Hx) as (ce2 & E2 & Hq); [by rewrite Eac|by rewrite Er, Ep, Ec1|].
  destruct (enforce_ok cfg start a1 ce1 Hi1) as (ce2' & a2' & E2' & Hi2). rewrite E2 in E2'. injection E2' as <- <-.
  destruct (keeps_finish cfg start (with_enforced a1) isDup ce2 Hi2) as (ce3 & r & E3 & _ & (Eq3 & _ & En3) & ->).
  exists ce3, (with_enforced a1). unfold mbind, M_bind in *. rewrite E1, E2. split; [exact E3|]. split; [done|]. split; [done|].
  rewrite Eq1, Eac in Hq. rewrite <- (En1 enforceQueueDropped) by auto. destruct (_ <? _); [by rewrite Eq3|].
  rewrite Eq3. destruct Hq as [-> Hq]. split; [done|]. by rewrite En3 by auto.
Qed.

(** What gates enforcement. For a match whose rule asks for an
    enforced action, with an executor configured: when the match is a
    duplicate, the cooldown is free and the queue has room, the action is
    queued although no alert leaves; when it is not a duplicate but the rate
    limiter refuses it, neither the queue nor the cooldown is touched, so the
    action is not taken, however long ago it was last taken. *)
Theorem enforcement_gates cfg out e (start : Z) (a : Alert) ce ce1 sc :
  engine_ok cfg ce -> ce_drift ce = None -> cfg_actionExecutor cfg = true -> isEnforcedAction (al_Action a) = true ->
  tryAcquire cooldown_order (al_RuleID a) (al_PID a) (cfg_enforceCooldown cfg) start (ce_cooldowns ce) = Ok (sc, true) ->
  Z.of_nat (length (ce_enforceQueue ce)) < cfg_enforceQueueSize cfg ->
  (is_dup cfg out a ce = Ok (ce1, true) ->
   exists ce' a', on_rule_match cfg out e start a ce = Ok (ce', None) /\ al_Enforced a' = true /\
     ce_enforceQueue ce' = ce_enforceQueue ce ++ [(al_Action a, a')]) /\
  (forall ce2, is_dup cfg out a ce = Ok (ce1, false) -> rule_allowed out (al_RuleID a) ce1 = Ok (ce2, false) ->
   exists ce', on_rule_match cfg out e start a ce = Ok (ce', None) /\
     ce_enforceQueue ce' = ce_enforceQueue ce /\ ce_cooldowns ce' = ce_cooldowns ce).
Proof.
  intros Hi Hd Hx Ha Ht Hl.
  assert (on_rule_match cfg out e start a ce = (isDup ← is_dup cfg out a;
    if isDup : bool then complete_rule_alert cfg out e start true a else
    ok ← within_limits cfg out a; if negb ok then mret None else complete_rule_alert cfg out e start false a) ce) as ->.
  { unfold on_rule_match, drift_passes, mbind, M_bind, gets. by rewrite Hd. }
  assert (forall b, is_dup cfg out a ce = Ok (ce1, b) -> engine_ok cfg ce1 /\ same_enforcement ce ce1) as Hdup.
  { intros b. unfold is_dup. destruct (cfg_enableDedup cfg); [|unfold mret, M_ret; by intros [= <- <-]].
    unfold checkDup, mbind, M_bind, time_now, zoom.
    destruct (check_ok (al_RuleID a) (al_PID a) (al_Comm a) (clock out (ce_ticks ce)) (ce_dedup ce) (ci_dedup _ _ _ _ Hi)) as (b' & Eb).
    cbn. rewrite Eb. cbn. intros [= <- _]. split; [destruct Hi; by split|done]. }
  split.
  - intros Ed. destruct (Hdup true Ed) as [Hi1 (Eq & Ec & En)].
    destruct (complete_enforced cfg out e start true a ce1 sc Hi1 Hx Ha) as (ce' & a' & E & He & _ & Hq); [by rewrite Ec|].
    exists ce', a'. unfold mbind, M_bind at 1. rewrite Ed. split; [exact E|]. split; [done|].
    rewrite Eq in Hq. destruct (Z.ltb_spec (Z.of_nat (length (ce_enforceQueue ce))) (cfg_enforceQueueSize cfg)); [done|lia].
  - intros ce2 Ed Er. destruct (Hdup false Ed) as [Hi1 (Eq & Ec & En)].
    assert (ce_enforceQueue ce2 = ce_enforceQueue ce1 /\ ce_cooldowns ce2 = ce_cooldowns ce1) as [Eq2 Ec2].
    { revert Er. unfold rule_allowed, mbind, M_bind, time_now, zoom. cbn. destruct (RateLimiter.Allow _ _ _) as [[rl b]| |]; [|done..].
      by intros [= <- _]. }
    unfold mbind, M_bind. rewrite Ed. unfold within_limits, mbind, M_bind. rewrite Er. cbn.
    eexists. split; [reflexivity|]. simpl. split; congruence.
Qed.

(** An alert can say [Enforced] for an action that is never taken:
    when the cooldown is acquired while the enforcement queue is full, the
    alert that leaves is flagged as enforced, but no task for it is in the
    queue and the action is counted as dropped. *)
Theorem enforced_flag_without_task cfg out e (start : Z) (a : Alert) ce sc :
  engine_ok cfg ce -> cfg_actionExecutor cfg = true -> isEnforcedAction (al_Action a) = true ->
  tryAcquire cooldown_order (al_RuleID a) (al_PID a) (cfg_enforceCooldown cfg) start (ce_cooldowns ce) = Ok (sc, true) ->
  cfg_enforceQueueSize cfg <= Z.of_nat (length (ce_enforceQueue ce)) ->
  exists ce' a', complete_rule_alert cfg out e start false a ce = Ok (ce', Some a') /\ al_Enforced a' = true /\
    ce_enforceQueue ce' = ce_enforceQueue ce /\
    ce_count ce' enforceQueueDropped = ce_count ce enforceQueueDropped + 1.
Proof.
  intros Hi Hx Ha Ht Hl. destruct (complete_enforced cfg out e start false a ce sc Hi Hx Ha Ht) as (ce' & a' & E & He & _ & Hq).
  exists ce', a'. split; [exact E|]. split; [done|].
  destruct (Z.ltb_spec (Z.of_nat (length (ce_enforceQueue ce))) (cfg_enforceQueueSize cfg)); [lia|done].
Qed.

(** Alerts that go through the policy queue are in no incident: when
    the queue takes the alerts of an event, the ingest leaves the incident
    tracker as it was, and so does the worker that later takes them from the
    queue and delivers them. *)
Theorem policy_queue_skips_incidents (c : CorrelationEngineConfig) ce (hist : list Alert) out e
    (start : Z) (det : list Alert) ce1 :
  config_ok c -> engine_run c ce hist ->
  detect (engine_settings c) out e start ce = Ok (ce1, det) -> det <> [] -> cc_RegoEngine c = true ->
  Z.of_nat (length (ce_regoQueue ce)) < cfg_regoQueueSize (engine_settings c) ->
  exists ce2, dispatch (engine_settings c) out det ce1 = Ok (ce2, (det, true)) /\
    ce_incidents ce2 = ce_incidents ce /\ ce_regoQueue ce2 = ce_regoQueue ce ++ [det] /\
    forall prefilter policies local, ce_incidents (rego_step prefilter policies local ce2).1 = ce_incidents ce.
Proof.
  intros Hc Hr Ed Hne Hrego Hroom. destruct (engine_run_ok c ce hist Hc Hr) as [Hi _]. set (cfg := engine_settings c) in *.
  destruct (detect_batch cfg _ _ out e start _ ce (engine_ok_inv _ _ Hi) eq_refl) as (ce1' & det' & k & g & d & E & He & _).
  rewrite Ed in E. injection E as <- <-. destruct (inv_engine_ok _ _ _ _ (eff_inv _ _ _ _ _ _ _ _ He)) as [Hi1 _].
  destruct He as [_ _ _ _ _ Einc Ereg _].
  destruct (dispatch_ok cfg out det ce1 Hi1) as (ce2 & al & q & E2 & Hi2 & _ & Eq & _ & Eal & Erq & Ei).
  assert (queue_takes cfg ce1 det = true) as Ht.
  { unfold queue_takes. rewrite Ereg. simpl. rewrite Hrego, bool_decide_eq_false_2 by done. simpl. by apply Z.ltb_lt. }
  rewrite Ht in Eq. subst q. subst al. exists ce2. split; [exact E2|]. rewrite Erq, Ereg. specialize (Ei eq_refl).
  split_and!; [congruence|done|]. intros prefilter policies local.
  destruct (rego_step_ok cfg prefilter policies local ce2 Hi2) as (_ & _ & ->). congruence.
Qed.
End engine_theorems.

(** ** Witnesses *)
Module Example_engine.
#[local] Existing Instance sample_lib.

(** A bucket that counts down and a detector that finds nothing. *)
#[local] Instance sample_engine : EngineLib := {|
  Limiter := Z; NewLimiter n := n; Limiter_Allow _ n := (n - 1, 0 <? n);
  Detector := unit; ProcessEvent d _ _ := (d, None);
  float_mul := Z.mul; cooldown_order := map_to_list; dedup_order := map_to_list;
  cooldown_order_ok m := Permutation_refl _; dedup_order_ok m := Permutation_refl _ |}.

Definition kill_rule : Rule :=
  mkRule _ "exec"%string "exec"%string "d"%string EventSyscall false (condition "nr" "equals" ["59"])%string None
    SeverityCritical "kill"%string [] [] ""%string None (1000 : Float) false.

Definition config (maxAlerts queue : Z) (rego : bool) : CorrelationEngineConfig :=
  mkEngineConfig [kill_rule] 100 true false 0 true (60 * Second) maxAlerts rego 0 0 None None None None true 0 queue
    true 0 0 None None.

Lemma sample_config_ok maxAlerts queue rego : 0 <= maxAlerts < 2 ^ 31 -> config_ok (config maxAlerts queue rego).
Proof.
  intros Hm. split; [intros _; reflexivity|]. split; [split; vm_compute; discriminate|]. split; [exact Hm|]. by intros p [=].
Qed.

Definition fresh (c : CorrelationEngineConfig) : engine := NewCorrelationEngineWithConfig 4 4 tt c.

Definition exec_event (pid ts : Z) : Event :=
  mkEvent EventSyscall ts pid pid 1 0 (string_bytes "sh") (string_bytes "init") (Some (mkSyscallEvent 59 0 [])) None
    None None None None None None None None None None None None None None ""%string false.

(** The clock stands still. *)
Definition at_time (t : Z) : outside :=
  mkOutside (fun _ => t) (fun _ => 0) 0 (fun _ => None) (fun _ => None) (fun _ => []).


(** Two events of different processes at the same time. *)
Lemma engine_alert_ids_witness :
  let c := config 10 0 false in
  exists ce1 a1 ce2 a2, Ingest (engine_settings c) (at_time Second) (exec_event 7 5) (fresh c) = Ok (ce1, a1) /\
    Ingest (engine_settings c) (at_time Second) (exec_event 8 5) ce1 = Ok (ce2, a2) /\ NoDup (fmap al_ID (a1 ++ a2)).
Proof.
  intros c. assert (config_ok c) as Hc by (apply sample_config_ok; lia).
  assert (match Ingest (engine_settings c) (at_time Second) (exec_event 7 5) (fresh c) with
    | Ok (ce, _) => match Ingest (engine_settings c) (at_time Second) (exec_event 8 5) ce with
        | Ok (ce', _) => ce_count ce' alertsGenerated + ce_count ce' alertsDropped = 2 | _ => False end
    | _ => False end) as G by (vm_compute; reflexivity).
  destruct (Ingest (engine_settings c) (at_time Second) (exec_event 7 5) (fresh c)) as [[ce1 a1]| |] eqn:E1; [|destruct G..].
  destruct (Ingest (engine_settings c) (at_time Second) (exec_event 8 5) ce1) as [[ce2 a2]| |] eqn:E2; [|destruct G..].
  exists ce1, a1, ce2, a2. split; [reflexivity|]. split; [exact E2|].
  apply (engine_alert_ids c ce2 (a1 ++ a2)); [exact Hc| |rewrite G; reflexivity].
  eapply run_ingest; [|exact E2]. change a1 with ([] ++ a1). eapply run_ingest; [constructor|exact E1].
Defined.

Lemma enforcement_queue_witness :
  let c := config 10 0 false in
  exists ce a, Ingest (engine_settings c) (at_time Second) (exec_event 7 5) (fresh c) = Ok (ce, a) /\
    map fst (ce_enforceQueue ce) = ["kill"%string] /\
    Forall (fun t => isEnforcedAction t.1 = true /\ al_Action t.2 = t.1 /\ al_Enforced t.2 = true) (ce_enforceQueue ce).
Proof.
  intros c. assert (config_ok c) as Hc by (apply sample_config_ok; lia).
  assert (match Ingest (engine_settings c) (at_time Second) (exec_event 7 5) (fresh c) with
    | Ok (ce, _) => map fst (ce_enforceQueue ce) = ["kill"%string] | _ => False end) as G by (vm_compute; reflexivity).
  destruct (Ingest (engine_settings c) (at_time Second) (exec_event 7 5) (fresh c)) as [[ce a]| |] eqn:E; [|destruct G..].
  exists ce, a. split; [reflexivity|]. split; [exact G|].
  apply (enforcement_queue_sound c ce ([] ++ a)); [exact Hc|]. eapply run_ingest; [constructor|exact E].
Defined.

(** No alert of the rule is allowed: the kill is not queued. *)
Lemma enforcement_gates_witness :
  let c := config 0 0 false in
  exists ce', on_rule_match (engine_settings c) (at_time Second) (exec_event 7 5) Second
      (rule_alert (exec_event 7 5) kill_rule) (fresh c) = Ok (ce', None) /\
    ce_enforceQueue ce' = [] /\ ce_cooldowns ce' = ce_cooldowns (fresh c).
Proof.
  intros c. pose (a := rule_alert (exec_event 7 5) kill_rule). pose (cfg := engine_settings c). pose (out := at_time Second).
  assert (match is_dup cfg out a (fresh c) with
    | Ok (ce1, b) => b = false /\ match rule_allowed out (al_RuleID a) ce1 with Ok (_, b) => b = false | _ => False end
    | _ => False end) as G by (vm_compute; split; reflexivity).
  assert (match tryAcquire cooldown_order (al_RuleID a) (al_PID a) (cfg_enforceCooldown cfg) Second (ce_cooldowns (fresh c)) with
    | Ok (_, b) => b = true | _ => False end) as Gc by (vm_compute; reflexivity).
  destruct (is_dup cfg out a (fresh c)) as [[ce1 b1]| |] eqn:E1; [|destruct G..]. destruct G as [-> G].
  destruct (rule_allowed out (al_RuleID a) ce1) as [[ce2 b2]| |] eqn:E2; [|destruct G..]. subst b2.
  destruct (tryAcquire _ _ _ _ _ _) as [[sc b3]| |] eqn:E3; [|destruct Gc..]. subst b3.
  destruct (enforcement_gates cfg out (exec_event 7 5) Second a (fresh c) ce1 sc) as [_ Hg].
  - apply new_engine_ok, sample_config_ok. lia.
  - reflexivity.
  - reflexivity.
  - reflexivity.
  - exact E3.
  - reflexivity.
  - destruct (Hg ce2 E1 E2) as (ce' & E & Eq & Ec). exists ce'. split; [exact E|]. split; [exact Eq|exact Ec].
Defined.

(** A queue of one task, which another process has filled. *)
Lemma enforced_flag_witness :
  let c := config 10 1 false in
  exists ce1 a1 ce2 a2, Ingest (engine_settings c) (at_time Second) (exec_event 7 5) (fresh c) = Ok (ce1, a1) /\
    complete_rule_alert (engine_settings c) (at_time Second) (exec_event 8 6) Second false
      (rule_alert (exec_event 8 6) kill_rule) ce1 = Ok (ce2, Some a2) /\
    al_Enforced a2 = true /\ ce_enforceQueue ce2 = ce_enforceQueue ce1.
Proof.
  intros c. pose (a := rule_alert (exec_event 8 6) kill_rule). pose (cfg := engine_settings c).
  assert (config_ok c) as Hc by (apply sample_config_ok; lia).
  assert (match Ingest cfg (at_time Second) (exec_event 7 5) (fresh c) with
    | Ok (ce, _) => length (ce_enforceQueue ce) = 1%nat /\
        match tryAcquire cooldown_order (al_RuleID a) (al_PID a) (cfg_enforceCooldown cfg) Second (ce_cooldowns ce) with
        | Ok (_, b) => b = true | _ => False end
    | _ => False end) as G by (vm_compute; split; reflexivity).
  destruct (Ingest cfg (at_time Second) (exec_event 7 5) (fresh c)) as [[ce1 a1]| |] eqn:E1; [|destruct G..].
  destruct G as [Gl Gc]. destruct (tryAcquire _ _ _ _ _ _) as [[sc b]| |] eqn:E2; [|destruct Gc..]. subst b.
  assert (engine_ok cfg ce1) as Hi.
  { apply (engine_run_ok c ce1 ([] ++ a1) Hc). eapply run_ingest; [constructor|exact E1]. }
  destruct (enforced_flag_without_task cfg (at_time Second) (exec_event 8 6) Second a ce1 sc Hi eq_refl eq_refl E2)
    as (ce2 & a2 & E & He & Eq & _); [rewrite Gl; discriminate|].
  exists ce1, a1, ce2, a2. split; [exact E1|]. split; [exact E|]. split; [exact He|exact Eq].
Defined.

Lemma policy_queue_witness :
  let c := config 10 0 true in
  exists ce1 det ce2, detect (engine_settings c) (at_time Second) (exec_event 7 5) Second (fresh c) = Ok (ce1, det) /\
    length det = 1%nat /\ dispatch (engine_settings c) (at_time Second) det ce1 = Ok (ce2, (det, true)) /\
    Incidents.Count (ce_incidents ce2) = 0.
Proof.
  intros c. assert (match detect (engine_settings c) (at_time Second) (exec_event 7 5) Second (fresh c) with
    | Ok (_, det) => length det = 1%nat | _ => False end) as G by (vm_compute; reflexivity).
  destruct (detect (engine_settings c) (at_time Second) (exec_event 7 5) Second (fresh c)) as [[ce1 det]| |] eqn:E; [|destruct G..].
  destruct (policy_queue_skips_incidents c (fresh c) [] (at_time Second) (exec_event 7 5) Second det ce1)
    as (ce2 & E2 & Ei & _ & _).
  - apply sample_config_ok. lia.
  - constructor.
  - exact E.
  - intros ->. discriminate G.
  - reflexivity.
  - reflexivity.
  - exists ce1, det, ce2. split; [reflexivity|]. split; [exact G|]. split; [exact E2|]. rewrite Ei. reflexivity.
Defined.
End Example_engine.
