(* ===== verification/IngestPool.v ===== *)
(** * The ingest worker pool

    Models the concurrent part of src/internal/correlator/engine.go:
    [IngestAsync] sends an event to the worker of its process,
    [runIngestWorker] takes events from the worker's channel, runs the
    pipeline with the worker's own detector and collects alerts in a local
    buffer that it flushes to the shared pending list, [DrainIngestPool]
    closes the channels and waits, [Close] cancels the context first. The
    goroutines are a step relation: each step is one arm of a worker's [select]
    or one call of a sender, any interleaving of the steps is allowed, and the
    pipeline run of one event is one step. *)
From S2P Require Import Prelude GoBytes GoRing Types Fields RuleTypes Sampler Rules EventBuffer ShardedMaps RateLimiter.
From S2P Require Import Incidents LruHeap Profiles Allowlist Lineage Feedback TraceCtx Engine EngineCorrect.

(** The number of workers for a configured count. *)
Definition ingest_workers (configured numCPU : Z) : Z :=
  let n := if configured <=? 0 then
             let n := if numCPU <? 4 then 4 else numCPU in double_until (Z.to_nat n) 1 n
           else configured in
  if 64 <? n then 64 else n.

(** [e.PID & ingestMask] *)
Definition ingest_route (n pid : Z) : Z := Z.land pid (u32 (n - 1)).

Section pool.
Context `{EngineLib} (cfg : settings).

(** A worker: its channel, its detector, its local buffer, and whether its
    goroutine has returned. *)
Record workerState := mkWorker { w_ch : list Event; w_ad : Detector; w_local : list Alert; w_exited : bool }.

Record pool := mkPool {
  p_engine : engine; p_workers : list workerState; p_closed : bool; p_cancelled : bool }.

Definition pool_size (p : pool) : Z := Z.of_nat (length (p_workers p)).

Definition set_worker (p : pool) (i : nat) (w : workerState) : pool :=
  mkPool (p_engine p) (<[i := w]> (p_workers p)) (p_closed p) (p_cancelled p).

(** [ce.IngestAsync]: [None] when the channel is full and the caller blocks;
    a send on a closed channel panics. *)
Definition IngestAsync (bufSize : Z) (e : Event) (p : pool) : go (option pool) :=
  let i := ingest_route (pool_size p) (ev_PID e) in
  w ← list_get (p_workers p) i;
  if p_closed p then Panic
  else if Z.of_nat (length (w_ch w)) <? bufSize
  then Ok (Some (set_worker p (Z.to_nat i) (mkWorker (w_ch w ++ [e]) (w_ad w) (w_local w) (w_exited w))))
  else Ok None.

(** [flushPending(&localPending)] *)
Definition flush_local (p : pool) (i : nat) (w : workerState) : pool :=
  let '(ce, local) := flushPending (w_local w) (p_engine p) in
  mkPool ce (<[i := mkWorker (w_ch w) (w_ad w) local (w_exited w)]> (p_workers p)) (p_closed p) (p_cancelled p).

(** One event through the pipeline with the worker's detector. *)
Definition work (out : outside) (p : pool) (i : nat) (w : workerState) (e : Event) (ch : list Event) :
  go (pool * list Alert) :=
  r ← ingestWithAD cfg out e (set_detector (w_ad w) (p_engine p));
  let '(ce, (alerts, regoQueued)) := r in
  let kept := if regoQueued : bool then [] else alerts in
  let w := mkWorker ch (ce_detector ce) (w_local w ++ kept) (w_exited w) in
  let p := mkPool ce (<[i := w]> (p_workers p)) (p_closed p) (p_cancelled p) in
  Ok (if negb (bool_decide (kept = [])) && (localFlushBatch <=? Z.of_nat (length (w_local w))) then flush_local p i w else p, kept).

(** [runIngestWorker] returning: the local buffer is flushed. *)
Definition exit_worker (p : pool) (i : nat) (w : workerState) : pool :=
  let p := flush_local p i w in
  match p_workers p !! i with
  | Some w => set_worker p i (mkWorker (w_ch w) (w_ad w) (w_local w) true)
  | None => p
  end.

Inductive label :=
| LSend (e : Event) | LWork (i : nat) (e : Event) (kept : list Alert) | LFlush (i : nat) | LExit (i : nat)
| LClose | LCancel | LDeliver (alerts : list Alert).

Inductive pool_step (bufSize : Z) : pool -> label -> pool -> Prop :=
| step_send e p p' : IngestAsync bufSize e p = Ok (Some p') -> pool_step bufSize p (LSend e) p'
| step_work out p i w e ch p' kept :
    p_workers p !! i = Some w -> w_exited w = false -> w_ch w = e :: ch ->
    work out p i w e ch = Ok (p', kept) -> pool_step bufSize p (LWork i e kept) p'
| step_tick p i w :
    p_workers p !! i = Some w -> w_exited w = false -> pool_step bufSize p (LFlush i) (flush_local p i w)
| step_exit p i w :
    p_workers p !! i = Some w -> w_exited w = false -> (p_closed p = true /\ w_ch w = [] \/ p_cancelled p = true) ->
    pool_step bufSize p (LExit i) (exit_worker p i w)
| step_close p : pool_step bufSize p LClose (mkPool (p_engine p) (p_workers p) true (p_cancelled p))
| step_cancel p : pool_step bufSize p LCancel (mkPool (p_engine p) (p_workers p) (p_closed p) true)
| step_deliver p :
    pool_step bufSize p (LDeliver (ce_pending (p_engine p)))
      (mkPool (set_pending [] (p_engine p)) (p_workers p) (p_closed p) (p_cancelled p)).

(** Runs, with the labels of their steps. *)
Inductive pool_run (bufSize : Z) (p0 : pool) : list label -> pool -> Prop :=
| run_start : pool_run bufSize p0 [] p0
| run_next ls p l p' : pool_run bufSize p0 ls p -> pool_step bufSize p l p' -> pool_run bufSize p0 (ls ++ [l]) p'.

(** A new pool over an engine. *)
Definition new_pool (ce : engine) (ads : list Detector) : pool :=
  mkPool ce (map (fun ad => mkWorker [] ad [] false) ads) false false.
End pool.

(** * Theorems *)

(** ** Routing *)
Lemma route_range n pid : 1 <= n <= 64 -> 0 <= ingest_route n pid < n.
Proof.
  intros Hn. unfold ingest_route, u32. rewrite wrap_id by (unfold in_range; lia).
  split; [apply Z.land_nonneg; right; lia|]. enough (Z.land pid (n - 1) <= n - 1) by lia.
  apply Z.ldiff_le; [lia|]. apply Z.bits_inj'. intros k Hk. rewrite Z.ldiff_spec, Z.land_spec, Z.bits_0.
  by destruct (Z.testbit (n - 1) k), (Z.testbit pid k).
Qed.

Lemma ingest_workers_range configured numCPU : 1 <= ingest_workers configured numCPU <= 64.
Proof.
  unfold ingest_workers. set (n := if configured <=? 0 then _ else configured).
  assert (1 <= n) as Hn.
  { subst n. destruct (Z.leb_spec configured 0); [|lia]. set (m := if numCPU <? 4 then 4 else numCPU).
    destruct (double_until_pow2 (Z.to_nat m) 0 m) as (k & Hk & E & _); [done|]. change (2 ^ 0) with 1 in E. cbv zeta. rewrite E.
    pose proof (Z.pow_pos_nonneg 2 k). lia. }
  clearbody n. cbv zeta. destruct (Z.ltb_spec 64 n); lia.
Qed.

(** Routing to ingest workers: for every configured count the pool
    has between 1 and 64 workers, each process is routed to one of them, and a
    worker is used by some process exactly when its number has no bit outside
    the mask. With the default count, rounded to a power of two, that is every
    worker; a configured count that is no power of two leaves workers idle:
    with 33 workers all events go to two of them. *)
Theorem ingest_routing (configured numCPU : Z) (n := ingest_workers configured numCPU) :
  1 <= n <= 64 /\
  (forall pid, 0 <= ingest_route n pid < n) /\
  (forall i, 0 <= i < n -> (exists pid, 0 <= pid < 2 ^ 32 /\ ingest_route n pid = i) <-> Z.land i (n - 1) = i) /\
  (configured <= 0 -> forall i, 0 <= i < n -> Z.land i (n - 1) = i) /\
  ingest_workers 33 numCPU = 33 /\ (forall pid, ingest_route 33 pid = 0 \/ ingest_route 33 pid = 32).
Proof.
  pose proof (ingest_workers_range configured numCPU) as Hn. fold n in Hn.
  assert (u32 (n - 1) = n - 1) as Eu by (unfold u32; apply wrap_id; unfold in_range; lia).
  split; [done|]. split; [intros; by apply route_range|]. split_and!.
  - intros i Hi. unfold ingest_route. rewrite Eu. split.
    + intros (pid & _ & <-). rewrite <- Z.land_assoc, Z.land_diag. done.
    + intros E. exists i. split; [lia|done].
  - intros Hc i Hi. assert (exists k, 0 <= k /\ n = 2 ^ k) as (k & Hk & ->).
    { subst n. unfold ingest_workers. rewrite (proj2 (Z.leb_le configured 0)) by done. cbv zeta.
      set (m := if numCPU <? 4 then 4 else numCPU). destruct (double_until_pow2 (Z.to_nat m) 0 m) as (k & Hk & E & _); [done|].
      change (2 ^ 0) with 1 in E. rewrite E. destruct (64 <? 2 ^ k); [by exists 6|by exists k]. }
    rewrite Z.sub_1_r, <- Z.ones_equiv, Z.land_ones, Z.mod_small by lia. done.
  - done.
  - intros pid. unfold ingest_route. change (u32 (33 - 1)) with (2 ^ 5). destruct (Z.testbit pid 5) eqn:Eb.
    + right. apply Z.bits_inj'. intros k Hk. rewrite Z.land_spec, Z.pow2_bits_eqb by lia. change 32 with (2 ^ 5).
      rewrite Z.pow2_bits_eqb by lia. destruct (Z.eqb_spec 5 k) as [<-|]; [by rewrite Eb|by rewrite andb_false_r].
    + left. apply Z.bits_inj'. intros k Hk. rewrite Z.land_spec, Z.pow2_bits_eqb, Z.bits_0 by lia.
      destruct (Z.eqb_spec 5 k) as [<-|]; [by rewrite Eb|by rewrite andb_false_r].
Qed.

(** ** What a run has done *)
Section pool_theorems.
Context `{EngineLib} (cfg : settings).
Implicit Types (p : pool) (w : workerState) (ls : list label).

(** The events sent to worker [i], the events it took, the alerts it kept, the
    alerts handed to the caller of [Flush]. *)
Definition sent (n : Z) (i : nat) ls : list Event :=
  ls ≫= fun l => match l with LSend e => if ingest_route n (ev_PID e) =? Z.of_nat i then [e] else [] | _ => [] end.
Definition taken (i : nat) ls : list Event :=
  ls ≫= fun l => match l with LWork j e _ => if bool_decide (j = i) then [e] else [] | _ => [] end.
Definition kept_alerts ls : list Alert := ls ≫= fun l => match l with LWork _ _ kept => kept | _ => [] end.
Definition delivered ls : list Alert := ls ≫= fun l => match l with LDeliver al => al | _ => [] end.

Definition locals (ws : list workerState) : list Alert := ws ≫= w_local.

(** The steps still to be made by the workers: one for each queued event and
    one to return. *)
Definition todo w : nat := if w_exited w then 0 else S (length (w_ch w)).
Definition remaining p : nat := sum_list_with todo (p_workers p).

Record pool_inv (pend0 : list Alert) (n : nat) ls p : Prop := {
  pi_engine : engine_ok cfg (p_engine p);
  pi_size : length (p_workers p) = n;
  pi_fifo : forall i w, p_workers p !! i = Some w -> sent (Z.of_nat n) i ls = taken i ls ++ w_ch w;
  pi_alerts : delivered ls ++ ce_pending (p_engine p) ++ locals (p_workers p) ≡ₚ pend0 ++ kept_alerts ls;
  pi_exited : forall i w, p_workers p !! i = Some w -> w_exited w = true ->
    w_local w = [] /\ (p_cancelled p = true \/ p_closed p = true /\ w_ch w = []) }.

Lemma ingestAD_ok out e ce :
  engine_ok cfg ce ->
  exists ce' alerts q, ingestWithAD cfg out e ce = Ok (ce', (alerts, q)) /\ engine_ok cfg ce' /\ ce_pending ce' = ce_pending ce.
Proof.
  intros Hi. unfold ingestWithAD, mbind, M_bind. cbn [time_now].
  set (start := clock out (ce_ticks ce)). set (ce0 := set_ticks _ ce).
  assert (ce_inv cfg (nodrift ce) (ce_rules ce) ce0) as Hi0 by (apply engine_ok_inv in Hi; destruct Hi; by split).
  destruct (detect_batch cfg _ _ out e start _ ce0 Hi0 eq_refl) as (ce1 & det & k & g & d & E & He & _). rewrite E.
  destruct (inv_engine_ok _ _ _ _ (eff_inv _ _ _ _ _ _ _ _ He)) as [Hi1 _].
  destruct (dispatch_ok cfg out det ce1 Hi1) as (ce2 & alerts & q & E2 & Hi2 & _ & _ & Ep & _). rewrite E2.
  eexists _, _, _. split; [reflexivity|]. split; [done|]. rewrite Ep. by destruct He.
Qed.

(** *** Replacing one worker *)
Lemma locals_split ws i w :
  ws !! i = Some w ->
  exists rest, locals ws ≡ₚ w_local w ++ rest /\ forall w', locals (<[i := w']> ws) ≡ₚ w_local w' ++ rest.
Proof.
  intros Hi. exists (locals (take i ws) ++ locals (drop (S i) ws)).
  assert (i < length ws)%nat by (by eapply lookup_lt_Some).
  assert (forall w', locals (take i ws ++ w' :: drop (S i) ws) ≡ₚ w_local w' ++ locals (take i ws) ++ locals (drop (S i) ws)) as Hm.
  { intros w'. unfold locals. rewrite bind_app, bind_cons. solve_Permutation. }
  split; [rewrite <- (take_drop_middle ws i w Hi) at 1; apply Hm|]. intros w'. rewrite insert_take_drop by done. apply Hm.
Qed.

Lemma remaining_split ws i w w' :
  ws !! i = Some w -> (sum_list_with todo (<[i := w']> ws) + todo w = sum_list_with todo ws + todo w')%nat.
Proof.
  intros Hi. assert (i < length ws)%nat by (by eapply lookup_lt_Some).
  rewrite <- (take_drop_middle ws i w Hi) at 2. rewrite insert_take_drop by done. rewrite !sum_list_with_app. simpl. lia.
Qed.

Lemma lookup_set (ws : list workerState) (i j : nat) w w' u :
  ws !! i = Some w -> <[i := w']> ws !! j = Some u -> (j = i /\ u = w') \/ (j <> i /\ ws !! j = Some u).
Proof.
  intros Hi Hj. destruct (decide (j = i)) as [->|]; [left|right].
  - rewrite list_lookup_insert_eq in Hj by (by eapply lookup_lt_Some). by injection Hj as <-.
  - rewrite list_lookup_insert_ne in Hj by congruence. done.
Qed.

(** *** Every step keeps the invariant *)
Lemma sent_snoc n i ls l : sent n i (ls ++ [l]) = sent n i ls ++ sent n i [l].
Proof. apply bind_app. Qed.
Lemma taken_snoc i ls l : taken i (ls ++ [l]) = taken i ls ++ taken i [l].
Proof. apply bind_app. Qed.
Lemma kept_snoc ls l : kept_alerts (ls ++ [l]) = kept_alerts ls ++ kept_alerts [l].
Proof. apply bind_app. Qed.
Lemma delivered_snoc ls l : delivered (ls ++ [l]) = delivered ls ++ delivered [l].
Proof. apply bind_app. Qed.

(** Steps that are no send and no work leave the event histories alone. *)
Definition internal (l : label) : bool := match l with LSend _ | LWork _ _ _ => false | _ => true end.

Lemma internal_events n i ls l : internal l = true -> sent n i (ls ++ [l]) = sent n i ls /\ taken i (ls ++ [l]) = taken i ls /\
  kept_alerts (ls ++ [l]) = kept_alerts ls.
Proof. intros Hl. rewrite sent_snoc, taken_snoc, kept_snoc. by destruct l; rewrite ?app_nil_r. Qed.

Lemma flush_local_spec p i w :
  engine_ok cfg (p_engine p) ->
  exists ce, flush_local p i w = mkPool ce (<[i := mkWorker (w_ch w) (w_ad w) [] (w_exited w)]> (p_workers p)) (p_closed p) (p_cancelled p) /\
    engine_ok cfg ce /\ ce_pending ce = ce_pending (p_engine p) ++ w_local w.
Proof.
  intros Hi. unfold flush_local, flushPending. destruct (w_local w) as [|a l].
  - eexists. split; [reflexivity|]. split; [done|]. by rewrite app_nil_r.
  - eexists. split; [reflexivity|]. split; [destruct Hi; by split|done].
Qed.

(** Worker [i] is replaced and the engine's pending list grows: the alerts
    are conserved when what the worker gains it keeps or hands over. *)
Lemma replace_worker pend0 n ls l p i w w' ce closed cancelled moved :
  pool_inv pend0 n ls p -> p_workers p !! i = Some w ->
  engine_ok cfg ce -> ce_pending ce = ce_pending (p_engine p) ++ moved ->
  moved ++ w_local w' ≡ₚ w_local w ++ kept_alerts [l] -> delivered [l] = [] ->
  (forall j, sent (Z.of_nat n) j [l] = [] /\ (j <> i -> taken j [l] = [])) -> w_ch w = taken i [l] ++ w_ch w' ->
  (p_closed p = true -> closed = true) -> (p_cancelled p = true -> cancelled = true) ->
  (w_exited w' = true -> w_local w' = [] /\ (cancelled = true \/ closed = true /\ w_ch w' = [])) ->
  pool_inv pend0 n (ls ++ [l]) (mkPool ce (<[i := w']> (p_workers p)) closed cancelled).
Proof.
  intros [He Hs Hf Ha Hx] Hi Hce Ep Hm Hd Hsent Hch Hcl Hca Hex. split; simpl; [done| |..].
  - by rewrite length_insert.
  - intros j u Hu. rewrite sent_snoc, taken_snoc. destruct (Hsent j) as [-> Ht]. rewrite app_nil_r.
    destruct (lookup_set _ _ _ _ _ _ Hi Hu) as [[-> ->]|[Hne Hj]].
    + rewrite (Hf i w Hi), Hch. by rewrite app_assoc.
    + rewrite (Ht Hne), app_nil_r. by apply Hf.
  - destruct (locals_split _ _ _ Hi) as (rest & E1 & E2). rewrite (E2 w'), kept_snoc, delivered_snoc, Hd, app_nil_r, Ep.
    rewrite E1 in Ha. rewrite (app_assoc pend0), <- Ha. rewrite <- !app_assoc. do 2 f_equiv.
    rewrite (app_assoc moved), Hm. solve_Permutation.
  - intros j u Hu Eu. destruct (lookup_set _ _ _ _ _ _ Hi Hu) as [[-> ->]|[Hne Hj]]; [by apply Hex|].
    destruct (Hx j u Hj Eu) as (? & [?|[? ?]]); (split; [done|]); [left|right]; auto.
Qed.

Lemma work_inv pend0 n ls out p i w e ch p' kept :
  pool_inv pend0 n ls p -> p_workers p !! i = Some w -> w_exited w = false -> w_ch w = e :: ch ->
  work cfg out p i w e ch = Ok (p', kept) -> pool_inv pend0 n (ls ++ [LWork i e kept]) p'.
Proof.
  intros Hp Hi Hw Hch. pose proof (pi_engine _ _ _ _ Hp) as He. unfold work.
  set (ce0 := set_detector (w_ad w) (p_engine p)). assert (engine_ok cfg ce0) as He0 by (destruct He; by split).
  destruct (ingestAD_ok out e ce0 He0) as (ce & alerts & q & -> & Hce & Ep). cbn [mbind result_bind].
  set (k := if q then [] else alerts). set (w1 := mkWorker ch (ce_detector ce) (w_local w ++ k) (w_exited w)).
  set (p1 := mkPool ce _ _ _). intros E. injection E as E <-. rewrite <- E. clear E.
  assert (forall j, sent (Z.of_nat n) j [LWork i e k] = [] /\ (j <> i -> taken j [LWork i e k] = [])) as Hev.
  { intros j. split; [done|]. intros Hne. cbn. rewrite bool_decide_false by congruence. done. }
  assert (w_ch w = taken i [LWork i e k] ++ ch) as Htk by (cbn; rewrite bool_decide_true by done; done).
  assert (kept_alerts [LWork i e k] = k) as Hk by (cbn; by rewrite app_nil_r).
  destruct (negb _ && _).
  - destruct (flush_local_spec p1 i w1 Hce) as (ce' & -> & Hce' & Ep'). subst p1. simpl. rewrite list_insert_insert_eq.
    eapply (replace_worker _ _ _ _ _ _ w _ _ _ _ (w_local w ++ k)); try done.
    + rewrite Ep'. simpl. by rewrite Ep.
    + cbn [w_local]. by rewrite Hk, app_nil_r.
    + simpl. by rewrite Hw.
  - eapply (replace_worker _ _ _ _ _ _ w _ _ _ _ []); try done.
    + by rewrite Ep, app_nil_r.
    + by rewrite Hk.
    + simpl. by rewrite Hw.
Qed.

Lemma flush_inv pend0 n ls p i w :
  pool_inv pend0 n ls p -> p_workers p !! i = Some w -> w_exited w = false -> pool_inv pend0 n (ls ++ [LFlush i]) (flush_local p i w).
Proof.
  intros Hp Hi Hw. destruct (flush_local_spec p i w (pi_engine _ _ _ _ Hp)) as (ce & -> & Hce & Ep).
  eapply (replace_worker _ _ _ _ _ _ w _ _ _ _ (w_local w)); try done. simpl. by rewrite Hw.
Qed.

Lemma exit_worker_spec p i w :
  engine_ok cfg (p_engine p) -> p_workers p !! i = Some w ->
  exists ce, exit_worker p i w = mkPool ce (<[i := mkWorker (w_ch w) (w_ad w) [] true]> (p_workers p)) (p_closed p) (p_cancelled p) /\
    engine_ok cfg ce /\ ce_pending ce = ce_pending (p_engine p) ++ w_local w.
Proof.
  intros He Hi. unfold exit_worker. destruct (flush_local_spec p i w He) as (ce & -> & Hce & Ep). simpl.
  rewrite list_lookup_insert_eq by (by eapply lookup_lt_Some). exists ce. unfold set_worker. simpl. by rewrite list_insert_insert_eq.
Qed.

Lemma exit_inv pend0 n ls p i w :
  pool_inv pend0 n ls p -> p_workers p !! i = Some w -> (p_closed p = true /\ w_ch w = [] \/ p_cancelled p = true) ->
  pool_inv pend0 n (ls ++ [LExit i]) (exit_worker p i w).
Proof.
  intros Hp Hi Hw. destruct (exit_worker_spec p i w (pi_engine _ _ _ _ Hp) Hi) as (ce & -> & Hce & Ep).
  eapply (replace_worker _ _ _ _ _ _ w _ _ _ _ (w_local w)); try done. intros _. simpl. split; [done|]. tauto.
Qed.

Lemma IngestAsync_spec bufSize e p p' :
  IngestAsync bufSize e p = Ok (Some p') ->
  exists i w, ingest_route (pool_size p) (ev_PID e) = Z.of_nat i /\ p_workers p !! i = Some w /\ p_closed p = false /\
    p' = set_worker p i (mkWorker (w_ch w ++ [e]) (w_ad w) (w_local w) (w_exited w)).
Proof.
  unfold IngestAsync. set (r := ingest_route _ _). unfold list_get, mbind, result_bind.
  destruct (Z.leb_spec 0 r); [|done]. destruct (p_workers p !! Z.to_nat r) as [w|] eqn:Hw; [|done].
  destruct (p_closed p) eqn:Ec; [done|]. destruct (_ <? bufSize); [|done]. intros E. injection E as <-.
  exists (Z.to_nat r), w. rewrite Z2Nat.id by lia. done.
Qed.

Lemma send_inv pend0 n ls bufSize e p p' :
  pool_inv pend0 n ls p -> IngestAsync bufSize e p = Ok (Some p') -> pool_inv pend0 n (ls ++ [LSend e]) p'.
Proof.
  intros [He Hs Hf Ha Hx] (i & w & Er & Hi & Hc & ->)%IngestAsync_spec. unfold pool_size in Er. rewrite Hs in Er.
  split; simpl; [done| |..].
  - by rewrite length_insert.
  - intros j u Hu. rewrite sent_snoc, taken_snoc. cbn [taken mbind list_bind]. rewrite app_nil_r.
    cbn [sent mbind list_bind]. rewrite Er, app_nil_r.
    destruct (lookup_set _ _ _ _ _ _ Hi Hu) as [[-> ->]|[Hne Hj]].
    + rewrite (proj2 (Z.eqb_eq _ _)) by done. rewrite (Hf i w Hi). simpl. by rewrite app_assoc.
    + rewrite (proj2 (Z.eqb_neq _ _)) by lia. rewrite app_nil_r. by apply Hf.
  - rewrite kept_snoc, delivered_snoc. destruct (locals_split _ _ _ Hi) as (rest & E1 & E2). rewrite (E2 _). simpl.
    cbn. rewrite !app_nil_r, <- E1. done.
  - intros j u Hu Eu. destruct (lookup_set _ _ _ _ _ _ Hi Hu) as [[-> ->]|[Hne Hj]]; [|by eapply Hx].
    destruct (Hx i w Hi Eu) as (? & [?|[? ?]]); [|congruence]. simpl. auto.
Qed.

Lemma step_inv bufSize pend0 n ls p l p' :
  pool_inv pend0 n ls p -> pool_step cfg bufSize p l p' -> pool_inv pend0 n (ls ++ [l]) p'.
Proof.
  intros Hp Hs. destruct Hs as [e p p' E|out p i w e ch p' kept Hi Hw Hch E|p i w Hi Hw|p i w Hi Hw Hc|p|p|p].
  - by eapply send_inv.
  - by eapply work_inv.
  - by apply flush_inv.
  - by apply exit_inv.
  - destruct Hp as [? ? ? Ha Hx]. split; simpl; try done.
    + intros i w Hi. destruct (internal_events (Z.of_nat n) i ls LClose eq_refl) as (-> & -> & _). auto.
    + rewrite delivered_snoc, kept_snoc. cbn. by rewrite !app_nil_r.
    + intros i w Hi Ew. destruct (Hx i w Hi Ew) as (? & [?|[? ?]]); auto.
  - destruct Hp as [? ? ? Ha Hx]. split; simpl; try done.
    + intros i w Hi. destruct (internal_events (Z.of_nat n) i ls LCancel eq_refl) as (-> & -> & _). auto.
    + rewrite delivered_snoc, kept_snoc. cbn. by rewrite !app_nil_r.
    + intros i w Hi Ew. destruct (Hx i w Hi Ew) as (? & _); auto.
  - destruct Hp as [He ? ? Ha Hx]. split; simpl; try done.
    + destruct He; by split.
    + intros i w Hi. destruct (internal_events (Z.of_nat n) i ls (LDeliver (ce_pending (p_engine p))) eq_refl) as (-> & -> & _). auto.
    + rewrite delivered_snoc, kept_snoc. cbn. rewrite !app_nil_r, <- Ha. by rewrite app_assoc.
Qed.

Lemma run_inv bufSize ce ads ls p :
  engine_ok cfg ce -> pool_run cfg bufSize (new_pool ce ads) ls p -> pool_inv (ce_pending ce) (length ads) ls p.
Proof.
  intros He. induction 1 as [|ls p l p' _ IH Hs]; [|by eapply step_inv]. split; simpl; [done|by rewrite length_map|..].
  - intros i w Hi. rewrite list_lookup_fmap in Hi. destruct (ads !! i); [|done]. by injection Hi as <-.
  - assert (locals (map (fun ad => mkWorker [] ad [] false) ads) = []) as -> by (by induction ads). done.
  - intros i w Hi Ew. rewrite list_lookup_fmap in Hi. destruct (ads !! i); [|done]. injection Hi as <-. done.
Qed.

(** *** Steps left *)
Lemma todo_done w : w_exited w = true -> todo w = 0%nat.
Proof. unfold todo. by intros ->. Qed.

Lemma todo_live w : w_exited w = false -> todo w = S (length (w_ch w)).
Proof. unfold todo. by intros ->. Qed.

Lemma todo_zero (ws : list workerState) : sum_list_with todo ws = 0%nat -> Forall (fun w => w_exited w = true) ws.
Proof.
  induction ws as [|w ws IH]; [by constructor|]. simpl. intros Hz. constructor; [|apply IH; lia].
  unfold todo in Hz. by destruct (w_exited w).
Qed.

Lemma todo_positive (ws : list workerState) : (0 < sum_list_with todo ws)%nat -> exists i w, ws !! i = Some w /\ w_exited w = false.
Proof.
  induction ws as [|w ws IH]; simpl; [lia|]. intros Hz. destruct (w_exited w) eqn:Ew; [|by exists 0%nat, w].
  rewrite todo_done in Hz by done. destruct IH as (i & u & Hi & Hu); [lia|]. by exists (S i), u.
Qed.

(** A step by a worker's own progress: an event taken, or the return. *)
Definition progress (l : label) : bool := match l with LWork _ _ _ | LExit _ => true | _ => false end.

Lemma work_shape out p i w e ch p' kept :
  engine_ok cfg (p_engine p) -> work cfg out p i w e ch = Ok (p', kept) ->
  exists ad local, p_workers p' = <[i := mkWorker ch ad local (w_exited w)]> (p_workers p) /\
    p_closed p' = p_closed p /\ p_cancelled p' = p_cancelled p.
Proof.
  intros He. unfold work. set (ce0 := set_detector (w_ad w) (p_engine p)). assert (engine_ok cfg ce0) as He0 by (destruct He; by split).
  destruct (ingestAD_ok out e ce0 He0) as (ce & alerts & q & -> & Hce & Ep). cbn [mbind result_bind].
  intros E. injection E as <- _. destruct (negb _ && _); [|by eexists _, _].
  unfold flush_local, flushPending. cbn [w_local w_ch w_ad w_exited p_workers p_engine p_closed p_cancelled].
  destruct (w_local w ++ _); eexists _, _; simpl; rewrite list_insert_insert_eq; done.
Qed.

Lemma progress_decreases bufSize p l p' :
  engine_ok cfg (p_engine p) -> p_closed p = true -> p_cancelled p = false -> l <> LCancel -> pool_step cfg bufSize p l p' ->
  p_closed p' = true /\ p_cancelled p' = false /\ remaining p = (remaining p' + if progress l then 1 else 0)%nat.
Proof.
  intros He Hc Hn Hl Hs. unfold remaining. destruct Hs as [e p p' E|out p i w e ch p' kept Hi Hw Hch E|p i w Hi Hw|p i w Hi Hw Hx|p|p|p]; try done.
  - apply IngestAsync_spec in E as (i & w & _ & _ & Hcl & _). congruence.
  - destruct (work_shape _ _ _ _ _ _ _ _ He E) as (ad & local & -> & -> & ->). split_and!; [done..|].
    pose proof (remaining_split _ _ _ (mkWorker ch ad local (w_exited w)) Hi) as Hr.
    rewrite !todo_live in Hr by done. rewrite Hch in Hr. simpl in Hr |- *. lia.
  - destruct (flush_local_spec p i w He) as (ce & -> & _). split_and!; [done..|]. simpl.
    pose proof (remaining_split _ _ _ (mkWorker (w_ch w) (w_ad w) [] (w_exited w)) Hi) as Hr.
    rewrite !todo_live in Hr by done. simpl in Hr. lia.
  - destruct (exit_worker_spec p i w He Hi) as (ce & -> & _). split_and!; [done..|]. simpl.
    pose proof (remaining_split _ _ _ (mkWorker (w_ch w) (w_ad w) [] true) Hi) as Hr.
    destruct Hx as [[_ Hx]|Hx]; [|congruence]. rewrite (todo_live w), (todo_done (mkWorker _ _ _ true)) in Hr by done. rewrite Hx in Hr |- *. simpl in Hr. lia.
Qed.

Lemma progress_possible bufSize (out : outside) p :
  engine_ok cfg (p_engine p) -> p_closed p = true -> (0 < remaining p)%nat ->
  exists l p', progress l = true /\ pool_step cfg bufSize p l p'.
Proof.
  intros He Hc (i & w & Hi & Hw)%todo_positive. destruct (w_ch w) as [|e ch] eqn:Ech.
  - exists (LExit i). eexists. split; [done|]. apply (step_exit _ _ p i w); auto.
  - destruct (ingestAD_ok out e (set_detector (w_ad w) (p_engine p))) as (ce & alerts & q & E & _); [destruct He; by split|].
    eexists (LWork i e _), _. split; [done|]. eapply (step_work _ _ out); [done..|]. unfold work. rewrite E. reflexivity.
Qed.
End pool_theorems.

Section pool_claims.
Context `{EngineLib}.

(** Claim C5. The ingest workers lose and reorder nothing. For every
    interleaving of senders, workers, flush ticks, deliveries, closing and
    cancellation over a reachable engine: each worker has taken a prefix of the
    events sent to it, in the order they were sent, and holds the rest in its
    channel, so the events of one process are handled in order by one
    detector; the alerts delivered, pending and in the workers' buffers are
    together exactly those that were pending at the start and those the
    workers kept, none lost or doubled; and while the channels are open no
    send panics. *)
Theorem pool_conservation (c : CorrelationEngineConfig) ce hist bufSize (ads : list Detector) ls p :
  config_ok c -> engine_run c ce hist -> (1 <= length ads <= 64)%nat ->
  pool_run (engine_settings c) bufSize (new_pool ce ads) ls p ->
  (forall i w, p_workers p !! i = Some w -> sent (Z.of_nat (length ads)) i ls = taken i ls ++ w_ch w) /\
  delivered ls ++ ce_pending (p_engine p) ++ locals (p_workers p) ≡ₚ ce_pending ce ++ kept_alerts ls /\
  (p_closed p = false -> forall e, IngestAsync bufSize e p <> Panic).
Proof.
  intros Hc Hr Hn Hp. destruct (engine_run_ok c ce hist Hc Hr) as [He _].
  destruct (run_inv _ bufSize ce ads ls p He Hp) as [He' Hs Hf Ha _]. split; [exact Hf|]. split; [exact Ha|].
  intros Hcl e. unfold IngestAsync, pool_size. rewrite Hs. pose proof (route_range (Z.of_nat (length ads)) (ev_PID e) ltac:(lia)) as Hrt.
  unfold list_get. rewrite (proj2 (Z.leb_le 0 _)) by lia.
  destruct (lookup_lt_is_Some_2 (p_workers p) (Z.to_nat (ingest_route (Z.of_nat (length ads)) (ev_PID e)))) as [w ->]; [lia|].
  cbn [mbind result_bind]. rewrite Hcl. by destruct (_ <? bufSize).
Qed.

(** Claim C6. Draining the pool ends and finishes the work. Once the channels
    are closed, and as long as the context is not cancelled: every event a
    worker takes and every worker that returns lowers the number of remaining
    steps by one and nothing raises it; while it is positive some worker can
    go on; when it is zero all workers have returned, every event sent was
    taken, and every alert kept is pending or delivered. *)
Theorem drain_completes (c : CorrelationEngineConfig) ce hist bufSize (ads : list Detector) ls p :
  config_ok c -> engine_run c ce hist -> pool_run (engine_settings c) bufSize (new_pool ce ads) ls p ->
  p_closed p = true -> p_cancelled p = false ->
  (forall l p', l <> LCancel -> pool_step (engine_settings c) bufSize p l p' ->
     p_closed p' = true /\ p_cancelled p' = false /\ remaining p = (remaining p' + if progress l then 1 else 0)%nat) /\
  ((0 < remaining p)%nat -> forall out : outside, exists l p', progress l = true /\ pool_step (engine_settings c) bufSize p l p') /\
  (remaining p = 0%nat ->
     Forall (fun w => w_exited w = true) (p_workers p) /\
     (forall i, (i < length ads)%nat -> taken i ls = sent (Z.of_nat (length ads)) i ls) /\
     delivered ls ++ ce_pending (p_engine p) ≡ₚ ce_pending ce ++ kept_alerts ls).
Proof.
  intros Hc Hr Hp Hcl Hca. destruct (engine_run_ok c ce hist Hc Hr) as [He _].
  destruct (run_inv _ bufSize ce ads ls p He Hp) as [He' Hs Hf Ha Hx].
  split; [intros; by eapply progress_decreases|]. split; [intros; by eapply progress_possible|].
  intros Hz. pose proof (todo_zero _ Hz) as Hex. split; [exact Hex|]. rewrite Forall_lookup in Hex. split.
  - intros i Hi. destruct (lookup_lt_is_Some_2 (p_workers p) i) as [w Hw]; [lia|]. rewrite (Hf i w Hw).
    destruct (Hx i w Hw (Hex i w Hw)) as (_ & [?|[_ ->]]); [congruence|]. by rewrite app_nil_r.
  - assert (locals (p_workers p) = []) as El; [|by rewrite El, app_nil_r in Ha].
    assert (Forall (fun w => w_local w = []) (p_workers p)) as Hl.
    { apply Forall_lookup. intros i w Hw. by apply (Hx i w Hw), (Hex i w). }
    clear -Hl. induction Hl as [|w ws Hw _ IH]; [done|]. unfold locals in *. rewrite bind_cons, Hw, IH. done.
Qed.

(** A worker that has returned takes nothing more. *)
Lemma exited_stays cfg bufSize p l p' i w :
  engine_ok cfg (p_engine p) -> pool_step cfg bufSize p l p' -> p_workers p !! i = Some w -> w_exited w = true ->
  taken i [l] = [] /\ exists w', p_workers p' !! i = Some w' /\ w_exited w' = true /\ w_ch w `prefix_of` w_ch w'.
Proof.
  intros He Hs Hi Hx. destruct Hs as [e p p' E|out p j u e ch p' kept Hj Hu Hch E|p j u Hj Hu|p j u Hj Hu Hc|p|p|p];
    try (split; [done|by exists w]).
  - split; [done|]. apply IngestAsync_spec in E as (j & u & _ & Hj & _ & ->). simpl. destruct (decide (i = j)) as [->|].
    + rewrite list_lookup_insert_eq by (by eapply lookup_lt_Some). rewrite Hi in Hj. injection Hj as <-. eexists. split; [done|].
      split; [done|]. by eexists.
    + rewrite list_lookup_insert_ne by congruence. by exists w.
  - destruct (decide (j = i)) as [->|Hne]; [congruence|]. split; [cbn; by rewrite bool_decide_false|].
    destruct (work_shape _ _ _ _ _ _ _ _ _ He E) as (ad & local & -> & _). rewrite list_lookup_insert_ne by congruence. by exists w.
  - split; [done|]. destruct (flush_local_spec _ p j u He) as (ce & -> & _). simpl.
    destruct (decide (j = i)) as [->|Hne]; [congruence|]. rewrite list_lookup_insert_ne by congruence. by exists w.
  - split; [done|]. destruct (exit_worker_spec _ p j u He Hj) as (ce & -> & _). simpl.
    destruct (decide (j = i)) as [->|Hne]; [congruence|]. rewrite list_lookup_insert_ne by congruence. by exists w.
Qed.

(** Closing the engine may lose queued events: [Close] cancels the
    context before it closes the channels, and a worker may then return with
    events in its channel. For every reachable engine, pool and event there is
    a run in which the event is sent, the pool is closed and the worker
    returns, and in no continuation does that worker take anything. *)
Theorem close_may_lose_events (c : CorrelationEngineConfig) ce hist bufSize (ads : list Detector) e
    (i := Z.to_nat (ingest_route (Z.of_nat (length ads)) (ev_PID e))) :
  config_ok c -> engine_run c ce hist -> (1 <= length ads <= 64)%nat -> 0 < bufSize ->
  exists p, pool_run (engine_settings c) bufSize (new_pool ce ads) [LSend e; LCancel; LClose; LExit i] p /\
    forall ls p', pool_run (engine_settings c) bufSize p ls p' ->
      taken i ls = [] /\ exists w, p_workers p' !! i = Some w /\ w_exited w = true /\ [e] `prefix_of` w_ch w.
Proof.
  intros Hc Hr Hn Hb. destruct (engine_run_ok c ce hist Hc Hr) as [He _].
  pose proof (route_range (Z.of_nat (length ads)) (ev_PID e) ltac:(lia)) as Hrt.
  destruct (lookup_lt_is_Some_2 ads i) as [ad Had]; [lia|]. set (cfg := engine_settings c).
  assert (exists p, IngestAsync bufSize e (new_pool ce ads) = Ok (Some p)) as [p1 E1].
  { unfold IngestAsync, pool_size, new_pool, list_get. simpl. rewrite length_map, (proj2 (Z.leb_le 0 _)) by lia. fold i.
    rewrite list_lookup_fmap, Had. simpl. destruct bufSize; [done| |done]. by eexists. }
  pose proof E1 as (j & w & Er & Hw & _ & Ep)%IngestAsync_spec.
  assert (j = i) as -> by (unfold pool_size, new_pool in Er; simpl in Er; rewrite length_map in Er; subst i; lia).
  assert (w_ch w = []) as Ew by (simpl in Hw; rewrite list_lookup_fmap, Had in Hw; by injection Hw as <-).
  set (w1 := mkWorker (w_ch w ++ [e]) (w_ad w) (w_local w) (w_exited w)) in Ep.
  set (p3 := mkPool (p_engine p1) (p_workers p1) true true).
  assert (p_workers p3 !! i = Some w1) as H3.
  { subst p3 p1. simpl. apply list_lookup_insert_eq. rewrite length_map. apply lookup_lt_Some in Had. lia. }
  assert (w_exited w1 = false) as Hx1 by (simpl in Hw; rewrite list_lookup_fmap, Had in Hw; by injection Hw as <-).
  assert (pool_run cfg bufSize (new_pool ce ads) [LSend e; LCancel; LClose; LExit i] (exit_worker p3 i w1)) as Hrun.
  { apply (run_next _ _ _ [LSend e; LCancel; LClose] p3 (LExit i)); [|apply step_exit; auto].
    apply (run_next _ _ _ [LSend e; LCancel] (mkPool (p_engine p1) (p_workers p1) (p_closed p1) true) LClose); [|exact (step_close cfg bufSize (mkPool (p_engine p1) (p_workers p1) (p_closed p1) true))].
    apply (run_next _ _ _ [LSend e] p1 LCancel); [|apply step_cancel].
    apply (run_next _ _ _ [] (new_pool ce ads) (LSend e)); [constructor|by apply step_send]. }
  exists (exit_worker p3 i w1). split; [exact Hrun|]. intros ls p'.
  pose proof (run_inv _ bufSize ce ads _ _ He Hrun) as Hinv. remember [LSend e; LCancel; LClose; LExit i] as ls0.
  assert (exists w, p_workers (exit_worker p3 i w1) !! i = Some w /\ w_exited w = true /\ [e] `prefix_of` w_ch w) as Hstart.
  { destruct (exit_worker_spec cfg p3 i w1) as (ce' & -> & _); [|done|].
    - subst p3 p1. done.
    - simpl. rewrite list_lookup_insert_eq by (by eapply lookup_lt_Some). eexists. split; [done|]. simpl. by rewrite Ew. }
  intros Hr'. enough (pool_inv cfg (ce_pending ce) (length ads) (ls0 ++ ls) p' /\ taken i ls = [] /\
    exists w, p_workers p' !! i = Some w /\ w_exited w = true /\ [e] `prefix_of` w_ch w) by tauto.
  induction Hr' as [|ls p l p' _ (Hi' & Ht & u & Hu & Hux & Hpre) Hs]; [rewrite app_nil_r; by split_and!|].
  destruct (exited_stays _ _ _ _ _ _ _ (pi_engine _ _ _ _ _ Hi') Hs Hu Hux) as (Ht' & w' & Hw' & Hx' & Hp').
  split; [rewrite app_assoc; by eapply step_inv|]. split; [by rewrite taken_snoc, Ht, Ht'|].
  exists w'. split_and!; [done..|]. by etrans.
Qed.
End pool_claims.

(** * A pool of two workers *)
Module Example_pool.
#[local] Existing Instance sample_lib.
#[local] Existing Instance Example_engine.sample_engine.
Import Example_engine.

Definition c0 : CorrelationEngineConfig := config 10 0 false.
Definition start : pool := new_pool (fresh c0) [tt; tt].
Definition after_send : pool :=
  match IngestAsync 4 (exec_event 7 5) start with Ok (Some p) => p | _ => start end.
Definition after_close : pool := mkPool (p_engine after_send) (p_workers after_send) true false.

Lemma sent_run : pool_run (engine_settings c0) 4 start [LSend (exec_event 7 5)] after_send.
Proof.
  apply (run_next _ _ _ [] start (LSend (exec_event 7 5))); [constructor|]. apply step_send. reflexivity.
Qed.

Lemma closed_run : pool_run (engine_settings c0) 4 start [LSend (exec_event 7 5); LClose] after_close.
Proof.
  apply (run_next _ _ _ [LSend (exec_event 7 5)] after_send LClose); [apply sent_run|].
  exact (step_close (engine_settings c0) 4 after_send).
Qed.

(** Process 7 goes to worker 1. *)
Lemma pool_conservation_witness :
  (exists w, p_workers after_send !! 1%nat = Some w /\ sent 2 1 [LSend (exec_event 7 5)] = w_ch w) /\
  (forall e, IngestAsync 4 e after_send <> Panic).
Proof.
  destruct (pool_conservation c0 (fresh c0) [] 4 [tt; tt] [LSend (exec_event 7 5)] after_send) as (Hf & _ & Hs).
  - apply sample_config_ok. lia.
  - constructor.
  - split; repeat constructor.
  - exact sent_run.
  - split; [|apply Hs; reflexivity]. eexists. split; [reflexivity|]. exact (Hf 1%nat _ eq_refl).
Defined.

(** Three steps are left after the close: one event and two returns. *)
Lemma drain_completes_witness :
  remaining after_close = 3%nat /\
  exists l p', progress l = true /\ pool_step (engine_settings c0) 4 after_close l p'.
Proof.
  destruct (drain_completes c0 (fresh c0) [] 4 [tt; tt] [LSend (exec_event 7 5); LClose] after_close) as (_ & Hp & _).
  - apply sample_config_ok. lia.
  - constructor.
  - exact closed_run.
  - reflexivity.
  - reflexivity.
  - split; [reflexivity|]. apply Hp; [vm_compute; lia|exact (at_time Second)].
Defined.

Lemma close_may_lose_witness :
  exists p, pool_run (engine_settings c0) 4 start [LSend (exec_event 7 5); LCancel; LClose; LExit 1] p /\
    exists w, p_workers p !! 1%nat = Some w /\ w_exited w = true /\ [exec_event 7 5] `prefix_of` w_ch w.
Proof.
  destruct (close_may_lose_events c0 (fresh c0) [] 4 [tt; tt] (exec_event 7 5)) as (p & Hr & Hl).
  - apply sample_config_ok. lia.
  - constructor.
  - split; repeat constructor.
  - lia.
  - exists p. split; [exact Hr|]. destruct (Hl [] p (run_start _ _ _)) as [_ Hw]. exact Hw.
Defined.
End Example_pool.
