(* ===== verification/Ja3.v ===== *)
(** * TLS fingerprints

    Models src/internal/ja3/ja3.go: the parser of TLS ClientHello records with
    its bounds checks, and the JA3, JA3S and JA4 fingerprints. The hash
    functions of crypto/md5 and crypto/sha256 are parameters. Theorems: the
    parser never panics and its loops end; it inverts the encoding of RFC 5246
    hello messages, whatever follows them; the text that JA3 hashes determines
    the five fields it is made of; JA4 does not depend on the order of cipher
    suites and extensions. *)
From S2P Require Import Prelude GoBytes GoText GoRing Types Fields RuleTypes Incidents Lineage TraceCtx.
From Stdlib Require Import Strings.Ascii.
From stdpp Require Import pretty sorting.
#[local] Open Scope Z_scope.

(** ** Parsing *)
Record ClientHelloFields := mkHello {
  ch_Version : Z; ch_Ciphers : list Z; ch_Extensions : list Z; ch_Curves : list Z; ch_PointFmts : list Z;
  ch_SNI : gostring; ch_ALPN : list gostring; ch_SignAlgos : list Z }.

Inductive ja3_error :=
| ShortRecord (n : Z) | NotHandshake (t : Z) | RecordLength (n : Z) | ShortHandshake (n : Z) | NotClientHello (t : Z)
| HandshakeLength (n : Z) | ShortVersion | ShortRandom | ShortSessionID | ShortCiphersLength | InvalidCiphers
| ShortCompression.

Abbreviation parsed := (result ja3_error).

Definition set_Extensions (l : list Z) (h : ClientHelloFields) : ClientHelloFields :=
  mkHello (ch_Version h) (ch_Ciphers h) l (ch_Curves h) (ch_PointFmts h) (ch_SNI h) (ch_ALPN h) (ch_SignAlgos h).
Definition set_Curves (l : list Z) (h : ClientHelloFields) : ClientHelloFields :=
  mkHello (ch_Version h) (ch_Ciphers h) (ch_Extensions h) l (ch_PointFmts h) (ch_SNI h) (ch_ALPN h) (ch_SignAlgos h).
Definition set_PointFmts (l : list Z) (h : ClientHelloFields) : ClientHelloFields :=
  mkHello (ch_Version h) (ch_Ciphers h) (ch_Extensions h) (ch_Curves h) l (ch_SNI h) (ch_ALPN h) (ch_SignAlgos h).
Definition set_SNI (s : gostring) (h : ClientHelloFields) : ClientHelloFields :=
  mkHello (ch_Version h) (ch_Ciphers h) (ch_Extensions h) (ch_Curves h) (ch_PointFmts h) s (ch_ALPN h) (ch_SignAlgos h).
Definition set_ALPN (l : list gostring) (h : ClientHelloFields) : ClientHelloFields :=
  mkHello (ch_Version h) (ch_Ciphers h) (ch_Extensions h) (ch_Curves h) (ch_PointFmts h) (ch_SNI h) l (ch_SignAlgos h).
Definition set_SignAlgos (l : list Z) (h : ClientHelloFields) : ClientHelloFields :=
  mkHello (ch_Version h) (ch_Ciphers h) (ch_Extensions h) (ch_Curves h) (ch_PointFmts h) (ch_SNI h) (ch_ALPN h) l.

(** [binary.BigEndian.Uint16(s[off:off+2])] *)
Definition be_range (s : slice) (off : Z) : parsed Z := t ← slice_range s off (off + 2); be_uint 2 t.

(** A counted loop that reads 16-bit values from [off] on. *)
Fixpoint read_u16s (rd : Z -> parsed Z) (n : nat) (off : Z) : parsed (list Z) :=
  match n with
  | O => Ok []
  | S n => v ← rd off; l ← read_u16s rd n (off + 2); Ok (v :: l)
  end.

(** The list of 16-bit values behind a 2-byte length (extensions 10 and 13):
    [None] when the length is odd or too large. *)
Definition u16_vector (d : slice) : parsed (option (list Z)) :=
  if 2 <=? len d then
    hd ← slice_to d 2; n ← be_uint 2 hd;
    rest ← slice_from d 2;
    if (n mod 2 =? 0) && (n <=? len rest) then
      l ← read_u16s (be_at 2 rest) (Z.to_nat (n / 2)) 0; Ok (Some l)
    else Ok None
  else Ok None.

(** The loop over the protocol names; [Panic] when the fuel is used up. *)
Fixpoint alpn_loop (fuel : nat) (d : slice) (alpnLen pos : Z) (acc : list gostring) : parsed (list gostring) :=
  if (0 <? alpnLen) && (pos <? len d) then
    match fuel with
    | O => Panic
    | S fuel =>
        b ← slice_index d pos;
        let protoLen := byte_Z b in
        let pos := pos + 1 in
        if len d <? pos + protoLen then Ok acc else
        acc ← (if 0 <? protoLen then p ← slice_range d pos (pos + protoLen); Ok (acc ++ [bytes_string (sl_data p)])
               else Ok acc);
        alpn_loop fuel d (alpnLen - (1 + protoLen)) (pos + protoLen) acc
    end
  else Ok acc.

(** The [switch] on the extension type. *)
Definition handle_ext (t : Z) (d : slice) (h : ClientHelloFields) : parsed ClientHelloFields :=
  if t =? 0 then
    if 5 <=? len d then
      nt ← slice_index d 2;
      if byte_Z nt =? 0 then
        w ← slice_range d 3 5; nameLen ← be_uint 2 w;
        if 5 + nameLen <=? len d then n ← slice_range d 5 (5 + nameLen); Ok (set_SNI (bytes_string (sl_data n)) h)
        else Ok h
      else Ok h
    else Ok h
  else if t =? 10 then v ← u16_vector d; Ok (match v with Some l => set_Curves l h | None => h end)
  else if t =? 11 then
    if 1 <=? len d then
      n ← slice_index d 0;
      if byte_Z n <=? len d - 1 then f ← slice_range d 1 (1 + byte_Z n); Ok (set_PointFmts (map byte_Z (sl_data f)) h)
      else Ok h
    else Ok h
  else if t =? 13 then v ← u16_vector d; Ok (match v with Some l => set_SignAlgos l h | None => h end)
  else if t =? 16 then
    if 2 <=? len d then
      w ← slice_to d 2; alpnLen ← be_uint 2 w;
      rest ← slice_from d 2;
      l ← alpn_loop (length (sl_data rest)) rest alpnLen 0 (ch_ALPN h); Ok (set_ALPN l h)
    else Ok h
  else Ok h.

(** The loop over the extensions; [Panic] when the fuel is used up. *)
Fixpoint ext_loop (fuel : nat) (body : slice) (extEnd off : Z) (h : ClientHelloFields) : parsed ClientHelloFields :=
  if off + 4 <=? extEnd then
    match fuel with
    | O => Panic
    | S fuel =>
        extType ← be_at 2 body off;
        extDataLen ← be_at 2 body (off + 2);
        extData ← slice_from body (off + 4);
        let extDataLen := if len extData <? extDataLen then len extData else extDataLen in
        extData ← slice_to extData extDataLen;
        h ← handle_ext extType extData (set_Extensions (ch_Extensions h ++ [extType]) h);
        ext_loop fuel body extEnd (off + (4 + extDataLen)) h
    end
  else Ok h.

(** The body of the handshake message, after its header. *)
Definition parse_body (body : slice) : parsed ClientHelloFields :=
  if len body <? 2 then Err ShortVersion else
  version ← be_at 2 body 0;
  if len body <? 2 + 32 then Err ShortRandom else
  if len body <? 34 + 1 then Err ShortSessionID else
  sid ← slice_index body 34;
  let off := 34 + (1 + byte_Z sid) in
  if len body <? off + 2 then Err ShortCiphersLength else
  csLen ← be_at 2 body off;
  let off := off + 2 in
  if negb (csLen mod 2 =? 0) || (len body <? off + csLen) then Err InvalidCiphers else
  ciphers ← read_u16s (be_range body) (Z.to_nat (csLen / 2)) off;
  let h := mkHello version ciphers [] [] [] ""%string [] [] in
  let off := off + csLen in
  if len body <? off + 1 then Err ShortCompression else
  comp ← slice_index body off;
  let off := off + (1 + byte_Z comp) in
  if len body <? off + 2 then Ok h else
  extLen ← be_at 2 body off;
  let off := off + 2 in
  let extEnd := if len body <? off + extLen then len body else off + extLen in
  ext_loop (length (sl_data body)) body extEnd off h.

Definition parseClientHelloHandshake (data : slice) : parsed ClientHelloFields :=
  if len data <? 4 then Err (ShortHandshake (len data)) else
  t ← slice_index data 0;
  if negb (byte_Z t =? 0x01) then Err (NotClientHello (byte_Z t)) else
  b1 ← slice_index data 1; b2 ← slice_index data 2; b3 ← slice_index data 3;
  let hsLen := Z.lor (Z.lor (Z.shiftl (byte_Z b1) 16) (Z.shiftl (byte_Z b2) 8)) (byte_Z b3) in
  if len data <? hsLen + 4 then Err (HandshakeLength hsLen) else
  body ← slice_range data 4 (4 + hsLen);
  parse_body body.

(** The record version is read and not used. *)
Definition ParseClientHello (data : slice) : parsed ClientHelloFields :=
  if len data <? 5 then Err (ShortRecord (len data)) else
  t ← slice_index data 0;
  if negb (byte_Z t =? 0x16) then Err (NotHandshake (byte_Z t)) else
  vw ← slice_range data 1 3; _ ← be_uint 2 vw;
  lw ← slice_range data 3 5; recLen ← be_uint 2 lw;
  if len data <? recLen + 5 then Err (RecordLength recLen) else
  handshake ← slice_from data 5;
  handshake ← (if u16 (len handshake) <? recLen then slice_to handshake recLen else Ok handshake);
  parseClientHelloHandshake handshake.

(** ** Fingerprints *)

(** Decimal numbers joined by hyphens, and a hyphen for no number. *)
Fixpoint join_hyphens (l : list Z) : gostring :=
  match l with
  | [] => ""%string
  | [z] => pretty z
  | z :: l => (pretty z +:+ "-" +:+ join_hyphens l)%string
  end.
Definition number_list (l : list Z) : gostring := match l with [] => "-"%string | _ => join_hyphens l end.

(** The text that is hashed. *)
Definition JA3_input (h : ClientHelloFields) : gostring :=
  (pretty (ch_Version h) +:+ "," +:+ number_list (ch_Ciphers h) +:+ "," +:+ number_list (ch_Extensions h) +:+ "," +:+
   number_list (ch_Curves h) +:+ "," +:+ number_list (ch_PointFmts h))%string.

Record ServerHelloFields := mkServerHello { sh_Version : Z; sh_Cipher : Z; sh_Extensions : list Z }.

(** [sortUint16]: the sorted copy. *)
Definition sortUint16 (l : list Z) : list Z := merge_sort Z.le l.

Definition JA3S_input (s : ServerHelloFields) : gostring :=
  (pretty (sh_Version s) +:+ "," +:+ pretty (sh_Cipher s) +:+ "," +:+ number_list (sortUint16 (sh_Extensions s)))%string.

(** [strconv.Atoi] on 64-bit integers *)
Definition Atoi (s : gostring) : option Z :=
  let '(neg, digits) := match s with
    | String "-"%char r => (true, r)
    | String "+"%char r => (false, r)
    | _ => (false, s)
    end in
  n ← decimal digits;
  let v := if neg : bool then - n else n in
  if (- 2 ^ 63 <=? v) && (v <? 2 ^ 63) then Some v else None.

Definition isIPv4Literal (s : gostring) : bool :=
  let parts := split_char "."%char "" s in
  Nat.eqb (length parts) 4 &&
  forallb (fun p => match Atoi p with Some n => negb ((n <? 0) || (255 <? n)) | None => false end) parts.

(** [fmt.Sprintf("%04x")], [strings.Join(l, ",")] after [sort.Strings] *)
Definition hex4 (z : Z) : gostring := zero_pad 4 (hex z).
Fixpoint join_commas (l : list gostring) : gostring :=
  match l with
  | [] => ""%string
  | [s] => s
  | s :: l => (s +:+ "," +:+ join_commas l)%string
  end.
Definition sorted_codes (l : list Z) : gostring := join_commas (merge_sort str_le (map hex4 l)).

(** [fmt.Sprintf("%x")] of bytes *)
Fixpoint hex_bytes (l : list byte) : gostring :=
  match l with
  | [] => ""%string
  | b :: l => (zero_pad 2 (hex (byte_Z b)) +:+ hex_bytes l)%string
  end.

Definition ja4_version (v : Z) : gostring :=
  match Types.assoc v [(0x0304, "13"); (0x0303, "12"); (0x0302, "11"); (0x0301, "10"); (0x0300, "s3"); (0x0002, "s2")]%string with
  | Some s => s
  | None => "00"%string
  end.

Section hashes.
Context (md5 sha256 : list byte -> list byte).

Definition JA3 (h : ClientHelloFields) : gostring := hex_bytes (md5 (string_bytes (JA3_input h))).
Definition JA3S (s : ServerHelloFields) : gostring := hex_bytes (md5 (string_bytes (JA3S_input s))).
Definition sha256Hex12 (s : gostring) : gostring := hex_bytes (take 6 (sha256 (string_bytes s))).

Definition JA4 (h : ClientHelloFields) : gostring :=
  let sniField := if negb (bool_decide (ch_SNI h = ""%string)) && negb (isIPv4Literal (ch_SNI h)) then "d"%string else "i"%string in
  ("t" +:+ ja4_version (ch_Version h) +:+ sniField +:+ zero_pad 2 (pretty (Z.of_nat (length (ch_Ciphers h)))) +:+
   sha256Hex12 (sorted_codes (ch_Ciphers h)) +:+ "_" +:+ sha256Hex12 (sorted_codes (ch_Extensions h)))%string.

Definition ComputeJA3 (data : slice) : parsed gostring := h ← ParseClientHello data; Ok (JA3 h).
Definition ComputeJA4 (data : slice) : parsed gostring := h ← ParseClientHello data; Ok (JA4 h).
End hashes.

(** * Theorems *)

(** ** Safety: no panic, and a postcondition on success *)
Definition sat {E A} (m : result E A) (Q : A -> Prop) : Prop :=
  match m with Ok a => Q a | Err _ => True | Panic => False end.

Lemma sat_bind {E A B} (m : result E A) (f : A -> result E B) Q : sat m (fun a => sat (f a) Q) -> sat (m ≫= f) Q.
Proof. by destruct m. Qed.

Lemma sat_mono {E A} (m : result E A) (P Q : A -> Prop) : sat m P -> (forall a, P a -> Q a) -> sat m Q.
Proof. destruct m; simpl; auto. Qed.

Lemma sat_index {E} s i : 0 <= i < len s -> sat (slice_index (E:=E) s i) (fun _ => True).
Proof. intros Hi. by destruct (slice_index_ok (E:=E) s i Hi) as (b & -> & _). Qed.

Lemma sat_range {E} s lo hi : 0 <= lo <= hi -> hi <= len s -> sat (slice_range (E:=E) s lo hi) (fun t => len t = hi - lo).
Proof.
  intros Hl Hh. pose proof (len_le_cap s). destruct (slice_range_ok (E:=E) s lo hi) as (t & -> & Ht); [done|lia|done].
Qed.

Lemma sat_from {E} s lo : 0 <= lo <= len s -> sat (slice_from (E:=E) s lo) (fun t => len t = len s - lo).
Proof. intros Hl. apply sat_range; lia. Qed.

Lemma sat_uint16 {E} s : 2 <= len s -> sat (be_uint (E:=E) 2 s) (in_range 16).
Proof.
  intros Hl. unfold be_uint. rewrite (proj2 (Z.ltb_ge _ _)) by lia. simpl. unfold in_range.
  pose proof (be_combine_range (take 2 (sl_data s))) as Hr. rewrite length_take in Hr. unfold len in Hl.
  rewrite Nat.min_l in Hr by lia. exact Hr.
Qed.

Lemma sat_be_at {E} s off : 0 <= off -> off + 2 <= len s -> sat (be_at (E:=E) 2 s off) (in_range 16).
Proof.
  intros. apply sat_bind. eapply sat_mono; [apply sat_from; lia|]. intros t Ht. cbv beta in Ht. apply sat_uint16. lia.
Qed.

(** Steps through a [bind] with the rule that fits its first action. *)
Ltac safe :=
  apply sat_bind;
  first [ eapply sat_mono; [apply sat_index; lia|]; intros ? _
        | eapply sat_mono; [apply sat_be_at; lia|]; intros ? ?
        | eapply sat_mono; [apply sat_from; lia|]; intros ? ?
        | eapply sat_mono; [apply sat_uint16; lia|]; intros ? ?
        | eapply sat_mono; [apply sat_range; lia|]; intros ? ? ];
  cbv beta in *.

Lemma sat_u16s rd n off (bound : Z) :
  (forall o, 0 <= o -> o + 2 <= bound -> sat (rd o) (in_range 16)) ->
  0 <= off -> off + 2 * Z.of_nat n <= bound -> sat (read_u16s rd n off) (fun l => length l = n).
Proof.
  intros Hrd. revert off. induction n as [|n IH]; intros off Ho Hb; [done|]. cbn [read_u16s].
  apply sat_bind. eapply sat_mono; [apply Hrd; lia|]. intros v _. apply sat_bind.
  eapply sat_mono; [apply IH; lia|]. intros l Hl. simpl. by rewrite Hl.
Qed.

Lemma sat_vector d : sat (u16_vector d) (fun _ => True).
Proof.
  unfold u16_vector. destruct (Z.leb_spec 2 (len d)); [|done]. safe. safe. safe.
  destruct (_ && _) eqn:Hc; [|done]. zbool. apply sat_bind. unfold in_range in *.
  eapply sat_mono; [apply (sat_u16s _ _ _ (len a1)); [by intros; apply sat_be_at|lia|]|done].
  pose proof (Z.div_mod a0 2 ltac:(done)). rewrite Z2Nat.id by (apply Z.div_pos; lia). lia.
Qed.

Lemma sat_alpn fuel d n pos acc :
  0 <= pos -> len d - pos <= Z.of_nat fuel -> sat (alpn_loop fuel d n pos acc) (fun _ => True).
Proof.
  revert n pos acc. induction fuel as [|fuel IH]; intros n pos acc Hp Hf; cbn [alpn_loop];
    (destruct ((0 <? n) && (pos <? len d)) eqn:Hc; [|done]); zbool; [lia|].
  safe. pose proof (byte_Z_range a). destruct (Z.ltb_spec (len d) (pos + 1 + byte_Z a)); [done|].
  apply sat_bind. eapply (sat_mono _ (fun _ => True)).
  - destruct (0 <? byte_Z a); [|done]. apply sat_bind. eapply sat_mono; [apply sat_range; lia|done].
  - intros acc' _. apply IH; lia.
Qed.

Lemma sat_ext t d h : sat (handle_ext t d h) (fun _ => True).
Proof.
  unfold handle_ext. destruct (t =? 0).
  { destruct (Z.leb_spec 5 (len d)); [|done]. safe. destruct (byte_Z a =? 0); [|done]. safe. safe. unfold in_range in *.
    destruct (Z.leb_spec (5 + a1) (len d)); [|done]. by safe. }
  destruct (t =? 10). { apply sat_bind. eapply sat_mono; [apply sat_vector|done]. }
  destruct (t =? 11).
  { destruct (Z.leb_spec 1 (len d)); [|done]. safe. pose proof (byte_Z_range a).
    destruct (Z.leb_spec (byte_Z a) (len d - 1)); [|done]. by safe. }
  destruct (t =? 13). { apply sat_bind. eapply sat_mono; [apply sat_vector|done]. }
  destruct (t =? 16); [|done]. destruct (Z.leb_spec 2 (len d)); [|done]. safe. safe. safe.
  apply sat_bind. eapply sat_mono; [apply sat_alpn; [lia|unfold len; lia]|done].
Qed.

Lemma sat_exts fuel body extEnd off h :
  0 <= off -> extEnd <= len body -> extEnd - off <= Z.of_nat fuel -> sat (ext_loop fuel body extEnd off h) (fun _ => True).
Proof.
  revert off h. induction fuel as [|fuel IH]; intros off h Ho He Hf; cbn [ext_loop];
    (destruct (Z.leb_spec (off + 4) extEnd); [|done]); [lia|]. safe. safe. safe. unfold in_range in *.
  set (n := if len a1 <? a0 then len a1 else a0). assert (0 <= n <= len a1) by (subst n; destruct (Z.ltb_spec (len a1) a0); lia).
  apply sat_bind. eapply sat_mono; [apply sat_range; lia|]. intros d _. apply sat_bind.
  eapply sat_mono; [apply sat_ext|]. intros h' _. apply IH; lia.
Qed.

Lemma sat_body body : sat (parse_body body) (fun _ => True).
Proof.
  unfold parse_body. destruct (Z.ltb_spec (len body) 2); [done|]. safe.
  destruct (Z.ltb_spec (len body) (2 + 32)); [done|]. destruct (Z.ltb_spec (len body) (34 + 1)); [done|]. safe.
  pose proof (byte_Z_range a0). set (o1 := 34 + (1 + byte_Z a0)). destruct (Z.ltb_spec (len body) (o1 + 2)); [done|]. safe.
  destruct (negb _ || _) eqn:Hc; [done|]. zbool. unfold in_range in *. apply sat_bind.
  eapply sat_mono; [apply (sat_u16s _ _ _ (len body)); [|lia|]|].
  - intros o Ho Hb. unfold be_range. safe. apply sat_uint16. lia.
  - pose proof (Z.div_mod a1 2 ltac:(done)). rewrite Z2Nat.id by (apply Z.div_pos; lia). lia.
  - intros ciphers _. destruct (Z.ltb_spec (len body) (o1 + 2 + a1 + 1)); [done|]. safe. pose proof (byte_Z_range a2).
    set (o2 := o1 + 2 + a1 + (1 + byte_Z a2)). destruct (Z.ltb_spec (len body) (o2 + 2)); [done|]. safe. unfold in_range in *.
    set (extEnd := if _ <? _ then _ else _). assert (extEnd <= len body) by (subst extEnd; destruct (Z.ltb_spec (len body) (o2 + 2 + a3)); lia).
    apply sat_exts; [lia|done|unfold len in *; lia].
Qed.

(** The ClientHello parser is safe on every input: for any bytes,
    and whatever lengths they claim, it ends with the parsed fields or an
    error; no slice access is out of range and no loop runs for ever. *)
Theorem ParseClientHello_safe (data : slice) :
  (exists h, ParseClientHello data = Ok h) \/ (exists e, ParseClientHello data = Err e).
Proof.
  enough (sat (ParseClientHello data) (fun _ => True)) as Hs by (destruct (ParseClientHello data); [eauto|eauto|done]).
  unfold ParseClientHello. destruct (Z.ltb_spec (len data) 5); [done|]. safe. destruct (negb _); [done|].
  safe. safe. safe. safe. unfold in_range in *. destruct (Z.ltb_spec (len data) (a3 + 5)); [done|]. safe.
  apply sat_bind. eapply (sat_mono _ (fun _ => True)).
  - destruct (_ <? _); [|done]. eapply sat_mono; [apply sat_range; lia|done].
  - intros hs _. unfold parseClientHelloHandshake. destruct (Z.ltb_spec (len hs) 4); [done|]. safe. destruct (negb _); [done|].
    safe. safe. safe. set (n := Z.lor _ _). assert (0 <= n).
    { subst n. pose proof (byte_Z_range a6). pose proof (byte_Z_range a7). pose proof (byte_Z_range a8).
      rewrite !Z.lor_nonneg, !Z.shiftl_nonneg. lia. }
    destruct (Z.ltb_spec (len hs) (n + 4)); [done|]. safe. apply sat_body.
Qed.

(** ** Reading an encoding

    [sees s off l]: from [off] to the end, [s] holds [l]. *)
Definition sees (s : slice) (off : Z) (l : list byte) : Prop :=
  0 <= off <= len s /\ drop (Z.to_nat off) (sl_data s) = l.

Lemma sees_len s off l : sees s off l -> len s = off + Z.of_nat (length l).
Proof. intros [Ho <-]. rewrite length_drop. unfold len in *. lia. Qed.

Lemma sees_all s l : sl_data s = l -> sees s 0 l.
Proof. intros <-. split; [pose proof (len_nonneg s); lia|]. by rewrite drop_0. Qed.

Lemma sees_skip s off a b : sees s off (a ++ b) -> sees s (off + Z.of_nat (length a)) b.
Proof.
  intros Hs. pose proof (sees_len _ _ _ Hs) as Hl. rewrite length_app in Hl. destruct Hs as [Ho Hd]. split; [lia|].
  replace (Z.to_nat (off + Z.of_nat (length a))) with (Z.to_nat off + length a)%nat by lia.
  by rewrite <- drop_drop, Hd, drop_app_length.
Qed.

Lemma sees_at s off off' a b : sees s off (a ++ b) -> off' = off + Z.of_nat (length a) -> sees s off' b.
Proof. intros Hs ->. by apply sees_skip. Qed.

Lemma sees_range {E} s off hi a b :
  sees s off (a ++ b) -> hi = off + Z.of_nat (length a) -> exists sp, slice_range (E:=E) s off hi = Ok (mk_slice a sp).
Proof.
  intros Hs ->. pose proof (sees_len _ _ _ Hs) as Hl. rewrite length_app in Hl. destruct Hs as [Ho Hd].
  destruct (slice_range_data (E:=E) s off (off + Z.of_nat (length a))) as [sp Hr]; [lia..|].
  exists sp. rewrite Hr, Hd. do 2 f_equal. rewrite take_app_exact; [done|lia].
Qed.

Lemma sees_from {E} s off l : sees s off l -> exists sp, slice_from (E:=E) s off = Ok (mk_slice l sp).
Proof. intros [Ho <-]. apply slice_from_data. lia. Qed.

Lemma sees_byte {E} s off b l : sees s off (b :: l) -> slice_index (E:=E) s off = Ok b.
Proof.
  intros Hs. pose proof (sees_len _ _ _ Hs) as Hl. cbn [length] in Hl. destruct Hs as [Ho Hd].
  rewrite slice_index_data by lia. by rewrite Hd.
Qed.

Lemma uint16_prefix {E} v l sp : in_range 16 v -> be_uint (E:=E) 2 (mk_slice (be_split 2 v ++ l) sp) = Ok v.
Proof.
  intros Hv. unfold be_uint, len. cbn [sl_data]. rewrite length_app, length_be_split, (proj2 (Z.ltb_ge _ _)) by lia.
  rewrite take_app_exact by (by rewrite length_be_split). by rewrite be_combine_split_id.
Qed.

Lemma sees_uint16 {E} s off v l : sees s off (be_split 2 v ++ l) -> in_range 16 v -> be_at (E:=E) 2 s off = Ok v.
Proof. intros Hs Hv. unfold be_at. destruct (sees_from (E:=E) s off _ Hs) as [sp ->]. by apply uint16_prefix. Qed.

(** ** The wire format of a hello message *)
Definition enc_u16s (l : list Z) : list byte := concat (map (be_split 2) l).
Definition vec8 (l : list byte) : list byte := Z_byte (Z.of_nat (length l)) :: l.
Definition vec16 (l : list byte) : list byte := be_split 2 (Z.of_nat (length l)) ++ l.

Inductive extension :=
| ServerName (host : list byte) | SupportedGroups (l : list Z) | PointFormats (l : list byte)
| SignatureAlgorithms (l : list Z) | Alpn (protos : list (list byte)) | Opaque (t : Z) (data : list byte).

Definition ext_type (x : extension) : Z :=
  match x with
  | ServerName _ => 0 | SupportedGroups _ => 10 | PointFormats _ => 11 | SignatureAlgorithms _ => 13 | Alpn _ => 16
  | Opaque t _ => t
  end.

Definition ext_data (x : extension) : list byte :=
  match x with
  | ServerName host => be_split 2 (Z.of_nat (length host) + 3) ++ (Byte.x00 :: vec16 host)
  | SupportedGroups l | SignatureAlgorithms l => vec16 (enc_u16s l)
  | PointFormats l => vec8 l
  | Alpn protos => vec16 (concat (map vec8 protos))
  | Opaque _ data => data
  end.

Definition enc_ext (x : extension) : list byte := be_split 2 (ext_type x) ++ vec16 (ext_data x).

Record hello := mkHelloMsg {
  hm_version : Z; hm_random : list byte; hm_session : list byte; hm_ciphers : list Z; hm_compression : list byte;
  hm_exts : list extension }.

Definition enc_body (m : hello) : list byte :=
  be_split 2 (hm_version m) ++ hm_random m ++ vec8 (hm_session m) ++ vec16 (enc_u16s (hm_ciphers m)) ++
  vec8 (hm_compression m) ++ vec16 (concat (map enc_ext (hm_exts m))).
Definition enc_handshake (m : hello) : list byte :=
  Byte.x01 :: be_split 3 (Z.of_nat (length (enc_body m))) ++ enc_body m.

(** What each extension says of the client. *)
Definition apply_ext (h : ClientHelloFields) (x : extension) : ClientHelloFields :=
  let h := set_Extensions (ch_Extensions h ++ [ext_type x]) h in
  match x with
  | ServerName host => set_SNI (bytes_string host) h
  | SupportedGroups l => set_Curves l h
  | PointFormats l => set_PointFmts (map byte_Z l) h
  | SignatureAlgorithms l => set_SignAlgos l h
  | Alpn protos => set_ALPN (ch_ALPN h ++ map bytes_string protos) h
  | Opaque _ _ => h
  end.
Definition hello_fields (m : hello) : ClientHelloFields :=
  foldl apply_ext (mkHello (hm_version m) (hm_ciphers m) [] [] [] ""%string [] []) (hm_exts m).

Definition fits (k : Z) (l : list byte) : Prop := Z.of_nat (length l) < k.

(** The lengths fit their fields. *)
Definition ext_wf (x : extension) : Prop :=
  fits 65536 (ext_data x) /\
  match x with
  | ServerName _ => True
  | SupportedGroups l | SignatureAlgorithms l => Forall (in_range 16) l
  | PointFormats l => fits 256 l
  | Alpn protos => Forall (fun p => p <> [] /\ fits 256 p) protos
  | Opaque t _ => in_range 16 t /\ t ∉ [0; 10; 11; 13; 16]
  end.
Record hello_wf (m : hello) : Prop := {
  hw_version : in_range 16 (hm_version m);
  hw_random : length (hm_random m) = 32%nat;
  hw_session : fits 256 (hm_session m);
  hw_ciphers : Forall (in_range 16) (hm_ciphers m);
  hw_ciphers_len : fits 65536 (enc_u16s (hm_ciphers m));
  hw_compression : fits 256 (hm_compression m);
  hw_exts : Forall ext_wf (hm_exts m);
  hw_exts_len : fits 65536 (concat (map enc_ext (hm_exts m)));
  hw_len : fits (2 ^ 24) (enc_body m) }.

Lemma length_u16s l : length (enc_u16s l) = (2 * length l)%nat.
Proof. induction l as [|v l IH]; [done|]. unfold enc_u16s in *. cbn [map concat length]. rewrite length_app, length_be_split, IH. lia. Qed.

Lemma byte_len l : fits 256 l -> byte_Z (Z_byte (Z.of_nat (length l))) = Z.of_nat (length l).
Proof. unfold fits. intros. rewrite byte_Z_byte, Z.mod_small by lia. done. Qed.

Lemma u16_len l : fits 65536 l -> in_range 16 (Z.of_nat (length l)).
Proof. unfold fits, in_range. lia. Qed.

Lemma read_u16s_enc rd l off (s : slice) rest :
  (forall o v r, sees s o (be_split 2 v ++ r) -> in_range 16 v -> rd o = Ok v) ->
  sees s off (enc_u16s l ++ rest) -> Forall (in_range 16) l -> read_u16s rd (length l) off = Ok l.
Proof.
  intros Hrd. revert off. induction l as [|v l IH]; intros off Hs Hl; [done|]. inversion Hl as [|? ? Hv Hl']; subst.
  unfold enc_u16s in Hs. cbn [map concat length read_u16s] in *. rewrite <- app_assoc in Hs.
  rewrite (Hrd _ _ _ Hs Hv). cbn [mbind result_bind].
  rewrite (IH (off + 2)); [done| |done]. eapply sees_at; [exact Hs|]. by rewrite length_be_split.
Qed.

Lemma u16_vector_enc l sp :
  Forall (in_range 16) l -> fits 65536 (vec16 (enc_u16s l)) -> u16_vector (mk_slice (vec16 (enc_u16s l)) sp) = Ok (Some l).
Proof.
  intros Hl Hf. unfold u16_vector. set (d := mk_slice _ sp).
  assert (sees d 0 (be_split 2 (Z.of_nat (length (enc_u16s l))) ++ enc_u16s l)) as Hs by (by apply sees_all).
  pose proof (sees_len _ _ _ Hs) as Hlen. rewrite length_app, length_be_split in Hlen. unfold fits, vec16 in Hf.
  rewrite length_app, length_be_split in Hf.
  assert (in_range 16 (Z.of_nat (length (enc_u16s l)))) as Hn by (unfold in_range; lia).
  rewrite (proj2 (Z.leb_le 2 (len d))) by lia.
  destruct (sees_range (E:=ja3_error) d 0 2 _ _ Hs) as [sp1 E1]; [by rewrite length_be_split|]. unfold slice_to. rewrite E1.
  cbn [mbind result_bind]. rewrite <- (app_nil_r (be_split _ _)), uint16_prefix by done.
  apply sees_skip in Hs. rewrite length_be_split in Hs.
  destruct (sees_from (E:=ja3_error) d 2 _ Hs) as [sp2 E2]. cbn [mbind result_bind]. rewrite E2. cbn [mbind result_bind].
  unfold len at 1. cbn [sl_data]. rewrite length_u16s in *.
  replace (Z.of_nat (2 * length l)) with (Z.of_nat (length l) * 2) in * by lia.
  rewrite Z_mod_mult, Z.div_mul, (proj2 (Z.leb_le _ _)) by lia. cbn [andb Z.eqb]. rewrite Nat2Z.id.
  rewrite (read_u16s_enc _ l 0 (mk_slice (enc_u16s l) sp2) []); [done| |by apply sees_all; rewrite app_nil_r|done].
  intros o v r Ho Hv. by eapply sees_uint16.
Qed.

Lemma length_vec8 l : length (vec8 l) = S (length l).
Proof. done. Qed.

Lemma length_vec16 l : length (vec16 l) = (2 + length l)%nat.
Proof. unfold vec16. by rewrite length_app, length_be_split. Qed.

Lemma alpn_enc protos fuel d pos acc :
  sees d pos (concat (map vec8 protos)) -> Forall (fun p => p <> [] /\ fits 256 p) protos ->
  (length (concat (map vec8 protos)) <= fuel)%nat ->
  alpn_loop fuel d (Z.of_nat (length (concat (map vec8 protos)))) pos acc = Ok (acc ++ map bytes_string protos).
Proof.
  revert fuel pos acc. induction protos as [|p protos IH]; intros fuel pos acc Hs Hp Hf.
  { destruct fuel; cbn; by rewrite app_nil_r. }
  inversion Hp as [|? ? [Hne H256] Hp']; subst. cbn [map concat] in *. rewrite length_app, length_vec8 in *.
  pose proof (sees_len _ _ _ Hs) as Hl. rewrite length_app, length_vec8 in Hl.
  destruct fuel as [|fuel]; [lia|]. cbn [alpn_loop].
  rewrite (proj2 (Z.ltb_lt 0 _)), (proj2 (Z.ltb_lt pos (len d))) by lia. cbn [andb].
  unfold vec8 at 1 in Hs. cbn [app] in Hs. rewrite (sees_byte _ _ _ _ Hs). cbn [mbind result_bind]. rewrite byte_len by done.
  assert (sees d (pos + 1) (p ++ concat (map vec8 protos))) as Hs1 by (apply (sees_at d pos _ [_] _ Hs); done).
  rewrite (proj2 (Z.ltb_ge _ _)) by lia.
  assert ((0 <? Z.of_nat (length p)) = true) as -> by (destruct p; [done|]; apply Z.ltb_lt; cbn [length]; lia).
  destruct (sees_range (E:=ja3_error) d (pos + 1) (pos + 1 + Z.of_nat (length p)) _ _ Hs1) as [sp ->]; [done|].
  cbn [mbind result_bind sl_data].
  replace (Z.of_nat (S (length p) + length (concat (map vec8 protos))) - (1 + Z.of_nat (length p)))
    with (Z.of_nat (length (concat (map vec8 protos)))) by lia.
  rewrite IH; [by rewrite <- app_assoc|by apply sees_skip|done|lia].
Qed.

Lemma handle_ext_enc x sp h : ext_wf x ->
  handle_ext (ext_type x) (mk_slice (ext_data x) sp) (set_Extensions (ch_Extensions h ++ [ext_type x]) h) = Ok (apply_ext h x).
Proof.
  intros [Hfit Hx]. unfold handle_ext, apply_ext. set (h1 := set_Extensions _ h).
  set (d := mk_slice (ext_data x) sp). assert (sees d 0 (ext_data x)) as Hs by (by apply sees_all).
  pose proof (sees_len _ _ _ Hs) as Hl. unfold fits in Hfit. destruct x as [host|l|l|l|protos|t data]; cbn [ext_type ext_data] in *.
  - rewrite length_app, length_be_split in *. cbn [length] in *. rewrite length_vec16 in *. cbn [Z.eqb].
    rewrite (proj2 (Z.leb_le 5 (len d))) by lia. apply sees_skip in Hs. rewrite length_be_split in Hs.
    rewrite (sees_byte _ _ _ _ Hs). cbn [mbind result_bind]. change (byte_Z Byte.x00 =? 0) with true.
    apply (sees_at d _ 3 [_]) in Hs; [|done]. unfold vec16 in Hs.
    destruct (sees_range (E:=ja3_error) d 3 5 _ _ Hs) as [sp1 ->]; [by rewrite length_be_split|]. cbn [mbind result_bind].
    rewrite <- (app_nil_r (be_split _ _)), uint16_prefix by (unfold in_range; lia).
    cbn [mbind result_bind]. rewrite (proj2 (Z.leb_le _ (len d))) by lia.
    apply sees_skip in Hs. rewrite length_be_split in Hs. rewrite <- (app_nil_r host) in Hs.
    destruct (sees_range (E:=ja3_error) d (3 + 2) (5 + Z.of_nat (length host)) _ _ Hs) as [sp2 E2]; [lia|].
    change (3 + 2) with 5 in E2. cbn [mbind result_bind]. by rewrite E2.
  - cbn [Z.eqb Pos.eqb]. subst d. by rewrite u16_vector_enc.
  - rewrite length_vec8 in *. cbn [Z.eqb Pos.eqb]. rewrite (proj2 (Z.leb_le 1 (len d))) by lia.
    rewrite (sees_byte _ _ _ _ Hs). cbn [mbind result_bind]. rewrite byte_len by done. rewrite (proj2 (Z.leb_le _ (len d - 1))) by lia.
    apply (sees_at d _ 1 [_]) in Hs; [|done]. rewrite <- (app_nil_r l) in Hs.
    by destruct (sees_range (E:=ja3_error) d 1 (1 + Z.of_nat (length l)) _ _ Hs) as [sp1 ->].
  - cbn [Z.eqb Pos.eqb]. subst d. by rewrite u16_vector_enc.
  - rewrite length_vec16 in *. cbn [Z.eqb Pos.eqb]. rewrite (proj2 (Z.leb_le 2 (len d))) by lia. unfold vec16 in Hs.
    destruct (sees_range (E:=ja3_error) d 0 2 _ _ Hs) as [sp1 E1]; [by rewrite length_be_split|]. unfold slice_to. rewrite E1.
    cbn [mbind result_bind]. rewrite <- (app_nil_r (be_split _ _)), uint16_prefix by (unfold in_range; lia).
    apply sees_skip in Hs. rewrite length_be_split in Hs. destruct (sees_from (E:=ja3_error) d (0 + 2) _ Hs) as [sp2 E2].
    change (0 + 2) with 2 in E2. cbn [mbind result_bind]. rewrite E2. cbn [mbind result_bind sl_data].
    by rewrite alpn_enc; [|by apply sees_all| |].
  - destruct Hx as [_ Hx]. rewrite !not_elem_of_cons in Hx. destruct Hx as (? & ? & ? & ? & ? & _).
    by rewrite !(proj2 (Z.eqb_neq _ _)) by done.
Qed.

Lemma ext_type_range x : ext_wf x -> in_range 16 (ext_type x).
Proof. intros [_ Hx]. destruct x; cbn [ext_type]; try (unfold in_range; lia). apply Hx. Qed.

Lemma length_enc_ext x : length (enc_ext x) = (4 + length (ext_data x))%nat.
Proof. unfold enc_ext. by rewrite length_app, length_be_split, length_vec16. Qed.

Lemma ext_loop_enc exts fuel body off h extEnd rest :
  sees body off (concat (map enc_ext exts) ++ rest) -> Forall ext_wf exts ->
  extEnd = off + Z.of_nat (length (concat (map enc_ext exts))) -> (length (concat (map enc_ext exts)) <= fuel)%nat ->
  ext_loop fuel body extEnd off h = Ok (foldl apply_ext h exts).
Proof.
  revert fuel off h. induction exts as [|x exts IH]; intros fuel off h Hs Hx He Hf.
  { subst extEnd. cbn [map concat length]. destruct fuel; cbn [ext_loop]; by rewrite (proj2 (Z.leb_gt _ _)) by lia. }
  inversion Hx as [|? ? Hwf Hx']; subst. cbn [map concat] in *. rewrite length_app, length_enc_ext in *.
  unfold enc_ext at 1 in Hs. rewrite <- !app_assoc in Hs.
  destruct fuel as [|fuel]; [lia|]. cbn [ext_loop]. rewrite (proj2 (Z.leb_le _ _)) by lia.
  rewrite (sees_uint16 _ _ _ _ Hs) by (by apply ext_type_range). cbn [mbind result_bind].
  apply sees_skip in Hs. rewrite length_be_split in Hs. unfold vec16 in Hs. rewrite <- app_assoc in Hs.
  destruct Hwf as [Hfit Hwf']. rewrite (sees_uint16 _ _ _ _ Hs) by (by apply u16_len). cbn [mbind result_bind].
  apply sees_skip in Hs. rewrite length_be_split in Hs. change (off + Z.of_nat 2 + Z.of_nat 2) with (off + 2 + 2) in Hs.
  replace (off + 2 + 2) with (off + 4) in Hs by lia.
  destruct (sees_from (E:=ja3_error) body (off + 4) _ Hs) as [sp ->]. cbn [mbind result_bind].
  set (t := mk_slice _ sp). assert (sees t 0 (ext_data x ++ concat (map enc_ext exts) ++ rest)) as Ht by (by apply sees_all).
  pose proof (sees_len _ _ _ Ht) as Hl. rewrite length_app in Hl. rewrite (proj2 (Z.ltb_ge _ _)) by lia.
  destruct (sees_range (E:=ja3_error) t 0 (Z.of_nat (length (ext_data x))) _ _ Ht) as [sp1 E1]; [lia|].
  unfold slice_to. rewrite E1. cbn [mbind result_bind]. rewrite handle_ext_enc by done. cbn [mbind result_bind foldl].
  apply IH; [|done|lia|lia]. eapply sees_at; [exact Hs|lia].
Qed.

Lemma be_range_enc s o v r : sees s o (be_split 2 v ++ r) -> in_range 16 v -> be_range s o = Ok v.
Proof.
  intros Ho Hv. unfold be_range. destruct (sees_range (E:=ja3_error) s o (o + 2) _ _ Ho) as [sp ->]; [by rewrite length_be_split|].
  cbn [mbind result_bind]. rewrite <- (app_nil_r (be_split _ _)). by apply uint16_prefix.
Qed.

Lemma parse_body_enc m body : hello_wf m -> sl_data body = enc_body m -> parse_body body = Ok (hello_fields m).
Proof.
  intros [Hv Hr Hsid Hc Hcl Hcomp Hx Hxl _] Hd. unfold enc_body in Hd. apply sees_all in Hd. pose proof (sees_len _ _ _ Hd) as Hl.
  rewrite !length_app, length_be_split, Hr, !length_vec8, !length_vec16 in Hl. unfold parse_body.
  assert (Hext := u16_len _ Hxl). pose proof (u16_len _ Hcl) as Hcs. pose proof (Nat2Z.is_nonneg (length (hm_session m))).
  rewrite (proj2 (Z.ltb_ge (len body) 2)) by lia. rewrite (sees_uint16 _ _ _ _ Hd Hv). cbn [mbind result_bind].
  rewrite (proj2 (Z.ltb_ge (len body) (2 + 32))), (proj2 (Z.ltb_ge (len body) (34 + 1))) by lia.
  apply (sees_at _ _ 2) in Hd; [|by rewrite length_be_split]. apply (sees_at _ _ 34) in Hd; [|by rewrite Hr].
  assert (Hsb := Hd). unfold vec8 at 1 in Hsb. rewrite <- app_comm_cons in Hsb. rewrite (sees_byte _ _ _ _ Hsb). clear Hsb.
  cbn [mbind result_bind]. rewrite byte_len by done. set (o1 := 34 + (1 + Z.of_nat (length (hm_session m)))).
  apply (sees_at _ _ o1) in Hd; [|rewrite length_vec8; lia]. rewrite (proj2 (Z.ltb_ge _ (o1 + 2))) by lia.
  unfold vec16 at 1 in Hd. rewrite <- app_assoc in Hd. rewrite (sees_uint16 _ _ _ _ Hd) by done. cbn [mbind result_bind].
  apply (sees_at _ _ (o1 + 2)) in Hd; [|by rewrite length_be_split].
  rewrite length_u16s in *. replace (Z.of_nat (2 * length (hm_ciphers m))) with (Z.of_nat (length (hm_ciphers m)) * 2) by lia.
  rewrite Z_mod_mult, Z.div_mul, (proj2 (Z.ltb_ge _ _)) by lia. cbn [negb orb Z.eqb]. rewrite Nat2Z.id.
  rewrite (read_u16s_enc (be_range body) _ _ body _ (be_range_enc body) Hd Hc). cbn [mbind result_bind].
  set (o2 := o1 + 2 + Z.of_nat (length (hm_ciphers m)) * 2). apply (sees_at _ _ o2) in Hd; [|rewrite length_u16s; lia].
  rewrite (proj2 (Z.ltb_ge _ (o2 + 1))) by lia.
  assert (Hsb := Hd). unfold vec8 at 1 in Hsb. rewrite <- app_comm_cons in Hsb. rewrite (sees_byte _ _ _ _ Hsb). clear Hsb.
  cbn [mbind result_bind]. rewrite byte_len by done. set (o3 := o2 + (1 + Z.of_nat (length (hm_compression m)))).
  apply (sees_at _ _ o3) in Hd; [|rewrite length_vec8; lia]. rewrite (proj2 (Z.ltb_ge _ (o3 + 2))) by lia.
  unfold vec16 in Hd. rewrite (sees_uint16 _ _ _ _ Hd) by done. cbn [mbind result_bind].
  apply (sees_at _ _ (o3 + 2)) in Hd; [|by rewrite length_be_split]. rewrite (proj2 (Z.ltb_ge _ _)) by lia.
  rewrite (ext_loop_enc (hm_exts m) _ _ _ _ _ []); [done|by rewrite app_nil_r|done|done|]. unfold len in Hl. lia.
Qed.

Lemma be24 n :
  0 <= n < 2 ^ 24 -> exists b1 b2 b3, be_split 3 n = [b1; b2; b3] /\
    Z.lor (Z.lor (Z.shiftl (byte_Z b1) 16) (Z.shiftl (byte_Z b2) 8)) (byte_Z b3) = n.
Proof.
  intros Hn. eexists _, _, _. split; [reflexivity|]. rewrite !byte_Z_byte.
  set (x := n / 256 / 256 mod 256). set (y := n / 256 mod 256). set (z := n mod 256).
  assert (0 <= x < 256 /\ 0 <= y < 256 /\ 0 <= z < 256) as (Hx & Hy & Hz) by (subst x y z; split_and!; apply Z.mod_pos_bound; lia).
  assert (n = z + (y + x * 256) * 256) as En.
  { subst x y z. pose proof (Z.div_mod n 256 ltac:(done)). pose proof (Z.div_mod (n / 256) 256 ltac:(done)).
    rewrite (Z.mod_small (n / 256 / 256)) by (split; [apply Z.div_pos; [apply Z.div_pos|]; lia|];
      apply Z.div_lt_upper_bound; [lia|]; apply Z.div_lt_upper_bound; lia). lia. }
  clearbody x y z. rewrite En, (Z.lor_comm _ z), (Z.lor_comm (Z.shiftl x 16)).
  replace (Z.shiftl x 16) with (Z.shiftl (Z.shiftl x 8) 8) by (rewrite Z.shiftl_shiftl by lia; done).
  rewrite <- Z.shiftl_lor, (lor_shiftl_add y), (lor_shiftl_add z) by (unfold in_range; lia). done.
Qed.

Lemma handshake_enc m hs rest :
  hello_wf m -> sl_data hs = enc_handshake m ++ rest -> parseClientHelloHandshake hs = Ok (hello_fields m).
Proof.
  intros Hm Hd. pose proof (hw_len _ Hm) as Hlen. unfold fits in Hlen.
  destruct (be24 (Z.of_nat (length (enc_body m)))) as (b1 & b2 & b3 & Eb & En); [lia|]. unfold enc_handshake in Hd. rewrite Eb in Hd.
  cbn [app] in Hd. apply sees_all in Hd. pose proof (sees_len _ _ _ Hd) as Hl. cbn [length] in Hl. rewrite length_app in Hl.
  unfold parseClientHelloHandshake. rewrite (proj2 (Z.ltb_ge _ 4)) by lia. rewrite (sees_byte _ _ _ _ Hd). cbn [mbind result_bind].
  change (negb (byte_Z Byte.x01 =? 1)) with false. cbv iota. apply (sees_at _ _ 1 [_]) in Hd; [|done].
  rewrite (sees_byte _ _ _ _ Hd). cbn [mbind result_bind]. apply (sees_at _ _ 2 [_]) in Hd; [|done].
  rewrite (sees_byte _ _ _ _ Hd). cbn [mbind result_bind]. apply (sees_at _ _ 3 [_]) in Hd; [|done].
  rewrite (sees_byte _ _ _ _ Hd). cbn [mbind result_bind]. apply (sees_at _ _ 4 [_]) in Hd; [|done].
  rewrite En, (proj2 (Z.ltb_ge _ _)) by lia.
  destruct (sees_range (E:=ja3_error) hs 4 (4 + Z.of_nat (length (enc_body m))) _ _ Hd) as [sp ->]; [done|]. cbn [mbind result_bind].
  by apply parse_body_enc.
Qed.

(** Claim C32. The parser inverts the TLS encoding: a well-formed ClientHello
    message in a handshake record is parsed into exactly its version, cipher
    suites, extension types, curves, point formats, server name, protocols and
    signature algorithms, in wire order, whatever bytes follow it. The length
    [r] in the record header only has to fit the data: a message longer than
    its record is accepted as well, since the record's end is not enforced. *)
Theorem clienthello_roundtrip (m : hello) (version r : Z) (trailing : list byte) (data : slice) :
  hello_wf m -> in_range 16 version -> in_range 16 r ->
  sl_data data = (Byte.x16 :: be_split 2 version ++ be_split 2 r) ++ enc_handshake m ++ trailing ->
  r + 5 <= len data -> Z.of_nat (length (enc_handshake m)) <= r \/ len data < 5 + 65536 ->
  ParseClientHello data = Ok (hello_fields m).
Proof.
  intros Hm Hv Hr Hd Hfit Hw. rewrite <- app_comm_cons, <- app_assoc in Hd. apply sees_all in Hd. unfold ParseClientHello.
  unfold in_range in Hr. rewrite (proj2 (Z.ltb_ge _ 5)) by lia. rewrite (sees_byte _ _ _ _ Hd). cbn [mbind result_bind].
  change (negb (byte_Z Byte.x16 =? 22)) with false. cbv iota. apply (sees_at _ _ 1 [_]) in Hd; [|done].
  destruct (sees_range (E:=ja3_error) data 1 3 _ _ Hd) as [sp1 ->]; [by rewrite length_be_split|]. cbn [mbind result_bind].
  rewrite <- (app_nil_r (be_split 2 version)), uint16_prefix by done. cbn [mbind result_bind].
  apply (sees_at _ _ 3) in Hd; [|by rewrite length_be_split].
  destruct (sees_range (E:=ja3_error) data 3 5 _ _ Hd) as [sp2 ->]; [by rewrite length_be_split|]. cbn [mbind result_bind].
  rewrite <- (app_nil_r (be_split 2 r)), uint16_prefix by (unfold in_range; lia). cbn [mbind result_bind].
  rewrite (proj2 (Z.ltb_ge _ _)) by lia. apply (sees_at _ _ 5) in Hd; [|by rewrite length_be_split].
  pose proof (sees_len _ _ _ Hd) as Hl. destruct (sees_from (E:=ja3_error) data 5 _ Hd) as [sp3 ->]. cbn [mbind result_bind].
  set (hs := mk_slice _ sp3). assert (len hs = len data - 5) as Hhs by (change (len hs) with (Z.of_nat (length (enc_handshake m ++ trailing))); lia).
  destruct (Z.ltb_spec (u16 (len hs)) r) as [Hlt|Hge]; [|by eapply handshake_enc].
  assert (Z.of_nat (length (enc_handshake m)) <= r) as Hle.
  { destruct Hw as [|Hw]; [done|]. unfold u16 in Hlt. rewrite wrap_id in Hlt by (unfold in_range; lia). lia. }
  unfold slice_to. destruct (slice_range_data (E:=ja3_error) hs 0 r) as [sp4 ->]; [lia..|]. cbn [mbind result_bind].
  apply (handshake_enc m _ (take (Z.to_nat (r - 0) - length (enc_handshake m)) trailing)); [done|].
  cbn [sl_data hs]. change (drop (Z.to_nat 0) ?l) with l. by rewrite take_app_ge by lia.
Qed.

(** ** What the fingerprints identify *)
#[local] Hint Extern 1 (~ digit _) => unfold digit; cbn; lia : core.

Lemma join_hyphens_inj l k :
  Forall (Z.le 0) l -> Forall (Z.le 0) k -> l <> [] -> k <> [] -> join_hyphens l = join_hyphens k -> l = k.
Proof.
  revert k. induction l as [|z l IH]; intros [|y k] Hl Hk Nl Nk E; try done. inversion Hl; inversion Hk; subst.
  destruct l as [|z' l], k as [|y' k].
  - cbn in E. by apply (inj pretty) in E as ->.
  - cbn [join_hyphens] in E. assert (avoids "-"%char (pretty z)) as Ha by auto using pretty_avoids. rewrite E, avoids_app in Ha.
    destruct Ha as [_ [Ha _]]. done.
  - cbn [join_hyphens] in E. assert (avoids "-"%char (pretty y)) as Ha by auto using pretty_avoids. rewrite <- E, avoids_app in Ha.
    destruct Ha as [_ [Ha _]]. done.
  - apply first_sep_inj in E as [Ez E]; [|by auto using pretty_avoids..]. apply (inj pretty) in Ez as ->. f_equal. by apply IH.
Qed.

Lemma join_hyphens_start l : Forall (Z.le 0) l -> l <> [] -> exists c s, join_hyphens l = String c s /\ digit c.
Proof.
  intros Hl Nl. destruct l as [|z l]; [done|]. inversion Hl; subst. destruct (pretty_digits z) as [Hd Hn]; [done|].
  destruct (pretty z) as [|c s] eqn:Ez; [done|]. exists c. destruct l; cbn [join_hyphens]; rewrite Ez; cbn; eexists; (split; [reflexivity|apply Hd]).
Qed.

Lemma number_list_inj l k : Forall (Z.le 0) l -> Forall (Z.le 0) k -> number_list l = number_list k -> l = k.
Proof.
  intros Hl Hk E. destruct l as [|z l], k as [|y k]; [done| | |by apply join_hyphens_inj].
  - destruct (join_hyphens_start (y :: k) Hk) as (c & s & Ej & Hc); [done|]. cbn [number_list] in E. rewrite Ej in E.
    injection E as <- _. unfold digit in Hc; cbn in Hc; lia.
  - destruct (join_hyphens_start (z :: l) Hl) as (c & s & Ej & Hc); [done|]. cbn [number_list] in E. rewrite Ej in E.
    injection E as -> _. unfold digit in Hc; cbn in Hc; lia.
Qed.

Lemma number_list_no_comma l : Forall (Z.le 0) l -> avoids ","%char (number_list l).
Proof.
  intros Hl. destruct l as [|z l]; [done|]. unfold number_list. revert z Hl. induction l as [|y l IH]; intros z Hl; inversion Hl; subst.
  - cbn. by auto using pretty_avoids.
  - change (join_hyphens (z :: y :: l)) with (pretty z +:+ "-" +:+ join_hyphens (y :: l))%string.
    rewrite !avoids_app. split_and!; [by auto using pretty_avoids|done|by apply IH].
Qed.

(** The text that JA3 hashes loses nothing: two hellos have the same
    text exactly when they agree on version, cipher suites, extensions, curves
    and point formats, each in wire order. So two clients share a JA3 hash only
    if they agree on all five or the hash collides. *)
Theorem JA3_input_exact (g h : ClientHelloFields) :
  let numbers f := 0 <= ch_Version f /\ Forall (Z.le 0) (ch_Ciphers f) /\ Forall (Z.le 0) (ch_Extensions f) /\
    Forall (Z.le 0) (ch_Curves f) /\ Forall (Z.le 0) (ch_PointFmts f) in
  numbers g -> numbers h ->
  JA3_input g = JA3_input h <->
  ch_Version g = ch_Version h /\ ch_Ciphers g = ch_Ciphers h /\ ch_Extensions g = ch_Extensions h /\
  ch_Curves g = ch_Curves h /\ ch_PointFmts g = ch_PointFmts h.
Proof.
  intros numbers (Hv & Hc & He & Hu & Hp) (Hv' & Hc' & He' & Hu' & Hp'). split.
  - unfold JA3_input. intros E. apply first_sep_inj in E as [Ev E]; [|by auto using pretty_avoids..].
    apply first_sep_inj in E as [Ec E]; [|by apply number_list_no_comma..].
    apply first_sep_inj in E as [Ee E]; [|by apply number_list_no_comma..].
    apply first_sep_inj in E as [Eu Ep]; [|by apply number_list_no_comma..].
    apply (inj pretty) in Ev. split_and!; [done|by apply number_list_inj..].
  - unfold JA3_input. intros (-> & -> & -> & -> & ->). done.
Qed.

(** Claim C33. JA4 ignores the order of cipher suites and extensions: two
    hellos of the same version and server name whose cipher suites and
    extensions are permutations of each other have the same fingerprint, for
    every hash function, so a client that shuffles its extensions is still
    recognised. JA3S sorts its extensions in the same way. *)
Theorem JA4_order_free (md5 sha256 : list byte -> list byte) (g h : ClientHelloFields) (s t : ServerHelloFields) :
  ch_Version g = ch_Version h -> ch_SNI g = ch_SNI h ->
  ch_Ciphers g ≡ₚ ch_Ciphers h -> ch_Extensions g ≡ₚ ch_Extensions h ->
  sh_Version s = sh_Version t -> sh_Cipher s = sh_Cipher t -> sh_Extensions s ≡ₚ sh_Extensions t ->
  JA4 sha256 g = JA4 sha256 h /\ JA3S md5 s = JA3S md5 t.
Proof.
  intros Ev Es Hc He Ev' Ec' He'. split.
  - assert (forall l k, l ≡ₚ k -> sorted_codes l = sorted_codes k) as Hs.
    { intros l k Hp. unfold sorted_codes. f_equal. apply merge_sort_perm. by apply Permutation_map. }
    unfold JA4. by rewrite Ev, Es, (Permutation_length Hc), (Hs _ _ Hc), (Hs _ _ He).
  - unfold JA3S, JA3S_input. rewrite Ev', Ec'. do 6 f_equal. unfold sortUint16. do 2 f_equal.
    apply (StronglySorted_unique Z.le).
    + apply StronglySorted_merge_sort; apply _.
    + apply StronglySorted_merge_sort; apply _.
    + by rewrite !merge_sort_Permutation.
Qed.

(** ** Witnesses *)
Module Example_ja3.
Definition sample : hello :=
  mkHelloMsg 0x0303 (repeat Byte.x00 32) [] [4865; 4866] [Byte.x00]
    [ServerName (string_bytes "a.b"); SupportedGroups [29; 23]; Alpn [string_bytes "h2"]; Opaque 43 [Byte.x02]].

Definition sample_bytes : list byte :=
  (Byte.x16 :: be_split 2 0x0301 ++ be_split 2 7) ++ enc_handshake sample ++ [Byte.x17].

Lemma sample_wf : hello_wf sample.
Proof.
  split; repeat first [ reflexivity | constructor ]; try (vm_compute; congruence); try (vm_compute; intuition congruence).
  cbn. rewrite !not_elem_of_cons. split_and!; try lia. apply not_elem_of_nil.
Qed.

(** The record claims 7 bytes; the message of 81 is read all the same. *)
Lemma clienthello_roundtrip_witness :
  exists h, ParseClientHello (of_bytes sample_bytes) = Ok h /\ ch_SNI h = "a.b"%string /\ ch_Ciphers h = [4865; 4866] /\
    ch_Extensions h = [0; 10; 16; 43] /\ ch_Curves h = [29; 23] /\ ch_ALPN h = ["h2"%string].
Proof.
  eexists. split.
  - apply (clienthello_roundtrip sample 0x0301 7 [Byte.x17] (of_bytes sample_bytes)).
    + exact sample_wf.
    + split; vm_compute; congruence.
    + split; vm_compute; congruence.
    + reflexivity.
    + vm_compute. congruence.
    + right. vm_compute. reflexivity.
  - split_and!; reflexivity.
Defined.

Lemma JA3_input_witness :
  JA3_input (mkHello 771 [1; 2] [] [] [] ""%string [] []) <> JA3_input (mkHello 771 [12] [] [] [] ""%string [] []).
Proof.
  destruct (JA3_input_exact (mkHello 771 [1; 2] [] [] [] ""%string [] []) (mkHello 771 [12] [] [] [] ""%string [] [])) as [Hi _].
  - cbn. split_and!; [lia|repeat first [apply Forall_nil_2 | apply Forall_cons_2; [lia|]]..].
  - cbn. split_and!; [lia|repeat first [apply Forall_nil_2 | apply Forall_cons_2; [lia|]]..].
  - intros E. destruct (Hi E) as (_ & Ec & _). discriminate Ec.
Defined.

Lemma JA4_order_witness :
  JA4 (fun l => l) (mkHello 771 [1; 2] [10; 0] [] [] "a.b"%string [] []) =
  JA4 (fun l => l) (mkHello 771 [2; 1] [0; 10] [] [] "a.b"%string [] []).
Proof.
  destruct (JA4_order_free (fun l => l) (fun l => l) (mkHello 771 [1; 2] [10; 0] [] [] "a.b"%string [] [])
    (mkHello 771 [2; 1] [0; 10] [] [] "a.b"%string [] []) (mkServerHello 771 1 []) (mkServerHello 771 1 [])) as [E _];
    [reflexivity|reflexivity|apply perm_swap|apply perm_swap|reflexivity|reflexivity|reflexivity|exact E].
Defined.
End Example_ja3.
