(* ===== verification/Enforcer.v ===== *)
(** * Enforcement

    Models src/internal/enforcer: the dispatch and the actions of enforcer.go,
    kill.go and lsm.go with their audit entries, and the block backends as far
    as the actions use them (the UID rules of nftables.go and iptables.go, the
    address and port maps of xdp.go). The answers of the operating system to
    one call are an argument ([osys]), and what the call changes outside the
    program is recorded in a trace of effects. Theorems: what each action may
    touch, that it leaves exactly one audit entry with the right verdict, how
    dry-run mode behaves, throttle bookkeeping, block lists. *)
From S2P Require Import Prelude GoBytes Types Fields RuleTypes Lineage TraceCtx.
From Stdlib Require Import Strings.Ascii.
From stdpp Require Import pretty.
#[local] Open Scope Z_scope.

(** ** Names shown in logs: [sanitizeComm] *)

(** [fmt.Sprintf(`\x%02x`, z)] *)
Definition hex_escape (z : Z) : list byte := string_bytes ("\x" +:+ zero_pad 2 (hex z)).

Fixpoint sanitize_loop (fuel : nat) (raw : list byte) : list byte :=
  match fuel, raw with
  | S fuel, b :: rest =>
      let '(r, size) := DecodeRune raw in
      if (r =? RuneError) && Nat.eqb size 1 then hex_escape (byte_Z b) ++ sanitize_loop fuel rest
      else if (r <? 0x20) || (r =? 0x7f) then hex_escape r ++ sanitize_loop fuel (drop size raw)
      else take size raw ++ sanitize_loop fuel (drop size raw)
  | _, _ => []
  end.
Definition sanitizeComm (raw : list byte) : list byte := sanitize_loop (length raw) raw.

(** ** Validation *)
Definition maxLinuxPID : Z := 4194304.

Inductive enf_error :=
| UIDOutOfRange (uid : Z) | PIDOutOfRange (pid : Z) | ActionDisabled (action : gostring) | UnknownActionType (action : gostring)
| InvalidPIDZero | ProcessNotFound (pid : Z) | ProcessVanished (pid : Z) | CommChanged (pid : Z)
| PidfdOpenFailed (pid : Z) | PidfdSignalFailed (pid : Z) | KillFailed (pid : Z)
| CgroupFileUnreadable (pid : Z) | CgroupNotFound (pid : Z) | WriteFailed (path : gostring)
| NFTablesFailed (uid : Z) | IPTablesFailed (uid : Z) | XDPFailed | NoBackend
| NoPath | LSMNotAvailable (path : gostring) | LSMAddPathFailed (path : gostring) | NetworkPolicyFailed.

Definition validateEvent (e : Event) : option enf_error :=
  if 65535 <? ev_UID e then Some (UIDOutOfRange (ev_UID e))
  else if (ev_PID e <? 1) || (maxLinuxPID <? ev_PID e) then Some (PIDOutOfRange (ev_PID e))
  else None.

(** ** Data *)
Definition ActionBlock : gostring := "block".
Definition ActionKill : gostring := "kill".
Definition ActionThrottle : gostring := "throttle".
Definition ActionLog : gostring := "log".
Definition ActionLSMBlock : gostring := "lsm_block".
Definition ActionNetworkPolicy : gostring := "networkpolicy".

Definition BlockBackendLog : gostring := "log".
Definition BlockBackendNFTables : gostring := "nftables".
Definition BlockBackendIPTables : gostring := "iptables".
Definition BlockBackendXDP : gostring := "xdp".

(** The text of the description is left out; the error is kept as a value. *)
Record AuditEntry := mkAudit {
  ae_Timestamp : Z; ae_Action : gostring; ae_RuleID : gostring; ae_PID : Z; ae_TGID : Z; ae_Comm : list byte; ae_UID : Z;
  ae_Success : bool; ae_Error : option enf_error; ae_EventType : Z }.

Record ThrottleState := mkThrottle { th_PID : Z; th_LastThrottle : Z; th_Count : Z; th_Active : bool }.

(** What a call changes outside the program; the network policy manager, which
    has modes of its own, counts as outside. *)
Inductive effect :=
| Signalled (pid : Z) | WroteFile (path content : gostring) | NftDropsUID (uid : Z) | IptDropsUID (v6 : bool) (uid : Z)
| LsmBlocksPID (pid : Z) | LsmBlocksPath (path : gostring) | XdpDropsIP (key : list byte) | XdpDropsPort (port : Z)
| RanPolicy (ruleID : gostring).

(** The block backends: the tracked UIDs of nftables and iptables, with the
    binaries found, and the tracked addresses and ports of XDP. *)
Record NFTablesManager := mkNFT { nft_dryRun : bool; nft_blockedUIDs : gset Z }.
Record IPTablesManager := mkIPT { ipt_dryRun : bool; ipt_v4 : bool; ipt_v6 : bool; ipt_blockedUIDs : gset Z }.
Record XDPManager := mkXDP { xdp_loaded : bool; xdp_blockedIPs : gset gostring; xdp_blockedPorts : gset Z }.

(** The answers of the operating system during one call. *)
Record osys := mkOS {
  os_now : Z; os_later : Z;
  os_proc_exists : Z -> bool; os_proc_comm : Z -> option (list byte); os_proc_cgroup : Z -> option gostring;
  os_pidfd_open : Z -> bool; os_pidfd_signal : Z -> bool; os_kill : Z -> bool; os_write : gostring -> bool;
  os_nft_flush : bool; os_ipt_run : bool -> bool; os_xdp_put : effect -> bool;
  os_lsm_available : bool; os_lsm_pid : bool; os_lsm_path : bool; os_policy : bool }.

Record Enforcer := mkEnforcer {
  en_enabled : gostring -> bool; en_backend : gostring; en_dryRun : bool; en_cpuPercent : Z; en_pidfdSupported : bool;
  en_throttles : gmap Z ThrottleState; en_nft : option NFTablesManager; en_ipt : option IPTablesManager;
  en_xdp : option XDPManager; en_lsm : bool; en_policyMgr : bool;
  en_audit : option (list AuditEntry); en_auditCap : Z; en_auditDropped : Z; en_actions : gostring -> Z; en_effects : list effect }.

Definition set_throttles (x : gmap Z ThrottleState) (e : Enforcer) : Enforcer :=
  mkEnforcer (en_enabled e) (en_backend e) (en_dryRun e) (en_cpuPercent e) (en_pidfdSupported e) x (en_nft e) (en_ipt e) (en_xdp e)
    (en_lsm e) (en_policyMgr e) (en_audit e) (en_auditCap e) (en_auditDropped e) (en_actions e) (en_effects e).
Definition set_nft (x : NFTablesManager) (e : Enforcer) : Enforcer :=
  mkEnforcer (en_enabled e) (en_backend e) (en_dryRun e) (en_cpuPercent e) (en_pidfdSupported e) (en_throttles e) (Some x) (en_ipt e)
    (en_xdp e) (en_lsm e) (en_policyMgr e) (en_audit e) (en_auditCap e) (en_auditDropped e) (en_actions e) (en_effects e).
Definition set_ipt (x : IPTablesManager) (e : Enforcer) : Enforcer :=
  mkEnforcer (en_enabled e) (en_backend e) (en_dryRun e) (en_cpuPercent e) (en_pidfdSupported e) (en_throttles e) (en_nft e) (Some x)
    (en_xdp e) (en_lsm e) (en_policyMgr e) (en_audit e) (en_auditCap e) (en_auditDropped e) (en_actions e) (en_effects e).
Definition set_xdp (x : XDPManager) (e : Enforcer) : Enforcer :=
  mkEnforcer (en_enabled e) (en_backend e) (en_dryRun e) (en_cpuPercent e) (en_pidfdSupported e) (en_throttles e) (en_nft e) (en_ipt e)
    (Some x) (en_lsm e) (en_policyMgr e) (en_audit e) (en_auditCap e) (en_auditDropped e) (en_actions e) (en_effects e).
Definition set_audit (l : list AuditEntry) (dropped : Z) (e : Enforcer) : Enforcer :=
  mkEnforcer (en_enabled e) (en_backend e) (en_dryRun e) (en_cpuPercent e) (en_pidfdSupported e) (en_throttles e) (en_nft e) (en_ipt e)
    (en_xdp e) (en_lsm e) (en_policyMgr e) (Some l) (en_auditCap e) dropped (en_actions e) (en_effects e).
Definition count_action (a : gostring) (e : Enforcer) : Enforcer :=
  mkEnforcer (en_enabled e) (en_backend e) (en_dryRun e) (en_cpuPercent e) (en_pidfdSupported e) (en_throttles e) (en_nft e) (en_ipt e)
    (en_xdp e) (en_lsm e) (en_policyMgr e) (en_audit e) (en_auditCap e) (en_auditDropped e)
    (fun b => if bool_decide (a = b) then en_actions e b + 1 else en_actions e b) (en_effects e).
Definition add_effect (x : effect) (e : Enforcer) : Enforcer :=
  mkEnforcer (en_enabled e) (en_backend e) (en_dryRun e) (en_cpuPercent e) (en_pidfdSupported e) (en_throttles e) (en_nft e) (en_ipt e)
    (en_xdp e) (en_lsm e) (en_policyMgr e) (en_audit e) (en_auditCap e) (en_auditDropped e) (en_actions e) (en_effects e ++ [x]).

(** A call returns the error, if any, and the state after it. *)
Abbreviation outcome := (Enforcer * option enf_error)%type.

(** ** Block backends *)
Section backends.
Context `{GoLib} (os : osys).

Definition nft_BlockUID (uid : Z) (e : Enforcer) (m : NFTablesManager) : outcome :=
  if bool_decide (uid ∈ nft_blockedUIDs m) then (e, None)
  else if nft_dryRun m then (set_nft (mkNFT true ({[uid]} ∪ nft_blockedUIDs m)) e, None)
  else if negb (os_nft_flush os) then (e, Some (NFTablesFailed uid))
  else (add_effect (NftDropsUID uid) (set_nft (mkNFT false ({[uid]} ∪ nft_blockedUIDs m)) e), None).

(** A failure of ip6tables is only logged. *)
Definition ipt_BlockUID (uid : Z) (e : Enforcer) (m : IPTablesManager) : outcome :=
  let tracked := mkIPT (ipt_dryRun m) (ipt_v4 m) (ipt_v6 m) ({[uid]} ∪ ipt_blockedUIDs m) in
  if bool_decide (uid ∈ ipt_blockedUIDs m) then (e, None)
  else if ipt_dryRun m then (set_ipt tracked e, None)
  else if ipt_v4 m && negb (os_ipt_run os false) then (e, Some (IPTablesFailed uid))
  else
    let e := if ipt_v4 m then add_effect (IptDropsUID false uid) e else e in
    let e := if ipt_v6 m && os_ipt_run os true then add_effect (IptDropsUID true uid) e else e in
    (set_ipt tracked e, None).

(** [ip.To4], [ip.To16] and the key of the map *)
Definition To4 (ip : list byte) : option (list byte) :=
  if Nat.eqb (length ip) 4 then Some ip
  else if Nat.eqb (length ip) 16 && bool_decide (take 12 ip = zeros 10 ++ [Byte.xff; Byte.xff]) then Some (drop 12 ip)
  else None.
Definition To16 (ip : list byte) : option (list byte) :=
  if Nat.eqb (length ip) 4 then Some (zeros 10 ++ [Byte.xff; Byte.xff] ++ ip)
  else if Nat.eqb (length ip) 16 then Some ip else None.
Definition ipToKey (ip : list byte) : list byte :=
  match To4 ip with
  | Some v4 => copy_into (zeros 16) v4
  | None => match To16 ip with Some v6 => copy_into (zeros 16) v6 | None => zeros 16 end
  end.

Definition xdp_BlockIP (ip : list byte) (e : Enforcer) (m : XDPManager) : Enforcer * XDPManager * option enf_error :=
  let canonical := IP_String ip in
  let tracked := mkXDP (xdp_loaded m) ({[canonical]} ∪ xdp_blockedIPs m) (xdp_blockedPorts m) in
  if bool_decide (canonical ∈ xdp_blockedIPs m) then (e, m, None)
  else if xdp_loaded m then
    if os_xdp_put os (XdpDropsIP (ipToKey ip)) then (add_effect (XdpDropsIP (ipToKey ip)) (set_xdp tracked e), tracked, None)
    else (e, m, Some XDPFailed)
  else (set_xdp tracked e, tracked, None).

Definition xdp_BlockPort (port : Z) (e : Enforcer) (m : XDPManager) : outcome :=
  let tracked := mkXDP (xdp_loaded m) (xdp_blockedIPs m) ({[port]} ∪ xdp_blockedPorts m) in
  if bool_decide (port ∈ xdp_blockedPorts m) then (e, None)
  else if xdp_loaded m then
    if os_xdp_put os (XdpDropsPort port) then (add_effect (XdpDropsPort port) (set_xdp tracked e), None)
    else (e, Some XDPFailed)
  else (set_xdp tracked e, None).

Definition xdp_BlockTuple (daddr : list byte) (dport : Z) (e : Enforcer) (m : XDPManager) : outcome :=
  let '(e, m, err) := match daddr with [] => (e, m, None) | _ => xdp_BlockIP daddr e m end in
  match err with
  | Some _ => (e, err)
  | None => if 0 <? dport then xdp_BlockPort dport e m else (e, None)
  end.
End backends.

(** ** Paths *)

(** One element of [filepath.Clean]; [stack] holds the kept ones, last first. *)
Definition clean_step (rooted : bool) (stack : list gostring) (elem : gostring) : list gostring :=
  if bool_decide (elem = ""%string) || bool_decide (elem = "."%string) then stack
  else if bool_decide (elem = ".."%string) then
    match stack with
    | [] => if rooted then [] else [".."%string]
    | top :: rest => if bool_decide (top = ".."%string) then ".."%string :: stack else rest
    end
  else elem :: stack.

Fixpoint join_slash (l : list gostring) : gostring :=
  match l with
  | [] => ""%string
  | [s] => s
  | s :: l => (s +:+ "/" +:+ join_slash l)%string
  end.

Definition filepath_Clean (p : gostring) : gostring :=
  let rooted := String.prefix "/" p in
  let body := join_slash (rev (foldl (clean_step rooted) [] (split_char "/"%char "" p))) in
  let out := if rooted then ("/" +:+ body)%string else body in
  if bool_decide (out = ""%string) then "."%string else out.

(** [filepath.Join(dir, p)] with a directory that is not empty *)
Definition filepath_Join (dir p : gostring) : gostring :=
  filepath_Clean (if bool_decide (p = ""%string) then dir else (dir +:+ "/" +:+ p)%string).

Definition extractFilePath (a : Alert) : gostring :=
  match ev_File (al_Event a) with
  | None => ""%string
  | Some f =>
      let p := BytesToString (file_Filename f) in
      if bool_decide (p = ""%string) then ""%string else filepath_Clean p
  end.

Definition splitLines (s : gostring) : list gostring :=
  let parts := split_char newline "" s in
  match last parts with
  | Some EmptyString => removelast parts
  | _ => parts
  end.

(** The first cgroup v2 line of /proc/<pid>/cgroup. *)
Fixpoint cgroup_line (lines : list gostring) : option gostring :=
  match lines with
  | [] => None
  | line :: lines =>
      if Nat.ltb 3 (String.length line) && String.prefix "0:" line then
        match split_char ":"%char "" line !! 2%nat with
        | Some path => Some (filepath_Join "/sys/fs/cgroup" path)
        | None => cgroup_line lines
        end
      else cgroup_line lines
  end.

(** ** Actions *)
Section actions.
Context `{GoLib} (os : osys).

Definition findCgroupPath (pid : Z) : gostring + enf_error :=
  match os_proc_cgroup os pid with
  | None => inr (CgroupFileUnreadable pid)
  | Some data => match cgroup_line (splitLines data) with Some p => inl p | None => inr (CgroupNotFound pid) end
  end.

(** The scheduling period in microseconds. *)
Definition periodUS : Z := 100000.
Definition cpu_max (percent : Z) : gostring :=
  (pretty (Z.quot (periodUS * percent) 100) +:+ " " +:+ pretty periodUS +:+ String newline "")%string.

Definition applyCgroupThrottle (pid : Z) (e : Enforcer) : outcome :=
  match findCgroupPath pid with
  | inr err => (e, Some err)
  | inl path =>
      let cpuMaxPath := filepath_Join path "cpu.max" in
      if os_write os cpuMaxPath then (add_effect (WroteFile cpuMaxPath (cpu_max (en_cpuPercent e))) e, None)
      else (e, Some (WriteFailed cpuMaxPath))
  end.

(** Non-blocking send on the audit channel. *)
Definition logAudit (entry : AuditEntry) (e : Enforcer) : Enforcer :=
  match en_audit e with
  | None => e
  | Some l =>
      if Z.of_nat (length l) <? en_auditCap e then set_audit (l ++ [entry]) (en_auditDropped e) e
      else set_audit l (en_auditDropped e + 1) e
  end.

Definition audit_entry (action : gostring) (a : Alert) (err : option enf_error) : AuditEntry :=
  let ev := al_Event a in
  mkAudit (os_now os) action (al_RuleID a) (ev_PID ev) (ev_TGID ev) (sanitizeComm (until_nul (ev_Comm ev))) (ev_UID ev)
    (match err with None => true | Some _ => false end) err (ev_Type ev).

(** The end of an action: the audit entry, and the counter on success. *)
Definition finish (action : gostring) (a : Alert) (r : outcome) : outcome :=
  let '(e, err) := r in
  let e := logAudit (audit_entry action a err) e in
  (match err with None => count_action action e | Some _ => e end, err).

Definition executeBlockXDP (a : Alert) (e : Enforcer) : outcome :=
  match en_xdp e, ev_Network (al_Event a) with
  | Some m, Some net =>
      let daddr := if net_Family net =? 2 then take 4 (net_Daddr net) else net_Daddr net in
      xdp_BlockTuple os daddr (net_Dport net) e m
  | _, _ => (e, None)
  end.

(** An event that fails validation is only logged. *)
Definition executeBlock (a : Alert) (e : Enforcer) : outcome :=
  finish ActionBlock a
    (if bool_decide (en_backend e = BlockBackendXDP) then executeBlockXDP a e
     else if bool_decide (en_backend e = BlockBackendNFTables) then
       match en_nft e with Some m => nft_BlockUID os (ev_UID (al_Event a)) e m | None => (e, None) end
     else if bool_decide (en_backend e = BlockBackendIPTables) then
       match en_ipt e with Some m => ipt_BlockUID os (ev_UID (al_Event a)) e m | None => (e, None) end
     else (e, None)).

Definition executeLSMBlockFile (a : Alert) (e : Enforcer) : outcome :=
  let path := extractFilePath a in
  if bool_decide (path = ""%string) then (e, Some NoPath)
  else if en_dryRun e then (e, None)
  else if negb (en_lsm e && os_lsm_available os) then (e, Some (LSMNotAvailable path))
  else if os_lsm_path os then (add_effect (LsmBlocksPath path) e, None)
  else (e, Some (LSMAddPathFailed path)).

Definition nftablesFallback (a : Alert) (e : Enforcer) : outcome :=
  match en_nft e, en_ipt e with
  | Some m, _ => nft_BlockUID os (ev_UID (al_Event a)) e m
  | None, Some m => ipt_BlockUID os (ev_UID (al_Event a)) e m
  | None, None => (e, Some NoBackend)
  end.

Definition executeLSMBlock (a : Alert) (e : Enforcer) : outcome :=
  match validateEvent (al_Event a) with
  | Some err => (e, Some err)
  | None =>
      finish ActionLSMBlock a
        (if ev_Type (al_Event a) =? EventFileAccess then executeLSMBlockFile a e
         else if en_dryRun e then (e, None)
         else if en_lsm e && os_lsm_available os && os_lsm_pid os
         then (add_effect (LsmBlocksPID (ev_PID (al_Event a))) e, None)
         else nftablesFallback a e)
  end.

(** No audit entry is written for this action. *)
Definition executeNetworkPolicy (a : Alert) (e : Enforcer) : outcome :=
  if negb (en_policyMgr e) then (e, None)
  else if os_policy os then (count_action ActionNetworkPolicy (add_effect (RanPolicy (al_RuleID a)) e), None)
  else (e, Some NetworkPolicyFailed).

Definition touch_throttle (pid : Z) (e : Enforcer) : Enforcer :=
  let st := default (mkThrottle pid zero_time 0 true) (en_throttles e !! pid) in
  set_throttles (<[pid := mkThrottle (th_PID st) (os_later os) (th_Count st + 1) (th_Active st)]> (en_throttles e)) e.

Definition executeThrottle (a : Alert) (e : Enforcer) : outcome :=
  match validateEvent (al_Event a) with
  | Some err => (e, Some err)
  | None =>
      let pid := ev_PID (al_Event a) in
      finish ActionThrottle a (applyCgroupThrottle pid (touch_throttle pid e))
  end.

Definition ValidatePID (pid : Z) : option enf_error :=
  if pid =? 0 then Some InvalidPIDZero else if os_proc_exists os pid then None else Some (ProcessNotFound pid).

(** [strings.TrimRight(s, "\n")] *)
Definition trim_newlines (l : list byte) : list byte :=
  let fix skip l := match l with b :: t => if decide (b = Byte.x0a) then skip t else l | [] => [] end in
  rev (skip (rev l)).

Definition verifyPIDComm (pid : Z) (expected : list byte) : option enf_error :=
  match os_proc_comm os pid with
  | None => Some (ProcessVanished pid)
  | Some data => if decide (sanitizeComm (trim_newlines data) = expected) then None else Some (CommChanged pid)
  end.

Definition killViaPidfd (pid : Z) (e : Enforcer) : outcome :=
  if negb (os_pidfd_open os pid) then (e, Some (PidfdOpenFailed pid))
  else if os_pidfd_signal os pid then (add_effect (Signalled pid) e, None)
  else (e, Some (PidfdSignalFailed pid)).

Definition killViaProc (pid : Z) (comm : list byte) (e : Enforcer) : outcome :=
  match (if decide (comm = []) then None else verifyPIDComm pid comm) with
  | Some err => (e, Some err)
  | None => if os_kill os pid then (add_effect (Signalled pid) e, None) else (e, Some (KillFailed pid))
  end.

Definition executeKill (a : Alert) (e : Enforcer) : outcome :=
  match validateEvent (al_Event a) with
  | Some err => (e, Some err)
  | None =>
      let pid := ev_PID (al_Event a) in
      finish ActionKill a
        (match ValidatePID pid with
         | Some err => (e, Some err)
         | None =>
             if en_pidfdSupported e then killViaPidfd pid e
             else killViaProc pid (sanitizeComm (until_nul (ev_Comm (al_Event a)))) e
         end)
  end.

Definition Execute (action : gostring) (a : Alert) (e : Enforcer) : outcome :=
  if negb (en_enabled e action) && negb (bool_decide (action = ActionLSMBlock)) then (e, Some (ActionDisabled action))
  else if bool_decide (action = ActionBlock) then executeBlock a e
  else if bool_decide (action = ActionLSMBlock) then executeLSMBlock a e
  else if bool_decide (action = ActionKill) then executeKill a e
  else if bool_decide (action = ActionThrottle) then executeThrottle a e
  else if bool_decide (action = ActionNetworkPolicy) then executeNetworkPolicy a e
  else (e, Some (UnknownActionType action)).

Definition ExecuteAction (action : gostring) (a : Alert) (e : Enforcer) : outcome := Execute action a e.
End actions.

(** ** Throttle entries and construction *)
Definition RemoveThrottle (pid : Z) (e : Enforcer) : Enforcer := set_throttles (delete pid (en_throttles e)) e.

Definition CleanupThrottles (maxAge now : Z) (e : Enforcer) : Enforcer * Z :=
  let stale := filter (fun kv => maxAge < time_Sub now (th_LastThrottle kv.2)) (en_throttles e) in
  (set_throttles (en_throttles e ∖ stale) e, Z.of_nat (size stale)).

Record Config := mkEnforcerConfig {
  ec_EnableBlock : bool; ec_EnableKill : bool; ec_EnableThrottle : bool; ec_BlockBackend : gostring; ec_XDPInterface : gostring;
  ec_DryRun : bool; ec_AuditCap : option Z; ec_LSMManager : bool; ec_NetworkPolicy : bool; ec_ThrottleCPUPercent : Z }.

(** What the construction finds out: netlink and its tables, the iptables
    binaries and their chains, the XDP program. *)
Record probes := mkProbes {
  pr_nft : bool; pr_v4 : bool; pr_v6 : bool; pr_chain4 : bool; pr_chain6 : bool; pr_xdp : bool; pr_pidfd : bool }.

Definition new_nft (p : probes) (dryRun : bool) : option NFTablesManager :=
  if dryRun then Some (mkNFT true ∅) else if pr_nft p then Some (mkNFT false ∅) else None.
Definition new_ipt (p : probes) (dryRun : bool) : option IPTablesManager :=
  if dryRun then Some (mkIPT true false false ∅)
  else if (pr_v4 p && negb (pr_chain4 p)) || (pr_v6 p && negb (pr_chain6 p)) then None
  else Some (mkIPT false (pr_v4 p) (pr_v6 p) ∅).
Definition new_xdp (p : probes) (dryRun : bool) (interface : gostring) : XDPManager :=
  mkXDP (negb dryRun && negb (bool_decide (interface = ""%string)) && pr_xdp p) ∅ ∅.

(** [None]: the construction fails. *)
Definition NewEnforcer (p : probes) (c : Config) : option Enforcer :=
  let cpu := if (ec_ThrottleCPUPercent c <? 1) || (99 <? ec_ThrottleCPUPercent c) then 10 else ec_ThrottleCPUPercent c in
  let enabled a :=
    if bool_decide (a = ActionBlock) then ec_EnableBlock c else if bool_decide (a = ActionKill) then ec_EnableKill c
    else if bool_decide (a = ActionThrottle) then ec_EnableThrottle c
    else if bool_decide (a = ActionNetworkPolicy) then ec_NetworkPolicy c else false in
  let make nft ipt xdp :=
    mkEnforcer enabled (ec_BlockBackend c) (ec_DryRun c) cpu (pr_pidfd p) ∅ nft ipt xdp (ec_LSMManager c) (ec_NetworkPolicy c)
      (match ec_AuditCap c with Some _ => Some [] | None => None end) (default 0 (ec_AuditCap c)) 0 (fun _ => 0) [] in
  if negb (ec_EnableBlock c) then Some (make None None None)
  else if bool_decide (ec_BlockBackend c = BlockBackendNFTables) then m ← new_nft p (ec_DryRun c); Some (make (Some m) None None)
  else if bool_decide (ec_BlockBackend c = BlockBackendIPTables) then m ← new_ipt p (ec_DryRun c); Some (make None (Some m) None)
  else if bool_decide (ec_BlockBackend c = BlockBackendXDP) then
    Some (make None None (Some (new_xdp p (ec_DryRun c) (ec_XDPInterface c))))
  else Some (make None None None).

(** * Theorems *)
Section enforcer_theorems.
Context `{GoLib}.
Implicit Types (e : Enforcer) (a : Alert) (os : osys).

(** ** What one action may touch *)

(** The effects that an action on an alert may have. *)
Definition allowed os (percent : Z) (action : gostring) a (x : effect) : Prop :=
  let ev := al_Event a in
  match x with
  | Signalled p => action = ActionKill /\ p = ev_PID ev /\ 1 <= p <= maxLinuxPID /\ os_proc_exists os p = true
  | WroteFile path content => action = ActionThrottle /\ content = cpu_max percent /\
      exists dir, findCgroupPath os (ev_PID ev) = inl dir /\ path = filepath_Join dir "cpu.max"
  | NftDropsUID u | IptDropsUID _ u => action ∈ [ActionBlock; ActionLSMBlock] /\ u = ev_UID ev
  | LsmBlocksPID p => action = ActionLSMBlock /\ p = ev_PID ev
  | LsmBlocksPath p => action = ActionLSMBlock /\ p = extractFilePath a /\ p <> ""%string
  | XdpDropsIP _ => action = ActionBlock /\ is_Some (ev_Network ev)
  | XdpDropsPort p => action = ActionBlock /\ exists n, ev_Network ev = Some n /\ p = net_Dport n
  | RanPolicy r => action = ActionNetworkPolicy /\ r = al_RuleID a
  end.

(** From [e] to [e'] only effects within [P] were added; configuration and
    audit log are as before. *)
Record adds (P : effect -> Prop) e e' : Prop := {
  ad_effects : exists xs, en_effects e' = en_effects e ++ xs /\ Forall P xs /\ (length xs <= 2)%nat;
  ad_enabled : en_enabled e' = en_enabled e;
  ad_backend : en_backend e' = en_backend e;
  ad_dry : en_dryRun e' = en_dryRun e;
  ad_pct : en_cpuPercent e' = en_cpuPercent e;
  ad_lsm : en_lsm e' = en_lsm e;
  ad_audit : en_audit e' = en_audit e /\ en_auditCap e' = en_auditCap e /\ en_auditDropped e' = en_auditDropped e }.

Lemma adds_none P e : adds P e e.
Proof. split; try done. exists []. rewrite app_nil_r. split; [done|]. split; [constructor|simpl; lia]. Qed.

Lemma adds_one (P : effect -> Prop) e x : P x -> adds P e (add_effect x e).
Proof. intros Hx. split; try done. exists [x]. split; [done|]. split; [by repeat constructor|simpl; lia]. Qed.

Lemma nft_adds P os uid e m : P (NftDropsUID uid) -> adds P e (nft_BlockUID os uid e m).1.
Proof.
  intros HP. unfold nft_BlockUID. repeat case_match; simpl; try apply adds_none; [by split; try done; apply (adds_none P e)|].
  destruct (adds_one P e _ HP). by split.
Qed.

Lemma ipt_adds (P : effect -> Prop) os uid e m : (forall v6, P (IptDropsUID v6 uid)) -> adds P e (ipt_BlockUID os uid e m).1.
Proof.
  intros HP. unfold ipt_BlockUID. case_bool_decide; [apply adds_none|]. destruct (ipt_dryRun m); [by split; try done; apply (adds_none P e)|].
  destruct (ipt_v4 m), (os_ipt_run os false); cbn [andb negb]; try apply adds_none;
    (destruct (ipt_v6 m && os_ipt_run os true); cbn [fst]; split; try done; simpl).
  all: first [ exists [IptDropsUID false uid; IptDropsUID true uid]; rewrite <- app_assoc; split; [done|split; [by repeat constructor|simpl; lia]]
             | exists [IptDropsUID false uid]; split; [done|split; [by repeat constructor|simpl; lia]]
             | exists [IptDropsUID true uid]; split; [done|split; [by repeat constructor|simpl; lia]]
             | exists []; rewrite app_nil_r; split; [done|split; [constructor|simpl; lia]] ].
Qed.

Lemma xdp_adds (P : effect -> Prop) os daddr dport e m :
  (forall k, P (XdpDropsIP k)) -> P (XdpDropsPort dport) -> adds P e (xdp_BlockTuple os daddr dport e m).1.
Proof.
  intros HI HPo. unfold xdp_BlockTuple.
  set (r := match daddr with [] => (e, m, None) | _ => xdp_BlockIP os daddr e m end).
  assert (exists xs, en_effects r.1.1 = en_effects e ++ xs /\ Forall P xs /\ (length xs <= 1)%nat /\ adds P e r.1.1) as (xs & Ex & Hx & Hl & Hr).
  { subst r. destruct daddr as [|b daddr]; [exists []; rewrite app_nil_r; split_and!; [done|constructor|simpl; lia|apply adds_none]|].
    unfold xdp_BlockIP. case_bool_decide; [exists []; rewrite app_nil_r; split_and!; [done|constructor|simpl; lia|apply adds_none]|].
    destruct (xdp_loaded m); [destruct (os_xdp_put os _)|]; simpl.
    - eexists [_]. split_and!; [reflexivity|by repeat constructor|simpl; lia|]. split; try done. simpl.
      eexists [_]. split; [reflexivity|]. split; [by repeat constructor|simpl; lia].
    - exists []. rewrite app_nil_r. split_and!; [done|constructor|simpl; lia|apply adds_none].
    - exists []. rewrite app_nil_r. split_and!; [done|constructor|simpl; lia|]. split; try done. apply (adds_none P e). }
  destruct r as [[e1 m1] [err|]]; simpl in *; [exact Hr|]. destruct (0 <? dport); [|exact Hr]. destruct Hr as [_ ? ? ? ? ? ?].
  unfold xdp_BlockPort. case_bool_decide; [split; try done; exists xs; split; [done|split; [done|lia]]|].
  destruct (xdp_loaded m1); [destruct (os_xdp_put os _)|]; simpl; split; try done; simpl.
  - exists (xs ++ [XdpDropsPort dport]). rewrite Ex, app_assoc. split; [done|]. split; [apply Forall_app; by repeat constructor|].
    rewrite length_app. simpl. lia.
  - exists xs. split; [done|]. split; [done|lia].
  - exists xs. split; [done|]. split; [done|lia].
Qed.

Lemma validateEvent_ok ev : validateEvent ev = None -> 1 <= ev_PID ev <= maxLinuxPID /\ ev_UID ev <= 65535.
Proof. unfold validateEvent. repeat case_match; try done. intros _. zbool. lia. Qed.

(** Every call is refused without a trace, or runs an action that is audited,
    or is the network policy action. *)
Inductive shape os action a e : outcome -> Prop :=
| shape_refused err : shape os action a e (e, Some err)
| shape_audited r :
    action ∈ [ActionBlock; ActionLSMBlock; ActionKill; ActionThrottle] ->
    (en_enabled e action = true \/ action = ActionLSMBlock) -> adds (allowed os (en_cpuPercent e) action a) e r.1 ->
    shape os action a e (finish os action a r)
| shape_policy :
    action = ActionNetworkPolicy -> en_enabled e action = true -> shape os action a e (executeNetworkPolicy os a e).

Lemma block_adds os a e :
  adds (allowed os (en_cpuPercent e) ActionBlock a) e
    (if bool_decide (en_backend e = BlockBackendXDP) then executeBlockXDP os a e
     else if bool_decide (en_backend e = BlockBackendNFTables) then
       match en_nft e with Some m => nft_BlockUID os (ev_UID (al_Event a)) e m | None => (e, None) end
     else if bool_decide (en_backend e = BlockBackendIPTables) then
       match en_ipt e with Some m => ipt_BlockUID os (ev_UID (al_Event a)) e m | None => (e, None) end
     else (e, None)).1.
Proof.
  assert (ActionBlock ∈ [ActionBlock; ActionLSMBlock]) as Hb by (left; done).
  repeat case_bool_decide; [| | |apply adds_none].
  - unfold executeBlockXDP. destruct (en_xdp e) as [m|]; [|apply adds_none].
    destruct (ev_Network (al_Event a)) as [n|] eqn:En; [|apply adds_none]. apply xdp_adds.
    + intros k. split; [done|]. rewrite En. by eexists.
    + split; [done|]. exists n. done.
  - destruct (en_nft e); [|apply adds_none]. by apply nft_adds.
  - destruct (en_ipt e); [|apply adds_none]. by apply ipt_adds.
Qed.

Lemma lsm_adds os a e :
  adds (allowed os (en_cpuPercent e) ActionLSMBlock a) e
    (if ev_Type (al_Event a) =? EventFileAccess then executeLSMBlockFile os a e
     else if en_dryRun e then (e, None)
     else if en_lsm e && os_lsm_available os && os_lsm_pid os
     then (add_effect (LsmBlocksPID (ev_PID (al_Event a))) e, None)
     else nftablesFallback os a e).1.
Proof.
  assert (ActionLSMBlock ∈ [ActionBlock; ActionLSMBlock]) as Hb by (right; left; done).
  destruct (ev_Type (al_Event a) =? EventFileAccess).
  { unfold executeLSMBlockFile. case_bool_decide as Hp; [apply adds_none|]. destruct (en_dryRun e); [apply adds_none|].
    destruct (negb _); [apply adds_none|]. destruct (os_lsm_path os); [|apply adds_none]. by apply adds_one. }
  destruct (en_dryRun e); [apply adds_none|]. destruct (_ && _ && _); [by apply adds_one|].
  unfold nftablesFallback. destruct (en_nft e); [by apply nft_adds|]. destruct (en_ipt e); [by apply ipt_adds|apply adds_none].
Qed.

Lemma kill_adds os a e :
  validateEvent (al_Event a) = None ->
  adds (allowed os (en_cpuPercent e) ActionKill a) e
    (match ValidatePID os (ev_PID (al_Event a)) with
     | Some err => (e, Some err)
     | None =>
         if en_pidfdSupported e then killViaPidfd os (ev_PID (al_Event a)) e
         else killViaProc os (ev_PID (al_Event a)) (sanitizeComm (until_nul (ev_Comm (al_Event a)))) e
     end).1.
Proof.
  intros [Hv _]%validateEvent_ok. unfold ValidatePID. destruct (_ =? 0); [apply adds_none|].
  destruct (os_proc_exists os (ev_PID (al_Event a))) eqn:Hx; [|apply adds_none].
  assert (allowed os (en_cpuPercent e) ActionKill a (Signalled (ev_PID (al_Event a)))) as Ha by done.
  destruct (en_pidfdSupported e).
  - unfold killViaPidfd. destruct (negb _); [apply adds_none|]. destruct (os_pidfd_signal os _); [by apply adds_one|apply adds_none].
  - unfold killViaProc. destruct (if decide _ then None else _); [apply adds_none|]. destruct (os_kill os _); [by apply adds_one|apply adds_none].
Qed.

Lemma throttle_adds os a e (pid := ev_PID (al_Event a)) :
  adds (allowed os (en_cpuPercent e) ActionThrottle a) e (applyCgroupThrottle os pid (touch_throttle os pid e)).1.
Proof.
  unfold applyCgroupThrottle. assert (forall P, adds P e (touch_throttle os pid e)) as Ht by (intros P; by destruct (adds_none P e)).
  destruct (findCgroupPath os pid) as [dir|] eqn:Ef; [|apply Ht].
  destruct (os_write os _); [|apply Ht]. simpl.
  destruct (adds_one (allowed os (en_cpuPercent e) ActionThrottle a) e (WroteFile (filepath_Join dir "cpu.max") (cpu_max (en_cpuPercent e)))); [|done].
  split; [done|]. split; [done|]. by exists dir.
Qed.

Lemma Execute_shape os action a e : shape os action a e (Execute os action a e).
Proof.
  unfold Execute. destruct (en_enabled e action) eqn:En; cbn [negb andb].
  2: { case_bool_decide as Hl; cbn [negb]; [|constructor]. subst action. rewrite bool_decide_false by done.
       unfold executeLSMBlock. destruct (validateEvent _); [constructor|]. apply shape_audited; [set_solver|by right|apply lsm_adds]. }
  repeat case_bool_decide; subst.
  - apply shape_audited; [set_solver|by left|apply block_adds].
  - unfold executeLSMBlock. destruct (validateEvent _); [constructor|]. apply shape_audited; [set_solver|by left|apply lsm_adds].
  - unfold executeKill. destruct (validateEvent _) eqn:Hv; [constructor|]. apply shape_audited; [set_solver|by left|by apply kill_adds].
  - unfold executeThrottle. destruct (validateEvent _) eqn:Hv; [constructor|]. apply shape_audited; [set_solver|by left|apply throttle_adds].
  - by apply shape_policy.
  - constructor.
Qed.

Lemma Execute_kill os a e : en_enabled e ActionKill = true -> Execute os ActionKill a e = executeKill os a e.
Proof. intros Hen. unfold Execute. by rewrite Hen. Qed.
Lemma Execute_throttle os a e : en_enabled e ActionThrottle = true -> Execute os ActionThrottle a e = executeThrottle os a e.
Proof. intros Hen. unfold Execute. by rewrite Hen. Qed.

Lemma finish_effects os action a r : en_effects (finish os action a r).1 = en_effects r.1.
Proof. destruct r as [e [err|]]; unfold finish, logAudit; simpl; destruct (en_audit e); simpl; by repeat case_match. Qed.


(** Enforcement is audited: a call is either refused (disabled,
    unknown, or an event that fails validation) and then changes nothing, or
    it is the network policy action, which keeps no audit entry, or it leaves
    exactly one audit entry about the alert, marked successful exactly when
    the call returns no error and carrying the error otherwise. When the audit
    channel is full the entry is dropped and counted, and earlier entries stay. *)
Theorem enforcement_audited os action a e (l : list AuditEntry) :
  en_audit e = Some l ->
  let '(e', err) := Execute os action a e in
  (e' = e /\ err <> None) \/ action = ActionNetworkPolicy \/
  (let entry := audit_entry os action a err in
   (ae_Success entry = true <-> err = None) /\ ae_Error entry = err /\
   ae_PID entry = ev_PID (al_Event a) /\ ae_RuleID entry = al_RuleID a /\ ae_Action entry = action /\
   if Z.of_nat (length l) <? en_auditCap e
   then en_audit e' = Some (l ++ [entry]) /\ en_auditDropped e' = en_auditDropped e
   else en_audit e' = Some l /\ en_auditDropped e' = en_auditDropped e + 1).
Proof.
  intros Hl. pose proof (Execute_shape os action a e) as Hs. destruct (Execute os action a e) as [e' err].
  inversion Hs as [err' E|r Ha Hen Hr E|Ha Hen E]; subst; [by left| |by right; left]. right. right.
  destruct r as [e0 err0]. destruct (ad_audit _ _ _ Hr) as (E1 & E2 & E3). simpl in *. rewrite Hl in E1.
  unfold finish, logAudit in E. simpl in E. rewrite E1, E2, E3 in E.
  destruct (Z.of_nat (length l) <? en_auditCap e), err0; simpl in E; injection E as <- <-; simpl; split_and!; done.
Qed.

(** ** Runs *)
Inductive enf_run (p : probes) (c : Config) : Enforcer -> Prop :=
| run_new e : NewEnforcer p c = Some e -> enf_run p c e
| run_execute os action a e : enf_run p c e -> enf_run p c (Execute os action a e).1
| run_cleanup maxAge now e : enf_run p c e -> enf_run p c (CleanupThrottles maxAge now e).1
| run_remove pid e : enf_run p c e -> enf_run p c (RemoveThrottle pid e)
| run_audit_read l e : enf_run p c e -> enf_run p c (set_audit l (en_auditDropped e) e).

(** A property of the backends and the trace that every step keeps. *)
Definition parts e := (en_dryRun e, en_cpuPercent e, en_nft e, en_ipt e, en_xdp e, en_effects e).

Lemma finish_parts os action a r : parts (finish os action a r).1 = parts r.1.
Proof. destruct r as [e [err|]]; unfold finish, logAudit, parts; simpl; destruct (en_audit e); simpl; by repeat case_match. Qed.

(** What the network actions do to the backends and the trace. *)
Inductive net_step os a e : Enforcer -> Prop :=
| ns_same : net_step os a e e
| ns_nft m : en_nft e = Some m -> net_step os a e (nft_BlockUID os (ev_UID (al_Event a)) e m).1
| ns_ipt m : en_ipt e = Some m -> net_step os a e (ipt_BlockUID os (ev_UID (al_Event a)) e m).1
| ns_xdp m daddr dport : en_xdp e = Some m -> net_step os a e (xdp_BlockTuple os daddr dport e m).1
| ns_lsm_pid pid : en_dryRun e = false -> net_step os a e (add_effect (LsmBlocksPID pid) e)
| ns_lsm_path path : en_dryRun e = false -> net_step os a e (add_effect (LsmBlocksPath path) e).

Lemma block_net os a e : exists e1, net_step os a e e1 /\ parts (executeBlock os a e).1 = parts e1.
Proof.
  unfold executeBlock. eexists. split; [|apply finish_parts]. repeat case_bool_decide; [| | |constructor].
  - unfold executeBlockXDP. destruct (en_xdp e) eqn:Ex; [|constructor]. destruct (ev_Network (al_Event a)); [|constructor]. by constructor.
  - destruct (en_nft e) eqn:Ex; [by constructor|constructor].
  - destruct (en_ipt e) eqn:Ex; [by constructor|constructor].
Qed.

Lemma lsm_net os a e : exists e1, net_step os a e e1 /\ parts (executeLSMBlock os a e).1 = parts e1.
Proof.
  unfold executeLSMBlock. destruct (validateEvent _); [exists e; split; [constructor|done]|]. eexists. split; [|apply finish_parts].
  destruct (_ =? _).
  - unfold executeLSMBlockFile. repeat case_match; try constructor. done.
  - destruct (en_dryRun e) eqn:Ed; [constructor|]. destruct (_ && _ && _); [by constructor|].
    unfold nftablesFallback. destruct (en_nft e) eqn:En; [by constructor|]. destruct (en_ipt e) eqn:Ei; by constructor.
Qed.

Lemma net_actions os action a e :
  action ∈ [ActionBlock; ActionLSMBlock] -> exists e1, net_step os a e e1 /\ parts (Execute os action a e).1 = parts e1.
Proof.
  intros Ha. unfold Execute. destruct (_ && _); [exists e; split; [constructor|done]|].
  rewrite !elem_of_cons, elem_of_nil in Ha. destruct Ha as [->|[->|[]]]; [apply block_net|apply lsm_net].
Qed.

Definition host_effect (x : effect) : Prop := match x with Signalled _ | WroteFile _ _ | RanPolicy _ => True | _ => False end.

Lemma host_actions os action a e :
  action ∉ [ActionBlock; ActionLSMBlock] ->
  exists xs, Forall host_effect xs /\ (length xs <= 1)%nat /\
    parts (Execute os action a e).1 = (en_dryRun e, en_cpuPercent e, en_nft e, en_ipt e, en_xdp e, en_effects e ++ xs).
Proof.
  intros Ha. assert (forall e1, parts e1 = parts e -> exists xs, Forall host_effect xs /\ (length xs <= 1)%nat /\
    parts e1 = (en_dryRun e, en_cpuPercent e, en_nft e, en_ipt e, en_xdp e, en_effects e ++ xs)) as Hsame.
  { intros e1 E. exists []. split; [constructor|]. split; [simpl; lia|]. by rewrite app_nil_r. }
  assert (forall e1 x, host_effect x -> parts e1 = parts (add_effect x e) -> exists xs, Forall host_effect xs /\ (length xs <= 1)%nat /\
    parts e1 = (en_dryRun e, en_cpuPercent e, en_nft e, en_ipt e, en_xdp e, en_effects e ++ xs)) as Hone.
  { intros e1 x Hx E. exists [x]. split; [by repeat constructor|]. split; [simpl; lia|done]. }
  unfold Execute. destruct (_ && _); [by apply Hsame|]. rewrite !not_elem_of_cons in Ha. destruct Ha as (Hb & Hl & _).
  do 2 rewrite bool_decide_false by done. repeat case_bool_decide; subst; [| | |by apply Hsame].
  - unfold executeKill. destruct (validateEvent _); [by apply Hsame|]. rewrite finish_parts.
    destruct (ValidatePID _ _); [by apply Hsame|]. unfold killViaPidfd, killViaProc.
    repeat case_match; simpl; first [by apply Hsame | eapply (Hone _ (Signalled _)); done | eapply (Hone _ (WroteFile _ _)); done | eapply (Hone _ (RanPolicy _)); done].
  - unfold executeThrottle. destruct (validateEvent _); [by apply Hsame|]. rewrite finish_parts.
    unfold applyCgroupThrottle. repeat case_match; simpl; first [by apply Hsame | eapply (Hone _ (Signalled _)); done | eapply (Hone _ (WroteFile _ _)); done | eapply (Hone _ (RanPolicy _)); done].
  - unfold executeNetworkPolicy. repeat case_match; simpl; first [by apply Hsame | eapply (Hone _ (Signalled _)); done | eapply (Hone _ (WroteFile _ _)); done | eapply (Hone _ (RanPolicy _)); done].
Qed.

(** *** Dry run *)
Definition dry_inv e : Prop :=
  en_dryRun e = true /\ (forall m, en_nft e = Some m -> nft_dryRun m = true) /\
  (forall m, en_ipt e = Some m -> ipt_dryRun m = true) /\ (forall m, en_xdp e = Some m -> xdp_loaded m = false).

Lemma dry_parts e e' : parts e' = parts e -> dry_inv e -> dry_inv e'.
Proof. unfold parts, dry_inv. intros E. injection E as E1 E2 E3 E4 E5 E6. by rewrite E1, E3, E4, E5. Qed.

Lemma dry_set_xdp e m : dry_inv e -> xdp_loaded m = false -> dry_inv (set_xdp m e).
Proof. intros (? & ? & ? & ?) Hm. unfold dry_inv. simpl. split_and!; try done. by intros ? [= <-]. Qed.

Lemma dry_net os a e e1 : dry_inv e -> net_step os a e e1 -> dry_inv e1 /\ en_effects e1 = en_effects e.
Proof.
  intros He Hs. pose proof He as (Hd & Hn & Hi & Hx).
  destruct Hs as [|m Em|m Em|m daddr dport Em|pid Hf|path Hf]; [done| | | |congruence|congruence].
  - unfold nft_BlockUID. rewrite (Hn m Em). case_bool_decide; simpl; [done|]. split; [|done]. unfold dry_inv. simpl.
    split_and!; try done. by intros ? [= <-].
  - unfold ipt_BlockUID. rewrite (Hi m Em). case_bool_decide; simpl; [done|]. split; [|done]. unfold dry_inv. simpl.
    split_and!; try done. by intros ? [= <-].
  - unfold xdp_BlockTuple. set (r := match daddr with [] => (e, m, None) | _ => xdp_BlockIP os daddr e m end).
    assert (dry_inv r.1.1 /\ en_effects r.1.1 = en_effects e /\ xdp_loaded r.1.2 = false /\ r.2 = None) as (Hr & Er & Hl & Hnone).
    { pose proof (Hx m Em) as Hm. subst r. destruct daddr; [done|]. unfold xdp_BlockIP. rewrite Hm.
      case_bool_decide; simpl; [done|]. split; [by apply dry_set_xdp|done]. }
    destruct r as [[e2 m2] err]; simpl in *. subst err. destruct (0 <? dport); [|done]. unfold xdp_BlockPort. rewrite Hl.
    case_bool_decide; simpl; [done|]. split; [by apply dry_set_xdp|done].
Qed.

Lemma dry_execute os action a e :
  dry_inv e -> dry_inv (Execute os action a e).1 /\
    (action ∈ [ActionBlock; ActionLSMBlock] -> en_effects (Execute os action a e).1 = en_effects e).
Proof.
  intros He. destruct (decide (action ∈ [ActionBlock; ActionLSMBlock])) as [Ha|Ha].
  - destruct (net_actions os action a e Ha) as (e1 & Hs & Hp). destruct (dry_net os a e e1 He Hs) as [H1 H2].
    split; [by eapply dry_parts|]. intros _. unfold parts in Hp. injection Hp as _ _ _ _ _ ->. done.
  - destruct (host_actions os action a e Ha) as (xs & _ & _ & Hp). split; [|done].
    unfold parts in Hp. injection Hp as E1 E2 E3 E4 E5 E6. unfold dry_inv. by rewrite E1, E3, E4, E5.
Qed.

Lemma dry_new p c e : ec_DryRun c = true -> NewEnforcer p c = Some e -> dry_inv e.
Proof.
  intros Hd. unfold NewEnforcer, new_nft, new_ipt, new_xdp. rewrite Hd. cbn [negb andb mbind option_bind].
  repeat case_match; intros [= <-]; split_and!; try done; intros ? [= <-]; done.
Qed.

Lemma dry_run_inv p c e : ec_DryRun c = true -> enf_run p c e -> dry_inv e.
Proof.
  intros Hd. induction 1 as [e E|os action a e _ IH|maxAge now e _ IH|pid e _ IH|l e _ IH];
    [by eapply dry_new|by apply dry_execute|by apply (dry_parts e)..].
Qed.

(** Dry-run mode covers blocking only. With [dry_run] set, after any
    run and whatever the operating system answers, the block and lsm_block
    actions have no effect outside the program. Kill and throttle do not look
    at the flag: for a valid event of an existing process, kill sends the
    signal (here through a pidfd) and throttle writes the process's cpu.max. *)
Theorem dry_run_scope p (c : Config) e os a :
  ec_DryRun c = true -> enf_run p c e ->
  (forall action, action ∈ [ActionBlock; ActionLSMBlock] -> en_effects (Execute os action a e).1 = en_effects e) /\
  (let pid := ev_PID (al_Event a) in
   validateEvent (al_Event a) = None ->
   (en_enabled e ActionKill = true -> en_pidfdSupported e = true -> os_proc_exists os pid = true ->
    os_pidfd_open os pid = true -> os_pidfd_signal os pid = true ->
    (Execute os ActionKill a e).2 = None /\ en_effects (Execute os ActionKill a e).1 = en_effects e ++ [Signalled pid]) /\
   (forall dir, en_enabled e ActionThrottle = true -> findCgroupPath os pid = inl dir ->
    os_write os (filepath_Join dir "cpu.max") = true ->
    (Execute os ActionThrottle a e).2 = None /\
    en_effects (Execute os ActionThrottle a e).1 = en_effects e ++ [WroteFile (filepath_Join dir "cpu.max") (cpu_max (en_cpuPercent e))])).
Proof.
  intros Hd Hr. pose proof (dry_run_inv p c e Hd Hr) as Hi. split; [intros action Ha; by apply dry_execute|].
  intros pid Hv. pose proof (validateEvent_ok _ Hv) as [Hpid _]. fold pid in Hpid. split.
  - intros Hen Hs Hx Ho Hg. rewrite Execute_kill by done. unfold executeKill. rewrite Hv. fold pid. unfold ValidatePID. rewrite (proj2 (Z.eqb_neq pid 0)) by lia. rewrite Hx, Hs.
    unfold killViaPidfd. rewrite Ho, Hg. cbn [negb]. rewrite finish_effects. done.
  - intros dir Hen Hf Hw. rewrite Execute_throttle by done. unfold executeThrottle. rewrite Hv. fold pid. unfold applyCgroupThrottle. rewrite Hf, Hw, finish_effects. done.
Qed.

(** *** One rule for each user *)
Definition nft_uids (l : list effect) : list Z := omap (fun x => match x with NftDropsUID u => Some u | _ => None end) l.
Definition ipt4_uids (l : list effect) : list Z := omap (fun x => match x with IptDropsUID false u => Some u | _ => None end) l.

(** The users a backend that really installs rules says it blocks. *)
Definition nft_live e : option (gset Z) := m ← en_nft e; if nft_dryRun m then None else Some (nft_blockedUIDs m).
Definition ipt_live e : option (gset Z) :=
  m ← en_ipt e; if ipt_dryRun m || negb (ipt_v4 m) then None else Some (ipt_blockedUIDs m).

Definition rules_ok (live : option (gset Z)) (us : list Z) : Prop :=
  match live with Some s => NoDup us /\ forall u, u ∈ s <-> u ∈ us | None => us = [] end.
Definition blocks_inv e : Prop :=
  rules_ok (nft_live e) (nft_uids (en_effects e)) /\ rules_ok (ipt_live e) (ipt4_uids (en_effects e)).

Lemma rules_ok_add s us u : rules_ok (Some s) us -> u ∉ s -> rules_ok (Some ({[u]} ∪ s)) (us ++ [u]).
Proof.
  intros [Hn Hs] Hu. split.
  - apply NoDup_app. split; [done|]. split; [|apply NoDup_singleton]. intros x Hx ->%list_elem_of_singleton. by apply Hu, Hs.
  - intros x. rewrite elem_of_union, elem_of_singleton, elem_of_app, list_elem_of_singleton, Hs. tauto.
Qed.

Lemma blocks_same e e' xs :
  blocks_inv e -> nft_live e' = nft_live e -> ipt_live e' = ipt_live e -> en_effects e' = en_effects e ++ xs ->
  nft_uids xs = [] -> ipt4_uids xs = [] -> blocks_inv e'.
Proof.
  intros [H1 H2] E1 E2 Ex Hn Hi. unfold blocks_inv, nft_uids, ipt4_uids in *. rewrite E1, E2, Ex, !omap_app, Hn, Hi, !app_nil_r. done.
Qed.

Lemma xdp_blocks P os daddr dport e m :
  adds P e (xdp_BlockTuple os daddr dport e m).1 ->
  en_nft (xdp_BlockTuple os daddr dport e m).1 = en_nft e /\ en_ipt (xdp_BlockTuple os daddr dport e m).1 = en_ipt e.
Proof.
  intros _. unfold xdp_BlockTuple, xdp_BlockIP, xdp_BlockPort. destruct daddr; simpl; repeat case_match; simplify_eq/=; done.
Qed.

Lemma blocks_net os a e e1 : blocks_inv e -> net_step os a e e1 -> blocks_inv e1.
Proof.
  intros Hi Hs. destruct Hs as [|m Em|m Em|m daddr dport Em|pid Hf|path Hf]; [done| | | | |].
  - unfold nft_BlockUID. case_bool_decide as Hu; [done|]. destruct (nft_dryRun m) eqn:Hd; simpl.
    + eapply (blocks_same e _ []); try done; [unfold nft_live; rewrite Em; simpl; by rewrite Hd|by rewrite app_nil_r].
    + destruct (os_nft_flush os); simpl; [|done]. destruct Hi as [H1 H2]. split; simpl.
      * unfold nft_uids. rewrite omap_app. simpl. unfold nft_live in *. rewrite Em in H1. simpl in *. rewrite Hd in H1.
        by apply rules_ok_add.
      * unfold ipt4_uids. rewrite omap_app. simpl. rewrite app_nil_r. done.
  - unfold ipt_BlockUID. case_bool_decide as Hu; [done|]. destruct (ipt_dryRun m) eqn:Hd; simpl.
    + eapply (blocks_same e _ []); try done; [unfold ipt_live; rewrite Em; simpl; by rewrite Hd|by rewrite app_nil_r].
    + destruct (ipt_v4 m) eqn:H4; simpl.
      * destruct (os_ipt_run os false); simpl; [|done]. destruct Hi as [H1 H2].
        assert (forall x, x = [] \/ x = [IptDropsUID true (ev_UID (al_Event a))] ->
          rules_ok (nft_live e) (nft_uids (en_effects e ++ [IptDropsUID false (ev_UID (al_Event a))] ++ x)) /\
          rules_ok (Some ({[ev_UID (al_Event a)]} ∪ ipt_blockedUIDs m)) (ipt4_uids (en_effects e ++ [IptDropsUID false (ev_UID (al_Event a))] ++ x))) as Hx.
        { intros x Hx. unfold nft_uids, ipt4_uids. rewrite !omap_app. unfold ipt_live in H2. rewrite Em in H2. simpl in H2. rewrite Hd, H4 in H2.
          destruct Hx as [-> | ->]; simpl; rewrite ?app_nil_r; (split; [exact H1|by apply rules_ok_add]). }
        destruct (ipt_v6 m && os_ipt_run os true); simpl; unfold blocks_inv, ipt_live; simpl; rewrite ?Hd, ?H4; simpl.
        -- rewrite <- app_assoc. apply Hx. by right.
        -- rewrite <- (app_nil_r [IptDropsUID false _]). apply Hx. by left.
      * destruct (ipt_v6 m && os_ipt_run os true); simpl.
        -- eapply (blocks_same e _ [_]); try done. unfold ipt_live. rewrite Em. simpl. by rewrite H4, orb_true_r.
        -- eapply (blocks_same e _ []); try done; [unfold ipt_live; rewrite Em; simpl; by rewrite H4, orb_true_r|by rewrite app_nil_r].
  - pose proof (xdp_adds (fun x => nft_uids [x] = [] /\ ipt4_uids [x] = []) os daddr dport e m ltac:(done) ltac:(done)) as Ha.
    destruct (xdp_blocks _ _ _ _ _ _ Ha) as [E1 E2]. destruct (ad_effects _ _ _ Ha) as (xs & Ex & HP & _).
    assert (nft_uids xs = [] /\ ipt4_uids xs = []) as [Hn Hp].
    { clear -HP. induction HP as [|x xs [H1 H2] _ [IH1 IH2]]; [done|]. unfold nft_uids, ipt4_uids in *. destruct x as [| | | [] | | | | |]; simpl in *; try done; auto. }
    eapply blocks_same; [exact Hi|..|exact Ex|exact Hn|exact Hp]; unfold nft_live, ipt_live; by rewrite ?E1, ?E2.
  - by eapply (blocks_same e _ [_]).
  - by eapply (blocks_same e _ [_]).
Qed.

Lemma blocks_parts e e' : parts e' = parts e -> blocks_inv e -> blocks_inv e'.
Proof.
  unfold parts, blocks_inv, nft_live, ipt_live. intros E. injection E as E1 E2 E3 E4 E5 E6. by rewrite E3, E4, E6.
Qed.

Lemma blocks_run p c e : enf_run p c e -> blocks_inv e.
Proof.
  induction 1 as [e E|os action a e _ IH|maxAge now e _ IH|pid e _ IH|l e _ IH]; [| |by apply (blocks_parts e)..].
  - unfold NewEnforcer, new_nft, new_ipt in E. cbn [mbind option_bind] in E.
    assert (rules_ok (Some ∅) [] /\ rules_ok None []) as [R1 R2].
    { split; [|done]. split; [constructor|]. intros u. split; [set_solver|by intros ?%elem_of_nil]. }
    unfold blocks_inv, nft_live, ipt_live. repeat case_match; simplify_eq/=; repeat case_match; done.
  - destruct (decide (action ∈ [ActionBlock; ActionLSMBlock])) as [Ha|Ha].
    + destruct (net_actions os action a e Ha) as (e1 & Hs & Hp). eapply blocks_parts; [exact Hp|]. by eapply blocks_net.
    + destruct (host_actions os action a e Ha) as (xs & HP & _ & Hp). unfold parts in Hp. injection Hp as E1 E2 E3 E4 E5 E6.
      assert (nft_uids xs = [] /\ ipt4_uids xs = []) as [Hn Hi].
      { clear -HP. induction HP as [|x xs Hx _ [IH1 IH2]]; [done|]. unfold nft_uids, ipt4_uids in *. by destruct x. }
      eapply blocks_same; [exact IH|..|exact E6|exact Hn|exact Hi]; unfold nft_live, ipt_live; by rewrite ?E3, ?E4.
Qed.

(** One rule for each blocked user: over any run of enforcement
    calls, however often the alerts repeat and whichever commands fail, the
    backend that installs rules has added exactly one drop rule for every user
    it reports as blocked and none for any other, so removing the rule of a
    user once lets the user's traffic through again. *)
Theorem blocks_once p c e :
  enf_run p c e ->
  NoDup (nft_uids (en_effects e)) /\ NoDup (ipt4_uids (en_effects e)) /\
  (forall m, en_nft e = Some m -> nft_dryRun m = false -> forall u, u ∈ nft_blockedUIDs m <-> NftDropsUID u ∈ en_effects e) /\
  (forall m, en_ipt e = Some m -> ipt_dryRun m = false -> ipt_v4 m = true ->
     forall u, u ∈ ipt_blockedUIDs m <-> IptDropsUID false u ∈ en_effects e).
Proof.
  intros Hr. destruct (blocks_run p c e Hr) as [H1 H2].
  assert (forall live us, rules_ok live us -> NoDup us) as Hn by (intros [s|] us; [by intros []|intros ->; constructor]).
  split; [by eapply Hn|]. split; [by eapply Hn|]. split.
  - intros m Em Hd u. unfold nft_live in H1. rewrite Em in H1. simpl in H1. rewrite Hd in H1. rewrite (proj2 H1 u). unfold nft_uids.
    rewrite list_elem_of_omap. split; [|intros Hx; by exists (NftDropsUID u)]. intros (x & Hx & E). destruct x; try done. by injection E as ->.
  - intros m Em Hd H4 u. unfold ipt_live in H2. rewrite Em in H2. simpl in H2. rewrite Hd, H4 in H2. rewrite (proj2 H2 u). unfold ipt4_uids.
    rewrite list_elem_of_omap. split; [|intros Hx; by exists (IptDropsUID false u)].
    intros (x & Hx & E). destruct x as [| | |[] v| | | | |]; try done. by injection E as ->.
Qed.

(** *** PID reuse *)

(** What protects a recycled process number from being killed: on a
    kernel without pidfd support the kill is aborted, with no effect, when the
    process no longer has the (non-empty) name of the event. With pidfd
    support the name is never read: the handle is opened when the action runs,
    so whichever process has the number by then is killed. *)
Theorem kill_pid_reuse os a e (pid := ev_PID (al_Event a)) (comm := sanitizeComm (until_nul (ev_Comm (al_Event a)))) :
  en_enabled e ActionKill = true -> validateEvent (al_Event a) = None -> os_proc_exists os pid = true ->
  (forall data, os_proc_comm os pid = Some data -> sanitizeComm (trim_newlines data) <> comm) ->
  (en_pidfdSupported e = false -> comm <> [] ->
     (Execute os ActionKill a e).2 <> None /\ en_effects (Execute os ActionKill a e).1 = en_effects e) /\
  (en_pidfdSupported e = true -> os_pidfd_open os pid = true -> os_pidfd_signal os pid = true ->
     (Execute os ActionKill a e).2 = None /\ en_effects (Execute os ActionKill a e).1 = en_effects e ++ [Signalled pid]).
Proof.
  intros Hen Hv Hx Hc. pose proof (validateEvent_ok _ Hv) as [Hpid _]. fold pid in Hpid.
  assert (Execute os ActionKill a e = finish os ActionKill a
    (if en_pidfdSupported e then killViaPidfd os pid e else killViaProc os pid comm e)) as ->.
  { rewrite Execute_kill by done. unfold executeKill. rewrite Hv. fold pid comm. unfold ValidatePID. rewrite (proj2 (Z.eqb_neq pid 0)) by lia. by rewrite Hx. }
  split.
  - intros -> Hne. rewrite finish_effects. unfold killViaProc. rewrite decide_False by done. unfold verifyPIDComm.
    destruct (os_proc_comm os pid) as [data|] eqn:Ed; [|done]. rewrite decide_False by (by apply Hc). done.
  - intros -> Ho Hs. rewrite finish_effects. unfold killViaPidfd. by rewrite Ho, Hs.
Qed.

(** *** Throttle entries *)
Lemma finish_throttles os action a r : en_throttles (finish os action a r).1 = en_throttles r.1.
Proof. destruct r as [e [err|]]; unfold finish, logAudit; simpl; destruct (en_audit e); simpl; by repeat case_match. Qed.

Lemma new_cpu p c e : NewEnforcer p c = Some e -> 1 <= en_cpuPercent e <= 99.
Proof.
  unfold NewEnforcer. set (pct := if _ || _ then 10 else _).
  assert (1 <= pct <= 99) by (subst pct; destruct (_ || _) eqn:E; [lia|]; zbool; lia).
  unfold new_nft, new_ipt. cbn [mbind option_bind]. intros E. repeat case_match; simplify_eq/=; done.
Qed.

Lemma run_cpu p c e : enf_run p c e -> 1 <= en_cpuPercent e <= 99.
Proof.
  induction 1 as [e E|os action a e _ IH|maxAge now e _ IH|pid e _ IH|l e _ IH]; [by eapply new_cpu| |exact IH..].
  assert (en_cpuPercent (Execute os action a e).1 = en_cpuPercent e) as ->; [|done].
  pose proof (Execute_shape os action a e) as Hs. destruct Hs as [err|r _ _ Hr|_ _]; [done| |].
  - pose proof (finish_parts os action a r) as Hp. unfold parts in Hp. injection Hp as _ -> _ _ _ _. by destruct Hr.
  - unfold executeNetworkPolicy. by repeat case_match.
Qed.

(** Throttle bookkeeping: each throttle of a valid event counts once
    for its process, also when the control group cannot be written, and leaves
    the other processes alone; the clean-up removes exactly the entries older
    than the maximum age and reports how many; and in every reachable enforcer
    the quota written to cpu.max is between 1 and 99 percent of the period. *)
Theorem throttle_lifecycle p c e os a :
  enf_run p c e ->
  (let pid := ev_PID (al_Event a) in
   en_enabled e ActionThrottle = true -> validateEvent (al_Event a) = None ->
   exists st, en_throttles (Execute os ActionThrottle a e).1 = <[pid := st]> (en_throttles e) /\
     th_LastThrottle st = os_later os /\
     th_Count st = match en_throttles e !! pid with Some old => th_Count old | None => 0 end + 1) /\
  (forall maxAge now,
     let '(e', removed) := CleanupThrottles maxAge now e in
     (forall pid st, en_throttles e' !! pid = Some st <->
        en_throttles e !! pid = Some st /\ time_Sub now (th_LastThrottle st) <= maxAge) /\
     Z.of_nat (size (en_throttles e')) = Z.of_nat (size (en_throttles e)) - removed) /\
  (exists quota, cpu_max (en_cpuPercent e) = (pretty quota +:+ " " +:+ pretty periodUS +:+ String newline "")%string /\
     periodUS / 100 <= quota <= 99 * (periodUS / 100)).
Proof.
  intros Hr. split; [|split].
  - intros pid Hen Hv. rewrite Execute_throttle by done. unfold executeThrottle. rewrite Hv. fold pid. rewrite finish_throttles. eexists. split.
    + unfold applyCgroupThrottle. repeat case_match; simpl; reflexivity.
    + simpl. split; [done|]. by destruct (en_throttles e !! pid).
  - intros maxAge now. unfold CleanupThrottles. set (stale := filter _ (en_throttles e)). simpl. split.
    + intros pid st. rewrite lookup_difference_Some. subst stale. rewrite map_lookup_filter_None. split.
      * intros [Hs [Hn|Hn]]; [congruence|]. split; [done|]. specialize (Hn st Hs). simpl in Hn. lia.
      * intros [Hs Hle]. split; [done|]. right. intros st' Hs'. simpl. rewrite Hs in Hs'. injection Hs' as <-. lia.
    + pose proof (map_size_disj_union stale (en_throttles e ∖ stale) (map_disjoint_difference_r1 _ _ _ (reflexivity stale))) as Hsz.
      rewrite map_difference_union in Hsz by apply map_filter_subseteq. lia.
  - pose proof (run_cpu p c e Hr) as Hc. eexists. split; [reflexivity|]. unfold periodUS.
    rewrite Z.quot_div_nonneg by lia. change (100000 / 100) with 1000.
    replace (100000 * en_cpuPercent e) with (1000 * en_cpuPercent e * 100) by lia. rewrite Z.div_mul by lia. lia.
Qed.
End enforcer_theorems.

(** ** Names in logs *)
Definition printable (b : byte) : Prop := 32 <= byte_Z b /\ byte_Z b <> 127.

Lemma hex_escape_ok z : 0 <= z < 256 -> Forall printable (hex_escape z) /\ length (hex_escape z) = 4%nat.
Proof.
  intros Hz. set (ok z := forallb (fun b => (32 <=? byte_Z b) && negb (byte_Z b =? 127)) (hex_escape z) && Nat.eqb (length (hex_escape z)) 4).
  assert (forallb ok (seqZ 0 256) = true) as Hall by (vm_compute; reflexivity).
  rewrite forallb_forall in Hall. specialize (Hall z). rewrite <- list_elem_of_In, elem_of_seqZ in Hall. specialize (Hall ltac:(lia)).
  unfold ok in Hall. apply andb_true_iff in Hall as [Hp Hl]. split; [|by apply Nat.eqb_eq].
  apply Forall_forall. intros b Hb. rewrite forallb_forall in Hp. rewrite list_elem_of_In in Hb. specialize (Hp b Hb).
  zbool. by split.
Qed.

(** [sanitizeComm] is safe to print: whatever bytes a process name
    holds, the result has no ASCII control character (so no line break and no
    terminal escape) and at most four bytes for each byte of the name; and a
    name that is printable ASCII already is left as it is. *)
Theorem sanitizeComm_printable raw :
  Forall printable (sanitizeComm raw) /\ (length (sanitizeComm raw) <= 4 * length raw)%nat /\
  (Forall (fun b => printable b /\ byte_Z b < 128) raw -> sanitizeComm raw = raw).
Proof.
  unfold sanitizeComm. assert (forall fuel, (length raw <= fuel)%nat ->
    Forall printable (sanitize_loop fuel raw) /\ (length (sanitize_loop fuel raw) <= 4 * length raw)%nat /\
    (Forall (fun b => printable b /\ byte_Z b < 128) raw -> sanitize_loop fuel raw = raw)) as Hx; [|by apply Hx].
  intros fuel. revert raw. induction fuel as [|fuel IH]; intros [|b rest] Hl; try (simpl in Hl; lia);
    [by split; [constructor|split; [simpl; lia|]]..|].
  pose proof (DecodeRune_spec b rest) as Hd. pose proof (byte_Z_range b) as Hb. cbn [sanitize_loop].
  destruct (DecodeRune (b :: rest)) as [r n] eqn:Ed. destruct Hd as [Hr Hd].
  assert (1 <= n <= length (b :: rest))%nat as Hn by (simpl; destruct Hd as [[-> _]|[Hn _]]; [lia|simpl in Hn; lia]).
  destruct (IH (drop n (b :: rest))) as (P1 & P2 & P3); [rewrite length_drop; simpl in *; lia|].
  rewrite length_drop in P2.
  assert (Forall (fun b => printable b /\ byte_Z b < 128) (b :: rest) -> n = 1%nat /\ r = byte_Z b) as Hone.
  { intros Hf. destruct Hd as [[-> [[-> _]| ->]]|[Hn2 Hhi]]; [done| |].
    - exfalso. simpl in Ed. apply Forall_cons in Hf as [[_ Hf] _]. rewrite (proj2 (Z.ltb_lt _ _) Hf) in Ed. injection Ed as Ed. unfold RuneError in Ed. lia.
    - exfalso. destruct n; [lia|]. simpl in Hhi. apply Forall_cons in Hhi as [Hhi _]. apply Forall_cons in Hf as [[_ Hf] _]. lia. }
  destruct ((r =? RuneError) && Nat.eqb n 1) eqn:E1; [|destruct ((r <? 32) || (r =? 127)) eqn:E2].
  - apply andb_true_iff in E1 as [Er En]. apply Nat.eqb_eq in En as ->. apply Z.eqb_eq in Er as ->. cbn [drop] in *. rewrite drop_0 in *.
    destruct (hex_escape_ok (byte_Z b)) as [Hp Hh]; [done|]. split; [by apply Forall_app|]. split; [rewrite length_app; simpl in *; lia|].
    intros Hf. destruct (Hone Hf) as [_ Hf']. unfold RuneError in Hf'. lia.
  - apply orb_true_iff in E2. destruct (hex_escape_ok r) as [Hp Hh]; [destruct E2; zbool; lia|].
    split; [by apply Forall_app|]. split; [rewrite length_app; simpl in *; lia|].
    intros Hf. destruct (Hone Hf) as [_ ->]. apply Forall_cons in Hf as [[[? ?] ?] _]. destruct E2; zbool; lia.
  - split; [|split].
    + apply Forall_app. split; [|done]. destruct Hd as [[-> [[-> Hlt]| ->]]|[_ Hhi]].
      * simpl. constructor; [|done]. zbool. split; lia.
      * done.
      * eapply Forall_impl; [exact Hhi|]. intros c Hc. simpl in Hc. split; lia.
    + rewrite length_app, length_take. simpl in *. lia.
    + intros Hf. destruct (Hone Hf) as [-> ->]. simpl in *. f_equal. rewrite drop_0 in *. apply P3. by apply Forall_cons in Hf as [_ ?].
Qed.

(** ** A run: dry-run mode with kill and throttle enabled *)
Module Example_enforcer.
#[local] Existing Instance sample_lib.

Definition comm : list byte := string_bytes "miner" ++ zeros 11.
Definition sample_alert : Alert :=
  mkAlert "a1" 0 "crypto" "" "critical" 4242 "miner" "" "" "" None empty_enrichment
    (event_header 1 0 4242 4242 1 1000 comm (zeros 16)) [] "" "kill" true [] 1 0 0 "".
Definition sample_os (name : gostring) : osys :=
  mkOS 100 101 (fun pid => pid =? 4242) (fun _ => Some (string_bytes name)) (fun _ => Some ("0::/kubepods/pod1" +:+ String newline "")%string)
    (fun _ => true) (fun _ => true) (fun _ => true) (fun _ => true) true (fun _ => true) (fun _ => true) true true true true.
Definition sample_probes (pidfd : bool) : probes := mkProbes true true true true true true pidfd.
Definition sample_config (dry : bool) : Config := mkEnforcerConfig true true true BlockBackendNFTables "" dry (Some 8) true false 250.
Definition sample_enforcer (pidfd dry : bool) : Enforcer :=
  default (mkEnforcer (fun _ => false) "" false 0 false ∅ None None None false false None 0 0 (fun _ => 0) [])
    (NewEnforcer (sample_probes pidfd) (sample_config dry)).
Definition blocked : Enforcer :=
  (Execute (sample_os "miner") ActionBlock sample_alert (Execute (sample_os "miner") ActionBlock sample_alert (sample_enforcer true false)).1).1.

Lemma sample_run pidfd dry : enf_run (sample_probes pidfd) (sample_config dry) (sample_enforcer pidfd dry).
Proof. constructor. by destruct dry. Qed.

(** The witness of [enforcement_audited]. *)
Lemma enforcement_audited_witness :
  en_audit (Execute (sample_os "miner") ActionKill sample_alert (sample_enforcer true false)).1 =
  Some [audit_entry (sample_os "miner") ActionKill sample_alert None].
Proof.
  pose proof (enforcement_audited (sample_os "miner") ActionKill sample_alert (sample_enforcer true false) [] eq_refl) as H.
  destruct (Execute _ _ _ _) as [e' err] eqn:E. assert (err = None) as -> by (change err with (e', err).2; rewrite <- E; reflexivity).
  destruct H as [[_ H]|[H|H]]; [by destruct H|discriminate|]. exact (proj1 (proj2 (proj2 (proj2 (proj2 (proj2 H)))))).
Defined.

(** The witness of [dry_run_scope]: a dry-run enforcer kills. *)
Lemma dry_run_scope_witness :
  en_effects (Execute (sample_os "miner") ActionBlock sample_alert (sample_enforcer true true)).1 = [] /\
  en_effects (Execute (sample_os "miner") ActionKill sample_alert (sample_enforcer true true)).1 = [Signalled 4242] /\
  en_effects (Execute (sample_os "miner") ActionThrottle sample_alert (sample_enforcer true true)).1 =
    [WroteFile "/sys/fs/cgroup/kubepods/pod1/cpu.max" (cpu_max 10)].
Proof.
  destruct (dry_run_scope (sample_probes true) (sample_config true) (sample_enforcer true true) (sample_os "miner") sample_alert
    eq_refl (sample_run true true)) as [Hb Hk].
  destruct (Hk eq_refl) as [Hkill Hth]. split; [|split].
  - apply (Hb ActionBlock). by left.
  - apply Hkill; reflexivity.
  - apply (Hth "/sys/fs/cgroup/kubepods/pod1"%string); vm_compute; reflexivity.
Defined.

(** The witness of [blocks_once]: a user blocked twice has one rule. *)
Lemma blocks_once_witness : NoDup (nft_uids (en_effects blocked)) /\ en_effects blocked = [NftDropsUID 1000].
Proof.
  split; [|vm_compute; reflexivity].
  apply (blocks_once (sample_probes true) (sample_config false) blocked). unfold blocked. do 2 apply run_execute. apply sample_run.
Defined.

(** The witness of [kill_pid_reuse]: the process number now belongs to sshd. *)
Lemma kill_pid_reuse_witness :
  en_effects (Execute (sample_os "sshd") ActionKill sample_alert (sample_enforcer false false)).1 = [] /\
  en_effects (Execute (sample_os "sshd") ActionKill sample_alert (sample_enforcer true false)).1 = [Signalled 4242].
Proof.
  split.
  - apply (kill_pid_reuse (sample_os "sshd") sample_alert (sample_enforcer false false)); try reflexivity; [|discriminate].
    intros data [= <-]. discriminate.
  - apply (kill_pid_reuse (sample_os "sshd") sample_alert (sample_enforcer true false)); try reflexivity.
    intros data [= <-]. discriminate.
Defined.

(** The witness of [throttle_lifecycle]. *)
Lemma throttle_lifecycle_witness :
  exists st, en_throttles (Execute (sample_os "miner") ActionThrottle sample_alert (sample_enforcer true false)).1 = {[4242 := st]} /\
    th_Count st = 1.
Proof.
  destruct (throttle_lifecycle _ _ _ (sample_os "miner") sample_alert (sample_run true false)) as [Ht _].
  destruct (Ht eq_refl eq_refl) as (st & E & _ & Hc). exists st. split; [exact E|exact Hc].
Defined.

(** The witness of [sanitizeComm_printable]: a terminal escape becomes text. *)
Lemma sanitizeComm_witness :
  sanitizeComm (string_bytes "nginx") = string_bytes "nginx" /\
  sanitizeComm (Byte.x1b :: string_bytes "[2J") = string_bytes "\x1b[2J".
Proof.
  split; [|vm_compute; reflexivity]. apply (sanitizeComm_printable (string_bytes "nginx")).
  repeat (constructor; [vm_compute; split; [split; [intros H; discriminate H|intros H; discriminate H]|reflexivity]|]). constructor.
Defined.
End Example_enforcer.
