(* ===== verification/Autolearn.v ===== *)
(** * Learning a profile

    Models src/internal/autolearn: the learning session (learner.go) that
    folds events into sets of observed behaviour, the rules and the seccomp
    profile exported from it (export.go) and the table of syscall names
    (syscall_names.go). The sets are Go maps: a snapshot lists their elements
    in an order given by the run, an argument of the theorems. The texts of
    the time stamp and of the duration are arguments. Theorems: what the
    exported rules fire on, in terms of the events that were learned, and
    that the rule loader refuses the exported file. *)
From Stdlib Require Import Ascii.
From stdpp Require Import sorting pretty.
From S2P Require Import Prelude GoBytes GoText Types Fields RuleTypes Sampler Rules RuleLoader.

(** ** Syscall names *)
Definition syscallNames : list (Z * gostring) :=
  [ (0, "read"); (1, "write"); (2, "open"); (3, "close"); (4, "stat"); (5, "fstat"); (6, "lstat"); (7, "poll");
    (8, "lseek"); (9, "mmap"); (10, "mprotect"); (11, "munmap"); (12, "brk"); (13, "rt_sigaction");
    (14, "rt_sigprocmask"); (15, "rt_sigreturn"); (16, "ioctl"); (17, "pread64"); (18, "pwrite64"); (19, "readv");
    (20, "writev"); (21, "access"); (22, "pipe"); (23, "select"); (24, "sched_yield"); (25, "mremap"); (26, "msync");
    (27, "mincore"); (28, "madvise"); (29, "shmget"); (30, "shmat"); (31, "shmctl"); (32, "dup"); (33, "dup2");
    (34, "pause"); (35, "nanosleep"); (36, "getitimer"); (37, "alarm"); (38, "setitimer"); (39, "getpid");
    (40, "sendfile"); (41, "socket"); (42, "connect"); (43, "accept"); (44, "sendto"); (45, "recvfrom");
    (46, "sendmsg"); (47, "recvmsg"); (48, "shutdown"); (49, "bind"); (50, "listen"); (51, "getsockname");
    (52, "getpeername"); (53, "socketpair"); (54, "setsockopt"); (55, "getsockopt"); (56, "clone"); (57, "fork");
    (58, "vfork"); (59, "execve"); (60, "exit"); (61, "wait4"); (62, "kill"); (63, "uname"); (64, "semget");
    (65, "semop"); (66, "semctl"); (67, "shmdt"); (68, "msgget"); (69, "msgsnd"); (70, "msgrcv"); (71, "msgctl");
    (72, "fcntl"); (73, "flock"); (74, "fsync"); (75, "fdatasync"); (76, "truncate"); (77, "ftruncate");
    (78, "getdents"); (79, "getcwd"); (80, "chdir"); (81, "fchdir"); (82, "rename"); (83, "mkdir"); (84, "rmdir");
    (85, "creat"); (86, "link"); (87, "unlink"); (88, "symlink"); (89, "readlink"); (90, "chmod"); (91, "fchmod");
    (92, "chown"); (93, "fchown"); (94, "lchown"); (95, "umask"); (96, "gettimeofday"); (97, "getrlimit");
    (98, "getrusage"); (99, "sysinfo"); (100, "times"); (101, "ptrace"); (102, "getuid"); (103, "syslog");
    (104, "getgid"); (105, "setuid"); (106, "setgid"); (107, "geteuid"); (108, "getegid"); (109, "setpgid");
    (110, "getppid"); (111, "getpgrp"); (112, "setsid"); (113, "setreuid"); (114, "setregid"); (115, "getgroups");
    (116, "setgroups"); (117, "setresuid"); (118, "getresuid"); (119, "setresgid"); (120, "getresgid");
    (121, "getpgid"); (122, "setfsuid"); (123, "setfsgid"); (124, "getsid"); (125, "capget"); (126, "capset");
    (127, "rt_sigpending"); (128, "rt_sigtimedwait"); (129, "rt_sigqueueinfo"); (130, "rt_sigsuspend");
    (131, "sigaltstack"); (132, "utime"); (133, "mknod"); (134, "uselib"); (135, "personality"); (136, "ustat");
    (137, "statfs"); (138, "fstatfs"); (139, "sysfs"); (140, "getpriority"); (141, "setpriority");
    (142, "sched_setparam"); (143, "sched_getparam"); (144, "sched_setscheduler"); (145, "sched_getscheduler");
    (146, "sched_get_priority_max"); (147, "sched_get_priority_min"); (148, "sched_rr_get_interval"); (149, "mlock");
    (150, "munlock"); (151, "mlockall"); (152, "munlockall"); (153, "vhangup"); (154, "modify_ldt");
    (155, "pivot_root"); (156, "_sysctl"); (157, "prctl"); (158, "arch_prctl"); (159, "adjtimex");
    (160, "setrlimit"); (161, "chroot"); (162, "sync"); (163, "acct"); (164, "settimeofday"); (165, "mount");
    (166, "umount2"); (167, "swapon"); (168, "swapoff"); (169, "reboot"); (170, "sethostname");
    (171, "setdomainname"); (172, "iopl"); (173, "ioperm"); (174, "create_module"); (175, "init_module");
    (176, "delete_module"); (177, "get_kernel_syms"); (178, "query_module"); (179, "quotactl"); (180, "nfsservctl");
    (181, "getpmsg"); (182, "putpmsg"); (183, "afs_syscall"); (184, "tuxcall"); (185, "security"); (186, "gettid");
    (187, "readahead"); (188, "setxattr"); (189, "lsetxattr"); (190, "fsetxattr"); (191, "getxattr");
    (192, "lgetxattr"); (193, "fgetxattr"); (194, "listxattr"); (195, "llistxattr"); (196, "flistxattr");
    (197, "removexattr"); (198, "lremovexattr"); (199, "fremovexattr"); (200, "tkill"); (201, "time");
    (202, "futex"); (203, "sched_setaffinity"); (204, "sched_getaffinity"); (205, "set_thread_area");
    (206, "io_setup"); (207, "io_destroy"); (208, "io_getevents"); (209, "io_submit"); (210, "io_cancel");
    (211, "get_thread_area"); (212, "lookup_dcookie"); (213, "epoll_create"); (214, "epoll_ctl_old");
    (215, "epoll_wait_old"); (216, "remap_file_pages"); (217, "getdents64"); (218, "set_tid_address");
    (219, "restart_syscall"); (220, "semtimedop"); (221, "fadvise64"); (222, "timer_create"); (223, "timer_settime");
    (224, "timer_gettime"); (225, "timer_getoverrun"); (226, "timer_delete"); (227, "clock_settime");
    (228, "clock_gettime"); (229, "clock_getres"); (230, "clock_nanosleep"); (231, "exit_group");
    (232, "epoll_wait"); (233, "epoll_ctl"); (234, "tgkill"); (235, "utimes"); (236, "vserver"); (237, "mbind");
    (238, "set_mempolicy"); (239, "get_mempolicy"); (240, "mq_open"); (241, "mq_unlink"); (242, "mq_timedsend");
    (243, "mq_timedreceive"); (244, "mq_notify"); (245, "mq_getsetattr"); (246, "kexec_load"); (247, "waitid");
    (248, "add_key"); (249, "request_key"); (250, "keyctl"); (251, "ioprio_set"); (252, "ioprio_get");
    (253, "inotify_init"); (254, "inotify_add_watch"); (255, "inotify_rm_watch"); (256, "migrate_pages");
    (257, "openat"); (258, "mkdirat"); (259, "mknodat"); (260, "fchownat"); (261, "futimesat"); (262, "newfstatat");
    (263, "unlinkat"); (264, "renameat"); (265, "linkat"); (266, "symlinkat"); (267, "readlinkat");
    (268, "fchmodat"); (269, "faccessat"); (270, "pselect6"); (271, "ppoll"); (272, "unshare");
    (273, "set_robust_list"); (274, "get_robust_list"); (275, "splice"); (276, "tee"); (277, "sync_file_range");
    (278, "vmsplice"); (279, "move_pages"); (280, "utimensat"); (281, "epoll_pwait"); (282, "signalfd");
    (283, "timerfd_create"); (284, "eventfd"); (285, "fallocate"); (286, "timerfd_settime");
    (287, "timerfd_gettime"); (288, "accept4"); (289, "signalfd4"); (290, "eventfd2"); (291, "epoll_create1");
    (292, "dup3"); (293, "pipe2"); (294, "inotify_init1"); (295, "preadv"); (296, "pwritev");
    (297, "rt_tgsigqueueinfo"); (298, "perf_event_open"); (299, "recvmmsg"); (300, "fanotify_init");
    (301, "fanotify_mark"); (302, "prlimit64"); (303, "name_to_handle_at"); (304, "open_by_handle_at");
    (305, "clock_adjtime"); (306, "syncfs"); (307, "sendmmsg"); (308, "setns"); (309, "getcpu");
    (310, "process_vm_readv"); (311, "process_vm_writev"); (312, "kcmp"); (313, "finit_module");
    (314, "sched_setattr"); (315, "sched_getattr"); (316, "renameat2"); (317, "seccomp"); (318, "getrandom");
    (319, "memfd_create"); (320, "kexec_file_load"); (321, "bpf"); (322, "execveat"); (323, "userfaultfd");
    (324, "membarrier"); (325, "mlock2"); (326, "copy_file_range"); (327, "preadv2"); (328, "pwritev2");
    (329, "pkey_mprotect"); (330, "pkey_alloc"); (331, "pkey_free"); (332, "statx"); (333, "io_pgetevents");
    (334, "rseq"); (424, "pidfd_send_signal"); (425, "io_uring_setup"); (426, "io_uring_enter");
    (427, "io_uring_register"); (428, "open_tree"); (429, "move_mount"); (430, "fsopen"); (431, "fsconfig");
    (432, "fsmount"); (433, "fspick"); (434, "pidfd_open"); (435, "clone3"); (436, "close_range"); (437, "openat2");
    (438, "pidfd_getfd"); (439, "faccessat2"); (440, "process_madvise"); (441, "epoll_pwait2");
    (442, "mount_setattr"); (443, "quotactl_fd"); (444, "landlock_create_ruleset"); (445, "landlock_add_rule");
    (446, "landlock_restrict_self"); (447, "memfd_secret"); (448, "process_mrelease"); (449, "futex_waitv");
    (450, "set_mempolicy_home_node") ]%string.

Definition SyscallName (nr : Z) : gostring :=
  match assoc nr syscallNames with Some name => name | None => ("syscall_" +:+ pretty nr)%string end.

(** [syscallNrs] is the table read backwards; its names are distinct. *)
Definition syscallNrs : list (gostring * Z) := map (fun '(nr, name) => (name, nr)) syscallNames.
Definition SyscallNr (name : gostring) : option Z := assoc name syscallNrs.

(** ** The session *)
Record SessionConfig := mkSessionConfig {
  sc_Duration : Z; sc_Namespace : gostring; sc_ContainerID : gostring; sc_CommFilter : gostring }.

Record Session := mkSession {
  se_syscalls : gset Z; se_netPeers : gset gostring; se_destPorts : gset Z; se_destIPs : gset gostring;
  se_filePaths : gset gostring; se_fileDirs : gset gostring; se_comms : gset gostring; se_execPaths : gset gostring;
  se_namespace : gostring; se_containerID : gostring; se_commFilter : gostring;
  se_startTime : Z; se_duration : Z; se_eventCount : Z }.

Definition NewSession (cfg : SessionConfig) (now : Z) : Session :=
  mkSession ∅ ∅ ∅ ∅ ∅ ∅ ∅ ∅ (sc_Namespace cfg) (sc_ContainerID cfg) (sc_CommFilter cfg) now (sc_Duration cfg) 0.

Definition extractDir (path : gostring) : gostring :=
  match split_last "/" path with Some (d, _) => (d +:+ "/")%string | None => ""%string end.

Definition isExecutablePath (path : gostring) : bool :=
  existsb (HasPrefix path) ["/bin/"; "/sbin/"; "/usr/bin/"; "/usr/sbin/"; "/usr/local/bin/"]%string.

Definition matchesFilter (s : Session) (e : Event) : bool :=
  let enriched (get : EnrichmentInfo -> gostring) (want : gostring) :=
    bool_decide (want = ""%string) ||
    match ev_Enrichment e with None => false | Some i => bool_decide (get i = want) end in
  enriched en_Namespace (se_namespace s) && enriched en_ContainerID (se_containerID s) &&
  (bool_decide (se_commFilter s = ""%string) || HasPrefix (BytesToString (ev_Comm e)) (se_commFilter s)).

Definition count_event (e : Event) (s : Session) : Session :=
  let comm := BytesToString (ev_Comm e) in
  mkSession (se_syscalls s) (se_netPeers s) (se_destPorts s) (se_destIPs s) (se_filePaths s) (se_fileDirs s)
    (if bool_decide (comm = ""%string) then se_comms s else {[comm]} ∪ se_comms s) (se_execPaths s)
    (se_namespace s) (se_containerID s) (se_commFilter s) (se_startTime s) (se_duration s) (u64 (se_eventCount s + 1)).

Definition learn_syscall (nr : Z) (s : Session) : Session :=
  mkSession ({[nr]} ∪ se_syscalls s) (se_netPeers s) (se_destPorts s) (se_destIPs s) (se_filePaths s) (se_fileDirs s)
    (se_comms s) (se_execPaths s) (se_namespace s) (se_containerID s) (se_commFilter s) (se_startTime s) (se_duration s) (se_eventCount s).
Definition learn_peer (ip : gostring) (port : Z) (s : Session) : Session :=
  mkSession (se_syscalls s) ({[(ip +:+ ":" +:+ pretty port)%string]} ∪ se_netPeers s) ({[port]} ∪ se_destPorts s) ({[ip]} ∪ se_destIPs s)
    (se_filePaths s) (se_fileDirs s) (se_comms s) (se_execPaths s) (se_namespace s) (se_containerID s) (se_commFilter s)
    (se_startTime s) (se_duration s) (se_eventCount s).
Definition learn_path (path : gostring) (s : Session) : Session :=
  let dir := extractDir path in
  mkSession (se_syscalls s) (se_netPeers s) (se_destPorts s) (se_destIPs s) ({[path]} ∪ se_filePaths s)
    (if bool_decide (dir = ""%string) then se_fileDirs s else {[dir]} ∪ se_fileDirs s) (se_comms s)
    (if isExecutablePath path then {[path]} ∪ se_execPaths s else se_execPaths s)
    (se_namespace s) (se_containerID s) (se_commFilter s) (se_startTime s) (se_duration s) (se_eventCount s).

(** ** Snapshots and exported rules *)
Record Snapshot := mkSnapshot {
  sn_GeneratedAt : Z; sn_Duration : Z; sn_EventCount : Z; sn_Namespace : gostring; sn_ContainerID : gostring;
  sn_CommFilter : gostring; sn_Syscalls : list Z; sn_DestPorts : list Z; sn_DestIPs : list gostring;
  sn_FileDirs : list gostring; sn_ExecPaths : list gostring; sn_Comms : list gostring }.

(** The orders in which one run iterates over the sets. *)
Record map_orders := mkOrders { mo_nums : gset Z -> list Z; mo_strings : gset gostring -> list gostring }.
Definition orders_ok (o : map_orders) : Prop :=
  (forall s, mo_nums o s ≡ₚ elements s) /\ (forall s, mo_strings o s ≡ₚ elements s).

Definition take_snapshot (o : map_orders) (now : Z) (s : Session) : Snapshot :=
  mkSnapshot now (se_duration s) (se_eventCount s) (se_namespace s) (se_containerID s) (se_commFilter s)
    (mo_nums o (se_syscalls s)) (mo_nums o (se_destPorts s)) (mo_strings o (se_destIPs s)) (mo_strings o (se_fileDirs s))
    (mo_strings o (se_execPaths s)) (mo_strings o (se_comms s)).

(** [sanitizeLabel] ranges over code points: each character that is not a
    letter, a digit or a hyphen is one underscore, an invalid byte too. *)
Definition label_char (c : ascii) : bool :=
  let n := N_of_ascii c in
  ((97 <=? n) && (n <=? 122) || (65 <=? n) && (n <=? 90) || (48 <=? n) && (n <=? 57) || (n =? 45))%N.
Fixpoint label_loop (skip : nat) (s : gostring) : gostring :=
  match s with
  | EmptyString => EmptyString
  | String c s' =>
      match skip with
      | S skip => label_loop skip s'
      | O => String (if label_char c then c else "_"%char)
               (label_loop ((DecodeRune (string_bytes s)).2 - 1) s')
      end
  end.

Definition sanitizeLabel (s : gostring) : gostring := label_loop 0 s.

Definition workloadLabel (sn : Snapshot) : gostring :=
  if negb (bool_decide (sn_CommFilter sn = ""%string)) then sanitizeLabel (sn_CommFilter sn)
  else if negb (bool_decide (sn_Namespace sn = ""%string)) then sanitizeLabel (sn_Namespace sn)
  else "default"%string.

(** An entry of the rule file; the condition is always the single one. *)
Record ruleEntry := mkEntry {
  re_ID : gostring; re_Name : gostring; re_Description : gostring; re_EventType : gostring; re_Condition : RuleCondition;
  re_Severity : gostring; re_Action : gostring; re_Tags : list gostring }.

Definition sortedInt64 (l : list Z) : list Z := merge_sort Z.le l.
Definition sortedUint16 (l : list Z) : list Z := merge_sort Z.le l.
Definition sortedStrings (l : list gostring) : list gostring := merge_sort str_le l.

Section export.
Context (durText nowText : gostring).

Definition profile_entry (label kind what unobserved eventType field : gostring) (values tags : list gostring) : ruleEntry :=
  mkEntry ("autoprofile_" +:+ label +:+ "_" +:+ kind) ("Auto-profile: unexpected " +:+ what +:+ " in " +:+ label)
    (unobserved +:+ " during " +:+ durText +:+ " learning window (generated " +:+ nowText +:+ ")")
    eventType (condition field "not_in" values) "warning" "alert" ("auto-profile" :: "generated" :: tags).

(** One allowlist rule for each non-empty list. *)
Definition exported_rules (sn : Snapshot) : list ruleEntry :=
  let label := workloadLabel sn in
  let rule {A} (l : list A) e := match l with [] => [] | _ => [e] end in
  rule (sn_Syscalls sn) (profile_entry label "syscall_allowlist" "syscall" "Syscall not observed" "syscall" "syscall_nr"
    (map pretty (sortedInt64 (sn_Syscalls sn))) []) ++
  rule (sn_DestPorts sn) (profile_entry label "net_dport_allowlist" "destination port" "Destination port not observed" "network" "dport"
    (map pretty (sortedUint16 (sn_DestPorts sn))) ["network"%string]) ++
  rule (sn_DestIPs sn) (profile_entry label "net_daddr_allowlist" "destination IP" "Destination IP not observed" "network" "daddr"
    (sortedStrings (sn_DestIPs sn)) ["network"%string]) ++
  rule (sn_FileDirs sn) (profile_entry label "file_dir_allowlist" "file directory access" "Directory not accessed" "file" "filename"
    (sortedStrings (sn_FileDirs sn)) ["file"%string]).
End export.

Variant export_error := MkdirFailed | MarshalFailed | WriteFailed.

(** The file written, if any; [mkdir] and [write] tell whether the system
    calls succeed, [marshal] is the encoder with its comment header. *)
Definition ExportRules (durText nowText : gostring) (mkdir write : bool)
    (marshal : list ruleEntry -> option (list byte)) (sn : Snapshot) : result export_error (list byte) :=
  if negb mkdir then Err MkdirFailed else
  match marshal (exported_rules durText nowText sn) with
  | None => Err MarshalFailed
  | Some data => if write then Ok data else Err WriteFailed
  end.

Record seccompProfile := mkSeccomp { sec_DefaultAction : gostring; sec_Architectures : list gostring; sec_Syscalls : list (list gostring * gostring) }.

Definition seccomp_profile (sn : Snapshot) : seccompProfile :=
  mkSeccomp "SCMP_ACT_ERRNO" ["SCMP_ARCH_X86_64"; "SCMP_ARCH_X86"; "SCMP_ARCH_X32"]
    [(map SyscallName (sortedInt64 (sn_Syscalls sn)), "SCMP_ACT_ALLOW"%string)].

Section session.
Context `{GoLib}.

Definition Ingest (s : Session) (e : Event) : Session :=
  if negb (matchesFilter s e) then s else
  let s := count_event e s in
  if ev_Type e =? EventSyscall then
    match ev_Syscall e with Some c => learn_syscall (sys_Nr c) s | None => s end
  else if ev_Type e =? EventTCPConnect then
    match ev_Network e with
    | Some n => learn_peer (FormatIP16 (net_Daddr n) (net_Family n)) (net_Dport n) s
    | None => s
    end
  else if ev_Type e =? EventFileAccess then
    match ev_File e with
    | Some f =>
        let path := BytesToString (file_Filename f) in
        if bool_decide (path = ""%string) then s else learn_path path s
    | None => s
    end
  else s.

(** The events of a session, up to its deadline. *)
Definition session_after (cfg : SessionConfig) (start : Z) (events : list Event) : Session :=
  foldl Ingest (NewSession cfg start) events.

(** The rule a loader decodes from an entry of the file. *)
Definition entry_rule (x : ruleEntry) : Rule :=
  mkRule _ (re_ID x) (re_Name x) (re_Description x) (default 0 (assoc (re_EventType x) eventTypeNames)) false
    (re_Condition x) None (re_Severity x) (re_Action x) [] (re_Tags x) ""%string None float_0 false.
End session.

(** * Theorems *)

(** ** Syscall names *)
Lemma assoc_NoDup {A B} `{EqDecision A} (k : A) (v : B) l : NoDup (map fst l) -> (k, v) ∈ l -> assoc k l = Some v.
Proof.
  induction l as [|[x w] l IH]; simpl; [by intros _ ?%elem_of_nil|]. intros [Hn Hd]%NoDup_cons [E|Hin]%elem_of_cons.
  - injection E as -> ->. by rewrite decide_True by done.
  - case_decide as Hk; [|auto]. subst. destruct Hn. apply list_elem_of_fmap. by exists (x, v).
Qed.

(** The names of the syscall table identify their numbers, so a
    profile written with names means the numbers that were observed: the name
    of every number in the table is read back as that number. *)
Theorem syscall_names_roundtrip nr name : assoc nr syscallNames = Some name -> SyscallNr (SyscallName nr) = Some nr.
Proof.
  intros E. unfold SyscallName. rewrite E. unfold SyscallNr. apply assoc_NoDup.
  - unfold syscallNrs. rewrite map_map. apply (bool_decide_unpack (NoDup _)). vm_compute. reflexivity.
  - unfold syscallNrs. apply list_elem_of_fmap. exists (nr, name). split; [done|by apply assoc_elem].
Qed.

Lemma union_swap {A} `{Countable A} (X U S : gset A) : U ∪ (X ∪ S) = X ∪ U ∪ S.
Proof. by rewrite (assoc_L (∪)), (comm_L (∪) U X). Qed.

Section learned.
Context `{GoLib} (cfg : SessionConfig).

(** ** What a session has learned *)

(** The events the filters of the session let through. *)
Definition watched (e : Event) : bool := matchesFilter (NewSession cfg 0) e.

Definition syscalls_of (e : Event) : gset Z :=
  if ev_Type e =? EventSyscall then match ev_Syscall e with Some c => {[sys_Nr c]} | None => ∅ end else ∅.
Definition peer_of {A} `{Countable A} (f : NetworkEvent -> A) (e : Event) : gset A :=
  if ev_Type e =? EventTCPConnect then match ev_Network e with Some n => {[f n]} | None => ∅ end else ∅.
Definition ip_of (n : NetworkEvent) : gostring := FormatIP16 (net_Daddr n) (net_Family n).
Definition dirs_of (e : Event) : gset gostring :=
  if ev_Type e =? EventFileAccess then
    match ev_File e with
    | Some f => let d := extractDir (BytesToString (file_Filename f)) in if decide (d = ""%string) then ∅ else {[d]}
    | None => ∅
    end
  else ∅.

Definition filters (s : Session) := (se_namespace s, se_containerID s, se_commFilter s).

Lemma matches_filters s s' e : filters s = filters s' -> matchesFilter s e = matchesFilter s' e.
Proof. unfold filters. intros [= E1 E2 E3]. unfold matchesFilter. by rewrite E1, E2, E3. Qed.

Lemma Ingest_filters s e : filters (Ingest s e) = filters s.
Proof. unfold Ingest. by repeat case_match. Qed.

(** Equal unions, up to the empty set. *)
Ltac sets_eq := simpl; rewrite ?(left_id_L ∅ (∪)); reflexivity.

Lemma Ingest_sets s e :
  let new {A} `{Countable A} (x : gset A) := if matchesFilter s e then x else ∅ in
  se_syscalls (Ingest s e) = new (syscalls_of e) ∪ se_syscalls s /\
  se_destPorts (Ingest s e) = new (peer_of net_Dport e) ∪ se_destPorts s /\
  se_destIPs (Ingest s e) = new (peer_of ip_of e) ∪ se_destIPs s /\
  se_fileDirs (Ingest s e) = new (dirs_of e) ∪ se_fileDirs s.
Proof.
  unfold Ingest, syscalls_of, peer_of, dirs_of, ip_of. destruct (matchesFilter s e); simpl; [|split_and!; sets_eq].
  destruct (ev_Type e =? EventSyscall) eqn:E1, (ev_Type e =? EventTCPConnect) eqn:E2, (ev_Type e =? EventFileAccess) eqn:E3;
    zbool; try (exfalso; unfold EventSyscall, EventTCPConnect, EventFileAccess in *; lia);
    [clear; case_match; simpl; split_and!; sets_eq..| |split_and!; sets_eq].
  destruct (ev_File e) as [f|]; [|split_and!; sets_eq]. case_bool_decide as Ep.
  - rewrite Ep. simpl. split_and!; sets_eq.
  - simpl. case_bool_decide as Ed; [rewrite decide_True by done|rewrite decide_False by done]; split_and!; sets_eq.
Qed.

Definition union_of {A} `{Countable A} (f : Event -> gset A) (es : list Event) : gset A :=
  ⋃ (map (fun e => if watched e then f e else ∅) es).

Lemma session_sets start es :
  let s := session_after cfg start es in
  se_syscalls s = union_of syscalls_of es /\ se_destPorts s = union_of (peer_of net_Dport) es /\
  se_destIPs s = union_of (peer_of ip_of) es /\ se_fileDirs s = union_of dirs_of es.
Proof.
  unfold session_after. assert (forall s0, filters s0 = filters (NewSession cfg 0) -> let s := foldl Ingest s0 es in
    se_syscalls s = union_of syscalls_of es ∪ se_syscalls s0 /\ se_destPorts s = union_of (peer_of net_Dport) es ∪ se_destPorts s0 /\
    se_destIPs s = union_of (peer_of ip_of) es ∪ se_destIPs s0 /\ se_fileDirs s = union_of dirs_of es ∪ se_fileDirs s0) as Hg.
  { induction es as [|e es IH]; intros s0 Hf; unfold union_of; simpl; [split_and!; sets_eq|].
    destruct (IH (Ingest s0 e)) as (I1 & I2 & I3 & I4); [by rewrite Ingest_filters|].
    destruct (Ingest_sets s0 e) as (S1 & S2 & S3 & S4). rewrite (matches_filters _ _ e Hf) in S1, S2, S3, S4.
    fold (watched e) in S1, S2, S3, S4. rewrite I1, I2, I3, I4, S1, S2, S3, S4. rewrite !union_swap. done. }
  destruct (Hg (NewSession cfg start) eq_refl) as (G1 & G2 & G3 & G4). rewrite G1, G2, G3, G4. simpl. by rewrite !(right_id_L ∅ (∪)).
Qed.

Lemma elem_of_union_of {A} `{Countable A} (f : Event -> gset A) es x :
  x ∈ union_of f es <-> exists e, e ∈ es /\ watched e = true /\ x ∈ f e.
Proof.
  unfold union_of. rewrite elem_of_union_list. split.
  - intros (X & HX & Hx). apply list_elem_of_fmap in HX as (e & -> & He). destruct (watched e) eqn:E; [|set_solver]. eauto.
  - intros (e & He & Hw & Hx). exists (f e). split; [|done]. apply list_elem_of_fmap. exists e. by rewrite Hw.
Qed.

(** Some watched connection had the property. *)
Definition learned_peer (es : list Event) (P : NetworkEvent -> Prop) : Prop :=
  exists e n, e ∈ es /\ watched e = true /\ ev_Type e = EventTCPConnect /\ ev_Network e = Some n /\ P n.

Lemma elem_of_peers {A} `{Countable A} (f : NetworkEvent -> A) es x :
  x ∈ union_of (peer_of f) es <-> learned_peer es (fun n => f n = x).
Proof.
  rewrite elem_of_union_of. unfold learned_peer, peer_of. split.
  - intros (e & He & Hw & Hx). destruct (Z.eqb_spec (ev_Type e) EventTCPConnect) as [Et|]; [|set_solver].
    destruct (ev_Network e) as [n|] eqn:En; [|set_solver]. exists e, n. set_solver.
  - intros (e & n & He & Hw & Et & En & Hx). exists e. rewrite Et, Z.eqb_refl, En. set_solver.
Qed.

(** ** The exported rules *)
Context (o : map_orders) (Ho : orders_ok o) (durText nowText : gostring).

Definition profile_of (start now : Z) (es : list Event) : list ruleEntry :=
  exported_rules durText nowText (take_snapshot o now (session_after cfg start es)).

Lemma one_rule {A B} (l : list A) (x y : B) : x ∈ (match l with [] => [] | _ => [y] end) <-> x = y /\ l <> [].
Proof. destruct l; rewrite ?list_elem_of_singleton, ?elem_of_nil; split; intuition congruence. Qed.

Lemma order_nums s z : z ∈ mo_nums o s <-> z ∈ s.
Proof. destruct Ho as [Hn _]. by rewrite (Hn s), elem_of_elements. Qed.
Lemma order_strings s z : z ∈ mo_strings o s <-> z ∈ s.
Proof. destruct Ho as [_ Hn]. by rewrite (Hn s), elem_of_elements. Qed.

Lemma nonempty_list {A} (l : list A) x : x ∈ l -> l <> [].
Proof. by intros Hx ->; apply elem_of_nil in Hx. Qed.

(** An allowlist rule holds exactly on values outside its list. *)
Lemma allowlist_holds label kind what unobs et field values tags e :
  let v := getFieldValue e field None in
  v <> fieldNotFound ->
  rule_holds e (entry_rule (profile_entry durText nowText label kind what unobs et field values tags)) <-> v ∉ values.
Proof.
  intros v Hv. unfold rule_holds. simpl. split; [intros [(_ & _ & Hn) _]; exact Hn|]. intros Hn. split; [|constructor].
  split; [exact Hv|]. split; [done|exact Hn].
Qed.

Lemma ports_values s p : pretty p ∈ map pretty (sortedUint16 (mo_nums o s)) <-> p ∈ s.
Proof.
  rewrite list_elem_of_fmap. setoid_rewrite (merge_sort_Permutation Z.le). setoid_rewrite order_nums.
  split; [intros (q & E & Hq); by apply (inj pretty) in E as ->|eauto].
Qed.

Lemma strings_values s x : x ∈ sortedStrings (mo_strings o s) <-> x ∈ s.
Proof. unfold sortedStrings. by rewrite (merge_sort_Permutation str_le), order_strings. Qed.

(** The exported network rules are exact: after a session that saw at
    least one connection, whatever order the sets are listed in, one of the
    exported network rules holds on a connection exactly when its destination
    port or its destination address was not seen on any watched connection of
    the session. Learned traffic raises no alert and every other one does. *)
Theorem network_profile_exact start now es e n :
  ip_of n <> fieldNotFound ->
  ev_Type e = EventTCPConnect -> ev_Network e = Some n -> length (net_Daddr n) = 16%nat -> 0 <= net_Dport n ->
  learned_peer es (fun _ => True) ->
  (exists x, x ∈ profile_of start now es /\ re_EventType x = "network"%string /\ rule_holds e (entry_rule x)) <->
  ~ learned_peer es (fun m => net_Dport m = net_Dport n) \/ ~ learned_peer es (fun m => ip_of m = ip_of n).
Proof.
  intros Ni Et En Hl Hp (e0 & n0 & H0 & Hw0 & Et0 & En0 & _).
  assert (getFieldValue e "dport" None = pretty (net_Dport n)) as Fp by (unfold getFieldValue; by rewrite Et, En).
  assert (getFieldValue e "daddr" None = ip_of n) as Fi.
  { unfold getFieldValue. rewrite Et, En. simpl. unfold FormatIP, ip_of, FormatIP16. by rewrite Hl. }
  assert (pretty (net_Dport n) <> fieldNotFound) as Np.
  { destruct (pretty_head _ Hp) as (c & s & -> & Hc). intros [= -> _]. unfold digit in Hc. cbn in Hc. lia. }
  destruct (session_sets start es) as (_ & Sp & Si & _).
  unfold profile_of, exported_rules. setoid_rewrite elem_of_app. setoid_rewrite elem_of_app. setoid_rewrite elem_of_app.
  setoid_rewrite one_rule. simpl. rewrite Sp, Si. split.
  - intros (x & [[-> _]|[[-> _]|[[-> _]|[-> _]]]] & Ex & Hx); try done.
    + left. rewrite <- elem_of_peers. apply allowlist_holds in Hx; rewrite Fp in *; [|done]. by rewrite ports_values in Hx.
    + right. rewrite <- elem_of_peers. apply allowlist_holds in Hx; rewrite Fi in *; [|done]. by rewrite strings_values in Hx.
  - intros [Hn|Hn]; rewrite <- elem_of_peers in Hn; eexists.
    + split; [right; left; split; [reflexivity|]|]. 
      * apply (nonempty_list _ (net_Dport n0)). rewrite order_nums, elem_of_peers. by exists e0, n0.
      * split; [done|]. apply allowlist_holds; rewrite Fp; [done|]. by rewrite ports_values.
    + split; [right; right; left; split; [reflexivity|]|].
      * apply (nonempty_list _ (ip_of n0)). rewrite order_strings, elem_of_peers. by exists e0, n0.
      * split; [done|]. apply allowlist_holds; rewrite Fi; [done|]. by rewrite strings_values.
Qed.

(** The learned directories end in a slash. *)
Lemma learned_dirs es d : d ∈ union_of dirs_of es -> exists p, d = (p +:+ "/")%string.
Proof.
  rewrite elem_of_union_of. intros (e & _ & _ & Hd). unfold dirs_of in Hd. repeat case_match; try by apply elem_of_empty in Hd.
  apply elem_of_singleton in Hd as ->. unfold extractDir in *. case_match; [|done]. case_match. eauto.
Qed.

(** Two of the exported rules do not do what they are written for.
    The file rule compares the whole path with the learned directories, so it
    holds on every file access, those of the session included (a path that
    itself ends in a slash apart). And once a syscall was observed, the rule
    loader refuses the whole exported file: the syscall rule names a field,
    syscall_nr, that is not a field of syscall events. *)
Theorem learned_profile_unusable start now es :
  (forall e f x, ev_Type e = EventFileAccess -> ev_File e = Some f ->
     (forall p, BytesToString (file_Filename f) <> (p +:+ "/")%string) -> BytesToString (file_Filename f) <> fieldNotFound ->
     x ∈ profile_of start now es -> re_EventType x = "file"%string -> rule_holds e (entry_rule x)) /\
  (forall e0 c fs path data, e0 ∈ es -> watched e0 = true -> ev_Type e0 = EventSyscall -> ev_Syscall e0 = Some c ->
     float_gt float_0 float_0 = false -> float_eq float_0 float_0 = true -> float_lt float_1 float_0 = false -> float_gt float_1 float_1 = false ->
     fs_ReadFile fs path = Some data -> fs_Unmarshal fs data = Some (map entry_rule (profile_of start now es)) ->
     exists errs id, LoadRulesFromFile fs path = Err (InvalidRules errs) /\
       RuleInvalid 0 id (BadCondition (InvalidField "syscall_nr" EventSyscall)) ∈ errs).
Proof.
  destruct (session_sets start es) as (Ss & _ & _ & Sd). split.
  - intros e f x Et Ef Hs Hnf Hx Ex. assert (getFieldValue e "filename" None = BytesToString (file_Filename f)) as Ff
      by (unfold getFieldValue; by rewrite Et, Ef).
    unfold profile_of, exported_rules in Hx. rewrite !elem_of_app, !one_rule in Hx. simpl in Hx. rewrite Sd in Hx.
    destruct Hx as [[-> _]|[[-> _]|[[-> _]|[-> _]]]]; try done. apply allowlist_holds; rewrite Ff; [done|].
    rewrite strings_values. intros Hd. apply learned_dirs in Hd as [p Hd]. by apply (Hs p).
  - intros e0 c fs path data He Hw Et Es F1 F2 F3 F4 Hr Hu.
    assert (exists nr0 nrs, mo_nums o (se_syscalls (session_after cfg start es)) = nr0 :: nrs) as (nr0 & nrs & En).
    { assert (sys_Nr c ∈ mo_nums o (se_syscalls (session_after cfg start es))) as Hin.
      { rewrite order_nums, Ss, elem_of_union_of. exists e0. split_and!; [done..|]. unfold syscalls_of. rewrite Et, Es. by apply elem_of_singleton. }
      destruct (mo_nums o _); [by apply elem_of_nil in Hin|eauto]. }
    unfold LoadRulesFromFile. rewrite Hr, Hu. unfold profile_of, exported_rules. cbn [take_snapshot sn_Syscalls]. rewrite En.
    set (x := profile_entry _ _ _ _ _ _ _ _ _ _). cbn [app map]. unfold ValidateFull.
    assert (exists r, validateRule (entry_rule x) = (r, Some (BadCondition (InvalidField "syscall_nr" EventSyscall)))) as [r Er].
    { unfold validateRule. simpl. unfold resolve_sampling. simpl. rewrite F1. simpl. unfold default_rate. simpl. rewrite F2. simpl.
      rewrite F3, F4. simpl. eauto. }
    cbn [validate_rules]. rewrite Er. repeat case_match; simpl; eexists _, _; (split; [reflexivity|left]).
Qed.
End learned.

(** ** A session: one connection, one file and one syscall *)
Module Example_autolearn.
#[local] Existing Instance sample_lib.

Definition cfg : SessionConfig := mkSessionConfig 60 "" "" "".
Definition peer (port : Z) : NetworkEvent := mkNetworkEvent (zeros 16) (string_bytes "10.0" ++ zeros 12) 40000 port 6 AFInet.
Definition connection (port : Z) : Event :=
  mkEvent EventTCPConnect 0 7 7 1 0 (zeros 16) (zeros 16) None (Some (peer port)) None None None None None None
    None None None None None None None None "" false.
Definition execve : Event :=
  mkEvent EventSyscall 0 7 7 1 0 (zeros 16) (zeros 16) (Some (mkSyscallEvent 59 0 [])) None None None None None None None
    None None None None None None None None "" false.
Definition es : list Event := [connection 443; execve].
Definition o : map_orders := mkOrders elements elements.
Definition fs : files := mkFiles (fun _ => None) (fun _ => Some []) (fun _ p => p)
  (fun _ => Some (map entry_rule (profile_of cfg o "1m" "now" 0 0 es))).

Lemma orders : orders_ok o.
Proof. split; done. Qed.

Lemma syscall_names_witness : SyscallNr (SyscallName 59) = Some 59.
Proof. apply (syscall_names_roundtrip 59 "execve"). vm_compute. reflexivity. Defined.

(** The witness of [network_profile_exact]: an unseen port is reported. *)
Lemma network_profile_witness :
  exists x, x ∈ profile_of cfg o "1m" "now" 0 0 es /\ re_EventType x = "network"%string /\
    rule_holds (connection 22) (entry_rule x).
Proof.
  apply (network_profile_exact cfg o orders "1m" "now" 0 0 es (connection 22) (peer 22)); [discriminate|reflexivity..|done| |].
  - exists (connection 443), (peer 443). split_and!; [by left|reflexivity..|done].
  - left. intros (e & n & He & _ & _ & En & Hp). unfold es in He. rewrite !elem_of_cons in He.
    destruct He as [->|[->|He]]; [|discriminate|by apply elem_of_nil in He]. injection En as <-. discriminate.
Defined.

(** The witness of [learned_profile_unusable]. *)
Lemma learned_profile_witness :
  exists errs id, LoadRulesFromFile fs "profile.yaml" = Err (InvalidRules errs) /\
    RuleInvalid 0 id (BadCondition (InvalidField "syscall_nr" EventSyscall)) ∈ errs.
Proof.
  apply (learned_profile_unusable cfg o orders "1m" "now" 0 0 es) with (e0 := execve) (c := mkSyscallEvent 59 0 []) (data := []);
    [right; by left|reflexivity..].
Defined.
End Example_autolearn.
