(* ===== verification/Falco.v ===== *)
(** * Importing Falco rules

    Models src/internal/migration/falco_condition.go (macro expansion, list
    resolution, the splitting of a boolean expression by its keywords, the
    mapping of atoms to conditions) and falco_importer.go (documents, rules,
    directories). A text is the list of its bytes; the YAML decoder is an
    argument. A panic of the source (an index past the end of a text) is
    [Panic]; running out of fuel is [Panic] too, and the theorems show that it
    does not happen. Theorems: FalcoCorrect.v. *)
From Stdlib Require Import Ascii.
From stdpp Require Import pretty.
From S2P Require Import Prelude GoBytes GoText Types Fields RuleTypes TraceCtx Rules RuleLoader Autolearn.

(** ** Data *)
Record FalcoCondition := mkFC { fc_Field : gostring; fc_Op : gostring; fc_Values : list gostring }.
Inductive FalcoConditionGroup := mkFG (Operator : gostring) (Conditions : list FalcoCondition) (SubGroups : list FalcoConditionGroup).

(** [falcoNode]: exactly one of its two pointers is set. *)
Inductive falcoNode := Single (c : FalcoCondition) | Group (g : FalcoConditionGroup).

(** Why a clause was dropped. *)
Inductive reason :=
| EmptyExpression | EmptyAtom | EmptyCondition | CouldNotParse (cond : gostring)
| NotCompound (expr : text) | NotNegatable (op : gostring) (expr : text)
| Unresolved (atom : text) | FdNameType (eventType : gostring) (atom : text) | NoEquivalent (what : gostring) (atom : text)
| Unsupported (atom : text) | NotValidField (field eventType : gostring) (atom : text) | NotNetwork (field eventType : gostring) (atom : text)
| NoList (atom : text) | NoValue (atom : text) | UnsupportedIP (atom : text) | EvtTypeNeq (atom : text) | NoEvtType (atom : text)
| NoFileOp (tokens : list text) | NoNetworkToken (token : text) | UnknownSyscall (token : text)
| UnsupportedField (field : gostring) (atom : text) | NoOperator (op : text) (atom : text)
| NoGlob (atom : text) | UnsupportedGlob (val : text).

(** The code has no error results here; [Panic] is a run-time panic. *)
Abbreviation run := (result Empty_set).

Definition names (l : list gostring) : list text := map txt l.
Definition fileOpenSyscalls : list text := names ["open"; "openat"; "openat2"; "creat"; "open_by_handle_at"]%string.
Definition fileReadSyscalls : list text := names ["read"; "pread64"; "readv"; "preadv"; "preadv2"]%string.
Definition fileWriteSyscalls : list text := names ["write"; "pwrite64"; "writev"; "pwritev"; "pwritev2"]%string.
Definition networkSyscallTokens : list text := names ["connect"; "accept"; "accept4"; "bind"; "listen"; "socket"]%string.
Definition has (set : list text) (t : text) : bool := bool_decide (t ∈ set).

Definition in_chars (lo hi : N) (c : ascii) : bool := ((lo <=? N_of_ascii c) && (N_of_ascii c <=? hi))%N.
Definition isIdentByte (c : ascii) : bool :=
  bool_decide (c = "_"%char) || bool_decide (c = "."%char) || in_chars 97 122 c || in_chars 65 90 c || in_chars 48 57 c.

Definition is_quote (c : ascii) : bool := bool_decide (c = "034"%char) || bool_decide (c = "'"%char).

(** ** Macros *)
Definition maxExpandedConditionLen : nat := (64 * 1024)%nat.

(** The byte before a position and the byte at one delimit a word. *)
Definition prev_ok (prev : option ascii) : bool := match prev with None => true | Some c => negb (isIdentByte c) end.

(** [skip] bytes of a replaced word are left; [quote] is the open quote. *)
Fixpoint substitute_loop (word replacement : text) (skip : nat) (prev quote : option ascii) (s : text) : text * bool :=
  match s with
  | [] => ([], false)
  | c :: s' =>
      let next skip quote := substitute_loop word replacement skip (Some c) quote s' in
      let keep quote := let '(out, changed) := next 0%nat quote in (c :: out, changed) in
      match skip, quote with
      | S skip, _ => next skip quote
      | O, Some q => keep (if decide (c = q) then None else Some q)
      | O, None =>
          if is_quote c then keep (Some c)
          else if text_prefix word s && prev_ok prev && prev_ok (head (drop (length word) s)) then
            let '(out, _) := next (length word - 1)%nat None in (replacement ++ out, true)
          else keep None
      end
  end.
Definition substituteWord (s word replacement : text) : text * bool := substitute_loop word replacement 0 None None s.

(** One pass over the macros, in the order the map is iterated. *)
Definition macro_step (acc : text * bool) (macro : text * text) : text * bool :=
  let '(cond, any) := acc in
  let '(cond', changed) := substituteWord cond macro.1 (["("%char] ++ macro.2 ++ [")"%char]) in
  if changed then (cond', true) else (cond, any).
Definition macro_pass (macros : list (text * text)) (cond : text) : text * bool := foldl macro_step (cond, false) macros.

Fixpoint expand_loop (order : nat -> list (text * text)) (rounds i : nat) (cond : text) : text :=
  match rounds with
  | O => cond
  | S rounds =>
      if Nat.ltb maxExpandedConditionLen (length cond) then cond else
      let '(cond, changed) := macro_pass (order i) cond in
      if changed then expand_loop order rounds (S i) cond else cond
  end.

(** [order i] lists the macros in the order of the [i]-th iteration. *)
Abbreviation macro_order := (nat -> gmap text text -> list (text * text)).
Definition expandMacros (order : macro_order) (macros : gmap text text) (cond : text) : text :=
  if decide (macros = ∅) then cond else expand_loop (fun i => order i macros) 25 0 cond.

(** ** Lists *)

(** [seen] is one map, shared by the whole resolution; the fuel bounds the
    nesting of lists. *)
Fixpoint resolve_tokens (fuel : nat) (lists : text -> option (list text)) : list text -> list text -> run (list text * list text) :=
  fix go tokens seen :=
    match tokens with
    | [] => Ok ([], seen)
    | t :: tokens =>
        match lists t, has seen t with
        | Some items, false =>
            match fuel with
            | O => Panic
            | S fuel =>
                '(inner, seen) ← resolve_tokens fuel lists items (t :: seen);
                '(rest, seen) ← go tokens seen;
                Ok (inner ++ rest, seen)
            end
        | _, _ => '(rest, seen) ← go tokens seen; Ok (t :: rest, seen)
        end
    end.

(** The [list:] blocks of a document: a map from names to items. *)
Abbreviation list_blocks := (gmap text (list text)).
Definition resolveListTokens (lists : list_blocks) (tokens : list text) : run (list text) :=
  '(out, _) ← resolve_tokens (size lists) (fun t => lists !! t) tokens []; Ok out.

(** ** Boolean expressions *)

(** The loop of [splitTopLevelKeyword] from one position on: [s] and [lower]
    are the rests of the text and of its lower-case copy, [cur] the part read
    so far; [skip] bytes of a keyword are left. *)
Fixpoint split_loop (kw : text) (skip : nat) (prev quote : option ascii) (depth : Z) (cur : text) (s lower : text) : run (list text) :=
  match s with
  | [] => Ok [TrimSpace cur]
  | c :: s' =>
      let next skip quote depth cur := split_loop kw skip (Some c) quote depth cur s' (tail lower) in
      match skip, quote with
      | S skip, _ => next skip quote depth cur
      | O, Some q => next 0%nat (if decide (c = q) then None else Some q) depth (cur ++ [c])
      | O, None =>
          if is_quote c then next 0%nat (Some c) depth (cur ++ [c])
          else if decide (c = "("%char) then next 0%nat None (depth + 1) (cur ++ [c])
          else if decide (c = ")"%char) then next 0%nat None (depth - 1) (cur ++ [c])
          else if (depth =? 0) && text_prefix kw lower then
            if Nat.ltb (length s) (length kw) then Panic
            else if prev_ok prev && prev_ok (head (drop (length kw) s)) then
              rest ← next (length kw - 1)%nat None depth []; Ok (TrimSpace cur :: rest)
            else next 0%nat None depth (cur ++ [c])
          else next 0%nat None depth (cur ++ [c])
      end
  end.

(** [strings.EqualFold(expr[:3], "not")]: no other character folds to these. *)
Definition fold_not (s : text) : bool := bool_decide (map ascii_lower s = txt "not").
Definition stripNotPrefix (expr : text) : option text :=
  if Nat.ltb (length expr) 3 || negb (fold_not (take 3 expr)) then None
  else if negb (prev_ok (head (drop 3 expr))) then None
  else Some (TrimSpace (drop 3 expr)).

(** The scan of [stripOuterParens]: no parenthesis closes the first one
    before the last byte. *)
Fixpoint outer_scan (quote : option ascii) (depth : Z) (s : text) : bool :=
  match s with
  | [] => true
  | c :: s' =>
      match quote with
      | Some q => outer_scan (if decide (c = q) then None else Some q) depth s'
      | None =>
          if is_quote c then outer_scan (Some c) depth s'
          else if decide (c = "("%char) then outer_scan None (depth + 1) s'
          else if decide (c = ")"%char) then
            if (depth - 1 =? 0) && negb (bool_decide (s' = [])) then false else outer_scan None (depth - 1) s'
          else outer_scan None depth s'
      end
  end.
Definition stripOuterParens (expr : text) : option text :=
  if Nat.ltb (length expr) 2 || negb (bool_decide (head expr = Some "("%char)) || negb (bool_decide (last expr = Some ")"%char)) then None
  else if outer_scan None 0 expr then Some (TrimSpace (removelast (tail expr))) else None.

Definition negatedOps : list (gostring * gostring) :=
  [ ("eq", "neq"); ("neq", "eq"); ("in", "not_in"); ("not_in", "in"); ("prefix", "not_prefix"); ("not_prefix", "prefix");
    ("suffix", "not_suffix"); ("not_suffix", "suffix"); ("in_cidr", "not_in_cidr"); ("not_in_cidr", "in_cidr") ]%string.
Definition negateCondition (c : FalcoCondition) : option FalcoCondition :=
  op ← assoc (fc_Op c) negatedOps; Some (mkFC (fc_Field c) op (fc_Values c)).

Definition mergeFalcoNodes (nodes : list falcoNode) (op : gostring) : option falcoNode :=
  match nodes with
  | [] => None
  | [n] => Some n
  | _ => Some (Group (mkFG op (omap (fun n => match n with Single c => Some c | Group _ => None end) nodes)
                              (omap (fun n => match n with Single _ => None | Group g => Some g end) nodes)))
  end.

(** ** Values *)
Definition star : ascii := "*"%char.
Definition trim_quotes (s : text) : text := trim is_quote (TrimSpace s).

(** The first quoted value, double quotes first. *)
Definition quoted_by (q : ascii) (s : text) : option text :=
  start ← text_index s [q]; let rest := drop (S start) s in e ← text_index rest [q]; Some (take e rest).
Definition extractQuoted (s : text) : text :=
  match quoted_by "034"%char s with Some v => v | None => default [] (quoted_by "'"%char s) end.

Definition extractQuotedOrTrailing (atom sep : text) : text :=
  match extractQuoted atom with
  | [] => match text_index atom sep with Some i => trim_quotes (drop (i + length sep) atom) | None => [] end
  | v => v
  end.

Definition extractInList (s : text) : list text :=
  match text_index s ["("%char], text_last_index ")"%char s with
  | Some start, Some e =>
      if Nat.leb e start then []
      else filter (fun v => v <> []) (map trim_quotes (text_split ","%char [] (take (e - S start) (drop (S start) s))))
  | _, _ => []
  end.

(** ** Atoms *)
Definition contains (atom : text) (sub : gostring) : bool := text_contains atom (txt sub).

Definition hasFieldPrefix (atom : text) (prefix : gostring) : bool :=
  let p := txt prefix in text_prefix p atom && prev_ok (head (drop (length p) atom)).

Definition containsOperator (atom : text) : bool :=
  contains atom "=" || contains atom " in " || contains atom " contains " || contains atom " startswith " || contains atom " glob " ||
  existsb (fun c => bool_decide (c = "<"%char) || bool_decide (c = ">"%char)) atom.

(** A condition or a reason; neither for an atom the event type implies. *)
Abbreviation mapped := (option FalcoCondition * option reason)%type.
Definition cond_of (field op : gostring) (values : list text) : mapped := (Some (mkFC field op (map str values)), None).
Definition drop_with (r : reason) : mapped := (None, Some r).

Definition one_value (field op : gostring) (atom val : text) : mapped :=
  if decide (val = []) then drop_with (NoValue atom) else cond_of field op [val].

Definition buildComparison (atom : text) (field : gostring) (opToken : gostring) (op : gostring) : mapped :=
  match text_index atom (txt opToken) with
  | None => drop_with (NoOperator (txt opToken) atom)
  | Some idx => one_value field op atom (trim_quotes (drop (idx + String.length opToken) atom))
  end.

Definition count_stars (s : text) : nat := length (filter (fun c => c = star) s).

Definition mapGlob (atom : text) (field : gostring) : mapped :=
  let val := extractQuotedOrTrailing atom (txt " glob ") in
  if decide (val = []) then drop_with (NoGlob atom) else
  let n := count_stars val in
  let first := bool_decide (head val = Some star) in
  let last_ := bool_decide (last val = Some star) in
  if Nat.eqb n 0 then cond_of field "eq" [val]
  else if Nat.eqb n 1 && last_ then cond_of field "prefix" [removelast val]
  else if Nat.eqb n 1 && first then cond_of field "suffix" [tail val]
  else if Nat.eqb n 2 && first && last_ then
    let inner := Trim val [star] in
    if decide (inner = []) then drop_with (UnsupportedGlob val) else cond_of field "contains" [inner]
  else drop_with (UnsupportedGlob val).

Section atoms.
Context (lists : list_blocks) (eventType : gostring).

Definition list_condition (atom : text) (field op : gostring) : run mapped :=
  vals ← resolveListTokens lists (extractInList atom);
  Ok (if decide (vals = []) then drop_with (NoList atom) else cond_of field op vals).

Definition buildCondition (atom : text) (field : gostring) : run mapped :=
  if contains atom " not in " then list_condition atom field "not_in"
  else if contains atom " in " then list_condition atom field "in"
  else Ok (
    if contains atom " contains " then one_value field "contains" atom (extractQuotedOrTrailing atom (txt " contains "))
    else if contains atom " startswith " then one_value field "prefix" atom (extractQuotedOrTrailing atom (txt " startswith "))
    else if contains atom " glob " then mapGlob atom field
    else if contains atom ">=" then buildComparison atom field ">=" "gte"
    else if contains atom "<=" then buildComparison atom field "<=" "lte"
    else if contains atom "!=" then buildComparison atom field "!=" "neq"
    else if contains atom ">" then buildComparison atom field ">" "gt"
    else if contains atom "<" then buildComparison atom field "<" "lt"
    else if contains atom "=" then buildComparison atom field "=" "eq"
    else drop_with (UnsupportedField field atom)).

Definition mapSimpleField (atom : text) (field : gostring) (validTypes : list gostring) : run mapped :=
  if bool_decide (eventType ∈ validTypes) then buildCondition atom field
  else Ok (drop_with (NotValidField field eventType atom)).

Definition anyContainsSlash (vals : list text) : bool := existsb (fun v => contains v "/") vals.

Definition mapIPField (atom : text) (field : gostring) : mapped :=
  if negb (bool_decide (eventType = "network"%string)) then drop_with (NotNetwork field eventType atom)
  else if contains atom " in " then
    let vals := extractInList atom in
    if decide (vals = []) then drop_with (NoList atom)
    else if anyContainsSlash vals then cond_of field "in_cidr" vals else cond_of field "in" vals
  else if contains atom "!=" then one_value field "neq" atom (extractQuotedOrTrailing atom (txt "!="))
  else if contains atom "=" then
    let val := extractQuotedOrTrailing atom (txt "=") in
    one_value field (if contains val "/" then "in_cidr" else "eq") atom val
  else drop_with (UnsupportedIP atom).

Definition classify (t : text) : option gostring :=
  if has fileOpenSyscalls t then Some "open"%string
  else if has fileReadSyscalls t then Some "read"%string
  else if has fileWriteSyscalls t then Some "write"%string else None.

(** The categories of the tokens, in a fixed order; none if one has none. *)
Definition classifyFileOp (tokens : list text) : list text :=
  match mapM classify tokens with
  | None => []
  | Some set => names (filter (fun op => op ∈ set) ["open"; "read"; "write"]%string)
  end.

(** The value after the first equals sign, without quotes and blanks. *)
Definition equals_value (atom : text) : list text :=
  match text_index atom (txt "=") with
  | Some i => let val := Trim (TrimSpace (drop (S i) atom)) (txt "'" ++ ["034"%char; " "%char]) in if decide (val = []) then [] else [val]
  | None => []
  end.

Definition eq_or_in (n : nat) : gostring := if Nat.ltb 1 n then "in"%string else "eq"%string.

Definition mapEvtType (atom : text) : mapped :=
  if contains atom "!=" then drop_with (EvtTypeNeq atom) else
  let tokens := if contains atom " in " then extractInList atom else if contains atom "=" then equals_value atom else [] in
  if decide (tokens = []) then drop_with (NoEvtType atom)
  else if bool_decide (eventType = "file"%string) then
    let ops := classifyFileOp tokens in
    if decide (ops = []) then drop_with (NoFileOp tokens) else cond_of "op" (eq_or_in (length ops)) ops
  else if bool_decide (eventType = "network"%string) then
    match list_find (fun t => has networkSyscallTokens t = false) tokens with
    | Some (_, t) => drop_with (NoNetworkToken t)
    | None => (None, None)
    end
  else
    match list_find (fun t => SyscallNr (str t) = None) tokens with
    | Some (_, t) => drop_with (UnknownSyscall t)
    | None => cond_of "nr" (eq_or_in (length tokens)) (map (fun t => txt (pretty (default 0 (SyscallNr (str t))))) tokens)
    end.

Definition proc_types : list gostring := ["syscall"; "file"; "network"]%string.

Definition mapAtom (atom : text) : run mapped :=
  let atom := TrimSpace atom in
  let field_is := hasFieldPrefix atom in
  let none what := Ok (drop_with (NoEquivalent what atom)) in
  if decide (atom = []) then Ok (drop_with EmptyAtom)
  else if negb (containsOperator atom) then Ok (drop_with (Unresolved atom))
  else if field_is "evt.type" then Ok (mapEvtType atom)
  else if field_is "syscall.type" then Ok (mapEvtType (txt "evt.type" ++ drop 12 atom))
  else if field_is "fd.name" then
    if negb (bool_decide (eventType = "file"%string)) && negb (bool_decide (eventType = "syscall"%string))
    then Ok (drop_with (FdNameType eventType atom)) else buildCondition atom "fd.name"
  else if field_is "fd.filename" then mapSimpleField atom "filename" ["file"%string]
  else if field_is "fd.directory" then mapSimpleField atom "directory" ["file"%string]
  else if field_is "fd.typechar" then none "fd.typechar"
  else if field_is "fd.type" then none "fd.type"
  else if field_is "fd.sport" then mapSimpleField atom "sport" ["network"%string]
  else if field_is "fd.dport" then mapSimpleField atom "dport" ["network"%string]
  else if field_is "fd.sip" then Ok (mapIPField atom "saddr")
  else if field_is "fd.dip" then Ok (mapIPField atom "daddr")
  else if field_is "fd.proto" then mapSimpleField atom "proto" ["network"%string]
  else if field_is "fd.net" || field_is "fd.cnet" || field_is "fd.snet" || field_is "fd.rnet" then none "subnet"
  else if field_is "fd." then none "fd.*"
  else if field_is "container." then none "container"
  else if field_is "k8s." then none "kubernetes"
  else if field_is "proc.args" then mapSimpleField atom "proc.args" proc_types
  else if field_is "proc.name" then mapSimpleField atom "proc.comm" proc_types
  else if field_is "proc." then none "proc.*"
  else if field_is "user.uid" then mapSimpleField atom "uid" proc_types
  else if field_is "user." then none "user.*"
  else if field_is "group." then none "group.*"
  else Ok (drop_with (Unsupported atom)).
End atoms.

(** ** Expressions *)
Section expressions.
Context `{GoLib}.

Definition splitTopLevelKeyword (s : text) (keyword : gostring) : run (list text) :=
  split_loop (txt keyword) 0 None None 0 [] s (txt (ToLower (str s))).

Fixpoint flattenLeaves (fuel : nat) (expr : text) : run (list text) :=
  match fuel with
  | O => Panic
  | S fuel =>
      let expr := TrimSpace expr in
      let all := fix all parts := match parts with [] => Ok [] | p :: parts => l ← flattenLeaves fuel p; r ← all parts; Ok (l ++ r) end in
      if decide (expr = []) then Ok [] else
      parts ← splitTopLevelKeyword expr "or";
      if Nat.ltb 1 (length parts) then all parts else
      parts ← splitTopLevelKeyword expr "and";
      if Nat.ltb 1 (length parts) then all parts else
      match stripNotPrefix expr with
      | Some rest => flattenLeaves fuel rest
      | None => match stripOuterParens expr with Some inner => flattenLeaves fuel inner | None => Ok [expr] end
      end
  end.

Definition extractEvtTypeTokens (leaf : text) : list text :=
  if contains leaf "!=" then [] else if contains leaf " in " then extractInList leaf else equals_value leaf.

Definition event_type_of (leaves : list text) : gostring :=
  let uses p := existsb (fun leaf => existsb (hasFieldPrefix leaf) p) leaves in
  let tokens := concat (map (fun leaf => if hasFieldPrefix leaf "evt.type" || hasFieldPrefix leaf "syscall.type"
                                         then extractEvtTypeTokens leaf else []) leaves) in
  match tokens with
  | [] => if uses ["fd.sip"; "fd.dip"; "fd.sport"; "fd.dport"; "fd.proto"]%string then "network"
          else if uses ["fd.name"; "fd.filename"; "fd.directory"]%string then "file" else "syscall"
  | _ => if forallb (fun t => bool_decide (is_Some (classify t))) tokens then "file"
         else if forallb (has networkSyscallTokens) tokens then "network" else "syscall"
  end%string.

Definition detectEventType (expanded : text) : run gostring :=
  leaves ← flattenLeaves (S (length expanded)) expanded; Ok (event_type_of leaves).

(** The end of [parseNot], on the result for its operand. *)
Definition negate_node (expr : text) (n : option falcoNode) (rs : list reason) : option falcoNode * list reason :=
  match n with
  | None => (None, rs)
  | Some (Group _) => (None, rs ++ [NotCompound expr])
  | Some (Single c) =>
      match negateCondition c with
      | Some c' => (Some (Single c'), rs)
      | None => (None, rs ++ [NotNegatable (fc_Op c) expr])
      end
  end.

Definition atom_node (m : mapped) : option falcoNode * list reason :=
  (Single <$> m.1, match m.2 with Some r => [r] | None => [] end).

(** The loop of [combineParts]: the surviving nodes and the reasons. *)
Definition parse_parts {A} (parse : A -> run (option falcoNode * list reason)) : list A -> run (list falcoNode * list reason) :=
  fix all parts :=
    match parts with
    | [] => Ok ([], [])
    | p :: parts =>
        '(n, r) ← parse p; '(ns, rs) ← all parts;
        Ok (match n with Some n => n :: ns | None => ns end, r ++ rs)
    end.
Definition combine (op : gostring) (res : list falcoNode * list reason) : option falcoNode * list reason :=
  (mergeFalcoNodes res.1 op, res.2).

Fixpoint parseExpr (lists : list_blocks) (eventType : gostring) (fuel : nat) (expr : text) : run (option falcoNode * list reason) :=
  match fuel with
  | O => Panic
  | S fuel =>
      let expr := TrimSpace expr in
      let parse := parseExpr lists eventType fuel in
      if decide (expr = []) then Ok (None, [EmptyExpression]) else
      parts ← splitTopLevelKeyword expr "or";
      if Nat.ltb 1 (length parts) then res ← parse_parts parse parts; Ok (combine "or" res) else
      parts ← splitTopLevelKeyword expr "and";
      if Nat.ltb 1 (length parts) then res ← parse_parts parse parts; Ok (combine "and" res) else
      match stripNotPrefix expr with
      | Some rest => '(n, rs) ← parse rest; Ok (negate_node rest n rs)
      | None =>
          match stripOuterParens expr with
          | Some inner => parse inner
          | None => m ← mapAtom lists eventType expr; Ok (atom_node m)
          end
      end
  end.
Definition parse_expression (lists : list_blocks) (eventType : gostring) (expr : text) : run (option falcoNode * list reason) :=
  parseExpr lists eventType (S (length expr)) expr.

(** ** Rules *)
Record FalcoRule := mkFalcoRule {
  fr_Rule : gostring; fr_Desc : gostring; fr_Condition : gostring; fr_Output : gostring; fr_Priority : gostring;
  fr_Tags : list gostring; fr_Enabled : option bool }.
Record ConvertedRule := mkConverted {
  cv_ID : gostring; cv_Name : gostring; cv_Description : gostring; cv_EventType : gostring; cv_Condition : option FalcoCondition;
  cv_ConditionGroup : option FalcoConditionGroup; cv_Severity : gostring; cv_Action : gostring; cv_Tags : list gostring }.
Record ConversionResult := mkConversion {
  cr_SourceRule : gostring; cr_Converted : option ConvertedRule; cr_Status : gostring; cr_UnsupportedReasons : list reason }.
Record ImportResult := mkImport { ir_Results : list ConversionResult; ir_Converted : Z; ir_Unsupported : Z; ir_Disabled : Z }.

Definition mapPriority (priority : gostring) : gostring :=
  if bool_decide (ToUpper priority ∈ ["CRITICAL"; "EMERGENCY"; "ALERT"; "ERROR"]%string) then "critical"%string else "warning"%string.

Definition convertRule (order : macro_order) (idx : Z) (fr : FalcoRule) (macros : gmap text text) (lists : list_blocks) : run ConversionResult :=
  let refuse status rs := Ok (mkConversion (fr_Rule fr) None status rs) in
  if decide (fr_Enabled fr = Some false) then refuse "disabled"%string []
  else if decide (TrimSpace (txt (fr_Condition fr)) = []) then refuse "unsupported"%string [EmptyCondition]
  else
  let expanded := expandMacros order macros (txt (fr_Condition fr)) in
  eventType ← detectEventType expanded;
  '(node, rs) ← parse_expression lists eventType expanded;
  let rule c g := mkConverted ("falco_imported_" +:+ zero_pad 3 (pretty idx)) (fr_Rule fr) (fr_Desc fr) eventType c g
                    (mapPriority (fr_Priority fr)) "alert" (fr_Tags fr) in
  let converted r := Ok (mkConversion (fr_Rule fr) (Some r) "converted" rs) in
  match node with
  | None => refuse "unsupported"%string (match rs with [] => [CouldNotParse (fr_Condition fr)] | _ => rs end)
  | Some (Single c) => converted (rule (Some c) None)
  | Some (Group g) => converted (rule None (Some g))
  end.

(** ** Documents *)

(** What the YAML decoder yields for the fields the importer reads. *)
Inductive yaml := YStr (s : gostring) | YInt (z : Z) | YBool (b : bool) | YSeq (l : list yaml) | YOther.
Abbreviation FalcoDocument := (list (gmap gostring yaml)).

Definition stringField (m : gmap gostring yaml) (key : gostring) : gostring :=
  match m !! key with Some (YStr s) => s | _ => ""%string end.
(** A non-empty string under a key. *)
Definition named (m : gmap gostring yaml) (key : gostring) : option gostring :=
  let s := stringField m key in if decide (s = ""%string) then None else Some s.
Definition seqField (m : gmap gostring yaml) (key : gostring) : list yaml :=
  match m !! key with Some (YSeq l) => l | _ => [] end.

Definition collect_item (acc : gmap text text * list_blocks) (item : gmap gostring yaml) : gmap text text * list_blocks :=
  let '(macros, lists) := acc in
  match named item "macro" with
  | Some name => (<[txt name := txt (stringField item "condition")]> macros, lists)
  | None =>
      match named item "list" with
      | Some name =>
          let items := omap (fun v => match v with YStr s => Some (txt s) | YInt z => Some (txt (pretty z)) | _ => None end) (seqField item "items") in
          (macros, <[txt name := items]> lists)
      | None => acc
      end
  end.
Definition collectMacrosAndLists (doc : FalcoDocument) : gmap text text * list_blocks := foldl collect_item (∅, ∅) doc.

Definition rule_of_item (item : gmap gostring yaml) (name : gostring) : FalcoRule :=
  mkFalcoRule name (stringField item "desc") (stringField item "condition") (stringField item "output") (stringField item "priority")
    (omap (fun v => match v with YStr s => Some s | _ => None end) (seqField item "tags"))
    (match item !! "enabled"%string with Some (YBool b) => Some b | _ => None end).

Definition count_status (cr : ConversionResult) (r : ImportResult) : ImportResult :=
  let n s := if bool_decide (cr_Status cr = s) then 1 else 0 in
  mkImport (ir_Results r ++ [cr]) (ir_Converted r + n "converted"%string) (ir_Unsupported r + n "unsupported"%string)
    (ir_Disabled r + n "disabled"%string).

Fixpoint import_items (order : macro_order) (macros : gmap text text) (lists : list_blocks) (doc : FalcoDocument) (idx : Z) (r : ImportResult) :
    run (ImportResult * Z) :=
  match doc with
  | [] => Ok (r, idx)
  | item :: doc =>
      match named item "rule" with
      | None => import_items order macros lists doc idx r
      | Some name =>
          cr ← convertRule order (idx + 1) (rule_of_item item name) macros lists;
          import_items order macros lists doc (idx + 1) (count_status cr r)
      end
  end.

Definition empty_import : ImportResult := mkImport [] 0 0 0.

(** [None]: the document does not parse. *)
Definition importWithIdx (unmarshal : list byte -> option FalcoDocument) (order : macro_order) (data : list byte) (idx : Z) :
    run (option ImportResult * Z) :=
  match unmarshal data with
  | None => Ok (None, idx)
  | Some doc =>
      let '(macros, lists) := collectMacrosAndLists doc in
      '(r, idx) ← import_items order macros lists doc idx empty_import; Ok (Some r, idx)
  end.

Definition merge_import (a b : ImportResult) : ImportResult :=
  mkImport (ir_Results a ++ ir_Results b) (ir_Converted a + ir_Converted b) (ir_Unsupported a + ir_Unsupported b) (ir_Disabled a + ir_Disabled b).

(** The entries of the directory with [IsDir] and the content that was read. *)
Fixpoint ImportDir (unmarshal : list byte -> option FalcoDocument) (order : macro_order) (entries : list (gostring * bool * option (list byte)))
    (idx : Z) (combined : ImportResult) : run ImportResult :=
  match entries with
  | [] => Ok combined
  | (name, isDir, content) :: entries =>
      match content, isDir || negb (is_rule_file name) with
      | Some data, false =>
          '(r, idx) ← importWithIdx unmarshal order data idx;
          ImportDir unmarshal order entries idx (match r with Some r => merge_import combined r | None => combined end)
      | _, _ => ImportDir unmarshal order entries idx combined
      end
  end.

(** The rules of the written file. *)
Definition output_rules (r : ImportResult) : list ConvertedRule :=
  omap (fun cr => if bool_decide (cr_Status cr = "converted"%string) then cr_Converted cr else None) (ir_Results r).

(** What a loader decodes from the written file. *)
Definition rule_condition (c : FalcoCondition) : RuleCondition := condition (fc_Field c) (fc_Op c) (fc_Values c).
Fixpoint rule_group (g : FalcoConditionGroup) : RuleConditionGroup :=
  match g with mkFG op cs gs => mkGroup op (map rule_condition cs) (map rule_group gs) end.
Definition converted_rule (r : ConvertedRule) : Rule :=
  mkRule _ (cv_ID r) (cv_Name r) (cv_Description r) (default 0 (assoc (cv_EventType r) eventTypeNames)) false
    (match cv_Condition r with Some c => rule_condition c | None => condition "" "" [] end) (rule_group <$> cv_ConditionGroup r)
    (cv_Severity r) (cv_Action r) [] (cv_Tags r) ""%string None float_0 false.
End expressions.

(** ** Examples *)
Module Example_falco.
#[local] Existing Instance sample_lib.

Definition lists : list_blocks := <[txt "shells" := names ["bash"; "sh"]%string]> ∅.
Definition parse (et s : gostring) := parse_expression lists et (txt s).

Example ex_list : parse "syscall" "proc.name in (shells, zsh) and not user.uid=0" =
  Ok (Some (Group (mkFG "and" [mkFC "proc.comm" "in" ["bash"; "sh"; "zsh"]; mkFC "uid" "neq" ["0"]] [])), [])%string.
Proof. vm_compute. reflexivity. Qed.

Example ex_type : detectEventType (txt "(evt.type in (open, openat) or evt.type=creat) and fd.name startswith /etc") = Ok "file"%string.
Proof. vm_compute. reflexivity. Qed.
End Example_falco.
