(* ===== verification/FalcoCorrect.v ===== *)
(** * The Falco importer is correct

    Theorems about Falco.v. The textual parser agrees with a reference: a
    boolean expression over atoms, printed with the precedence of the Falco
    language, is read back as the translation of the expression itself. A
    conversion without a dropped clause means what the Falco condition means,
    in terms of the meaning of rules of Rules.v; the parser returns on every
    ASCII text; converted conditions name fields that the rule loader accepts. *)
From Stdlib Require Import Ascii.
From stdpp Require Import pretty.
From S2P Require Import Prelude GoBytes GoText Types Fields RuleTypes TraceCtx Rules RuleLoader Autolearn Falco.

(** ** The scan of one text *)
Abbreviation lo := ascii_lower.
Definition ascii_text (s : text) : Prop := Forall (fun c => N_of_ascii c < 128)%N s.

(** The byte before the end of [s], read after [prev]. *)
Definition last_or (prev : option ascii) (s : text) : option ascii := match last s with Some c => Some c | None => prev end.

(** One byte of the scan: the open quote and the depth after it. *)
Definition st1 (q : option ascii) (d : Z) (c : ascii) : option ascii * Z :=
  match q with
  | Some q => (if decide (c = q) then None else Some q, d)
  | None => if is_quote c then (Some c, d) else if decide (c = "("%char) then (None, d + 1)
            else if decide (c = ")"%char) then (None, d - 1) else (None, d)
  end.
Fixpoint st (q : option ascii) (d : Z) (s : text) : option ascii * Z :=
  match s with [] => (q, d) | c :: s => st (st1 q d c).1 (st1 q d c).2 s end.

Definition special (c : ascii) : bool := is_quote c || bool_decide (c = "("%char) || bool_decide (c = ")"%char).

(** The keyword stands at the start of [s]. *)
Definition at_kw (kw : text) (prev q : option ascii) (d : Z) (c : ascii) (s : text) : bool :=
  bool_decide (q = None) && negb (special c) && (d =? 0) && text_prefix kw (map lo (c :: s)) && prev_ok prev && prev_ok (head (drop (length kw) (c :: s))).

(** The keyword stands nowhere in [s]; the end of [s] delimits a word. *)
Fixpoint plain (kw : text) (prev q : option ascii) (d : Z) (s : text) : bool :=
  match s with
  | [] => true
  | c :: s => negb (at_kw kw prev q d c s) && plain kw (Some c) (st1 q d c).1 (st1 q d c).2 s
  end.

(** No parenthesis closes one that was not opened in [s]. *)
Fixpoint nonneg (q : option ascii) (d : Z) (s : text) : bool :=
  match s with [] => true | c :: s => (0 <=? (st1 q d c).2) && nonneg (st1 q d c).1 (st1 q d c).2 s end.
Definition closed (s : text) : Prop := nonneg None 0 s = true /\ st None 0 s = (None, 0).

Lemma st_app q d a b : st q d (a ++ b) = st (st q d a).1 (st q d a).2 b.
Proof. revert q d. induction a as [|c a IH]; intros q d; simpl; [done|]. apply IH. Qed.

Lemma nonneg_app q d a b : nonneg q d (a ++ b) = nonneg q d a && nonneg (st q d a).1 (st q d a).2 b.
Proof. revert q d. induction a as [|c a IH]; intros q d; simpl; [done|]. by rewrite IH, andb_assoc. Qed.

Lemma last_or_cons prev c s : last_or prev (c :: s) = last_or (Some c) s.
Proof.
  unfold last_or. destruct s as [|d s]; [done|]. rewrite last_cons_cons. destruct (last (d :: s)) eqn:E; [done|]. by apply last_None in E.
Qed.
Lemma last_or_app prev a b : last_or prev (a ++ b) = last_or (last_or prev a) b.
Proof. revert prev. induction a as [|c a IH]; intros prev; [done|]. simpl app. by rewrite !last_or_cons, IH. Qed.

Lemma closed_app a b : closed a -> closed b -> closed (a ++ b).
Proof. intros [A1 A2] [B1 B2]. split; [by rewrite nonneg_app, A1, A2|by rewrite st_app, A2]. Qed.

Lemma st1_shift q d k c : st1 q (d + k) c = ((st1 q d c).1, (st1 q d c).2 + k).
Proof. destruct q as [q|]; simpl; [done|]. destruct (is_quote c); [done|]. repeat case_decide; simpl; try done; f_equal; lia. Qed.
Lemma st_shift q d k s : st q (d + k) s = ((st q d s).1, (st q d s).2 + k).
Proof. revert q d. induction s as [|c s IH]; intros q d; simpl; [done|]. by rewrite st1_shift, <- IH. Qed.

(** Inside parentheses there is no keyword to find. *)
Lemma plain_nested kw prev q d s : 0 <= d -> nonneg q d s = true -> plain kw prev q (d + 1) s = true.
Proof.
  revert prev q d. induction s as [|c s IH]; intros prev q d Hd Hn; simpl in *; [done|]. apply andb_true_iff in Hn as [H0 Hn].
  apply andb_true_iff. split.
  - unfold at_kw. replace (d + 1 =? 0) with false by (symmetry; apply Z.eqb_neq; lia). by rewrite andb_false_r.
  - rewrite st1_shift. simpl. apply IH; [lia|done].
Qed.

(** ** Keywords *)
Definition kw_ok (kw : text) : Prop := kw <> [] /\ map lo kw = kw /\ forallb isIdentByte kw = true.
Lemma kw_or : kw_ok (txt "or").
Proof. by vm_compute. Qed.
Lemma kw_and : kw_ok (txt "and").
Proof. by vm_compute. Qed.

Lemma ident_lo c : isIdentByte (lo c) = true -> isIdentByte c = true.
Proof. destruct c as [[] [] [] [] [] [] [] []]; vm_compute; done. Qed.

Lemma text_prefix_app kw a b : text_prefix kw a = true -> text_prefix kw (a ++ b) = true.
Proof. revert a. induction kw as [|c kw IH]; intros [|d a]; simpl; try done. intros [-> H]%andb_true_iff. simpl. auto. Qed.

(** A delimiter after [a] ends every word of [a]. *)
Lemma prefix_delimited kw a b :
  forallb isIdentByte kw = true -> prev_ok (head b) = true -> text_prefix kw (map lo (a ++ b)) = text_prefix kw (map lo a).
Proof.
  intros Hk Hb. revert a. induction kw as [|c kw IH]; intros a; [by destruct a|]. simpl in Hk. apply andb_true_iff in Hk as [Hc Hk].
  destruct a as [|d a]; simpl; [|by rewrite IH]. destruct b as [|d b]; [done|]. simpl in *.
  case_bool_decide as E; [|done]. subst c. apply ident_lo in Hc. by rewrite Hc in Hb.
Qed.

Lemma text_prefix_length kw s : text_prefix kw s = true -> (length kw <= length s)%nat.
Proof. revert s. induction kw as [|c kw IH]; intros [|d s]; simpl; try done; [lia|]. intros [_ H]%andb_true_iff. apply IH in H. lia. Qed.

Lemma at_kw_app kw prev q d c s b :
  kw_ok kw -> prev_ok (head b) = true -> at_kw kw prev q d c (s ++ b) = at_kw kw prev q d c s.
Proof.
  intros (_ & _ & Hk) Hb. unfold at_kw. rewrite app_comm_cons, prefix_delimited by done.
  destruct (text_prefix kw (map lo (c :: s))) eqn:E; [|by rewrite !andb_false_r]. apply text_prefix_length in E. rewrite length_map in E.
  f_equal. rewrite drop_app_le by done. destruct (drop (length kw) (c :: s)); [done|]. done.
Qed.

Lemma plain_app kw prev q d a b :
  kw_ok kw -> prev_ok (head b) = true ->
  plain kw prev q d (a ++ b) = plain kw prev q d a && plain kw (last_or prev a) (st q d a).1 (st q d a).2 b.
Proof.
  intros Hk Hb. revert prev q d. induction a as [|c a IH]; intros prev q d; [done|]. simpl.
  by rewrite at_kw_app, IH, last_or_cons, andb_assoc.
Qed.

Lemma plain_prev kw prev prev' q d s : prev_ok prev = prev_ok prev' -> plain kw prev q d s = plain kw prev' q d s.
Proof. intros E. destruct s; [done|]. simpl. unfold at_kw. by rewrite E. Qed.

(** ** The splitting loop *)
Lemma split_step kw prev q d cur c s :
  kw_ok kw -> at_kw kw prev q d c s = false ->
  split_loop kw 0 prev q d cur (c :: s) (map lo (c :: s)) =
  split_loop kw 0 (Some c) (st1 q d c).1 (st1 q d c).2 (cur ++ [c]) s (map lo s).
Proof.
  intros (Hne & _ & _) Hk. unfold at_kw, special in Hk. cbn [split_loop]. unfold st1. cbn [map tail] in *.
  destruct q as [q|]; [done|]. destruct (is_quote c); [done|]. destruct (decide (c = "("%char)) as [E1|N1]; [done|].
  destruct (decide (c = ")"%char)) as [E2|N2]; [done|]. rewrite (bool_decide_false _ N1), (bool_decide_false _ N2) in Hk. cbn in Hk.
  destruct ((d =? 0) && text_prefix kw (lo c :: map lo s)) eqn:E; cbn in Hk; [|done].
  apply andb_true_iff in E as [E0 E]. pose proof (text_prefix_length _ _ E) as El. cbn [length] in El. rewrite length_map in El.
  replace (Nat.ltb (length (c :: s)) (length kw)) with false by (symmetry; apply Nat.ltb_ge; done).
  by rewrite Hk.
Qed.

Lemma split_plain kw prev q d cur a b :
  kw_ok kw -> prev_ok (head b) = true -> plain kw prev q d a = true ->
  split_loop kw 0 prev q d cur (a ++ b) (map lo (a ++ b)) =
  split_loop kw 0 (last_or prev a) (st q d a).1 (st q d a).2 (cur ++ a) b (map lo b).
Proof.
  intros Hk Hb. revert prev q d cur. induction a as [|c a IH]; intros prev q d cur Hp; [by rewrite app_nil_r|].
  cbn [plain] in Hp. apply andb_true_iff in Hp as [Hc Hp]. apply negb_true_iff in Hc. rewrite <- app_comm_cons.
  rewrite split_step by (try done; by rewrite at_kw_app). rewrite IH by done. by rewrite last_or_cons, <- app_assoc.
Qed.

Lemma split_skip kw prev d cur a b :
  split_loop kw (length a) prev None d cur (a ++ b) (map lo (a ++ b)) = split_loop kw 0 (last_or prev a) None d cur b (map lo b).
Proof. revert prev. induction a as [|c a IH]; intros prev; [done|]. cbn. rewrite IH. by rewrite last_or_cons. Qed.

Lemma split_at_kw kw prev cur b :
  kw_ok kw -> prev_ok prev = true -> prev_ok (head b) = true ->
  split_loop kw 0 prev None 0 cur (kw ++ b) (map lo (kw ++ b)) =
  rest ← split_loop kw 0 (last kw) None 0 [] b (map lo b); Ok (TrimSpace cur :: rest).
Proof.
  intros (Hne & Hlo & Hid) Hp Hb. destruct kw as [|c kw]; [done|]. rewrite <- app_comm_cons. cbn [split_loop].
  cbn in Hid. apply andb_true_iff in Hid as [Hc Hid].
  assert (special c = false) as Hs by (destruct c as [[] [] [] [] [] [] [] []]; vm_compute in Hc |- *; done).
  unfold special in Hs. apply orb_false_iff in Hs as [[Hq H1]%orb_false_iff H2]. rewrite Hq.
  rewrite decide_False by (by apply bool_decide_eq_false in H1). rewrite decide_False by (by apply bool_decide_eq_false in H2).
  cbn [map tail]. injection Hlo as Hlc Hlo. rewrite map_app, Hlc, Hlo. rewrite app_comm_cons, text_prefix_app.
  2: { clear. generalize (c :: kw) as l. induction l; [done|]. cbn. by rewrite bool_decide_true. }
  cbn [Z.eqb andb]. rewrite app_comm_cons. replace (Nat.ltb _ _) with false by (symmetry; apply Nat.ltb_ge; rewrite length_app; lia).
  rewrite Hp. rewrite drop_app_length, Hb. cbn [andb]. replace (length (c :: kw) - 1)%nat with (length kw) by (cbn; lia).
  replace (kw ++ map lo b) with (map lo (kw ++ b)) by (by rewrite map_app, Hlo). rewrite split_skip, <- (last_or_cons None c kw).
  unfold last_or. by destruct (last (c :: kw)).
Qed.

(** ** Expressions and how they are written *)
Inductive fexp := FAtom (a : text) | FNot (x : fexp) | FAnd (xs : list fexp) | FOr (xs : list fexp).

Fixpoint fexp_ind' (P : fexp -> Prop) (Ha : forall a, P (FAtom a)) (Hn : forall x, P x -> P (FNot x))
  (Hand : forall xs, Forall P xs -> P (FAnd xs)) (Hor : forall xs, Forall P xs -> P (FOr xs)) (x : fexp) : P x :=
  let all := fix all l : Forall P l :=
    match l with [] => Forall_nil_2 P | x :: l => Forall_cons_2 P x l (fexp_ind' P Ha Hn Hand Hor x) (all l) end in
  match x with
  | FAtom a => Ha a
  | FNot x => Hn x (fexp_ind' P Ha Hn Hand Hor x)
  | FAnd xs => Hand xs (all xs)
  | FOr xs => Hor xs (all xs)
  end.

Definition space : ascii := " "%char.
Fixpoint join (sep : text) (l : list text) : text :=
  match l with [] => [] | [s] => s | s :: l => s ++ sep ++ join sep l end.
Definition parens (b : bool) (s : text) : text := if b then "("%char :: s ++ [")"%char] else s.
Definition around (kw : text) : text := space :: kw ++ [space].

(** Parentheses where the precedence asks for them: [lvl] is 0 at the top, 1
    below [or], 2 below [and] and [not]. *)
Fixpoint print (lvl : nat) (x : fexp) : text :=
  match x with
  | FAtom a => a
  | FNot x => txt "not " ++ print 2 x
  | FAnd xs => parens (Nat.ltb 1 lvl) (join (around (txt "and")) (map (print 2) xs))
  | FOr xs => parens (Nat.ltb 0 lvl) (join (around (txt "or")) (map (print 1) xs))
  end.

(** An atom: ASCII, no blanks at its ends, balanced parentheses and quotes, no
    keyword outside of them, and neither a negation nor in parentheses. *)
Record atom_ok (a : text) : Prop := {
  ak_ascii : ascii_text a; ak_ends : solid_ends a; ak_closed : closed a;
  ak_or : plain (txt "or") None None 0 a = true; ak_and : plain (txt "and") None None 0 a = true;
  ak_not : stripNotPrefix a = None; ak_parens : stripOuterParens a = None }.

Fixpoint wf (x : fexp) : Prop :=
  match x with
  | FAtom a => atom_ok a
  | FNot x => wf x
  | FAnd xs | FOr xs => (2 <= length xs)%nat /\ foldr and True (map wf xs)
  end.

Lemma foldr_and_Forall {A} (P : A -> Prop) l : foldr and True (map P l) <-> Forall P l.
Proof. induction l as [|x l IH]; simpl; [split; [constructor|done]|]. by rewrite Forall_cons, IH. Qed.

(** What a printed text satisfies. *)
Record piece (kws : list text) (s : text) : Prop := {
  pc_ascii : ascii_text s; pc_ends : solid_ends s; pc_closed : closed s;
  pc_plain : Forall (fun kw => plain kw None None 0 s = true) kws }.

Lemma solid_ends_app a b c : solid_ends a -> solid_ends c -> solid_ends (a ++ b ++ c).
Proof.
  intros [(x & a' & -> & Hx) _] [_ (y & c' & -> & Hy)]. split.
  - exists x, (a' ++ b ++ c' ++ [y]). by rewrite <- app_comm_cons.
  - exists y, ((x :: a') ++ b ++ c'). by rewrite !app_assoc.
Qed.

Lemma ends_parens s : solid_ends ("("%char :: s ++ [")"%char]).
Proof. split; [exists "("%char, (s ++ [")"%char])|exists ")"%char, ("("%char :: s)]; (split; [done|]); apply (bool_decide_unpack _); by vm_compute. Qed.

Lemma ends_nonempty s : solid_ends s -> s <> [].
Proof. by intros [(c & s' & -> & _) _]. Qed.

Lemma ends_head s : solid_ends s -> exists c, head s = Some c /\ solid c.
Proof. intros [(c & s' & -> & Hc) _]. by exists c. Qed.

Lemma at_kw_space kw prev q d s : kw_ok kw -> at_kw kw prev q d space s = false.
Proof.
  intros (Hne & _ & Hid). unfold at_kw. destruct kw as [|c kw]; [done|]. cbn in Hid. apply andb_true_iff in Hid as [Hc _]. cbn [map text_prefix].
  replace (bool_decide (c = lo space)) with false; [by rewrite ?andb_false_r|]. symmetry. apply bool_decide_false. intros ->. by vm_compute in Hc.
Qed.

Lemma plain_space kw prev s : kw_ok kw -> plain kw prev None 0 (space :: s) = plain kw (Some space) None 0 s.
Proof. intros Hk. cbn [plain]. by rewrite at_kw_space. Qed.

Lemma ascii_app a b : ascii_text (a ++ b) <-> ascii_text a /\ ascii_text b.
Proof. apply Forall_app. Qed.

Lemma closed_space : closed [space].
Proof. by vm_compute. Qed.

Lemma around_closed kw : closed kw -> closed (around kw).
Proof. intros Hk. unfold around. apply (closed_app [space]); [apply closed_space|]. by apply closed_app, closed_space. Qed.

Lemma join_cons sep s t l : join sep (s :: t :: l) = s ++ sep ++ join sep (t :: l).
Proof. done. Qed.

Lemma closed_after prev s t kw : kw_ok kw -> closed s -> solid_ends s -> plain kw None None 0 s = true -> prev_ok prev = true ->
  prev_ok (head t) = true -> plain kw prev None 0 (s ++ t) = plain kw (last s) None 0 t.
Proof.
  intros Hk [_ Hst] He Hp Hprev Ht. rewrite plain_app by done. rewrite (plain_prev _ prev None) by done. rewrite Hp, Hst. cbn [andb fst snd].
  f_equal. unfold last_or. destruct He as [_ (c & s' & -> & _)]. by rewrite last_snoc.
Qed.

Lemma join_piece kw' kws l :
  kw_ok kw' -> closed kw' -> ascii_text kw' -> Forall (fun kw => kw_ok kw /\ plain kw (Some space) None 0 kw' = true) kws ->
  l <> [] -> Forall (piece kws) l -> piece kws (join (around kw') l).
Proof.
  intros Hk' Hc' Ha' Hkws Hne Hl. induction Hl as [|s l Hs Hl IH]; [done|]. destruct l as [|t l]; [done|].
  specialize (IH ltac:(done)). rewrite join_cons. set (j := join (around kw') (t :: l)) in *. split.
  - rewrite !ascii_app. split; [apply Hs|]. split; [|apply IH]. unfold around. constructor; [done|]. apply ascii_app. split; [done|]. by repeat constructor.
  - apply solid_ends_app; [apply Hs|apply IH].
  - apply closed_app; [apply Hs|]. apply closed_app; [by apply around_closed|apply IH].
  - apply Forall_forall. intros kw Hkw. rewrite Forall_forall in Hkws. destruct (Hkws kw Hkw) as [Hok Hp].
    pose proof (pc_plain _ _ Hs) as Ps. pose proof (pc_plain _ _ IH) as Pj. rewrite Forall_forall in Ps, Pj.
    rewrite (closed_after None s) by (try apply Hs; auto). unfold around. rewrite <- app_comm_cons, plain_space by done.
    rewrite <- app_assoc. rewrite plain_app by done. rewrite Hp. destruct Hc' as [_ ->]. cbn [andb fst snd app].
    rewrite plain_space by done. rewrite (plain_prev _ (Some space) None) by done. auto.
Qed.

Lemma parens_piece kws s : ascii_text s -> closed s -> piece kws (parens true s).
Proof.
  intros Ha [Hn Hst]. unfold parens. split.
  - constructor; [done|]. apply ascii_app. split; [done|]. by repeat constructor.
  - apply ends_parens.
  - split.
    + change (nonneg None 0 ("("%char :: s ++ [")"%char])) with (nonneg None 1 (s ++ [")"%char])). rewrite nonneg_app.
      change 1 with (0 + 1). rewrite st_shift, Hst. cbn. rewrite andb_true_r.
      assert (forall q d, 0 <= d -> nonneg q d s = true -> nonneg q (d + 1) s = true) as Hm; [|by apply Hm].
      clear. induction s as [|c s IH]; intros q d Hd; [done|]. cbn. rewrite st1_shift. cbn. intros [H1 H2]%andb_true_iff.
      apply Z.leb_le in H1. rewrite (proj2 (Z.leb_le _ _)) by lia. by apply IH.
    + change (st None 0 ("("%char :: s ++ [")"%char])) with (st None 1 (s ++ [")"%char])). rewrite st_app. change 1 with (0 + 1). by rewrite st_shift, Hst.
  - apply Forall_forall. intros kw _. cbn [plain]. unfold at_kw, special. rewrite (bool_decide_true ("("%char = "("%char)) by done.
    rewrite orb_true_r. cbn [negb andb orb]. rewrite !andb_false_r. cbn [negb andb st1 fst snd].
    change (st1 None 0 "(") with (@None ascii, 1). cbn [fst snd].
    assert (forall prev q d, 0 <= d -> nonneg q d s = true -> (st q d s).2 = 0 -> (st q d s).1 = None -> plain kw prev q (d + 1) (s ++ [")"%char]) = true) as Hx.
    { clear. induction s as [|c s IH]; intros prev q d Hd Hn H0 Hq.
      - cbn in *. subst q. unfold at_kw, special. cbn. by rewrite ?andb_false_r.
      - cbn [app plain]. cbn [nonneg st] in *. apply andb_true_iff in Hn as [H1 Hn]. rewrite st1_shift. cbn [fst snd].
        rewrite IH; [|by apply Z.leb_le|done..]. rewrite andb_true_r. unfold at_kw.
        replace (d + 1 =? 0) with false by (symmetry; apply Z.eqb_neq; lia). by rewrite !andb_false_r. }
    exact (Hx (Some "("%char) None 0 ltac:(done) Hn (f_equal snd Hst) (f_equal fst Hst)).
Qed.

Definition kws (lvl : nat) : list text := (if Nat.leb 1 lvl then [txt "or"] else []) ++ (if Nat.leb 2 lvl then [txt "and"] else []).

Lemma piece_weaken k k' s : (forall kw, kw ∈ k' -> kw ∈ k) -> piece k s -> piece k' s.
Proof. intros Hk [? ? ? Hp]. split; [done..|]. rewrite Forall_forall in *. auto. Qed.

Lemma kws_two lvl kw : kw ∈ kws lvl -> kw ∈ kws 2.
Proof.
  change (kws 2) with [txt "or"; txt "and"]. unfold kws. rewrite elem_of_app, !elem_of_cons.
  intros [H|H]; case_match; try by apply elem_of_nil in H. all: apply list_elem_of_singleton in H; auto.
Qed.

Lemma not_piece s : piece (kws 2) s -> piece (kws 2) (txt "not " ++ s).
Proof.
  intros [Ha He Hc Hp]. split.
  - apply ascii_app. split; [by repeat constructor|done].
  - destruct He as [_ (c & s' & -> & Hs)]. split.
    + exists "n"%char, (txt "ot " ++ s' ++ [c]). split; [done|]. apply (bool_decide_unpack _). by vm_compute.
    + exists c, (txt "not " ++ s'). by rewrite app_assoc.
  - apply closed_app; [by vm_compute|done].
  - rewrite Forall_forall in *. intros kw Hkw. specialize (Hp kw Hkw).
    assert (kw_ok kw /\ plain kw None None 0 (txt "not") = true) as [Hok Hnot].
    { unfold kws in Hkw. simpl in Hkw. rewrite !elem_of_cons in Hkw. destruct Hkw as [->|[->|Hkw]]; [by vm_compute..|by apply elem_of_nil in Hkw]. }
    change (txt "not " ++ s) with (txt "not" ++ space :: s). rewrite plain_app by done. rewrite Hnot. cbn [andb].
    change (st None 0 (txt "not")) with (@None ascii, 0). cbn [fst snd]. rewrite plain_space by done. by rewrite (plain_prev _ _ None).
Qed.

Lemma print_piece x : wf x -> forall lvl, piece (kws lvl) (print lvl x).
Proof.
  induction x as [a|x IH|xs IH|xs IH] using fexp_ind'; intros Hw lvl.
  - destruct Hw. simpl. split; [done..|]. apply Forall_forall. intros kw Hkw%kws_two. unfold kws in Hkw. simpl in Hkw.
    rewrite !elem_of_cons in Hkw. destruct Hkw as [->|[->|Hkw]]; [done..|by apply elem_of_nil in Hkw].
  - apply (piece_weaken (kws 2)); [apply kws_two|]. apply not_piece, IH, Hw.
  - destruct Hw as [Hl Hw]. rewrite foldr_and_Forall in Hw. cbn [print].
    assert (Forall (piece (kws 2)) (map (print 2) xs)) as Hxs.
    { rewrite Forall_fmap. rewrite Forall_forall in *. intros x Hx. apply IH; auto. }
    assert (piece (kws 1) (join (around (txt "and")) (map (print 2) xs))) as Hj.
    { apply join_piece; [apply kw_and|by vm_compute|by repeat constructor| |by destruct xs; [simpl in Hl; lia|]|].
      - change (kws 1) with [txt "or"]. repeat constructor; try apply kw_or; by vm_compute.
      - eapply Forall_impl; [exact Hxs|]. intros s. apply piece_weaken. intros kw. apply kws_two. }
    destruct lvl as [|[|lvl]]; [|exact Hj|apply parens_piece; apply Hj]. eapply piece_weaken; [|exact Hj]. by intros kw ?%elem_of_nil.
  - destruct Hw as [Hl Hw]. rewrite foldr_and_Forall in Hw. cbn [print].
    assert (Forall (piece (kws 1)) (map (print 1) xs)) as Hxs.
    { rewrite Forall_fmap. rewrite Forall_forall in *. intros x Hx. apply IH; auto. }
    assert (piece [] (join (around (txt "or")) (map (print 1) xs))) as Hj.
    { apply join_piece; [apply kw_or|by vm_compute|by repeat constructor|constructor|by destruct xs; [simpl in Hl; lia|]|].
      eapply Forall_impl; [exact Hxs|]. intros s. apply piece_weaken. by intros kw ?%elem_of_nil. }
    destruct lvl as [|lvl]; [exact Hj|apply parens_piece; apply Hj].
Qed.

(** ** Splitting a printed text *)
Lemma split_single kw s : kw_ok kw -> solid_ends s -> closed s -> plain kw None None 0 s = true ->
  split_loop kw 0 None None 0 [] s (map lo s) = Ok [s].
Proof.
  intros Hk He Hc Hp. rewrite <- (app_nil_r s) at 1 2. rewrite split_plain by done. destruct Hc as [_ ->]. cbn [split_loop fst snd app]. by rewrite TrimSpace_id.
Qed.

(** The part read so far may start with the space after a keyword. *)
Lemma split_join kw l pre prev :
  kw_ok kw -> pre = [] \/ pre = [space] -> prev_ok prev = true -> l <> [] ->
  Forall (fun s => solid_ends s /\ closed s /\ plain kw None None 0 s = true) l ->
  split_loop kw 0 prev None 0 pre (join (around kw) l) (map lo (join (around kw) l)) = Ok l.
Proof.
  intros Hk Hpre Hprev Hne Hl. revert pre prev Hpre Hprev Hne. induction Hl as [|s l (He & Hc & Hp) Hl IH]; intros pre prev Hpre Hprev Hne; [done|].
  assert (TrimSpace (pre ++ s) = s /\ TrimSpace (pre ++ s ++ [space]) = s) as [T1 T2].
  { destruct (TrimSpace_padded s He) as (A & B & C). destruct Hpre as [->| ->]; [split; [by apply TrimSpace_id|done]|done]. }
  assert (plain kw prev None 0 s = true) as Hp' by (by rewrite (plain_prev _ _ None)).
  destruct l as [|t l].
  - cbn [join]. rewrite <- (app_nil_r s) at 1 2. rewrite split_plain by done. destruct Hc as [_ ->]. cbn [split_loop fst snd]. by rewrite T1.
  - rewrite join_cons. rewrite split_plain by done. destruct Hc as [_ Hst]. rewrite Hst. cbn [fst snd].
    set (j := join (around kw) (t :: l)). unfold around. rewrite <- app_comm_cons.
    rewrite split_step by (try done; by apply at_kw_space).
    change (st1 None 0 space) with (@None ascii, 0). cbn [fst snd]. rewrite <- !app_assoc. rewrite split_at_kw by done. rewrite T2. cbn [app].
    rewrite split_step by (try done; by apply at_kw_space).
    change (st1 None 0 space) with (@None ascii, 0). cbn [fst snd app]. subst j. rewrite IH; [done|by right|done|done].
Qed.

(** ** The translation of an expression *)
Section translation.
Context `{GoLib} (lists : list_blocks) (eventType : gostring).

(** What [strings.ToLower] is documented to do on ASCII. *)
Definition lowers_ascii : Prop := forall s, ascii_text s -> txt (ToLower (str s)) = map lo s.

(** The translation, on the expression instead of on its text. *)
Fixpoint compile (x : fexp) : run (option falcoNode * list reason) :=
  match x with
  | FAtom a => m ← mapAtom lists eventType a; Ok (atom_node m)
  | FNot x => '(n, rs) ← compile x; Ok (negate_node (print 2 x) n rs)
  | FAnd xs => res ← parse_parts compile xs; Ok (combine "and" res)
  | FOr xs => res ← parse_parts compile xs; Ok (combine "or" res)
  end.

Lemma parse_parts_ext {A B} (f : A -> run _) (g : B -> run _) l k :
  Forall2 (fun a b => f a = g b) l k -> parse_parts f l = parse_parts g k.
Proof. induction 1 as [|a b l k E _ IH]; [done|]. simpl. rewrite E. destruct (g b) as [[n r]| |]; simpl; [|done..]. by rewrite IH. Qed.

Hypothesis Hlower : lowers_ascii.

Lemma split_kw_single (kw : gostring) s k : txt kw ∈ k -> kw_ok (txt kw) -> piece k s -> splitTopLevelKeyword s kw = Ok [s].
Proof.
  intros Hkw Hok [Ha He Hc Hp]. unfold splitTopLevelKeyword. rewrite Hlower by done. rewrite Forall_forall in Hp. apply split_single; auto.
Qed.

Lemma split_kw_join (kw : gostring) l : kw_ok (txt kw) -> l <> [] -> Forall (piece [txt kw]) l -> ascii_text (join (around (txt kw)) l) ->
  splitTopLevelKeyword (join (around (txt kw)) l) kw = Ok l.
Proof.
  intros Hok Hne Hl Ha. unfold splitTopLevelKeyword. rewrite Hlower by done. apply split_join; [done|by left|done|done|].
  eapply Forall_impl; [exact Hl|]. intros s [_ He Hc Hp]. rewrite Forall_singleton in Hp. done.
Qed.

Ltac kw_side := first [done | apply kw_or | apply kw_and | by left | by right; left].

(** *** Steps of the parser *)
Abbreviation parse := (parseExpr lists eventType).

Lemma parse_start fuel s : solid_ends s ->
  parse (S fuel) s =
  (parts ← splitTopLevelKeyword s "or";
   if Nat.ltb 1 (length parts) then res ← parse_parts (parse fuel) parts; Ok (combine "or" res) else
   parts ← splitTopLevelKeyword s "and";
   if Nat.ltb 1 (length parts) then res ← parse_parts (parse fuel) parts; Ok (combine "and" res) else
   match stripNotPrefix s with
   | Some rest => '(n, rs) ← parse fuel rest; Ok (negate_node rest n rs)
   | None => match stripOuterParens s with Some inner => parse fuel inner | None => m ← mapAtom lists eventType s; Ok (atom_node m) end
   end).
Proof. intros Hs. cbn [parseExpr]. rewrite TrimSpace_id by done. rewrite decide_False by (by apply ends_nonempty). done. Qed.

(** A text without keywords at the top. *)
Lemma parse_unary fuel s : piece (kws 2) s ->
  parse (S fuel) s =
   match stripNotPrefix s with
   | Some rest => '(n, rs) ← parse fuel rest; Ok (negate_node rest n rs)
   | None => match stripOuterParens s with Some inner => parse fuel inner | None => m ← mapAtom lists eventType s; Ok (atom_node m) end
   end.
Proof.
  intros Hs. rewrite parse_start by apply Hs.
  rewrite (split_kw_single "or" s (kws 2)) by kw_side. cbn [mbind result_bind length Nat.ltb Nat.leb].
  rewrite (split_kw_single "and" s (kws 2)) by kw_side. done.
Qed.

Lemma ltb_two {A} (l : list A) : (2 <= length l)%nat -> Nat.ltb 1 (length l) = true.
Proof. intros. apply Nat.ltb_lt. lia. Qed.

Lemma parse_or fuel s parts : solid_ends s -> splitTopLevelKeyword s "or" = Ok parts -> (2 <= length parts)%nat ->
  parse (S fuel) s = (res ← parse_parts (parse fuel) parts; Ok (combine "or" res)).
Proof. intros Hs E Hl. rewrite parse_start, E by done. change (Ok parts ≫= ?f) with (f parts). cbv beta. by rewrite ltb_two. Qed.

Lemma parse_and fuel s parts : solid_ends s -> splitTopLevelKeyword s "or" = Ok [s] -> splitTopLevelKeyword s "and" = Ok parts ->
  (2 <= length parts)%nat -> parse (S fuel) s = (res ← parse_parts (parse fuel) parts; Ok (combine "and" res)).
Proof.
  intros Hs E E' Hl. rewrite parse_start, E by done. change (Ok [s] ≫= ?f) with (f [s]). cbv beta. change (Nat.ltb 1 (length [s])) with false.
  cbv iota. rewrite E'. change (Ok parts ≫= ?f) with (f parts). cbv beta. by rewrite ltb_two.
Qed.

Lemma outer_scan_inner q d s t :
  0 <= d -> nonneg q d s = true -> outer_scan q (d + 1) (s ++ t) = outer_scan (st q d s).1 ((st q d s).2 + 1) t.
Proof.
  revert q d. induction s as [|c s IH]; intros q d Hd Hn; [done|]. cbn [nonneg] in Hn. apply andb_true_iff in Hn as [H1 Hn].
  apply Z.leb_le in H1. cbn [app outer_scan st]. unfold st1 in *. destruct q as [q|]; [by apply IH|].
  destruct (is_quote c); [by apply IH|]. destruct (decide (c = "("%char)); [cbn [fst snd] in *; rewrite <- IH by done; f_equal; lia|].
  destruct (decide (c = ")"%char)); [|by apply IH]. cbn [fst snd] in *.
  replace (d + 1 - 1 =? 0) with (d =? 0) by (f_equal; lia). destruct (Z.eqb_spec d 0) as [->|]; [lia|]. cbn [andb].
  rewrite <- IH by done. f_equal. lia.
Qed.

Lemma strip_parens s : solid_ends s -> closed s -> stripOuterParens ("("%char :: s ++ [")"%char]) = Some s.
Proof.
  intros He [Hn Hst]. unfold stripOuterParens. rewrite length_cons, length_app. cbn [length].
  replace (Nat.ltb (S (length s + 1)) 2) with false by (symmetry; apply Nat.ltb_ge; apply ends_nonempty in He; destruct s; [done|cbn; lia]).
  rewrite (bool_decide_true (head _ = _)) by done. rewrite app_comm_cons, last_snoc, (bool_decide_true (Some _ = _)) by done. cbn [negb orb].
  rewrite <- app_comm_cons. change (outer_scan None 0 ("("%char :: s ++ [")"%char])) with (outer_scan None (0 + 1) (s ++ [")"%char])).
  rewrite outer_scan_inner by done. rewrite Hst. cbn. rewrite removelast_last. f_equal. by apply TrimSpace_id.
Qed.

Lemma strip_not_parens s : stripNotPrefix ("("%char :: s) = None.
Proof. unfold stripNotPrefix. by replace (fold_not (take 3 ("("%char :: s))) with false; [rewrite orb_true_r|]. Qed.

Lemma parse_parens fuel s : ascii_text s -> solid_ends s -> closed s -> parse (S fuel) (parens true s) = parse fuel s.
Proof.
  intros Ha He Hc. rewrite parse_unary by (by apply parens_piece). unfold parens. by rewrite strip_not_parens, strip_parens.
Qed.

Lemma strip_not_print s : solid_ends s -> stripNotPrefix (txt "not " ++ s) = Some s.
Proof. intros He. unfold stripNotPrefix. cbn -[TrimSpace]. f_equal. by apply TrimSpace_padded. Qed.

(** *** Lengths *)
Lemma join_length sep l s : s ∈ l -> (length s <= length (join sep l))%nat.
Proof.
  induction l as [|t l IH]; [by intros ?%elem_of_nil|]. destruct l as [|u l].
  - intros ->%list_elem_of_singleton. done.
  - rewrite join_cons, !length_app. intros [->|Hs]%elem_of_cons; [lia|]. specialize (IH Hs). lia.
Qed.

Lemma join_length_lt sep l s : s ∈ l -> (2 <= length l)%nat -> sep <> [] -> (length s < length (join sep l))%nat.
Proof.
  destruct l as [|t [|u l]]; cbn [length]; [lia..|]. intros Hs _ Hsep. rewrite join_cons, !length_app.
  assert (1 <= length sep)%nat by (destruct sep; [done|cbn; lia]). apply elem_of_cons in Hs as [->|Hs]; [lia|].
  pose proof (join_length sep (u :: l) s Hs). lia.
Qed.

(** The parser reads a printed expression as its translation. *)
Lemma parse_print x : wf x -> forall lvl fuel, (length (print lvl x) < fuel)%nat -> parse fuel (print lvl x) = compile x.
Proof.
  induction x as [a|x IH|xs IH|xs IH] using fexp_ind'; intros Hw lvl fuel Hf; (destruct fuel as [|fuel]; [lia|]).
  - cbn [print] in *. rewrite parse_unary by apply (print_piece (FAtom a) Hw 2). destruct Hw. by rewrite ak_not0, ak_parens0.
  - rewrite parse_unary by apply (print_piece (FNot x) Hw 2). cbn [print] in *. rewrite strip_not_print by apply (print_piece x Hw 2).
    rewrite IH; [done|done|]. rewrite length_app in Hf. cbn in Hf. lia.
  - destruct Hw as [Hl Hw]. pose proof (print_piece (FAnd xs) (conj Hl Hw)) as Hp. rewrite foldr_and_Forall in Hw.
    assert (forall fuel, (length (join (around (txt "and")) (map (print 2) xs)) < fuel)%nat ->
      parse fuel (join (around (txt "and")) (map (print 2) xs)) = compile (FAnd xs)) as Hjoin.
    { clear fuel Hf. intros [|fuel] Hf; [lia|]. specialize (Hp 1%nat). cbn [print parens] in Hp.
      rewrite (parse_and _ _ (map (print 2) xs)); [|apply Hp|by apply (split_kw_single "or" _ (kws 1)); kw_side| |by rewrite length_map].
      2: { apply (split_kw_join "and"); [apply kw_and|by destruct xs; [cbn in Hl; lia|]| |apply Hp].
           rewrite Forall_fmap. rewrite Forall_forall in *. intros x Hx. apply (piece_weaken (kws 2)); [|by apply print_piece; auto].
           intros kw ->%list_elem_of_singleton. by right; left. }
      cbn [compile]. erewrite parse_parts_ext; [reflexivity|]. apply Forall2_fmap_l. apply Forall_Forall2_diag. rewrite Forall_forall in *.
      intros x Hx. apply IH; [done|auto|]. pose proof (join_length_lt (around (txt "and")) (map (print 2) xs) (print 2 x)
        ltac:(apply list_elem_of_fmap; eauto) ltac:(by rewrite length_map) ltac:(done)). lia. }
    cbn [print] in *. destruct (Nat.ltb 1 lvl); [|by apply Hjoin]. specialize (Hp 1%nat). cbn in Hp.
    rewrite parse_parens by apply Hp. apply Hjoin. cbn [parens length] in Hf. rewrite length_app in Hf. cbn [length] in Hf. lia.
  - destruct Hw as [Hl Hw]. pose proof (print_piece (FOr xs) (conj Hl Hw) 0) as Hp. rewrite foldr_and_Forall in Hw. cbn [print parens Nat.ltb Nat.leb] in Hp.
    assert (forall fuel, (length (join (around (txt "or")) (map (print 1) xs)) < fuel)%nat ->
      parse fuel (join (around (txt "or")) (map (print 1) xs)) = compile (FOr xs)) as Hjoin.
    { clear fuel Hf. intros [|fuel] Hf; [lia|].
      rewrite (parse_or _ _ (map (print 1) xs)); [|apply Hp| |by rewrite length_map].
      2: { apply (split_kw_join "or"); [apply kw_or|by destruct xs; [cbn in Hl; lia|]| |apply Hp].
           rewrite Forall_fmap. rewrite Forall_forall in *. intros x Hx. by apply (print_piece x (Hw x Hx) 1). }
      cbn [compile]. erewrite parse_parts_ext; [reflexivity|]. apply Forall2_fmap_l. apply Forall_Forall2_diag. rewrite Forall_forall in *.
      intros x Hx. apply IH; [done|auto|]. pose proof (join_length_lt (around (txt "or")) (map (print 1) xs) (print 1 x)
        ltac:(apply list_elem_of_fmap; eauto) ltac:(by rewrite length_map) ltac:(done)). lia. }
    cbn [print] in *. destruct (Nat.ltb 0 lvl); [|by apply Hjoin].
    rewrite parse_parens by apply Hp. apply Hjoin. cbn [parens length] in Hf. rewrite length_app in Hf. cbn [length] in Hf. lia.
Qed.

(** ** What a condition means *)
Definition node_holds (e : Event) (n : falcoNode) : Prop :=
  match n with Single c => cond_holds e (rule_condition c) | Group g => group_holds e (rule_group g) end.

Definition atom_holds (e : Event) (a : text) : Prop :=
  match mapAtom lists eventType a with Ok (Some c, _) => cond_holds e (rule_condition c) | _ => False end.

(** The Falco meaning of an expression over its atoms. *)
Fixpoint sem (e : Event) (x : fexp) : Prop :=
  match x with
  | FAtom a => atom_holds e a
  | FNot x => ~ sem e x
  | FAnd xs => foldr and True (map (sem e) xs)
  | FOr xs => foldr or False (map (sem e) xs)
  end.

Fixpoint atoms (x : fexp) : list text :=
  match x with FAtom a => [a] | FNot x => atoms x | FAnd xs | FOr xs => concat (map atoms xs) end.
Fixpoint negated (x : fexp) : list text :=
  match x with FAtom _ => [] | FNot x => atoms x | FAnd xs | FOr xs => concat (map negated xs) end.

(** The event has a value for the field of the condition. *)
Definition observed (e : Event) (c : FalcoCondition) : Prop :=
  let v := getFieldValue e (fc_Field c) None in
  v <> fieldNotFound /\ v <> ""%string /\ (is_cidr_op (fc_Op c) = true -> is_Some (ParseIP v)).

Lemma stable (b : bool) (P : Prop) : (b = true <-> P) -> ~ ~ P -> P.
Proof. intros Hb Hn. apply Hb. destruct b; [done|]. destruct Hn. intros HP. by apply Hb in HP. Qed.

Lemma any_stable (f : gostring -> bool) (P : gostring -> Prop) values : (forall v, f v = true <-> P v) -> ~ ~ any values P -> any values P.
Proof. intros Hf. apply (stable (existsb f values)). by apply existsb_any. Qed.

Lemma cidr_stable values ip : ~ ~ in_some_cidr values ip -> in_some_cidr values ip.
Proof.
  apply (any_stable (fun c => match ParseCIDR c with Some n => IPNet_Contains n ip | None => false end)).
  intros v. destruct (ParseCIDR v); split; [eauto|by intros (n & [= ->] & ?)|done|by intros (n & ? & ?)].
Qed.

(** On an event with a value for the field, the negated operator is the
    complement. *)
Lemma negate_holds e c c' : negateCondition c = Some c' -> observed e c ->
  (cond_holds e (rule_condition c') <-> ~ cond_holds e (rule_condition c)).
Proof.
  intros Hn (Hf & He & Hip). unfold negateCondition in Hn. destruct (assoc (fc_Op c) negatedOps) as [op|] eqn:Ea; [|done].
  injection Hn as <-. apply assoc_elem in Ea. unfold cond_holds. simpl. set (v := getFieldValue e (fc_Field c) None) in *. set (vs := fc_Values c).
  unfold negatedOps in Ea. rewrite !elem_of_cons in Ea.
  assert (forall code code', (value_holds code' vs v <-> ~ value_holds code vs v) ->
    (v <> fieldNotFound /\ (v = ""%string -> empty_ok code') /\ value_holds code' vs v <->
     ~ (v <> fieldNotFound /\ (v = ""%string -> empty_ok code) /\ value_holds code vs v))) as Hg.
  { intros code code' Hx. rewrite Hx. split; [tauto|]. intros Hno. split; [done|]. split; [done|]. intros Hv. apply Hno. done. }
  destruct Ea as [[= Eo ->]|[[= Eo ->]|[[= Eo ->]|[[= Eo ->]|[[= Eo ->]|[[= Eo ->]|[[= Eo ->]|[[= Eo ->]|[[= Eo ->]|[[= Eo ->]|Ea]]]]]]]]]];
    [rewrite Eo in *..|by apply elem_of_nil in Ea].
  - by apply (Hg condOpEquals condOpNotEquals).
  - apply (Hg condOpNotEquals condOpEquals). cbn [value_holds]. split; [tauto|]. apply (stable (bool_decide (head vs = Some v))). apply bool_decide_eq_true.
  - by apply (Hg condOpIn condOpNotIn).
  - apply (Hg condOpNotIn condOpIn). cbn [value_holds]. split; [tauto|]. apply (stable (bool_decide (v ∈ vs))). apply bool_decide_eq_true.
  - by apply (Hg condOpPrefix condOpNotPrefix).
  - apply (Hg condOpNotPrefix condOpPrefix). cbn [value_holds]. split; [tauto|]. apply (any_stable (HasPrefix v)). intros. apply HasPrefix_spec.
  - by apply (Hg condOpSuffix condOpNotSuffix).
  - apply (Hg condOpNotSuffix condOpSuffix). cbn [value_holds]. split; [tauto|]. apply (any_stable (HasSuffix v)). intros. apply HasSuffix_spec.
  - destruct (Hip eq_refl) as [ip Eip]. apply (Hg condOpInCIDR condOpNotInCIDR). split.
    + intros (ip' & E & Hno) (ip'' & E' & Hyes). by simplify_eq.
    + intros Hno. exists ip. split; [done|]. intros Hyes. apply Hno. by exists ip.
  - destruct (Hip eq_refl) as [ip Eip]. apply (Hg condOpNotInCIDR condOpInCIDR). split.
    + intros (ip' & E & Hyes) (ip'' & E' & Hno). by simplify_eq.
    + intros Hno. exists ip. split; [done|]. apply cidr_stable. intros Hyes. apply Hno. by exists ip.
Qed.

(** ** Conversions without a dropped clause *)

(** Every clause became a condition. *)
Definition mapped_atom (a : text) : Prop := mapAtom lists eventType a <> Ok (None, None).

Lemma parse_parts_clean {A} (f : A -> run (option falcoNode * list reason)) l ns :
  parse_parts f l = Ok (ns, []) -> exists os, Forall2 (fun x o => f x = Ok (o, [])) l os /\ ns = omap id os.
Proof.
  revert ns. induction l as [|x l IH]; intros ns; simpl; [intros [= <-]; by exists []|].
  destruct (f x) as [[n r]| |] eqn:E; simpl; [|done..]. destruct (parse_parts f l) as [[ns' rs]| |] eqn:El; simpl; [|done..].
  intros [= <- Hr]. apply app_eq_nil in Hr as [-> ->]. destruct (IH ns' eq_refl) as (os & Hos & ->). exists (n :: os). split; [by constructor|]. by destruct n.
Qed.

Lemma omap_Forall2_Some {A} (P : A -> falcoNode -> Prop) l os :
  Forall2 (fun x o => exists n, o = Some n /\ P x n) l os -> Forall2 P l (omap id os).
Proof. induction 1 as [|x o l os (n & -> & HP) _ IH]; simpl; by constructor. Qed.

Definition singles (ns : list falcoNode) := omap (fun n => match n with Single c => Some c | Group _ => None end) ns.
Definition groups (ns : list falcoNode) := omap (fun n => match n with Single _ => None | Group g => Some g end) ns.

Lemma group_all e ns : foldr and (foldr and True (map (group_holds e) (map rule_group (groups ns)))) (map (cond_holds e) (map rule_condition (singles ns)))
  <-> foldr and True (map (node_holds e) ns).
Proof.
  induction ns as [|[c|g] ns IH]; simpl; [done|by rewrite IH|]. rewrite <- IH. clear IH. induction (singles ns) as [|c l IH]; simpl; [done|]. rewrite IH. tauto.
Qed.
Lemma group_any e ns : foldr or (foldr or False (map (group_holds e) (map rule_group (groups ns)))) (map (cond_holds e) (map rule_condition (singles ns)))
  <-> foldr or False (map (node_holds e) ns).
Proof.
  induction ns as [|[c|g] ns IH]; simpl; [done|by rewrite IH|]. rewrite <- IH. clear IH. induction (singles ns) as [|c l IH]; simpl; [done|]. rewrite IH. tauto.
Qed.

Lemma lower_word s : ascii_text (txt s) -> ToLower s = str (map lo (txt s)).
Proof. intros Ha. rewrite <- (Hlower _ Ha). by rewrite !str_txt. Qed.

Lemma merged_holds e ns (op : gostring) : (2 <= length ns)%nat -> op = "and"%string \/ op = "or"%string ->
  exists g, mergeFalcoNodes ns op = Some (Group g) /\
  (group_holds e (rule_group g) <-> if decide (op = "or"%string) then foldr or False (map (node_holds e) ns) else foldr and True (map (node_holds e) ns)).
Proof.
  intros Hl Hop. exists (mkFG op (singles ns) (groups ns)). split; [by destruct ns as [|n1 [|n2 ns]]; [simpl in Hl; lia..|]|].
  assert (~ (map rule_condition (singles ns) = [] /\ map rule_group (groups ns) = [])) as Hne.
  { destruct ns as [|[c|g] ns]; [simpl in Hl; lia|..]; unfold singles, groups; simpl; by intros [? ?]. }
  assert (ToLower op = op) as Hlo by (rewrite lower_word; [by destruct Hop as [->| ->]|destruct Hop as [->| ->]; by repeat constructor]).
  cbn [rule_group group_holds]. rewrite Hlo. destruct (decide (op = "or"%string)).
  - rewrite <- group_any. split; [intros [?|?]; [done|done]|by right].
  - rewrite <- group_all. split; [intros [?|?]; [done|done]|by right].
Qed.

(** Where a single condition comes from. *)
Definition from_atom (x : fexp) (c : FalcoCondition) : Prop :=
  exists a c0, a ∈ atoms x /\ mapAtom lists eventType a = Ok (Some c0, None) /\ fc_Field c = fc_Field c0 /\ is_cidr_op (fc_Op c) = is_cidr_op (fc_Op c0).

Lemma negate_same c c' : negateCondition c = Some c' -> fc_Field c' = fc_Field c /\ is_cidr_op (fc_Op c') = is_cidr_op (fc_Op c).
Proof.
  unfold negateCondition. destruct (assoc (fc_Op c) negatedOps) as [op|] eqn:Ea; [|done]. intros [= <-]. split; [done|]. simpl.
  apply assoc_elem in Ea. revert Ea. generalize (fc_Op c) as o. intros o Ea.
  assert (Forall (fun '(a, b) => is_cidr_op b = is_cidr_op a) negatedOps) as HF by (by vm_compute; repeat constructor).
  rewrite Forall_forall in HF. by apply (HF (o, op)).
Qed.

Lemma Forall2_length_ge {A B} (R : A -> B -> Prop) l k n : Forall2 R l k -> (n <= length l)%nat -> (n <= length k)%nat.
Proof. intros E. by rewrite (Forall2_length _ _ _ E). Qed.

Section meaning.
Context (e : Event).
Definition translated (x : fexp) (n : falcoNode) : Prop :=
  (node_holds e n <-> sem e x) /\ match n with Single c => from_atom x c | Group _ => True end.

(** The hypotheses on an expression, and what they give. *)
Definition clean_at (x : fexp) : Prop :=
  forall n, wf x -> Forall mapped_atom (atoms x) ->
  (forall a c, a ∈ negated x -> mapAtom lists eventType a = Ok (Some c, None) -> observed e c) ->
  compile x = Ok (n, []) -> exists n', n = Some n' /\ translated x n'.

Lemma negated_atoms x a : a ∈ negated x -> a ∈ atoms x.
Proof.
  revert a. induction x as [b|x IH|xs IH|xs IH] using fexp_ind'; intros a; simpl; [by intros ?%elem_of_nil|done|..].
  all: rewrite !elem_of_concat_map; intros (x & Hx & Ha); rewrite Forall_forall in IH; eauto.
Qed.

Lemma parts_translated xs ns :
  Forall clean_at xs -> Forall wf xs -> Forall mapped_atom (concat (map atoms xs)) ->
  (forall a c, a ∈ concat (map negated xs) -> mapAtom lists eventType a = Ok (Some c, None) -> observed e c) ->
  parse_parts compile xs = Ok (ns, []) -> Forall2 translated xs ns.
Proof.
  intros Hc Hw Hm Hobs Ep. rewrite Forall_forall in Hc. rewrite Forall_forall in Hw. rewrite Forall_forall in Hm.
  destruct (parse_parts_clean _ _ _ Ep) as (os & Hos & ->). apply omap_Forall2_Some. rewrite Forall2_lookup in Hos. rewrite Forall2_lookup.
  intros i. specialize (Hos i). destruct (xs !! i) as [x|] eqn:Ei; [|by inversion Hos; constructor].
  inversion Hos as [? o Eo|]; subst. constructor. apply list_elem_of_lookup_2 in Ei. apply (Hc x); auto.
  - apply Forall_forall. intros a Ha. apply Hm, elem_of_concat_map. eauto.
  - intros a c Ha. apply Hobs, elem_of_concat_map. eauto.
Qed.

Lemma compile_clean x : clean_at x.
Proof.
  induction x as [a|x IH|xs IH|xs IH] using fexp_ind'; intros n Hw Hm Hobs E; cbn [compile atoms negated] in *.
  - rewrite Forall_singleton in Hm. unfold mapped_atom in Hm. destruct (mapAtom lists eventType a) as [[[c|] [r|]]| |] eqn:Ea; simpl in E; try done.
    injection E as <-. exists (Single c). split; [done|]. split; [|exists a, c; split_and!; [by left|done..]]. simpl. unfold atom_holds. by rewrite Ea.
  - destruct (compile x) as [[m rs]| |] eqn:Ex; simpl in E; try done. unfold negate_node in E.
    assert (rs = []) as ->.
    { destruct m as [[c|g]|]; [|simplify_eq/=; by destruct rs|by injection E]. destruct (negateCondition c); simplify_eq/=; [done|by destruct rs]. }
    destruct (IH m Hw Hm) as (n' & -> & Hsem & Hfrom); [|done|]; [intros a c Ha; by apply Hobs, negated_atoms|].
    destruct n' as [c|g]; [|done]. destruct (negateCondition c) as [c'|] eqn:Ec; [|by simplify_eq/=]. injection E as <-.
    exists (Single c'). split; [done|]. destruct (negate_same c c' Ec) as [Ef Eo]. destruct Hfrom as (a & c0 & Ha & Em & F1 & F2). split.
    + simpl in *. rewrite (negate_holds e c c' Ec); [by rewrite Hsem|]. unfold observed. rewrite F1, F2. by apply (Hobs a c0).
    + exists a, c0. split_and!; [done|done|congruence|congruence].
  - destruct Hw as [Hl Hw]. rewrite foldr_and_Forall in Hw. destruct (parse_parts compile xs) as [[ns rs]| |] eqn:Ep; simpl in E; try done.
    unfold combine in E. simpl in E. injection E as <- ->. pose proof (parts_translated xs ns IH Hw Hm Hobs Ep) as Ht.
    destruct (merged_holds e ns "and") as (g & -> & Hg); [by eapply Forall2_length_ge|by left|].
    exists (Group g). split; [done|]. split; [|done]. simpl. rewrite Hg. simpl. clear -Ht.
    induction Ht as [|x n xs ns [Hx _] _ IH]; simpl; [done|]. by rewrite Hx, IH.
  - destruct Hw as [Hl Hw]. rewrite foldr_and_Forall in Hw. destruct (parse_parts compile xs) as [[ns rs]| |] eqn:Ep; simpl in E; try done.
    unfold combine in E. simpl in E. injection E as <- ->. pose proof (parts_translated xs ns IH Hw Hm Hobs Ep) as Ht.
    destruct (merged_holds e ns "or") as (g & -> & Hg); [by eapply Forall2_length_ge|by right|].
    exists (Group g). split; [done|]. split; [|done]. simpl. rewrite Hg. simpl. clear -Ht.
    induction Ht as [|x n xs ns [Hx _] _ IH]; simpl; [done|]. by rewrite Hx, IH.
Qed.
End meaning.
End translation.

(** ** The importer returns *)

(** *** Trimming *)
Lemma skip_any_drop fuel spaces s : exists n, skip_any fuel spaces s = drop n s.
Proof.
  revert s. induction fuel as [|fuel IH]; intros s; simpl; [by exists 0%nat|]. destruct (list_find _ spaces) as [[i p]|]; [|by exists 0%nat].
  destruct (IH (drop (length p) s)) as [n ->]. rewrite drop_drop. eauto.
Qed.

Lemma TrimSpace_part s : exists n m, TrimSpace s = take m (drop n s).
Proof.
  unfold TrimSpace, trim_space_left, trim_space_right. destruct (skip_any_drop (length s) unicode_spaces s) as [n ->].
  destruct (skip_any_drop (length (drop n s)) (map (@rev ascii) unicode_spaces) (rev (drop n s))) as [m ->].
  exists n, (length (drop n s) - m)%nat. by rewrite <- rev_involutive, <- (rev_involutive (drop n s)) at 1; rewrite skipn_rev, !rev_involutive.
Qed.

(** A part of a text: no longer, and ASCII when the text is. *)
Definition part_of (p s : text) : Prop := (length p <= length s)%nat /\ (ascii_text s -> ascii_text p).

Lemma part_TrimSpace s : part_of (TrimSpace s) s.
Proof.
  destruct (TrimSpace_part s) as (n & m & ->). split; [rewrite length_take, length_drop; lia|]. intros Ha. by apply Forall_take, Forall_drop.
Qed.

Lemma part_drop n s : part_of (TrimSpace (drop n s)) (drop n s).
Proof. apply part_TrimSpace. Qed.

(** *** Splitting *)
Lemma split_total kw skip prev q d cur s :
  ascii_text cur -> ascii_text s ->
  exists parts, split_loop kw skip prev q d cur s (map lo s) = Ok parts /\ Forall ascii_text parts /\
    Forall (fun p => length p <= length cur + length s)%nat parts /\
    ((1 < length parts)%nat -> Forall (fun p => length p < length cur + length s)%nat parts).
Proof.
  revert skip prev q d cur. induction s as [|c s IH]; intros skip prev q d cur Hcur Hs.
  - exists [TrimSpace cur]. destruct (part_TrimSpace cur) as [Hl Ha]. split; [done|]. simpl. rewrite !Forall_singleton. split; [auto|]. split; [lia|lia].
  - inversion Hs as [|? ? Hc Hs']; subst.
    assert (ascii_text (cur ++ [c])) as Hcur' by (apply ascii_app; split; [done|by repeat constructor]).
    assert (forall skip prev q d, exists parts, split_loop kw skip prev q d (cur ++ [c]) s (map lo s) = Ok parts /\ Forall ascii_text parts /\
      Forall (fun p => length p <= length cur + length (c :: s))%nat parts /\
      ((1 < length parts)%nat -> Forall (fun p => length p < length cur + length (c :: s))%nat parts)) as Hgo.
    { intros sk pr qq dd. destruct (IH sk pr qq dd (cur ++ [c]) Hcur' Hs') as (parts & E & A & B & C). exists parts. split; [done|]. split; [done|].
      rewrite length_app in B, C. simpl in *. split; [eapply Forall_impl; [exact B|]; simpl; lia|]. intros Hl. eapply Forall_impl; [exact (C Hl)|]. simpl. lia. }
    cbn [split_loop map tail]. destruct skip as [|skip].
    2: { destruct (IH skip (Some c) q d cur Hcur Hs') as (parts & E & A & B & C). exists parts. split; [done|]. split; [done|].
         split; [eapply Forall_impl; [exact B|]; simpl; lia|]. intros Hl. eapply Forall_impl; [exact (C Hl)|]. simpl. lia. }
    destruct q as [q|]; [apply Hgo|]. destruct (is_quote c); [apply Hgo|]. destruct (decide (c = "("%char)); [apply Hgo|].
    destruct (decide (c = ")"%char)); [apply Hgo|]. destruct ((d =? 0) && text_prefix kw (lo c :: map lo s)) eqn:E; [|apply Hgo].
    apply andb_true_iff in E as [_ E]. apply text_prefix_length in E. cbn [length] in E. rewrite length_map in E.
    replace (Nat.ltb (length (c :: s)) (length kw)) with false by (symmetry; apply Nat.ltb_ge; cbn; lia).
    destruct (prev_ok prev && _); [|apply Hgo].
    destruct (IH (length kw - 1)%nat (Some c) None d [] ltac:(constructor) Hs') as (parts & -> & A & B & C). exists (TrimSpace cur :: parts).
    destruct (part_TrimSpace cur) as [Hl Ha]. split; [done|]. split; [constructor; auto|]. simpl in B.
    assert (Forall (fun p => length p < length cur + length (c :: s))%nat (TrimSpace cur :: parts)) as Hall.
    { constructor; [simpl; lia|]. eapply Forall_impl; [exact B|]. simpl. lia. }
    split; [eapply Forall_impl; [exact Hall|]; simpl; lia|done].
Qed.

(** *** Lists *)
Definition unseen (lists : list_blocks) (seen : list text) : nat := size (dom lists ∖ list_to_set seen).

Lemma unseen_mono lists seen seen' : seen ⊆ seen' -> (unseen lists seen' <= unseen lists seen)%nat.
Proof. intros Hs. apply subseteq_size. intros x. rewrite !elem_of_difference, !elem_of_list_to_set. intros [? Hn]. split; [done|]. intros Hx. by apply Hn, Hs. Qed.

Lemma unseen_cons lists seen t : is_Some (lists !! t) -> t ∉ seen -> (unseen lists (t :: seen) < unseen lists seen)%nat.
Proof.
  intros Ht Hn. apply subset_size. split.
  - intros x. rewrite !elem_of_difference, !elem_of_list_to_set, not_elem_of_cons. tauto.
  - intros Hsub. specialize (Hsub t). rewrite !elem_of_difference, !elem_of_list_to_set, elem_of_dom in Hsub. destruct (Hsub (conj Ht Hn)) as [_ Hx].
    apply Hx. by left.
Qed.

Lemma resolve_tokens_cons fuel lists t tokens seen :
  resolve_tokens fuel lists (t :: tokens) seen =
  match lists t, has seen t with
  | Some items, false =>
      match fuel with
      | O => Panic
      | S fuel' => '(inner, seen) ← resolve_tokens fuel' lists items (t :: seen); '(rest, seen) ← resolve_tokens fuel lists tokens seen; Ok (inner ++ rest, seen)
      end
  | _, _ => '(rest, seen) ← resolve_tokens fuel lists tokens seen; Ok (t :: rest, seen)
  end.
Proof. by destruct fuel. Qed.

Lemma resolve_total lists fuel tokens seen :
  (unseen lists seen <= fuel)%nat -> exists out seen', resolve_tokens fuel (fun t => lists !! t) tokens seen = Ok (out, seen') /\ seen ⊆ seen'.
Proof.
  revert tokens seen. induction fuel as [fuel IHf] using lt_wf_ind. intros tokens. induction tokens as [|t tokens IH]; intros seen Hf.
  - exists [], seen. by destruct fuel.
  - assert (exists out seen', ('(rest, seen) ← resolve_tokens fuel (fun t => lists !! t) tokens seen; Ok (t :: rest, seen)) = Ok (E:=Empty_set) (out, seen') /\ seen ⊆ seen') as Hkeep.
    { destruct (IH seen Hf) as (out & seen' & -> & Hs). by exists (t :: out), seen'. }
    destruct (lists !! t) as [items|] eqn:El, (has seen t) eqn:Eh;
      try (rewrite resolve_tokens_cons, El, ?Eh; exact Hkeep).
    unfold has in Eh. apply bool_decide_eq_false in Eh. assert (is_Some (lists !! t)) as Hsome by (by rewrite El).
    pose proof (unseen_cons lists seen t Hsome Eh) as Hlt. destruct fuel as [|fuel]; [lia|].
    destruct (IHf fuel ltac:(lia) items (t :: seen) ltac:(lia)) as (inner & seen1 & E1 & H1).
    assert (seen ⊆ seen1) as H1' by (intros x Hx; apply H1; by right).
    destruct (IH seen1) as (rest & seen2 & E2 & H2); [pose proof (unseen_mono lists _ _ H1'); lia|].
    exists (inner ++ rest), seen2. split; [|by etrans]. rewrite resolve_tokens_cons, El. unfold has. rewrite bool_decide_false by done.
    rewrite E1. cbn [mbind result_bind]. by rewrite E2.
Qed.

Lemma resolveListTokens_total lists tokens : exists out, resolveListTokens lists tokens = Ok out.
Proof.
  unfold resolveListTokens. destruct (resolve_total lists (size lists) tokens []) as (out & seen & -> & _); [|by exists out].
  unfold unseen. rewrite <- size_dom. apply subseteq_size. intros x. rewrite elem_of_difference. by intros [? _].
Qed.

Lemma mapAtom_total lists et a : exists m, mapAtom lists et a = Ok m.
Proof.
  assert (forall atom field, exists m, buildCondition lists atom field = Ok m) as Hb.
  { intros atom field. unfold buildCondition, list_condition. destruct (resolveListTokens_total lists (extractInList atom)) as [out ->]. repeat case_match; simpl; eauto. }
  assert (forall atom field l, exists m, mapSimpleField lists et atom field l = Ok m) as Hs by (intros; unfold mapSimpleField; case_match; eauto).
  unfold mapAtom. repeat case_match; eauto.
Qed.

Section total.
Context `{GoLib}.
Hypothesis Hlower : lowers_ascii.

(** Both recursions go through the same smaller expressions. *)
Lemma split_kw_total s (kw : gostring) : ascii_text s ->
  exists parts, splitTopLevelKeyword s kw = Ok parts /\ ((1 < length parts)%nat -> Forall (fun p => ascii_text p /\ (length p < length s)%nat) parts).
Proof.
  intros Ha. unfold splitTopLevelKeyword. rewrite Hlower by done.
  destruct (split_total (txt kw) 0 None None 0 [] s ltac:(constructor) Ha) as (parts & -> & A & _ & C). exists parts. split; [done|].
  intros Hl. apply Forall_and. split; [done|exact (C Hl)].
Qed.

Lemma strip_not_smaller s r : ascii_text s -> stripNotPrefix s = Some r -> ascii_text r /\ (length r < length s)%nat.
Proof.
  unfold stripNotPrefix. intros Ha. destruct (Nat.ltb (length s) 3) eqn:E; [done|]. apply Nat.ltb_ge in E. repeat case_match; try done. intros [= <-].
  destruct (part_TrimSpace (drop 3 s)) as [Hl Hp]. rewrite length_drop in Hl. split; [apply Hp; by apply Forall_drop|lia].
Qed.

Lemma strip_parens_smaller s r : ascii_text s -> stripOuterParens s = Some r -> ascii_text r /\ (length r < length s)%nat.
Proof.
  unfold stripOuterParens. intros Ha. destruct (Nat.ltb (length s) 2) eqn:E; [done|]. apply Nat.ltb_ge in E. repeat case_match; try done. intros [= <-].
  destruct s as [|c s]; [simpl in E; lia|]. cbn [tail]. inversion Ha; subst. destruct (part_TrimSpace (removelast s)) as [Hl Hp].
  assert (exists x, s = removelast s ++ [x]) as [x Ex] by (destruct s as [|d s]; [simpl in E; lia|]; exists (List.last (d :: s) d); by apply app_removelast_last).
  assert (length s = S (length (removelast s))) as El by (rewrite Ex at 1; rewrite length_app; simpl; lia).
  split; [apply Hp|simpl; lia]. assert (ascii_text s) as Has by done. rewrite Ex in Has. by apply ascii_app in Has as [? _].
Qed.

Lemma TrimSpace_smaller s : ascii_text s -> ascii_text (TrimSpace s) /\ (length (TrimSpace s) <= length s)%nat.
Proof. intros Ha. destruct (part_TrimSpace s). auto. Qed.

Lemma flatten_total fuel s : ascii_text s -> (length s < fuel)%nat -> exists l, flattenLeaves fuel s = Ok l.
Proof.
  revert s. induction fuel as [|fuel IH]; intros s Ha Hf; [lia|]. cbn [flattenLeaves].
  destruct (TrimSpace_smaller s Ha) as [Ha' Hl]. set (t := TrimSpace s) in *. destruct (decide (t = [])); [eauto|].
  set (all := fix all parts := match parts with [] => Ok [] | p :: parts => l ← flattenLeaves fuel p; r ← all parts; Ok (l ++ r) end).
  assert (forall parts, Forall (fun p => ascii_text p /\ (length p < length t)%nat) parts -> exists l, all parts = Ok l) as Hall.
  { induction 1 as [|p parts [Hp Hlt] _ [r IHp]]; simpl; [eauto|]. destruct (IH p Hp ltac:(lia)) as [l ->]. simpl. rewrite IHp. simpl. eauto. }
  destruct (split_kw_total t "or" Ha') as (parts & -> & Hparts). cbn [mbind result_bind].
  destruct (Nat.ltb 1 (length parts)) eqn:E1; [apply Hall, Hparts; by apply Nat.ltb_lt|].
  destruct (split_kw_total t "and" Ha') as (parts' & -> & Hparts'). cbn [mbind result_bind].
  destruct (Nat.ltb 1 (length parts')) eqn:E2; [apply Hall, Hparts'; by apply Nat.ltb_lt|].
  destruct (stripNotPrefix t) eqn:En; [destruct (strip_not_smaller _ _ Ha' En); apply IH; [done|lia]|].
  destruct (stripOuterParens t) eqn:Ep; [destruct (strip_parens_smaller _ _ Ha' Ep); apply IH; [done|lia]|eauto].
Qed.

Lemma parts_total {A} (f : A -> run (option falcoNode * list reason)) l : Forall (fun x => exists r, f x = Ok r) l -> exists r, parse_parts f l = Ok r.
Proof. induction 1 as [|x l [[n r] E] _ [[ns rs] IH]]; simpl; [eauto|]. rewrite E. simpl. rewrite IH. simpl. eauto. Qed.

Lemma parse_total lists et fuel s : ascii_text s -> (length s < fuel)%nat -> exists r, parseExpr lists et fuel s = Ok r.
Proof.
  revert s. induction fuel as [|fuel IH]; intros s Ha Hf; [lia|]. cbn [parseExpr].
  destruct (TrimSpace_smaller s Ha) as [Ha' Hl]. set (t := TrimSpace s) in *. destruct (decide (t = [])); [eauto|].
  assert (forall op parts, Forall (fun p => ascii_text p /\ (length p < length t)%nat) parts ->
    exists r, (res ← parse_parts (parseExpr lists et fuel) parts; Ok (E:=Empty_set) (combine op res)) = Ok r) as Hall.
  { intros op parts Hp. destruct (parts_total (parseExpr lists et fuel) parts) as [r ->]; [|simpl; eauto].
    eapply Forall_impl; [exact Hp|]. intros p [Hpa Hlt]. apply IH; [done|lia]. }
  destruct (split_kw_total t "or" Ha') as (parts & -> & Hparts). cbn [mbind result_bind].
  destruct (Nat.ltb 1 (length parts)) eqn:E1; [apply Hall, Hparts; by apply Nat.ltb_lt|].
  destruct (split_kw_total t "and" Ha') as (parts' & -> & Hparts'). cbn [mbind result_bind].
  destruct (Nat.ltb 1 (length parts')) eqn:E2; [apply Hall, Hparts'; by apply Nat.ltb_lt|].
  destruct (stripNotPrefix t) as [r|] eqn:En.
  { destruct (strip_not_smaller _ _ Ha' En). destruct (IH r) as [[nd rs] ->]; [done|lia|]. simpl. eauto. }
  destruct (stripOuterParens t) eqn:Ep; [destruct (strip_parens_smaller _ _ Ha' Ep); apply IH; [done|lia]|].
  destruct (mapAtom_total lists et t) as [m ->]. simpl. eauto.
Qed.

(** *** Macros keep a text ASCII *)
Lemma substitute_ascii word r skip prev q s : ascii_text r -> ascii_text s -> ascii_text (substitute_loop word r skip prev q s).1.
Proof.
  intros Hr Hs. revert skip prev q. induction Hs as [|c s Hc Hs IH]; intros skip prev q; [constructor|]. cbn [substitute_loop].
  assert (forall skip q, ascii_text (let '(out, changed) := substitute_loop word r skip (Some c) q s in (c :: out, changed)).1) as Hk.
  { intros sk qq. specialize (IH sk (Some c) qq). destruct (substitute_loop word r sk (Some c) qq s). by constructor. }
  destruct skip as [|skip]; [|apply IH]. destruct q as [q|]; [apply Hk|]. destruct (is_quote c); [apply Hk|]. case_match; [|apply Hk].
  specialize (IH (length word - 1)%nat (Some c) None). destruct (substitute_loop _ _ _ _ None s). by apply ascii_app.
Qed.

Lemma expand_ascii (order : macro_order) macros cond :
  (forall i nb, nb ∈ order i macros -> ascii_text nb.2) -> ascii_text cond -> ascii_text (expandMacros order macros cond).
Proof.
  intros Hm Hc. unfold expandMacros. case_decide; [done|].
  assert (forall n i cond, ascii_text cond -> ascii_text (expand_loop (fun i => order i macros) n i cond)) as Hg; [|by apply Hg]. clear cond Hc.
  induction n as [|n IH]; intros i cond Hc; cbn [expand_loop]; [done|]. destruct (Nat.ltb _ _); [done|].
  assert (ascii_text (macro_pass (order i macros) cond).1) as Hp.
  { unfold macro_pass. specialize (Hm i).
    assert (forall l acc, (forall nb, nb ∈ l -> ascii_text nb.2) -> ascii_text acc.1 -> ascii_text (foldl macro_step acc l).1) as Hl; [|by apply Hl].
    induction l as [|[name body] l IHl]; intros [c b] Hlm Hacc; [done|]. cbn [foldl macro_step fst snd] in *.
    pose proof (substitute_ascii name (["("%char] ++ body ++ [")"%char]) 0 None None c) as Hs. unfold substituteWord.
    destruct (substitute_loop name _ 0 None None c) as [c' changed]. assert (ascii_text c') as Hc'.
    { apply Hs; [|done]. apply ascii_app. split; [by repeat constructor|]. apply ascii_app. split; [apply (Hlm (name, body)); by left|by repeat constructor]. }
    destruct changed; apply IHl; try done; intros nb Hnb; apply Hlm; by right. }
  destruct (macro_pass _ _) as [cond' changed]. destruct changed; [by apply IH|done].
Qed.

End total.

(** ** Converted rules load *)
Section loads.
Context `{GoLib} (lists : list_blocks).

Definition type_nr (eventType : gostring) : Z := default 0 (assoc eventType eventTypeNames).
Definition cond_good (eventType : gostring) (c : FalcoCondition) : Prop :=
  validateFieldName (fc_Field c) (type_nr eventType) = None /\
  (fc_Op c ∈ plain_operators \/ is_cidr_op (fc_Op c) = true /\ fc_Field c ∈ validCIDRFields /\ fc_Values c <> []).

(** What the mapping of an atom to a given field yields. *)
Definition plain_on (field : gostring) (m : mapped) : Prop := forall c, m.1 = Some c -> fc_Field c = field /\ fc_Op c ∈ plain_operators.

Lemma plain_drop field r : plain_on field (drop_with r).
Proof. done. Qed.
Lemma plain_cond field op vs : op ∈ plain_operators -> plain_on field (cond_of field op vs).
Proof. by intros Hop c [= <-]. Qed.
Lemma plain_one field op atom v : op ∈ plain_operators -> plain_on field (one_value field op atom v).
Proof. intros Hop. unfold one_value. case_decide; [apply plain_drop|by apply plain_cond]. Qed.

Ltac is_plain := apply (bool_decide_unpack (_ ∈ plain_operators)); vm_compute; reflexivity.
#[local] Hint Extern 2 (_ ∈ plain_operators) => is_plain : core.
#[local] Hint Resolve plain_drop plain_cond plain_one : core.

Lemma build_plain atom field m : buildCondition lists atom field = Ok m -> plain_on field m.
Proof.
  unfold buildCondition, list_condition, buildComparison, mapGlob. destruct (resolveListTokens lists (extractInList atom)); simpl;
    repeat case_match; intros E; simplify_eq/=; auto.
Qed.

Lemma simple_plain et atom field types m : mapSimpleField lists et atom field types = Ok m -> m.1 <> None -> et ∈ types /\ plain_on field m.
Proof.
  unfold mapSimpleField. case_bool_decide; intros E Hn; [|by simplify_eq/=]. split; [done|by eapply build_plain].
Qed.

Lemma ip_good et atom field c : field ∈ ["saddr"; "daddr"]%string -> (mapIPField et atom field).1 = Some c -> cond_good et c.
Proof.
  intros Hf. unfold mapIPField, one_value, cond_of. case_bool_decide as Et; simpl; [subst et|done].
  assert (validateFieldName field (type_nr "network") = None /\ field ∈ validCIDRFields) as [Hv Hc].
  { rewrite !elem_of_cons in Hf. destruct Hf as [->|[->|Hf]]; [split; [done|by apply (bool_decide_unpack _); vm_compute]..|by apply elem_of_nil in Hf]. }
  repeat (case_match; simpl); intros [= <-]; (split; [exact Hv|]); simpl; first [left; is_plain | right; split_and!; [done|done|]].
  all: try (intros E; apply map_eq_nil in E; done). all: done.
Qed.

Lemma evt_good et atom c : et ∈ proc_types -> (mapEvtType et atom).1 = Some c -> cond_good et c.
Proof.
  intros Het. unfold mapEvtType, cond_of, eq_or_in. destruct (contains atom "!="); [done|]. case_decide; [done|].
  case_bool_decide as E1; [subst et|case_bool_decide as E2; [subst et|]].
  - repeat case_match; intros [= <-]; (split; [done|]); left; is_plain.
  - repeat case_match; done.
  - assert (et = "syscall"%string) as ->.
    { unfold proc_types in Het. rewrite !elem_of_cons in Het. destruct Het as [->|[->|[->|Het]]]; [done..|by apply elem_of_nil in Het]. }
    repeat case_match; intros [= <-]; (split; [done|]); left; is_plain.
Qed.

Lemma mapAtom_good et a c r : et ∈ proc_types -> mapAtom lists et a = Ok (Some c, r) -> cond_good et c.
Proof.
  intros Het. unfold mapAtom.
  assert (forall types field m, mapSimpleField lists et (TrimSpace a) field types = Ok m -> m = (Some c, r) ->
    Forall (fun t => validateFieldName field (type_nr t) = None) types -> cond_good et c) as Hs.
  { intros types field m E -> Hv. apply simple_plain in E as [Hin Hp]; [|done]. destruct (Hp c eq_refl) as [Ef Eo]. rewrite Forall_forall in Hv.
    split; [by rewrite Ef; apply Hv|by left]. }
  assert (forall m, Ok m = Ok (E:=Empty_set) (Some c, r) -> m.1 = Some c) as Hok by (by intros m [= ->]).
  repeat case_match; intros E; try done;
    first [ by apply Hok in E; eapply evt_good | by apply Hok in E; eapply ip_good; [|exact E]; apply (bool_decide_unpack _); vm_compute
          | eapply Hs; [exact E|reflexivity|]; by repeat constructor | idtac ].
  apply build_plain in E. destruct (E c eq_refl) as [Ef Eo]. split; [|by left]. rewrite Ef.
  match goal with H : _ && _ = false |- _ => rewrite andb_false_iff in H; destruct H as [Hx|Hx] end; apply negb_false_iff, bool_decide_eq_true in Hx; by subst et.
Qed.

Fixpoint group_conds (g : FalcoConditionGroup) : list FalcoCondition :=
  match g with mkFG _ cs gs => cs ++ concat (map group_conds gs) end.
Definition node_conds (n : falcoNode) : list FalcoCondition := match n with Single c => [c] | Group g => group_conds g end.

Lemma negate_good et c c' : cond_good et c -> negateCondition c = Some c' -> cond_good et c'.
Proof.
  intros [Hf Hop] Hn. pose proof (negate_same c c' Hn) as [Ef Eo]. unfold negateCondition in Hn.
  destruct (assoc (fc_Op c) negatedOps) as [op|] eqn:Ea; [|done]. apply assoc_elem in Ea. injection Hn as <-. cbn [fc_Field fc_Op fc_Values] in *.
  split; [done|]. cbn [fc_Field fc_Op fc_Values]. destruct Hop as [Hop|Hop]; [left|right; by rewrite Eo].
  assert (Forall (fun '(a, b) => a ∈ plain_operators -> b ∈ plain_operators) negatedOps) as HF.
  { unfold negatedOps. repeat (apply Forall_cons_2; [first [intros _; is_plain | intros Hx; exfalso; revert Hx; apply (bool_decide_unpack (_ ∉ plain_operators)); vm_compute; reflexivity]|]). apply Forall_nil_2. }
  rewrite Forall_forall in HF. by apply (HF (fc_Op c, op)).
Qed.

Lemma merge_good (P : FalcoCondition -> Prop) ns op n :
  mergeFalcoNodes ns op = Some n -> Forall (fun m => Forall P (node_conds m)) ns -> Forall P (node_conds n).
Proof.
  intros Hm Hns. assert (Forall P (singles ns) /\ Forall P (concat (map group_conds (groups ns)))) as [H1 H2].
  { clear Hm. induction Hns as [|[c|g] l Hc _ [I1 I2]]; simpl; [split; constructor|split; [|done]|split; [done|]].
    - constructor; [by inversion Hc|done].
    - apply Forall_app. by split. }
  destruct ns as [|n1 [|n2 ns]]; [done|injection Hm as <-; by inversion Hns|]. injection Hm as <-. apply Forall_app. split; [exact H1|exact H2].
Qed.

(** A property of nodes that atoms have and that negation and merging keep. *)
Lemma parts_nodes (P : falcoNode -> Prop) {A} (f : A -> run (option falcoNode * list reason)) l ns rs :
  (forall x n r, x ∈ l -> f x = Ok (Some n, r) -> P n) -> parse_parts f l = Ok (ns, rs) -> Forall P ns.
Proof.
  intros Hf. revert ns rs. induction l as [|x l IH]; intros ns rs; simpl; [by intros [= <- <-]; constructor|].
  destruct (f x) as [[n r]| |] eqn:E; simpl; [|done..]. destruct (parse_parts f l) as [[ns' rs']| |] eqn:El; simpl; [|done..]. intros [= <- <-].
  assert (Forall P ns') as Hrest by (eapply IH; [intros y m k Hy; apply Hf; by right|done]).
  destruct n as [n|]; [|done]. constructor; [|done]. eapply Hf; [by left|exact E].
Qed.

Lemma parse_nodes (P : falcoNode -> Prop) et fuel s n rs :
  (forall a c r, mapAtom lists et a = Ok (Some c, r) -> P (Single c)) -> (forall c c', P (Single c) -> negateCondition c = Some c' -> P (Single c')) ->
  (forall ns op m, mergeFalcoNodes ns op = Some m -> Forall P ns -> P m) ->
  parseExpr lists et fuel s = Ok (Some n, rs) -> P n.
Proof.
  intros Hatom Hneg Hmerge. revert s n rs. induction fuel as [|fuel IH]; intros s n rs; [done|]. cbn [parseExpr]. case_decide; [done|].
  assert (forall op parts, (res ← parse_parts (parseExpr lists et fuel) parts; Ok (combine op res)) = Ok (E:=Empty_set) (Some n, rs) -> P n) as Hall.
  { intros op parts E. destruct (parse_parts _ parts) as [[ns rs']| |] eqn:Ep; [|done..]. cbn in E. injection E as Em <-.
    eapply Hmerge; [exact Em|]. eapply parts_nodes; [|exact Ep]. intros x m r _. apply IH. }
  destruct (splitTopLevelKeyword _ "or") as [parts| |]; cbn [mbind result_bind]; [|done..].
  destruct (Nat.ltb 1 (length parts)); [apply Hall|].
  destruct (splitTopLevelKeyword _ "and") as [parts'| |]; cbn [mbind result_bind]; [|done..].
  destruct (Nat.ltb 1 (length parts')); [apply Hall|]. destruct (stripNotPrefix _) as [r|].
  - destruct (parseExpr lists et fuel r) as [[m rs']| |] eqn:Er; cbn [mbind result_bind]; [|done..]. unfold negate_node.
    destruct m as [[c|g]|]; [|done..]. destruct (negateCondition c) as [c'|] eqn:Ec; [|done]. intros [= <- <-]. apply IH in Er. by eapply Hneg.
  - destruct (stripOuterParens _) as [r|]; [apply IH|]. destruct (mapAtom lists et _) as [[[c|] r]| |] eqn:Ea; cbn; [|done..]. intros [= <- <-]. by eapply Hatom.
Qed.

Lemma parse_good et fuel s n rs : et ∈ proc_types -> parseExpr lists et fuel s = Ok (Some n, rs) -> Forall (cond_good et) (node_conds n).
Proof.
  intros Het. apply (parse_nodes (fun n => Forall (cond_good et) (node_conds n))).
  - intros a c r Ea. constructor; [|constructor]. by eapply mapAtom_good.
  - intros c c' Hc Ec. constructor; [|constructor]. inversion Hc; subst. by eapply negate_good.
  - intros ns op m. apply merge_good.
Qed.

(** A group has members. *)
Definition inhabited_node (n : falcoNode) : Prop := match n with Single _ => True | Group (mkFG _ cs gs) => cs <> [] \/ gs <> [] end.

Lemma parse_inhabited et fuel s n rs : parseExpr lists et fuel s = Ok (Some n, rs) -> inhabited_node n.
Proof.
  apply parse_nodes; [done|done|]. intros ns op m Hm Hns. destruct ns as [|n1 [|n2 ns]]; [done|injection Hm as <-; by inversion Hns|]. injection Hm as <-.
  destruct n1; [left|right]; done.
Qed.

Lemma event_type_proc leaves : event_type_of leaves ∈ proc_types.
Proof.
  unfold event_type_of, proc_types. rewrite !elem_of_cons. repeat (case_match; auto).
Qed.

Lemma validate_good et c : cond_good et c ->
  validateCondition (type_nr et) (rule_condition c) = None \/ exists v, validateCondition (type_nr et) (rule_condition c) = Some (CIDRInvalid (fc_Field c) v).
Proof.
  intros [Hf Hop]. unfold validateCondition. simpl. rewrite Hf. destruct Hop as [Hop|(Hop & Hfield & Hv)].
  - left. assert (Forall (fun o => bool_decide (o = "regex"%string) = false /\ is_cidr_op o = false) plain_operators) as HF by (repeat constructor).
    rewrite Forall_forall in HF. destruct (HF _ Hop) as [H1 H2]. unfold is_cidr_op in H2. rewrite H1, H2, bool_decide_true by done. done.
  - assert (bool_decide (fc_Op c = "regex"%string) = false) as ->.
    { apply bool_decide_false. intros E. rewrite E in Hop. by vm_compute in Hop. }
    unfold is_cidr_op in Hop. rewrite Hop. unfold validateCIDRPatterns. destruct (fc_Values c) as [|v vs]; [done|].
    destruct (first_error _ (v :: vs)) as [err|] eqn:Efe; [|left; by rewrite bool_decide_true].
    right. assert (forall l err, first_error (fun c0 => match ParseCIDR c0 with Some _ => None | None => Some (CIDRInvalid (fc_Field c) c0) end) l = Some err ->
      exists v, err = CIDRInvalid (fc_Field c) v) as Hx.
    { clear. induction l as [|x l IH]; intros err; [done|]. simpl. destruct (ParseCIDR x); [apply IH|]. intros [= <-]. eauto. }
    destruct (Hx _ _ Efe) as [w ->]. eauto.
Qed.
End loads.

(** ** Checking atoms *)
Definition atom_check (a : text) : bool :=
  forallb (fun c => (N_of_ascii c <? 128)%N) a && match head a, last a with Some c, Some d => bool_decide (solid c) && bool_decide (solid d) | _, _ => false end &&
  nonneg None 0 a && bool_decide (st None 0 a = (None, 0)) && plain (txt "or") None None 0 a && plain (txt "and") None None 0 a &&
  bool_decide (stripNotPrefix a = None) && bool_decide (stripOuterParens a = None).

Lemma atom_check_ok a : atom_check a = true -> atom_ok a.
Proof.
  unfold atom_check. intros Hc. repeat (apply andb_true_iff in Hc as [Hc ?]).
  repeat match goal with H : bool_decide _ = true |- _ => apply bool_decide_eq_true in H end. split; [| |split|..]; try done.
  - rewrite forallb_forall in Hc. apply Forall_forall. intros c Hin. rewrite list_elem_of_In in Hin. specialize (Hc c Hin). by apply N.ltb_lt.
  - destruct (head a) as [c|] eqn:Eh, (last a) as [d|] eqn:El; try done. match goal with H : _ && _ = true |- _ => apply andb_true_iff in H as [Hs1 Hs2] end.
    apply bool_decide_eq_true in Hs1, Hs2. split.
    + destruct a as [|c' a]; [done|]. injection Eh as <-. by exists c', a.
    + apply last_Some in El as [l ->]. by exists d, l.
Qed.

Section importer.
Context `{GoLib}.
Hypothesis Hlower : lowers_ascii.

Lemma parse_atom lists et a : atom_ok a -> parse_expression lists et a = (m ← mapAtom lists et a; Ok (atom_node m)).
Proof. intros Ha. exact (parse_print lists et Hlower (FAtom a) Ha 0 (S (length a)) ltac:(simpl; lia)). Qed.

Lemma converted_holds e (c : option FalcoCondition) g id name desc et sev act tags n :
  match n with Single c0 => c = Some c0 /\ g = None | Group g0 => c = None /\ g = Some g0 end ->
  rule_holds e (converted_rule (mkConverted id name desc et c g sev act tags)) <-> node_holds e n.
Proof. intros Hn. unfold rule_holds. destruct n; destruct Hn as [-> ->]; simpl; (split; [by intros [? _]|by intros ?; split; [|constructor]]). Qed.


(** The validation of a rule of the importer's shape is that of its conditions. *)
Lemma validate_shape (r : Rule) :
  float_gt float_0 float_0 = false -> float_eq float_0 float_0 = true -> float_lt float_1 float_0 = false -> float_gt float_1 float_1 = false ->
  r_ID r <> ""%string -> r_Name r <> ""%string -> r_EventType r <> 0 -> r_Action r = "alert"%string -> r_Severity r <> ""%string ->
  r_Class r = ""%string -> empty_group (r_ConditionGroup r) = false -> r_Sampling r = None -> r_SampleRate r = float_0 -> r_Exceptions r = [] ->
  (validateRule r).2 = BadCondition <$> first_error (validateCondition (r_EventType r)) (rule_getAllConditions r).
Proof.
  intros F1 F2 F3 F4 N1 N2 N3 Ea N4 Ec Eg Es Er Ex. destruct r; simpl in *; subst. unfold validateRule. simpl.
  rewrite (bool_decide_false _ N1), (bool_decide_false _ N2), (proj2 (Z.eqb_neq _ _) N3). simpl.
  rewrite (bool_decide_false _ N4). simpl. rewrite Eg. unfold resolve_sampling. simpl. rewrite F1. simpl. unfold default_rate. simpl. rewrite F2. simpl.
  rewrite F3, F4. simpl. unfold rule_getAllConditions. simpl. by destruct (first_error _ _).
Qed.

Lemma group_conds_rule g : getConditionsFromGroup (rule_group g) = map rule_condition (group_conds g).
Proof.
  revert g. fix IH 1. intros [op cs gs]. simpl. rewrite map_app. f_equal. induction gs as [|g gs IHg]; [done|]. simpl. by rewrite map_app, IH, IHg.
Qed.

Lemma convert_inv (order : macro_order) idx fr macros lists cr r : convertRule order idx fr macros lists = Ok cr -> cr_Converted cr = Some r ->
  exists et n rs fuel s, et ∈ proc_types /\ parseExpr lists et fuel s = Ok (Some n, rs) /\
    r = mkConverted ("falco_imported_" +:+ zero_pad 3 (pretty idx)) (fr_Rule fr) (fr_Desc fr) et
          (match n with Single c => Some c | Group _ => None end) (match n with Single _ => None | Group g => Some g end)
          (mapPriority (fr_Priority fr)) "alert" (fr_Tags fr).
Proof.
  intros Hcr Hr. unfold convertRule in Hcr. case_decide; [by simplify_eq/=|]. case_decide; [by simplify_eq/=|].
  unfold detectEventType in Hcr. destruct (flattenLeaves _ _) as [leaves| |]; [|done..]. cbn [mbind result_bind] in Hcr.
  unfold parse_expression in Hcr. destruct (parseExpr lists _ _ _) as [[n rs]| |] eqn:Ep; [|done..]. cbn [mbind result_bind] in Hcr.
  destruct n as [n|]; [|by simplify_eq/=]. exists (event_type_of leaves), n, rs. eexists _, _. split; [apply event_type_proc|]. split; [exact Ep|].
  destruct n; simplify_eq/=; by simplify_eq/=.
Qed.

(** Claim C36. Converted rules name only what the rule loader knows: whatever the
    text of the condition, a rule the importer produces passes the validation
    of the loader, or fails it only because a value that the rule file gives
    as an address range is not one. *)
Theorem converted_rules_load (order : macro_order) idx fr macros lists cr r :
  fr_Rule fr <> ""%string ->
  float_gt float_0 float_0 = false -> float_eq float_0 float_0 = true -> float_lt float_1 float_0 = false -> float_gt float_1 float_1 = false ->
  convertRule order idx fr macros lists = Ok cr -> cr_Converted cr = Some r ->
  (validateRule (converted_rule r)).2 = None \/
  exists field v, (validateRule (converted_rule r)).2 = Some (BadCondition (CIDRInvalid field v)).
Proof.
  intros Hname F1 F2 F3 F4 Hcr Hr. destruct (convert_inv order idx fr macros lists cr r Hcr Hr) as (et & n & rs & fuel & s & Het & Ep & Hrule).
  assert (type_nr et <> 0) as Hty.
  { unfold proc_types in Het. rewrite !elem_of_cons in Het. destruct Het as [->|[->|[->|Het]]]; [done..|by apply elem_of_nil in Het]. }
  rewrite validate_shape; try done.
  - replace (rule_getAllConditions (converted_rule r)) with (map rule_condition (node_conds n)); [|by destruct n; subst r; cbn; rewrite ?app_nil_r, ?group_conds_rule].
    replace (r_EventType (converted_rule r)) with (type_nr et) by (by destruct n; subst r).
    pose proof (parse_good lists et _ _ _ _ Het Ep) as Hg. induction Hg as [|c l Hc _ IH]; simpl; [by left|].
    destruct (validate_good et c Hc) as [->|[v ->]]; [done|]. right. simpl. eauto.
  - destruct n; subst r; simpl; by destruct (zero_pad 3 (pretty idx)).
  - by destruct n; subst r.
  - by destruct n; subst r.
  - by destruct n; subst r.
  - destruct n; subst r; simpl; unfold mapPriority; by case_match.
  - apply parse_inhabited in Ep. destruct n as [c|[o cs gs]]; subst r; simpl; [done|]. destruct cs, gs; try done. by destruct Ep.
Qed.

(** Negative list tests lose their negation on some fields: a test of
    an address or of the syscall that is written with "not in" is converted,
    with no reason reported, to the same condition as the test with "in". And
    a test that the event type implies disappears from a disjunction, which
    then no longer holds when only that test does. *)
Theorem falco_silent_changes lists :
  parse_expression lists "network" (txt "fd.sip not in (10.0.0.0/8)") = Ok (Some (Single (mkFC "saddr" "in_cidr" ["10.0.0.0/8"%string])), []) /\
  parse_expression lists "network" (txt "fd.sip in (10.0.0.0/8)") = Ok (Some (Single (mkFC "saddr" "in_cidr" ["10.0.0.0/8"%string])), []) /\
  parse_expression lists "file" (txt "evt.type not in (open)") = Ok (Some (Single (mkFC "op" "eq" ["open"%string])), []) /\
  parse_expression lists "network" (txt "evt.type=connect or proc.name=nc") = Ok (Some (Single (mkFC "proc.comm" "eq" ["nc"%string])), []).
Proof.
  split_and!.
  1-3: rewrite parse_atom by (apply atom_check_ok; vm_compute; reflexivity); vm_compute; reflexivity.
  assert (wf (FOr [FAtom (txt "evt.type=connect"); FAtom (txt "proc.name=nc")])) as Hw.
  { split; [simpl; lia|]. split; [|split; [|done]]; apply atom_check_ok; vm_compute; reflexivity. }
  etransitivity; [exact (parse_print lists "network" Hlower _ Hw 0 (S (length (txt "evt.type=connect or proc.name=nc"))) ltac:(vm_compute; lia))|].
  vm_compute. reflexivity.
Qed.
End importer.

(** A condition outside ASCII can stop the importer with a panic: the
    loop compares the lower-case copy of the text at positions of the original,
    and a capital letter whose lower-case form takes more bytes (U+023A) lets
    the copy run past the end of the original. *)
Theorem falco_unicode_panic `{GoLib} lists et :
  let cond := bytes_text [0xC8; 0xBA]%N ++ txt " or" in
  txt (ToLower (str cond)) = bytes_text [0xE2; 0xB1; 0xA5]%N ++ txt " or" ->
  parse_expression lists et cond = Panic.
Proof.
  intros cond El. unfold parse_expression. cbn [parseExpr length].
  replace (TrimSpace cond) with cond by (vm_compute; reflexivity). rewrite decide_False by done.
  assert (splitTopLevelKeyword cond "or" = Panic) as ->; [|done].
  unfold splitTopLevelKeyword. rewrite El. vm_compute. reflexivity.
Qed.

(** ** Examples *)
Module Example_falco_correct.
#[local] Existing Instance sample_lib.

Lemma string_map_txt f s : txt (string_map f s) = map f (txt s).
Proof. induction s as [|c s IH]; simpl; [done|]. unfold txt in *. simpl. by rewrite IH. Qed.

Lemma sample_lowers : lowers_ascii.
Proof. intros s _. change (ToLower (str s)) with (string_map ascii_lower (str s)). rewrite string_map_txt, txt_str. reflexivity. Qed.

Definition in_order : macro_order := fun _ m => map_to_list m.
Definition shell_exp : fexp := FAnd [FAtom (txt "proc.name=bash"); FNot (FAtom (txt "user.uid=0"))].
Definition shell_rule : FalcoRule :=
  mkFalcoRule "Shell" "a shell" "proc.name=bash and not user.uid=0" "" "WARNING" ["t"] None.
Definition shell_started (uid : Z) : Event :=
  mkEvent EventSyscall 0 1 1 0 uid (string_bytes "bash") (zeros 16) (Some (mkSyscallEvent 59 0 []))
    None None None None None None None None None None None None None None None ""%string false.

Lemma shell_wf : wf shell_exp.
Proof. split; [simpl; lia|]. split; [|split; [|done]]; apply atom_check_ok; vm_compute; reflexivity. Qed.



Lemma converted_rules_load_witness : exists cr r,
  convertRule in_order 1 shell_rule ∅ ∅ = Ok cr /\ cr_Converted cr = Some r /\
  ((validateRule (converted_rule r)).2 = None \/
   exists field v, (validateRule (converted_rule r)).2 = Some (BadCondition (CIDRInvalid field v))).
Proof.
  eexists _, _. split; [vm_compute; reflexivity|]. split; [reflexivity|].
  eapply (converted_rules_load in_order 1 shell_rule ∅ ∅); [done|reflexivity|reflexivity|reflexivity|reflexivity|vm_compute; reflexivity|reflexivity].
Defined.

Lemma falco_silent_changes_witness :
  parse_expression ∅ "network" (txt "fd.sip not in (10.0.0.0/8)") = parse_expression ∅ "network" (txt "fd.sip in (10.0.0.0/8)").
Proof. destruct (falco_silent_changes sample_lowers ∅) as (-> & -> & _). reflexivity. Defined.

(** A lower-case function that knows one letter outside ASCII. *)
Definition stroke_lower (s : gostring) : gostring :=
  if decide (take 2 (txt s) = bytes_text [0xC8; 0xBA]%N) then str (bytes_text [0xE2; 0xB1; 0xA5]%N ++ map ascii_lower (drop 2 (txt s))) else ToLower s.
Definition stroke_lib : GoLib := {|
  Regexp := @Regexp sample_lib; regexp_Compile := regexp_Compile; MatchString := MatchString;
  IP := @IP sample_lib; IPNet := @IPNet sample_lib; ParseIP := ParseIP; ParseCIDR := ParseCIDR; IPNet_Contains := IPNet_Contains;
  IP_String := IP_String; Float := @Float sample_lib; ParseFloat := ParseFloat; FormatFloat4 := FormatFloat4;
  float_gt := float_gt; float_ge := float_ge; float_0 := float_0; float_1 := float_1; permille_below := permille_below;
  Duration_Seconds := Duration_Seconds; ToLower := stroke_lower; ToUpper := ToUpper; AnalyzeDomain := AnalyzeDomain;
  dga_threshold := dga_threshold |}.
Lemma falco_unicode_panic_witness :
  @parse_expression stroke_lib ∅ "syscall" (bytes_text [0xC8; 0xBA]%N ++ txt " or") = Panic.
Proof. apply (@falco_unicode_panic stroke_lib). vm_compute. reflexivity. Defined.
End Example_falco_correct.
