(* ===== verification/Gossip.v ===== *)
(** * Cluster gossip

    Models src/internal/gossip: the bounded store of indicators of compromise
    (ioc.go, Module [IOCs]), the store of amplification signals
    (amplification.go, Module [Amp]), peer URLs (discovery.go), the manager
    (manager.go) and the HTTP exchange between nodes (http.go, Module
    [Node]). Every call of [time.Now] is an argument. A linked-list element
    of the LRU list is represented by the key it holds: the list has each key
    once ([store_wf]), so removing or moving an element is removing or moving
    its key. Prometheus counters and log lines are left out; the TLS
    configuration (certificate files) enters as the verdict of its
    construction. JSON is the class [Wire]: the bytes of a batch, and what a
    reader of these bytes gets, in which every invalid UTF-8 byte has become
    U+FFFD, as package [encoding/json] documents. *)
From Stdlib Require Import Ascii.
From stdpp Require Import strings pretty sorting.
From S2P Require Import Prelude GoBytes GoText Types Fields.

(** ** Indicators *)
Module IOCs.
Definition IOCTypeIP : gostring := "ip".
Definition IOCTypeDNS : gostring := "dns".
Definition IOCTypeFingerprint : gostring := "fingerprint".
Definition maxIOCValueLen : Z := 253.
Definition maxIOCSourceLen : Z := 253.

Record IOC := mkIndicator {
  ioc_Type : gostring; ioc_Value : gostring; ioc_Source : gostring; ioc_RuleID : gostring; ioc_Severity : gostring; ioc_ExpiresAt : Z }.

Definition ioc_types : list gostring := [IOCTypeIP; IOCTypeDNS; IOCTypeFingerprint].
Definition validIOCType (t : gostring) : bool := bool_decide (t ∈ ioc_types).

Variant ioc_error := UnknownType (t : gostring) | EmptyValue | ValueTooLong (n : Z) | SourceTooLong (n : Z).
Definition str_len (s : gostring) : Z := Z.of_nat (String.length s).
Definition validateIOC (i : IOC) : option ioc_error :=
  if negb (validIOCType (ioc_Type i)) then Some (UnknownType (ioc_Type i))
  else if bool_decide (ioc_Value i = ""%string) then Some EmptyValue
  else if maxIOCValueLen <? str_len (ioc_Value i) then Some (ValueTooLong (str_len (ioc_Value i)))
  else if maxIOCSourceLen <? str_len (ioc_Source i) then Some (SourceTooLong (str_len (ioc_Source i)))
  else None.

Record IOCStore := mkStore { st_entries : gmap gostring IOC; st_lru : list gostring; st_maxSize : Z; st_ttl : Z }.
Definition NewIOCStore (maxSize ttl : Z) : IOCStore :=
  mkStore ∅ [] (if maxSize <=? 0 then 100000 else maxSize) (if ttl <=? 0 then 3600 * Second else ttl).

Definition iocKey (t value : gostring) : gostring := (t +:+ ":" +:+ value)%string.
Definition key_of (i : IOC) : gostring := iocKey (ioc_Type i) (ioc_Value i).
Definition live (now : Z) (i : IOC) : bool := time_Before now (ioc_ExpiresAt i).

(** [evictExpiredLocked]: the order in which the map is walked is irrelevant. *)
Definition expired (now : Z) (s : IOCStore) (key : gostring) : bool :=
  match st_entries s !! key with Some i => negb (live now i) | None => false end.
Definition evictExpiredLocked (now : Z) (s : IOCStore) : IOCStore * Z :=
  let kept := filter (fun kv => live now kv.2 = true) (st_entries s) in
  (mkStore kept (filter (fun k => expired now s k = false) (st_lru s)) (st_maxSize s) (st_ttl s),
   Z.of_nat (size (st_entries s)) - Z.of_nat (size kept)).

Definition evictLRULocked (s : IOCStore) : IOCStore :=
  match last (st_lru s) with
  | None => s
  | Some key => mkStore (delete key (st_entries s)) (take (pred (length (st_lru s))) (st_lru s)) (st_maxSize s) (st_ttl s)
  end.

Definition MoveToFront (key : gostring) (l : list gostring) : list gostring := key :: filter (.≠ key) l.

Definition full (s : IOCStore) : bool := st_maxSize s <=? Z.of_nat (length (st_lru s)).
Definition make_room (now : Z) (s : IOCStore) : IOCStore :=
  let s := if full s then (evictExpiredLocked now s).1 else s in
  if full s then evictLRULocked s else s.

Definition Add (now : Z) (i : IOC) (s : IOCStore) : IOCStore * bool :=
  match validateIOC i with
  | Some _ => (s, false)
  | None =>
      let key := key_of i in
      match st_entries s !! key with
      | Some e =>
          (mkStore (if time_After (ioc_ExpiresAt i) (ioc_ExpiresAt e) then <[key := i]> (st_entries s) else st_entries s)
             (MoveToFront key (st_lru s)) (st_maxSize s) (st_ttl s), true)
      | None =>
          let s := make_room now s in
          (mkStore (<[key := i]> (st_entries s)) (key :: st_lru s) (st_maxSize s) (st_ttl s), true)
      end
  end.

Definition Match (now : Z) (t value : gostring) (s : IOCStore) : bool :=
  match st_entries s !! iocKey t value with
  | None => false
  | Some e => time_Before now (ioc_ExpiresAt e)
  end.

(** The order of the result follows the map and is not determined. *)
Definition Snapshot (now : Z) (s : IOCStore) : list IOC :=
  filter (fun i => live now i = true) (snd <$> map_to_list (st_entries s)).

(** [Merge] reads the clock once for the filter; [Add] reads it again for
    each indicator, the number that comes with it. *)
Definition merge_one (now : Z) (s : IOCStore) (ti : Z * IOC) : IOCStore :=
  if live now ti.2 then (Add ti.1 ti.2 s).1 else s.
Definition Merge (now : Z) (iocs : list (Z * IOC)) (s : IOCStore) : IOCStore := foldl (merge_one now) s iocs.

Definition CleanExpired (now : Z) (s : IOCStore) : IOCStore * Z := evictExpiredLocked now s.
Definition Size (s : IOCStore) : Z := Z.of_nat (size (st_entries s)).

(** *** The invariant *)
Definition store_wf (s : IOCStore) : Prop :=
  NoDup (st_lru s) /\ (forall k, k ∈ st_lru s <-> is_Some (st_entries s !! k)) /\
  (forall k i, st_entries s !! k = Some i -> k = key_of i /\ validateIOC i = None) /\
  Z.of_nat (length (st_lru s)) <= st_maxSize s /\ 0 < st_maxSize s.

Lemma new_wf maxSize ttl : store_wf (NewIOCStore maxSize ttl).
Proof.
  unfold NewIOCStore, store_wf. simpl. split; [constructor|]. split; [|split; [|destruct (Z.leb_spec maxSize 0); lia]].
  - intros k. rewrite lookup_empty. split; [by intros ?%elem_of_nil|by intros [? ?]].
  - intros k i. by rewrite lookup_empty.
Qed.

Lemma expired_lookup now s k i :
  (evictExpiredLocked now s).1.(st_entries) !! k = Some i <-> st_entries s !! k = Some i /\ live now i = true.
Proof. simpl. rewrite map_lookup_filter_Some. done. Qed.

Lemma expired_lru now s k : store_wf s ->
  k ∈ st_lru (evictExpiredLocked now s).1 <-> is_Some (st_entries (evictExpiredLocked now s).1 !! k).
Proof.
  intros (_ & Hdom & _). split.
  - simpl. rewrite list_elem_of_filter. intros [He Hk]. apply Hdom in Hk as [i Hi]. exists i. apply expired_lookup. split; [done|].
    unfold expired in He. rewrite Hi in He. by apply negb_false_iff.
  - intros [i Hi]. apply expired_lookup in Hi as [Hi Hl]. simpl. rewrite list_elem_of_filter. split; [unfold expired; by rewrite Hi, Hl|]. apply Hdom. eauto.
Qed.

Lemma evictExpired_wf now s : store_wf s -> store_wf (evictExpiredLocked now s).1.
Proof.
  intros Hwf. destruct Hwf as (Hnd & Hdom & Hkey & Hlen & Hpos) eqn:E. split_and!; [by apply NoDup_filter|intros k; by apply expired_lru| | |done].
  - intros k i [Hi _]%expired_lookup. by apply Hkey.
  - simpl. pose proof (length_filter (fun k => expired now s k = false) (st_lru s)). lia.
Qed.

Lemma last_take {A} (l : list A) x : last l = Some x -> l = take (pred (length l)) l ++ [x].
Proof. intros [l' ->]%last_Some. rewrite length_app, take_app_exact by (simpl; lia). done. Qed.

Lemma evictLRU_wf s : store_wf s -> store_wf (evictLRULocked s).
Proof.
  intros (Hnd & Hdom & Hkey & Hlen & Hpos). unfold evictLRULocked. destruct (last (st_lru s)) as [k|] eqn:El; [|done].
  apply last_take in El. set (l := take _ _) in *. unfold store_wf. cbn [st_lru st_entries st_maxSize]. rewrite El in Hnd, Hdom, Hlen.
  rewrite length_app in Hlen. simpl in Hlen. apply NoDup_app in Hnd as (Hnd & Hdisj & _). split_and!; [done| | |lia|done].
  - intros k'. rewrite lookup_delete_is_Some, <- Hdom, elem_of_app, list_elem_of_singleton. split.
    + intros Hk'. split; [|by left]. intros <-. by apply (Hdisj k); [|left].
    + intros [Hne [?| ->]]; done.
  - intros k' i [_ Hi]%lookup_delete_Some. by apply Hkey.
Qed.

Lemma evictLRU_length s : st_lru s <> [] -> length (st_lru s) = S (length (st_lru (evictLRULocked s))).
Proof.
  intros Hne. unfold evictLRULocked. destruct (last (st_lru s)) as [k|] eqn:El; [|by apply last_None in El].
  simpl. rewrite length_take. destruct (st_lru s); [done|simpl; lia].
Qed.

Lemma make_room_wf now s : store_wf s ->
  store_wf (make_room now s) /\ Z.of_nat (length (st_lru (make_room now s))) < st_maxSize s /\
  (st_entries (make_room now s) ⊆ st_entries s) /\ st_maxSize (make_room now s) = st_maxSize s.
Proof.
  intros Hwf. unfold make_room.
  assert (store_wf (if full s then (evictExpiredLocked now s).1 else s) /\
    st_entries (if full s then (evictExpiredLocked now s).1 else s) ⊆ st_entries s /\
    st_maxSize (if full s then (evictExpiredLocked now s).1 else s) = st_maxSize s) as (Hwf' & Hsub & Hmax).
  { destruct (full s); [|done]. split_and!; [by apply evictExpired_wf|simpl; apply map_filter_subseteq|done]. }
  set (s' := if full s then _ else _) in *. destruct (full s') eqn:Ef; unfold full in Ef; zbool.
  2: { split_and!; [done|lia|done|done]. }
  assert (st_lru s' <> []) as Hne. { intros E. destruct Hwf' as (_ & _ & _ & _ & ?). rewrite E in Ef. simpl in Ef. lia. }
  pose proof (evictLRU_length s' Hne) as Hl. destruct Hwf' as (? & ? & ? & Hle & ?).
  assert (st_maxSize (evictLRULocked s') = st_maxSize s') as Hm by (unfold evictLRULocked; by case_match).
  split_and!; [by apply evictLRU_wf|lia| |congruence].
  etransitivity; [|exact Hsub]. unfold evictLRULocked. case_match; [|done]. simpl. apply delete_subseteq.
Qed.

Lemma Add_wf now i s : store_wf s -> store_wf (Add now i s).1.
Proof.
  intros Hwf. unfold Add. destruct (validateIOC i) eqn:Ev; [done|]. destruct (st_entries s !! key_of i) as [e|] eqn:Ee; cbn [fst].
  - destruct Hwf as (Hnd & Hdom & Hkey & Hlen & Hpos). unfold store_wf. cbn [st_lru st_entries st_maxSize]. unfold MoveToFront.
    assert (key_of i ∈ st_lru s) as Hin by (apply Hdom; eauto). split_and!; [| | | |done].
    + constructor; [rewrite list_elem_of_filter; by intros [? _]|by apply NoDup_filter].
    + intros k. rewrite elem_of_cons, list_elem_of_filter, Hdom. destruct (decide (k = key_of i)) as [->|Hne].
      * split; [intros _|by left]. case_match; [rewrite lookup_insert_eq|rewrite Ee]; done.
      * case_match; [rewrite lookup_insert_ne by done|]; (split; [by intros [?|[_ ?]]|by right]).
    + intros k j Hj. case_match; [|by apply Hkey]. apply lookup_insert_Some in Hj as [[<- <-]|[_ Hj]]; [done|by apply Hkey].
    + simpl. assert (length (filter (.≠ key_of i) (st_lru s)) < length (st_lru s))%nat; [|lia].
      eapply length_filter_lt; [exact Hin|]. by intros [].
  - destruct (make_room_wf now s Hwf) as ((Hnd & Hdom & Hkey & Hlen & Hpos) & Hlt & Hsub & Hmax). unfold store_wf. cbn [st_lru st_entries st_maxSize].
    assert (st_entries (make_room now s) !! key_of i = None) as En by (by eapply lookup_weaken_None). split_and!; [| | |simpl; lia|done].
    + constructor; [rewrite Hdom, En; by intros [? ?]|done].
    + intros k. rewrite elem_of_cons, Hdom, lookup_insert_is_Some. destruct (decide (key_of i = k)) as [<-|Hne]; [by split; auto|]. split; [by intros [->|?]; auto|by intros [?|[_ ?]]; auto].
    + intros k j [[<- <-]|[_ Hj]]%lookup_insert_Some; [done|by apply Hkey].
Qed.

Lemma Merge_wf now l s : store_wf s -> store_wf (Merge now l s).
Proof.
  unfold Merge. revert s. induction l as [|ti l IH]; intros s Hwf; simpl; [done|]. apply IH. unfold merge_one. case_match; [by apply Add_wf|done].
Qed.

(** *** What the store knows

    A history of the store as its calls in order, each with the clock reading
    it makes; [None] is a clean-up. *)
Variant store_op := OAdd (now : Z) (i : IOC) | OMerge (now : Z) (iocs : list (Z * IOC)) | OClean (now : Z).
Definition apply_op (s : IOCStore) (op : store_op) : IOCStore :=
  match op with OAdd now i => (Add now i s).1 | OMerge now l => Merge now l s | OClean now => (CleanExpired now s).1 end.
Definition calls (op : store_op) : list (Z * option IOC) :=
  match op with
  | OAdd now i => [(now, Some i)]
  | OMerge now l => prod_map id Some <$> filter (fun ti => live now ti.2 = true) l
  | OClean now => [(now, None)]
  end.
Definition history (ops : list store_op) : list (Z * option IOC) := concat (calls <$> ops).
Definition call (s : IOCStore) (c : Z * option IOC) : IOCStore :=
  match c with (now, Some i) => (Add now i s).1 | (now, None) => (CleanExpired now s).1 end.

(** The valid indicators a history has brought. *)
Definition known (h : list (Z * option IOC)) : list IOC := filter (fun i => validateIOC i = None) (omap snd h).
Definition live_keys (now : Z) (l : list IOC) : gset gostring := list_to_set (key_of <$> filter (fun i => live now i = true) l).
(** At no call are there more keys to remember than the store holds. *)
Definition fits (cap : Z) (h : list (Z * option IOC)) : Prop :=
  forall pre now i post, h = pre ++ (now, Some i) :: post -> validateIOC i = None ->
  Z.of_nat (size ({[key_of i]} ∪ live_keys now (known pre))) <= cap.

Lemma apply_calls s op : apply_op s op = foldl call s (calls op).
Proof.
  destruct op as [now i|now l|now]; simpl; [done| |done]. unfold Merge. revert s. induction l as [|[t i] l IH]; intros s; simpl; [done|].
  rewrite IH. unfold merge_one. simpl. destruct (live now i) eqn:El.
  - by rewrite filter_cons_True by done.
  - by rewrite filter_cons_False by (simpl; congruence).
Qed.

Lemma apply_history ops s : foldl apply_op s ops = foldl call s (history ops).
Proof. unfold history. revert s. induction ops as [|op ops IH]; intros s; simpl; [done|]. by rewrite foldl_app, <- apply_calls, IH. Qed.

Lemma call_wf s c : store_wf s -> store_wf (call s c).
Proof. destruct c as [now [i|]]; [apply Add_wf|apply evictExpired_wf]. Qed.

Lemma known_snoc h now o : known (h ++ [(now, o)]) = known h ++ match o with Some i => filter (fun i => validateIOC i = None) [i] | None => [] end.
Proof. unfold known. rewrite omap_app, filter_app. by destruct o. Qed.

Lemma iocKey_inj t v t' v' : t ∈ ioc_types -> t' ∈ ioc_types -> iocKey t v = iocKey t' v' -> t = t' /\ v = v'.
Proof.
  intros Ht Ht' E. unfold iocKey in E. apply (first_sep_inj ":"%char) in E; [done| |]; [clear Ht'; rename Ht into Hx|rename Ht' into Hx].
  all: unfold ioc_types in Hx; rewrite !elem_of_cons in Hx; destruct Hx as [->|[->|[->|Hx]]]; [by simpl; split_and!..|by apply elem_of_nil in Hx].
Qed.

(** The invariant of a run: at any time from [T] on, the keys with a live
    indicator are those of the live indicators received. *)
Definition remembers (T : Z) (s : IOCStore) (l : list IOC) : Prop :=
  forall now k, T <= now ->
  (exists i, st_entries s !! k = Some i /\ live now i = true) <-> (exists i, i ∈ l /\ key_of i = k /\ live now i = true).

Lemma lru_size s : store_wf s -> length (st_lru s) = size (dom (st_entries s)).
Proof.
  intros (Hnd & Hdom & _). rewrite <- (size_list_to_set (C:=gset gostring) (st_lru s)) by done.
  f_equal. apply set_eq. intros k. by rewrite elem_of_list_to_set, elem_of_dom.
Qed.

Lemma live_mono now now' i : now <= now' -> live now' i = true -> live now i = true.
Proof. unfold live, time_Before. intros. zbool. lia. Qed.

(** With room for the keys, making room loses only what has expired. *)
Lemma make_room_keeps T now s l i :
  store_wf s -> remembers T s l -> T <= now -> st_entries s !! key_of i = None ->
  Z.of_nat (size ({[key_of i]} ∪ live_keys now l)) <= st_maxSize s ->
  forall k j, st_entries s !! k = Some j -> live now j = true -> st_entries (make_room now s) !! k = Some j.
Proof.
  intros Hwf Hr HT Hi Hfit k j Hj Hl. unfold make_room. destruct (full s) eqn:Ef; [|by rewrite Ef].
  pose proof (evictExpired_wf now s Hwf) as Hwf'. assert (st_entries (evictExpiredLocked now s).1 !! k = Some j) as Hj' by (by apply expired_lookup).
  destruct (full (evictExpiredLocked now s).1) eqn:Ef'; [exfalso|done]. unfold full in Ef'. zbool. rewrite (lru_size _ Hwf') in Ef'.
  assert (dom (st_entries (evictExpiredLocked now s).1) ⊆ live_keys now l) as Hsub.
  { intros k' [j' Hj2]%elem_of_dom. apply expired_lookup in Hj2. destruct (proj1 (Hr now k' HT) (ex_intro _ j' Hj2)) as (i' & Hin & <- & Hl').
    unfold live_keys. rewrite elem_of_list_to_set. apply list_elem_of_fmap. exists i'. split; [done|]. by apply list_elem_of_filter. }
  assert (key_of i ∉ dom (st_entries (evictExpiredLocked now s).1)) as Hni.
  { rewrite elem_of_dom. intros [j' [Hj2 _]%expired_lookup]. congruence. }
  assert (size ({[key_of i]} ∪ dom (st_entries (evictExpiredLocked now s).1)) <= size ({[key_of i]} ∪ live_keys now l))%nat as Hle.
  { apply subseteq_size. by apply union_mono_l. }
  rewrite size_union in Hle by (apply disjoint_singleton_l; exact Hni). rewrite size_singleton in Hle. cbn [st_maxSize evictExpiredLocked fst] in *. lia.
Qed.

Lemma live_max now i e : live now (if time_After (ioc_ExpiresAt i) (ioc_ExpiresAt e) then i else e) = live now i || live now e.
Proof.
  unfold live, time_Before, time_After. case_match; zbool; destruct (Z.ltb_spec now (ioc_ExpiresAt i)), (Z.ltb_spec now (ioc_ExpiresAt e)); simpl; lia || done.
Qed.

(** What [Add] leaves under a key, for a live key. *)
Lemma Add_lookup T now s l i now' k :
  store_wf s -> remembers T s l -> T <= now -> now <= now' -> validateIOC i = None ->
  Z.of_nat (size ({[key_of i]} ∪ live_keys now l)) <= st_maxSize s ->
  (exists j, st_entries (Add now i s).1 !! k = Some j /\ live now' j = true) <->
  (exists j, st_entries s !! k = Some j /\ live now' j = true) \/ (key_of i = k /\ live now' i = true).
Proof.
  intros Hwf Hr HT Hn Hv Hfit. unfold Add. rewrite Hv. destruct (st_entries s !! key_of i) as [e|] eqn:Ee; cbn [fst st_entries].
  - transitivity (exists j, <[key_of i := if time_After (ioc_ExpiresAt i) (ioc_ExpiresAt e) then i else e]> (st_entries s) !! k = Some j /\ live now' j = true).
    { case_match; [done|]. by rewrite insert_id. }
    destruct (decide (key_of i = k)) as [<-|Hne].
    + rewrite lookup_insert_eq. split.
      * intros (j & [= <-] & Hl). rewrite live_max in Hl. apply orb_true_iff in Hl as [?|?]; [by right|left; eauto].
      * intros Hor. eexists. split; [done|]. rewrite live_max. apply orb_true_iff.
        destruct Hor as [(j & Hj & Hl)|[_ Hl]]; [right; congruence|by left].
    + rewrite lookup_insert_ne by done. split; [by left|by intros [?|[? _]]].
  - destruct (decide (key_of i = k)) as [<-|Hne].
    + rewrite lookup_insert_eq. split; [intros (j & [= <-] & Hl); by right|]. intros [(j & Hj & _)|[_ Hl]]; [congruence|eauto].
    + rewrite lookup_insert_ne by done. destruct (make_room_wf now s Hwf) as (_ & _ & Hsub & _). split.
      * intros (j & Hj & Hl). left. exists j. split; [by eapply lookup_weaken|done].
      * intros [(j & Hj & Hl)|[? _]]; [|done]. exists j. split; [|done]. eapply make_room_keeps; try done. by apply (live_mono _ now').
Qed.

Lemma Add_size now i s : st_maxSize (Add now i s).1 = st_maxSize s.
Proof.
  unfold Add. case_match; [done|]. case_match; [done|]. simpl. unfold make_room, evictLRULocked, full. repeat case_match; done.
Qed.

Lemma call_remembers T s h now o :
  store_wf s -> remembers T s (known h) -> T <= now ->
  (forall i, o = Some i -> validateIOC i = None -> Z.of_nat (size ({[key_of i]} ∪ live_keys now (known h))) <= st_maxSize s) ->
  remembers now (call s (now, o)) (known (h ++ [(now, o)])).
Proof.
  intros Hwf Hr HT Hfit now' k Hn. rewrite known_snoc. specialize (Hr now' k ltac:(lia)) as Hk. destruct o as [i|]; simpl.
  - destruct (validateIOC i) eqn:Ev.
    + unfold Add. rewrite Ev. rewrite filter_cons_False, filter_nil by congruence. by rewrite app_nil_r.
    + rewrite filter_cons_True, filter_nil by done. rewrite (Add_lookup T now s (known h) i now' k) by auto. rewrite Hk.
      setoid_rewrite elem_of_app. setoid_rewrite list_elem_of_singleton. split.
      * intros [(j & ? & ? & ?)|[? ?]]; eauto.
      * intros (j & [?| ->] & ? & ?); eauto.
  - rewrite app_nil_r, <- Hk. setoid_rewrite map_lookup_filter_Some. split.
    + intros (i & [? _] & ?); eauto.
    + intros (i & ? & ?). exists i. split; [|done]. split; [done|]. simpl. by apply (live_mono _ now').
Qed.

Lemma call_size s c : st_maxSize (call s c) = st_maxSize s.
Proof. destruct c as [now [i|]]; [apply Add_size|done]. Qed.

Lemma history_remembers cap ttl h :
  fits (st_maxSize (NewIOCStore cap ttl)) h -> StronglySorted Z.le (fst <$> h) ->
  let s := foldl call (NewIOCStore cap ttl) h in
  store_wf s /\ st_maxSize s = st_maxSize (NewIOCStore cap ttl) /\ (forall T, Forall (fun c => c.1 <= T) h -> remembers T s (known h)).
Proof.
  induction h as [|[now o] h IH] using rev_ind; intros Hf Hs; simpl.
  - split; [apply new_wf|]. split; [done|]. intros T _ now k _. simpl. split; [intros (i & Hi & _); by rewrite lookup_empty in Hi|by intros (i & ?%elem_of_nil & _)].
  - rewrite fmap_app in Hs. apply StronglySorted_app in Hs as (Hle & Hs & _). rewrite foldl_app. cbn [foldl].
    destruct IH as (Hwf & Hsz & Hr); [|done|]. { intros pre t i post -> Hv. apply (Hf pre t i (post ++ [(now, o)])); [by rewrite <- app_assoc|done]. }
    split; [by apply call_wf|]. split; [by rewrite call_size|]. intros T HT. apply Forall_app in HT as [_ HT]. apply Forall_cons in HT as [HT _]. simpl in HT.
    assert (remembers now (foldl call (NewIOCStore cap ttl) h) (known h)) as Hnow.
    { apply Hr. apply Forall_forall. intros c Hc. apply Hle; [by apply (list_elem_of_fmap_2 fst)|by left]. }
    intros now' k Hn. apply (call_remembers now _ h now o Hwf Hnow ltac:(lia)); [|lia].
    intros i -> Hv. rewrite Hsz. apply (Hf h now i []); done.
Qed.

Lemma known_valid h i : i ∈ known h -> validateIOC i = None /\ ioc_Type i ∈ ioc_types.
Proof.
  unfold known. rewrite list_elem_of_filter. intros [Hv _]. split; [done|]. unfold validateIOC, validIOCType in Hv.
  destruct (bool_decide (ioc_Type i ∈ ioc_types)) eqn:E; [by apply bool_decide_eq_true in E|done].
Qed.
End IOCs.
Import IOCs.

(** Claim C19. The store forgets nothing that is alive. After any history of
    additions, merges and clean-ups on a clock that does not run backwards,
    in which the keys to remember never exceed the capacity, a lookup answers
    yes exactly when one of the valid indicators received so far has that
    type and value and has not expired; renewals, the order of arrival,
    duplicates and clean-ups do not matter. *)
Theorem ioc_store_exact cap ttl ops now t value :
  fits (st_maxSize (NewIOCStore cap ttl)) (history ops) ->
  StronglySorted Z.le (fst <$> history ops) -> Forall (fun c => c.1 <= now) (history ops) -> t ∈ ioc_types ->
  Match now t value (foldl apply_op (NewIOCStore cap ttl) ops) = true <->
  exists i, i ∈ known (history ops) /\ ioc_Type i = t /\ ioc_Value i = value /\ now < ioc_ExpiresAt i.
Proof.
  intros Hf Hs Hn Ht. rewrite apply_history. destruct (history_remembers cap ttl _ Hf Hs) as (_ & _ & Hr).
  specialize (Hr now Hn now (iocKey t value) (Z.le_refl _)). unfold Match. transitivity (exists i, st_entries (foldl call (NewIOCStore cap ttl) (history ops)) !! iocKey t value = Some i /\ live now i = true).
  { destruct (_ !! _) as [e|]; [|split; [done|by intros (? & ? & _)]]. split; [by eauto|]. by intros (i & [= <-] & ?). }
  rewrite Hr. split.
  - intros (i & Hi & Hk & Hl). destruct (known_valid _ _ Hi) as [_ Hti]. apply iocKey_inj in Hk as [? ?]; [|done..]. exists i. unfold live, time_Before in Hl. zbool. done.
  - intros (i & Hi & <- & <- & Hl). exists i. split_and!; [done|done|]. unfold live, time_Before. by apply Z.ltb_lt.
Qed.

(** ** Amplification signals *)
Module Amp.
Section amp.
Context `{GoLib}.
Definition Minute : Z := 60 * Second.
Definition amplificationTTLDefault : Z := 10 * Minute.
Definition deduplicationTTLDefault : Z := 5 * Minute.
(** The constant 0.6. *)
Definition defaultThresholdMultiplier : Float := default float_0 (ParseFloat "0.6").

Record AmplificationSignal := mkSignal {
  am_Namespace : gostring; am_RuleID : gostring; am_Severity : gostring; am_Source : gostring; am_ThresholdMultiplier : Float;
  am_ExpiresAt : Z; am_Fingerprint : gostring }.
Record AmplificationStore := mkAmpStore { as_signals : list AmplificationSignal; as_seen : gmap gostring Z; as_dedupTTL : Z }.

Definition newAmplificationStore (dedupTTL : Z) : AmplificationStore :=
  mkAmpStore [] ∅ (if dedupTTL <=? 0 then deduplicationTTLDefault else dedupTTL).

Definition MarkSeen (now : Z) (fingerprint : gostring) (s : AmplificationStore) : AmplificationStore :=
  if bool_decide (fingerprint = ""%string) then s
  else mkAmpStore (as_signals s) (<[fingerprint := time_Add now (as_dedupTTL s)]> (as_seen s)) (as_dedupTTL s).

Definition IsDuplicate (now : Z) (fingerprint : gostring) (s : AmplificationStore) : bool :=
  if bool_decide (fingerprint = ""%string) then false
  else match as_seen s !! fingerprint with Some expiry => time_Before now expiry | None => false end.

(** The first signal of the same namespace and source is replaced in place. *)
Definition same_origin (a b : AmplificationSignal) : bool :=
  bool_decide (am_Namespace a = am_Namespace b) && bool_decide (am_Source a = am_Source b).
Fixpoint put_signal (sig : AmplificationSignal) (l : list AmplificationSignal) : list AmplificationSignal :=
  match l with
  | [] => [sig]
  | x :: l => if same_origin x sig then sig :: l else x :: put_signal sig l
  end.
Definition Add (sig : AmplificationSignal) (s : AmplificationStore) : AmplificationStore :=
  mkAmpStore (put_signal sig (as_signals s)) (as_seen s) (as_dedupTTL s).

Definition active (now : Z) (sig : AmplificationSignal) : bool := time_Before now (am_ExpiresAt sig).
Definition lower (ns : gostring) (now : Z) (min : Float) (sig : AmplificationSignal) : Float :=
  if bool_decide (am_Namespace sig = ns) && active now sig then
    if float_lt (am_ThresholdMultiplier sig) min then am_ThresholdMultiplier sig else min
  else min.
Definition GetThresholdMultiplier (now : Z) (ns : gostring) (s : AmplificationStore) : Float :=
  if bool_decide (ns = ""%string) then float_1 else foldl (lower ns now) float_1 (as_signals s).
Definition IsAmplified (now : Z) (ns : gostring) (s : AmplificationStore) : bool := float_lt (GetThresholdMultiplier now ns s) float_1.
Definition Snapshot (now : Z) (s : AmplificationStore) : list AmplificationSignal := filter (fun sig => active now sig = true) (as_signals s).
Definition ActiveCount (now : Z) (s : AmplificationStore) : Z := Z.of_nat (length (Snapshot now s)).
Definition CleanExpired (now : Z) (s : AmplificationStore) : AmplificationStore * Z :=
  let kept := filter (fun sig => active now sig = true) (as_signals s) in
  (mkAmpStore kept (filter (fun kv => time_Before now kv.2 = true) (as_seen s)) (as_dedupTTL s),
   Z.of_nat (length (as_signals s)) - Z.of_nat (length kept)).

(** *** The latest signal of each origin *)
Definition origin (a : AmplificationSignal) : gostring * gostring := (am_Namespace a, am_Source a).
Lemma same_origin_spec a b : same_origin a b = true <-> origin a = origin b.
Proof. unfold same_origin, origin. rewrite andb_true_iff, !bool_decide_eq_true. split; [intros [-> ->]; done|by intros [= -> ->]]. Qed.

Lemma put_origins sig l x :
  NoDup (origin <$> l) -> x ∈ put_signal sig l <-> x = sig \/ (x ∈ l /\ origin x <> origin sig).
Proof.
  induction l as [|y l IH]; intros Hnd; simpl.
  - rewrite list_elem_of_singleton. split; [by left|]. by intros [?|[?%elem_of_nil _]].
  - rewrite fmap_cons in Hnd. apply NoDup_cons in Hnd as [Hy Hnd]. destruct (same_origin y sig) eqn:E.
    + apply same_origin_spec in E. rewrite !elem_of_cons. split.
      * intros [?|Hx]; [by left|right]. split; [by right|]. rewrite <- E. intros Eo. apply Hy. rewrite <- Eo. by apply list_elem_of_fmap_2.
      * intros [?|[[->|?] Hne]]; [by left|done|by right].
    + assert (origin y <> origin sig) as Hne by (intros Eo; apply same_origin_spec in Eo; congruence).
      rewrite elem_of_cons, IH, elem_of_cons by done. split; [intros [->|[?|[? ?]]]; auto|intros [?|[[?|?] ?]]; auto].
Qed.

Lemma put_nodup sig l : NoDup (origin <$> l) -> NoDup (origin <$> put_signal sig l).
Proof.
  induction l as [|y l IH]; intros Hnd; simpl; [by apply NoDup_singleton|]. rewrite fmap_cons in Hnd.
  destruct (same_origin y sig) eqn:E; rewrite fmap_cons.
  - apply same_origin_spec in E. by rewrite <- E.
  - apply NoDup_cons in Hnd as [Hy Hnd]. apply NoDup_cons. split; [|by apply IH]. rewrite list_elem_of_fmap. intros (x & Eo & Hx).
    apply put_origins in Hx as [->|[Hx _]]; [|apply Hy; rewrite Eo; by apply list_elem_of_fmap_2|done]. apply same_origin_spec in Eo. congruence.
Qed.

(** [x] is the last signal of its origin in [l]. *)
Definition latest (l : list AmplificationSignal) (x : AmplificationSignal) : Prop :=
  exists pre post, l = pre ++ x :: post /\ Forall (fun y => origin y <> origin x) post.

Lemma latest_snoc l sig x : latest (l ++ [sig]) x <-> x = sig \/ (latest l x /\ origin x <> origin sig).
Proof.
  split.
  - intros (pre & post & E & Hp). destruct post as [|y post _] using rev_ind.
    + apply app_inj_tail in E as [_ ->]. by left.
    + rewrite app_comm_cons, app_assoc in E. apply app_inj_tail in E as [-> ->]. apply Forall_app in Hp as [Hp Hy].
      apply Forall_cons in Hy as [Hy _]. right. split; [by exists pre, post|]. by intros ?.
  - intros [->|[(pre & post & -> & Hp) Hne]].
    + exists l, []. done.
    + exists pre, (post ++ [sig]). split; [by rewrite <- app_assoc|]. apply Forall_app. split; [done|]. apply Forall_singleton. by intros ?.
Qed.

Lemma signals_latest s l :
  as_signals s = [] -> NoDup (origin <$> as_signals (foldl (fun s x => Add x s) s l)) /\
  forall x, x ∈ as_signals (foldl (fun s x => Add x s) s l) <-> latest l x.
Proof.
  intros Hs. induction l as [|sig l [Hnd IH]] using rev_ind.
  - simpl. rewrite Hs. split; [constructor|]. intros x. split; [by intros ?%elem_of_nil|]. intros (pre & post & E & _). by destruct pre.
  - rewrite foldl_app. simpl. split; [by apply put_nodup|]. intros x. rewrite put_origins by done. by rewrite IH, latest_snoc.
Qed.

(** A float that is not NaN, and the order on these. *)
Definition number (x : Float) : Prop := float_ge x x = true.
Definition number_order : Prop :=
  (forall a, number a -> float_lt a a = false) /\
  (forall a b c, number a -> number b -> number c -> float_lt a b = false -> float_lt b c = false -> float_lt a c = false) /\
  (forall a b, number a -> number b -> float_lt a b = true -> float_lt b a = false).

Lemma lower_least ns now l acc :
  number_order -> number acc -> Forall (fun x => number (am_ThresholdMultiplier x)) l ->
  let m := foldl (lower ns now) acc l in
  number m /\ float_lt acc m = false /\
  (m = acc \/ exists x, x ∈ l /\ am_Namespace x = ns /\ active now x = true /\ m = am_ThresholdMultiplier x) /\
  (forall x, x ∈ l -> am_Namespace x = ns -> active now x = true -> float_lt (am_ThresholdMultiplier x) m = false).
Proof.
  intros (Hirr & Htr & Has). revert acc. induction l as [|x l IH]; intros acc Ha Hl; simpl.
  - split_and!; [done|by apply Hirr|by left|]. by intros x ?%elem_of_nil.
  - apply Forall_cons in Hl as [Hx Hl].
    assert (number (lower ns now acc x) /\ float_lt acc (lower ns now acc x) = false /\
      (lower ns now acc x = acc \/ am_Namespace x = ns /\ active now x = true /\ lower ns now acc x = am_ThresholdMultiplier x) /\
      (am_Namespace x = ns -> active now x = true -> float_lt (am_ThresholdMultiplier x) (lower ns now acc x) = false)) as (N & L & C & B).
    { unfold lower. destruct (bool_decide _ && active now x) eqn:E.
      - apply andb_true_iff in E as [E1 E2]. apply bool_decide_eq_true in E1. destruct (float_lt _ acc) eqn:El; split_and!; auto.
      - split_and!; auto. intros <- Eact. rewrite bool_decide_true, Eact in E by done. done. }
    destruct (IH (lower ns now acc x) N Hl) as (N' & L' & C' & B'). split_and!; [done|by eapply (Htr acc (lower ns now acc x))| |].
    + destruct C' as [->|(y & ? & ? & ? & ->)]; [|right; exists y; by rewrite elem_of_cons; auto].
      destruct C as [->|(? & ? & ->)]; [by left|]. right. exists x. by rewrite elem_of_cons; auto.
    + intros y [->|Hy]%elem_of_cons Hn Hact; [|by apply B']. eapply (Htr _ (lower ns now acc x)); auto.
Qed.
End amp.
End Amp.

(** The sensitivity of a namespace after any series of received
    signals: of each source only the last signal counts, and the multiplier
    is the least among 1.0 and those of the signals that are still active. *)
Theorem amplification_lowest `{GoLib} ttl now ns (l : list Amp.AmplificationSignal) :
  Amp.number_order -> Amp.number float_1 -> Forall (fun x => Amp.number (Amp.am_ThresholdMultiplier x)) l -> ns <> ""%string ->
  let m := Amp.GetThresholdMultiplier now ns (foldl (fun s x => Amp.Add x s) (Amp.newAmplificationStore ttl) l) in
  let counts x := Amp.latest l x /\ Amp.am_Namespace x = ns /\ now < Amp.am_ExpiresAt x in
  (m = float_1 \/ exists x, counts x /\ m = Amp.am_ThresholdMultiplier x) /\
  float_lt float_1 m = false /\ (forall x, counts x -> float_lt (Amp.am_ThresholdMultiplier x) m = false).
Proof.
  intros Ho H1 Hl Hns m counts. destruct (Amp.signals_latest (Amp.newAmplificationStore ttl) l eq_refl) as [_ Hin].
  subst m. unfold Amp.GetThresholdMultiplier. rewrite bool_decide_false by done. set (sigs := Amp.as_signals _) in *.
  assert (Forall (fun x => Amp.number (Amp.am_ThresholdMultiplier x)) sigs) as Hs.
  { rewrite Forall_forall in Hl |- *. intros x (pre & post & -> & _)%Hin. apply Hl. rewrite elem_of_app, elem_of_cons. auto. }
  assert (forall x, Amp.active now x = true <-> now < Amp.am_ExpiresAt x) as Hact by (intros; unfold Amp.active, time_Before; by rewrite Z.ltb_lt).
  destruct (Amp.lower_least ns now sigs float_1 Ho H1 Hs) as (_ & L & C & B). split_and!; [|done|].
  - destruct C as [->|(x & Hx & ? & Ha & ->)]; [by left|right]. exists x. split; [|done]. split_and!; [by apply Hin|done|by apply Hact].
  - intros x (Hx & ? & ?). apply B; [by apply Hin|done|by apply Hact].
Qed.

(** ** JSON text *)

(** Package [encoding/json] replaces every invalid byte of a string by U+FFFD. *)
Fixpoint utf8_loop (fuel : nat) (l : list byte) : list byte :=
  match fuel, l with
  | S fuel, b :: l' =>
      let '(r, n) := DecodeRune l in
      if (r =? RuneError) && (Nat.eqb n 1) then [Byte.xef; Byte.xbf; Byte.xbd] ++ utf8_loop fuel l'
      else take n l ++ utf8_loop fuel (drop n l)
  | _, _ => []
  end.
Definition json_string (s : gostring) : gostring := bytes_string (utf8_loop (String.length s) (string_bytes s)).
Definition on_wire (i : IOC) : IOC :=
  mkIndicator (json_string (ioc_Type i)) (json_string (ioc_Value i)) (json_string (ioc_Source i)) (json_string (ioc_RuleID i))
    (json_string (ioc_Severity i)) (ioc_ExpiresAt i).

(** What the manager uses of packages [net], [net/url] and [encoding/json].
    [url_Host]: the host of a parsed URL; [None] when it does not parse. *)
Class Wire `{GoLib} := {
  IsLoopback : IP -> bool;
  IsLinkLocalUnicast : IP -> bool;
  IsLinkLocalMulticast : IP -> bool;
  url_Host : gostring -> option gostring;
  marshal_iocs : list IOC -> option (list byte);
  unmarshal_iocs : list byte -> option (list IOC);
  marshal_amps : list Amp.AmplificationSignal -> option (list byte);
  unmarshal_amps : list byte -> option (list Amp.AmplificationSignal) }.
(** Reading back what was written; and a proper prefix of the text of a JSON
    array is not JSON. *)
Class WireLaws `{Wire} := {
  iocs_wire : forall l b, marshal_iocs l = Some b -> unmarshal_iocs b = Some (on_wire <$> l);
  iocs_cut : forall l b n, marshal_iocs l = Some b -> (n < length b)%nat -> unmarshal_iocs (take n b) = None }.

(** ** The manager of a node *)
Module Node.
Section node.
Context `{Wire}.

Record Config := mkConfig {
  cf_Enabled : bool; cf_NodeName : gostring; cf_Secret : gostring; cf_SecretPrevious : gostring; cf_SecretRotationTTL : Z;
  cf_Peers : list gostring; cf_IOCTTL : Z; cf_MaxIOCs : Z; cf_PushInterval : Z; cf_TLSEnabled : bool; cf_DeduplicationTTL : Z }.
Definition DefaultConfig : Config :=
  mkConfig false "" "" "" (5 * Amp.Minute) [] (60 * Amp.Minute) 100000 (30 * Second) false Amp.deduplicationTTLDefault.

(** [TrimRight(raw, "/")] *)
Definition is_slash (c : Ascii.ascii) : bool := bool_decide (c = "/"%char).
Definition trim_slashes (s : text) : text := rev (trim_left is_slash (rev s)).
Definition normalizePeerURL (raw : gostring) : gostring :=
  let raw := TrimSpace (txt raw) in
  if decide (raw = []) then ""%string else
  let raw := if text_prefix (txt "http://") raw || text_prefix (txt "https://") raw then raw else txt "http://" ++ raw in
  match url_Host (str raw) with
  | None => ""%string
  | Some h => if bool_decide (h = ""%string) then ""%string else str (trim_slashes raw)
  end.
Definition SetPeers (rawURLs : list gostring) : list gostring := filter (.≠ ""%string) (normalizePeerURL <$> rawURLs).

Record Manager := mkManager {
  mg_cfg : Config; mg_secretRotationDeadline : Z; mg_store : IOCStore; mg_ampStore : Amp.AmplificationStore; mg_peers : list gostring;
  mg_delta : list IOC; mg_ampDelta : list Amp.AmplificationSignal }.
Variant manager_error := SecretRequired | BadTLS.

Definition or_positive (z d : Z) : Z := if z <=? 0 then d else z.
Definition with_defaults (c : Config) : Config :=
  mkConfig (cf_Enabled c) (cf_NodeName c) (cf_Secret c) (cf_SecretPrevious c) (cf_SecretRotationTTL c) (cf_Peers c)
    (or_positive (cf_IOCTTL c) (60 * Amp.Minute)) (or_positive (cf_MaxIOCs c) 100000) (or_positive (cf_PushInterval c) (30 * Second))
    (cf_TLSEnabled c) (or_positive (cf_DeduplicationTTL c) Amp.deduplicationTTLDefault).

(** [tls]: whether the certificate files load. *)
Definition NewManager (tls : bool) (now : Z) (c : Config) : manager_error + Manager :=
  let c := with_defaults c in
  if cf_Enabled c && bool_decide (cf_Secret c = ""%string) then inl SecretRequired
  else if cf_TLSEnabled c && negb tls then inl BadTLS
  else
    let deadline := if negb (bool_decide (cf_SecretPrevious c = ""%string)) && (0 <? cf_SecretRotationTTL c)
                    then time_Add now (cf_SecretRotationTTL c) else zero_time in
    inr (mkManager c deadline (NewIOCStore (cf_MaxIOCs c) (cf_IOCTTL c)) (Amp.newAmplificationStore (cf_DeduplicationTTL c))
           (SetPeers (cf_Peers c)) [] []).

Definition with_store (s : IOCStore) (m : Manager) : Manager :=
  mkManager (mg_cfg m) (mg_secretRotationDeadline m) s (mg_ampStore m) (mg_peers m) (mg_delta m) (mg_ampDelta m).
Definition with_amps (s : Amp.AmplificationStore) (m : Manager) : Manager :=
  mkManager (mg_cfg m) (mg_secretRotationDeadline m) (mg_store m) s (mg_peers m) (mg_delta m) (mg_ampDelta m).
Definition with_deltas (d : list IOC) (a : list Amp.AmplificationSignal) (m : Manager) : Manager :=
  mkManager (mg_cfg m) (mg_secretRotationDeadline m) (mg_store m) (mg_ampStore m) (mg_peers m) d a.

Definition match_type (t : gostring) (now : Z) (value : gostring) (m : Manager) : bool :=
  cf_Enabled (mg_cfg m) && IOCs.Match now t value (mg_store m).
Definition MatchIP := match_type IOCTypeIP.
Definition MatchDNS := match_type IOCTypeDNS.
Definition MatchFingerprint := match_type IOCTypeFingerprint.

Definition private_blocks : list gostring := ["10.0.0.0/8"; "172.16.0.0/12"; "192.168.0.0/16"; "fc00::/7"]%string.
Definition isPrivateIP (ip : gostring) : bool :=
  match ParseIP ip with
  | None => true
  | Some p =>
      IsLoopback p || IsLinkLocalUnicast p || IsLinkLocalMulticast p ||
      existsb (fun cidr => match ParseCIDR cidr with Some block => IPNet_Contains block p | None => false end) private_blocks
  end.

(** The indicators of an alert. *)
Definition event_iocs (c : Config) (expires : Z) (a : Alert) : list IOC :=
  let ioc t v := mkIndicator t v (cf_NodeName c) (al_RuleID a) (al_Severity a) expires in
  let e := al_Event a in
  (if ev_Type e =? EventTCPConnect then
     match ev_Network e with
     | Some n => let ip := FormatIP16 (net_Daddr n) (net_Family n) in
                 if bool_decide (is_Some (ParseIP ip)) && negb (isPrivateIP ip) then [ioc IOCTypeIP ip] else []
     | None => []
     end
   else if ev_Type e =? EventDNS then
     match ev_DNS e with
     | Some d => if bool_decide (dns_QName d = ""%string) then [] else [ioc IOCTypeDNS (dns_QName d)]
     | None => []
     end
   else []) ++
  (if bool_decide (al_Fingerprint a = ""%string) then [] else [ioc IOCTypeFingerprint (al_Fingerprint a)]).

Definition add_all (clk : nat -> Z) (iocs : list IOC) (s : IOCStore) : IOCStore :=
  foldl (fun s ti => (IOCs.Add ti.1 ti.2 s).1) s (imap (fun i x => (clk i, x)) iocs).

(** [now] is the reading that dates the indicators, [clk] those of the store. *)
Definition ExtractFromAlert (now : Z) (clk : nat -> Z) (a : Alert) (m : Manager) : Manager :=
  if negb (cf_Enabled (mg_cfg m)) then m else
  let batch := event_iocs (mg_cfg m) (time_Add now (cf_IOCTTL (mg_cfg m))) a in
  if decide (batch = []) then m
  else with_deltas (mg_delta m ++ batch) (mg_ampDelta m) (with_store (add_all clk batch (mg_store m)) m).

Definition MergeFromPeer (clk : nat -> Z) (iocs : list IOC) (m : Manager) : Manager :=
  with_store (IOCs.Merge (clk 0%nat) (imap (fun i x => (clk (S i), x)) iocs) (mg_store m)) m.

Definition BroadcastAlert (now : Z) (a : Alert) (m : Manager) : Manager :=
  if negb (cf_Enabled (mg_cfg m)) then m
  else if negb (bool_decide (al_Severity a = SeverityCritical)) then m
  else
    let ns := en_Namespace (al_Enrichment a) in
    if bool_decide (ns = ""%string) then m
    else with_deltas (mg_delta m)
           (mg_ampDelta m ++ [Amp.mkSignal ns (al_RuleID a) (al_Severity a) (cf_NodeName (mg_cfg m)) Amp.defaultThresholdMultiplier
                                (time_Add now Amp.amplificationTTLDefault) (al_Fingerprint a)]) m.

Definition merge_signal (now : Z) (s : Amp.AmplificationStore) (tx : Z * Amp.AmplificationSignal) : Amp.AmplificationStore :=
  if negb (Amp.active now tx.2) then s else Amp.MarkSeen tx.1 (Amp.am_Fingerprint tx.2) (Amp.Add tx.2 s).
Definition MergeAmplificationsFromPeer (clk : nat -> Z) (sigs : list Amp.AmplificationSignal) (m : Manager) : Manager :=
  with_amps (foldl (merge_signal (clk 0%nat)) (mg_ampStore m) (imap (fun i x => (clk (S i), x)) sigs)) m.

Definition IsDuplicateAlert (now : Z) (fingerprint : gostring) (m : Manager) : bool :=
  if negb (cf_Enabled (mg_cfg m)) || bool_decide (fingerprint = ""%string) then false else Amp.IsDuplicate now fingerprint (mg_ampStore m).
Definition GetThresholdMultiplier (now : Z) (ns : gostring) (m : Manager) : Float :=
  if negb (cf_Enabled (mg_cfg m)) then float_1 else Amp.GetThresholdMultiplier now ns (mg_ampStore m).

(** One tick of [cleanupLoop]. *)
Definition cleanup_tick (now now' : Z) (m : Manager) : Manager :=
  with_amps (Amp.CleanExpired now' (mg_ampStore m)).1 (with_store (IOCs.CleanExpired now (mg_store m)).1 m).

(** *** Requests *)
Definition gossipPath : gostring := "/gossip/iocs".
Definition gossipAmplPath : gostring := "/gossip/amplifications".
Definition maxIOCsPerBatch : Z := 10000.
Definition maxAmplPerBatch : Z := 1000.

(** The body is [None] when reading it fails. *)
Record request := mkRequest { rq_Path : gostring; rq_Method : gostring; rq_Secret : gostring; rq_Body : option (list byte) }.
Variant response := Status (code : Z) | IOCsJSON (l : list IOC) | AmpsJSON (l : list Amp.AmplificationSignal).

Definition authCheck (now : Z) (r : request) (m : Manager) : bool :=
  bool_decide (rq_Secret r = cf_Secret (mg_cfg m)) ||
  (negb (bool_decide (cf_SecretPrevious (mg_cfg m) = ""%string)) && negb (time_IsZero (mg_secretRotationDeadline m)) &&
   time_Before now (mg_secretRotationDeadline m) && bool_decide (rq_Secret r = cf_SecretPrevious (mg_cfg m))).

(** The limits of the bodies, [4<<20] and [1<<20]. *)
Definition iocs_body_limit : Z := Z.shiftl 4 20.
Definition amps_body_limit : Z := Z.shiftl 1 20.

(** A limited body, decoded and checked against the batch limit. *)
Definition receive {A} (limit : Z) (decode : list byte -> option (list A)) (cap : Z) (r : request) (accept : list A -> Manager)
    (m : Manager) : Manager * response :=
  match rq_Body r with
  | None => (m, Status 400)
  | Some body =>
      match decode (take (Z.to_nat limit) body) with
      | None => (m, Status 400)
      | Some l => if cap <? Z.of_nat (length l) then (m, Status 413) else (accept l, Status 204)
      end
  end.
Definition handleReceiveIOCs (clk : nat -> Z) (r : request) (m : Manager) : Manager * response :=
  receive iocs_body_limit unmarshal_iocs maxIOCsPerBatch r (fun l => MergeFromPeer clk l m) m.
Definition handleReceiveAmplifications (clk : nat -> Z) (r : request) (m : Manager) : Manager * response :=
  receive amps_body_limit unmarshal_amps maxAmplPerBatch r (fun l => MergeAmplificationsFromPeer clk l m) m.

(** [Handler]: the two paths of the multiplexer, the check, the method. *)
Definition serve (now : Z) (clk : nat -> Z) (r : request) (m : Manager) : Manager * response :=
  let path post get :=
    if negb (authCheck now r m) then (m, Status 401)
    else if bool_decide (rq_Method r = "POST"%string) then post
    else if bool_decide (rq_Method r = "GET"%string) then (m, get)
    else (m, Status 405) in
  if bool_decide (rq_Path r = gossipPath) then
    path (handleReceiveIOCs clk r m) (IOCsJSON (IOCs.Snapshot (clk 0%nat) (mg_store m)))
  else if bool_decide (rq_Path r = gossipAmplPath) then
    path (handleReceiveAmplifications clk r m) (AmpsJSON (Amp.Snapshot (clk 0%nat) (mg_ampStore m)))
  else (m, Status 404).

(** The requests of [PushIOCs] and [PushAmplifications]; nothing is sent when
    the batch does not encode. A header that is not set reads as empty. *)
Definition push (path secret peer : gostring) (body : option (list byte)) : list (gostring * request) :=
  match body with Some b => [(peer, mkRequest path "POST" secret (Some b))] | None => [] end.
Definition PushIOCs (secret peer : gostring) (iocs : list IOC) : list (gostring * request) :=
  if decide (iocs = []) then [] else push gossipPath secret peer (marshal_iocs iocs).
Definition PushAmplifications (secret peer : gostring) (sigs : list Amp.AmplificationSignal) : list (gostring * request) :=
  if decide (length sigs = 0%nat) then [] else push gossipAmplPath secret peer (marshal_amps sigs).

(** [flushDelta]: the deltas are taken and every peer gets both batches, from
    one goroutine each. *)
Definition flushDelta (m : Manager) : Manager * list (gostring * request) :=
  let secret := cf_Secret (mg_cfg m) in
  (with_deltas [] [] m,
   concat (map (fun peer => PushIOCs secret peer (mg_delta m) ++ PushAmplifications secret peer (mg_ampDelta m)) (mg_peers m))).
End node.
End Node.
Import Node.
