(* ===== verification/GossipNet.v ===== *)
(** * A cluster of gossiping nodes

    The nodes of Gossip.v connected by the requests they send each other: a
    step relation over all interleavings of alerts, pushes, deliveries (in
    any order, repeated or never), clean-ups and requests of strangers who do
    not know a secret. Theorems: every indicator a node holds was extracted
    from an alert of some node; what a push brings to a peer and when a push
    is lost as a whole; and, with the correlation engine of Engine.v as the
    client of the matcher, that a matched indicator renews itself. *)
From Stdlib Require Import Ascii.
From stdpp Require Import strings pretty sorting.
From S2P Require Import Prelude GoBytes GoText Types Fields RuleTypes Rules Engine EngineCorrect Gossip.
Import Gossip.IOCs Gossip.Node.

Section cluster.
Context `{W : Wire, !WireLaws}.

(** [cl_log]: the alerts so far, with the node, and the reading that dates
    their indicators. *)
Record cluster := mkCluster { cl_nodes : gmap gostring Manager; cl_wire : list (gostring * request); cl_log : list (gostring * Z * Alert) }.
Definition set_node (n : gostring) (m : Manager) (c : cluster) : cluster := mkCluster (<[n := m]> (cl_nodes c)) (cl_wire c) (cl_log c).

Inductive cl_step : cluster -> cluster -> Prop :=
| step_alert c n m now now' clk a : cl_nodes c !! n = Some m ->
    cl_step c (mkCluster (<[n := ExtractFromAlert now clk a (BroadcastAlert now' a m)]> (cl_nodes c)) (cl_wire c) (cl_log c ++ [(n, now, a)]))
| step_flush c n m : cl_nodes c !! n = Some m ->
    cl_step c (mkCluster (<[n := (flushDelta m).1]> (cl_nodes c)) (cl_wire c ++ (flushDelta m).2) (cl_log c))
| step_deliver c n m r now clk : cl_nodes c !! n = Some m -> (n, r) ∈ cl_wire c -> cl_step c (set_node n (serve now clk r m).1 c)
| step_stranger c n m r now clk : cl_nodes c !! n = Some m ->
    rq_Secret r <> cf_Secret (mg_cfg m) -> rq_Secret r <> cf_SecretPrevious (mg_cfg m) -> cl_step c (set_node n (serve now clk r m).1 c)
| step_clean c n m now now' : cl_nodes c !! n = Some m -> cl_step c (set_node n (cleanup_tick now now' m) c).

Definition started (cfgs : gmap gostring Config) (c : cluster) : Prop :=
  cl_wire c = [] /\ cl_log c = [] /\
  forall n m, cl_nodes c !! n = Some m -> exists tls now cf, cfgs !! n = Some cf /\ NewManager tls now cf = inr m.

(** ** What the operations of a node leave alone *)
Lemma serve_cfg now clk r m : mg_cfg (serve now clk r m).1 = mg_cfg m.
Proof. unfold serve, handleReceiveIOCs, handleReceiveAmplifications, receive. repeat case_match; done. Qed.
Lemma serve_deltas now clk r m : mg_delta (serve now clk r m).1 = mg_delta m.
Proof. unfold serve, handleReceiveIOCs, handleReceiveAmplifications, receive. repeat case_match; done. Qed.
Lemma broadcast_same now a m :
  mg_cfg (BroadcastAlert now a m) = mg_cfg m /\ mg_store (BroadcastAlert now a m) = mg_store m /\ mg_delta (BroadcastAlert now a m) = mg_delta m.
Proof. unfold BroadcastAlert. repeat case_match; done. Qed.
Lemma extract_cfg now clk a m : mg_cfg (ExtractFromAlert now clk a m) = mg_cfg m.
Proof. unfold ExtractFromAlert. repeat case_match; done. Qed.

(** What [Add] can put into the store. *)
Lemma Add_entries now i s k j : st_entries (Add now i s).1 !! k = Some j -> st_entries s !! k = Some j \/ j = i.
Proof.
  unfold Add. destruct (validateIOC i); [by left|]. destruct (st_entries s !! key_of i) as [e|]; cbn [fst st_entries].
  - case_match; [|by left]. intros [[_ <-]|[_ ?]]%lookup_insert_Some; [by right|by left].
  - intros [[_ <-]|[_ Hj]]%lookup_insert_Some; [by right|left]. unfold make_room, evictLRULocked in Hj.
    repeat case_match; cbn [fst st_entries evictExpiredLocked] in Hj; rewrite ?lookup_delete_Some, ?map_lookup_filter_Some in Hj; tauto.
Qed.

Lemma foldl_entries {A} (f : IOCStore -> A -> IOCStore) (g : A -> IOC) l s k j :
  (forall s x, st_entries (f s x) !! k = Some j -> st_entries s !! k = Some j \/ j = g x) ->
  st_entries (foldl f s l) !! k = Some j -> st_entries s !! k = Some j \/ exists x, x ∈ l /\ j = g x.
Proof.
  intros Hf. revert s. induction l as [|x l IH]; intros s; simpl; [by left|]. intros [Hs|(y & ? & ?)]%IH.
  - apply Hf in Hs as [?|?]; [by left|right; exists x]. by rewrite elem_of_cons; auto.
  - right. exists y. by rewrite elem_of_cons; auto.
Qed.

Lemma imap_snd {A B} (f : nat -> B) (l : list A) p : p ∈ imap (fun i x => (f i, x)) l -> p.2 ∈ l.
Proof. rewrite elem_of_lookup_imap. intros (i & x & -> & Hx). by eapply list_elem_of_lookup_2. Qed.

Lemma merge_entries clk l m k j :
  st_entries (mg_store (MergeFromPeer clk l m)) !! k = Some j -> st_entries (mg_store m) !! k = Some j \/ j ∈ l.
Proof.
  simpl. unfold Merge. intros [?|(x & Hx & ->)]%(foldl_entries _ snd); [by left| |].
  - right. by apply imap_snd in Hx.
  - intros s x. unfold merge_one. case_match; [apply Add_entries|by left].
Qed.

Lemma extract_entries now clk a m k j :
  st_entries (mg_store (ExtractFromAlert now clk a m)) !! k = Some j ->
  st_entries (mg_store m) !! k = Some j \/ j ∈ event_iocs (mg_cfg m) (time_Add now (cf_IOCTTL (mg_cfg m))) a.
Proof.
  unfold ExtractFromAlert. case_match; [by left|]. case_decide; [by left|]. simpl. unfold add_all.
  intros [?|(x & Hx & ->)]%(foldl_entries _ snd); [by left|right; by apply imap_snd in Hx|]. intros s x. apply Add_entries.
Qed.

Lemma extract_delta now clk a m j :
  j ∈ mg_delta (ExtractFromAlert now clk a m) -> j ∈ mg_delta m \/ j ∈ event_iocs (mg_cfg m) (time_Add now (cf_IOCTTL (mg_cfg m))) a.
Proof. unfold ExtractFromAlert. case_match; [by left|]. case_decide; [by left|]. simpl. by rewrite elem_of_app. Qed.

(** A node without the secret of the request does nothing with it. *)
Lemma stranger_ignored now clk r m :
  rq_Secret r <> cf_Secret (mg_cfg m) -> rq_Secret r <> cf_SecretPrevious (mg_cfg m) -> (serve now clk r m).1 = m.
Proof.
  intros Hs1 Hs2. assert (authCheck now r m = false) as E. { unfold authCheck. rewrite (bool_decide_false _ Hs1), (bool_decide_false _ Hs2). by rewrite andb_false_r. }
  unfold serve. rewrite E. repeat case_match; done.
Qed.

(** What a request with indicators can put into the store of a node. *)
Lemma serve_entries now clk p b l m k j :
  marshal_iocs l = Some b -> rq_Path p = gossipPath -> rq_Body p = Some b ->
  st_entries (mg_store (serve now clk p m).1) !! k = Some j -> st_entries (mg_store m) !! k = Some j \/ exists i, i ∈ l /\ j = on_wire i.
Proof.
  intros Hb Hp Hbody. unfold serve, handleReceiveIOCs, receive. rewrite Hp, bool_decide_true, Hbody by done.
  case_match; [by left|]. case_match; [|case_match; by left].
  destruct (decide (length b <= Z.to_nat iocs_body_limit)%nat) as [Hle|Hgt].
  - rewrite take_ge by done. rewrite (iocs_wire l b Hb). case_match; [by left|]. intros [?|Hj]%merge_entries; [by left|right].
    apply list_elem_of_fmap in Hj as (i & -> & ?). eauto.
  - rewrite (iocs_cut l b) by (done || lia). by left.
Qed.

(** Requests for the other paths leave the indicators alone. *)
Lemma serve_other now clk p m : rq_Path p <> gossipPath -> mg_store (serve now clk p m).1 = mg_store m.
Proof. intros Hp. unfold serve, handleReceiveAmplifications, receive. rewrite bool_decide_false by done. repeat case_match; done. Qed.

(** ** Provenance *)
Definition extracted (cfgs : gmap gostring Config) (log : list (gostring * Z * Alert)) (i : IOC) : Prop :=
  exists n now a cf, (n, now, a) ∈ log /\ cfgs !! n = Some cf /\
    i ∈ event_iocs (with_defaults cf) (time_Add now (cf_IOCTTL (with_defaults cf))) a.
Definition held (cfgs : gmap gostring Config) (log : list (gostring * Z * Alert)) (i : IOC) : Prop :=
  exists j, extracted cfgs log j /\ (i = j \/ i = on_wire j).

Definition request_ok (cfgs : gmap gostring Config) (log : list (gostring * Z * Alert)) (r : request) : Prop :=
  rq_Path r <> gossipPath \/
  exists l b, rq_Path r = gossipPath /\ rq_Body r = Some b /\ marshal_iocs l = Some b /\ forall i, i ∈ l -> extracted cfgs log i.
Definition node_ok (cfgs : gmap gostring Config) (log : list (gostring * Z * Alert)) (n : gostring) (m : Manager) : Prop :=
  (exists cf, cfgs !! n = Some cf /\ mg_cfg m = with_defaults cf) /\ (forall i, i ∈ mg_delta m -> extracted cfgs log i) /\
  (forall k i, st_entries (mg_store m) !! k = Some i -> held cfgs log i).
Definition cluster_ok (cfgs : gmap gostring Config) (c : cluster) : Prop :=
  (forall n m, cl_nodes c !! n = Some m -> node_ok cfgs (cl_log c) n m) /\
  (forall p r, (p, r) ∈ cl_wire c -> request_ok cfgs (cl_log c) r).

Lemma extracted_more cfgs log x i : extracted cfgs log i -> extracted cfgs (log ++ [x]) i.
Proof. intros (n & now & a & cf & Hin & Hc). exists n, now, a, cf. split; [|done]. apply elem_of_app. by left. Qed.
Lemma held_more cfgs log x i : held cfgs log i -> held cfgs (log ++ [x]) i.
Proof. intros (j & Hj & Hij). exists j. split; [by apply extracted_more|done]. Qed.
Lemma node_ok_more cfgs log x n m : node_ok cfgs log n m -> node_ok cfgs (log ++ [x]) n m.
Proof. intros (Hc & Hd & He). split; [done|]. split; [intros; by apply extracted_more, Hd|intros; eapply held_more, He; done]. Qed.
Lemma request_ok_more cfgs log x r : request_ok cfgs log r -> request_ok cfgs (log ++ [x]) r.
Proof. intros [?|(l & b & ? & ? & ? & Hl)]; [by left|]. right. exists l, b. split_and!; [done..|]. intros. by apply extracted_more, Hl. Qed.

Lemma set_ok cfgs c n m : cluster_ok cfgs c -> node_ok cfgs (cl_log c) n m -> cluster_ok cfgs (set_node n m c).
Proof. intros [Hn Hw] Hm. split; [|done]. simpl. intros n' m' [[<- <-]|[_ ?]]%lookup_insert_Some; [done|by apply Hn]. Qed.

Lemma flush_ok cfgs log n m p r : node_ok cfgs log n m -> (p, r) ∈ (flushDelta m).2 -> request_ok cfgs log r.
Proof.
  intros (_ & Hd & _). simpl. rewrite elem_of_concat_map. intros (q & _ & Hr).
  apply elem_of_app in Hr as [Hr|Hr].
  - unfold PushIOCs, push in Hr. case_decide; [by apply elem_of_nil in Hr|]. destruct (marshal_iocs (mg_delta m)) as [b|] eqn:E; [|by apply elem_of_nil in Hr].
    apply list_elem_of_singleton in Hr. injection Hr as -> ->. right. exists (mg_delta m), b. done.
  - unfold PushAmplifications, push in Hr. case_decide; [by apply elem_of_nil in Hr|]. case_match; [|by apply elem_of_nil in Hr].
    apply list_elem_of_singleton in Hr. injection Hr as -> ->. by left.
Qed.

Lemma serve_ok cfgs log n m r now clk : request_ok cfgs log r -> node_ok cfgs log n m -> node_ok cfgs log n (serve now clk r m).1.
Proof.
  intros Hr (Hc & Hd & He). split; [by rewrite serve_cfg|]. split; [by rewrite serve_deltas|]. intros k i Hi.
  destruct Hr as [Hp|(l & b & Hp & Hb & Hm & Hl)]; [rewrite serve_other in Hi by done; by eapply He|].
  destruct (serve_entries now clk r b l m k i Hm Hp Hb Hi) as [?|(j & Hj & ->)]; [by eapply He|]. exists j. split; [by apply Hl|by right].
Qed.

Lemma step_ok cfgs c c' : cl_step c c' -> cluster_ok cfgs c -> cluster_ok cfgs c'.
Proof.
  intros Hs Hok. destruct Hok as [Hn Hw] eqn:Eok. clear Eok. destruct Hs as [c n m now now' clk a Hm|c n m Hm|c n m r now clk Hm Hr|c n m r now clk Hm H1 H2|c n m now now' Hm].
  - split; simpl; [|intros p r ?; apply request_ok_more; by eapply Hw].
    intros n' m' [[<- <-]|[_ ?]]%lookup_insert_Some; [|by apply node_ok_more, Hn]. destruct (Hn n m Hm) as ((cf & Hcf & Ec) & Hd & He).
    destruct (broadcast_same now' a m) as (Eb & Es & Ed).
    assert (forall i, i ∈ event_iocs (mg_cfg m) (time_Add now (cf_IOCTTL (mg_cfg m))) a -> extracted cfgs (cl_log c ++ [(n, now, a)]) i) as Hnew.
    { intros i Hi. exists n, now, a, cf. rewrite Ec in Hi. split_and!; [apply elem_of_app; right; by left|done|done]. }
    split; [exists cf; split; [done|by rewrite extract_cfg, Eb]|]. split.
    + intros i [Hi|Hi]%extract_delta; [rewrite Ed in Hi; by apply extracted_more, Hd|rewrite Eb in Hi; by apply Hnew].
    + intros k i [Hi|Hi]%extract_entries; [rewrite Es in Hi; eapply held_more, He; done|rewrite Eb in Hi; exists i; auto].
  - destruct (Hn n m Hm) as (Hc & Hd & He). split; simpl.
    + intros n' m' [[<- <-]|[_ ?]]%lookup_insert_Some; [|by apply Hn]. split; [done|]. split; [by intros i ?%elem_of_nil|done].
    + intros p r [?|?]%elem_of_app; [by eapply Hw|]. eapply (flush_ok _ _ n m); [by apply Hn|done].
  - apply set_ok; [done|]. apply serve_ok; [by eapply Hw|by apply Hn].
  - rewrite stranger_ignored by done. apply set_ok; [done|by apply Hn].
  - apply set_ok; [done|]. destruct (Hn n m Hm) as (Hc & Hd & He). split; [done|]. split; [done|]. simpl. intros k i [Hi _]%map_lookup_filter_Some. by eapply He.
Qed.

Lemma started_ok cfgs c : started cfgs c -> cluster_ok cfgs c.
Proof.
  intros (Hw & Hl & Hn). split; [|intros p r; rewrite Hw; by intros ?%elem_of_nil]. intros n m Hm. destruct (Hn n m Hm) as (tls & now & cf & Hcf & E).
  assert (mg_cfg m = with_defaults cf /\ mg_delta m = [] /\ st_entries (mg_store m) = ∅) as (Ec & Ed & Es).
  { unfold NewManager in E. cbn zeta in E. destruct (_ && bool_decide _) in E; [done|]. destruct (_ && negb tls) in E; [done|]. by injection E as <-. }
  split; [by exists cf|]. rewrite Ed, Es. split; [by intros i ?%elem_of_nil|]. intros k i Hi. by rewrite lookup_empty in Hi.
Qed.

(** Only public addresses are extracted, with a limited life. *)
Lemma event_iocs_inv c t a i : i ∈ event_iocs c t a ->
  ioc_ExpiresAt i = t /\ ioc_RuleID i = al_RuleID a /\ ioc_Source i = cf_NodeName c /\ (ioc_Type i = IOCTypeIP -> isPrivateIP (ioc_Value i) = false).
Proof.
  unfold event_iocs. rewrite elem_of_app. intros [Hi|Hi]; repeat case_match; rewrite ?list_elem_of_singleton in Hi; try (by apply elem_of_nil in Hi); subst i; split_and!; try done.
  match goal with E : _ && _ = true |- _ => apply andb_true_iff in E as [_ E]; apply negb_true_iff in E end. done.
Qed.

(** Claim C18. Provenance. In a cluster of correctly configured nodes, under
    every interleaving of alerts, pushes, deliveries (repeated, reordered or
    lost), clean-ups and requests of strangers who know no secret, every
    indicator a node holds was extracted from an alert of some node, as it
    was or as it reads after the transport; it expires at the time the
    extracting node gave it, and an address among them is public. *)
Theorem gossip_provenance cfgs c c' n m k i :
  started cfgs c -> rtc cl_step c c' -> cl_nodes c' !! n = Some m -> st_entries (mg_store m) !! k = Some i ->
  exists n' now a cf j, (n', now, a) ∈ cl_log c' /\ cfgs !! n' = Some cf /\
    j ∈ event_iocs (with_defaults cf) (time_Add now (cf_IOCTTL (with_defaults cf))) a /\ (i = j \/ i = on_wire j) /\
    ioc_ExpiresAt i = time_Add now (cf_IOCTTL (with_defaults cf)) /\ (ioc_Type j = IOCTypeIP -> isPrivateIP (ioc_Value j) = false).
Proof.
  intros Hst Hsteps Hm Hi. assert (cluster_ok cfgs c') as [Hn _].
  { apply started_ok in Hst. clear Hm. induction Hsteps as [|c1 c2 c3 Hstep _ IH]; [done|]. by apply IH, (step_ok cfgs c1). }
  destruct (Hn n m Hm) as (_ & _ & He). destruct (He k i Hi) as (j & (n' & now & a & cf & Hin & Hcf & Hj) & Hij).
  exists n', now, a, cf, j. destruct (event_iocs_inv _ _ _ _ Hj) as (Hex & _ & _ & Hp). split_and!; [done..| |done]. by destruct Hij as [-> | ->].
Qed.

(** ** Delivery *)

(** With room to spare nothing is evicted, and nothing that lives is lost. *)
Lemma Add_roomy now i s :
  store_wf s -> Z.of_nat (length (st_lru s)) < st_maxSize s ->
  (length (st_lru (Add now i s).1) <= S (length (st_lru s)))%nat /\
  (forall t k, (exists j, st_entries s !! k = Some j /\ live t j = true) -> exists j, st_entries (Add now i s).1 !! k = Some j /\ live t j = true) /\
  (validateIOC i = None -> forall t, live t i = true -> exists j, st_entries (Add now i s).1 !! key_of i = Some j /\ live t j = true).
Proof.
  intros Hwf Hlt. unfold Add. destruct (validateIOC i) eqn:Ev; [split_and!; [simpl; lia|done|done]|].
  assert (make_room now s = s) as -> by (unfold make_room, full; rewrite (proj2 (Z.leb_gt _ _) Hlt); by rewrite (proj2 (Z.leb_gt _ _) Hlt)).
  destruct (st_entries s !! key_of i) as [e|] eqn:Ee; cbn [fst st_entries st_lru].
  - assert (forall t k, (exists j, st_entries s !! k = Some j /\ live t j = true) \/ (k = key_of i /\ live t i = true) ->
      exists j, (if time_After (ioc_ExpiresAt i) (ioc_ExpiresAt e) then <[key_of i := i]> (st_entries s) else st_entries s) !! k = Some j /\ live t j = true) as Hk.
    { intros t k Hor. pose proof (live_max t i e) as Hmax. destruct (decide (k = key_of i)) as [->|Hne].
      - exists (if time_After (ioc_ExpiresAt i) (ioc_ExpiresAt e) then i else e). split; [case_match; [apply lookup_insert_eq|done]|]. rewrite Hmax.
        apply orb_true_iff. destruct Hor as [(j & Hj & Hl)|[_ Hl]]; [right; congruence|by left].
      - destruct Hor as [(j & Hj & Hl)|[? _]]; [|done]. exists j. split; [|done]. case_match; [by rewrite lookup_insert_ne|done]. }
    split_and!; [|intros t k Hj; apply Hk; by left|intros _ t Hl; apply Hk; by right].
    unfold MoveToFront. simpl. pose proof (length_filter (.≠ key_of i) (st_lru s)). lia.
  - split_and!; [simpl; lia| |].
    + intros t k (j & Hj & Hl). exists j. split; [|done]. rewrite lookup_insert_ne; [done|]. intros <-. congruence.
    + intros _ t Hl. exists i. by rewrite lookup_insert_eq.
Qed.

Lemma Merge_roomy now l s :
  store_wf s -> Z.of_nat (length (st_lru s)) + Z.of_nat (length l) <= st_maxSize s ->
  (forall t k, (exists j, st_entries s !! k = Some j /\ live t j = true) -> exists j, st_entries (Merge now l s) !! k = Some j /\ live t j = true) /\
  (forall x t, x ∈ l -> live now x.2 = true -> validateIOC x.2 = None -> live t x.2 = true ->
     exists j, st_entries (Merge now l s) !! key_of x.2 = Some j /\ live t j = true).
Proof.
  unfold Merge. revert s. induction l as [|y l IH]; intros s Hwf Hlen; simpl; [split; [done|by intros x t ?%elem_of_nil]|]. simpl in Hlen.
  destruct (Add_roomy y.1 y.2 s Hwf ltac:(lia)) as (Hl & Hkeep & Hnew). unfold merge_one at 2 4. destruct (live now y.2) eqn:El.
  - destruct (IH (Add y.1 y.2 s).1) as (IHk & IHn); [by apply Add_wf|rewrite Add_size; lia|]. split; [intros; by apply IHk, Hkeep|].
    intros x t [->|Hx]%elem_of_cons Hlx Hv Ht; [by apply IHk, Hnew|by apply IHn].
  - destruct (IH s Hwf ltac:(lia)) as (IHk & IHn). split; [done|]. intros x t [->|Hx]%elem_of_cons Hlx Hv Ht; [congruence|by apply IHn].
Qed.

Lemma flush_sends m peer b :
  peer ∈ mg_peers m -> mg_delta m <> [] -> marshal_iocs (mg_delta m) = Some b ->
  (peer, mkRequest gossipPath "POST" (cf_Secret (mg_cfg m)) (Some b)) ∈ (flushDelta m).2.
Proof.
  intros Hp Hne Hb. simpl. apply elem_of_concat_map. exists peer. split; [done|]. apply elem_of_app. left.
  unfold PushIOCs, push. rewrite decide_False, Hb by done. by left.
Qed.

(** A push brings the indicators to the peers. When a node flushes,
    each of its peers is sent the collected indicators; a peer with the same
    secret and room in its store that receives a batch within the limits
    matches every indicator of it that is valid and alive, from then on until
    it expires, and answers 204. *)
Theorem push_reaches_peer m peer b p now clk i t :
  peer ∈ mg_peers m -> i ∈ mg_delta m -> marshal_iocs (mg_delta m) = Some b -> Z.of_nat (length b) <= iocs_body_limit ->
  Z.of_nat (length (mg_delta m)) <= maxIOCsPerBatch ->
  cf_Secret (mg_cfg p) = cf_Secret (mg_cfg m) -> cf_Enabled (mg_cfg p) = true -> store_wf (mg_store p) ->
  Z.of_nat (length (st_lru (mg_store p))) + Z.of_nat (length (mg_delta m)) <= st_maxSize (mg_store p) ->
  validateIOC (on_wire i) = None -> clk 0%nat < ioc_ExpiresAt i -> t < ioc_ExpiresAt i ->
  exists r, (peer, r) ∈ (flushDelta m).2 /\ (serve now clk r p).2 = Status 204 /\
    match_type (ioc_Type (on_wire i)) t (ioc_Value (on_wire i)) (serve now clk r p).1 = true.
Proof.
  intros Hp Hi Hb Hlb Hcap Hsec Hen Hwf Hroom Hv Hc0 Ht. eexists. split; [apply flush_sends; [done|by intros E; rewrite E in Hi; apply elem_of_nil in Hi|done]|].
  unfold serve, authCheck, handleReceiveIOCs, receive. cbn [rq_Path rq_Method rq_Secret rq_Body]. rewrite (bool_decide_true (_ = cf_Secret _)) by done.
  rewrite (bool_decide_true (gossipPath = gossipPath)), (bool_decide_true ("POST" = "POST")%string) by done. cbn [orb negb]. rewrite take_ge by lia. rewrite (iocs_wire _ _ Hb), length_fmap.
  rewrite (proj2 (Z.ltb_ge _ _)) by done. cbn [fst snd]. split; [done|]. unfold match_type, MergeFromPeer. cbn [mg_cfg with_store mg_store]. rewrite Hen. simpl.
  apply list_elem_of_fmap_2 with (f := on_wire) in Hi. apply list_elem_of_lookup_1 in Hi as [n Hn].
  destruct (Merge_roomy (clk 0%nat) (imap (fun i x => (clk (S i), x)) (on_wire <$> mg_delta m)) (mg_store p) Hwf) as [_ Hnew]; [by rewrite length_imap, length_fmap|].
  destruct (Hnew (clk (S n), on_wire i) t) as (j & Hj & Hl); [apply elem_of_lookup_imap; by exists n, (on_wire i)| |done| |].
  1,2: unfold live, time_Before; simpl; by apply Z.ltb_lt.
  unfold Match. change (iocKey _ _) with (key_of (on_wire i)). simpl in Hj. by rewrite Hj.
Qed.

(** A batch over the limits is lost as a whole. If more than 10000
    indicators were collected, or their text exceeds 4 MiB, the flush empties
    the list and every peer refuses the request and keeps its state: none of
    the indicators ever reaches a peer. *)
Theorem oversized_batch_lost m b p peer now clk r :
  marshal_iocs (mg_delta m) = Some b -> maxIOCsPerBatch < Z.of_nat (length (mg_delta m)) \/ iocs_body_limit < Z.of_nat (length b) ->
  (peer, r) ∈ (flushDelta m).2 -> rq_Path r = gossipPath ->
  mg_delta (flushDelta m).1 = [] /\ (serve now clk r p).1 = p /\ exists code, (serve now clk r p).2 = Status code /\ 400 <= code.
Proof.
  intros Hb Hbig Hr Hpath. split; [done|]. simpl in Hr. apply elem_of_concat_map in Hr as (q & _ & Hr). apply elem_of_app in Hr as [Hr|Hr].
  2: { unfold PushAmplifications, push in Hr. case_decide; [by apply elem_of_nil in Hr|]. case_match; [|by apply elem_of_nil in Hr].
       apply list_elem_of_singleton in Hr. by injection Hr as -> ->. }
  unfold PushIOCs, push in Hr. case_decide; [by apply elem_of_nil in Hr|]. rewrite Hb in Hr. apply list_elem_of_singleton in Hr. injection Hr as -> ->.
  unfold serve, handleReceiveIOCs, receive. cbn [rq_Path rq_Method rq_Secret rq_Body].
  rewrite (bool_decide_true (gossipPath = gossipPath)), (bool_decide_true ("POST" = "POST")%string) by done.
  destruct (authCheck _ _ _); cbn [negb]; [|split; [done|exists 401; split; [done|lia]]].
  destruct (decide (length b <= Z.to_nat iocs_body_limit)%nat) as [Hle|Hgt].
  - rewrite take_ge, (iocs_wire _ _ Hb), length_fmap by done. destruct Hbig as [Hbig|?]; [|assert (0 <= iocs_body_limit) by done; lia]. rewrite (proj2 (Z.ltb_lt _ _)) by done.
    split; [done|]. exists 413. split; [done|lia].
  - rewrite (iocs_cut _ _ _ Hb) by lia. split; [done|]. exists 400. split; [done|lia].
Qed.
End cluster.

(** ** The matcher in the engine *)
Section renewal.
Context `{W : Wire, L : !EngineLib} (cfg : settings) (out : outside).

(** The interface of the engine, implemented by the manager at one time. *)
Definition matcher (now : Z) (m : Manager) : IOCMatcher :=
  mkIOC (fun ip => Node.MatchIP now ip m) (fun d => Node.MatchDNS now d m).

(** What a computation of the engine can return. *)
Definition yields {A} (m : M A) (Q : A -> Prop) : Prop := forall ce ce' a, m ce = Ok (ce', a) -> Q a.
Lemma yields_ret {A} (a : A) (Q : A -> Prop) : Q a -> yields (mret a) Q.
Proof. intros Ha ce ce' a' [= _ <-]. done. Qed.
Lemma yields_bind {A B} (m : M A) (f : A -> M B) (P : A -> Prop) (Q : B -> Prop) :
  yields m P -> (forall a, P a -> yields (f a) Q) -> yields (m ≫= f) Q.
Proof.
  intros Hm Hf ce ce' b. unfold mbind, M_bind. destruct (m ce) as [[ce1 a]| |] eqn:E; [|done..]. intros Hb. eapply Hf; [by eapply Hm|done].
Qed.
Lemma yields_any {A B} (m : M A) (f : A -> M B) (Q : B -> Prop) : (forall a, yields (f a) Q) -> yields (m ≫= f) Q.
Proof. intros Hf. by eapply (yields_bind m f (fun _ => True)). Qed.

(** The fields of an alert the manager reads. *)
Definition about_event (e : Event) (a : Alert) : Prop := al_Event a = e /\ al_Fingerprint a = ""%string /\ al_RuleID a = "gossip_ioc_match"%string.

Lemma ioc_alert_about e start now m :
  cfg_iocMatcher cfg = Some (matcher now m) ->
  yields (ioc_alert cfg out e start) (fun l => l = [] \/ (is_Some (ioc_indicator (matcher now m) e) /\ exists a, l = [a] /\ about_event e a)).
Proof.
  intros Hc. unfold ioc_alert. rewrite Hc. unfold checkIOCMatch. destruct (ioc_indicator (matcher now m) e) as [ind|].
  2: { eapply (yields_bind _ _ (fun r => r = None)); [by apply yields_ret|]. intros ? ->. apply yields_ret. by left. }
  eapply (yields_bind _ _ (fun r => exists a, r = Some a /\ about_event e a)).
  - apply yields_any. intros seq. eapply (yields_bind _ _ (about_event e)).
    + assert (forall t a, about_event e a -> yields (add_trace out e t a) (about_event e)) as Ht.
      { intros t a Ha. unfold add_trace. destruct (ev_TraceContext e); [by apply yields_ret|]. apply yields_any. intros r. apply yields_ret. by destruct r. }
      destruct (ev_TraceContext e); [by apply Ht|]. apply yields_any. intros t. by apply Ht.
    + intros a Ha. apply yields_ret. eexists. split; [reflexivity|]. unfold add_enrichment. by destruct (ev_Enrichment e).
  - intros r (a & -> & Ha). eapply (yields_bind _ _ (about_event e)).
    { unfold add_tree. apply yields_any. intros tree. by apply yields_ret. }
    clear a Ha. intros a Ha. eapply (yields_bind _ _ (about_event e)).
    { unfold add_context. destruct (cfg_enableEventBuffer cfg); [|by apply yields_ret]. apply yields_any. intros ctx. by apply yields_ret. }
    clear a Ha. intros a Ha. eapply (yields_bind _ _ (fun r => r = None \/ r = Some a)).
    { unfold accept_alert. apply yields_any. intros isDup. destruct isDup; [do 2 (apply yields_any; intros _); apply yields_ret; by left|].
      apply yields_any. intros b. apply yields_any. intros g. destruct g; [do 2 (apply yields_any; intros _); apply yields_ret; by right|].
      apply yields_any. intros _. apply yields_ret. by left. }
    intros r [->| ->]; apply yields_ret; [by left|right]. split; [done|]. by exists a.
Qed.

(** The destination or the queried name of the event can be shared. *)
Definition shareable (c : Config) (e : Event) : Prop :=
  str_len (cf_NodeName c) <= maxIOCSourceLen /\
  match ev_Network e, ev_DNS e with
  | Some n, _ => ev_Type e = EventTCPConnect /\ (4 <= length (net_Daddr n))%nat /\
      let ip := FormatIP (net_Daddr n) (net_Family n) in
      is_Some (ParseIP ip) /\ isPrivateIP ip = false /\ ip <> ""%string /\ str_len ip <= maxIOCValueLen
  | None, Some d => ev_Type e = EventDNS /\ dns_QName d <> ""%string /\ str_len (dns_QName d) <= maxIOCValueLen
  | None, None => False
  end.

(** The type and the value the event is looked up with. *)
Definition event_key (e : Event) : gostring * gostring :=
  match ev_Network e, ev_DNS e with
  | Some n, _ => (IOCTypeIP, FormatIP (net_Daddr n) (net_Family n))
  | None, Some d => (IOCTypeDNS, dns_QName d)
  | None, None => (""%string, ""%string)
  end.

Lemma shareable_indicator c e now m : shareable c e ->
  is_Some (ioc_indicator (matcher now m) e) <-> match_type (event_key e).1 now (event_key e).2 m = true.
Proof.
  intros [_ Hs]. unfold ioc_indicator, event_key. destruct (ev_Network e) as [n|], (ev_DNS e) as [d|]; try done.
  1,2: destruct Hs as (-> & _); simpl; unfold Node.MatchIP; destruct (match_type _ _ _ _); split; try done; by intros [? ?].
  destruct Hs as (-> & _). simpl. unfold Node.MatchDNS. destruct (match_type _ _ _ _); split; try done; by intros [? ?].
Qed.

Lemma FormatIP_16 addr family : (4 <= length addr)%nat -> FormatIP16 addr family = FormatIP addr family.
Proof. intros Hl. unfold FormatIP16, FormatIP. case_match; [done|]. rewrite (proj2 (Z.ltb_ge _ _)) by lia. done. Qed.

Lemma shareable_batch c e a t : shareable c e -> about_event e a ->
  let i := mkIndicator (event_key e).1 (event_key e).2 (cf_NodeName c) (al_RuleID a) (al_Severity a) t in
  event_iocs c t a = [i] /\ validateIOC i = None.
Proof.
  intros [Hn Hs] (He & Hf & _). unfold event_iocs, event_key, validateIOC. cbn [ioc_Type ioc_Value ioc_Source]. rewrite He, Hf.
  rewrite (bool_decide_true (""%string = ""%string)) by done. rewrite app_nil_r.
  destruct (ev_Network e) as [n|]; [|destruct (ev_DNS e) as [d|]; [|done]].
  - destruct Hs as (-> & Hl & Hp & Hpr & Hne & Hlen). cbn [Z.eqb EventTCPConnect]. rewrite FormatIP_16 by done. simpl fst. simpl snd.
    rewrite bool_decide_true, Hpr, (bool_decide_false _ Hne), !(proj2 (Z.ltb_ge _ _)) by done. done.
  - destruct Hs as (-> & Hne & Hlen). simpl. rewrite (bool_decide_false _ Hne), !(proj2 (Z.ltb_ge _ _)) by done. done.
Qed.

(** An indicator that matches renews itself. When the engine raises
    an alert because an event matches an indicator the manager holds, the
    forwarding of that alert makes the manager extract the same indicator
    again: it then matches the event for a whole life time from that moment,
    and it is queued for the peers anew. While the traffic goes on it never
    expires. *)
Theorem ioc_renews_itself m e start ce ce' alerts a now now1 now2 clk t :
  cfg_iocMatcher cfg = Some (matcher now m) -> ioc_alert cfg out e start ce = Ok (ce', alerts) -> a ∈ alerts ->
  shareable (mg_cfg m) e -> t < time_Add now2 (cf_IOCTTL (mg_cfg m)) ->
  let m' := ExtractFromAlert now2 clk a (BroadcastAlert now1 a m) in
  is_Some (ioc_indicator (matcher t m') e) /\
  exists i, mg_delta m' = mg_delta m ++ [i] /\ (ioc_Type i, ioc_Value i) = event_key e /\ ioc_ExpiresAt i = time_Add now2 (cf_IOCTTL (mg_cfg m)).
Proof.
  intros Hc Hrun Hin Hsh Ht m'. destruct (ioc_alert_about e start now m Hc _ _ _ Hrun) as [->|(Hmatch & a' & -> & Ha)]; [by apply elem_of_nil in Hin|].
  apply list_elem_of_singleton in Hin as ->. rewrite (shareable_indicator (mg_cfg m)) in Hmatch |- * by done. unfold match_type in Hmatch.
  apply andb_true_iff in Hmatch as [Hen Hmatch]. subst m'. destruct (broadcast_same now1 a' m) as (Ec & Es & Ed). set (m1 := BroadcastAlert now1 a' m) in *.
  destruct (shareable_batch (mg_cfg m) e a' (time_Add now2 (cf_IOCTTL (mg_cfg m))) Hsh Ha) as [Hb Hv]. unfold ExtractFromAlert. rewrite Ec, Hen, Hb. cbn [negb].
  rewrite decide_False by done. split; [|eexists; cbn [mg_delta with_deltas]; rewrite Ed; split; [reflexivity|]; by destruct (event_key e)].
  unfold match_type. cbn [mg_cfg with_deltas with_store mg_store]. rewrite Ec, Hen. simpl. unfold add_all. simpl. rewrite Es. unfold Add. rewrite Hv.
  unfold Match in Hmatch |- *. change (key_of _) with (iocKey (event_key e).1 (event_key e).2).
  destruct (st_entries (mg_store m) !! iocKey _ _) as [i0|] eqn:E0; [|done]. cbn [fst st_entries ioc_ExpiresAt].
  unfold time_After, time_Before in *. destruct (Z.ltb_spec (ioc_ExpiresAt i0) (time_Add now2 (cf_IOCTTL (mg_cfg m)))); zbool.
  - rewrite lookup_insert_eq. by apply Z.ltb_lt.
  - rewrite E0. apply Z.ltb_lt. lia.
Qed.
End renewal.

(** ** Examples *)
#[export] Instance IOC_eq_dec : EqDecision IOC.
Proof. solve_decision. Defined.
#[export] Instance IOC_countable : Countable IOC.
Proof.
  refine (inj_countable' (fun i => (ioc_Type i, ioc_Value i, ioc_Source i, ioc_RuleID i, ioc_Severity i, ioc_ExpiresAt i))
    (fun '(t, v, s, r, sev, x) => mkIndicator t v s r sev x) _). by intros [].
Defined.

Module Example_gossip.
#[local] Existing Instance sample_lib.
Import EngineCorrect.Example_engine.
#[local] Existing Instance sample_engine.

(** A code that ends with a mark, in place of JSON. *)
Fixpoint pos_bytes (p : positive) : list byte :=
  match p with xH => [Byte.x02] | xO p => Byte.x00 :: pos_bytes p | xI p => Byte.x01 :: pos_bytes p end.
Fixpoint bytes_pos (b : list byte) : option positive :=
  match b with
  | [Byte.x02] => Some xH
  | Byte.x00 :: b => xO <$> bytes_pos b
  | Byte.x01 :: b => xI <$> bytes_pos b
  | _ => None
  end.
Lemma bytes_pos_bytes p : bytes_pos (pos_bytes p) = Some p.
Proof. induction p as [p IH|p IH|]; simpl; [by rewrite IH..|done]. Qed.
Lemma bytes_pos_cut p n : (n < length (pos_bytes p))%nat -> bytes_pos (take n (pos_bytes p)) = None.
Proof. revert n. induction p as [p IH|p IH|]; intros [|n] Hn; simpl in *; try done; [by rewrite IH by lia..|lia]. Qed.

#[local] Instance sample_wire : Wire := {|
  IsLoopback := String.prefix "127."; IsLinkLocalUnicast := String.prefix "169.254."; IsLinkLocalMulticast _ := false;
  url_Host s := Some s;
  marshal_iocs l := Some (pos_bytes (encode (on_wire <$> l))); unmarshal_iocs b := p ← bytes_pos b; decode p;
  marshal_amps _ := None; unmarshal_amps _ := None |}.
#[local] Instance sample_laws : WireLaws.
Proof.
  split.
  - intros l b [= <-]. simpl. rewrite bytes_pos_bytes. simpl. apply decode_encode.
  - intros l b n [= <-] Hn. simpl. by rewrite bytes_pos_cut.
Qed.

Lemma set_length (l : list gostring) : (size (list_to_set l : gset gostring) <= length l)%nat.
Proof.
  induction l as [|x l IH]; [done|]. simpl list_to_set. rewrite size_union_alt, size_singleton. simpl.
  assert (size ((list_to_set l : gset gostring) ∖ {[x]}) <= size (list_to_set l : gset gostring))%nat; [|lia]. apply subseteq_size, subseteq_difference_l. done.
Qed.
Lemma omap_length {A B} (f : A -> option B) l : (length (omap f l) <= length l)%nat.
Proof.
  induction l as [|x l IH]; [done|]. change (omap f (x :: l)) with (match f x with Some y => y :: omap f l | None => omap f l end).
  cbn [length]. destruct (f x); cbn [length]; lia.
Qed.
Lemma fits_short cap h : Z.of_nat (length h) <= cap -> fits cap h.
Proof.
  intros Hc pre now i post -> _. rewrite length_app in Hc. simpl in Hc. rewrite size_union_alt, size_singleton.
  assert (size (live_keys now (known pre) ∖ {[key_of i]}) <= size (live_keys now (known pre)))%nat by (by apply subseteq_size, subseteq_difference_l).
  assert (size (live_keys now (known pre)) <= length (filter (fun i => live now i = true) (known pre)))%nat as Hl
    by (unfold live_keys; etransitivity; [apply set_length|by rewrite length_fmap]).
  pose proof (length_filter (fun i => live now i = true) (known pre)). pose proof (length_filter (fun i => validateIOC i = None) (omap snd pre)).
  pose proof (omap_length snd pre). change (known pre) with (filter (fun i => validateIOC i = None) (omap snd pre)) in *. lia.
Qed.

Definition ioc (v : gostring) (x : Z) : IOC := mkIndicator IOCTypeDNS v "n1" "r" "critical" x.
Definition merges : list store_op := [OAdd 0 (ioc "a.example" 9); OMerge 1 [(1, ioc "b.example" 20); (2, ioc "a.example" 5)]; OClean 10].

(** The renewed indicator lives, the other one has been cleaned up. *)
Lemma ioc_store_exact_witness :
  Match 12 IOCTypeDNS "b.example" (foldl apply_op (NewIOCStore 5 0) merges) = true /\
  Match 12 IOCTypeDNS "a.example" (foldl apply_op (NewIOCStore 5 0) merges) = false.
Proof.
  assert (forall v, Match 12 IOCTypeDNS v (foldl apply_op (NewIOCStore 5 0) merges) = true <->
    exists i, i ∈ known (history merges) /\ ioc_Type i = IOCTypeDNS /\ ioc_Value i = v /\ 12 < ioc_ExpiresAt i) as Hex.
  { intros v. apply ioc_store_exact; [apply fits_short; vm_compute; discriminate| |vm_compute; repeat constructor; discriminate|right; left].
    vm_compute. repeat constructor; discriminate. }
  split; [apply Hex; exists (ioc "b.example" 20); split_and!; [vm_compute; right; left|reflexivity|reflexivity|reflexivity]|].
  vm_compute. reflexivity.
Defined.

Definition signal (source : gostring) (mult x : Z) : Amp.AmplificationSignal := Amp.mkSignal "prod" "r" "critical" source mult x "".

Lemma amplification_lowest_witness :
  let l := [signal "n1" 300 50; signal "n2" 700 50; signal "n1" 600 50; signal "n3" 100 5] in
  let s := foldl (fun s x => Amp.Add x s) (Amp.newAmplificationStore 0) l in
  Amp.GetThresholdMultiplier 10 "prod" s = 600 /\ forall x, Amp.latest l x -> Amp.am_Namespace x = "prod"%string -> 10 < Amp.am_ExpiresAt x ->
    float_lt (Amp.am_ThresholdMultiplier x) (600 : Float) = false.
Proof.
  intros l s. split; [vm_compute; reflexivity|].
  assert (Amp.number_order) as Ho.
  { split_and!; intros; unfold Amp.number, float_lt, float_gt, float_ge in *; cbn [sample_lib] in *; rewrite ?Z.gtb_ltb in *; zbool; apply Z.ltb_ge || idtac; lia. }
  destruct (amplification_lowest 0 10 "prod" l Ho) as (_ & _ & B); [reflexivity|repeat constructor|discriminate|].
  intros x ? ? ?. by apply (B x).
Defined.

(** Two nodes; the first one sees a suspicious name. *)
Definition conf (name : gostring) (peers : list gostring) : Config := mkConfig true name "s3cret" "" 0 peers (100 * Second) 50 0 false 0.
Definition n1 : gostring := "http://n1".
Definition n2 : gostring := "http://n2".
Definition cfgs : gmap gostring Config := <[n1 := conf "n1" [n2]]> {[n2 := conf "n2" [n1]]}.
Definition boot (cf : Config) : Manager := match NewManager true 0 cf with inr m => m | inl _ => mkManager cf 0 (NewIOCStore 1 1) (Amp.newAmplificationStore 1) [] [] [] end.
Definition lookup_event (name : gostring) : Event :=
  mkEvent EventDNS 5 7 7 1 0 (string_bytes "sh") (zeros 16) None None None None (Some (mkDNSEvent name 1 0 0 [])) None None None None None None
    None None None None None ""%string false.
Definition suspicious : Alert := mkAlert "id" 5 "dns_tunnel" "n" "critical" 7 "sh" "m" "" "" None empty_enrichment (lookup_event "evil.example") [] "" "" false [] 0 0 0 "".
Definition begin : cluster := mkCluster (<[n1 := boot (conf "n1" [n2])]> {[n2 := boot (conf "n2" [n1])]}) [] [].
Definition seen : Manager := ExtractFromAlert 3 (fun _ => 3) suspicious (BroadcastAlert 3 suspicious (boot (conf "n1" [n2]))).
Definition after : cluster := mkCluster (<[n1 := seen]> (cl_nodes begin)) [] [(n1, 3, suspicious)].

Lemma boot_ok name peers : NewManager true 0 (conf name peers) = inr (boot (conf name peers)).
Proof. reflexivity. Qed.
Lemma begin_started : started cfgs begin.
Proof.
  split; [done|]. split; [done|]. intros n m. unfold begin. cbn [cl_nodes]. intros [[<- <-]|[Hne [<- <-]%lookup_singleton_Some]]%lookup_insert_Some.
  - exists true, 0, (conf "n1" [n2]). split; [apply lookup_insert_eq|apply boot_ok].
  - exists true, 0, (conf "n2" [n1]). split; [unfold cfgs; by rewrite lookup_insert_ne, lookup_singleton_eq|apply boot_ok].
Qed.

Lemma gossip_provenance_witness : exists i, st_entries (mg_store seen) !! iocKey IOCTypeDNS "evil.example" = Some i /\
  exists n' now a cf j, (n', now, a) ∈ cl_log after /\ cfgs !! n' = Some cf /\
    j ∈ event_iocs (with_defaults cf) (time_Add now (cf_IOCTTL (with_defaults cf))) a /\ (i = j \/ i = on_wire j) /\
    ioc_ExpiresAt i = time_Add now (cf_IOCTTL (with_defaults cf)) /\ (ioc_Type j = IOCTypeIP -> isPrivateIP (ioc_Value j) = false).
Proof.
  eexists. split; [vm_compute; reflexivity|].
  apply (gossip_provenance cfgs begin after n1 seen (iocKey IOCTypeDNS "evil.example")).
  - exact begin_started.
  - apply rtc_once, (step_alert begin n1 (boot (conf "n1" [n2])) 3 3 (fun _ => 3) suspicious). unfold begin. cbn [cl_nodes]. apply lookup_insert_eq.
  - unfold after. cbn [cl_nodes]. apply lookup_insert_eq.
  - vm_compute. reflexivity.
Defined.

Lemma push_reaches_peer_witness : exists r, (n2, r) ∈ (flushDelta seen).2 /\
  (serve 4 (fun _ => 4) r (boot (conf "n2" [n1]))).2 = Status 204 /\
  match_type IOCTypeDNS (50 * Second) "evil.example" (serve 4 (fun _ => 4) r (boot (conf "n2" [n1]))).1 = true.
Proof.
  set (i := mkIndicator IOCTypeDNS "evil.example" "n1" "dns_tunnel" "critical" (time_Add 3 (100 * Second))).
  apply (push_reaches_peer seen n2 (pos_bytes (encode (on_wire <$> mg_delta seen))) (boot (conf "n2" [n1])) 4 (fun _ => 4) i (50 * Second)).
  - left.
  - left.
  - reflexivity.
  - vm_compute. discriminate.
  - vm_compute. discriminate.
  - reflexivity.
  - reflexivity.
  - apply new_wf.
  - vm_compute. discriminate.
  - vm_compute. reflexivity.
  - vm_compute. reflexivity.
  - vm_compute. reflexivity.
Defined.

(** Ten thousand and one indicators are one too many. *)
Definition flooded : Manager := with_deltas (replicate (Z.to_nat 10001) (ioc "a.example" 9)) [] (boot (conf "n1" [n2])).
Lemma oversized_batch_lost_witness : exists r, (n2, r) ∈ (flushDelta flooded).2 /\ mg_delta (flushDelta flooded).1 = [] /\
  (serve 4 (fun _ => 4) r (boot (conf "n2" [n1]))).1 = boot (conf "n2" [n1]).
Proof.
  set (b := pos_bytes (encode (on_wire <$> mg_delta flooded))).
  assert (marshal_iocs (mg_delta flooded) = Some b) as Hb by reflexivity.
  assert (maxIOCsPerBatch < Z.of_nat (length (mg_delta flooded))) as Hbig.
  { unfold flooded. cbn [mg_delta with_deltas]. rewrite length_replicate, Z2Nat.id by lia. reflexivity. }
  exists (mkRequest gossipPath "POST" "s3cret" (Some b)).
  assert ((n2, mkRequest gossipPath "POST" "s3cret" (Some b)) ∈ (flushDelta flooded).2) as Hin.
  { apply (flush_sends flooded); [left| |exact Hb]. intros E. rewrite E in Hbig. discriminate Hbig. }
  split; [exact Hin|].
  destruct (oversized_batch_lost flooded b (boot (conf "n2" [n1])) n2 4 (fun _ => 4) _ Hb (or_introl Hbig) Hin eq_refl) as (Hd & Hp & _).
  split; [exact Hd|exact Hp].
Defined.

(** The second node of the cluster looks the name up and alerts. *)
Definition engine_conf : CorrelationEngineConfig :=
  mkEngineConfig [] 100 true false 0 true (60 * Second) 10 false 0 0 None None None None true 0 10 true 0 0 None None.
Definition settings_with (m : Manager) : settings :=
  let c := engine_settings engine_conf in
  mkSettings (cfg_enableEventBuffer c) (cfg_enableAnomaly c) (cfg_enableDedup c) (cfg_globalLimiterEnabled c) (cfg_enforceCooldown c)
    (cfg_enforceQueueSize c) (cfg_actionExecutor c) (cfg_rego c) (cfg_regoQueueSize c) (Some (matcher Second m)) (cfg_sensitivity c) (cfg_baseAnomalyThreshold c).

Definition informed : Manager := with_store (Add 2 (ioc "evil.example" (2 * Second)) (mg_store (boot (conf "n2" [n1])))).1 (boot (conf "n2" [n1])).
Definition renewed (a : Alert) : Manager := ExtractFromAlert Second (fun _ => Second) a (BroadcastAlert Second a informed).

(** The indicator would have expired after two seconds. *)
Lemma ioc_renews_itself_witness : exists ce' a,
  ioc_alert (settings_with informed) (at_time Second) (lookup_event "evil.example") Second (fresh engine_conf) = Ok (ce', [a]) /\
  is_Some (ioc_indicator (matcher (90 * Second) (renewed a)) (lookup_event "evil.example")).
Proof.
  assert (match ioc_alert (settings_with informed) (at_time Second) (lookup_event "evil.example") Second (fresh engine_conf) with
    | Ok (_, [_]) => true | _ => false end = true) as G by (vm_compute; reflexivity).
  destruct (ioc_alert (settings_with informed) (at_time Second) (lookup_event "evil.example") Second (fresh engine_conf)) as [[ce' [|a [|? ?]]]| |] eqn:E; try discriminate G.
  exists ce', a. split; [reflexivity|].
  destruct (ioc_renews_itself (settings_with informed) (at_time Second) informed (lookup_event "evil.example") Second (fresh engine_conf) ce' [a] a
    Second Second Second (fun _ => Second) (90 * Second)) as [Hm _].
  - reflexivity.
  - exact E.
  - left.
  - split; [vm_compute; discriminate|]. split; [reflexivity|]. split; [discriminate|vm_compute; discriminate].
  - vm_compute. reflexivity.
  - exact Hm.
Defined.
End Example_gossip.
