(* ===== verification/BatchStore.v ===== *)
(** * The batching alert store

    Models src/internal/store/batching.go: a decorator that queues alerts in a
    channel and hands them to an inner store in batches, as a step relation
    over all interleavings of its callers, its flush loop and its tickers.
    The inner store is not modelled: each call of its [StoreBatch] or [Flush]
    returns any result, and [bs_calls] records the calls. Each iteration of a
    draining loop is a step of its own, so callers can interleave with it; a
    call of [StoreBatch] with several alerts is several steps. A caller whose
    context ends just stops waiting. Theorems: no accepted alert is lost but
    those of a failed flush; what an answered [Flush] guarantees and that it
    can be answered; and the three ways in which it does not hold after
    [Close]. *)
From AAC_tactics Require Import AAC.
From AAC_tactics Require Instances.
Import Instances.Lists.
From S2P Require Import Prelude Types.

(** Rewriting lists of alerts up to the order of their parts. *)
#[local] Instance perm_lift A : AAC.AAC_lift (@Permutation A) (@Permutation A).
Proof. constructor; [apply _|]. intros x y E x' y' E'. by rewrite E, E'. Qed.
Ltac perm :=
  repeat match goal with |- context [?x :: ?l] => lazymatch l with [] => fail | _ => change (x :: l) with ([x] ++ l) end end; aac_reflexivity.

Record BatchingStoreConfig := mkBatchConfig { bc_BatchSize : Z; bc_FlushInterval : Z; bc_MaxBuffer : Z }.
Definition withDefaults (c : BatchingStoreConfig) : BatchingStoreConfig :=
  let size := if bc_BatchSize c <=? 0 then 100 else bc_BatchSize c in
  mkBatchConfig size (if bc_FlushInterval c <=? 0 then 500000000 else bc_FlushInterval c)
    (if bc_MaxBuffer c <=? 0 then size * 10 else bc_MaxBuffer c).

(** Where the flush loop is: at its [select], in the request it serves (with
    the error so far), in the final drain, or gone. *)
Variant loop := Selecting | Serving (id : nat) (err : option gostring) | Closing | Stopped.

(** The fields of [BatchingStore] and the local variables of its goroutines:
    [bs_batch] of the loop, [bs_drains] of the callers that drain by
    themselves. The answers are the values sent to the callers of [Flush],
    by call. The last three fields record the run: the alerts offered that
    fitted the queue, those a failed flush threw away, and the number offered. *)
Record BatchingStore := mkBatching {
  bs_queue : list Alert; bs_batch : list Alert; bs_loop : loop; bs_closed : bool; bs_requests : list nat;
  bs_drains : gmap nat (list Alert); bs_calls : list (list Alert * option gostring); bs_answers : gmap nat (option gostring);
  bs_dropped : Z; bs_accepted : list Alert; bs_lost : list Alert; bs_offered : Z }.

Definition NewBatchingStore : BatchingStore := mkBatching [] [] Selecting false [] ∅ [] ∅ 0 [] [] 0.

Section store.
Context (c : BatchingStoreConfig).
Definition batchSize : Z := bc_BatchSize (withDefaults c).
Definition maxBuffer : Z := bc_MaxBuffer (withDefaults c).

Definition offer (a : Alert) (s : BatchingStore) : BatchingStore :=
  if Z.of_nat (length (bs_queue s)) <? maxBuffer then
    mkBatching (bs_queue s ++ [a]) (bs_batch s) (bs_loop s) (bs_closed s) (bs_requests s) (bs_drains s) (bs_calls s) (bs_answers s)
      (bs_dropped s) (bs_accepted s ++ [a]) (bs_lost s) (bs_offered s + 1)
  else
    mkBatching (bs_queue s) (bs_batch s) (bs_loop s) (bs_closed s) (bs_requests s) (bs_drains s) (bs_calls s) (bs_answers s)
      (bs_dropped s + 1) (bs_accepted s) (bs_lost s) (bs_offered s + 1).

(** The loop receives the alert at the head of the queue. *)
Definition receive_one (a : Alert) (q : list Alert) (s : BatchingStore) : BatchingStore :=
  mkBatching q (bs_batch s ++ [a]) (bs_loop s) (bs_closed s) (bs_requests s) (bs_drains s) (bs_calls s) (bs_answers s)
    (bs_dropped s) (bs_accepted s) (bs_lost s) (bs_offered s).

Definition set_loop (l : loop) (s : BatchingStore) : BatchingStore :=
  mkBatching (bs_queue s) (bs_batch s) l (bs_closed s) (bs_requests s) (bs_drains s) (bs_calls s) (bs_answers s)
    (bs_dropped s) (bs_accepted s) (bs_lost s) (bs_offered s).

(** [inner.StoreBatch(batch); batch = batch[:0]] with the result [err], when
    there is a batch. *)
Definition hand_over (err : option gostring) (s : BatchingStore) : BatchingStore :=
  match bs_batch s with
  | [] => s
  | _ => mkBatching (bs_queue s) [] (bs_loop s) (bs_closed s) (bs_requests s) (bs_drains s) (bs_calls s ++ [(bs_batch s, err)]) (bs_answers s)
           (bs_dropped s) (bs_accepted s) (bs_lost s) (bs_offered s)
  end.
Definition had_batch (err : option gostring) (s : BatchingStore) : option gostring := match bs_batch s with [] => None | _ => err end.

(** The batch is emptied without a call. *)
Definition throw_away (s : BatchingStore) : BatchingStore :=
  mkBatching (bs_queue s) [] (bs_loop s) (bs_closed s) (bs_requests s) (bs_drains s) (bs_calls s) (bs_answers s)
    (bs_dropped s) (bs_accepted s) (bs_lost s ++ bs_batch s) (bs_offered s).

Definition answer (id : nat) (err : option gostring) (s : BatchingStore) : BatchingStore :=
  mkBatching (bs_queue s) (bs_batch s) (bs_loop s) (bs_closed s) (bs_requests s) (bs_drains s) (bs_calls s) (<[id := err]> (bs_answers s))
    (bs_dropped s) (bs_accepted s) (bs_lost s) (bs_offered s).
Definition set_requests (r : list nat) (s : BatchingStore) : BatchingStore :=
  mkBatching (bs_queue s) (bs_batch s) (bs_loop s) (bs_closed s) r (bs_drains s) (bs_calls s) (bs_answers s)
    (bs_dropped s) (bs_accepted s) (bs_lost s) (bs_offered s).
Definition set_closed (s : BatchingStore) : BatchingStore :=
  mkBatching (bs_queue s) (bs_batch s) (bs_loop s) true (bs_requests s) (bs_drains s) (bs_calls s) (bs_answers s)
    (bs_dropped s) (bs_accepted s) (bs_lost s) (bs_offered s).
Definition set_drain (q : list Alert) (d : gmap nat (list Alert)) (s : BatchingStore) : BatchingStore :=
  mkBatching q (bs_batch s) (bs_loop s) (bs_closed s) (bs_requests s) d (bs_calls s) (bs_answers s)
    (bs_dropped s) (bs_accepted s) (bs_lost s) (bs_offered s).

(** The [case a := <-s.queue] of the loop. *)
Definition loop_take (a : Alert) (q : list Alert) (err : option gostring) (s : BatchingStore) : BatchingStore :=
  let s := receive_one a q s in
  if batchSize <=? Z.of_nat (length (bs_batch s)) then hand_over err s else s.

(** The [case respCh := <-s.flushReqCh]: its start and, with the queue empty,
    its end; [err2] is the result of [inner.Flush]. *)
Definition serve_begin (id : nat) (rest : list nat) (err : option gostring) (s : BatchingStore) : BatchingStore :=
  set_loop (Serving id (had_batch err s)) (set_requests rest (hand_over err s)).
Definition serve_end (id : nat) (err err1 err2 : option gostring) (s : BatchingStore) : BatchingStore :=
  let res := match err with Some _ => err | None => match had_batch err1 s with Some e => Some e | None => err2 end end in
  set_loop Selecting (answer id res (match err with Some _ => throw_away s | None => hand_over err1 s end)).

(** The caller of [Flush] that found the store closed: [drainQueue] with the
    queue empty, then [inner.Flush]. *)
Definition drain_end (id : nat) (batch : list Alert) (err1 err2 : option gostring) (s : BatchingStore) : BatchingStore :=
  let res := match batch with [] => err2 | _ => match err1 with Some _ => err1 | None => err2 end end in
  answer id res
    (mkBatching (bs_queue s) (bs_batch s) (bs_loop s) (bs_closed s) (bs_requests s) (delete id (bs_drains s))
       (bs_calls s ++ match batch with [] => [] | _ => [(batch, err1)] end) (bs_answers s) (bs_dropped s) (bs_accepted s) (bs_lost s) (bs_offered s)).

(** The call [id] of [Flush] is new. *)
Definition fresh_call (id : nat) (s : BatchingStore) : Prop :=
  (id ∉ bs_requests s) /\ bs_drains s !! id = None /\ bs_answers s !! id = None /\ (forall err, bs_loop s <> Serving id err).

Inductive bs_step : BatchingStore -> BatchingStore -> Prop :=
| bs_store s a : bs_step s (offer a s)
| bs_take s a q err : bs_loop s = Selecting -> bs_queue s = a :: q -> bs_step s (loop_take a q err s)
| bs_tick s err : bs_loop s = Selecting -> bs_step s (hand_over err s)
| bs_serve s id rest err : bs_loop s = Selecting -> bs_requests s = id :: rest -> bs_step s (serve_begin id rest err s)
| bs_serve_take s id err a q : bs_loop s = Serving id err -> bs_queue s = a :: q -> bs_step s (receive_one a q s)
| bs_serve_end s id err err1 err2 : bs_loop s = Serving id err -> bs_queue s = [] -> bs_step s (serve_end id err err1 err2 s)
| bs_see_closed s : bs_loop s = Selecting -> bs_closed s = true -> bs_step s (set_loop Closing s)
| bs_close_take s a q : bs_loop s = Closing -> bs_queue s = a :: q -> bs_step s (receive_one a q s)
| bs_close_end s err : bs_loop s = Closing -> bs_queue s = [] -> bs_step s (set_loop Stopped (hand_over err s))
| bs_close s : bs_closed s = false -> bs_step s (set_closed s)
| bs_request s id : fresh_call id s -> bs_requests s = [] -> bs_step s (set_requests [id] s)
| bs_drain_begin s id : fresh_call id s -> bs_closed s = true -> bs_step s (set_drain (bs_queue s) (<[id := []]> (bs_drains s)) s)
| bs_drain_take s id b a q : bs_drains s !! id = Some b -> bs_queue s = a :: q -> bs_step s (set_drain q (<[id := b ++ [a]]> (bs_drains s)) s)
| bs_drain_end s id b err1 err2 : bs_drains s !! id = Some b -> bs_queue s = [] -> bs_step s (drain_end id b err1 err2 s).

(** ** The invariant *)
Definition handed (s : BatchingStore) : list Alert := concat (fst <$> bs_calls s).
Definition draining (d : gmap nat (list Alert)) : list Alert := concat (snd <$> map_to_list d).
Definition failed_call (s : BatchingStore) : Prop := exists b e, (b, Some e) ∈ bs_calls s.

Lemma concat_perm {A} (l k : list (list A)) : l ≡ₚ k -> concat l ≡ₚ concat k.
Proof. induction 1 as [|x l k _ IH|x y l|l k m _ IH1 _ IH2]; simpl; [done|by rewrite IH|by rewrite (Permutation_app_swap_app y x)|by rewrite IH1]. Qed.

Lemma draining_insert d id b : d !! id = None -> draining (<[id := b]> d) ≡ₚ b ++ draining d.
Proof. intros Hn. unfold draining. rewrite (concat_perm _ (b :: (snd <$> map_to_list d))); [done|]. by rewrite map_to_list_insert. Qed.
Lemma draining_delete d id b : d !! id = Some b -> draining d ≡ₚ b ++ draining (delete id d).
Proof. intros Hb. rewrite <- (insert_delete_id d id b) at 1 by done. by rewrite draining_insert by apply lookup_delete_eq. Qed.
Lemma draining_update d id b b' : d !! id = Some b -> draining (<[id := b']> d) ≡ₚ b' ++ draining (delete id d).
Proof. intros Hb. rewrite <- insert_delete_eq. by rewrite draining_insert by apply lookup_delete_eq. Qed.

Record bs_inv (s : BatchingStore) : Prop := {
  inv_all : bs_accepted s ≡ₚ handed s ++ bs_lost s ++ bs_batch s ++ bs_queue s ++ draining (bs_drains s);
  inv_queue : Z.of_nat (length (bs_queue s)) <= maxBuffer;
  inv_count : bs_offered s = Z.of_nat (length (bs_accepted s)) + bs_dropped s;
  inv_lost : bs_lost s <> [] \/ (exists id e, bs_loop s = Serving id (Some e)) -> failed_call s;
  inv_open : bs_closed s = false -> bs_drains s = ∅ /\ bs_loop s <> Closing /\ bs_loop s <> Stopped;
  inv_batch : bs_loop s = Selecting -> Z.of_nat (length (bs_batch s)) < batchSize;
  inv_gone : bs_loop s = Stopped -> bs_batch s = [];
  inv_one : (length (bs_requests s) <= 1)%nat }.

Lemma size_pos : 0 < batchSize /\ 0 < maxBuffer.
Proof. unfold batchSize, maxBuffer, withDefaults. simpl. destruct (Z.leb_spec (bc_BatchSize c) 0), (Z.leb_spec (bc_MaxBuffer c) 0); lia. Qed.

Lemma batch_new_inv : bs_inv NewBatchingStore.
Proof. pose proof size_pos. split; simpl; [done|lia|done| |done|lia|done|lia]. by intros [Hx|(? & ? & ?)]. Qed.

Lemma handed_snoc s b err : concat (fst <$> (bs_calls s ++ [(b, err)])) = handed s ++ b.
Proof. rewrite fmap_app, concat_app. simpl. by rewrite app_nil_r. Qed.

Lemma failed_more s s' l : bs_calls s' = bs_calls s ++ l -> failed_call s -> failed_call s'.
Proof. intros E (b & e & Hin). exists b, e. rewrite E. apply elem_of_app. by left. Qed.

(** Handing the batch over moves it to the calls. *)
Lemma hand_over_all s err : handed (hand_over err s) ++ bs_batch (hand_over err s) = handed s ++ bs_batch s.
Proof. unfold hand_over. destruct (bs_batch s) eqn:E; [by rewrite E|]. unfold handed. simpl bs_calls. by rewrite handed_snoc, app_nil_r. Qed.
Lemma hand_over_batch s err : bs_batch (hand_over err s) = [].
Proof. unfold hand_over. by destruct (bs_batch s) eqn:E. Qed.
Lemma hand_over_same s err :
  bs_queue (hand_over err s) = bs_queue s /\ bs_loop (hand_over err s) = bs_loop s /\ bs_closed (hand_over err s) = bs_closed s /\
  bs_requests (hand_over err s) = bs_requests s /\ bs_drains (hand_over err s) = bs_drains s /\ bs_answers (hand_over err s) = bs_answers s /\
  bs_dropped (hand_over err s) = bs_dropped s /\ bs_accepted (hand_over err s) = bs_accepted s /\ bs_lost (hand_over err s) = bs_lost s /\
  bs_offered (hand_over err s) = bs_offered s.
Proof. unfold hand_over. by destruct (bs_batch s). Qed.
Lemma hand_over_failed s err : failed_call s -> failed_call (hand_over err s).
Proof. unfold hand_over. destruct (bs_batch s); [done|]. by eapply failed_more. Qed.
Lemma hand_over_error s e : bs_batch s <> [] -> failed_call (hand_over (Some e) s).
Proof. unfold hand_over. destruct (bs_batch s) as [|a b] eqn:E; [done|]. intros _. exists (a :: b), e. simpl. apply elem_of_app. right. by left. Qed.

Lemma hand_over_inv s err : bs_inv s -> bs_inv (hand_over err s).
Proof.
  intros [Ha Hq Hc Hl Ho Hb Hg H1]. destruct (hand_over_same s err) as (Eq & El & Ec & Er & Ed & Ean & Edr & Eac & Elo & Eof).
  split; rewrite ?Eq, ?El, ?Ec, ?Er, ?Ed, ?Edr, ?Eac, ?Elo, ?Eof, ?hand_over_batch; auto.
  - rewrite Ha. pose proof (hand_over_all s err) as E. rewrite hand_over_batch, app_nil_r in E. rewrite E. perm.
  - intros Hx. by apply hand_over_failed, Hl.
  - intros _. simpl. apply size_pos.
Qed.

Lemma receive_inv s a q : bs_inv s -> bs_queue s = a :: q -> bs_loop s <> Selecting -> bs_loop s <> Stopped -> bs_inv (receive_one a q s).
Proof.
  intros [Ha Hq Hc Hl Ho Hb Hg H1] E Hns Hnt. rewrite E in Ha, Hq. split; simpl in *; try done; try lia.
  unfold handed in *. simpl. rewrite Ha. perm.
Qed.

Lemma take_inv s a q err : bs_inv s -> bs_loop s = Selecting -> bs_queue s = a :: q -> bs_inv (loop_take a q err s).
Proof.
  intros [Ha Hq Hc Hl Ho Hb Hg H1] Hlp E. pose proof size_pos as [Hsz _]. rewrite E in Ha, Hq. simpl in Hq. unfold loop_take. cbv zeta.
  assert (bs_accepted s ≡ₚ handed s ++ bs_lost s ++ (bs_batch s ++ [a]) ++ q ++ draining (bs_drains s)) as Ha' by (rewrite Ha; perm).
  destruct (Z.leb_spec batchSize (Z.of_nat (length (bs_batch (receive_one a q s))))) as [Hfull|Hroom].
  - destruct (hand_over_same (receive_one a q s) err) as (Eq & El & Ec & Er & Ed & Ean & Edr & Eac & Elo & Eof).
    split; rewrite ?Eq, ?El, ?Ec, ?Er, ?Ed, ?Edr, ?Eac, ?Elo, ?Eof, ?hand_over_batch; simpl; auto; try lia.
    + pose proof (hand_over_all (receive_one a q s) err) as Eh. rewrite hand_over_batch, app_nil_r in Eh. rewrite Eh.
      change (handed (receive_one a q s)) with (handed s). simpl. rewrite Ha'. perm.
    + intros Hx. apply hand_over_failed. by apply Hl.
  - split; simpl in *; try done; try lia. by rewrite Hlp.
Qed.

Lemma serve_begin_inv s id rest err : bs_inv s -> bs_loop s = Selecting -> bs_requests s = id :: rest -> bs_inv (serve_begin id rest err s).
Proof.
  intros Hi Hlp Er. unfold serve_begin. pose proof (hand_over_inv s err Hi) as [Ha Hq Hc Hl Ho Hb Hg H1].
  destruct (hand_over_same s err) as (_ & El & _ & Erq & _). rewrite Erq, Er in H1. simpl in H1.
  split; simpl; try done; try lia.
  - intros [Hx|(id' & e & [= -> Hx])]; [by apply Hl; left|]. unfold had_batch in Hx. destruct (bs_batch s) eqn:Eb; [done|]. subst err.
    apply hand_over_error. by rewrite Eb.
  - intros Hx. by destruct (Ho Hx) as (? & _).
Qed.

Lemma serve_end_inv s id err err1 err2 : bs_inv s -> bs_loop s = Serving id err -> bs_queue s = [] -> bs_inv (serve_end id err err1 err2 s).
Proof.
  intros Hi Hlp E. pose proof size_pos as [Hsz Hmx]. unfold serve_end. cbv zeta. destruct err as [e|].
  - destruct Hi as [Ha Hq Hc Hl Ho Hb Hg H1]. split; simpl; try done.
    + unfold handed in *. simpl. rewrite Ha. perm.
    + intros _. apply Hl. right. eauto.
    + intros Hx. by destruct (Ho Hx) as (? & _).
  - pose proof (hand_over_inv s err1 Hi) as [Ha Hq Hc Hl Ho Hb Hg H1]. split; simpl; try done.
    + intros [Hx|(? & ? & ?)]; [by apply Hl; left|done].
    + intros Hx. by destruct (Ho Hx) as (? & _).
    + intros _. by rewrite hand_over_batch.
Qed.

Lemma drain_end_inv s id b err1 err2 : bs_inv s -> bs_drains s !! id = Some b -> bs_inv (drain_end id b err1 err2 s).
Proof.
  intros [Ha Hq Hc Hl Ho Hb Hg H1] Hd. assert (bs_closed s = true) as Hcl.
  { destruct (bs_closed s) eqn:E; [done|]. destruct (Ho eq_refl) as [E' _]. by rewrite E', lookup_empty in Hd. }
  unfold drain_end. cbv zeta. split; simpl; try done; [| |by rewrite Hcl].
  - unfold handed in *. simpl. rewrite Ha, (draining_delete _ _ _ Hd). rewrite fmap_app, concat_app. destruct b; simpl; rewrite ?app_nil_r; perm.
  - intros Hx. eapply failed_more; [reflexivity|]. by apply Hl.
Qed.

Lemma batch_step_inv s s' : bs_step s s' -> bs_inv s -> bs_inv s'.
Proof.
  intros Hs Hi. destruct Hs as [s a|s a q err Hlp E|s err Hlp|s id rest err Hlp Er|s id err a q Hlp E|s id err err1 err2 Hlp E|s Hlp Hcl|s a q Hlp E
    |s err Hlp E|s Hcl|s id Hf Er|s id Hf Hcl|s id b a q Hd E|s id b err1 err2 Hd E].
  - destruct Hi as [Ha Hq Hc Hl Ho Hb Hg H1]. unfold offer. destruct (Z.ltb_spec (Z.of_nat (length (bs_queue s))) maxBuffer).
    + split; simpl; try done; rewrite ?length_app; simpl; try lia. unfold handed in *. simpl. rewrite Ha. perm.
    + split; simpl; try done; lia.
  - by apply take_inv.
  - by apply hand_over_inv.
  - by apply serve_begin_inv.
  - apply receive_inv; [done|done|by rewrite Hlp..].
  - by apply serve_end_inv.
  - destruct Hi as [Ha Hq Hc Hl Ho Hb Hg H1]. split; simpl; try done; [|by rewrite Hcl]. intros [Hx|(? & ? & ?)]; [by apply Hl; left|done].
  - apply receive_inv; [done|done|by rewrite Hlp..].
  - pose proof (hand_over_inv s err Hi) as [Ha Hq Hc Hl Ho Hb Hg H1]. split; simpl; try done.
    + intros [Hx|(? & ? & ?)]; [by apply Hl; left|done].
    + intros Hx. destruct (Ho Hx) as (_ & Hx1 & _). destruct (hand_over_same s err) as (_ & El & _). by rewrite El, Hlp in Hx1.
    + intros _. apply hand_over_batch.
  - destruct Hi as [Ha Hq Hc Hl Ho Hb Hg H1]. by split.
  - destruct Hi as [Ha Hq Hc Hl Ho Hb Hg H1]. by split.
  - destruct Hi as [Ha Hq Hc Hl Ho Hb Hg H1]. destruct Hf as (_ & Hd & _). split; simpl; try done; [|by rewrite Hcl].
    unfold handed in *. simpl. rewrite Ha. by rewrite draining_insert.
  - destruct Hi as [Ha Hq Hc Hl Ho Hb Hg H1]. rewrite E in Ha, Hq. simpl in Hq. split; simpl; try done; try lia.
    + unfold handed in *. simpl. rewrite Ha, (draining_delete _ _ _ Hd). rewrite (draining_update _ _ b) by done. perm.
    + intros Hx. destruct (Ho Hx) as [E' _]. by rewrite E', lookup_empty in Hd.
  - by apply drain_end_inv.
Qed.

Lemma reachable_inv s : rtc bs_step NewBatchingStore s -> bs_inv s.
Proof.
  intros Hr. assert (forall a b, rtc bs_step a b -> bs_inv a -> bs_inv b) as Hall.
  { clear. induction 1 as [|a b d Hs _ IH]; [done|]. intros Ha. by eapply IH, batch_step_inv. }
  eapply Hall; [done|apply batch_new_inv].
Qed.

(** ** Theorems *)

(** Claim C28. No alert disappears. Under every interleaving of writers, the
    flush loop, flushes and the closing, the alerts that found room in the
    queue are exactly those handed to the inner store, those still in the
    queue or in a batch, and those a flush gave up; the latter exist only if
    a call of the inner store failed. The queue keeps within its bound, and
    every other alert offered is counted as dropped. *)
Theorem batching_conserves s :
  rtc bs_step NewBatchingStore s ->
  bs_accepted s ≡ₚ handed s ++ bs_lost s ++ bs_batch s ++ bs_queue s ++ draining (bs_drains s) /\
  Z.of_nat (length (bs_queue s)) <= maxBuffer /\ bs_offered s = Z.of_nat (length (bs_accepted s)) + bs_dropped s /\
  (bs_lost s <> [] -> failed_call s).
Proof. intros Hr. destruct (reachable_inv s Hr) as [Ha Hq Hc Hl _ _ _ _]. split_and!; [done..|]. intros Hx. apply Hl. by left. Qed.


(** The loop alone empties the queue while it serves a request. *)
Lemma serving_ends s id err : bs_loop s = Serving id err ->
  exists s', nsteps bs_step (S (length (bs_queue s))) s s' /\ is_Some (bs_answers s' !! id) /\ bs_loop s' = Selecting /\ bs_queue s' = [] /\
    bs_requests s' = bs_requests s /\ bs_accepted s' = bs_accepted s.
Proof.
  remember (bs_queue s) as q eqn:E. revert s E. induction q as [|a q IH]; intros s E Hlp; symmetry in E.
  - exists (serve_end id err None None s). split; [apply nsteps_once; by eapply bs_serve_end|]. unfold serve_end. cbv zeta. simpl. rewrite lookup_insert_eq. split; [done|].
    destruct err; simpl; [done|]. by destruct (hand_over_same s None) as (-> & _ & _ & -> & _ & _ & _ & -> & _).
  - destruct (IH (receive_one a q s) eq_refl Hlp) as (s' & Hn & Hrest). exists s'. split; [|done]. eapply nsteps_l; [by eapply bs_serve_take|done].
Qed.

(** A flush of an open store can be answered: from any state of a
    run in which it waits or is served, the loop answers it within as many
    steps as there are alerts in the queue plus three, without any help. *)
Theorem flush_answered s id :
  rtc bs_step NewBatchingStore s -> bs_closed s = false -> id ∈ bs_requests s \/ (exists err, bs_loop s = Serving id err) ->
  exists n s', (n <= length (bs_queue s) + 3)%nat /\ nsteps bs_step n s s' /\ is_Some (bs_answers s' !! id) /\ bs_accepted s' = bs_accepted s.
Proof.
  intros Hr Hcl Hid. destruct (reachable_inv s Hr) as [_ _ _ _ Ho _ _ H1]. destruct (Ho Hcl) as (_ & Hnc & Hns).
  assert (forall t, bs_loop t = Selecting -> bs_requests t = [id] -> exists n s', (n <= length (bs_queue t) + 2)%nat /\ nsteps bs_step n t s' /\
    is_Some (bs_answers s' !! id) /\ bs_accepted s' = bs_accepted t) as Hsel.
  { intros t Ht Ert. set (t1 := serve_begin id [] None t). destruct (hand_over_same t None) as (Eq & _ & _ & _ & _ & _ & _ & Eac & _).
    destruct (serving_ends t1 id (had_batch None t) eq_refl) as (s' & Hn & Ha & _ & _ & _ & Hac). exists (S (S (length (bs_queue t)))), s'.
    split; [lia|]. split; [eapply nsteps_l; [by eapply bs_serve|]|].
    - replace (length (bs_queue t)) with (length (bs_queue t1)) by (simpl; by rewrite Eq). done.
    - split; [done|]. rewrite Hac. simpl. by rewrite Eac. }
  destruct (bs_requests s) as [|r [|? ?]] eqn:Er; [| |simpl in H1; lia].
  - destruct Hid as [?%elem_of_nil|[err Hlp]]; [done|]. destruct (serving_ends s id err Hlp) as (s' & Hn & Ha & _ & _ & _ & Hac). exists (S (length (bs_queue s))), s'. split; [lia|done].
  - destruct (bs_loop s) as [|id' err| |] eqn:Hlp; [|..|done|done].
    + destruct Hid as [->%list_elem_of_singleton|[err ?]]; [|done]. destruct (Hsel s Hlp Er) as (n & s' & Hn & Hrest). exists n, s'. split; [lia|done].
    + destruct (serving_ends s id' err Hlp) as (s1 & Hn1 & Ha1 & Hl1 & Hq1 & Hr1 & Hac1). destruct (decide (id' = id)) as [->|Hne].
      { exists (S (length (bs_queue s))), s1. split; [lia|done]. }
      destruct Hid as [->%list_elem_of_singleton|[err' [= ? _]]]; [|done]. rewrite Er in Hr1. destruct (Hsel s1 Hl1 Hr1) as (n & s' & Hn & Hns' & Ha' & Hac').
      exists (S (length (bs_queue s)) + n)%nat, s'. rewrite Hq1 in Hn. simpl in Hn. split; [lia|]. split; [by eapply nsteps_trans|]. split; [done|congruence].
Qed.

(** A request in the channel of a loop that has gone is never answered. *)
Definition orphaned (id : nat) (s : BatchingStore) : Prop :=
  bs_loop s = Stopped /\ id ∈ bs_requests s /\ bs_drains s !! id = None /\ bs_answers s !! id = None.

Lemma orphaned_step id s s' : bs_step s s' -> orphaned id s -> orphaned id s'.
Proof.
  intros Hs (Hl & Hr & Hd & Ha). destruct Hs as [s a|s a q err Hlp E|s err Hlp|s id' rest err Hlp Er|s id' err a q Hlp E|s id' err err1 err2 Hlp E|s Hlp Hcl|s a q Hlp E
    |s err Hlp E|s Hcl|s id' Hf Er|s id' Hf Hcl|s id' b a q Hd' E|s id' b err1 err2 Hd' E]; try congruence.
  - unfold offer. by destruct (_ <? _).
  - done.
  - rewrite Er in Hr. by apply elem_of_nil in Hr.
  - destruct Hf as (Hnr & _). assert (id' <> id) by congruence. unfold orphaned. simpl. by rewrite lookup_insert_ne.
  - assert (id' <> id) by congruence. unfold orphaned. simpl. by rewrite lookup_insert_ne.
  - assert (id' <> id) by congruence. unfold orphaned. simpl. by rewrite lookup_insert_ne, lookup_delete_ne.
Qed.

(** Claim C40. Flushing around the closing of the store is not safe. After
    [Close] a flush can put its request into the channel of the loop that has
    gone, and is then never answered, whatever happens. And a flush that
    starts while the loop still drains the queue can return without an error
    although an alert accepted before is in the batch of the loop and not in
    the inner store. *)
Theorem flush_after_close :
  (exists s id, rtc bs_step NewBatchingStore s /\ bs_closed s = true /\ id ∈ bs_requests s /\
    forall s', rtc bs_step s s' -> bs_answers s' !! id = None) /\
  (forall a, exists s id, rtc bs_step NewBatchingStore s /\ bs_answers s !! id = Some None /\ bs_accepted s = [a] /\ handed s = [] /\ bs_batch s = [a]).
Proof.
  pose proof size_pos as [_ Hmx]. split.
  - set (s1 := set_closed NewBatchingStore). set (s2 := set_loop Closing s1). set (s3 := set_loop Stopped (hand_over None s2)). set (s4 := set_requests [0%nat] s3).
    exists s4, 0%nat. split; [|split; [done|split; [by left|]]].
    + eapply rtc_l; [by apply bs_close|]. eapply rtc_l; [by apply bs_see_closed|]. eapply rtc_l; [by apply (bs_close_end s2 None)|].
      apply rtc_once, bs_request; [|done]. split_and!; [by intros ?%elem_of_nil|done|done|done].
    + assert (orphaned 0 s4) as Ho by (split_and!; [done|by left|done|done]). clearbody s4. clear -Ho. intros s' Hr.
      enough (orphaned 0 s') as (_ & _ & _ & ?) by done. induction Hr as [|a b d Hs _ IH]; [done|]. by apply IH, (orphaned_step _ a).
  - intros a. set (s1 := offer a NewBatchingStore).
    assert (s1 = mkBatching [a] [] Selecting false [] ∅ [] ∅ 0 [a] [] 1) as E1 by (unfold s1, offer; change (Z.of_nat (length (bs_queue NewBatchingStore))) with 0; by rewrite (proj2 (Z.ltb_lt _ _) Hmx)).
    set (s2 := set_closed s1). set (s3 := set_loop Closing s2). set (s4 := receive_one a [] s3). set (s5 := set_drain [] (<[0%nat := []]> ∅) s4).
    exists (drain_end 0 [] None None s5), 0%nat. split; [|subst s5 s4 s3 s2; rewrite E1; split; [apply lookup_insert_eq|done]].
    eapply rtc_l; [apply (bs_store _ a)|]. eapply rtc_l; [apply (bs_close s1); by rewrite E1|].
    eapply rtc_l; [apply (bs_see_closed s2); [subst s2; by rewrite E1|done]|].
    eapply rtc_l; [apply (bs_close_take s3 a []); [done|subst s3 s2; by rewrite E1]|].
    assert (bs_step s4 s5) as H45.
    { subst s5. replace (set_drain [] (<[0%nat := []]> ∅) s4) with (set_drain (bs_queue s4) (<[0%nat := []]> (bs_drains s4)) s4) by (subst s4 s3 s2; by rewrite E1).
      apply bs_drain_begin; subst s4 s3 s2; rewrite E1; [|done]. split_and!; [by intros ?%elem_of_nil|done|done|done]. }
    eapply rtc_l; [exact H45|]. apply rtc_once, bs_drain_end; [apply lookup_insert_eq|done].
Qed.
End store.

(** ** Examples *)
Module Example_batching.
Definition small : BatchingStoreConfig := mkBatchConfig 2 0 0.
Definition alert (id : gostring) : Alert := mkAlert id 1 "r" "n" "warning" 7 "sh" "m" "" "" None empty_enrichment empty_event [] "" "" false [] 0 0 0 "".

(** Three alerts; the third one and a flush wait. *)
Definition s3 : BatchingStore :=
  mkBatching [alert "c"] [] Selecting false [0%nat] ∅ [([alert "a"; alert "b"], None)] ∅ 0 [alert "a"; alert "b"; alert "c"] [] 3.
Lemma s3_reached : rtc (bs_step small) NewBatchingStore s3.
Proof.
  eapply rtc_l; [apply (bs_store small _ (alert "a"))|]. eapply rtc_l; [apply (bs_store small _ (alert "b"))|].
  eapply rtc_l; [apply (bs_store small _ (alert "c"))|].
  eapply rtc_l; [apply (bs_take small _ (alert "a") [alert "b"; alert "c"] None); reflexivity|].
  eapply rtc_l; [apply (bs_take small _ (alert "b") [alert "c"] None); reflexivity|].
  apply rtc_once. match goal with |- bs_step _ ?s _ => replace s3 with (set_requests [0%nat] s) by (vm_compute; reflexivity) end.
  apply (bs_request small _ 0). 2: reflexivity.
  split; [intros Hx; by apply elem_of_nil in Hx|]. split; [reflexivity|]. split; [reflexivity|]. intros err. discriminate.
Qed.

Lemma batching_conserves_witness : bs_accepted s3 ≡ₚ handed s3 ++ bs_lost s3 ++ bs_batch s3 ++ bs_queue s3 ++ draining (bs_drains s3).
Proof. exact (proj1 (batching_conserves small s3 s3_reached)). Defined.

Lemma flush_answered_witness : exists n s', (n <= 4)%nat /\ nsteps (bs_step small) n s3 s' /\ is_Some (bs_answers s' !! 0%nat) /\ bs_accepted s' = bs_accepted s3.
Proof. apply (flush_answered small s3 0); [exact s3_reached|reflexivity|left; left]. Defined.

Definition s5 : BatchingStore := receive_one (alert "c") [] (serve_begin 0 [] None s3).
End Example_batching.
