(* ===== verification/AlertSummary.v ===== *)
(** * Alert summaries

    Models src/internal/store/summary.go and [Summarize] of
    src/internal/store/memory.go: the totals, the counts by severity, the top
    rules and the hourly timeline of the alerts that match a filter, computed
    from a slice of alerts or inside the store. [Hour] is kept as the instant,
    not as its RFC 3339 text. The order in which a Go map is walked does not
    matter: [topRulesFromCounts] sorts by count and identifier, a total order.
    Theorems: the native summary of the store is the summary of the alerts a
    query without a limit returns, and what the numbers count. *)
From stdpp Require Import sorting strings.
From S2P Require Import Prelude Types MemStore.

Definition Hour : Z := 3600 * Second.
Definition summaryTopRules : nat := 10.
Definition summaryMaxBuckets : nat := 500.

Record AlertSummary := mkSummary {
  su_Total : Z; su_BySeverity : gmap gostring Z; su_TopRules : list (gostring * Z); su_Timeline : list (Z * Z); su_Truncated : bool }.

(** [t.Truncate(time.Hour)]: down to a multiple of an hour since the zero time. *)
Definition trunc_hour (t : Z) : Z := zero_time + (t - zero_time) / Hour * Hour.

(** [m[k]++] *)
Definition incr {A} `{Countable A} (k : A) (m : gmap A Z) : gmap A Z := <[k := default 0 (m !! k) + 1]> m.

(** The variables of the loop over the alerts. *)
Record counts := mkCounts { co_total : Z; co_severity : gmap gostring Z; co_rules : gmap gostring Z; co_hours : gmap Z Z; co_min : Z; co_max : Z }.
Definition no_counts : counts := mkCounts 0 ∅ ∅ ∅ zero_time zero_time.
Definition count_alert (k : counts) (a : Alert) : counts :=
  let hour := trunc_hour (al_Timestamp a) in
  mkCounts (co_total k + 1) (incr (al_Severity a) (co_severity k)) (incr (al_RuleID a) (co_rules k)) (incr hour (co_hours k))
    (if time_IsZero (co_min k) || time_Before hour (co_min k) then hour else co_min k)
    (if time_IsZero (co_max k) || time_After hour (co_max k) then hour else co_max k).

Definition rule_before (x y : gostring * Z) : Prop := y.2 < x.2 \/ (x.2 = y.2 /\ String.le x.1 y.1).
#[export] Instance rule_before_dec x y : Decision (rule_before x y).
Proof. unfold rule_before. apply _. Defined.
Definition topRulesFromCounts (m : gmap gostring Z) : list (gostring * Z) := take summaryTopRules (merge_sort rule_before (map_to_list m)).

Fixpoint timeline_loop (buckets : nat) (hours : gmap Z Z) (h maxHour : Z) : list (Z * Z) :=
  match buckets with
  | O => []
  | S buckets => if time_After h maxHour then [] else (h, default 0 (hours !! h)) :: timeline_loop buckets hours (time_Add h Hour) maxHour
  end.
Definition timelineFromCounts (hours : gmap Z Z) (minHour maxHour : Z) : list (Z * Z) :=
  if time_IsZero minHour then [] else timeline_loop summaryMaxBuckets hours minHour maxHour.

Definition summary_of (k : counts) : AlertSummary :=
  mkSummary (co_total k) (co_severity k) (topRulesFromCounts (co_rules k)) (timelineFromCounts (co_hours k) (co_min k) (co_max k)) false.
Definition SummarizeAlerts (alerts : list Alert) : AlertSummary :=
  match alerts with
  | [] => mkSummary 0 ∅ [] [] false
  | _ => summary_of (foldl count_alert no_counts alerts)
  end.

Section store.
Context (ToLower : gostring -> gostring).

(** One index entry of the loop of [MemoryStore.Summarize]. *)
Definition summarize_entry (s : MemoryStore) (f : QueryFilters) (k : counts) (e : byTimeEntry) : counts :=
  if negb (pre_std f e) then k else
  let alert := default empty_alert (ms_alerts s !! te_id e) in
  if negb (matchesFilters ToLower alert f) then k else count_alert k alert.
Definition Summarize (s : MemoryStore) (f : QueryFilters) : AlertSummary :=
  summary_of (foldl (summarize_entry s f) no_counts (time_window s f)).
End store.

(** ** Counting does not depend on the order *)
Lemma incr_comm {A} `{Countable A} (x y : A) (m : gmap A Z) : incr x (incr y m) = incr y (incr x m).
Proof.
  unfold incr. destruct (decide (x = y)) as [->|Hne]; [done|]. rewrite (lookup_insert_ne _ y x), (lookup_insert_ne _ x y) by done. by apply insert_insert_ne.
Qed.

Definition dated (a : Alert) : Prop := trunc_hour (al_Timestamp a) <> zero_time.

Ltac branches :=
  repeat (match goal with |- context [?p =? ?q] => destruct (Z.eqb_spec p q) | |- context [?p <? ?q] => destruct (Z.ltb_spec p q) end; simpl); lia.

Lemma count_comm k a b : dated a -> dated b -> count_alert (count_alert k a) b = count_alert (count_alert k b) a.
Proof.
  unfold dated. intros Ha Hb. unfold count_alert. cbn [co_total co_severity co_rules co_hours co_min co_max].
  set (x := trunc_hour (al_Timestamp a)) in *. set (y := trunc_hour (al_Timestamp b)) in *.
  unfold time_IsZero. generalize dependent zero_time. intros z Ha Hb. f_equal; [apply incr_comm..| |].
  - unfold time_Before. destruct (Z.eqb_spec (co_min k) z), (Z.ltb_spec x (co_min k)), (Z.ltb_spec y (co_min k)); simpl; branches.
  - unfold time_After. destruct (Z.eqb_spec (co_max k) z), (Z.ltb_spec (co_max k) x), (Z.ltb_spec (co_max k) y); simpl; branches.
Qed.

Lemma count_perm l l' k : l ≡ₚ l' -> Forall dated l -> foldl count_alert k l = foldl count_alert k l'.
Proof.
  intros Hp. revert k. induction Hp as [|x l l' _ IH|x y l|l1 l2 l3 H12 IH1 _ IH2]; intros k Hd; simpl; [done|..].
  - apply Forall_cons in Hd as [_ Hd]. by apply IH.
  - apply Forall_cons in Hd as [Hy Hd]. apply Forall_cons in Hd as [Hx _]. by rewrite count_comm.
  - rewrite IH1 by done. apply IH2. by rewrite <- H12.
Qed.

(** ** The native summary *)
Definition unpaged (f : QueryFilters) : QueryFilters :=
  mkFilters (qf_Since f) (qf_Until f) (qf_PIDs f) (qf_Severity f) (qf_RuleIDs f) (qf_Comm f) (qf_PodName f) (qf_Namespace f) (qf_Namespaces f) 0 0.

Lemma summarize_hits ToLower s f l k :
  (forall e, e ∈ l -> matchesFilters ToLower (alert_at s e) f = true -> pre_std f e = true) ->
  foldl (summarize_entry ToLower s f) k l = foldl count_alert k (hits ToLower s f l).
Proof.
  revert k. induction l as [|e l IH]; intros k Hpre; [done|]. cbn [foldl]. unfold hits. rewrite fmap_cons. unfold summarize_entry at 2. fold (alert_at s e).
  assert (forall e', e' ∈ l -> matchesFilters ToLower (alert_at s e') f = true -> pre_std f e' = true) as Hpre' by (intros e' ?; apply Hpre; by right).
  specialize (Hpre e (list_elem_of_here _ _)). cbv zeta. destruct (matchesFilters ToLower (alert_at s e) f) eqn:E.
  - rewrite filter_cons_True by done. rewrite Hpre by done. cbn [negb foldl]. by apply IH.
  - rewrite filter_cons_False by congruence. cbn [negb]. replace (if negb (pre_std f e) then k else k) with k by (by destruct (pre_std f e)). by apply IH.
Qed.

Lemma SummarizeAlerts_fold l : SummarizeAlerts l = summary_of (foldl count_alert no_counts l).
Proof. destruct l; [|done]. unfold summary_of, topRulesFromCounts. simpl. rewrite map_to_list_empty. done. Qed.

(** Claim C27. The two ways to summarise agree: in every store that is reached
    by its operations and holds dated alerts, the summary computed inside the
    store, over the binary-searched time index, equals the summary of the
    alerts that a query with the same filters and no page limit returns,
    whichever index answers the query. *)
Theorem summary_equivalence (sort : list byTimeEntry -> list byTimeEntry) `{SortSlice sort} (ToLower : gostring -> gostring) maxAlerts s f :
  ms_reach sort maxAlerts s -> map_Forall (fun _ a => dated a) (ms_alerts s) ->
  Summarize ToLower s f = SummarizeAlerts (Query ToLower s (unpaged f)).
Proof.
  intros Hr Hd. destruct (ms_reach_inv sort maxAlerts s Hr) as (Hi & Hso & _ & _).
  destruct (Query_spec ToLower s (unpaged f) Hi Hso) as (l & -> & _ & Hp & _). change (page (unpaged f) l) with l.
  rewrite SummarizeAlerts_fold. unfold Summarize. f_equal. rewrite summarize_hits.
  - rewrite hits_time_window by done. apply count_perm.
    + rewrite Hp. unfold hits. by rewrite alerts_of_index.
    + unfold hits. apply Forall_forall. intros a [_ Ha]%list_elem_of_filter. rewrite alerts_of_index in Ha by done.
      apply list_elem_of_fmap in Ha as ([id a'] & -> & Hm). apply elem_of_map_to_list in Hm. by eapply Hd.
  - intros e He Em. assert (e ∈ ms_byTime s) as He'.
    { unfold time_window in He. apply elem_of_take in He as (i & Hi' & _). rewrite lookup_drop in Hi'. by eapply list_elem_of_lookup_2. }
    apply matches_cached in Em as [Hpre _]. destruct (alert_at_entry s e Hi He') as [_ E]. by rewrite <- E in Hpre.
Qed.

(** ** What the numbers count *)
Definition number_of {A} `{EqDecision A} (g : Alert -> A) (x : A) (l : list Alert) : Z := Z.of_nat (length (filter (fun a => g a = x) l)).

(** The counter of [x] in a map filled by [incr]. *)
Definition tally {A} `{Countable A} (g : Alert -> A) (m : gmap A Z) (l : list Alert) : gmap A Z := foldl (fun m a => incr (g a) m) m l.

Lemma tally_lookup {A} `{Countable A} (g : Alert -> A) m l x :
  tally g m l !! x = if decide (number_of g x l = 0) then m !! x else Some (default 0 (m !! x) + number_of g x l).
Proof.
  unfold tally, number_of. revert m. induction l as [|a l IH]; intros m; [done|]. cbn [foldl]. rewrite IH. unfold incr. destruct (decide (g a = x)) as [<-|Hne].
  - rewrite filter_cons_True by done. rewrite lookup_insert_eq. cbn [length default from_option].
    rewrite (decide_False (P := Z.of_nat (S _) = 0)) by lia. case_decide; f_equal; simpl; lia.
  - rewrite filter_cons_False by done. by rewrite lookup_insert_ne.
Qed.

Lemma count_maps l k :
  co_total (foldl count_alert k l) = co_total k + Z.of_nat (length l) /\
  co_severity (foldl count_alert k l) = tally al_Severity (co_severity k) l /\ co_rules (foldl count_alert k l) = tally al_RuleID (co_rules k) l /\
  co_hours (foldl count_alert k l) = tally (fun a => trunc_hour (al_Timestamp a)) (co_hours k) l.
Proof.
  revert k. induction l as [|a l IH]; intros k; cbn [foldl length]; [split_and!; [lia|done..]|].
  destruct (IH (count_alert k a)) as (-> & -> & -> & ->). split_and!; [simpl; lia|done..].
Qed.

Lemma tally_empty {A} `{Countable A} (g : Alert -> A) l x n : tally g ∅ l !! x = Some n <-> n = number_of g x l /\ 0 < n.
Proof.
  rewrite tally_lookup, lookup_empty. case_decide as E; [split; [done|intros [-> ?]; lia]|]. simpl. split.
  - intros [= <-]. split; [lia|]. unfold number_of in *. lia.
  - intros [-> _]. by f_equal.
Qed.

(** The least and the greatest hour of a list of dated alerts. *)
Definition hour_of (a : Alert) : Z := trunc_hour (al_Timestamp a).
Lemma hours_span l k :
  Forall dated l -> (co_min k = zero_time <-> co_max k = zero_time) -> (co_min k <> zero_time -> co_min k <= co_max k) ->
  let k' := foldl count_alert k l in
  (l <> [] \/ co_min k <> zero_time -> co_min k' <> zero_time) /\
  (forall a, a ∈ l -> co_min k' <= hour_of a <= co_max k') /\ (co_min k <> zero_time -> co_min k' <= co_min k /\ co_max k <= co_max k') /\
  (co_min k' = co_min k \/ exists a, a ∈ l /\ co_min k' = hour_of a).
Proof.
  revert k. induction l as [|a l IH]; intros k Hd Hz Hle; cbn [foldl].
  - split; [by intros [?|?]|]. split; [by intros a ?%elem_of_nil|]. split; [lia|by left].
  - apply Forall_cons in Hd as [Ha Hd]. unfold dated in Ha. fold (hour_of a) in Ha.
    assert (co_min (count_alert k a) <> zero_time /\ co_max (count_alert k a) <> zero_time /\
      co_min (count_alert k a) <= hour_of a <= co_max (count_alert k a) /\
      (co_min k <> zero_time -> co_min (count_alert k a) <= co_min k /\ co_max k <= co_max (count_alert k a)) /\
      (co_min (count_alert k a) = co_min k \/ co_min (count_alert k a) = hour_of a)) as (N1 & N2 & Hs & Hk & Ho).
    { cbn [co_min co_max count_alert]. fold (hour_of a). unfold time_IsZero, time_Before, time_After. generalize dependent zero_time. intros z Hz Hle Ha.
      destruct (Z.eqb_spec (co_min k) z), (Z.eqb_spec (co_max k) z), (Z.ltb_spec (hour_of a) (co_min k)), (Z.ltb_spec (co_max k) (hour_of a)); simpl; lia. }
    destruct (IH (count_alert k a)) as (I1 & I2 & I3 & I4); [done|by split|lia|]. destruct (I3 N1) as [I31 I32]. split; [intros _; apply I1; by right|]. split; [|split].
    + intros b [->|Hb]%elem_of_cons; [lia|by apply I2].
    + intros Hn. destruct (Hk Hn). lia.
    + destruct I4 as [->|(b & ? & ->)]; [|right; exists b; by rewrite elem_of_cons; auto].
      destruct Ho as [->| ->]; [by left|right; exists a; by rewrite elem_of_cons; auto].
Qed.

Lemma timeline_spec n hours h maxHour x :
  x ∈ timeline_loop n hours h maxHour <-> exists i, (i < n)%nat /\ x.1 = h + Z.of_nat i * Hour /\ x.1 <= maxHour /\ x.2 = default 0 (hours !! x.1).
Proof.
  revert h. induction n as [|n IH]; intros h; simpl; [split; [by intros ?%elem_of_nil|by intros (i & ? & _); lia]|].
  assert (0 < Hour) as Hp by done. unfold time_After. destruct (Z.ltb_spec maxHour h) as [Hlt|Hge].
  - split; [by intros ?%elem_of_nil|]. intros (i & _ & E & Hle & _). nia.
  - rewrite elem_of_cons, IH. unfold time_Add. split.
    + intros [->|(i & Hi & E & Hx)]; [exists 0%nat; simpl; split_and!; [lia|lia|done|done]|]. exists (S i). split_and!; [lia|rewrite E; lia|tauto|tauto].
    + intros ([|i] & Hi & E & Hle & Hv); [left|right].
      * replace h with x.1 by lia. destruct x. simpl in *. congruence.
      * exists i. split_and!; [lia|rewrite E; lia|done|done].
Qed.

Lemma hour_grid a b : exists j, hour_of a = hour_of b + j * Hour.
Proof. unfold hour_of, trunc_hour. exists ((al_Timestamp a - zero_time) / Hour - (al_Timestamp b - zero_time) / Hour). lia. Qed.

Lemma tally_default {A} `{Countable A} (g : Alert -> A) l x : default 0 (tally g ∅ l !! x) = number_of g x l.
Proof. rewrite tally_lookup, lookup_empty. case_decide as E; simpl; lia. Qed.

#[export] Instance rule_before_total : Total rule_before.
Proof.
  intros [r n] [r' n']. unfold rule_before. simpl. destruct (Z.lt_total n n') as [?|[->|?]]; [right; lia| |left; lia].
  destruct (String.le_total r r'); [left|right]; auto.
Qed.
#[export] Instance rule_before_trans : Transitive rule_before.
Proof.
  intros [r n] [r' n'] [r2 n2]. unfold rule_before. simpl. intros [?|[-> ?]] [?|[-> ?]]; [left; lia|left; lia|left; lia|right]. split; [done|]. by etransitivity.
Qed.

Lemma top_rules m x :
  x ∈ topRulesFromCounts m -> m !! x.1 = Some x.2 /\ forall r n, m !! r = Some n ->
    (r, n) ∈ topRulesFromCounts m \/ (length (topRulesFromCounts m) = summaryTopRules /\ forall y, y ∈ topRulesFromCounts m -> rule_before y (r, n)).
Proof.
  intros Hx. split.
  - unfold topRulesFromCounts in Hx. apply elem_of_take in Hx as (i & Hi & _). apply list_elem_of_lookup_2 in Hi. rewrite merge_sort_Permutation in Hi.
    apply elem_of_map_to_list. by rewrite <- surjective_pairing.
  - intros r n Hr. apply elem_of_map_to_list in Hr. rewrite <- (merge_sort_Permutation rule_before) in Hr. unfold topRulesFromCounts.
    pose proof (StronglySorted_merge_sort rule_before (map_to_list m)) as Hs. set (l := merge_sort rule_before (map_to_list m)) in *.
    rewrite <- (take_drop summaryTopRules l) in Hr, Hs. apply elem_of_app in Hr as [Hr|Hr]; [by left|right].
    apply StronglySorted_app in Hs as (Hle & _ & _). split; [|intros y Hy; by apply Hle].
    rewrite length_take. apply list_elem_of_lookup_1 in Hr as [i Hi]. apply lookup_lt_Some in Hi. rewrite length_drop in Hi. lia.
Qed.

(** The numbers of a summary are exact. The total is the number of
    alerts and each severity has its number; every listed rule has its number
    of alerts, and a rule that is missing comes after all listed ones, of
    which there are then ten; every bucket of the timeline has the number of
    alerts of its hour, and the hour of every alert less than five hundred
    hours after the first one is there. *)
Theorem summary_exact l :
  Forall dated l ->
  let s := SummarizeAlerts l in
  su_Total s = Z.of_nat (length l) /\ (forall sev, default 0 (su_BySeverity s !! sev) = number_of al_Severity sev l) /\
  (forall r n, (r, n) ∈ su_TopRules s -> n = number_of al_RuleID r l /\ 0 < n) /\
  (forall a, a ∈ l -> let x := (al_RuleID a, number_of al_RuleID (al_RuleID a) l) in
     x ∈ su_TopRules s \/ (length (su_TopRules s) = summaryTopRules /\ forall y, y ∈ su_TopRules s -> rule_before y x)) /\
  (forall h n, (h, n) ∈ su_Timeline s -> n = number_of hour_of h l) /\
  (forall a, a ∈ l -> (forall b, b ∈ l -> hour_of a < hour_of b + Z.of_nat summaryMaxBuckets * Hour) -> hour_of a ∈ (su_Timeline s).*1).
Proof.
  intros Hd s. subst s. rewrite SummarizeAlerts_fold. unfold summary_of. cbn [su_Total su_BySeverity su_TopRules su_Timeline].
  destruct (count_maps l no_counts) as (-> & -> & -> & ->). cbn [co_total co_severity co_rules co_hours no_counts].
  split_and!; [lia|intros; apply tally_default| | | |].
  - intros r n Hx. apply top_rules in Hx as [Hx _]. by apply tally_empty in Hx.
  - intros a Ha. cbv zeta. set (x := (al_RuleID a, number_of al_RuleID (al_RuleID a) l)). assert (tally al_RuleID ∅ l !! al_RuleID a = Some x.2) as Hx.
    { apply tally_empty. split; [done|]. subst x. simpl. unfold number_of. assert (a ∈ filter (fun b => al_RuleID b = al_RuleID a) l) as Hin by (by apply list_elem_of_filter).
      destruct (filter _ l); [by apply elem_of_nil in Hin|simpl; lia]. }
    destruct (topRulesFromCounts (tally al_RuleID ∅ l)) as [|y t] eqn:Et.
    + exfalso. apply elem_of_map_to_list in Hx. unfold topRulesFromCounts in Et. rewrite <- (merge_sort_Permutation rule_before) in Hx.
      destruct (merge_sort rule_before _); [by apply elem_of_nil in Hx|done].
    + rewrite <- Et. apply (top_rules _ y); [rewrite Et; by left|done].
  - intros h n Hx. unfold timelineFromCounts in Hx. case_match; [by apply elem_of_nil in Hx|]. apply timeline_spec in Hx as (i & _ & _ & _ & Hn). simpl in Hn. subst n. apply tally_default.
  - intros a Ha Hnear. destruct (hours_span l no_counts Hd) as (H1 & H2 & _ & H4); [done|done|]. unfold timelineFromCounts.
    assert (co_min (foldl count_alert no_counts l) <> zero_time) as Hnz by (apply H1; left; intros ->; by apply elem_of_nil in Ha).
    unfold time_IsZero. rewrite (proj2 (Z.eqb_neq _ _)) by done. destruct H4 as [H4|(b & Hb & Eb)]; [done|].
    destruct (hour_grid a b) as [j Hj]. pose proof (H2 a Ha) as [Hlo Hhi]. specialize (Hnear b Hb). rewrite Eb in Hlo |- *. assert (0 < Hour) as Hp by done.
    apply list_elem_of_fmap. exists (hour_of a, default 0 (tally hour_of ∅ l !! hour_of a)). split; [done|]. apply timeline_spec. exists (Z.to_nat j).
    cbn [fst snd]. split_and!; [nia|rewrite Hj; nia|done|done].
Qed.

(** ** Examples *)
Lemma summary_equivalence_witness :
  su_Total (Summarize (fun s => s) demo_store demo_filter) = 1 /\
  Summarize (fun s => s) demo_store demo_filter = SummarizeAlerts (Query (fun s => s) demo_store (unpaged demo_filter)).
Proof.
  split; [vm_compute; reflexivity|]. apply (summary_equivalence isort (fun s => s) 2); [exact demo_reach|].
  assert (forallb (fun x => negb (trunc_hour (al_Timestamp x.2) =? zero_time)) (map_to_list (ms_alerts demo_store)) = true) as Hd by (vm_compute; reflexivity).
  intros id a Ha. apply elem_of_map_to_list, list_elem_of_In in Ha. rewrite forallb_forall in Hd. specialize (Hd _ Ha). unfold dated. simpl in Hd. zbool. exact Hd.
Defined.

Lemma summary_exact_witness :
  let s := SummarizeAlerts [demo_stored "a" "warning" 10; demo_stored "b" "critical" (2 * Hour); demo_stored "c" "warning" 20] in
  su_Timeline s = [(0, 2); (Hour, 0); (2 * Hour, 1)] /\ default 0 (su_BySeverity s !! "warning"%string) = 2.
Proof.
  split; [vm_compute; reflexivity|].
  apply (summary_exact [demo_stored "a" "warning" 10; demo_stored "b" "critical" (2 * Hour); demo_stored "c" "warning" 20]).
  repeat (constructor; [vm_compute; discriminate|]). constructor.
Defined.
