(* ===== verification/GoFloat.v ===== *)
(** * Floating point

    Go's [float64]: IEEE 754 binary64 with rounding to nearest, ties to even,
    as the Standard Library's [SpecFloat] specifies it. Every operation is
    executable. A decimal constant of the source is the correctly rounded
    quotient of two integers that are floats themselves. Converting a float to
    an unsigned integer truncates; out of range the language leaves the result
    to the implementation, so it is an argument. *)
From Stdlib Require Import SpecFloat.
From S2P Require Import Prelude.

Definition float64 : Type := spec_float.

(** ** Operations *)
Definition fmul : float64 -> float64 -> float64 := SFmul 53 1024.
Definition fdiv : float64 -> float64 -> float64 := SFdiv 53 1024.
Definition fadd : float64 -> float64 -> float64 := SFadd 53 1024.
Definition fsub : float64 -> float64 -> float64 := SFsub 53 1024.
Definition flt : float64 -> float64 -> bool := SFltb.
Definition fle : float64 -> float64 -> bool := SFleb.
Definition feq : float64 -> float64 -> bool := SFeqb.
Definition fgt (a b : float64) : bool := flt b a.
Definition fge (a b : float64) : bool := fle b a.

(** [float64(z)] of an integer, and the constant [n / d] *)
Definition float_of_Z (z : Z) : float64 := binary_normalize 53 1024 z 0 false.
Definition dec (n d : Z) : float64 := fdiv (float_of_Z n) (float_of_Z d).
Definition f0 : float64 := float_of_Z 0.
Definition f1 : float64 := float_of_Z 1.

(** The integer part, none of an infinity or NaN; [uint32(x)] *)
Definition float_trunc (x : float64) : option Z :=
  match x with
  | S754_zero _ => Some 0
  | S754_finite s m e =>
      let a := if 0 <=? e then Zpos m * 2 ^ e else Zpos m / 2 ^ (- e) in
      Some (if s then - a else a)
  | _ => None
  end.
Definition float_uint32 (out_of_range : float64 -> Z) (x : float64) : Z :=
  match float_trunc x with
  | Some z => if (0 <=? z) && (z <? 2 ^ 32) then z else out_of_range x
  | None => out_of_range x
  end.

(** [d.Seconds()] of a duration *)
Definition Duration_Seconds (d : Z) : float64 :=
  fadd (float_of_Z (Z.quot d Second)) (fdiv (float_of_Z (Z.rem d Second)) (float_of_Z 1000000000)).

(** ** Order

    [SFcompare] orders floats by a key, lexicographically; NaN has none. *)
Definition is_num (x : float64) : Prop := x <> S754_nan.
#[export] Instance float64_eq_dec : EqDecision float64.
Proof. unfold float64. solve_decision. Defined.
#[export] Instance is_num_dec x : Decision (is_num x).
Proof. unfold is_num. apply _. Defined.

Definition key (x : float64) : Z * Z * Z :=
  match x with
  | S754_zero _ | S754_nan => (0, 0, 0)
  | S754_infinity s => (if s then -2 else 2, 0, 0)
  | S754_finite s m e => if s then (-1, - e, Zneg m) else (1, e, Zpos m)
  end.
Definition key_lt (a b : Z * Z * Z) : Prop :=
  a.1.1 < b.1.1 \/ (a.1.1 = b.1.1 /\ (a.1.2 < b.1.2 \/ (a.1.2 = b.1.2 /\ a.2 < b.2))).

Lemma flt_key a b : flt a b = true <-> is_num a /\ is_num b /\ key_lt (key a) (key b).
Proof.
  unfold flt, SFltb, is_num, key_lt. destruct a as [[]|[]| |[] m e], b as [[]|[]| |[] m' e']; simpl;
    try (split; [try discriminate; intros _; repeat split; discriminate || lia|intros (? & ? & ?); congruence || lia]).
  all: change (Pos.compare_cont Eq m m') with (m ?= m')%positive; destruct (Z.compare_spec e e'), (Pos.compare_spec m m'); simpl;
    (split; [try discriminate; intros _; repeat split; discriminate || lia|intros (? & ? & ?); congruence || lia]).
Qed.

Lemma fle_key a b : fle a b = true <-> is_num a /\ is_num b /\ ~ key_lt (key b) (key a).
Proof.
  unfold fle, SFleb, is_num, key_lt. destruct a as [[]|[]| |[] m e], b as [[]|[]| |[] m' e']; simpl;
    try (split; [try discriminate; intros _; repeat split; discriminate || lia|intros (? & ? & ?); congruence || lia]).
  all: change (Pos.compare_cont Eq m m') with (m ?= m')%positive; destruct (Z.compare_spec e e'), (Pos.compare_spec m m'); simpl;
    (split; [try discriminate; intros _; repeat split; discriminate || lia|intros (? & ? & ?); congruence || lia]).
Qed.

Lemma flt_irrefl a : flt a a = false.
Proof. apply not_true_iff_false. rewrite flt_key. unfold key_lt. lia. Qed.

Lemma flt_trans a b c : flt a b = true -> flt b c = true -> flt a c = true.
Proof. rewrite !flt_key. unfold key_lt. intuition lia. Qed.

(** Between numbers, [<=] is the negation of [>]. *)
Lemma fle_flt a b : is_num a -> is_num b -> fle a b = negb (flt b a).
Proof.
  intros Ha Hb. destruct (flt b a) eqn:E; simpl.
  - apply not_true_iff_false. rewrite fle_key. apply flt_key in E. tauto.
  - apply fle_key. split_and!; [done..|]. intros K. apply not_true_iff_false in E. apply E, flt_key. tauto.
Qed.

Lemma nflt_trans a b c : is_num b -> flt b a = false -> flt c b = false -> flt c a = false.
Proof. intros Hb. rewrite <- !not_true_iff_false, !flt_key. unfold key_lt. intuition lia. Qed.

Lemma flt_num a b : flt a b = true -> is_num a /\ is_num b.
Proof. rewrite flt_key. tauto. Qed.

Lemma nflt_key a b : is_num a -> is_num b -> flt a b = false -> ~ key_lt (key a) (key b).
Proof. intros Ha Hb E K. apply not_true_iff_false in E. by apply E, flt_key. Qed.

Lemma flt_le_trans a b c : flt a b = true -> is_num c -> flt c b = false -> flt a c = true.
Proof.
  intros (Ha & Hb & K)%flt_key Hc N%nflt_key; [|done..]. apply flt_key. split_and!; [done..|]. unfold key_lt in *. lia.
Qed.

(** ** Multiplying by one changes nothing *)
Definition valid64 (x : float64) : bool := valid_binary 53 1024 x.

Lemma fmul_1_r x : valid64 x = true -> fmul x f1 = x.
Proof.
  unfold valid64, fmul. change f1 with (S754_finite false 4503599627370496 (-52)).
  destruct x as [s|s| |s m e]; simpl; try done; [by rewrite xorb_false_r..|].
  intros [Hc He]%andb_true_iff. unfold canonical_mantissa in Hc. apply Z.eqb_eq in Hc. rewrite xorb_false_r.
  unfold binary_round_aux, shr_fexp. rewrite Pos.mul_comm.
  let r := eval lazy in (4503599627370496 * m)%positive in change (4503599627370496 * m)%positive with r.
  cbn [Zdigits2 digits2_pos]. replace (Z.pos _ + (e + -52)) with (Z.pos (digits2_pos m) + e) by lia. rewrite Hc.
  replace (e - (e + -52)) with 52 by lia. cbn [shr shr_record_of_loc SpecFloat.iter_pos shr_1 orb shr_m loc_of_shr_record round_nearest_even Zdigits2].
  replace (e + -52 + 52) with e by lia. rewrite Hc, Z.sub_diag. cbn [shr shr_m]. by rewrite He.
Qed.
