(* ===== verification/Sampling.v ===== *)
(** * Kernel-side sampling and filtering

    src/internal/bpf/sampling.go: the controller of a collector's
    [sampling_config] map, the user-space rate limiter, and the controller of
    the kernel's comm and syscall filters. A kernel map is its contents; what
    the kernel answers to an update ([None] when it accepts it) is an argument
    of the operation that makes the call, an update that is refused changes
    nothing, and a refused batch may have written a prefix. Errors are values,
    their texts are not formatted. *)
From stdpp Require Import strings gmap.
From S2P Require Import Prelude GoBytes GoFloat.

Inductive BpfErr :=
| NilMap (name : gostring)
| UpdateSampling (e : gostring)
| UnknownEventType (et : gostring)
| SetComm (comm e : gostring)
| SyscallOutOfRange (nr : Z)
| SetSyscall (nr : Z) (e : gostring)
| EnableFilter (e : gostring)
| DisableFilter (e : gostring)
| SyscallSlot (i : Z) (e : gostring)
| BatchStats (e : gostring).

(** ** The sampling controller *)
Record SamplingConfig := mkSamplingConfig { sg_SyscallRate : Z; sg_NetworkRate : Z; sg_FileRate : Z; sg_Enabled : Z }.
#[export] Instance SamplingConfig_eq_dec : EqDecision SamplingConfig.
Proof. solve_decision. Defined.

Definition DefaultSamplingConfig : SamplingConfig := mkSamplingConfig 1 1 1 0.

(** [sc_map] is slot 0 of the kernel's map, [sc_config] the cached copy. *)
Record SamplingController := mkSamplingController { sc_map : SamplingConfig; sc_config : SamplingConfig; sc_hasBatch : bool }.

Definition NewSamplingController (configMap : option SamplingConfig) : result BpfErr SamplingController :=
  match configMap with
  | None => Err (NilMap "sampling config")
  | Some m => Ok (mkSamplingController m DefaultSamplingConfig false)
  end.

Definition UpdateConfig (upd : option gostring) (cfg : SamplingConfig) (sc : SamplingController) : SamplingController * option BpfErr :=
  match upd with
  | Some e => (sc, Some (UpdateSampling e))
  | None => (mkSamplingController cfg cfg (sc_hasBatch sc), None)
  end.

Definition SetBatchMode (enabled : bool) (sc : SamplingController) : SamplingController :=
  mkSamplingController (sc_map sc) (sc_config sc) enabled.

Definition SetSyscallRate (upd : option gostring) (rate : Z) (sc : SamplingController) : SamplingController * option BpfErr :=
  let cfg := sc_config sc in UpdateConfig upd (mkSamplingConfig rate (sg_NetworkRate cfg) (sg_FileRate cfg) 1) sc.
Definition SetNetworkRate (upd : option gostring) (rate : Z) (sc : SamplingController) : SamplingController * option BpfErr :=
  let cfg := sc_config sc in UpdateConfig upd (mkSamplingConfig (sg_SyscallRate cfg) rate (sg_FileRate cfg) 1) sc.
Definition SetFileRate (upd : option gostring) (rate : Z) (sc : SamplingController) : SamplingController * option BpfErr :=
  let cfg := sc_config sc in UpdateConfig upd (mkSamplingConfig (sg_SyscallRate cfg) (sg_NetworkRate cfg) rate 1) sc.
Definition SC_Enable (upd : option gostring) (sc : SamplingController) : SamplingController * option BpfErr :=
  let cfg := sc_config sc in UpdateConfig upd (mkSamplingConfig (sg_SyscallRate cfg) (sg_NetworkRate cfg) (sg_FileRate cfg) 1) sc.
Definition SC_Disable (upd : option gostring) (sc : SamplingController) : SamplingController * option BpfErr :=
  let cfg := sc_config sc in UpdateConfig upd (mkSamplingConfig (sg_SyscallRate cfg) (sg_NetworkRate cfg) (sg_FileRate cfg) 0) sc.

Section Rates.
(** What the machine gives for [uint32(x)] out of range. *)
Context (oor : float64 -> Z).

(** The 1-in-N rate of a fraction, the first half of both [SetSamplingRate]s. *)
Definition one_in_n (rate : float64) : Z :=
  if fle rate f0 then 0
  else if fge rate f1 then 1
  else let n := float_uint32 oor (fdiv f1 rate) in if n <? 1 then 1 else n.

Definition SC_SetSamplingRate (upd : option gostring) (eventType : gostring) (rate : float64) (sc : SamplingController)
    : SamplingController * option BpfErr :=
  let n := one_in_n rate in
  if decide (eventType = "syscall"%string) then SetSyscallRate upd n sc
  else if decide (eventType = "network"%string) then SetNetworkRate upd n sc
  else if decide (eventType = "file"%string) then SetFileRate upd n sc
  else (sc, Some (UnknownEventType eventType)).

(** [sampleRateToFloat] of main.go *)
Definition sampleRateToFloat (oneInN : Z) : float64 :=
  if oneInN =? 0 then f0 else fdiv f1 (float_of_Z oneInN).

(** ** The user-space rate limiter *)
Record RateLimiter := mkRateLimiter {
  rl_syscallCounter : Z; rl_networkCounter : Z; rl_fileCounter : Z;
  rl_syscallRate : Z; rl_networkRate : Z; rl_fileRate : Z; rl_enabled : bool }.

Definition NewRateLimiter (syscallRate networkRate fileRate : Z) : RateLimiter :=
  mkRateLimiter 0 0 0 syscallRate networkRate fileRate false.

(** One counter's decision, the body the three [Allow] methods share. *)
Definition allow (enabled : bool) (rate counter : Z) : bool * Z :=
  if negb enabled || (rate <=? 1) then (true, counter)
  else let count := u64 (counter + 1) in (count mod rate =? 1, count).

Definition AllowSyscall (rl : RateLimiter) : bool * RateLimiter :=
  let '(b, c) := allow (rl_enabled rl) (rl_syscallRate rl) (rl_syscallCounter rl) in
  (b, mkRateLimiter c (rl_networkCounter rl) (rl_fileCounter rl) (rl_syscallRate rl) (rl_networkRate rl) (rl_fileRate rl) (rl_enabled rl)).
Definition AllowNetwork (rl : RateLimiter) : bool * RateLimiter :=
  let '(b, c) := allow (rl_enabled rl) (rl_networkRate rl) (rl_networkCounter rl) in
  (b, mkRateLimiter (rl_syscallCounter rl) c (rl_fileCounter rl) (rl_syscallRate rl) (rl_networkRate rl) (rl_fileRate rl) (rl_enabled rl)).
Definition AllowFile (rl : RateLimiter) : bool * RateLimiter :=
  let '(b, c) := allow (rl_enabled rl) (rl_fileRate rl) (rl_fileCounter rl) in
  (b, mkRateLimiter (rl_syscallCounter rl) (rl_networkCounter rl) c (rl_syscallRate rl) (rl_networkRate rl) (rl_fileRate rl) (rl_enabled rl)).

Definition RL_set_enabled (b : bool) (rl : RateLimiter) : RateLimiter :=
  mkRateLimiter (rl_syscallCounter rl) (rl_networkCounter rl) (rl_fileCounter rl)
    (rl_syscallRate rl) (rl_networkRate rl) (rl_fileRate rl) b.
Definition SetRates (s n f : Z) (rl : RateLimiter) : RateLimiter :=
  mkRateLimiter (rl_syscallCounter rl) (rl_networkCounter rl) (rl_fileCounter rl) s n f (rl_enabled rl).

Definition RL_SetSamplingRate (eventType : gostring) (rate : float64) (rl : RateLimiter) : RateLimiter :=
  let n := one_in_n rate in
  if decide (eventType = "syscall"%string) then SetRates n (rl_networkRate rl) (rl_fileRate rl) rl
  else if decide (eventType = "network"%string) then SetRates (rl_syscallRate rl) n (rl_fileRate rl) rl
  else if decide (eventType = "file"%string) then SetRates (rl_syscallRate rl) (rl_networkRate rl) n rl
  else rl.
End Rates.

(** ** Event counters

    [GetStats] drains three counters, in one batch or one by one. A batch
    answers the entries it took and, unless it reached the end of the map, an
    error; [lookup] answers and removes one counter. *)
Record SamplingStats := mkSamplingStats { st_SyscallEvents : Z; st_NetworkEvents : Z; st_FileEvents : Z }.

Definition put_stat (st : SamplingStats) (k v : Z) : SamplingStats :=
  if k =? 0 then mkSamplingStats v (st_NetworkEvents st) (st_FileEvents st)
  else if k =? 1 then mkSamplingStats (st_SyscallEvents st) v (st_FileEvents st)
  else if k =? 2 then mkSamplingStats (st_SyscallEvents st) (st_NetworkEvents st) v
  else st.

Definition getStatsBatch (answer : list (Z * Z) * option gostring) : result BpfErr SamplingStats :=
  match answer with
  | (_, Some e) => Err (BatchStats e)
  | (kvs, None) => Ok (foldl (fun st kv => put_stat st kv.1 kv.2) (mkSamplingStats 0 0 0) kvs)
  end.
Definition getStatsSequential (lookup : Z -> option Z) : SamplingStats :=
  foldl (fun st i => match lookup i with Some v => put_stat st i v | None => st end) (mkSamplingStats 0 0 0) [0; 1; 2].
Definition GetStats (haveMap : bool) (sc : SamplingController) (answer : list (Z * Z) * option gostring) (lookup : Z -> option Z)
    : result BpfErr SamplingStats :=
  if negb haveMap then Err (NilMap "counters")
  else if sc_hasBatch sc then
    match getStatsBatch answer with Ok st => Ok st | _ => Ok (getStatsSequential lookup) end
  else Ok (getStatsSequential lookup).

(** ** The kernel filters *)
Definition DefaultMonitoredSyscalls : list Z := [59; 322; 101; 126; 308; 272; 319; 165; 166; 155; 161; 311; 310; 241].
Definition DefaultCommDenylist : list gostring :=
  ["kworker"; "ksoftirqd"; "migration"; "rcu_sched"; "rcu_preempt"; "kswapd0"; "kswapd1"]%string.
Definition DefaultNoisyDaemonDenylist : list gostring :=
  ["systemd-journal"; "rsyslogd"; "syslogd"; "node_exporter"; "telegraf"; "filebeat"; "fluentd"; "fluent-bit"]%string.

Definition BuildCommDenylist (kernelThreads daemons : list gostring) (disableDaemons : bool) : list gostring :=
  let kernelThreads := match kernelThreads with [] => DefaultCommDenylist | _ => kernelThreads end in
  if disableDaemons then kernelThreads
  else kernelThreads ++ match daemons with [] => DefaultNoisyDaemonDenylist | _ => daemons end.

(** The three maps, each absent in a controller built by hand. *)
Record KernelFilterController := mkKernelFilter {
  kf_comm : option (gmap gostring Z); kf_syscall : option (gmap Z Z); kf_config : option Z; kf_hasBatch : bool }.

Definition NewKernelFilterController (comm : option (gmap gostring Z)) (sys : option (gmap Z Z)) (cfg : option Z)
    : result BpfErr KernelFilterController :=
  match comm, sys, cfg with
  | None, _, _ => Err (NilMap "comm_filter_map")
  | _, None, _ => Err (NilMap "syscall_filter_map")
  | _, _, None => Err (NilMap "kernel_filter_config")
  | _, _, _ => Ok (mkKernelFilter comm sys cfg false)
  end.

(** The 16-byte key of a comm name: cut at 16 bytes, padded with NULs. *)
Definition comm_key (comm : gostring) : gostring := bytes_string (copy_into (replicate 16 Byte.x00) (string_bytes comm)).

Definition SetCommFilter (upd : option gostring) (comm : gostring) (pass : bool) (kf : KernelFilterController)
    : KernelFilterController * option BpfErr :=
  match kf_comm kf with
  | None => (kf, Some (NilMap "comm_filter_map"))
  | Some m =>
      match upd with
      | Some e => (kf, Some (SetComm comm e))
      | None => (mkKernelFilter (Some (<[comm_key comm := if pass then 1 else 0]> m)) (kf_syscall kf) (kf_config kf) (kf_hasBatch kf), None)
      end
  end.

Definition KF_SetBatchMode (enabled : bool) (kf : KernelFilterController) : KernelFilterController :=
  mkKernelFilter (kf_comm kf) (kf_syscall kf) (kf_config kf) enabled.

Definition put_syscalls (m : gmap Z Z) (kf : KernelFilterController) : KernelFilterController :=
  mkKernelFilter (kf_comm kf) (Some m) (kf_config kf) (kf_hasBatch kf).

(** [exist] and [any] are the answers to the updates with [UpdateExist] and,
    when that one fails, [UpdateAny]. *)
Definition SetSyscallFilter (exist any : option gostring) (nr : Z) (monitor : bool) (kf : KernelFilterController)
    : KernelFilterController * option BpfErr :=
  if (nr <? 0) || (512 <=? nr) then (kf, Some (SyscallOutOfRange nr))
  else match kf_syscall kf with
  | None => (kf, Some (NilMap "syscall_filter_map"))
  | Some m =>
      let m' := <[nr := if monitor then 1 else 0]> m in
      match exist, any with
      | None, _ | Some _, None => (put_syscalls m' kf, None)
      | Some _, Some e => (kf, Some (SetSyscall nr e))
      end
  end.

Definition KF_set (upd : option gostring) (v : Z) (err : gostring -> BpfErr) (kf : KernelFilterController)
    : KernelFilterController * option BpfErr :=
  match kf_config kf, upd with
  | None, _ => (kf, Some (NilMap "kernel_filter_config"))
  | Some _, Some e => (kf, Some (err e))
  | Some _, None => (mkKernelFilter (kf_comm kf) (kf_syscall kf) (Some v) (kf_hasBatch kf), None)
  end.
Definition KF_Enable (upd : option gostring) (kf : KernelFilterController) := KF_set upd 1 EnableFilter kf.
Definition KF_Disable (upd : option gostring) (kf : KernelFilterController) := KF_set upd 0 DisableFilter kf.

(** Run the steps up to the first error. *)
Fixpoint steps (fs : list (KernelFilterController -> KernelFilterController * option BpfErr)) (kf : KernelFilterController)
    : KernelFilterController * option BpfErr :=
  match fs with
  | [] => (kf, None)
  | f :: fs => match f kf with (kf', None) => steps fs kf' | r => r end
  end.
Definition LoadDefaultFilters (exist any : Z -> option gostring) (comm : gostring -> option gostring) (en : option gostring)
    (kf : KernelFilterController) : KernelFilterController * option BpfErr :=
  steps (map (fun nr => SetSyscallFilter (exist nr) (any nr) nr true) DefaultMonitoredSyscalls ++
         map (fun c => SetCommFilter (comm c) c false) DefaultCommDenylist ++ [KF_Enable en]) kf.

(** ** Replacing the syscall filter *)
Definition slots : list Z := seqZ 0 512.

Definition allow_set (nrs : list Z) : gset Z := list_to_set (filter (fun nr => nr < 512) nrs).
Definition slot_value (allow : gset Z) (i : Z) : Z := if decide (i ∈ allow) then 1 else 0.

Definition write_slots (allow : gset Z) (is_ : list Z) (m : gmap Z Z) : gmap Z Z :=
  foldl (fun m i => <[i := slot_value allow i]> m) m is_.

(** A refused batch wrote its first [written] entries. *)
Definition updateSyscallFilterBatch (answer : nat * option gostring) (allow : gset Z) (m : gmap Z Z) : gmap Z Z * option gostring :=
  match answer with
  | (written, Some e) => (write_slots allow (take written slots) m, Some e)
  | (_, None) => (write_slots allow slots m, None)
  end.

Fixpoint updateSlots (upd : Z -> option gostring) (allow : gset Z) (is_ : list Z) (m : gmap Z Z) : gmap Z Z * option BpfErr :=
  match is_ with
  | [] => (m, None)
  | i :: is_ =>
      match upd i with
      | Some e => (m, Some (SyscallSlot i e))
      | None => updateSlots upd allow is_ (<[i := slot_value allow i]> m)
      end
  end.
Definition updateSyscallFilterSequential (upd : Z -> option gostring) (allow : gset Z) (m : gmap Z Z) := updateSlots upd allow slots m.

Definition monitored (nrs : list Z) : list Z := match nrs with [] => DefaultMonitoredSyscalls | _ => nrs end.

Definition UpdateSyscallFilter (batch : nat * option gostring) (upd : Z -> option gostring) (nrs : list Z) (kf : KernelFilterController)
    : KernelFilterController * option BpfErr :=
  match kf_syscall kf with
  | None => (kf, Some (NilMap "syscall_filter_map"))
  | Some m =>
      let allow := allow_set (monitored nrs) in
      let '(m, done) := if kf_hasBatch kf then
          let '(m, e) := updateSyscallFilterBatch batch allow m in (m, bool_decide (e = None))
        else (m, false) in
      if done : bool then (put_syscalls m kf, None)
      else let '(m, e) := updateSyscallFilterSequential upd allow m in (put_syscalls m kf, e)
  end.

(** ** The syscall filter after a replacement *)
Lemma write_slots_lookup allow is_ m i :
  write_slots allow is_ m !! i = if decide (i ∈ is_) then Some (slot_value allow i) else m !! i.
Proof.
  revert m. induction is_ as [|j is_ IH]; intros m; [done|]. simpl. rewrite IH.
  destruct (decide (i ∈ is_)), (decide (i ∈ j :: is_)); try done; try set_solver.
  - assert (i = j) as -> by set_solver. by rewrite lookup_insert_eq.
  - rewrite lookup_insert_ne; [done|]. set_solver.
Qed.

(** The sequential loop writes a prefix, all of it when no update fails. *)
Lemma updateSlots_spec upd allow is_ m :
  exists done rest, is_ = done ++ rest /\ Forall (fun i => upd i = None) done /\
    updateSlots upd allow is_ m =
      (write_slots allow done m, match rest with [] => None | i :: _ => SyscallSlot i <$> upd i end) /\
    (forall i, head rest = Some i -> is_Some (upd i)).
Proof.
  revert m. induction is_ as [|i is_ IH]; intros m; [by exists [], []|]. simpl. destruct (upd i) as [e|] eqn:E.
  - exists [], (i :: is_). split_and!; [done|constructor|by rewrite E|]. intros ? [= <-]. by rewrite E.
  - destruct (IH (<[i := slot_value allow i]> m)) as (d & r & -> & Hd & -> & Hr). exists (i :: d), r. split_and!; auto.
Qed.

Lemma elem_of_slots i : i ∈ slots <-> 0 <= i < 512.
Proof. unfold slots. rewrite elem_of_seqZ. lia. Qed.

Lemma slot_value_monitored nrs i : i < 512 -> slot_value (allow_set nrs) i = if decide (i ∈ nrs) then 1 else 0.
Proof.
  intros Hi. unfold slot_value, allow_set. repeat case_decide; try done; exfalso.
  - apply elem_of_list_to_set, list_elem_of_filter in H. tauto.
  - apply H. by apply elem_of_list_to_set, list_elem_of_filter.
Qed.

(** [prefix_written d allow m m'] : [m'] is [m] after the slots [d] were written. *)
Definition prefix_written (d : list Z) (allow : gset Z) (m m' : gmap Z Z) : Prop :=
  forall i, m' !! i = if decide (i ∈ d) then Some (slot_value allow i) else m !! i.

Lemma slots_prefix d rest k : slots = d ++ k :: rest -> 0 <= k < 512 /\ forall i, i ∈ d <-> 0 <= i < k.
Proof.
  intros E. assert (k ∈ slots) as Hk by (rewrite E; set_solver). apply elem_of_slots in Hk. split; [done|].
  assert (length d = Z.to_nat k) as Hl.
  { assert (slots !! length d = Some k) as L by (rewrite E; apply list_lookup_middle; done).
    unfold slots in L. apply lookup_seqZ in L. lia. }
  intros i. assert (d = take (length d) slots) as ->. { by rewrite E, take_app_length. }
  split.
  - intros (n & Hn)%list_elem_of_lookup_1. apply lookup_take_Some in Hn as [Hn Hlt]. unfold slots in Hn. apply lookup_seqZ in Hn. lia.
  - intros Hi. apply list_elem_of_lookup_2 with (Z.to_nat i). apply lookup_take_Some. split; [unfold slots; apply lookup_seqZ; lia|].
    assert (length d < 512)%nat by lia. lia.
Qed.

#[local] Opaque slots.

(** What the filter holds once the call returns, by the call's answer. *)
Definition filter_after (nrs : list Z) (m m' : gmap Z Z) (r : option BpfErr) : Prop :=
  (forall i, ~ 0 <= i < 512 -> m' !! i = m !! i) /\
  match r with
  | None => forall i, 0 <= i < 512 -> m' !! i = Some (if decide (i ∈ monitored nrs) then 1 else 0)
  | Some e => exists k msg, e = SyscallSlot k msg /\ 0 <= k < 512 /\
      (forall i, 0 <= i < k -> m' !! i = Some (if decide (i ∈ monitored nrs) then 1 else 0)) /\
      (forall i, k <= i < 512 -> m' !! i = m !! i \/ m' !! i = Some (if decide (i ∈ monitored nrs) then 1 else 0))
  end.

Lemma sequential_after upd nrs m0 m b :
  (forall i, m0 !! i = if decide (i ∈ take b slots) then Some (slot_value (allow_set (monitored nrs)) i) else m !! i) ->
  filter_after nrs m (updateSyscallFilterSequential upd (allow_set (monitored nrs)) m0).1
    (updateSyscallFilterSequential upd (allow_set (monitored nrs)) m0).2.
Proof.
  intros Hb. unfold updateSyscallFilterSequential.
  destruct (updateSlots_spec upd (allow_set (monitored nrs)) slots m0) as (d & rest & E & Hd & -> & Hr). simpl.
  assert (forall i, i ∈ take b slots -> 0 <= i < 512) as Ht.
  { intros i Hi. apply elem_of_slots. apply list_elem_of_lookup_1 in Hi as [n Hn]. apply lookup_take_Some in Hn as [Hn _]. by apply list_elem_of_lookup_2 in Hn. }
  assert (forall i, i ∈ d -> 0 <= i < 512) as Hin. { intros i Hi. apply elem_of_slots. rewrite E. set_solver. }
  split.
  { intros i Hi. rewrite write_slots_lookup, Hb. repeat case_decide; try done; exfalso; naive_solver. }
  destruct rest as [|k rest].
  - rewrite app_nil_r in E. intros i Hi. rewrite write_slots_lookup, <- slot_value_monitored by lia. rewrite decide_True; [done|]. rewrite <- E. by apply elem_of_slots.
  - destruct (Hr k eq_refl) as [msg Hm]. rewrite Hm. exists k, msg. destruct (slots_prefix d rest k E) as [Hk Hp]. split_and!; [done|lia..| |].
    + intros i Hi. rewrite write_slots_lookup, decide_True, slot_value_monitored by (lia || by apply Hp). done.
    + intros i Hi. rewrite write_slots_lookup, decide_False by (rewrite Hp; lia). rewrite Hb. case_decide; [|by left]. right. rewrite slot_value_monitored by lia. done.
Qed.

(** Claim C25. Replacing the syscall filter: when the call succeeds, in one batch or slot
    by slot after the batch failed, each of the 512 slots is 1 exactly for the
    syscalls asked for (the default set when none is), and nothing else in the
    map changed. When it fails, the error names the slot where it stopped: the
    slots below it are replaced, the others are old or were replaced by the
    failed batch, so the filter is a mixture of both sets. *)
Theorem syscall_filter_replaced batch upd nrs kf m :
  kf_syscall kf = Some m ->
  exists m', kf_syscall (UpdateSyscallFilter batch upd nrs kf).1 = Some m' /\
    filter_after nrs m m' (UpdateSyscallFilter batch upd nrs kf).2.
Proof.
  intros Hm. unfold UpdateSyscallFilter. rewrite Hm.
  assert (forall m0 b, (forall i, m0 !! i = if decide (i ∈ take b slots) then Some (slot_value (allow_set (monitored nrs)) i) else m !! i) ->
    exists m', kf_syscall (let '(m, e) := updateSyscallFilterSequential upd (allow_set (monitored nrs)) m0 in (put_syscalls m kf, e)).1 = Some m' /\
    filter_after nrs m m' (let '(m, e) := updateSyscallFilterSequential upd (allow_set (monitored nrs)) m0 in (put_syscalls m kf, e)).2) as Seq.
  { intros m0 b Hb. pose proof (sequential_after upd nrs m0 m b Hb) as K. destruct (updateSyscallFilterSequential _ _ m0) as [m' e]. eauto. }
  destruct (kf_hasBatch kf).
  - unfold updateSyscallFilterBatch. destruct batch as [w [e|]]; simpl.
    + apply (Seq _ w). apply write_slots_lookup.
    + eexists. split; [reflexivity|]. split; intros i Hi; rewrite write_slots_lookup.
      * rewrite decide_False; [done|]. by rewrite elem_of_slots.
      * rewrite decide_True by (by apply elem_of_slots). rewrite slot_value_monitored by lia. done.
  - apply (Seq _ 0%nat). intros i. rewrite take_0, decide_False by set_solver. done.
Qed.

(** ** The share a rate limiter lets through *)
Fixpoint run_allow (k : nat) (rl : RateLimiter) : Z * RateLimiter :=
  match k with
  | O => (0, rl)
  | S k => let '(n, rl) := run_allow k rl in let '(b, rl) := AllowSyscall rl in (n + (if b then 1 else 0), rl)
  end.

Lemma run_allow_spec N k a b c d e :
  2 <= N < 2 ^ 32 -> Z.of_nat k < 2 ^ 64 ->
  run_allow k (mkRateLimiter 0 a b N c d e) =
    if e then ((Z.of_nat k + N - 1) / N, mkRateLimiter (Z.of_nat k) a b N c d e) else (Z.of_nat k, mkRateLimiter 0 a b N c d e).
Proof.
  intros HN. induction k as [|k IH]; intros Hk.
  - simpl. rewrite (Z.div_small (0 + N - 1)) by lia. by destruct e.
  - cbn [run_allow]. rewrite IH by lia. replace (Z.of_nat (S k)) with (Z.of_nat k + 1) by lia.
    unfold AllowSyscall, allow. destruct e; cbn -[Z.of_nat Z.add Z.sub Z.div].
    + assert ((N <=? 1) = false) as -> by (apply Z.leb_gt; lia). unfold u64. rewrite wrap_id by (unfold in_range; lia).
      f_equal.
      destruct (Z.eqb_spec ((Z.of_nat k + 1) mod N) 1) as [E|E].
      * pose proof (Z.div_mod (Z.of_nat k + 1) N).
        rewrite <- (Z.div_unique (Z.of_nat k + N - 1) N ((Z.of_nat k + 1) / N) (N - 1)) by lia.
        rewrite <- (Z.div_unique (Z.of_nat k + 1 + N - 1) N ((Z.of_nat k + 1) / N + 1) 0) by lia. lia.
      * assert (Z.of_nat k mod N <> 0) as Hne.
        { intros H0. apply E. rewrite Z.add_mod, H0 by lia. rewrite (Z.mod_small 1) by lia. apply Z.mod_small. lia. }
        pose proof (Z.div_mod (Z.of_nat k) N). pose proof (Z.mod_pos_bound (Z.of_nat k) N).
        rewrite <- (Z.div_unique (Z.of_nat k + N - 1) N (Z.of_nat k / N + 1) (Z.of_nat k mod N - 1)) by lia.
        rewrite <- (Z.div_unique (Z.of_nat k + 1 + N - 1) N (Z.of_nat k / N + 1) (Z.of_nat k mod N)) by lia. lia.
    + done.
Qed.

(** ** Statistics *)

(** A batch that answers every counter once agrees with reading them one by
    one. *)
Lemma stats_agree kvs lookup :
  (forall i, i ∈ [0; 1; 2] -> lookup i = (list_to_map kvs : gmap Z Z) !! i) -> NoDup kvs.*1 -> (forall k, k ∈ kvs.*1 -> k ∈ [0; 1; 2]) ->
  getStatsBatch (kvs, None) = Ok (getStatsSequential lookup).
Proof.
  intros Hl Hd Hk. unfold getStatsSequential. cbn [foldl]. rewrite !Hl by set_solver. unfold getStatsBatch. f_equal.
  assert (forall st, foldl (fun st kv => put_stat st kv.1 kv.2) st kvs =
    mkSamplingStats (default (st_SyscallEvents st) ((list_to_map kvs : gmap Z Z) !! 0))
      (default (st_NetworkEvents st) ((list_to_map kvs : gmap Z Z) !! 1)) (default (st_FileEvents st) ((list_to_map kvs : gmap Z Z) !! 2))) as ->.
  { clear Hl. induction kvs as [|[k v] kvs IH]; intros st; [by destruct st|]. simpl. apply NoDup_cons in Hd as [Hn Hd].
    rewrite IH by (done || intros; apply Hk; set_solver). assert (k ∈ [0; 1; 2]) as K by (apply Hk; set_solver).
    apply (not_elem_of_list_to_map_1 (M:=gmap Z)) in Hn. cbn in Hn. rewrite !list_elem_of_In in K. destruct K as [<-|[<-|[<-|[]]]]; simpl;
      rewrite lookup_insert_eq, !lookup_insert_ne, Hn by done; done. }
  by destruct (_ !! 0), (_ !! 1), (_ !! 2).
Qed.

(** ** From a 1-in-N rate to a fraction and back *)
Definition rate_back (oor : float64 -> Z) (n : Z) : Z := one_in_n oor (sampleRateToFloat n).

Lemma rate_back_computed oor :
  forallb (fun n => (rate_back oor n =? n) || ((rate_back oor n =? n - 1) && (93 <=? n))) (seqZ 0 513) = true.
Proof. vm_compute. reflexivity. Qed.

Lemma in_rates n : 0 <= n <= 512 -> In n (seqZ 0 513).
Proof. intros Hn. apply list_elem_of_In, elem_of_seqZ. lia. Qed.

Lemma rate_back_close oor n : 0 <= n <= 512 -> rate_back oor n = n \/ (93 <= n /\ rate_back oor n = n - 1).
Proof.
  intros Hn. pose proof (rate_back_computed oor) as H. rewrite forallb_forall in H.
  specialize (H n (in_rates n Hn)). apply orb_true_iff in H as [H|H]; zbool; lia.
Qed.

(** The fraction of a rate up to 512 is a float between 0 and 1. *)
Lemma sampleRateToFloat_range n : 0 <= n <= 512 ->
  valid64 (sampleRateToFloat n) = true /\ flt (sampleRateToFloat n) f0 = false /\ flt f1 (sampleRateToFloat n) = false.
Proof.
  intros Hn. assert (forallb (fun n => valid64 (sampleRateToFloat n) && negb (flt (sampleRateToFloat n) f0) && negb (flt f1 (sampleRateToFloat n)))
    (seqZ 0 513) = true) as H by (vm_compute; reflexivity).
  rewrite forallb_forall in H. specialize (H n (in_rates n Hn)). zbool. tauto.
Qed.

(** ** Examples *)
Module Example_sampling.
Definition filter : KernelFilterController := mkKernelFilter (Some ∅) (Some ∅) (Some 0) true.

(** The batch is refused after two entries and the slot loop stops at slot 60:
    the slots below it are replaced, the others were never written. *)
Lemma syscall_filter_replaced_witness :
  exists m', kf_syscall (UpdateSyscallFilter (2%nat, Some "EFAULT"%string) (fun i => if i =? 60 then Some "EPERM"%string else None) [1; 59; 62] filter).1 = Some m' /\
    m' !! 59 = Some 1 /\ m' !! 60 = None.
Proof.
  destruct (syscall_filter_replaced (2%nat, Some "EFAULT"%string) (fun i => if i =? 60 then Some "EPERM"%string else None) [1; 59; 62] filter ∅)
    as (m' & E & _ & F); [reflexivity|]. exists m'. split; [exact E|].
  vm_compute in E. injection E as <-. vm_compute. done.
Defined.
End Example_sampling.
