(* ===== verification/Arbiter.v ===== *)
(** * Sampling arbiter

    src/internal/watchdog/multibpf.go: one base rate per event type, one factor
    per controller and event type, and the rate base x least factor written to
    the collector's sampling controller after every change; and
    [enableSampling] of src/cmd/ebpf-guard/main.go, which brings a collector's
    controller up. The sampling controllers are shared objects: the arbiter
    holds handles into a store. Go ranges over a map in any order; [range] is
    that order. *)
From stdpp Require Import strings gmap.
From S2P Require Import Prelude GoFloat Sampling.

Definition legacyControllerName : gostring := "legacy".
Abbreviation factors := (gmap gostring (gmap gostring float64)).

Record Mux := mkMux {
  mx_controllers : gmap gostring nat;
  mx_base : gmap gostring float64;
  mx_mult : factors;
  mx_gauge : gmap gostring float64;
  mx_heap : gmap nat SamplingController }.

Definition NewMultiBPFController (heap : gmap nat SamplingController) : Mux := mkMux ∅ ∅ ∅ ∅ heap.

(** A rate clamped to [0,1], as the end of [effectiveLocked] does. *)
Definition clamp01 (x : float64) : float64 :=
  let x := if flt x f0 then f0 else x in if fgt x f1 then f1 else x.

(** The rate configured for an event type, the [switch] of [enableSampling]. *)
Definition configured (et : gostring) (sc : SamplingConfig) : Z :=
  if decide (et = "syscall"%string) then sg_SyscallRate sc
  else if decide (et = "network"%string) then sg_NetworkRate sc
  else if decide (et = "file"%string) then sg_FileRate sc else 0.

Section Mux.
Context (oor : float64 -> Z) (range : factors -> list (gostring * gmap gostring float64)).

Definition lower (et : gostring) (mn : float64) (byType : gmap gostring float64) : float64 :=
  match byType !! et with
  | Some f => if flt f mn then f else mn
  | None => mn
  end.
Definition minMult (et : gostring) (fs : list (gmap gostring float64)) : float64 := foldl (lower et) f1 fs.

Definition effectiveLocked (m : Mux) (et : gostring) : float64 :=
  clamp01 (fmul (default f1 (mx_base m !! et)) (minMult et (range (mx_mult m)).*2)).

Definition applyLocked (upd : option gostring) (et : gostring) (m : Mux) : Mux :=
  let eff := effectiveLocked m et in
  let heap := match mx_controllers m !! et with
    | None => mx_heap m
    | Some h => alter (fun c => (SC_SetSamplingRate oor upd et eff c).1) h (mx_heap m)
    end in
  mkMux (mx_controllers m) (mx_base m) (mx_mult m) (<[et := eff]> (mx_gauge m)) heap.

Definition Register (upd : option gostring) (et : gostring) (ctrl : option nat) (m : Mux) : Mux :=
  match ctrl with
  | None => m
  | Some h =>
      let m := mkMux (<[et := h]> (mx_controllers m)) (mx_base m) (mx_mult m) (mx_gauge m) (mx_heap m) in
      if flt (effectiveLocked m et) f1 then applyLocked upd et m else m
  end.

Definition SetBaseRate (upd : option gostring) (et : gostring) (rate : float64) (m : Mux) : Mux :=
  applyLocked upd et (mkMux (mx_controllers m) (<[et := rate]> (mx_base m)) (mx_mult m) (mx_gauge m) (mx_heap m)).

Definition setMultiplier (upd : option gostring) (name et : gostring) (factor : float64) (m : Mux) : Mux :=
  let byType := default ∅ (mx_mult m !! name) in
  applyLocked upd et
    (mkMux (mx_controllers m) (mx_base m) (<[name := <[et := factor]> byType]> (mx_mult m)) (mx_gauge m) (mx_heap m)).

Definition Mux_SetSamplingRate (upd : option gostring) (et : gostring) (rate : float64) (m : Mux) : Mux :=
  setMultiplier upd legacyControllerName et rate m.

(** The handle [Controller(name)] gives. *)
Record bpfControllerView := mkView { v_name : gostring }.
Definition Controller (name : gostring) : bpfControllerView := mkView name.
Definition View_SetSamplingRate (v : bpfControllerView) (upd : option gostring) (et : gostring) (rate : float64) (m : Mux) : Mux :=
  setMultiplier upd (v_name v) et rate m.

Definition EffectiveRates (m : Mux) : gmap gostring float64 :=
  let types : gset gostring := dom (mx_base m) ∪ ⋃ (map (fun p => dom p.2) (map_to_list (mx_mult m))) in
  set_to_map (fun et => (et, effectiveLocked m et)) types.

(** [enableSampling]: a controller over the collector's map (none when the
    collector has none), its startup configuration, registration and base
    rate; [u0], [u1], [u2] are the kernel's answers. *)
Definition enableSampling (u0 u1 u2 : option gostring) (configMap : option SamplingConfig) (sc : SamplingConfig)
    (eventType : gostring) (m : Mux) : Mux :=
  match NewSamplingController configMap with
  | Err _ | Panic => m
  | Ok ctrl =>
      match UpdateConfig u0 (mkSamplingConfig (sg_SyscallRate sc) (sg_NetworkRate sc) (sg_FileRate sc) 1) ctrl with
      | (_, Some _) => m
      | (ctrl, None) =>
          let h := fresh (dom (mx_heap m)) in
          let m := mkMux (mx_controllers m) (mx_base m) (mx_mult m) (mx_gauge m) (<[h := ctrl]> (mx_heap m)) in
          SetBaseRate u2 eventType (sampleRateToFloat (configured eventType sc)) (Register u1 eventType (Some h) m)
      end
  end.

(** ** Histories *)
Inductive mux_op :=
| OEnable (u0 u1 u2 : option gostring) (configMap : option SamplingConfig) (sc : SamplingConfig) (et : gostring)
| OBase (upd : option gostring) (et : gostring) (rate : float64)
| OFactor (upd : option gostring) (name et : gostring) (factor : float64).

Definition mux_step (m : Mux) (o : mux_op) : Mux :=
  match o with
  | OEnable u0 u1 u2 cm sc et => enableSampling u0 u1 u2 cm sc et m
  | OBase upd et rate => SetBaseRate upd et rate m
  | OFactor upd name et f => setMultiplier upd name et f m
  end.
Definition mux_run (ops : list mux_op) : Mux := foldl mux_step (NewMultiBPFController ∅) ops.

(** The kernel's rate for an event type, when sampling is on in its map. *)
Definition rate_field (et : gostring) (c : SamplingConfig) : Z :=
  if decide (et = "syscall"%string) then sg_SyscallRate c
  else if decide (et = "network"%string) then sg_NetworkRate c else sg_FileRate c.
Definition kernel_rate (m : Mux) (et : gostring) : option Z :=
  h ← mx_controllers m !! et; c ← mx_heap m !! h;
  if sg_Enabled (sc_map c) =? 1 then Some (rate_field et (sc_map c)) else None.
End Mux.

(** ** What a history asks for

    The base rate last set for an event type and the factor a controller last
    set for it, read off the calls alone. *)
Fixpoint last_base (et : gostring) (acc : option float64) (ops : list mux_op) : option float64 :=
  match ops with
  | [] => acc
  | OEnable None _ _ (Some _) sc et' :: ops =>
      last_base et (if decide (et' = et) then Some (sampleRateToFloat (configured et sc)) else acc) ops
  | OBase _ et' r :: ops => last_base et (if decide (et' = et) then Some r else acc) ops
  | _ :: ops => last_base et acc ops
  end.
Fixpoint last_factor (name et : gostring) (acc : option float64) (ops : list mux_op) : option float64 :=
  match ops with
  | [] => acc
  | OFactor _ n et' f :: ops => last_factor name et (if decide (n = name /\ et' = et) then Some f else acc) ops
  | _ :: ops => last_factor name et acc ops
  end.

Definition op_name (o : mux_op) : option gostring := match o with OFactor _ n _ _ => Some n | _ => None end.
Definition op_type (o : mux_op) : gostring := match o with OEnable _ _ _ _ _ et | OBase _ et _ | OFactor _ _ et _ => et end.

(** The rate the history asks for: the base scaled by the least factor. *)
Definition asked_factors (et : gostring) (ops : list mux_op) : list float64 :=
  omap (fun n => last_factor n et None ops) (omap op_name ops).
Definition fmin (a b : float64) : float64 := if flt b a then b else a.
Definition asked_rate (et : gostring) (ops : list mux_op) : float64 :=
  clamp01 (fmul (default f1 (last_base et None ops)) (foldl fmin f1 (asked_factors et ops))).

(** ** Floats up to the sign of zero *)
Definition feqv (a b : float64) : Prop := a = b \/ exists s t, a = SpecFloat.S754_zero s /\ b = SpecFloat.S754_zero t.

#[export] Instance feqv_equiv : Equivalence feqv.
Proof.
  split; [by left|intros a b [->|(s & t & -> & ->)]; [by left|by right; eauto]|].
  intros a b c [->|(s & t & -> & ->)]; [done|]. intros [<-|(s' & t' & _ & ->)]; right; eauto.
Qed.

#[export] Instance fmul_proper x : Proper (feqv ==> feqv) (fmul x).
Proof. intros a b [->|(s & t & -> & ->)]; [done|]. destruct x; simpl; try (by left); right; eauto. Qed.

#[export] Instance clamp01_proper : Proper (feqv ==> feqv) clamp01.
Proof. intros a b [->|(s & t & -> & ->)]; [done|]. right. by exists s, t. Qed.

#[export] Instance one_in_n_proper oor : Proper (feqv ==> eq) (one_in_n oor).
Proof. by intros a b [->|(s & t & -> & ->)]. Qed.

Lemma feqv_num a b : is_num a -> is_num b -> flt a b = false -> flt b a = false -> feqv a b.
Proof.
  intros Ha Hb K1%nflt_key K2%nflt_key; [|done..]. assert (key a = key b) as K.
  { destruct (key a) as [[a1 a2] a3], (key b) as [[b1 b2] b3]. unfold key_lt in *. simpl in *. f_equal; [f_equal|]; lia. }
  destruct a as [sa|[]| |[] ma ea], b as [sb|[]| |[] mb eb]; simpl in K; try done; try (by left); try (right; by eauto).
  all: injection K as K1' K2'; left; f_equal; lia.
Qed.

(** ** The least factor *)
Lemma fmin_spec acc l : is_num acc ->
  let r := foldl fmin acc l in
  is_num r /\ (r = acc \/ r ∈ l) /\ flt acc r = false /\ forall x, x ∈ l -> flt x r = false.
Proof.
  revert acc. induction l as [|x l IH]; intros acc Hacc; simpl.
  - split_and!; [done|by left|apply flt_irrefl|set_solver].
  - assert (is_num (fmin acc x) /\ flt acc (fmin acc x) = false /\ flt x (fmin acc x) = false /\ (fmin acc x = acc \/ fmin acc x = x)) as (N & A & X & C).
    { unfold fmin. destruct (flt x acc) eqn:E; split_and!; auto using flt_irrefl; [by destruct (flt_num _ _ E)|].
      apply not_true_iff_false. intros E'. pose proof (flt_trans _ _ _ E E') as T. by rewrite flt_irrefl in T. }
    destruct (IH _ N) as (N' & C' & A' & L'). split_and!; [done|..].
    + destruct C' as [->|]; [destruct C as [->| ->]|]; set_solver.
    + by apply (nflt_trans _ (fmin acc x)).
    + intros y [->|Hy]%elem_of_cons; [|auto]. by apply (nflt_trans _ (fmin acc x)).
Qed.

(** Factors that are not below one do not count. *)
Lemma fmin_same l1 l2 :
  (forall x, flt x f1 = true -> x ∈ l1 <-> x ∈ l2) -> feqv (foldl fmin f1 l1) (foldl fmin f1 l2).
Proof.
  intros Hl. assert (forall l l', (forall x, flt x f1 = true -> x ∈ l -> x ∈ l') -> flt (foldl fmin f1 l) (foldl fmin f1 l') = false) as H.
  { intros l l' Hs. destruct (fmin_spec f1 l) as (_ & [->|Hr] & _ & _); [done|by destruct (fmin_spec f1 l') as (_ & _ & ? & _)|].
    destruct (fmin_spec f1 l') as (_ & _ & H1 & H2); [done|]. destruct (flt (foldl fmin f1 l) f1) eqn:E; [by apply H2, Hs|].
    by apply (nflt_trans _ f1). }
  apply feqv_num; [by apply fmin_spec..| |]; apply H; intros x Hx; by apply Hl.
Qed.

Lemma minMult_fmin et fs acc : foldl (lower et) acc fs = foldl fmin acc (omap (lookup et) fs).
Proof.
  revert acc. induction fs as [|b fs IH]; intros acc; [done|]. simpl. rewrite IH. unfold lower. simpl. by destruct (b !! et).
Qed.

Lemma last_base_app et acc ops ops' : last_base et acc (ops ++ ops') = last_base et (last_base et acc ops) ops'.
Proof. revert acc. induction ops as [|[[] ? ? [] ? ?|? ? ?|? ? ? ?] ops IH]; intros acc; simpl; auto. Qed.
Lemma last_factor_app n et acc ops ops' : last_factor n et acc (ops ++ ops') = last_factor n et (last_factor n et acc ops) ops'.
Proof. revert acc. induction ops as [|[] ops IH]; intros acc; simpl; auto. Qed.

Lemma last_factor_named n et f ops : last_factor n et None ops = Some f -> n ∈ omap op_name ops.
Proof.
  induction ops as [|o ops IH] using rev_ind; [done|]. rewrite last_factor_app, omap_app. destruct o; simpl; [set_solver..|].
  case_decide; [|set_solver]. intros _. set_solver.
Qed.

(** ** The arbiter follows its history *)
Section Correct.
Context (oor : float64 -> Z) (range : factors -> list (gostring * gmap gostring float64)).
Context (range_perm : forall m, range m ≡ₚ map_to_list m).

Abbreviation eff := (effectiveLocked range).
Abbreviation apply_ := (applyLocked oor range).
Abbreviation step := (mux_step oor range).
Abbreviation run := (mux_run oor range).

(** The factor a controller has for an event type now. *)
Definition factor (m : Mux) (name et : gostring) : option float64 := mx_mult m !! name ≫= lookup et.

Lemma factors_now m et x : x ∈ omap (lookup et) (range (mx_mult m)).*2 <-> exists n, factor m n et = Some x.
Proof.
  rewrite list_elem_of_omap. unfold factor. split.
  - intros (b & Hb & Hx). rewrite range_perm in Hb. apply list_elem_of_fmap in Hb as ([n b'] & -> & Hb).
    apply elem_of_map_to_list in Hb. exists n. simpl in *. by rewrite Hb.
  - intros (n & H). destruct (mx_mult m !! n) as [b|] eqn:E; [|done]. exists b. split; [|done].
    rewrite range_perm. apply list_elem_of_fmap. exists (n, b). split; [done|]. by apply elem_of_map_to_list.
Qed.

(** Two states that agree on an event type have the same rate for it. *)
Lemma eff_same m1 m2 et :
  mx_base m1 !! et = mx_base m2 !! et -> (forall n, factor m1 n et = factor m2 n et) -> feqv (eff m1 et) (eff m2 et).
Proof.
  intros Hb Hf. unfold effectiveLocked, minMult. rewrite Hb, !minMult_fmin. apply clamp01_proper, fmul_proper, fmin_same.
  intros x _. rewrite !factors_now. by setoid_rewrite Hf.
Qed.

Lemma factor_set m upd n0 et0 f n et :
  factor (setMultiplier oor range upd n0 et0 f m) n et = if decide (n0 = n /\ et0 = et) then Some f else factor m n et.
Proof.
  unfold factor. simpl. destruct (decide (n0 = n)) as [<-|Hn].
  - rewrite lookup_insert_eq. simpl. destruct (decide (et0 = et)) as [<-|He].
    + by rewrite lookup_insert_eq, decide_True.
    + rewrite lookup_insert_ne, decide_False by tauto. by destruct (mx_mult m !! n0).
  - by rewrite lookup_insert_ne, decide_False by tauto.
Qed.

Lemma Register_keeps upd et c m :
  mx_base (Register oor range upd et c m) = mx_base m /\ mx_mult (Register oor range upd et c m) = mx_mult m.
Proof. unfold Register. destruct c; [|done]. by destruct (flt _ _). Qed.

#[local] Opaque Register.

(** Bases and factors are the ones last asked for. *)
Lemma step_base m o et : mx_base (step m o) !! et = last_base et (mx_base m !! et) [o].
Proof.
  destruct o as [u0 u1 u2 cm sc e|u e r|u n e f]; simpl; [|by destruct (decide (e = et)) as [->|]; rewrite ?lookup_insert_eq, ?lookup_insert_ne|done].
  unfold enableSampling. destruct cm as [cm|]; [|by destruct u0]. destruct u0; [done|]. simpl.
  destruct (decide (e = et)) as [->|]; rewrite ?lookup_insert_eq, ?lookup_insert_ne by done; [done|].
  by rewrite (proj1 (Register_keeps _ _ _ _)).
Qed.

Lemma step_factor m o n et : factor (step m o) n et = last_factor n et (factor m n et) [o].
Proof.
  destruct o as [u0 u1 u2 cm sc e|u e r|u n0 e f]; [|done|apply factor_set]. simpl. unfold enableSampling, factor.
  destruct cm as [cm|]; [|done]. destruct u0; [done|]. simpl. by rewrite (proj2 (Register_keeps _ _ _ _)).
Qed.

Lemma run_app ops o : run (ops ++ [o]) = step (run ops) o.
Proof. unfold mux_run. by rewrite foldl_app. Qed.

Lemma run_history ops et : mx_base (run ops) !! et = last_base et None ops /\ forall n, factor (run ops) n et = last_factor n et None ops.
Proof.
  induction ops as [|o ops [IHb IHf]] using rev_ind.
  - split; [done|]. done.
  - rewrite run_app, step_base, last_base_app, IHb. split; [done|]. intros n. by rewrite step_factor, last_factor_app, IHf.
Qed.

Lemma eff_asked ops et : feqv (eff (run ops) et) (asked_rate et ops).
Proof.
  destruct (run_history ops et) as [Hb Hf]. unfold effectiveLocked, minMult, asked_rate. rewrite Hb, minMult_fmin.
  apply clamp01_proper, fmul_proper, fmin_same. intros x _. rewrite factors_now. unfold asked_factors. rewrite list_elem_of_omap.
  setoid_rewrite Hf. split; intros [n Hn]; [|naive_solver]. exists n. split; [by apply last_factor_named in Hn|done].
Qed.

(** ** The kernel follows the arbiter

    Every update is accepted in this part. A registered controller is in the
    store, its cached configuration is the kernel's, sampling is on, and the
    rate of the event type it is registered for is the arbiter's. *)
Definition sampled (et : gostring) : Prop := et ∈ ["syscall"; "network"; "file"]%string.
#[local] Instance sampled_dec et : Decision (sampled et) := decide_rel elem_of et _.

Definition live (c : SamplingController) : Prop := sg_Enabled (sc_map c) = 1 /\ sc_config c = sc_map c.
Definition in_sync (m : Mux) (et : gostring) : Prop :=
  forall h, mx_controllers m !! et = Some h ->
    exists c, mx_heap m !! h = Some c /\ live c /\ (sampled et -> rate_field et (sc_map c) = one_in_n oor (eff m et)).

(** Writing one event type's rate. *)
Lemma set_rate_spec et r c : live c ->
  let c' := (SC_SetSamplingRate oor None et r c).1 in
  live c' /\ (sampled et -> rate_field et (sc_map c') = one_in_n oor r) /\
  forall et', et' <> et -> sampled et' -> rate_field et' (sc_map c') = rate_field et' (sc_map c).
Proof.
  intros [He Hc]. unfold SC_SetSamplingRate, SetSyscallRate, SetNetworkRate, SetFileRate, rate_field, live, sampled. rewrite Hc.
  repeat case_decide; subst; simpl; split_and!; try done; intros; repeat case_decide; subst; simplify_eq; try done; set_solver.
Qed.

Lemma apply_sync m et :
  (forall et', et' <> et -> in_sync m et') ->
  (forall h, mx_controllers m !! et = Some h -> exists c, mx_heap m !! h = Some c /\ live c) ->
  forall et', in_sync (apply_ None et m) et'.
Proof.
  intros Ho Hl et' h Hh. cbn [applyLocked mx_controllers mx_heap] in *.
  assert (exists c, mx_heap m !! h = Some c /\ live c) as (c & Ec & Lc).
  { destruct (decide (et' = et)) as [->|Hne]; [auto|]. destruct (Ho et' Hne h Hh) as (c & ? & ? & _). eauto. }
  destruct (mx_controllers m !! et) as [h0|] eqn:E0.
  - destruct (decide (h0 = h)) as [->|Hh0].
    + rewrite lookup_alter_eq, Ec. simpl. eexists. split; [reflexivity|]. destruct (set_rate_spec et (eff m et) c Lc) as (L & S & F).
      split; [exact L|]. intros Hs. destruct (decide (et' = et)) as [->|Hne]; [by apply S|]. rewrite F by done.
      destruct (Ho et' Hne h Hh) as (c' & Ec' & _ & R). rewrite Ec in Ec'. simplify_eq. by apply R.
    + rewrite lookup_alter_ne, Ec by done. assert (et' <> et) as Hne by (intros ->; congruence).
      destruct (Ho et' Hne h Hh) as (c' & Ec' & L & R). rewrite Ec in Ec'. simplify_eq. eauto.
  - assert (et' <> et) as Hne by (intros ->; congruence). by apply Ho.
Qed.

(** What a state without the event type [et] asks of the others. *)
Lemma sync_transfer m m' et :
  mx_controllers m' !! et = mx_controllers m !! et ->
  (forall h c, mx_heap m !! h = Some c -> mx_heap m' !! h = Some c) ->
  mx_base m' !! et = mx_base m !! et -> (forall n, factor m' n et = factor m n et) -> in_sync m et -> in_sync m' et.
Proof.
  intros Hc Hh Hb Hf H h E. rewrite Hc in E. destruct (H h E) as (c & Ec & L & R). exists c. split_and!; auto.
  intros Hs. rewrite (R Hs). apply one_in_n_proper. symmetry. by apply eff_same.
Qed.

Definition accepted (o : mux_op) : Prop :=
  match o with
  | OEnable u0 u1 u2 _ _ _ => u0 = None /\ u1 = None /\ u2 = None
  | OBase u _ _ | OFactor u _ _ _ => u = None
  end.

Lemma sync_live m et : in_sync m et -> forall h, mx_controllers m !! et = Some h -> exists c, mx_heap m !! h = Some c /\ live c.
Proof. intros H h E. destruct (H h E) as (c & ? & ? & _). eauto. Qed.

#[local] Transparent Register.
Lemma step_sync m o : accepted o -> (forall et, in_sync m et) -> forall et, in_sync (step m o) et.
Proof.
  destruct o as [u0 u1 u2 cm sc et0|u et0 r|u n et0 f]; intros Ha H.
  - destruct Ha as (-> & -> & ->). cbn [mux_step]. unfold enableSampling. destruct cm as [cm|]; [|exact H]. cbn [NewSamplingController UpdateConfig].
    set (h0 := fresh (dom (mx_heap m))). set (ctrl := mkSamplingController _ _ _). set (m1 := mkMux _ _ _ _ (<[h0 := ctrl]> _)).
    assert (mx_heap m !! h0 = None) as Hfresh by apply not_elem_of_dom, is_fresh.
    set (m2 := mkMux (<[et0 := h0]> (mx_controllers m1)) (mx_base m1) (mx_mult m1) (mx_gauge m1) (mx_heap m1)).
    assert (forall et, et <> et0 -> in_sync m2 et) as H2.
    { intros et Hne. apply (sync_transfer m); [by simpl; rewrite lookup_insert_ne| |done..|by apply H].
      intros h c Hc. simpl. rewrite lookup_insert_ne; [done|]. intros <-. congruence. }
    assert (forall h, mx_controllers m2 !! et0 = Some h -> exists c, mx_heap m2 !! h = Some c /\ live c) as L2.
    { intros h. simpl. rewrite lookup_insert_eq. intros [= <-]. rewrite lookup_insert_eq. by eexists. }
    assert (forall et, et <> et0 -> in_sync (Register oor range None et0 (Some h0) m1) et) as H3.
    { intros et Hne. unfold Register. fold m2. destruct (flt _ _); [by apply apply_sync|by apply H2]. }
    assert (forall h, mx_controllers (Register oor range None et0 (Some h0) m1) !! et0 = Some h ->
      exists c, mx_heap (Register oor range None et0 (Some h0) m1) !! h = Some c /\ live c) as L3.
    { unfold Register. fold m2. destruct (flt _ _); [|exact L2]. apply sync_live. by apply apply_sync. }
    unfold SetBaseRate. apply apply_sync; [|exact L3]. intros et Hne. eapply sync_transfer; [..|by apply H3]; try done.
    simpl. by rewrite lookup_insert_ne.
  - simpl in Ha. subst u. apply apply_sync; [|by apply (sync_live m)]. intros et Hne. eapply sync_transfer; [..|by apply H]; try done.
    simpl. by rewrite lookup_insert_ne.
  - simpl in Ha. subst u. apply apply_sync; [|by apply (sync_live m)]. intros et Hne. eapply sync_transfer; [..|by apply H]; try done.
    intros n'. etransitivity; [apply (factor_set m None n et0 f n' et)|]. rewrite decide_False; [done|]. intros [_ E]. by symmetry in E.
Qed.

(** A collector that came up stays registered. *)
Definition comes_up (et : gostring) (o : mux_op) : Prop :=
  match o with OEnable None _ _ (Some _) _ et' => et' = et | _ => False end.

Lemma step_registered m o et : is_Some (mx_controllers m !! et) \/ comes_up et o -> is_Some (mx_controllers (step m o) !! et).
Proof.
  destruct o as [u0 u1 u2 cm sc et0|u et0 r|u n et0 f]; simpl; [|by intros [|[]]..]. unfold enableSampling.
  destruct cm as [cm|]; [|by destruct u0; intros [|[]]]. destruct u0; [by intros [|[]]|]. simpl. unfold Register.
  intros H. assert (is_Some (<[et0:=fresh (dom (mx_heap m))]> (mx_controllers m) !! et)) as K.
  { destruct (decide (et0 = et)) as [->|Hne]; [by rewrite lookup_insert_eq|]. rewrite lookup_insert_ne by done. by destruct H. }
  by destruct (flt _ _).
Qed.

Lemma run_sync ops : Forall accepted ops -> forall et, in_sync (run ops) et.
Proof.
  induction ops as [|o ops IH] using rev_ind; intros Ha.
  - intros et h Hh. done.
  - apply Forall_app in Ha as [Ha [Ho _]%Forall_cons]. rewrite run_app. by apply step_sync; [|apply IH].
Qed.

Lemma run_registered ops et : Exists (comes_up et) ops -> is_Some (mx_controllers (run ops) !! et).
Proof.
  induction ops as [|o ops IH] using rev_ind; intros He; [by apply Exists_nil in He|]. rewrite run_app. apply step_registered.
  apply Exists_app in He as [He|He]; [left; by apply IH|right]. by apply Exists_cons in He as [He|He%Exists_nil].
Qed.

Lemma kernel_asked ops et : Forall accepted ops -> sampled et -> Exists (comes_up et) ops ->
  kernel_rate (run ops) et = Some (one_in_n oor (asked_rate et ops)).
Proof.
  intros Ha Hs He. destruct (run_registered ops et He) as [h Hh]. destruct (run_sync ops Ha et h Hh) as (c & Ec & [Hen _] & R).
  unfold kernel_rate. rewrite Hh. simpl. rewrite Ec. simpl. rewrite Hen, Z.eqb_refl, (R Hs). f_equal. apply one_in_n_proper, eff_asked.
Qed.

End Correct.

(** ** Histories without one controller *)
Definition without (name : gostring) (ops : list mux_op) : list mux_op := filter (fun o => op_name o <> Some name) ops.

Lemma without_base name et acc ops : last_base et acc (without name ops) = last_base et acc ops.
Proof.
  revert acc. unfold without. induction ops as [|o ops IH]; intros acc; [done|]. rewrite filter_cons. destruct o as [[] ? ? [] ? ?|? ? ?|? n ? ?]; simpl; auto.
  case_decide; simpl; auto.
Qed.
Lemma without_factor name n et acc ops : n <> name -> last_factor n et acc (without name ops) = last_factor n et acc ops.
Proof.
  intros Hn. revert acc. unfold without. induction ops as [|o ops IH]; intros acc; [done|]. rewrite filter_cons. destruct o as [| |? n' ? ?]; simpl; auto.
  case_decide; simpl; [auto|]. rewrite decide_False; [auto|]. intros [-> _]. destruct (decide (n = name)); naive_solver.
Qed.
Lemma without_named name et ops : last_factor name et None (without name ops) = None.
Proof.
  unfold without. induction ops as [|o ops IH]; [done|]. rewrite filter_cons. case_decide as H; [|done]. destruct o; simpl; try done.
  rewrite decide_False; [done|]. intros [-> _]. by apply H.
Qed.
Lemma without_up name et ops : Exists (comes_up et) ops -> Exists (comes_up et) (without name ops).
Proof.
  intros (o & Ho & Hc)%Exists_exists. apply Exists_exists. exists o. split; [|done]. apply list_elem_of_filter. by destruct o.
Qed.

Lemma without_accepted name ops : Forall accepted ops -> Forall accepted (without name ops).
Proof. rewrite !Forall_forall. intros H o [_ Ho]%list_elem_of_filter. auto. Qed.

(** [name] does not hold the event type back any more. *)
Definition recovered (name et : gostring) (ops : list mux_op) : Prop :=
  forall f, last_factor name et None ops = Some f -> flt f f1 = false.

Lemma without_rate name et ops : recovered name et ops -> feqv (asked_rate et ops) (asked_rate et (without name ops)).
Proof.
  intros Hr. unfold asked_rate. rewrite without_base. apply clamp01_proper, fmul_proper, fmin_same. intros x Hx. unfold asked_factors.
  rewrite !list_elem_of_omap. split; intros (n & _ & Hn).
  - destruct (decide (n = name)) as [->|Hne]; [apply Hr in Hn; congruence|]. exists n.
    rewrite without_factor by done. split; [|done]. apply last_factor_named with et x. by rewrite without_factor.
  - destruct (decide (n = name)) as [->|Hne]; [by rewrite without_named in Hn|]. rewrite without_factor in Hn by done.
    exists n. split; [|done]. by apply last_factor_named in Hn.
Qed.

(** ** Claims *)

(** Claim C21. The kernel's sampling rate after any history of calls that the kernel
    accepted: the 1-in-N of the operator's base rate scaled by the least factor
    any controller last asked for, clamped to [0,1]; factors above one and NaN
    do not count. The history alone determines it, whatever order Go ranges
    over the factors in. *)
Theorem kernel_rate_arbitrated oor range ops et :
  (forall m, range m ≡ₚ map_to_list m) -> Forall accepted ops -> sampled et -> Exists (comes_up et) ops ->
  exists mn, kernel_rate (mux_run oor range ops) et = Some (one_in_n oor (clamp01 (fmul (default f1 (last_base et None ops)) mn))) /\
    (mn = f1 \/ exists name, last_factor name et None ops = Some mn) /\
    flt f1 mn = false /\ (forall name f, last_factor name et None ops = Some f -> flt f mn = false).
Proof.
  intros Hr Ha Hs He. exists (foldl fmin f1 (asked_factors et ops)). destruct (fmin_spec f1 (asked_factors et ops)) as (_ & C & L & B); [done|].
  split_and!; [by apply kernel_asked| |done|].
  - destruct C as [C|C]; [by left|right]. apply list_elem_of_omap in C as (n & _ & C). eauto.
  - intros n f Hf. apply B. apply list_elem_of_omap. exists n. split; [by apply last_factor_named in Hf|done].
Qed.

(** Claim C22. Recovery: once a controller no longer holds an event type back, that
    collector's kernel rate is what it would be had the controller never called; another
    controller's degradation and the operator's base are untouched. *)
Theorem recovery_leaves_no_trace oor range ops et name :
  (forall m, range m ≡ₚ map_to_list m) -> Forall accepted ops -> sampled et -> Exists (comes_up et) ops -> recovered name et ops ->
  kernel_rate (mux_run oor range ops) et = kernel_rate (mux_run oor range (without name ops)) et /\
  is_Some (kernel_rate (mux_run oor range ops) et).
Proof.
  intros Hr Ha Hs He Hn. rewrite !kernel_asked by (done || by apply without_up || by apply without_accepted). split; [|done].
  f_equal. by apply one_in_n_proper, without_rate.
Qed.

Lemma clamp01_id x : flt x f0 = false -> flt f1 x = false -> clamp01 x = x.
Proof. intros H0 H1. unfold clamp01, fgt. by rewrite H0, H1. Qed.

Lemma recovered_min et ops : (forall name, recovered name et ops) -> foldl fmin f1 (asked_factors et ops) = f1.
Proof.
  intros Hr. assert (feqv f1 (foldl fmin f1 (asked_factors et ops))) as [E|(s & t & E & _)]; [|by symmetry|done].
  apply (fmin_same [] _). intros x Hx. split; [set_solver|]. intros (n & _ & Hn)%list_elem_of_omap. apply Hr in Hn. congruence.
Qed.

(** When every controller has recovered, the kernel samples 1 in the configured
    N again, up to N = 92; from 93 to 512 it may be 1 in N - 1, because the
    rate is kept as the float 1/N and turned back by truncation. *)
Theorem base_rate_restored oor range ops et n :
  (forall m, range m ≡ₚ map_to_list m) -> Forall accepted ops -> sampled et -> Exists (comes_up et) ops ->
  (forall name, recovered name et ops) -> last_base et None ops = Some (sampleRateToFloat n) -> 0 <= n <= 512 ->
  kernel_rate (mux_run oor range ops) et = Some n \/
  (93 <= n /\ kernel_rate (mux_run oor range ops) et = Some (n - 1)).
Proof.
  intros Hr Ha Hs He Hn Hb Hi. rewrite kernel_asked by done. unfold asked_rate. rewrite Hb, recovered_min by done. simpl.
  destruct (sampleRateToFloat_range n Hi) as (V & L & U). rewrite fmul_1_r, clamp01_id by done.
  destruct (rate_back_close oor n Hi) as [E|[Hl E]]; unfold rate_back in E; rewrite E; [by left|by right].
Qed.

(** ** A concrete history: the syscall collector at 1 in 4, shed by CPU
    pressure, recovered; the file collector held by another controller. *)
Module Example_arbiter.
Definition up (et : gostring) : mux_op := OEnable None None None (Some (mkSamplingConfig 0 0 0 0)) (mkSamplingConfig 4 93 1 0) et.
Definition ops : list mux_op :=
  [up "syscall"; OFactor None "cpu_pressure" "syscall" (dec 1 10); up "file"; OFactor None "ring" "file" (dec 1 4);
   OFactor None "cpu_pressure" "file" (dec 1 10); OFactor None "cpu_pressure" "syscall" f1; OFactor None "cpu_pressure" "file" f1]%string.

Lemma ops_accepted : Forall accepted ops.
Proof. repeat constructor. Qed.
Lemma ops_up : Exists (comes_up "syscall") ops.
Proof. by left. Qed.
Lemma file_up : Exists (comes_up "file") ops.
Proof. do 2 right. by left. Qed.

(** Here shedding multiplies the base: 1 in 40. *)
Example shed_rate : kernel_rate (mux_run (fun _ => 0) map_to_list (take 2 ops)) "syscall" = Some 40.
Proof. vm_compute. reflexivity. Qed.

Lemma cpu_recovered : recovered "cpu_pressure" "file" ops.
Proof. intros f Hf. vm_compute in Hf. by injection Hf as <-. Qed.

Lemma kernel_rate_arbitrated_witness :
  exists mn, kernel_rate (mux_run (fun _ => 0) map_to_list ops) "file" = Some 4 /\ flt f1 mn = false.
Proof.
  destruct (kernel_rate_arbitrated (fun _ => 0) map_to_list ops "file") as (mn & K & _ & L & _);
    [done|exact ops_accepted|by do 2 right; left|exact file_up|]. exists mn. split; [|exact L]. vm_compute. reflexivity.
Defined.

Lemma recovery_leaves_no_trace_witness :
  kernel_rate (mux_run (fun _ => 0) map_to_list ops) "file" = kernel_rate (mux_run (fun _ => 0) map_to_list (without "cpu_pressure" ops)) "file".
Proof.
  apply (recovery_leaves_no_trace (fun _ => 0) map_to_list ops "file" "cpu_pressure");
    [done|exact ops_accepted|by do 2 right; left|exact file_up|exact cpu_recovered].
Defined.

Lemma base_rate_restored_witness :
  kernel_rate (mux_run (fun _ => 0) map_to_list [up "syscall"; OFactor None "cpu_pressure" "syscall" f1]) "syscall" = Some 4.
Proof.
  destruct (base_rate_restored (fun _ => 0) map_to_list [up "syscall"; OFactor None "cpu_pressure" "syscall" f1] "syscall" 4) as [K|[K _]];
    [done|repeat constructor|by left|by left| |done|lia|exact K|lia].
  intros name f. simpl. case_decide; [|done]. by intros [= <-].
Defined.

(** The network collector is configured for 1 in 93 and gets 1 in 92 as soon as
    it comes up. *)
Example base_rate_off_by_one : kernel_rate (mux_run (fun _ => 0) map_to_list [up "network"]) "network" = Some 92.
Proof. vm_compute. reflexivity. Qed.
End Example_arbiter.
