(* ===== verification/Pressure.v ===== *)
(** * Pressure watchers

    The three controllers that shed load: src/internal/watchdog/cpu.go (the
    agent's own CPU time), src/internal/watchdog/memory.go (available memory)
    and src/internal/bpf/adaptive_ringbuf.go (the event channel's fill). Each is
    a state machine driven by readings; the [SetSamplingRate] calls it makes on
    its controller are its output, in order. [system] composes the CPU watcher
    with the arbiter through its named view, as main.go wires them. The
    profilers the memory watcher controls are shared objects: its two lists
    hold handles into one store. Logging is not modelled; [order] is the order
    Go ranges over a map in. *)
From Stdlib Require Import Ascii.
From stdpp Require Import strings gmap pretty sorting.
From S2P Require Import Prelude GoBytes GoText Fields GoFloat Sampling Arbiter.

Abbreviation call := (gostring * float64)%type.

(** ** CPU *)
Module Cpu.

Definition cpuLevelNormal : Z := 0.
Definition cpuLevelFileShed : Z := 1.
Definition cpuLevelAllShed : Z := 2.
Definition shedSamplingRate : float64 := dec 1 10.
Definition clockTicksPerSecond : float64 := float_of_Z 100.

Record CPUConfig := mkCPUConfig {
  cc_Enabled : bool; cc_CheckInterval : Z; cc_CPULimitPercent : float64; cc_FileShedThreshold : float64;
  cc_AllShedThreshold : float64; cc_RecoveryThreshold : float64; cc_WindowSize : Z; cc_MinDwell : Z }.

Definition DefaultCPUConfig : CPUConfig :=
  mkCPUConfig true (5 * Second) (float_of_Z 40) (float_of_Z 40) (float_of_Z 70) (float_of_Z 20) 6 (30 * Second).

(** [cw_ctl] : a controller was given; [cw_level], [cw_percent] are the gauges. *)
Record CPUPressureWatcher := mkCPU {
  cw_ctl : bool;
  cw_fileShedThreshold : float64; cw_allShedThreshold : float64; cw_recoveryThreshold : float64;
  cw_checkInterval : Z; cw_windowSize : Z; cw_minDwell : Z;
  cw_state : Z; cw_window : list float64; cw_lastCPU : float64; cw_lastWall : Z; cw_haveLast : bool;
  cw_enteredStateAt : Z; cw_normalRates : gmap gostring float64;
  cw_level : float64; cw_percent : float64 }.

Definition NewCPUPressureWatcher (config : CPUConfig) (ctl : bool) : CPUPressureWatcher :=
  let interval := if cc_CheckInterval config <=? 0 then 5 * Second else cc_CheckInterval config in
  let size := if cc_WindowSize config <=? 0 then 6 else cc_WindowSize config in
  let dwell := if cc_MinDwell config <=? 0 then 30 * Second else cc_MinDwell config in
  let limit := if fle (cc_CPULimitPercent config) f0 then float_of_Z 40 else cc_CPULimitPercent config in
  let file := if fle (cc_FileShedThreshold config) f0 then limit else cc_FileShedThreshold config in
  let all := if fle (cc_AllShedThreshold config) f0 then fdiv (fmul file (float_of_Z 7)) (float_of_Z 4) else cc_AllShedThreshold config in
  let rec_ := if fle (cc_RecoveryThreshold config) f0 then fmul file (dec 5 10) else cc_RecoveryThreshold config in
  mkCPU ctl file all rec_ interval size dwell cpuLevelNormal [] f0 zero_time false zero_time ∅ f0 f0.

(** ** Field updates *)
Definition set_normal (r : gmap gostring float64) (w : CPUPressureWatcher) : CPUPressureWatcher :=
  mkCPU (cw_ctl w) (cw_fileShedThreshold w) (cw_allShedThreshold w) (cw_recoveryThreshold w) (cw_checkInterval w) (cw_windowSize w) (cw_minDwell w)
    (cw_state w) (cw_window w) (cw_lastCPU w) (cw_lastWall w) (cw_haveLast w) (cw_enteredStateAt w) r (cw_level w) (cw_percent w).
Definition setState (s : Z) (now : Z) (w : CPUPressureWatcher) : CPUPressureWatcher :=
  mkCPU (cw_ctl w) (cw_fileShedThreshold w) (cw_allShedThreshold w) (cw_recoveryThreshold w) (cw_checkInterval w) (cw_windowSize w) (cw_minDwell w)
    s (cw_window w) (cw_lastCPU w) (cw_lastWall w) (cw_haveLast w) now (cw_normalRates w) (float_of_Z s) (cw_percent w).

(** ** Operations *)
Definition shed (eventType : gostring) (w : CPUPressureWatcher) : CPUPressureWatcher * list call :=
  if negb (cw_ctl w) then (w, [])
  else match cw_normalRates w !! eventType with
  | Some _ => (w, [])
  | None => (set_normal (<[eventType := f1]> (cw_normalRates w)) w, [(eventType, shedSamplingRate)])
  end.
Definition enterFileShedMode (w : CPUPressureWatcher) : CPUPressureWatcher * list call := shed "file" w.
Definition enterAllShedMode (w : CPUPressureWatcher) : CPUPressureWatcher * list call :=
  let '(w, c1) := shed "syscall" w in let '(w, c2) := shed "network" w in (w, c1 ++ c2).

Section Order.
Context (order : gmap gostring float64 -> list call).

Definition recoverNormalMode (w : CPUPressureWatcher) : CPUPressureWatcher * list call :=
  (set_normal ∅ w, if cw_ctl w then order (cw_normalRates w) else []).

Definition pushWindow (pct : float64) (w : CPUPressureWatcher) : CPUPressureWatcher :=
  let win := cw_window w ++ [pct] in
  let win := if cw_windowSize w <? Z.of_nat (length win) then drop (length win - Z.to_nat (cw_windowSize w)) win else win in
  mkCPU (cw_ctl w) (cw_fileShedThreshold w) (cw_allShedThreshold w) (cw_recoveryThreshold w) (cw_checkInterval w) (cw_windowSize w) (cw_minDwell w)
    (cw_state w) win (cw_lastCPU w) (cw_lastWall w) (cw_haveLast w) (cw_enteredStateAt w) (cw_normalRates w) (cw_level w) (cw_percent w).
Definition mean (l : list float64) : float64 := fdiv (foldl fadd f0 l) (float_of_Z (Z.of_nat (length l))).

Definition evaluate (cpuPct : float64) (now : Z) (w : CPUPressureWatcher) : CPUPressureWatcher * list call :=
  let dwelled := cw_minDwell w <=? time_Sub now (cw_enteredStateAt w) in
  if cw_state w =? cpuLevelNormal then
    if fge cpuPct (cw_allShedThreshold w) then
      let '(w, c1) := enterFileShedMode w in let '(w, c2) := enterAllShedMode w in (setState cpuLevelAllShed now w, c1 ++ c2)
    else if fge cpuPct (cw_fileShedThreshold w) then
      let '(w, c) := enterFileShedMode w in (setState cpuLevelFileShed now w, c)
    else (w, [])
  else if cw_state w =? cpuLevelFileShed then
    if fge cpuPct (cw_allShedThreshold w) then
      let '(w, c) := enterAllShedMode w in (setState cpuLevelAllShed now w, c)
    else if flt cpuPct (cw_recoveryThreshold w) && dwelled then
      let '(w, c) := recoverNormalMode w in (setState cpuLevelNormal now w, c)
    else (w, [])
  else if cw_state w =? cpuLevelAllShed then
    if flt cpuPct (cw_recoveryThreshold w) && dwelled then
      let '(w, c) := recoverNormalMode w in (setState cpuLevelNormal now w, c)
    else (w, [])
  else (w, []).

Definition set_last (cpu : float64) (now : Z) (w : CPUPressureWatcher) : CPUPressureWatcher :=
  mkCPU (cw_ctl w) (cw_fileShedThreshold w) (cw_allShedThreshold w) (cw_recoveryThreshold w) (cw_checkInterval w) (cw_windowSize w) (cw_minDwell w)
    (cw_state w) (cw_window w) cpu now true (cw_enteredStateAt w) (cw_normalRates w) (cw_level w) (cw_percent w).
Definition set_entered (t : Z) (w : CPUPressureWatcher) : CPUPressureWatcher :=
  mkCPU (cw_ctl w) (cw_fileShedThreshold w) (cw_allShedThreshold w) (cw_recoveryThreshold w) (cw_checkInterval w) (cw_windowSize w) (cw_minDwell w)
    (cw_state w) (cw_window w) (cw_lastCPU w) (cw_lastWall w) (cw_haveLast w) t (cw_normalRates w) (cw_level w) (cw_percent w).
Definition set_percent (p : float64) (w : CPUPressureWatcher) : CPUPressureWatcher :=
  mkCPU (cw_ctl w) (cw_fileShedThreshold w) (cw_allShedThreshold w) (cw_recoveryThreshold w) (cw_checkInterval w) (cw_windowSize w) (cw_minDwell w)
    (cw_state w) (cw_window w) (cw_lastCPU w) (cw_lastWall w) (cw_haveLast w) (cw_enteredStateAt w) (cw_normalRates w) (cw_level w) p.

(** The percentage of one core a reading stands for, none when the reading
    only primes the watcher or no time has passed. *)
Definition reading (cpuSeconds : float64) (now : Z) (w : CPUPressureWatcher) : option float64 :=
  if negb (cw_haveLast w) then None
  else
    let wallDelta := Duration_Seconds (time_Sub now (cw_lastWall w)) in
    let cpuDelta := fsub cpuSeconds (cw_lastCPU w) in
    if fle wallDelta f0 then None
    else
      let cpuDelta := if flt cpuDelta f0 then f0 else cpuDelta in
      Some (fmul (fdiv cpuDelta wallDelta) (float_of_Z 100)).

Definition checkCPU (cpu : option float64) (now : Z) (w : CPUPressureWatcher) : CPUPressureWatcher * list call :=
  match cpu with
  | None => (w, [])
  | Some cpuSeconds =>
      if negb (cw_haveLast w) then (set_entered now (set_last cpuSeconds now w), [])
      else
        match reading cpuSeconds now w with
        | None => (set_last cpuSeconds now w, [])
        | Some pct =>
            let w := pushWindow pct (set_last cpuSeconds now w) in
            let avg := mean (cw_window w) in
            evaluate avg now (set_percent avg w)
        end
  end.
End Order.

Definition PressureLevel (w : CPUPressureWatcher) : Z := cw_state w.
Definition IsThrottling (w : CPUPressureWatcher) : bool := cpuLevelNormal <? cw_state w.
Definition PressurePercent (w : CPUPressureWatcher) : float64 :=
  match cw_window w with [] => f0 | win => mean win end.

(** ** /proc/self/stat *)
Inductive StatErr := Malformed | TooFewFields | ParseUtime | ParseStime.

(** [strconv.ParseUint(s, 10, 64)] *)
Definition ParseUint64 (s : text) : option Z := n ← decimal (str s); if n <? 2 ^ 64 then Some n else None.

Definition parseProcStatCPUSeconds (line : text) : result StatErr float64 :=
  match text_last_index ")"%char line with
  | None => Err Malformed
  | Some rparen =>
      if (length line <=? rparen + 2)%nat then Err Malformed
      else
        let rest := StringsFields (drop (rparen + 2) line) in
        match rest !! 11%nat, rest !! 12%nat with
        | Some u, Some s =>
            match ParseUint64 u with
            | None => Err ParseUtime
            | Some utime =>
                match ParseUint64 s with
                | None => Err ParseStime
                | Some stime => Ok (fdiv (float_of_Z (u64 (utime + stime))) clockTicksPerSecond)
                end
            end
        | _, _ => Err TooFewFields
        end
  end.
End Cpu.

(** ** What the CPU watcher holds back *)
Section CpuCorrect.
Import Cpu.
Context (order : gmap gostring float64 -> list call).
Context (order_perm : forall m, order m ≡ₚ map_to_list m).

(** The event types shed at a level. *)
Definition shed_types (level : Z) : list gostring :=
  if level =? 0 then [] else if level =? 1 then ["file"%string] else ["file"; "syscall"; "network"]%string.

(** The rate a sequence of calls leaves an event type with. *)
Definition after (et : gostring) (acc : option float64) (cs : list call) : option float64 :=
  foldl (fun acc c => if decide (c.1 = et) then Some c.2 else acc) acc cs.

Lemma after_keys et acc l : NoDup l.*1 -> after et acc l = match (list_to_map l : gmap gostring float64) !! et with Some v => Some v | None => acc end.
Proof.
  revert acc. induction l as [|[k v] l IH]; intros acc Hd; [done|]. apply NoDup_cons in Hd as [Hk Hd]. simpl. rewrite IH by done.
  destruct (decide (k = et)) as [->|Hne]; [|by rewrite lookup_insert_ne].
  rewrite lookup_insert_eq. apply (not_elem_of_list_to_map_1 (M:=gmap gostring)) in Hk. simpl in Hk. by rewrite Hk.
Qed.

Lemma after_order et acc m : after et acc (order m) = match m !! et with Some v => Some v | None => acc end.
Proof.
  rewrite after_keys by (rewrite order_perm; apply NoDup_fst_map_to_list).
  rewrite (list_to_map_proper _ (map_to_list m)) by (apply order_perm || rewrite order_perm; apply NoDup_fst_map_to_list).
  by rewrite list_to_map_to_list.
Qed.

(** A level, the event types it sheds, and the calls so far agree. *)
Definition held_inv (w : CPUPressureWatcher) (held : gostring -> option float64) : Prop :=
  (cw_state w = 0 \/ cw_state w = 1 \/ cw_state w = 2) /\
  cw_normalRates w = list_to_map (map (fun et => (et, f1)) (shed_types (cw_state w))) /\
  (forall et, et ∈ shed_types (cw_state w) -> held et = Some shedSamplingRate) /\
  (forall et, et ∉ shed_types (cw_state w) -> held et = None \/ held et = Some f1) /\
  (forall et, ~ sampled et -> held et = None).

Lemma shed_new et w : cw_ctl w = true -> cw_normalRates w !! et = None ->
  shed et w = (set_normal (<[et := f1]> (cw_normalRates w)) w, [(et, shedSamplingRate)]).
Proof. intros Hc Hn. unfold shed. by rewrite Hc, Hn. Qed.

Lemma after_shed ts et acc :
  after et acc (map (fun et => (et, shedSamplingRate)) ts) = if decide (et ∈ ts) then Some shedSamplingRate else acc.
Proof.
  revert acc. induction ts as [|t ts IH]; intros acc; [done|]. simpl. rewrite IH. repeat case_decide; subst; try done; set_solver.
Qed.

Lemma evaluate_held pct now w held : cw_ctl w = true -> held_inv w held ->
  let r := evaluate order pct now w in cw_ctl r.1 = true /\ held_inv r.1 (fun et => after et (held et) r.2).
Proof.
  intros Hc (Hs & Hn & Hi & Ho & Hx).
  assert (forall l' (w' : CPUPressureWatcher) cs, l' = 1 \/ l' = 2 -> cw_state w' = l' ->
    cw_normalRates w' = list_to_map (map (fun et => (et, f1)) (shed_types l')) ->
    (forall et, after et (held et) cs = if decide (et ∈ shed_types l') then Some shedSamplingRate else held et) ->
    (forall et, et ∈ shed_types (cw_state w) -> et ∈ shed_types l') ->
    held_inv w' (fun et => after et (held et) cs)) as Up.
  { intros l' w' cs Hl Es En Ha Hsub. unfold held_inv. rewrite Es. split_and!; [lia|done|..]; intros et He; rewrite Ha; [by rewrite decide_True|..].
    - rewrite decide_False by done. apply Ho. intros K. by apply He, Hsub.
    - rewrite decide_False; [by apply Hx|]. intros K. apply He. unfold sampled. destruct Hl as [-> | ->]; simpl in K; set_solver. }
  assert (forall (w' : CPUPressureWatcher), cw_state w' = 0 -> cw_normalRates w' = ∅ ->
    held_inv w' (fun et => after et (held et) (order (cw_normalRates w)))) as Down.
  { intros w' Es En. unfold held_inv. rewrite Es, En. split_and!; [lia|done|set_solver|..]; intros et He; rewrite after_order, Hn.
    - destruct (decide (et ∈ shed_types (cw_state w))) as [K|K].
      + right. assert ((list_to_map (map (fun et => (et, f1)) (shed_types (cw_state w))) : gmap gostring float64) !! et = Some f1) as ->; [|done].
        apply elem_of_list_to_map_1; [|by apply list_elem_of_fmap; eauto]. rewrite <- list_fmap_compose, list_fmap_id.
        destruct Hs as [->|[->| ->]]; apply (bool_decide_unpack _); vm_compute; done.
      + rewrite (not_elem_of_list_to_map_1 (M:=gmap gostring)); [by apply Ho|]. rewrite <- list_fmap_compose, list_fmap_id. done.
    - rewrite (not_elem_of_list_to_map_1 (M:=gmap gostring)); [by apply Hx|]. rewrite <- list_fmap_compose, list_fmap_id.
      intros K. apply He. unfold sampled. destruct Hs as [Es'|[Es'|Es']]; rewrite Es' in K; simpl in K; set_solver. }
  assert (held_inv w (fun et => after et (held et) [])) as Same by (unfold held_inv; split_and!; done).
  unfold evaluate, enterFileShedMode, enterAllShedMode, recoverNormalMode.
  destruct Hs as [Es|[Es|Es]]; rewrite Es in *; cbn [Z.eqb cpuLevelNormal cpuLevelFileShed cpuLevelAllShed Pos.eqb].
  - destruct (fge pct _); [|destruct (fge pct _); [|by split]].
    + rewrite !shed_new by (simpl; rewrite ?Hn; done). split; [exact Hc|]. apply (Up 2); [lia|done|by simpl; rewrite Hn| |simpl; set_solver].
      intros et. apply (after_shed ["file"; "syscall"; "network"]%string).
    + rewrite !shed_new by (simpl; rewrite ?Hn; done). split; [exact Hc|]. apply (Up 1); [lia|done|by simpl; rewrite Hn| |simpl; set_solver].
      intros et. apply (after_shed ["file"]%string).
  - destruct (fge pct _); [|destruct (flt pct _ && _); [|by split]].
    + rewrite !shed_new by (simpl; rewrite ?Hn; done). split; [exact Hc|]. apply (Up 2); [lia|done| | |simpl; set_solver].
      * simpl. rewrite Hn. apply (bool_decide_unpack _). vm_compute. done.
      * intros et. etransitivity; [apply (after_shed ["syscall"; "network"]%string)|]. simpl. repeat case_decide; try done; try set_solver.
    + split; [exact Hc|]. rewrite Hc. by apply Down.
  - destruct (flt pct _ && _); [|by split]. split; [exact Hc|]. rewrite Hc. by apply Down.
Qed.

Lemma checkCPU_held cpu now w held : cw_ctl w = true -> held_inv w held ->
  let r := checkCPU order cpu now w in cw_ctl r.1 = true /\ held_inv r.1 (fun et => after et (held et) r.2).
Proof.
  intros Hc H. unfold checkCPU. destruct cpu as [cpu|]; [|by split]. destruct (negb (cw_haveLast w)); [by split|].
  destruct (reading cpu now w); [|by split]. by apply evaluate_held.
Qed.

(** *** With the arbiter

    Ticks of the watcher interleaved with every other call on the arbiter. *)
Inductive sys_op := Tick (cpu : option float64) (now : Z) (answer : gostring -> option gostring) | Other (o : mux_op).
Definition viewName : gostring := "cpu_pressure".

Definition view_call (answer : gostring -> option gostring) (c : call) : mux_op := OFactor (answer c.1) viewName c.1 c.2.
Definition sys_step (s : CPUPressureWatcher * list mux_op) (o : sys_op) : CPUPressureWatcher * list mux_op :=
  match o with
  | Tick cpu now answer => let '(w, cs) := checkCPU order cpu now s.1 in (w, s.2 ++ map (view_call answer) cs)
  | Other o => (s.1, s.2 ++ [o])
  end.
Definition system (cfg : CPUConfig) (l : list sys_op) : CPUPressureWatcher * list mux_op :=
  foldl sys_step (NewCPUPressureWatcher cfg true, []) l.
Definition others (l : list sys_op) : list mux_op := omap (fun o => match o with Other o => Some o | _ => None end) l.

Lemma view_after answer et acc cs : last_factor viewName et acc (map (view_call answer) cs) = after et acc cs.
Proof.
  revert acc. induction cs as [|[t r] cs IH]; intros acc; [done|]. simpl. rewrite IH. unfold after at 2. simpl. fold (after et).
  destruct (decide (t = et)) as [->|]; [by rewrite decide_True|rewrite decide_False by tauto; done].
Qed.

Lemma without_view answer cs : without viewName (map (view_call answer) cs) = [].
Proof. unfold without. induction cs as [|c cs IH]; [done|]. simpl. rewrite filter_cons, decide_False; [done|]. intros H. by apply H. Qed.

(** The invariant of the composed system, along every interleaving. *)
Lemma system_inv cfg l : Forall (fun o => op_name o <> Some viewName) (others l) ->
  cw_ctl (system cfg l).1 = true /\ held_inv (system cfg l).1 (fun et => last_factor viewName et None (system cfg l).2) /\
  without viewName (system cfg l).2 = others l.
Proof.
  induction l as [|o l IH] using rev_ind; intros Ho.
  - split_and!; [done| |done]. unfold held_inv. simpl. split_and!; auto. set_solver.
  - unfold system, others in *. rewrite foldl_app, omap_app in *. apply Forall_app in Ho as [Ho Ho2]. destruct (IH Ho) as (Hc & Hh & Hw).
    set (s := foldl sys_step _ l) in *. destruct o as [cpu now answer|o]; simpl.
    + destruct (checkCPU_held cpu now s.1 _ Hc Hh) as [Hc' Hh']. destruct (checkCPU order cpu now s.1) as [w' cs]. simpl in *. split_and!; [done| |].
      * unfold held_inv in *. setoid_rewrite last_factor_app. setoid_rewrite view_after. exact Hh'.
      * unfold without in *. rewrite filter_app, Hw. fold (without viewName (map (view_call answer) cs)). by rewrite without_view.
    + apply Forall_cons in Ho2 as [Hn _]. split_and!; [done| |].
      * unfold held_inv in *. setoid_rewrite last_factor_app. destruct o as [| |u n t f]; try exact Hh.
        assert (forall et acc, last_factor viewName et acc [OFactor u n t f] = acc) as E; [|by setoid_rewrite E].
        intros et acc. simpl. rewrite decide_False; [done|]. intros [-> _]. by apply Hn.
      * unfold without in *. rewrite filter_app, Hw. f_equal. rewrite filter_cons, decide_True by done. done.
Qed.

(** *** Dwelling *)
Lemma evaluate_dwell pct now w : let w' := (evaluate order pct now w).1 in
  cw_minDwell w' = cw_minDwell w /\ cw_haveLast w' = cw_haveLast w /\
  ((cw_state w' = cw_state w /\ cw_enteredStateAt w' = cw_enteredStateAt w) \/
   (cw_enteredStateAt w' = now /\ (0 < cw_state w' \/ (cw_minDwell w <= time_Sub now (cw_enteredStateAt w) /\ 0 < cw_state w)))).
Proof.
  assert (forall et w, cw_minDwell (shed et w).1 = cw_minDwell w /\ cw_haveLast (shed et w).1 = cw_haveLast w) as S.
  { intros et w0. unfold shed. by repeat case_match. }
  assert (forall et1 et2 et3 w, cw_minDwell (shed et3 (shed et2 (shed et1 w).1).1).1 = cw_minDwell w /\ cw_haveLast (shed et3 (shed et2 (shed et1 w).1).1).1 = cw_haveLast w) as S3.
  { intros. destruct (S et3 (shed et2 (shed et1 w0).1).1) as [-> ->], (S et2 (shed et1 w0).1) as [-> ->]. apply S. }
  unfold evaluate, enterFileShedMode, enterAllShedMode, recoverNormalMode. simpl.
  destruct (cw_state w =? cpuLevelNormal) eqn:E0; [|destruct (cw_state w =? cpuLevelFileShed) eqn:E1; [|destruct (cw_state w =? cpuLevelAllShed) eqn:E2; [|by auto]]].
  - pose proof (S3 "file" "syscall" "network" w)%string as K. pose proof (S "file"%string w) as K1.
    destruct (shed "file" w) as [w1 c1]. simpl in *. destruct (shed "syscall" w1) as [w2 c2]. simpl in *. destruct (shed "network" w2) as [w3 c3]. simpl in *.
    repeat (case_match; simpl); split_and!; try tauto; auto; right; (split; [done|left; unfold cpuLevelAllShed, cpuLevelFileShed; lia]).
  - pose proof (S "syscall"%string w) as K1. destruct (shed "syscall" w) as [w1 c1]. pose proof (S "network"%string w1) as K2.
    destruct (shed "network" w1) as [w2 c2]. simpl in *. destruct K1 as [K1 K1'], K2 as [K2 K2']. zbool.
    destruct (fge pct _); simpl; [split_and!; [congruence..|]; right; split; [done|left; unfold cpuLevelAllShed; lia]|].
    destruct (flt _ _ && _) eqn:E; simpl; [|by auto]. zbool. split_and!; try done. right. unfold cpuLevelFileShed in *. lia.
  - destruct (flt _ _ && _) eqn:E; simpl; [|by auto]. zbool. split_and!; try done. right. unfold cpuLevelAllShed in *. lia.
Qed.

(** One tick of the watcher alone, counting the recoveries. *)
Definition tick (s : CPUPressureWatcher * Z) (t : option float64 * Z) : CPUPressureWatcher * Z :=
  let w := (checkCPU order t.1 t.2 s.1).1 in
  (w, s.2 + if (0 <? cw_state s.1) && (cw_state w =? 0) then 1 else 0).

Definition dwell_inv (t0 t : Z) (s : CPUPressureWatcher * Z) : Prop :=
  if cw_haveLast s.1 then t0 <= cw_enteredStateAt s.1 <= t /\ s.2 * cw_minDwell s.1 <= cw_enteredStateAt s.1 - t0
  else s.2 = 0 /\ cw_state s.1 = 0.

Lemma tick_dwell t0 t s r now : 0 <= cw_minDwell s.1 -> t0 <= t <= now -> now - t0 <= max_duration -> dwell_inv t0 t s ->
  dwell_inv t0 now (tick s (r, now)) /\ cw_minDwell (tick s (r, now)).1 = cw_minDwell s.1.
Proof.
  intros Hd Ht Hm H. destruct s as [w k]. unfold dwell_inv, tick, checkCPU in *. simpl in *.
  assert (forall b, (0 <? b) && (b =? 0) = false) as Z0 by (intros; destruct (Z.ltb_spec 0 b), (Z.eqb_spec b 0); simpl; lia).
  destruct r as [cpu|]; simpl; [|rewrite Z0, Z.add_0_r; destruct (cw_haveLast w); split; try done; lia].
  destruct (cw_haveLast w) eqn:El; simpl; [|destruct H as [-> Es]; rewrite Es; simpl; split; [lia|done]].
  destruct (reading cpu now w) as [pct|]; simpl; [|rewrite Z0, Z.add_0_r; split; [lia|done]].
  match goal with |- context [evaluate order ?p now ?v] =>
    change (cw_minDwell w) with (cw_minDwell v) in *; change (cw_enteredStateAt w) with (cw_enteredStateAt v) in *;
    change (cw_state w) with (cw_state v) in *; destruct (evaluate_dwell p now v) as (Em & Eh & Ec);
    assert (cw_haveLast v = true) as Hv by done; set (w' := (evaluate order p now v).1) in *; clearbody w'; generalize dependent v end.
  intros v. intros. rewrite Em, Eh, Hv. split; [|done]. destruct Ec as [[-> ->]|[-> Ec]]; [rewrite Z0; lia|].
  unfold time_Sub, max_duration, min_duration in *. destruct (Z.ltb_spec 0 (cw_state v)), (Z.eqb_spec (cw_state w') 0); simpl; lia.
Qed.

Lemma dwell_run t0 tn ts : forall t s, 0 <= cw_minDwell s.1 -> t0 <= t <= tn -> tn - t0 <= max_duration -> dwell_inv t0 t s ->
  Sorted Z.le ts.*2 -> Forall (fun x => t <= x.2 <= tn) ts ->
  (foldl tick s ts).2 * cw_minDwell s.1 <= tn - t0.
Proof.
  induction ts as [|[r now] ts IH]; intros t s Hd Ht Hm H Hs Hf; simpl.
  - unfold dwell_inv in H. destruct (cw_haveLast s.1); nia.
  - apply Forall_cons in Hf as [Hn Hf]. simpl in Hn. destruct (tick_dwell t0 t s r now) as [H' E]; [lia..|done|]. rewrite <- E.
    apply (IH now); [lia..|done| |].
    + by apply Sorted_inv in Hs as [Hs _].
    + apply Sorted_StronglySorted in Hs; [|intros ? ? ?; lia]. simpl in Hs. apply StronglySorted_inv in Hs as [_ Hs].
      rewrite Forall_fmap in Hs. rewrite Forall_forall in *. intros x Hx. split; [by apply Hs|by apply Hf].
Qed.
End CpuCorrect.

(** ** Claims on the CPU watcher *)


(** The watcher cannot flap: whatever the readings, over a span of time it
    steps back to normal at most once per minimum dwell time. *)
Theorem cpu_recoveries_bounded order cfg ctl ts t0 tn :
  Sorted Z.le ts.*2 -> Forall (fun x => t0 <= x.2 <= tn) ts -> t0 <= tn <= t0 + max_duration ->
  (foldl (tick order) (Cpu.NewCPUPressureWatcher cfg ctl, 0) ts).2 * Cpu.cw_minDwell (Cpu.NewCPUPressureWatcher cfg ctl) <= tn - t0 /\
  0 < Cpu.cw_minDwell (Cpu.NewCPUPressureWatcher cfg ctl).
Proof.
  intros Hs Hf Ht. assert (0 < Cpu.cw_minDwell (Cpu.NewCPUPressureWatcher cfg ctl)) as Hd.
  { simpl. destruct (Z.leb_spec (Cpu.cc_MinDwell cfg) 0); unfold Second; lia. }
  split; [|done]. apply (dwell_run order t0 tn ts t0 (Cpu.NewCPUPressureWatcher cfg ctl, 0)); [by apply Z.lt_le_incl|lia..|done|done|done].
Qed.

(** The CPU time of a stat line: fields 14 and 15 whatever the process name
    holds, blanks and parentheses included, since the fields are counted from
    the last closing parenthesis. *)
Theorem proc_stat_cpu_seconds pre fields u s utime stime :
  Forall (fun w => w.1 <> [] /\ Forall solid w.1 /\ w.2 ∈ blanks) fields -> ")"%char ∉ spaced fields ->
  fields.*1 !! 11%nat = Some u -> fields.*1 !! 12%nat = Some s -> Cpu.ParseUint64 u = Some utime -> Cpu.ParseUint64 s = Some stime ->
  Cpu.parseProcStatCPUSeconds (pre ++ [")"; " "]%char ++ spaced fields) = Ok (fdiv (float_of_Z (u64 (utime + stime))) Cpu.clockTicksPerSecond).
Proof.
  intros Hf Hp Hu Hs Pu Ps. unfold Cpu.parseProcStatCPUSeconds. cbn [app]. rewrite text_last_index_app by set_solver.
  destruct (length _ <=? _)%nat eqn:El.
  { apply Nat.leb_le in El. rewrite length_app in El. simpl in El. assert (spaced fields = []) as E by (apply length_zero_iff_nil; lia).
    destruct fields as [|[w b] fields]; [done|]. unfold spaced in E. simpl in E. by destruct w. }
  rewrite drop_app_add'. 2: done.
  change (drop 2 (")"%char :: " "%char :: spaced fields)) with (spaced fields). rewrite StringsFields_spaced, Hu, Hs, Pu, Ps by done. done.
Qed.

(** ** A spike and its recovery *)
Module Example_cpu.
Import Arbiter.Example_arbiter.
Definition at_second (s cpu : Z) : sys_op := Tick (Some (float_of_Z cpu)) (s * Second) (fun _ => None).
Definition spike : list sys_op :=
  [Other (up "syscall"); at_second 0 0; at_second 5 4; Other (up "file"); at_second 10 4; at_second 15 4]%string.
Definition calm : list sys_op := spike ++ map (fun s => at_second s 4) [20; 25; 30; 35].

Lemma calm_accepted : Forall accepted (system map_to_list Cpu.DefaultCPUConfig calm).2.
Proof. vm_compute. repeat constructor. Qed.

(** At the top of the spike the syscall collector is at 1 in 40. *)
Example spike_rate : kernel_rate (mux_run (fun _ => 0) map_to_list (system map_to_list Cpu.DefaultCPUConfig spike).2) "syscall" = Some 40.
Proof. vm_compute. reflexivity. Qed.


Definition ticks : list (option float64 * Z) :=
  map (fun p => (Some (float_of_Z p.2), p.1 * Second)) [(0, 0); (5, 4); (10, 4); (15, 4); (20, 4); (25, 4); (30, 4); (35, 4)].

Lemma cpu_recoveries_bounded_witness :
  (foldl (tick map_to_list) (Cpu.NewCPUPressureWatcher Cpu.DefaultCPUConfig true, 0) ticks).2 = 1 /\ 1 * (30 * Second) <= 35 * Second.
Proof.
  destruct (cpu_recoveries_bounded map_to_list Cpu.DefaultCPUConfig true ticks 0 (35 * Second)) as [K _].
  - repeat constructor; vm_compute; discriminate.
  - repeat constructor; vm_compute; discriminate.
  - vm_compute. split; discriminate.
  - assert ((foldl (tick map_to_list) (Cpu.NewCPUPressureWatcher Cpu.DefaultCPUConfig true, 0) ticks).2 = 1) as E by (vm_compute; reflexivity).
    rewrite E in K. split; [exact E|]. rewrite Z.sub_0_r in K. exact K.
Defined.

(** A process named "a) R 1 (" does not move the fields. *)
Definition stat_fields : list (text * ascii) :=
  map (fun s => (txt s, " "%char)) ["S"; "1"; "1"; "1"; "0"; "1"; "4"; "9"; "0"; "0"; "0"; "250"; "50"]%string.

Lemma proc_stat_cpu_seconds_witness :
  Cpu.parseProcStatCPUSeconds (txt "7 (a) R 1 (" ++ [")"; " "]%char ++ spaced stat_fields) = Ok (float_of_Z 3).
Proof.
  rewrite (proc_stat_cpu_seconds (txt "7 (a) R 1 (") stat_fields (txt "250") (txt "50") 250 50).
  - vm_compute. reflexivity.
  - apply (bool_decide_unpack _). vm_compute. exact I.
  - apply (bool_decide_unpack _). vm_compute. exact I.
  - reflexivity.
  - reflexivity.
  - reflexivity.
  - reflexivity.
Defined.
End Example_cpu.
