(* ===== verification/MemPressure.v ===== *)
(** * Memory and ring-buffer pressure

    src/internal/watchdog/memory.go (Module [Mem]) and
    src/internal/bpf/adaptive_ringbuf.go (Module [Ring]), two more watchers
    that shed load, driven by readings. The profilers are shared objects: the
    memory watcher's two lists hold handles into one store, and the same
    profiler may be in both. The [SetSamplingRate] calls on the kernel-side
    controller are output. What [bufio.Scanner] reads of /proc/meminfo (its
    lines, and whether it failed) is an argument; logging and the release of
    memory to the system are not modelled. *)
From Stdlib Require Import Ascii.
From stdpp Require Import strings gmap pretty.
From S2P Require Import Prelude GoBytes GoText Fields GoFloat Sampling Arbiter Pressure.

Module Mem.

(** ** Profilers, as the watcher controls them *)
Record Profiler := mkProfiler { pf_enabled : bool; pf_rate : float64 }.
Definition Enable (p : Profiler) : Profiler := mkProfiler true (pf_rate p).
Definition Disable (p : Profiler) : Profiler := mkProfiler false (pf_rate p).
Definition SetSamplingRate (rate : float64) (p : Profiler) : Profiler :=
  let rate := if flt rate f0 then f0 else rate in
  let rate := if fgt rate f1 then f1 else rate in
  mkProfiler (pf_enabled p) rate.
Abbreviation store := (gmap nat Profiler).
Definition GetSamplingRate (s : store) (p : nat) : float64 := default f0 (pf_rate <$> s !! p).

(** ** The watcher *)
Definition pressureLevelNormal : Z := 0.
Definition pressureLevelSequenceDisabled : Z := 1.
Definition pressureLevelAllDisabled : Z := 2.

Record MemoryConfig := mkMemoryConfig {
  mc_Enabled : bool; mc_CheckInterval : Z; mc_LowMemoryThreshold : float64; mc_RecoveryThreshold : float64;
  mc_DisableSequenceThreshold : float64; mc_DisableAllThreshold : float64 }.
Definition DefaultMemoryConfig : MemoryConfig :=
  mkMemoryConfig true (5 * Second) (float_of_Z 10) (float_of_Z 20) (float_of_Z 10) (float_of_Z 5).

(** [mw_low], [mw_ratio], [mw_level] are the gauges; the mode gauge "normal" is
    the opposite of "low". *)
Record Watcher := mkWatcher {
  mw_seq : list nat; mw_all : list nat; mw_ctl : bool;
  mw_disableSequence : float64; mw_disableAll : float64; mw_recovery : float64;
  mw_state : Z; mw_normalRates : gmap gostring float64; mw_low : bool; mw_ratio : float64; mw_level : float64 }.

Definition NewMemoryPressureWatcherWithSequence (config : MemoryConfig) (seqs alls : list nat) (ctl : bool) : Watcher :=
  let ds := if fle (mc_DisableSequenceThreshold config) f0 then
      (if fgt (mc_LowMemoryThreshold config) f0 then mc_LowMemoryThreshold config else float_of_Z 10)
    else mc_DisableSequenceThreshold config in
  let da := if fle (mc_DisableAllThreshold config) f0 then fdiv ds (float_of_Z 2) else mc_DisableAllThreshold config in
  let re := if fle (mc_RecoveryThreshold config) f0 then float_of_Z 20 else mc_RecoveryThreshold config in
  mkWatcher seqs alls ctl ds da re pressureLevelNormal ∅ false f0 f0.
Definition NewMemoryPressureWatcher (config : MemoryConfig) (alls : list nat) (ctl : bool) : Watcher :=
  NewMemoryPressureWatcherWithSequence config alls alls ctl.

Definition seq_key (i : nat) : gostring := ("seq_" +:+ pretty i)%string.
Definition prof_key (i : nat) : gostring := ("profiler_" +:+ pretty i)%string.
Definition indexed (l : list nat) : list (nat * nat) := zip (seq 0 (length l)) l.

Definition set_rates (r : gmap gostring float64) (w : Watcher) : Watcher :=
  mkWatcher (mw_seq w) (mw_all w) (mw_ctl w) (mw_disableSequence w) (mw_disableAll w) (mw_recovery w) (mw_state w) r (mw_low w) (mw_ratio w) (mw_level w).
Definition setState (s : Z) (w : Watcher) : Watcher :=
  mkWatcher (mw_seq w) (mw_all w) (mw_ctl w) (mw_disableSequence w) (mw_disableAll w) (mw_recovery w) s (mw_normalRates w)
    (negb (s =? pressureLevelNormal)) (mw_ratio w) (float_of_Z s).
Definition set_ratio (x : float64) (w : Watcher) : Watcher :=
  mkWatcher (mw_seq w) (mw_all w) (mw_ctl w) (mw_disableSequence w) (mw_disableAll w) (mw_recovery w) (mw_state w) (mw_normalRates w) (mw_low w) x (mw_level w).

Abbreviation saved := (gmap gostring float64 * store)%type.

(** The bodies of the loops. *)
Definition disable_seq (acc : saved) (ip : nat * nat) : saved :=
  (<[seq_key ip.1 := GetSamplingRate acc.2 ip.2]> acc.1, alter Disable ip.2 acc.2).
Definition disable_seq_again (acc : saved) (ip : nat * nat) : saved :=
  (match acc.1 !! seq_key ip.1 with Some _ => acc.1 | None => <[seq_key ip.1 := GetSamplingRate acc.2 ip.2]> acc.1 end,
   alter Disable ip.2 acc.2).
Definition disable_prof (acc : saved) (ip : nat * nat) : saved :=
  (<[prof_key ip.1 := GetSamplingRate acc.2 ip.2]> acc.1, alter Disable ip.2 (alter (SetSamplingRate (dec 1 10)) ip.2 acc.2)).
Definition restore_prof (rates : gmap gostring float64) (s : store) (ip : nat * nat) : store :=
  alter Enable ip.2 (alter (SetSamplingRate (default f1 (rates !! prof_key ip.1))) ip.2 s).
Definition restore_seq (rates : gmap gostring float64) (s : store) (ip : nat * nat) : store :=
  alter Enable ip.2 (match rates !! seq_key ip.1 with Some r => alter (SetSamplingRate r) ip.2 s | None => s end).

Definition set_all (ctl : bool) (r : float64) : list call :=
  if ctl then [("syscall", r); ("network", r); ("file", r)]%string else [].

Definition enterSequenceDisabledMode (w : Watcher) (s : store) : Watcher * store :=
  let '(r, s) := foldl disable_seq (mw_normalRates w, s) (indexed (mw_seq w)) in (set_rates r w, s).
Definition enterAllDisabledMode (w : Watcher) (s : store) : Watcher * store * list call :=
  let acc := foldl disable_seq_again (mw_normalRates w, s) (indexed (mw_seq w)) in
  let '(r, s) := foldl disable_prof acc (indexed (mw_all w)) in
  (set_rates r w, s, set_all (mw_ctl w) (dec 1 10)).
Definition recoverNormalMode (w : Watcher) (s : store) : Watcher * store * list call :=
  let s := foldl (restore_prof (mw_normalRates w)) s (indexed (mw_all w)) in
  let s := foldl (restore_seq (mw_normalRates w)) s (indexed (mw_seq w)) in
  (set_rates ∅ w, s, set_all (mw_ctl w) f1).

(** ** /proc/meminfo: available and total memory *)
Fixpoint meminfo_loop (lines : list text) (available total : Z) : Z * Z :=
  match lines with
  | [] => (available, total)
  | line :: lines =>
      match StringsFields line with
      | k :: v :: _ =>
          match Cpu.ParseUint64 v with
          | None => meminfo_loop lines available total
          | Some value =>
              let key := if text_suffix [":"%char] k then take (length k - 1) k else k in
              if decide (key = txt "MemTotal") then meminfo_loop lines available value
              else if decide (key = txt "MemAvailable") then meminfo_loop lines value total
              else meminfo_loop lines available total
          end
      | _ => meminfo_loop lines available total
      end
  end.
(** [file]: none when the file cannot be opened; else its lines, and whether
    the scanner failed. *)
Definition readMemInfo (file : option (list text * bool)) : option (Z * Z) :=
  match file with
  | None | Some (_, true) => None
  | Some (lines, false) => Some (meminfo_loop lines 0 0)
  end.

Definition checkMemory (file : option (list text * bool)) (w : Watcher) (s : store) : Watcher * store * list call :=
  match readMemInfo file with
  | None => (w, s, [])
  | Some (available, total) =>
      if total =? 0 then (w, s, [])
      else
        let ratio := fdiv (float_of_Z available) (float_of_Z total) in
        let availPct := fmul ratio (float_of_Z 100) in
        let w := set_ratio ratio w in
        if mw_state w =? pressureLevelNormal then
          if flt availPct (mw_disableAll w) then
            let '(w, s, c) := enterAllDisabledMode w s in (setState pressureLevelAllDisabled w, s, c)
          else if flt availPct (mw_disableSequence w) then
            let '(w, s) := enterSequenceDisabledMode w s in (setState pressureLevelSequenceDisabled w, s, [])
          else (w, s, [])
        else if mw_state w =? pressureLevelSequenceDisabled then
          if flt availPct (mw_disableAll w) then
            let '(w, s, c) := enterAllDisabledMode w s in (setState pressureLevelAllDisabled w, s, c)
          else if fgt availPct (mw_recovery w) then
            let '(w, s, c) := recoverNormalMode w s in (setState pressureLevelNormal w, s, c)
          else (w, s, [])
        else if mw_state w =? pressureLevelAllDisabled then
          if fgt availPct (mw_recovery w) then
            let '(w, s, c) := recoverNormalMode w s in (setState pressureLevelNormal w, s, c)
          else (w, s, [])
        else (w, s, [])
  end.

Definition IsLowMemory (w : Watcher) : bool := pressureLevelNormal <? mw_state w.
Definition PressureLevel (w : Watcher) : Z := mw_state w.
End Mem.

(** ** The loops *)
Section MemCorrect.
Import Mem.

Definition indexed_from (k : nat) (l : list nat) : list (nat * nat) := zip (seq k (length l)) l.

Lemma seq_key_inj i j : seq_key i = seq_key j -> i = j.
Proof. intros H. apply (inj (String.append "seq_")) in H. by apply (inj pretty) in H. Qed.
Lemma prof_key_inj i j : prof_key i = prof_key j -> i = j.
Proof. intros H. apply (inj (String.append "profiler_")) in H. by apply (inj pretty) in H. Qed.

(** A loop that updates one profiler per entry, the same way whenever it meets
    the profiler. *)
Lemma fold_alter (h : nat * nat -> Profiler -> Profiler) (g : nat -> Profiler -> Profiler) k l (s : gmap nat Profiler) p :
  (forall i p q, l !! i = Some p -> h ((k + i)%nat, p) q = g p q) -> (forall p q, g p (g p q) = g p q) ->
  foldl (fun s ip => alter (h ip) ip.2 s) s (indexed_from k l) !! p = (if decide (p ∈ l) then g p else id) <$> s !! p.
Proof.
  intros Hh Hg. revert k s Hh. induction l as [|x l IH]; intros k s Hh; [by rewrite option_fmap_id|].
  cbn [indexed_from length seq zip foldl snd]. fold (indexed_from (S k) l).
  rewrite IH by (intros i p' q Hi; rewrite <- (Hh (S i) p' q Hi); do 2 f_equal; lia).
  assert (forall q, h (k, x) q = g x q) as Hx by (intros q; rewrite <- (Hh 0%nat x q eq_refl); do 2 f_equal; lia).
  destruct (decide (x = p)) as [->|Hne].
  - rewrite lookup_alter_eq, <- option_fmap_compose, (decide_True (P := p ∈ p :: l)) by set_solver.
    destruct (s !! p) as [q|]; [|done]. simpl. rewrite Hx. by case_decide; rewrite ?Hg.
  - rewrite lookup_alter_ne by done. assert (p ∈ x :: l <-> p ∈ l) as E by (rewrite elem_of_cons; naive_solver).
    by destruct (decide (p ∈ l)), (decide (p ∈ x :: l)); tauto || done.
Qed.

Lemma fold_pair {A B C} (f : A * B -> C -> A * B) (g : B -> C -> B) l a b :
  (forall acc c, (f acc c).2 = g acc.2 c) -> (foldl f (a, b) l).2 = foldl g b l.
Proof.
  intros Hf. revert a b. induction l as [|c l IH]; intros a b; [done|]. simpl. rewrite (surjective_pairing (f (a, b) c)), IH. by rewrite Hf.
Qed.

Lemma foldl_pointwise {A B} (f g : A -> B -> A) l a : (forall a b, f a b = g a b) -> foldl f a l = foldl g a l.
Proof. intros H. revert a. induction l as [|b l IH]; intros a; [done|]. simpl. by rewrite H, IH. Qed.

Lemma rate_alter f x s p : (x = p -> forall q, pf_rate (f q) = pf_rate q) -> GetSamplingRate (alter f x s) p = GetSamplingRate s p.
Proof.
  intros Hf. unfold GetSamplingRate. destruct (decide (x = p)) as [->|Hne]; [|by rewrite lookup_alter_ne].
  rewrite lookup_alter_eq. destruct (s !! p); [|done]. simpl. by rewrite Hf.
Qed.

(** What a loop saves: the rate each profiler of the list had at the start. *)
Definition saves (key : nat -> gostring) (k : nat) (l : list nat) (s : store) (r r' : gmap gostring float64) : Prop :=
  (forall i p, l !! i = Some p -> r' !! key (k + i)%nat = Some (GetSamplingRate s p)) /\
  (forall x, (forall i, (i < length l)%nat -> x <> key (k + i)%nat) -> r' !! x = r !! x).

Lemma saves_cons key k x l s s' r r' :
  (forall i j, key i = key j -> i = j) -> (forall p, p ∈ l -> GetSamplingRate s' p = GetSamplingRate s p) ->
  saves key (S k) l s' (<[key k := GetSamplingRate s x]> r) r' -> saves key k (x :: l) s r r'.
Proof.
  intros Hi Hr [H1 H2]. split.
  - intros [|i] p Hp; simpl in Hp.
    + simplify_eq. rewrite Nat.add_0_r, H2 by (intros i _ E; apply Hi in E; lia). apply lookup_insert_eq.
    + replace (k + S i)%nat with (S k + i)%nat by lia. rewrite (H1 i p Hp). f_equal. apply Hr. by apply list_elem_of_lookup_2 in Hp.
  - intros y Hy. rewrite H2.
    + rewrite lookup_insert_ne; [done|]. intros E. apply (Hy 0%nat); simpl; [lia|]. by rewrite Nat.add_0_r.
    + intros i Hl E. apply (Hy (S i)); simpl; [lia|]. by replace (k + S i)%nat with (S k + i)%nat by lia.
Qed.

Lemma seq_saves l : forall k r s, saves seq_key k l s r (foldl disable_seq (r, s) (indexed_from k l)).1.
Proof.
  induction l as [|x l IH]; intros k r s; [by split|]. eapply saves_cons; [apply seq_key_inj| |apply IH].
  intros p _. by apply rate_alter.
Qed.

Lemma prof_saves l : NoDup l -> forall k r s, saves prof_key k l s r (foldl disable_prof (r, s) (indexed_from k l)).1.
Proof.
  induction 1 as [|x l Hx Hd IH]; intros k r s; [by split|]. eapply saves_cons; [apply prof_key_inj| |apply IH].
  intros p Hp. assert (x <> p) as Hne by congruence. rewrite !rate_alter; done.
Qed.

(** At the second level the sequence rates may be saved already. *)
Lemma disable_again l : forall k r s,
  (forall i p, l !! i = Some p -> r !! seq_key (k + i)%nat = None \/ r !! seq_key (k + i)%nat = Some (GetSamplingRate s p)) ->
  foldl disable_seq_again (r, s) (indexed_from k l) = foldl disable_seq (r, s) (indexed_from k l).
Proof.
  induction l as [|x l IH]; intros k r s H; [done|]. cbn [indexed_from length seq zip foldl]. fold (indexed_from (S k) l).
  assert (disable_seq_again (r, s) (k, x) = disable_seq (r, s) (k, x)) as ->.
  { unfold disable_seq_again, disable_seq. simpl. f_equal. destruct (H 0%nat x eq_refl) as [E|E]; rewrite Nat.add_0_r in E; rewrite E; [done|].
    symmetry. by apply insert_id. }
  apply IH. intros i p Hp. specialize (H (S i) p Hp). replace (k + S i)%nat with (S k + i)%nat in H by lia. simpl.
  rewrite rate_alter by done. destruct (decide (k = (S k + i)%nat)) as [|Hne]; [lia|].
  rewrite lookup_insert_ne; [done|]. intros E. apply seq_key_inj in E. lia.
Qed.

Lemma disable_idem q : Disable (Disable q) = Disable q.
Proof. done. Qed.

Lemma seq_store k l r s p : (foldl disable_seq (r, s) (indexed_from k l)).2 !! p = (if decide (p ∈ l) then Disable else id) <$> s !! p.
Proof.
  rewrite (fold_pair _ (fun s ip => alter Disable ip.2 s)) by done. rewrite (fold_alter (fun _ => Disable) (fun _ => Disable)) by done. done.
Qed.

Definition slow (q : Profiler) : Profiler := Disable (SetSamplingRate (dec 1 10) q).
Lemma prof_store k l r s p : (foldl disable_prof (r, s) (indexed_from k l)).2 !! p = (if decide (p ∈ l) then slow else id) <$> s !! p.
Proof.
  rewrite (fold_pair _ (fun s ip => alter slow ip.2 s)); [by rewrite (fold_alter (fun _ => slow) (fun _ => slow))|].
  intros acc c. unfold disable_prof, slow. simpl. by rewrite alter_alter_eq.
Qed.

Definition with_rate (r : float64) (q : Profiler) : Profiler := Enable (SetSamplingRate r q).

Lemma restore_prof_store rates g k l s p : (forall i p, l !! i = Some p -> default f1 (rates !! prof_key (k + i)%nat) = g p) ->
  foldl (restore_prof rates) s (indexed_from k l) !! p = (if decide (p ∈ l) then with_rate (g p) else id) <$> s !! p.
Proof.
  intros Hg. rewrite <- (fold_alter (fun ip => with_rate (default f1 (rates !! prof_key ip.1))) (fun p => with_rate (g p)) k) by
    (done || by intros i p' q Hi; simpl; rewrite (Hg i p' Hi)).
  f_equal. apply foldl_pointwise. intros s' ip. unfold restore_prof, with_rate. by rewrite alter_alter_eq.
Qed.

Lemma restore_seq_store rates g k l s p : (forall i p, l !! i = Some p -> rates !! seq_key (k + i)%nat = Some (g p)) ->
  foldl (restore_seq rates) s (indexed_from k l) !! p = (if decide (p ∈ l) then with_rate (g p) else id) <$> s !! p.
Proof.
  intros Hg. rewrite <- (fold_alter (fun ip q => Enable (match rates !! seq_key ip.1 with Some r => SetSamplingRate r q | None => q end))
    (fun p => with_rate (g p)) k) by (done || by intros i p' q Hi; simpl; rewrite (Hg i p' Hi)).
  f_equal. apply foldl_pointwise. intros s' ip. unfold restore_seq. destruct (rates !! _); [by rewrite alter_alter_eq|done].
Qed.

(** ** Episodes of pressure

    Beside the watcher and the store, a run carries the store as it was when
    the level was last normal, and whether the deep level was reached since. *)
Abbreviation mem_state := (Watcher * store * (store * bool))%type.
Definition mem_step (st : mem_state) (file : option (list text * bool)) : mem_state :=
  let '(w, s, (s0, deep)) := st in
  let '(w, s, _) := checkMemory file w s in
  (w, s, if mw_state w =? pressureLevelNormal then (s, false) else (s0, deep || (mw_state w =? pressureLevelAllDisabled))).

Definition rates_ok (s : store) : Prop := forall p q, s !! p = Some q -> flt (pf_rate q) f0 = false /\ flt f1 (pf_rate q) = false.

Definition disabled_at (deep : bool) (seqs alls : list nat) (p : nat) : Profiler -> Profiler :=
  if decide (p ∈ alls) then (if deep then slow else if decide (p ∈ seqs) then Disable else id)
  else if decide (p ∈ seqs) then Disable else id.
Definition recovered_at (deep : bool) (seqs alls : list nat) (p : nat) (q : Profiler) : Profiler :=
  if decide (p ∈ seqs) then mkProfiler true (pf_rate q)
  else if decide (p ∈ alls) then mkProfiler true (if deep then pf_rate q else f1) else q.

Definition mem_inv (seqs alls : list nat) (st : mem_state) : Prop :=
  let '(w, s, (s0, deep)) := st in
  mw_seq w = seqs /\ mw_all w = alls /\ rates_ok s0 /\
  ((mw_state w = 0 /\ mw_normalRates w = ∅ /\ s = s0 /\ deep = false) \/
   ((mw_state w = 1 /\ deep = false \/ mw_state w = 2 /\ deep = true) /\
    (forall i p, seqs !! i = Some p -> mw_normalRates w !! seq_key i = Some (GetSamplingRate s0 p)) /\
    (if deep then forall i p, alls !! i = Some p -> mw_normalRates w !! prof_key i = Some (GetSamplingRate s0 p)
     else forall i, mw_normalRates w !! prof_key i = None) /\
    (forall p, s !! p = disabled_at deep seqs alls p <$> s0 !! p))).

Lemma keys_differ i j : seq_key i <> prof_key j.
Proof. done. Qed.

(** The rates are not touched at the first level. *)
Lemma disabled_rate seqs alls s0 s p :
  (forall p, s !! p = disabled_at false seqs alls p <$> s0 !! p) -> GetSamplingRate s p = GetSamplingRate s0 p.
Proof.
  intros H. unfold GetSamplingRate. rewrite H. destruct (s0 !! p); [|done]. simpl. unfold disabled_at. by repeat case_decide.
Qed.

Lemma enter_seq_inv w s : rates_ok s -> mw_normalRates w = ∅ ->
  mem_inv (mw_seq w) (mw_all w) (let '(w, s1) := enterSequenceDisabledMode w s in (setState 1 w, s1, (s, false))).
Proof.
  intros Hr Hn. unfold enterSequenceDisabledMode. rewrite Hn. change indexed with (indexed_from 0).
  pose proof (seq_saves (mw_seq w) 0 ∅ s) as [H1 H2]. pose proof (seq_store 0 (mw_seq w) ∅ s) as H3.
  destruct (foldl disable_seq _ _) as [r s']. simpl in *. split_and!; [done..|]. right. split_and!; [by left|exact H1| |].
  - intros i. rewrite H2; [done|]. intros j _ E. symmetry in E. by apply keys_differ in E.
  - intros p. rewrite H3. unfold disabled_at. by repeat case_decide.
Qed.

Lemma enter_all_inv w s s0 :
  NoDup (mw_all w) -> rates_ok s0 ->
  (forall i p, mw_seq w !! i = Some p -> mw_normalRates w !! seq_key i = None \/ mw_normalRates w !! seq_key i = Some (GetSamplingRate s0 p)) ->
  (forall p, s !! p = s0 !! p \/ s !! p = disabled_at false (mw_seq w) (mw_all w) p <$> s0 !! p) ->
  (forall p, GetSamplingRate s p = GetSamplingRate s0 p) ->
  mem_inv (mw_seq w) (mw_all w) (let '(w, s1, _) := enterAllDisabledMode w s in (setState 2 w, s1, (s0, true))).
Proof.
  intros Hd Hr Hs Hst Hrate. unfold enterAllDisabledMode. change indexed with (indexed_from 0).
  rewrite disable_again by (intros i p Hp; rewrite Hrate; by apply Hs).
  pose proof (seq_saves (mw_seq w) 0 (mw_normalRates w) s) as [H1 _]. pose proof (seq_store 0 (mw_seq w) (mw_normalRates w) s) as H3.
  destruct (foldl disable_seq _ _) as [r1 s1]. simpl in *.
  pose proof (prof_saves (mw_all w) Hd 0 r1 s1) as [P1 P2]. pose proof (prof_store 0 (mw_all w) r1 s1) as P3.
  destruct (foldl disable_prof _ _) as [r2 s2]. simpl in *.
  assert (forall p, GetSamplingRate s1 p = GetSamplingRate s0 p) as Hrate1.
  { intros p. rewrite <- Hrate. unfold GetSamplingRate. rewrite H3. destruct (s !! p); [|done]. simpl. by case_decide. }
  split_and!; [done..|]. right. split_and!; [by right| | |].
  - intros i p Hp. rewrite P2 by (intros j _; apply keys_differ). rewrite (H1 i p Hp), Hrate. done.
  - intros i p Hp. by rewrite (P1 i p Hp), Hrate1.
  - intros p. rewrite P3, H3. destruct (Hst p) as [-> | ->]; destruct (s0 !! p); try done; simpl; unfold disabled_at; repeat case_decide; done.
Qed.

Lemma with_rate_ok r q : flt r f0 = false -> flt f1 r = false -> with_rate r q = mkProfiler true r.
Proof. intros H0 H1. unfold with_rate, SetSamplingRate, Enable, fgt. simpl. by rewrite H0, H1. Qed.

Lemma recover_spec seqs alls w s s0 deep p : mem_inv seqs alls (w, s, (s0, deep)) -> mw_state w <> 0 ->
  (recoverNormalMode w s).1.2 !! p = recovered_at deep seqs alls p <$> s0 !! p.
Proof.
  intros (Es & Ea & Hr & [(E0 & _)|(Hst & H1 & H2 & H3)]) Hne; [done|]. unfold recoverNormalMode. simpl. change indexed with (indexed_from 0).
  rewrite Es, Ea, (restore_seq_store _ (GetSamplingRate s0)) by exact H1.
  rewrite (restore_prof_store _ (fun p => if deep then GetSamplingRate s0 p else f1)).
  2: { intros i p' Hp. destruct deep; simpl; [by rewrite (H2 i p' Hp)|by rewrite H2]. }
  rewrite H3. destruct (s0 !! p) as [q|] eqn:Eq; [|done]. simpl. destruct (Hr p q Eq) as [R0 R1].
  assert (GetSamplingRate s0 p = pf_rate q) as Eg by (unfold GetSamplingRate; by rewrite Eq).
  unfold recovered_at, disabled_at. repeat case_decide; try done; rewrite ?Eg, ?with_rate_ok by done; try done.
  destruct deep; by rewrite with_rate_ok.
Qed.

Lemma recovered_rates_ok seqs alls deep s0 s : rates_ok s0 -> (forall p, s !! p = recovered_at deep seqs alls p <$> s0 !! p) -> rates_ok s.
Proof.
  intros Hr H p q. rewrite H. destruct (s0 !! p) as [q0|] eqn:E; [|done]. intros [= <-]. destruct (Hr p q0 E). unfold recovered_at.
  repeat case_decide; try done. by destruct deep.
Qed.

(** One reading keeps the invariant, and a return to the normal level restores
    the profilers. *)
Lemma mem_step_inv seqs alls w s s0 deep file : NoDup alls -> mem_inv seqs alls (w, s, (s0, deep)) ->
  mem_inv seqs alls (mem_step (w, s, (s0, deep)) file) /\
  (mw_state w <> 0 -> mw_state (checkMemory file w s).1.1 = 0 ->
   forall p, (checkMemory file w s).1.2 !! p = recovered_at deep seqs alls p <$> s0 !! p).
Proof.
  intros Hd H. pose proof H as H'. destruct H as (Es & Ea & Hr & H). unfold mem_step, checkMemory.
  assert (forall r, mem_inv seqs alls (set_ratio r w, s, if mw_state w =? 0 then (s, false) else (s0, deep || (mw_state w =? 2)))) as Same.
  { intros r. destruct H as [(E & Hn & -> & ->)|(Hst & H1 & H2 & H3)].
    - rewrite E. exact H'.
    - assert ((mw_state w =? 0) = false) as -> by (apply Z.eqb_neq; lia).
      assert (deep || (mw_state w =? 2) = deep) as -> by (destruct Hst as [[-> ->]|[-> ->]]; done). exact H'. }
  destruct (readMemInfo file) as [[a t]|]; [|split; [exact (Same (mw_ratio w))|by intros Hne ?]].
  destruct (t =? 0); [split; [exact (Same (mw_ratio w))|by intros Hne ?]|].
  set (ratio := fdiv _ _). set (pct := fmul _ _). set (w1 := set_ratio ratio w). cbn [mw_state set_ratio w1].
  assert (mw_state w <> 0 -> forall p, (recoverNormalMode w1 s).1.2 !! p = recovered_at deep seqs alls p <$> s0 !! p) as Rec.
  { intros Hne p. by apply recover_spec. }
  assert (mw_state w <> 0 -> mem_inv seqs alls (setState 0 (recoverNormalMode w1 s).1.1, (recoverNormalMode w1 s).1.2, ((recoverNormalMode w1 s).1.2, false))) as RecInv.
  { intros Hne. split_and!; [done..| |by left]. eapply recovered_rates_ok; [exact Hr|]. by apply Rec. }
  destruct H as [(E & Hn & -> & ->)|(Hst & H1 & H2 & H3)].
  - rewrite E. cbn [Z.eqb pressureLevelNormal]. destruct (flt pct _); [|destruct (flt pct _)].
    + split; [|by rewrite ?E]. pose proof (enter_all_inv w1 s0 s0) as K. rewrite <- Es, <- Ea in *. destruct (enterAllDisabledMode w1 s0) as [[w2 s2] c].
      apply K; try done; [intros i p _; left; simpl; by rewrite Hn|intros p; by left].
    + split; [|by rewrite ?E]. pose proof (enter_seq_inv w1 s0 Hr Hn) as K. rewrite <- Es, <- Ea. destruct (enterSequenceDisabledMode w1 s0) as [w2 s2]. exact K.
    + split; [exact (Same ratio)|by rewrite ?E].
  - destruct Hst as [[E ->]|[E ->]]; rewrite E in *; cbn [Z.eqb pressureLevelNormal pressureLevelSequenceDisabled pressureLevelAllDisabled Pos.eqb].
    + destruct (flt pct _); [|destruct (fgt pct _)].
      * pose proof (enter_all_inv w1 s s0) as K. rewrite <- Es, <- Ea in *. destruct (enterAllDisabledMode w1 s) as [[w2 s2] c]. split; [|done].
        apply K; try done; [intros i p Hp; right; by apply H1|intros p; right; by apply H3|intros p; by eapply disabled_rate].
      * destruct (recoverNormalMode w1 s) as [[w2 s2] c]. split; [by apply RecInv|]. intros _ _. by apply Rec.
      * change (mw_state w1) with (mw_state w). rewrite E. split; [exact (Same ratio)|]. intros _ K. change (mw_state w = 0) in K. lia.
    + destruct (fgt pct _).
      * destruct (recoverNormalMode w1 s) as [[w2 s2] c]. split; [by apply RecInv|]. intros _ _. by apply Rec.
      * change (mw_state w1) with (mw_state w). rewrite E. split; [exact (Same ratio)|]. intros _ K. change (mw_state w = 0) in K. lia.
Qed.
End MemCorrect.

(** Claim C23. Memory pressure, over any history of readings and whatever the overlap of
    the two lists: when the level returns to normal, every sequence profiler,
    and every other profiler if the deep level was reached, has the sampling
    rate it had before the pressure; profilers on neither list are untouched.
    Two things are not restored: all profilers on the lists end up enabled,
    those disabled before the pressure included, and when only the first level
    was reached the profilers of the second list alone are set to full rate. *)
Theorem memory_recovery cfg seqs alls ctl s files file :
  NoDup alls -> rates_ok s ->
  let w0 := Mem.NewMemoryPressureWatcherWithSequence cfg seqs alls ctl in
  let '(w, s1, (s0, deep)) := foldl mem_step (w0, s, (s, false)) files in
  let '(w', s', _) := Mem.checkMemory file w s1 in
  Mem.mw_state w <> Mem.pressureLevelNormal -> Mem.mw_state w' = Mem.pressureLevelNormal ->
  forall p, s' !! p = recovered_at deep seqs alls p <$> s0 !! p.
Proof.
  intros Hd Hr w0. assert (mem_inv seqs alls (foldl mem_step (w0, s, (s, false)) files)) as H.
  { assert (mem_inv seqs alls (w0, s, (s, false))) as H0 by (split_and!; [done..|by left]).
    generalize dependent (w0, s, (s, false)). induction files as [|f files IH]; intros st H0; [done|]. apply IH.
    destruct st as [[w s1] [s0 deep]]. by apply mem_step_inv. }
  destruct (foldl mem_step _ files) as [[w s1] [s0 deep]]. destruct (mem_step_inv seqs alls w s1 s0 deep file Hd H) as [_ K].
  destruct (Mem.checkMemory file w s1) as [[w' s'] c]. exact K.
Qed.

(** ** The ring-buffer load controller *)
Module Ring.

Record RingBufLoadConfig := mkRingConfig {
  rc_Enabled : bool; rc_CheckInterval : Z;
  rc_DegradedThreshold : float64; rc_CriticalThreshold : float64; rc_RecoveryThreshold : float64;
  rc_SyscallDegradedRate : float64; rc_SyscallCriticalRate : float64; rc_FileDegradedRate : float64; rc_FileCriticalRate : float64;
  rc_NetworkCriticalRate : float64; rc_MinSyscallRate : float64; rc_MinFileRate : float64; rc_MinNetworkRate : float64 }.

Definition DefaultRingBufLoadConfig : RingBufLoadConfig :=
  mkRingConfig false (2 * Second) (dec 50 100) (dec 80 100) (dec 30 100) (dec 25 100) (dec 10 100) (dec 50 100) (dec 25 100)
    (dec 50 100) (dec 5 100) (dec 10 100) (dec 25 100).

Definition or_default (x d : float64) : float64 := if fle x f0 then d else x.
Definition applyRingBufLoadDefaults (c : RingBufLoadConfig) : RingBufLoadConfig :=
  mkRingConfig (rc_Enabled c) (if rc_CheckInterval c <=? 0 then 2 * Second else rc_CheckInterval c)
    (or_default (rc_DegradedThreshold c) (dec 50 100)) (or_default (rc_CriticalThreshold c) (dec 80 100))
    (or_default (rc_RecoveryThreshold c) (dec 30 100)) (or_default (rc_SyscallDegradedRate c) (dec 25 100))
    (or_default (rc_SyscallCriticalRate c) (dec 10 100)) (or_default (rc_FileDegradedRate c) (dec 50 100))
    (or_default (rc_FileCriticalRate c) (dec 25 100)) (or_default (rc_NetworkCriticalRate c) (dec 50 100))
    (or_default (rc_MinSyscallRate c) (dec 5 100)) (or_default (rc_MinFileRate c) (dec 10 100)) (or_default (rc_MinNetworkRate c) (dec 25 100)).

Definition clampRate (rate min : float64) : float64 :=
  if fgt min f0 && flt rate min then min
  else if fgt rate f1 then f1
  else if flt rate f0 then f0
  else rate.

Definition loadLevelNormal : Z := 0.
Definition loadLevelDegraded : Z := 1.
Definition loadLevelCritical : Z := 2.

(** [rg_gauge], [rg_depth], [rg_levelGauge], [rg_downgrades] are the metrics. *)
Record RingBufLoadController := mkRing {
  rg_cfg : RingBufLoadConfig; rg_ctl : bool; rg_level : Z; rg_rates : gmap gostring float64;
  rg_gauge : gmap gostring float64; rg_depth : float64; rg_levelGauge : float64; rg_downgrades : gmap (gostring * gostring) Z }.

Definition three (s f n : float64) : gmap gostring float64 := {[ "syscall" := s; "file" := f; "network" := n ]}%string.

Definition NewRingBufLoadController (cfg : RingBufLoadConfig) (ctl : bool) : RingBufLoadController :=
  mkRing (applyRingBufLoadDefaults cfg) ctl loadLevelNormal (three f1 f1 f1) (three f1 f1 f1) f0 f0 ∅.

Section Order.
Context (order : gmap gostring float64 -> list call).

Definition put_all (l : list call) (m : gmap gostring float64) : gmap gostring float64 := foldl (fun m c => <[c.1 := c.2]> m) m l.

Definition applyRates (rates : gmap gostring float64) (c : RingBufLoadController) : RingBufLoadController * list call :=
  let l := order rates in
  (mkRing (rg_cfg c) (rg_ctl c) (rg_level c) (put_all l (rg_rates c)) (put_all l (rg_gauge c)) (rg_depth c) (rg_levelGauge c) (rg_downgrades c),
   if rg_ctl c then l else []).

Definition set_level (next : Z) (c : RingBufLoadController) : RingBufLoadController :=
  mkRing (rg_cfg c) (rg_ctl c) next (rg_rates c) (rg_gauge c) (rg_depth c) (float_of_Z next) (rg_downgrades c).
Definition count (b : bool) (keys : list (gostring * gostring)) (c : RingBufLoadController) : RingBufLoadController :=
  if b then mkRing (rg_cfg c) (rg_ctl c) (rg_level c) (rg_rates c) (rg_gauge c) (rg_depth c) (rg_levelGauge c)
    (foldl (fun m k => <[k := default 0 (m !! k) + 1]> m) (rg_downgrades c) keys)
  else c.

Definition enterLevel (next : Z) (c : RingBufLoadController) : RingBufLoadController * list call :=
  let prev := rg_level c in
  let cfg := rg_cfg c in
  let c := set_level next c in
  if next =? loadLevelNormal then applyRates (three f1 f1 f1) c
  else if next =? loadLevelDegraded then
    let '(c, cs) := applyRates (three (clampRate (rc_SyscallDegradedRate cfg) (rc_MinSyscallRate cfg))
      (clampRate (rc_FileDegradedRate cfg) (rc_MinFileRate cfg)) f1) c in
    (count (prev <? loadLevelDegraded) [("syscall", "degraded"); ("file", "degraded")]%string c, cs)
  else if next =? loadLevelCritical then
    let '(c, cs) := applyRates (three (clampRate (rc_SyscallCriticalRate cfg) (rc_MinSyscallRate cfg))
      (clampRate (rc_FileCriticalRate cfg) (rc_MinFileRate cfg)) (clampRate (rc_NetworkCriticalRate cfg) (rc_MinNetworkRate cfg))) c in
    (count (prev <? loadLevelCritical) [("syscall", "critical"); ("file", "critical"); ("network", "critical")]%string c, cs)
  else (c, []).

(** [depth]: the channel's fill, when a provider was given. *)
Definition check (depth : option float64) (c : RingBufLoadController) : RingBufLoadController * list call :=
  let fill := default f0 depth in
  let cfg := rg_cfg c in
  let c := mkRing cfg (rg_ctl c) (rg_level c) (rg_rates c) (rg_gauge c) fill (rg_levelGauge c) (rg_downgrades c) in
  if rg_level c =? loadLevelNormal then
    if fge fill (rc_CriticalThreshold cfg) then enterLevel loadLevelCritical c
    else if fge fill (rc_DegradedThreshold cfg) then enterLevel loadLevelDegraded c
    else (c, [])
  else if rg_level c =? loadLevelDegraded then
    if fge fill (rc_CriticalThreshold cfg) then enterLevel loadLevelCritical c
    else if flt fill (rc_RecoveryThreshold cfg) then enterLevel loadLevelNormal c
    else (c, [])
  else if rg_level c =? loadLevelCritical then
    if flt fill (rc_RecoveryThreshold cfg) then enterLevel loadLevelNormal c else (c, [])
  else (c, []).

Definition restore (c : RingBufLoadController) : RingBufLoadController * list call :=
  if rg_level c =? loadLevelNormal then (c, [])
  else let '(c, cs) := applyRates (three f1 f1 f1) c in (set_level loadLevelNormal c, cs).

(** The goroutine: checks, then [restore] when the context ends. *)
Definition run (depths : list (option float64)) (c : RingBufLoadController) : RingBufLoadController :=
  foldl (fun c d => (check d c).1) c depths.
End Order.

Definition CurrentRates (c : RingBufLoadController) : gmap gostring float64 := rg_rates c.
Definition EWMAScaleFactor (et : gostring) (c : RingBufLoadController) : float64 :=
  match rg_rates c !! et with
  | None => f1
  | Some rate => if fle rate f0 then f1 else if fge rate f1 then f1 else fdiv f1 rate
  end.
Definition Level (c : RingBufLoadController) : Z := rg_level c.
End Ring.

Section RingCorrect.
Import Ring.
Context (order : gmap gostring float64 -> list call).
Context (order_perm : forall m, order m ≡ₚ map_to_list m).

(** The rates of a level. *)
Definition level_rates (cfg : RingBufLoadConfig) (level : Z) : gmap gostring float64 :=
  if level =? 0 then three f1 f1 f1
  else if level =? 1 then three (clampRate (rc_SyscallDegradedRate cfg) (rc_MinSyscallRate cfg))
      (clampRate (rc_FileDegradedRate cfg) (rc_MinFileRate cfg)) f1
  else three (clampRate (rc_SyscallCriticalRate cfg) (rc_MinSyscallRate cfg))
      (clampRate (rc_FileCriticalRate cfg) (rc_MinFileRate cfg)) (clampRate (rc_NetworkCriticalRate cfg) (rc_MinNetworkRate cfg)).

Lemma put_all_after l m et : put_all l m !! et = after et (m !! et) l.
Proof.
  revert m. induction l as [|[k v] l IH]; intros m; [done|]. simpl. rewrite IH. simpl.
  destruct (decide (k = et)) as [->|]; by rewrite ?lookup_insert_eq, ?lookup_insert_ne.
Qed.

Lemma put_three a b c s f n : put_all (order (three s f n)) (three a b c) = three s f n.
Proof.
  apply map_eq. intros et. rewrite put_all_after, (after_order order order_perm). destruct (three s f n !! et) eqn:E; [done|].
  unfold three in *. rewrite !lookup_insert_None in E. destruct E as [[E H1] H2]. rewrite !lookup_insert_ne by done.
  by rewrite lookup_singleton_None in *.
Qed.

Definition ring_inv (c : RingBufLoadController) : Prop :=
  (rg_level c = 0 \/ rg_level c = 1 \/ rg_level c = 2) /\ rg_rates c = level_rates (rg_cfg c) (rg_level c) /\ rg_gauge c = rg_rates c.

Lemma level_three cfg level : exists a b c, level_rates cfg level = three a b c.
Proof. unfold level_rates. repeat case_match; eauto. Qed.

Lemma enterLevel_inv next c : ring_inv c -> next = 0 \/ next = 1 \/ next = 2 ->
  ring_inv (enterLevel order next c).1 /\ rg_cfg (enterLevel order next c).1 = rg_cfg c /\ rg_level (enterLevel order next c).1 = next.
Proof.
  intros (Hl & Hr & Hg) Hn. destruct (level_three (rg_cfg c) (rg_level c)) as (x & y & z & E). rewrite E in Hr. rewrite Hr in Hg.
  unfold enterLevel, ring_inv, count. destruct Hn as [->|[->| ->]]; simpl; rewrite ?Hr, ?Hg; repeat case_match; simpl; rewrite ?put_three; auto 10.
Qed.

Lemma check_inv d c : ring_inv c -> ring_inv (check order d c).1 /\ rg_cfg (check order d c).1 = rg_cfg c.
Proof.
  intros H. unfold check. set (c' := mkRing _ _ _ _ _ _ _ _). assert (ring_inv c') as H' by exact H.
  assert (forall l, l = 0 \/ l = 1 \/ l = 2 -> ring_inv (enterLevel order l c').1 /\ rg_cfg (enterLevel order l c').1 = rg_cfg c) as K.
  { intros l Hl. by destruct (enterLevel_inv l c' H' Hl) as (? & ? & _). }
  repeat case_match; try (by split); apply K; auto.
Qed.

Lemma ring_run_inv ds c : ring_inv c -> ring_inv (run order ds c) /\ rg_cfg (run order ds c) = rg_cfg c.
Proof.
  unfold run. revert c. induction ds as [|d ds IH]; intros c H; [done|]. simpl. destruct (check_inv d c H) as [H' E]. rewrite <- E. by apply IH.
Qed.

(** A clamped rate is at least the floor, at most one, and positive. *)
Lemma clampRate_floor rate min : is_num rate -> flt f0 min = true -> flt f1 min = false ->
  flt (clampRate rate min) min = false /\ flt f1 (clampRate rate min) = false.
Proof.
  intros Hr Hm H1. destruct (flt_num _ _ Hm) as [_ Hn]. unfold clampRate, fgt. rewrite Hm. simpl. destruct (flt rate min) eqn:E; [by rewrite flt_irrefl|].
  destruct (flt f1 rate) eqn:E1; [by rewrite flt_irrefl, H1|]. destruct (flt rate f0) eqn:E0; [|done].
  exfalso. pose proof (flt_trans _ _ _ E0 Hm). congruence.
Qed.

(** A rate above a positive floor never switches the event type off. *)
Lemma one_in_n_on oor r min : flt f0 min = true -> flt r min = false -> one_in_n oor r <> 0.
Proof.
  intros H0 Hr. unfold one_in_n. destruct (fle r f0) eqn:E.
  - exfalso. apply fle_key in E as (Nr & _ & K). apply flt_key in H0 as (_ & Nm & K0). apply nflt_key in Hr; [|done..]. unfold key_lt in *. lia.
  - destruct (fge r f1); [done|]. destruct (Z.ltb_spec (float_uint32 oor (fdiv f1 r)) 1); lia.
Qed.
End RingCorrect.

(** The floors: whatever the channel does, the load controller never samples an
    event type below its configured minimum nor above one, so it never switches
    one off in the kernel; network events are untouched below the critical
    level; and on shutdown everything is back at full rate. *)
Theorem ring_floors oor order cfg ctl depths et min :
  (forall m, order m ≡ₚ map_to_list m) ->
  let c := Ring.run order depths (Ring.NewRingBufLoadController cfg ctl) in
  let d := Ring.applyRingBufLoadDefaults cfg in
  Forall is_num [Ring.rc_SyscallDegradedRate d; Ring.rc_SyscallCriticalRate d; Ring.rc_FileDegradedRate d; Ring.rc_FileCriticalRate d; Ring.rc_NetworkCriticalRate d] ->
  (et, min) ∈ [("syscall", Ring.rc_MinSyscallRate d); ("file", Ring.rc_MinFileRate d); ("network", Ring.rc_MinNetworkRate d)]%string ->
  flt f0 min = true -> flt f1 min = false ->
  (exists r, Ring.CurrentRates c !! et = Some r /\ flt r min = false /\ flt f1 r = false /\ one_in_n oor r <> 0) /\
  (Ring.Level c < Ring.loadLevelCritical -> Ring.CurrentRates c !! "network"%string = Some f1) /\
  Ring.CurrentRates (Ring.restore order c).1 = Ring.three f1 f1 f1.
Proof.
  intros Hp c d Hn Hin H0 H1. destruct (ring_run_inv order Hp depths (Ring.NewRingBufLoadController cfg ctl)) as [(Hl & Hr & Hg) Hc]; [by split_and!; [left|..]|].
  fold c in Hl, Hr, Hg, Hc. change (Ring.rg_cfg (Ring.NewRingBufLoadController cfg ctl)) with d in Hc. rewrite Hc in Hr.
  unfold Ring.CurrentRates. split_and!.
  - assert (exists r, Ring.rg_rates c !! et = Some r /\ flt r min = false /\ flt f1 r = false) as (r & E & F1 & F2).
    { rewrite Hr. rewrite !Forall_cons in Hn. destruct Hn as (N1 & N2 & N3 & N4 & N5 & _).
      rewrite !elem_of_cons in Hin. unfold level_rates.
      destruct Hin as [Hin|[Hin|[Hin|Hin]]]; [injection Hin as -> ->..|by apply elem_of_nil in Hin];
        destruct Hl as [->|[->| ->]]; simpl; eexists; (split; [reflexivity|]); auto using clampRate_floor. }
    exists r. split_and!; [done..|]. by apply (one_in_n_on oor _ min).
  - intros K. rewrite Hr. unfold Ring.Level, Ring.loadLevelCritical in K. destruct Hl as [->|[->|E]]; [done..|lia].
  - unfold Ring.restore. destruct (Z.eqb_spec (Ring.rg_level c) Ring.loadLevelNormal) as [E|E].
    + simpl. rewrite Hr, E. done.
    + simpl. rewrite Hr. destruct (level_three d (Ring.rg_level c)) as (x & y & z & ->). by apply put_three.
Qed.

(** ** Runs *)
Module Example_mem.
Import Mem.
(** The sequence profiler 0, disabled by its configuration, and the profiler 1
    sampling half of the events. *)
Definition profilers : store := {[ 0%nat := mkProfiler false f1; 1%nat := mkProfiler true (dec 1 2) ]}.
Definition meminfo (available : gostring) : option (list text * bool) :=
  Some ([txt "MemTotal: 1000 kB"; txt "MemFree: 10 kB"; txt ("MemAvailable: " +:+ available +:+ " kB")], false)%string.

Lemma profilers_ok : rates_ok profilers.
Proof.
  intros p q. unfold profilers. rewrite lookup_insert_Some, lookup_singleton_Some. intros [[_ <-]|[_ [_ <-]]]; vm_compute; done.
Qed.

(** Available memory falls to 8 per cent and comes back: the profiler 0 is now
    enabled and the profiler 1 samples everything. *)
Lemma memory_recovery_witness :
  let w0 := NewMemoryPressureWatcherWithSequence DefaultMemoryConfig [0%nat] [1%nat] false in
  let '(w, s1, _) := checkMemory (meminfo "80") w0 profilers in
  let '(_, s', _) := checkMemory (meminfo "500") w s1 in
  s' !! 0%nat = Some (mkProfiler true f1) /\ s' !! 1%nat = Some (mkProfiler true f1).
Proof.
  assert (NoDup [1%nat]) as Hd by (repeat constructor; set_solver).
  pose proof (memory_recovery DefaultMemoryConfig [0%nat] [1%nat] false profilers [meminfo "80"] (meminfo "500") Hd profilers_ok) as K.
  vm_compute in K. vm_compute. split; [exact (K ltac:(discriminate) eq_refl 0%nat)|exact (K ltac:(discriminate) eq_refl 1%nat)].
Defined.

(** The load controller with its defaults, at a full channel. *)
Lemma ring_floors_witness :
  exists r, Ring.CurrentRates (Ring.run map_to_list [Some f1] (Ring.NewRingBufLoadController Ring.DefaultRingBufLoadConfig true)) !! "file"%string = Some r /\
    flt r (dec 10 100) = false.
Proof.
  destruct (ring_floors (fun _ => 0) map_to_list Ring.DefaultRingBufLoadConfig true [Some f1] "file" (dec 10 100)) as [(r & E & F & _) _].
  - done.
  - repeat constructor; vm_compute; discriminate.
  - right. left.
  - vm_compute. reflexivity.
  - vm_compute. reflexivity.
  - exists r. split; [exact E|exact F].
Defined.
End Example_mem.
