(* ===== verification/Watchdog.v ===== *)
(** * Watchdog

    src/internal/watchdog/watchdog.go and src/internal/bpf/attestation.go: the
    liveness check of each BPF program with its reload and alerts, the
    attestation of program tags against the first ones seen, and the counters
    of lost events and full maps, exported as differences. What a checker
    answers (attached or not, its programs' tags, the outcome of a reload) and
    what the kernel's counters read are arguments of each round. [order] is the
    order Go ranges over the programs in. Timers, the heartbeat and logging are
    not modelled. *)
From stdpp Require Import strings gmap.
From S2P Require Import Prelude Types.

(** ** Attestation *)
Record AttestationViolation := mkViolation { vi_Program : gostring; vi_ExpectedTag : gostring; vi_ActualTag : gostring }.

(** The tags recorded so far. A program without information has no tag. *)
Abbreviation Attestor := (gmap gostring gostring).
Definition NewAttestor : Attestor := ∅.

Definition verifyTag (name tag : gostring) (a : Attestor) : Attestor * option AttestationViolation :=
  match a !! name with
  | None => (<[name := tag]> a, None)
  | Some expected => (a, if decide (expected = tag) then None else Some (mkViolation name expected tag))
  end.
Definition VerifyProgram (name : gostring) (tag : option gostring) (a : Attestor) : Attestor * option AttestationViolation :=
  match tag with None => (a, None) | Some t => verifyTag name t a end.
Fixpoint VerifyAll (programs : list (gostring * option gostring)) (a : Attestor) : Attestor * option AttestationViolation :=
  match programs with
  | [] => (a, None)
  | (name, tag) :: programs =>
      match VerifyProgram name tag a with
      | (a, None) => VerifyAll programs a
      | r => r
      end
  end.
Definition RecordedCount (a : Attestor) : nat := size a.

(** ** Liveness

    A checker as it answers in one round: [ck_programs] is none when it does
    not provide programs, [ck_reload] the error of a reload. *)
Record Checker := mkChecker {
  ck_name : gostring; ck_attached : bool; ck_programs : option (gmap gostring (option gostring)); ck_reload : option gostring }.

(** [wd_loaded], [wd_reattach], [wd_tampering], [wd_checks] are the metrics;
    [wd_alerts] : an alert function was given. *)
Record Watchdog := mkWatchdog {
  wd_attestor : Attestor; wd_loaded : gmap gostring Z; wd_reattach : Z; wd_tampering : Z; wd_checks : Z; wd_alerts : bool }.
Definition New (alerts : bool) : Watchdog := mkWatchdog NewAttestor ∅ 0 0 0 alerts.

Definition set_loaded (name : gostring) (v : Z) (w : Watchdog) : Watchdog :=
  mkWatchdog (wd_attestor w) (<[name := v]> (wd_loaded w)) (wd_reattach w) (wd_tampering w) (wd_checks w) (wd_alerts w).

Definition watchdog_alert (now : Z) (id name message : gostring) : Alert :=
  mkAlert "" now id name SeverityCritical 0 "" message "" "" None empty_enrichment empty_event [] "" "" false [] 0 zero_time zero_time "".

Section Checks.
Context (order : gmap gostring (option gostring) -> list (gostring * option gostring)) (violation_text : AttestationViolation -> gostring).

(** [violation_text] is the violation's [Error()], which quotes the program's
    name with [%q]. *)
Definition runAttestation (now : Z) (c : Checker) (w : Watchdog) : Watchdog * list Alert :=
  match ck_programs c with
  | None => (w, [])
  | Some programs =>
      if decide (programs = ∅) then (w, [])
      else
        let '(a, v) := VerifyAll (order programs) (wd_attestor w) in
        let checks := wd_checks w + Z.of_nat (size programs) in
        match v with
        | None => (mkWatchdog a (wd_loaded w) (wd_reattach w) (wd_tampering w) checks (wd_alerts w), [])
        | Some v =>
            (mkWatchdog a (wd_loaded w) (wd_reattach w) (wd_tampering w + 1) checks (wd_alerts w),
             if wd_alerts w then [watchdog_alert now "watchdog_bpf_tampering" "BPF Program Tampering Detected" (violation_text v)] else [])
        end
  end.

Definition checkProgram (now : Z) (c : Checker) (w : Watchdog) : Watchdog * list Alert :=
  let name := ck_name c in
  if ck_attached c then runAttestation now c (set_loaded name 1 w)
  else
    let w := set_loaded name 0 w in
    let a1 := if wd_alerts w then [watchdog_alert now "watchdog_bpf_detached" "BPF Program Detached"
      ("BPF program " +:+ name +:+ " has been detached, attempting reload")%string] else [] in
    match ck_reload c with
    | Some err =>
        (w, a1 ++ if wd_alerts w then [watchdog_alert now "watchdog_bpf_reload_failed" "BPF Program Reload Failed"
          ("BPF program " +:+ name +:+ " reload failed: " +:+ err)%string] else [])
    | None =>
        let w := set_loaded name 1 w in
        (mkWatchdog (wd_attestor w) (wd_loaded w) (wd_reattach w + 1) (wd_tampering w) (wd_checks w) (wd_alerts w), a1)
    end.

Fixpoint checkAllPrograms (now : Z) (cs : list Checker) (w : Watchdog) : Watchdog * list Alert :=
  match cs with
  | [] => (w, [])
  | c :: cs => let '(w, a) := checkProgram now c w in let '(w, a') := checkAllPrograms now cs w in (w, a ++ a')
  end.
End Checks.

(** ** Counters exported as differences

    One round of [runDropTracking]: each tracker's name and cumulative count;
    the state is what was last seen and what was added to the exported
    counters. *)
Record Drops := mkDrops { dr_seen : gmap gostring Z; dr_exported : gmap gostring Z }.
Definition drop_one (d : Drops) (t : gostring * Z) : Drops :=
  let last := default 0 (dr_seen d !! t.1) in
  if last <? t.2 then
    mkDrops (<[t.1 := t.2]> (dr_seen d)) (<[t.1 := default 0 (dr_exported d !! t.1) + u64 (t.2 - last)]> (dr_exported d))
  else d.
Definition drop_round (d : Drops) (trackers : list (gostring * Z)) : Drops := foldl drop_one d trackers.

Definition mapFullIndexNames : list gostring := ["syscall_args"; "conn_start_map"; "conn_meta_map"]%string.

(** One round of [runMapFullTracking]: per tracker the last totals, and its
    counters now ([None] without a map, an inner [None] when the lookup
    failed), per CPU. *)
Definition full_one (last : Z) (percpu : option (list Z)) : Z * Z :=
  match percpu with
  | None => (last, 0)
  | Some vs => let total := u64 (foldl Z.add 0 vs) in if last <? total then (total, u64 (total - last)) else (last, 0)
  end.
Definition full_tracker (last : list Z) (now : option (list (option (list Z)))) : list Z * list Z :=
  match now with
  | None => (last, repeat 0 (length last))
  | Some readings => split (zip_with full_one last readings)
  end.

(** ** Properties *)

(** A recorded tag is never replaced. *)
Lemma verify_keeps name tag a n t : a !! n = Some t -> (VerifyProgram name tag a).1 !! n = Some t.
Proof.
  intros H. unfold VerifyProgram, verifyTag. destruct tag as [tag|]; [|done]. destruct (a !! name) eqn:E; [done|]. simpl.
  rewrite lookup_insert_ne; [done|]. intros ->. congruence.
Qed.

Lemma verify_all_keeps ps : forall a n t, a !! n = Some t -> (VerifyAll ps a).1 !! n = Some t.
Proof.
  induction ps as [|[name tag] ps IH]; intros a n t H; [done|]. simpl. pose proof (verify_keeps name tag a n t H) as K.
  destruct (VerifyProgram name tag a) as [a' [v|]]; [done|]. by apply IH.
Qed.

(** A program that shows another tag than the recorded one makes the round
    fail, whatever comes first. *)
Lemma verify_all_violation ps : forall a n t t', a !! n = Some t -> (n, Some t') ∈ ps -> t' <> t ->
  exists v, (VerifyAll ps a).2 = Some v /\ vi_ExpectedTag v <> vi_ActualTag v.
Proof.
  induction ps as [|[name tag] ps IH]; intros a n t t' H Hin Hne; [by apply elem_of_nil in Hin|]. simpl.
  pose proof (verify_keeps name tag a n t H) as K. destruct (VerifyProgram name tag a) as [a' [v|]] eqn:E.
  - exists v. split; [done|]. unfold VerifyProgram, verifyTag in E. destruct tag as [tag|]; [|done].
    destruct (a !! name); [|done]. case_decide; [done|]. by injection E as _ <-.
  - apply elem_of_cons in Hin as [Hin|Hin]; [|by apply (IH a' n t t')]. injection Hin as <- <-.
    unfold VerifyProgram, verifyTag in E. rewrite H in E. case_decide; [congruence|done].
Qed.

(** Without a violation every tag shown is recorded. *)
Lemma verify_all_records ps : forall a, (VerifyAll ps a).2 = None ->
  forall n t, (n, Some t) ∈ ps -> (VerifyAll ps a).1 !! n = Some t.
Proof.
  induction ps as [|[name tag] ps IH]; intros a H n t Hin; [by apply elem_of_nil in Hin|]. simpl in *.
  destruct (VerifyProgram name tag a) as [a' [v|]] eqn:E; [done|].
  apply elem_of_cons in Hin as [Hin|Hin]; [|by apply IH]. injection Hin as <- <-. apply verify_all_keeps.
  unfold VerifyProgram, verifyTag in E. destruct (a !! n) eqn:En; injection E as <-; [case_decide; by simplify_eq|apply lookup_insert_eq].
Qed.

(** Rounds of checks keep the recorded tags. *)
Lemma check_keeps order vt now c w n t : wd_attestor w !! n = Some t -> wd_attestor (checkProgram order vt now c w).1 !! n = Some t.
Proof.
  intros H. unfold checkProgram. destruct (ck_attached c); [|by destruct (ck_reload c)]. unfold runAttestation. destruct (ck_programs c) as [ps|]; [|done].
  case_decide; [done|]. simpl. pose proof (verify_all_keeps (order ps) (wd_attestor w) n t H) as K. by destruct (VerifyAll _ _) as [a [v|]].
Qed.

Lemma check_all_keeps order vt now cs : forall w n t, wd_attestor w !! n = Some t -> wd_attestor (checkAllPrograms order vt now cs w).1 !! n = Some t.
Proof.
  induction cs as [|c cs IH]; intros w n t H; [done|]. simpl. pose proof (check_keeps order vt now c w n t H) as K.
  destruct (checkProgram _ _ _ c w) as [w' a]. pose proof (IH w' n t K) as K'. by destruct (checkAllPrograms _ _ _ cs w').
Qed.

(** Claim C24. Tampering: once a round has seen a program's tag without complaint, every
    later round, after any number of rounds in between, in which the attached
    program shows another tag counts a violation and raises a critical alert. *)
Theorem tampering_reported order vt w n t rounds now c ps now' c' ps' t' :
  (forall m, order m ≡ₚ map_to_list m) -> wd_alerts w = true ->
  ck_attached c = true -> ck_programs c = Some ps -> ps !! n = Some (Some t) ->
  wd_tampering (checkProgram order vt now c w).1 = wd_tampering w ->
  ck_attached c' = true -> ck_programs c' = Some ps' -> ps' !! n = Some (Some t') -> t' <> t ->
  let w1 := foldl (fun w r => (checkAllPrograms order vt r.1 r.2 w).1) (checkProgram order vt now c w).1 rounds in
  let r := checkProgram order vt now' c' w1 in
  wd_tampering r.1 = wd_tampering w1 + 1 /\
  exists v, r.2 = [watchdog_alert now' "watchdog_bpf_tampering" "BPF Program Tampering Detected" (vt v)] /\ vi_ExpectedTag v <> vi_ActualTag v.
Proof.
  intros Ho Hw Hc Hp Hn Hv Hc' Hp' Hn' Hne w1.
  assert (forall now w c, wd_alerts (checkProgram order vt now c w).1 = wd_alerts w) as Al'.
  { intros. unfold checkProgram, runAttestation. repeat (case_match; simpl); try done. }
  assert (forall now cs w, wd_alerts (checkAllPrograms order vt now cs w).1 = wd_alerts w) as Ala.
  { intros now0 cs. induction cs as [|x cs IH]; intros w0; [done|]. simpl. pose proof (Al' now0 w0 x) as K. destruct (checkProgram _ _ _ x w0) as [w2 a2].
    pose proof (IH w2) as K2. destruct (checkAllPrograms _ _ _ cs w2) as [w3 a3]. simpl in *. congruence. }
  assert (wd_attestor w1 !! n = Some t /\ wd_alerts w1 = true) as [Ha Hal].
  { assert (wd_attestor (checkProgram order vt now c w).1 !! n = Some t /\ wd_alerts (checkProgram order vt now c w).1 = true) as H0.
    { split; [|by rewrite Al']. revert Hv. unfold checkProgram, runAttestation. rewrite Hc, Hp. rewrite decide_False by (intros ->; by rewrite lookup_empty in Hn).
      pose proof (verify_all_records (order ps) (wd_attestor w)) as K. simpl. destruct (VerifyAll _ _) as [a [v|]]; simpl; [lia|]. intros _.
      apply K; [done|]. rewrite Ho. by apply elem_of_map_to_list. }
    unfold w1. clear w1 Hv. generalize dependent (checkProgram order vt now c w).1. induction rounds as [|[nw cs] rounds IH]; intros w0 [H1 H2]; [done|].
    simpl. apply IH. split; [by apply check_all_keeps|by rewrite Ala]. }
  unfold checkProgram, runAttestation. rewrite Hc', Hp'. rewrite decide_False by (intros ->; by rewrite lookup_empty in Hn'). simpl.
  destruct (verify_all_violation (order ps') (wd_attestor w1) n t t' Ha) as (v & Ev & Hd); [rewrite Ho; by apply elem_of_map_to_list|done|].
  destruct (VerifyAll _ _) as [a v']. simpl in Ev. subst v'. simpl. rewrite Hal. eauto.
Qed.

(** Counts per name that never fall, from one round to the next. *)
Definition never_falls (rounds : list (list (gostring * Z))) : Prop :=
  forall i j name a b, (i <= j)%nat -> (exists r, rounds !! i = Some r /\ (name, a) ∈ r) -> (exists r, rounds !! j = Some r /\ (name, b) ∈ r) ->
  0 <= a <= b /\ b < 2 ^ 64.

Definition drop_inv (d : Drops) : Prop :=
  forall n, dr_exported d !! n = dr_seen d !! n /\ 0 <= default 0 (dr_seen d !! n) < 2 ^ 64.

Lemma drop_one_spec d t : drop_inv d -> 0 <= t.2 < 2 ^ 64 ->
  drop_inv (drop_one d t) /\
  forall n, default 0 (dr_seen (drop_one d t) !! n) = if decide (n = t.1) then Z.max (default 0 (dr_seen d !! n)) t.2 else default 0 (dr_seen d !! n).
Proof.
  intros H Ht. unfold drop_one. destruct (Z.ltb_spec (default 0 (dr_seen d !! t.1)) t.2) as [L|L].
  - destruct (H t.1) as [E B]. unfold u64. rewrite wrap_id by (unfold in_range; lia). rewrite E.
    split; intros n; simpl; destruct (decide (n = t.1)) as [->|Hne]; rewrite ?lookup_insert_eq, ?lookup_insert_ne by done; simpl; [split; [f_equal|]; lia|apply H|lia|done].
  - split; [done|]. intros n. case_decide; [|done]. subst. lia.
Qed.

Lemma drop_round_spec r : forall d, drop_inv d -> (forall n c, (n, c) ∈ r -> 0 <= c < 2 ^ 64) ->
  drop_inv (drop_round d r) /\
  forall n, default 0 (dr_seen (drop_round d r) !! n) = foldl (fun m t => if decide (n = t.1) then Z.max m t.2 else m) (default 0 (dr_seen d !! n)) r.
Proof.
  induction r as [|t r IH]; intros d H Hr; [done|]. destruct (drop_one_spec d t H) as [H1 H2]; [destruct t as [g x]; apply (Hr g); set_solver|].
  destruct (IH (drop_one d t) H1) as [H3 H4]; [intros; apply (Hr n); set_solver|]. split; [exact H3|]. intros n. cbn [drop_round foldl] in *.
  unfold drop_round in H4. rewrite H4, H2. done.
Qed.

(** Lost events: while the trackers' counts never fall, after any rounds the
    exported counter of a tracker is exactly its last count: nothing is counted
    twice, nothing is missed. *)
Theorem lost_events_exact rounds name c :
  never_falls rounds -> (exists r, last rounds = Some r /\ (name, c) ∈ r) -> 0 < c ->
  dr_exported (foldl drop_round (mkDrops ∅ ∅) rounds) !! name = Some c.
Proof.
  intros Hm (r & Hl & Hc) Hpos.
  assert (drop_inv (foldl drop_round (mkDrops ∅ ∅) rounds) /\
    forall n, default 0 (dr_seen (foldl drop_round (mkDrops ∅ ∅) rounds) !! n) =
      foldl (fun m t => if decide (n = t.1) then Z.max m t.2 else m) 0 (concat rounds)) as [Hi Hs].
  { assert (forall n c r, r ∈ rounds -> (n, c) ∈ r -> 0 <= c < 2 ^ 64) as Hb.
    { intros n x r' [i Hi]%list_elem_of_lookup_1 Hx. destruct (Hm i i n x x); [lia|eauto..|lia]. }
    clear Hl Hm. assert (drop_inv (mkDrops ∅ ∅)) as H0 by (intros n; simpl; rewrite lookup_empty; simpl; split; [done|lia]).
    assert (forall n, default 0 (dr_seen (mkDrops ∅ ∅) !! n) = 0) as Hz by (intros n; simpl; by rewrite lookup_empty).
    induction rounds as [|x rounds IH] using rev_ind; [done|]. rewrite foldl_app. simpl.
    destruct IH as [I1 I2]; [intros n' c' r' Hr' Hx; apply (Hb n' c' r'); [apply elem_of_app; by left|done]|].
    destruct (drop_round_spec x _ I1) as [J1 J2]; [intros n' c' Hx; apply (Hb n' c' x); [apply elem_of_app; right; by left|done]|].
    split; [exact J1|]. intros n. rewrite J2, I2, concat_app, foldl_app. simpl. by rewrite app_nil_r. }
  destruct (Hi name) as [-> _]. specialize (Hs name).
  assert (foldl (fun m t => if decide (name = t.1) then Z.max m t.2 else m) 0 (concat rounds) = c) as E.
  { assert (forall l m, (m <= c) -> Forall (fun t => t.1 = name -> t.2 <= c) l -> (m = c \/ (name, c) ∈ l) ->
      foldl (fun m t => if decide (name = t.1) then Z.max m t.2 else m) m l = c) as F.
    { clear. induction l as [|[n x] l IH]; intros m Hm Hf Ho; simpl; [by destruct Ho as [|H%elem_of_nil]|]. apply Forall_cons in Hf as [Hx Hf]. simpl in Hx.
      case_decide as En; [subst n|]; apply IH; try done; [specialize (Hx eq_refl); lia| |].
      - specialize (Hx eq_refl). destruct Ho as [->|[Ho|Ho]%elem_of_cons]; [left; lia|injection Ho as ->; left; lia|by right].
      - destruct Ho as [|[Ho|Ho]%elem_of_cons]; [by left|by injection Ho as ->|by right]. }
    rewrite last_lookup in Hl. apply F; [lia| |right].
    - apply Forall_forall. intros [n x] Hx Hn. simpl in *. subst n. apply list_elem_of_In, in_concat in Hx as (r' & Hr' & Hx).
      apply list_elem_of_In in Hr', Hx. apply list_elem_of_lookup_1 in Hr' as [i Hi']. pose proof (lookup_lt_Some _ _ _ Hi').
      destruct (Hm i (pred (length rounds)) name x c); [lia|eauto..|lia].
    - apply list_elem_of_In, in_concat. exists r. split; apply list_elem_of_In; [by apply list_elem_of_lookup_2 in Hl|done]. }
  rewrite E in Hs. destruct (dr_seen _ !! name); simpl in *; [congruence|lia].
Qed.

(** ** Examples *)
Module Example_watchdog.
Definition syscalls (tag : gostring) : Checker := mkChecker "syscall" true (Some {[ "enter_read" := Some tag ]}) None.

Lemma tampering_reported_witness :
  let w1 := (checkProgram map_to_list vi_ActualTag 1 (syscalls "aa") (New true)).1 in
  wd_tampering (checkProgram map_to_list vi_ActualTag 2 (syscalls "bb") w1).1 = 1.
Proof.
  destruct (tampering_reported map_to_list vi_ActualTag (New true) "enter_read" "aa" [] 1 (syscalls "aa") {[ "enter_read" := Some "aa" ]}%string
    2 (syscalls "bb") {[ "enter_read" := Some "bb" ]}%string "bb") as [K _]; [done|done|done|done|done|done|done|done|done|done|].
  exact K.
Defined.

Lemma lost_events_exact_witness :
  dr_exported (foldl drop_round (mkDrops ∅ ∅) [[("syscall", 3)]; [("syscall", 3)]; [("syscall", 10)]]%string) !! "syscall"%string = Some 10.
Proof.
  apply (lost_events_exact [[("syscall", 3)]; [("syscall", 3)]; [("syscall", 10)]]%string "syscall" 10).
  - intros i j n a b Hij (r1 & H1 & Ha) (r2 & H2 & Hb). rewrite list_elem_of_In in Ha, Hb.
    destruct i as [|[|[|i]]], j as [|[|[|j]]]; try (exfalso; lia); simpl in H1, H2; simplify_eq;
      destruct Ha as [[= <- <-]|[]], Hb as [[= <-]|[]]; lia.
  - exists [("syscall"%string, 10)]. split; [done|]. by left.
  - done.
Defined.
End Example_watchdog.
