(* ===== verification/HttpMux.v ===== *)
(** * Request paths and routing

    The part of net/url and net/http that src/internal/exporter/server.go
    routes its requests with: percent decoding of a path, [cleanPath], and the
    [ServeMux] of Go 1.22 and later on patterns of literal segments with or
    without a trailing slash, as [RegisterAPIRoutes] and the constructors
    register them. The router matches the escaped path of the request,
    segment by segment, while the access checks of
    src/internal/exporter/server_auth.go look at the decoded path as a
    whole; [served_prefix] relates the two. *)
From Stdlib Require Import Ascii.
From S2P Require Import Prelude GoBytes GoText.

Definition slash : ascii := "/"%char.

(** ** Percent decoding ([url.PathUnescape]) *)
Definition hex_digit (c : ascii) : option N :=
  let n := N_of_ascii c in
  if ((48 <=? n) && (n <=? 57))%N then Some (n - 48)%N
  else if ((65 <=? n) && (n <=? 70))%N then Some (n - 55)%N
  else if ((97 <=? n) && (n <=? 102))%N then Some (n - 87)%N else None.

Fixpoint unescape (s : text) : option text :=
  match s with
  | [] => Some []
  | c :: s =>
      if decide (c = "%"%char) then
        match s with
        | a :: b :: s =>
            match hex_digit a, hex_digit b with
            | Some x, Some y => cons (ascii_of_N (16 * x + y)) <$> unescape s
            | _, _ => None
            end
        | _ => None
        end
      else cons c <$> unescape s
  end.
(** The router keeps a segment that does not decode. *)
Definition pathUnescape (s : text) : text := default s (unescape s).

(** ** cleanPath *)
Fixpoint join_with (sep : text) (l : list text) : text :=
  match l with [] => [] | [s] => s | s :: l => s ++ sep ++ join_with sep l end.

(** [path.Clean] of a rooted path, on its elements; [acc] is reversed. *)
Fixpoint clean_parts (acc parts : list text) : list text :=
  match parts with
  | [] => rev acc
  | p :: parts =>
      if decide (p = [] \/ p = txt ".") then clean_parts acc parts
      else if decide (p = txt "..") then clean_parts (tail acc) parts
      else clean_parts (p :: acc) parts
  end.
Definition path_Clean (p : text) : text := slash :: join_with [slash] (clean_parts [] (text_split slash [] p)).

Definition cleanPath (p : text) : text :=
  match p with
  | [] => [slash]
  | c :: _ =>
      let p := if decide (c = slash) then p else slash :: p in
      let np := path_Clean p in
      if text_suffix [slash] p && negb (bool_decide (np = [slash])) then np ++ [slash] else np
  end.

(** ** Patterns and matching *)

(** The segments [firstSegment] takes off a path: decoded, a trailing slash
    being a segment of its own. *)
Fixpoint segs_of (parts : list text) : list text :=
  match parts with
  | [] => []
  | p :: parts => match p, parts with [], [] => [[slash]] | _, _ => pathUnescape p :: segs_of parts end
  end.
Definition segments (path : text) : list text :=
  match path with [] => [] | _ :: rest => segs_of (text_split slash [] rest) end.

Section mux.
Context {H : Type}.

(** A pattern: its literal segments, whether it ends in a slash (and so
    stands for a whole subtree), and its handler. *)
Record pattern := mkPattern { pt_lits : list text; pt_multi : bool; pt_handler : H }.

Definition HandleFunc (path : gostring) (h : H) : pattern :=
  let parts := text_split slash [] (drop 1 (txt path)) in
  if bool_decide (last parts = Some []) then mkPattern (removelast parts) true h else mkPattern parts false h.

Definition pattern_matches (segs : list text) (p : pattern) : bool :=
  if pt_multi p then bool_decide (pt_lits p `prefix_of` segs) && (length (pt_lits p) <? length segs)%nat
  else bool_decide (pt_lits p = segs).

(** The most specific match: the one with most literal segments. *)
Definition better (best : option pattern) (p : pattern) : option pattern :=
  match best with Some q => if (length (pt_lits q) <? length (pt_lits p))%nat then Some p else best | None => Some p end.
Definition mux_match (ps : list pattern) (path : text) : option pattern :=
  foldl better None (filter (fun p => pattern_matches (segments path) p = true) ps).

Definition exactMatch (n : option pattern) (path : text) : bool :=
  match n with
  | None => false
  | Some p => negb (pt_multi p) ||
      text_suffix [slash] path && bool_decide (S (length (pt_lits p)) = length (filter (.= slash) path))
  end.

(** [matchOrRedirect]: the redirect from /tree to /tree/ *)
Definition slash_redirect (ps : list pattern) (path : text) : bool :=
  negb (exactMatch (mux_match ps path) path) && negb (text_suffix [slash] path) &&
  exactMatch (mux_match ps (path ++ [slash])) (path ++ [slash]).

Inductive found := FoundHandler (h : H) | FoundRedirect (to : text) | FoundNothing.

Definition found_of (n : option pattern) : found := match n with Some p => FoundHandler (pt_handler p) | None => FoundNothing end.

(** [findHandler] for a request with this method, escaped and decoded path *)
Definition findHandler (ps : list pattern) (method : gostring) (escaped decoded : text) : found :=
  let path := if decide (method = "CONNECT"%string) then escaped else cleanPath escaped in
  if slash_redirect ps path then FoundRedirect (cleanPath decoded ++ [slash])
  else if negb (bool_decide (path = escaped)) then FoundRedirect path
  else found_of (mux_match ps path).

(** ** The handler that is found matches the path as it was sent *)
Lemma mux_match_elem ps path p : mux_match ps path = Some p -> p ∈ ps /\ pattern_matches (segments path) p = true.
Proof.
  unfold mux_match. assert (forall l best, foldl better best l = Some p -> best = Some p \/ p ∈ l) as Hgen.
  { induction l as [|q l IH]; intros best; cbn; [by left|].
    intros [Hb|Hp]%IH; [|right; by right]. unfold better in Hb. destruct best as [b|]; [case_match|]; simplify_eq; set_solver. }
  intros [?|[Hm Hp]%list_elem_of_filter]%Hgen; [done|]. by split.
Qed.

Lemma findHandler_match ps method escaped decoded h :
  findHandler ps method escaped decoded = FoundHandler h ->
  exists p, p ∈ ps /\ pt_handler p = h /\ pattern_matches (segments escaped) p = true.
Proof.
  unfold findHandler. case_match; [done|]. case_bool_decide as He; [|done]. cbn. rewrite He.
  destruct (mux_match ps escaped) as [p|] eqn:Hm; [|done]. intros [= <-]. exists p. by destruct (mux_match_elem _ _ _ Hm).
Qed.
End mux.
Arguments pattern : clear implicits.
Arguments found : clear implicits.

(** ** Decoding the whole path and its segments *)
Lemma unescape_slash a b r : slash ∉ a -> unescape (a ++ slash :: b) = Some r ->
  exists ra rb, unescape a = Some ra /\ unescape b = Some rb /\ r = ra ++ slash :: rb.
Proof.
  remember (length a) as n eqn:Hn. revert a r Hn. induction n as [n IH] using lt_wf_ind. intros a r -> Hs Hr.
  destruct a as [|c a]; cbn -[hex_digit] in *.
  { destruct (unescape b) as [rb|]; simplify_eq/=. by exists [], rb. }
  apply not_elem_of_cons in Hs as [Hc Hs]. destruct (decide (c = _)) as [->|].
  - destruct a as [|x [|y a]]; cbn -[hex_digit] in *.
    + destruct b as [|y b]; [done|]. done.
    + by destruct (hex_digit x).
    + destruct (hex_digit x) as [u|]; [|done]. destruct (hex_digit y) as [v|]; [|done].
      destruct (unescape (a ++ _)) as [r'|] eqn:Hr'; simplify_eq/=.
      destruct (IH (length a) ltac:(lia) a r' eq_refl) as (ra & rb & -> & -> & ->); [set_solver|done|].
      by eexists _, _.
  - destruct (unescape (a ++ _)) as [r'|] eqn:Hr'; simplify_eq/=.
    destruct (IH (length a) ltac:(lia) a r' eq_refl) as (ra & rb & -> & -> & ->); [done..|]. by eexists _, _.
Qed.

Lemma text_split_head c cur s : exists p ps, text_split c cur s = (cur ++ p) :: ps /\ c ∉ p /\
  ((ps = [] /\ s = p) \/ exists s', s = p ++ c :: s' /\ ps = text_split c [] s').
Proof.
  revert cur. induction s as [|d s IH]; intros cur; cbn.
  { exists [], []. rewrite app_nil_r. set_solver. }
  destruct (decide (d = c)) as [->|Hd].
  { exists [], (text_split c [] s). rewrite app_nil_r. split; [done|]. split; [set_solver|]. right. by exists s. }
  destruct (IH (cur ++ [d])) as (p & ps & Hp & Hc & Hs). exists (d :: p), ps. rewrite Hp, <- app_assoc.
  split; [done|]. split; [set_solver|]. destruct Hs as [[-> ->]|(s' & -> & ->)]; [by left|right]. by exists s'.
Qed.

(** The literal segments a path starts with are what its decoded text starts
    with, up to the end or a slash. *)
Lemma decoded_parts s r lits : unescape s = Some r -> lits <> [] -> [slash] ∉ lits ->
  lits `prefix_of` segs_of (text_split slash [] s) ->
  exists rest, r = join_with [slash] lits ++ rest /\ (rest = [] \/ exists t, rest = slash :: t).
Proof.
  revert s r. induction lits as [|l lits IH]; [done|]. intros s r Hr _ Hns Hp.
  destruct (text_split_head slash [] s) as (p & ps & Hsp & Hc & Hs). rewrite Hsp in Hp. cbn [app] in Hp.
  assert (segs_of (p :: ps) = pathUnescape p :: segs_of ps \/ segs_of (p :: ps) = [[slash]]) as Htl.
  { cbn. destruct p, ps; eauto. }
  destruct Htl as [Htl|Htl]; rewrite Htl in Hp.
  2: { destruct Hp as [k Hk]. cbn in Hk. simplify_eq. set_solver. }
  apply prefix_cons_inv_1 in Hp as Hl. apply prefix_cons_inv_2 in Hp as Hp'. subst l.
  destruct Hs as [[-> ->]|(s' & -> & ->)].
  - cbn in Hp'. apply prefix_nil_inv in Hp' as ->. unfold pathUnescape. rewrite Hr. cbn. exists [].
    rewrite app_nil_r. by split; [|left].
  - apply unescape_slash in Hr as (ra & rb & Ha & Hb & ->); [|done]. unfold pathUnescape. rewrite Ha. cbn [default].
    destruct lits as [|l2 lits].
    + cbn. exists (slash :: rb). split; [done|right; by exists rb].
    + destruct (IH s' rb) as (rest & -> & Hrest); [done|done|set_solver|done|].
      exists rest. split; [|done]. cbn [join_with]. by rewrite <- !app_assoc.
Qed.

(** A handler served for a request was registered under literal segments
    that the decoded path of the request starts with. *)
Lemma served_prefix {H} (ps : list (pattern H)) method rest path h :
  unescape (slash :: rest) = Some path -> Forall (fun p => [slash] ∉ pt_lits p) ps ->
  findHandler ps method (slash :: rest) path = FoundHandler h ->
  exists p, p ∈ ps /\ pt_handler p = h /\
    (pt_lits p = [] \/ exists t, path = slash :: join_with [slash] (pt_lits p) ++ t /\ (t = [] \/ exists u, t = slash :: u)).
Proof.
  intros Hu Hps Hf. apply findHandler_match in Hf as (p & Hp & Hh & Hm). exists p. split; [done|]. split; [done|].
  destruct (decide (pt_lits p = [])) as [|Hne]; [by left|right].
  assert (pt_lits p `prefix_of` segments (slash :: rest)) as Hpre.
  { unfold pattern_matches in Hm. destruct (pt_multi p).
    - apply andb_true_iff in Hm as [Hm _]. by apply bool_decide_eq_true in Hm.
    - apply bool_decide_eq_true in Hm. by rewrite Hm. }
  cbn in Hu. destruct (unescape rest) as [r|] eqn:Hr; simplify_eq/=.
  rewrite Forall_forall in Hps. destruct (decoded_parts rest r (pt_lits p) Hr Hne (Hps p Hp) Hpre) as (t & -> & Ht).
  by exists t.
Qed.
