(* ===== verification/Auth.v ===== *)
(** * Access control of the HTTP server

    Models src/internal/exporter/server_auth.go: bearer tokens, the two-role
    and the namespace-scoped middleware, the public and viewer path tables and
    the CORS middleware. A middleware is the decision it takes on a request:
    to answer it, or to pass it on with a token scope in its context.
    [subtle.ConstantTimeCompare] is equality of the compared bytes;
    [rand.Read] is a parameter. *)
From Stdlib Require Import Ascii.
From S2P Require Import Prelude GoBytes GoText Types Fields TraceCtx HttpMux.

(** ** Requests *)

(** The method, the path as sent and decoded (by [net/url], see [path_ok]),
    the query parameters, the headers under their canonical names, the body. *)
Record request := mkHTTP {
  hr_Method : gostring; hr_Escaped : text; hr_Path : text; hr_Query : list (gostring * gostring);
  hr_Header : list (gostring * gostring); hr_Body : list byte }.

(** The first value of a name, empty when there is none. *)
Definition Get (name : gostring) (l : list (gostring * gostring)) : gostring := default ""%string (assoc name l).

(** What [net/url] guarantees: the decoded path is the escaped path decoded,
    and a path that is not empty starts with a slash. *)
Definition path_ok (r : request) : Prop :=
  unescape (hr_Escaped r) = Some (hr_Path r) /\ (hr_Escaped r = [] \/ exists rest, hr_Escaped r = slash :: rest).
#[export] Instance path_ok_dec r : Decision (path_ok r).
Proof.
  assert (Decision (hr_Escaped r = [] \/ exists rest, hr_Escaped r = slash :: rest)).
  { destruct (hr_Escaped r) as [|c rest]; [left; by left|]. destruct (decide (c = slash)) as [->|Hc]; [left; right; by exists rest|].
    right. intros [?|[? ?]]; simplify_eq. }
  unfold path_ok. apply _.
Defined.

(** ** Tokens and scopes *)
Abbreviation Role := gostring.
Definition RoleViewer : Role := "viewer"%string.
Definition RoleAdmin : Role := "admin"%string.

Record TokenScope := mkScope { ts_Role : Role; ts_Namespaces : list gostring }.
Record NamespacedToken := mkToken { nt_Token : gostring; nt_Role : Role; nt_Namespaces : list gostring }.
#[export] Instance TokenScope_eq_dec : EqDecision TokenScope.
Proof. solve_decision. Defined.

Definition AllowsNamespace (s : TokenScope) (ns : gostring) : bool :=
  match ts_Namespaces s with
  | [] => true
  | l => existsb (fun n => bool_decide (n = "*"%string) || bool_decide (n = ns)) l
  end.

(** The preview in the log: eight bytes and an ellipsis (U+2026). *)
Definition tokenPreview (token : gostring) : gostring :=
  if (String.length token <=? 8)%nat then "********"%string
  else (string_to 8 token +:+ str (bytes_text [0xE2; 0x80; 0xA6]%N))%string.

Record AuthConfig := mkAuth { ac_Enabled : bool; ac_BearerToken : gostring }.

(** Two hexadecimal digits per byte. *)
Definition hex_char (n : N) : ascii := ascii_of_N (if (n <? 10)%N then 48 + n else 87 + n)%N.
Definition hex_EncodeToString (l : list byte) : gostring :=
  str (concat (map (fun b => [hex_char (Byte.to_N b / 16)%N; hex_char (Byte.to_N b mod 16)%N]) l)).
(** [random] is what [rand.Read] puts into 32 bytes, if it does not fail. *)
Definition GenerateRandomToken (random : option (list byte)) : option gostring := hex_EncodeToString <$> random.

Definition SetupAuth (random : option (list byte)) (cfg : AuthConfig) : gostring * bool :=
  if negb (ac_Enabled cfg) then (""%string, false)
  else if decide (ac_BearerToken cfg = ""%string)
  then match GenerateRandomToken random with Some t => (t, true) | None => (""%string, false) end
  else (ac_BearerToken cfg, true).

(** ** Paths *)
Definition viewerPrefixes : list text :=
  map txt ["/metrics"; "/api/v1/alerts"; "/api/v1/rules"; "/api/v1/status"; "/api/v1/summary"; "/api/v1/feedback"; "/api/v1/incidents"]%string.
Definition publicAssetPrefixes : list text := map txt ["/ui/"; "/swaggerui/"]%string.
Definition publicAssetPaths : list text := map txt ["/"; "/ui"; "/api/docs"; "/api/openapi.yaml"]%string.

Definition isPublicAsset (path : text) : bool :=
  bool_decide (path ∈ publicAssetPaths) || existsb (fun p => text_prefix p path) publicAssetPrefixes.
Definition is_health (path : text) : bool := text_prefix (txt "/health") path.

Definition isViewerAllowed (method : gostring) (path : text) : bool :=
  if negb (bool_decide (method = "GET"%string)) && negb (bool_decide (method = "HEAD"%string)) then false
  else existsb (fun p => bool_decide (path = p) || text_prefix (p ++ [slash]) path || text_prefix (p ++ txt "?") path) viewerPrefixes.

(** ** Middleware *)

(** The request is answered with an error, or passed on. *)
Inductive decision := Answer (code : Z) (msg : gostring) | Pass (scope : option TokenScope).

Section auth.
Context `{GoLib}.

(** The two parts of a header, when the first is "bearer" in any case. *)
Definition bearer (h : gostring) : option gostring :=
  match split_n 2 " " "" h with
  | [scheme; token] => if decide (ToLower scheme = "bearer"%string) then Some token else None
  | _ => None
  end.
Definition extractBearerToken (r : request) : option gostring :=
  let h := Get "Authorization" (hr_Header r) in
  if decide (h = ""%string) then None else bearer h.

Definition BearerTokenMiddleware (token : gostring) (r : request) : decision :=
  if is_health (hr_Path r) then Pass None else
  let authHeader := Get "Authorization" (hr_Header r) in
  if decide (authHeader = ""%string) then Answer 401 "Unauthorized: missing Authorization header" else
  match bearer authHeader with
  | None => Answer 401 "Unauthorized: invalid Authorization format"
  | Some t => if decide (t = token) then Pass None else Answer 401 "Unauthorized: invalid token"
  end.

Definition scope_of (t : NamespacedToken) : TokenScope := mkScope (nt_Role t) (nt_Namespaces t).
Definition matched_token (tokens : list NamespacedToken) (bearerToken : gostring) : option NamespacedToken :=
  snd <$> list_find (fun t => bearerToken = nt_Token t) tokens.

Definition MultiTenantRBACMiddleware (tokens : list NamespacedToken) (r : request) : decision :=
  let path := hr_Path r in
  if is_health path then Pass None
  else if isPublicAsset path then Pass None
  else match extractBearerToken r with
  | None => Answer 401 "Unauthorized: missing or malformed Authorization header"
  | Some bearerToken =>
      match matched_token tokens bearerToken with
      | None => Answer 401 "Unauthorized: invalid token"
      | Some matched =>
          let scope := scope_of matched in
          if negb (bool_decide (ts_Role scope = RoleAdmin)) && negb (isViewerAllowed (hr_Method r) path)
          then Answer 403 "Forbidden: viewer role does not permit this operation" else Pass (Some scope)
      end
  end.

Definition RBACMiddleware (viewerToken adminToken : gostring) (r : request) : decision :=
  let path := hr_Path r in
  if is_health path then Pass None
  else if isPublicAsset path then Pass None
  else match extractBearerToken r with
  | None => Answer 401 "Unauthorized: missing or malformed Authorization header"
  | Some token =>
      let role :=
        if negb (bool_decide (adminToken = ""%string)) && bool_decide (token = adminToken) then Some RoleAdmin
        else if negb (bool_decide (viewerToken = ""%string)) && bool_decide (token = viewerToken) then Some RoleViewer
        else None in
      match role with
      | None => Answer 401 "Unauthorized: invalid token"
      | Some role =>
          if decide (role = RoleAdmin) then Pass (Some (mkScope RoleAdmin []))
          else if negb (isViewerAllowed (hr_Method r) path) then Answer 403 "Forbidden: viewer role does not permit this operation"
          else Pass (Some (mkScope RoleViewer []))
      end
  end.
End auth.

(** ** CORS *)
Abbreviation headers := (list (gostring * gostring)).

(** The first entry of the allowlist that admits the origin. *)
Fixpoint allow_origin (origins : list gostring) (origin : gostring) : headers :=
  match origins with
  | [] => []
  | allowed :: origins =>
      if decide (allowed = "*"%string) then [("Access-Control-Allow-Origin", "*")]%string
      else if decide (allowed = origin) then [("Access-Control-Allow-Origin", origin); ("Vary", "Origin")]%string
      else allow_origin origins origin
  end.
Definition applyCORSHeaders (origins : list gostring) (r : request) : headers :=
  let origin := Get "Origin" (hr_Header r) in
  if decide (origin = ""%string) then [] else
  let h := allow_origin origins origin in
  if decide (Get "Access-Control-Allow-Origin" h = ""%string) then h
  else (h ++ [("Access-Control-Allow-Methods", "GET, HEAD, OPTIONS"); ("Access-Control-Allow-Headers", "Authorization, Content-Type")]%string)%list.

(** The headers set, and whether the request is answered here with 204. *)
Definition corsMiddleware (origins : list gostring) (r : request) : headers * bool :=
  if isViewerAllowed "GET" (hr_Path r)
  then (applyCORSHeaders origins r, bool_decide (hr_Method r = "OPTIONS"%string))
  else ([], false).

(** ** What the decisions mean *)

(** A path that no public table and no prefix of one covers. *)
Definition private_path (p : text) : bool :=
  forallb (fun q => negb (text_prefix q p) && negb (text_prefix p q)) (txt "/health" :: publicAssetPrefixes) &&
  forallb (fun q => negb (text_prefix p q)) publicAssetPaths.

Lemma text_prefix_spec p s : text_prefix p s = true <-> exists t, s = p ++ t.
Proof.
  revert s. induction p as [|c p IH]; intros s; cbn; [split; [by exists s|done]|]. destruct s as [|d s].
  { split; [done|]. by intros [t ?]. }
  rewrite andb_true_iff, bool_decide_eq_true, IH. split.
  - intros [-> [t ->]]. by exists t.
  - intros [t ?]. simplify_eq. split; [done|]. by exists t.
Qed.
Lemma text_prefix_false p s : text_prefix p s = false <-> forall t, s <> p ++ t.
Proof.
  rewrite <- not_true_iff_false, text_prefix_spec. split; [intros Hn t ->; apply Hn; by exists t|intros Hn [t ?]; by apply (Hn t)].
Qed.
(** Two prefixes of one text: one is a prefix of the other. *)
Lemma prefixes_compare (p q : text) s t : p ++ s = q ++ t -> text_prefix p q = true \/ text_prefix q p = true.
Proof.
  revert q. induction p as [|c p IH]; intros [|d q]; cbn; [auto..|]. intros [= -> He]. rewrite bool_decide_eq_true_2 by done.
  cbn. by apply IH.
Qed.

Lemma private_not_public p t : private_path p = true -> is_health (p ++ t) = false /\ isPublicAsset (p ++ t) = false.
Proof.
  unfold private_path. rewrite andb_true_iff, !forallb_forall. intros [Hpre Hex].
  assert (forall q, In q (txt "/health" :: publicAssetPrefixes) -> text_prefix q (p ++ t) = false) as Hq.
  { intros q Hin%Hpre. apply andb_true_iff in Hin as [H1 H2]. apply negb_true_iff in H1, H2. apply text_prefix_false. intros u He.
    apply prefixes_compare in He as [He|He]; congruence. }
  split; [apply Hq; by left|]. unfold isPublicAsset. apply orb_false_iff. split.
  - apply bool_decide_eq_false. intros Hin%list_elem_of_In%Hex%negb_true_iff. apply text_prefix_false with (t := t) in Hin. done.
  - apply not_true_iff_false. rewrite existsb_exists. intros (q & Hin & Ht). by rewrite Hq in Ht by (by right).
Qed.

(** The legacy tokens as a token list, as [NewServerWithMultiTenant] builds it. *)
Definition legacy_tokens (viewerToken adminToken : gostring) : list NamespacedToken :=
  (if decide (adminToken = ""%string) then [] else [mkToken adminToken RoleAdmin []]) ++
  (if decide (viewerToken = ""%string) then [] else [mkToken viewerToken RoleViewer []]).

Section decisions.
Context `{GoLib}.

(** The two-role middleware is the namespace-scoped one on the two tokens. *)
Lemma rbac_as_tokens viewerToken adminToken r :
  RBACMiddleware viewerToken adminToken r = MultiTenantRBACMiddleware (legacy_tokens viewerToken adminToken) r.
Proof.
  unfold RBACMiddleware, MultiTenantRBACMiddleware. destruct (is_health _); [done|]. destruct (isPublicAsset _); [done|].
  destruct (extractBearerToken r) as [tok|]; [|done]. unfold legacy_tokens, matched_token.
  destruct (decide (adminToken = ""%string)) as [->|Ha], (decide (viewerToken = ""%string)) as [->|Hv];
    rewrite ?bool_decide_eq_true_2 by done; rewrite ?(bool_decide_eq_false_2 (_ = ""%string)) by done;
    cbn [negb andb app list_find nt_Token]; repeat (case_decide || case_bool_decide); simplify_eq/=; try done.
Qed.

Lemma matched_token_elem tokens tok t : matched_token tokens tok = Some t -> t ∈ tokens /\ nt_Token t = tok.
Proof.
  unfold matched_token. rewrite fmap_Some. intros ([i t'] & Hf & ->). apply list_find_Some in Hf as (Hi & Ht & _).
  cbn in *. split; [by eapply list_elem_of_lookup_2|congruence].
Qed.

(** A request the token middleware lets through on a private path presents a
    configured token, its scope is the one of the first token with that text,
    and its role permits the request. *)
Record authorised (tokens : list NamespacedToken) (r : request) (scope : TokenScope) : Prop := {
  au_token : exists bearerToken t, extractBearerToken r = Some bearerToken /\ matched_token tokens bearerToken = Some t /\ scope = scope_of t;
  au_role : ts_Role scope = RoleAdmin \/ isViewerAllowed (hr_Method r) (hr_Path r) = true }.

Lemma multitenant_pass tokens r scope : MultiTenantRBACMiddleware tokens r = Pass scope ->
  (is_health (hr_Path r) || isPublicAsset (hr_Path r) = true /\ scope = None) \/
  exists sc, scope = Some sc /\ authorised tokens r sc.
Proof.
  unfold MultiTenantRBACMiddleware. destruct (is_health _); [intros; simplify_eq; by left|].
  destruct (isPublicAsset _); [intros; simplify_eq; by left|]. destruct (extractBearerToken r) as [tok|] eqn:Ht; [|done].
  destruct (matched_token tokens tok) as [t|] eqn:Hm; [|done]. case_bool_decide as Hr; cbn [negb andb].
  - intros; simplify_eq. right. eexists. split; [done|]. split; [by exists tok, t|by left].
  - destruct (isViewerAllowed _ _) eqn:Hv; cbn [negb]; [|done]. intros; simplify_eq. right. eexists. split; [done|]. split; [by exists tok, t|by right].
Qed.

Lemma viewer_reads method path : isViewerAllowed method path = true -> method = "GET"%string \/ method = "HEAD"%string.
Proof.
  unfold isViewerAllowed. destruct (decide (method = "GET"%string)) as [|Hg]; [auto|]. destruct (decide (method = "HEAD"%string)) as [|Hh]; [auto|].
  by rewrite !bool_decide_eq_false_2.
Qed.
End decisions.
