(* ===== verification/Cef.v ===== *)
(** * CEF and syslog lines

    Models the text formats of src/internal/exporter/api.go ([formatCEF],
    [escapeCEF], the REST export) and src/internal/exporter/syslog_cef.go (the
    syslog notifier: RFC 5424 and CEF lines, its connection state). The values
    in a line come from the monitored processes, so the theorems are about
    what a collector reads back: decoding a line gives the fields that were
    formatted, whatever bytes they hold, and no value can start a new line, a
    new header field or a new extension key.

    [time.Time.Format], [os.Hostname] and the network are parameters. *)
From Stdlib Require Import Ascii.
From stdpp Require Import pretty.
From S2P Require Import Prelude GoBytes GoText Types Fields HttpMux Incidents.

Definition LF : ascii := ascii_of_N 10.
Definition CR : ascii := ascii_of_N 13.
Definition backslash : ascii := "\"%char.
Definition pipe : ascii := "|"%char.
Definition equals : ascii := "="%char.
Definition space : ascii := " "%char.
Definition dquote : ascii := ascii_of_N 34.

(** [strings.ReplaceAll] of one byte *)
Definition ReplaceAll (s : text) (old : ascii) (new : text) : text :=
  concat (map (fun c => if decide (c = old) then new else [c]) s).

Definition escapeCEF (s : text) : text :=
  let s := ReplaceAll s backslash [backslash; backslash] in
  let s := ReplaceAll s pipe [backslash; pipe] in
  let s := ReplaceAll s equals [backslash; equals] in
  let s := ReplaceAll s LF [backslash; "n"%char] in
  ReplaceAll s CR [backslash; "r"%char].

Definition escapeCEFHeader (s : text) : text :=
  let s := ReplaceAll s backslash [backslash; backslash] in
  let s := ReplaceAll s pipe [backslash; pipe] in
  let s := ReplaceAll s LF [backslash; "n"%char] in
  ReplaceAll s CR [backslash; "r"%char].

Definition escapeCEFValue (s : text) : text :=
  let s := ReplaceAll s backslash [backslash; backslash] in
  let s := ReplaceAll s equals [backslash; equals] in
  let s := ReplaceAll s LF [backslash; "n"%char] in
  ReplaceAll s CR [backslash; "r"%char].

(** ** The REST export *)

(** [strconv.FormatInt(z, 10)] *)
Definition FormatInt (z : Z) : text := txt (pretty z).

Definition pair (key : gostring) (value : text) : text := txt key ++ equals :: value.

Definition cef_extensions (a : Alert) : list text :=
  [ pair "rt" (FormatInt (UnixMilli (al_Timestamp a)));
    pair "deviceProcessName" (escapeCEF (txt (al_Comm a)));
    pair "dpid" (FormatInt (al_PID a));
    pair "cs1" (escapeCEF (txt (al_RuleID a)));
    txt "cs1Label=rule_id" ] ++
  (if decide (en_PodName (al_Enrichment a) = ""%string) then []
   else [pair "dhost" (escapeCEF (txt (en_PodName (al_Enrichment a))))]) ++
  (if decide (en_Namespace (al_Enrichment a) = ""%string) then []
   else [pair "cs2" (escapeCEF (txt (en_Namespace (al_Enrichment a)))); txt "cs2Label=namespace"]) ++
  (if decide (al_TraceID a = ""%string) then []
   else [pair "cs3" (escapeCEF (txt (al_TraceID a))); txt "cs3Label=trace_id"]).

Definition formatCEF (a : Alert) : text :=
  let cefSeverity :=
    if decide (al_Severity a = SeverityCritical) then txt "10"
    else if decide (al_Severity a = SeverityWarning) then txt "4" else txt "5" in
  txt "CEF:0|ebpf-guard|ebpf-guard|1.0|" ++ escapeCEF (txt (al_RuleID a)) ++ [pipe] ++
  escapeCEF (txt (al_Message a)) ++ [pipe] ++ cefSeverity ++ [pipe] ++ join_with [space] (cef_extensions a).

(** The body of the export: one line per alert. *)
Definition export_lines (alerts : list Alert) : text := concat (map (fun a => formatCEF a ++ [LF]) alerts).

(** ** Runes *)

(** A loop over the runes of a string that writes [f r bytes] for each, where
    [bytes] encode the rune (U+FFFD for an invalid byte). *)
Fixpoint rune_loop (f : Z -> list byte -> list byte) (fuel : nat) (l : list byte) : list byte :=
  match fuel, l with
  | S fuel, _ :: _ =>
      let '(r, n) := DecodeRune l in
      f r (if (r =? RuneError) && (Nat.eqb n 1) then [Byte.xef; Byte.xbf; Byte.xbd] else take n l) ++
      rune_loop f fuel (drop n l)
  | _, _ => []
  end.
Definition map_runes (f : Z -> list byte -> list byte) (s : gostring) : gostring :=
  bytes_string (rune_loop f (String.length s) (string_bytes s)).

(** Control characters become blanks. *)
Definition sanitizeLogField : gostring -> gostring :=
  map_runes (fun r bytes => if (r <? 0x20) || (r =? 0x7f) then [Byte.x20] else bytes).

(** RFC 5424 param values *)
Definition escapeSD : gostring -> gostring :=
  map_runes (fun r bytes =>
    if (r =? 92) || (r =? 34) || (r =? 93) then Byte.x5c :: bytes
    else if r =? 10 then [Byte.x5c; Byte.x6e]
    else if r =? 13 then [Byte.x5c; Byte.x72]
    else if r <? 0x20 then [] else bytes).

(** ** The syslog notifier *)
Record SyslogCEFConfig := mkSyslogConfig {
  sc_Enabled : bool; sc_Network : gostring; sc_Address : gostring; sc_Format : gostring; sc_AppName : gostring;
  sc_Facility : Z; sc_MinSeverity : gostring; sc_Timeout : Z }.

(** [conn] is the open connection and what has been written to it. *)
Record SyslogCEFNotifier := mkSyslog {
  sn_config : SyslogCEFConfig; sn_minSeverity : Severity; sn_appName : gostring; sn_useCEF : bool; sn_network : gostring;
  sn_tls : bool; sn_conn : option (list text); sn_sent : Z; sn_errors : Z; sn_closed : bool }.

Section syslog.
Context `{GoLib} (FormatStamp FormatRFC3339Nano : Z -> text) (hostname : gostring).

Definition NewSyslogCEFNotifier (cfg : SyslogCEFConfig) : SyslogCEFNotifier :=
  if negb (sc_Enabled cfg) || bool_decide (sc_Address cfg = ""%string)
  then mkSyslog cfg "" "" false "" false None 0 0 false else
  let minSev := if decide (sc_MinSeverity cfg = "critical"%string) then SeverityCritical else SeverityWarning in
  let cfg := mkSyslogConfig (sc_Enabled cfg) (sc_Network cfg) (sc_Address cfg) (sc_Format cfg)
    (if decide (sc_AppName cfg = ""%string) then "ebpf-guard"%string else sc_AppName cfg)
    (if sc_Facility cfg =? 0 then 1 else sc_Facility cfg) (sc_MinSeverity cfg)
    (if sc_Timeout cfg =? 0 then 5 * Second else sc_Timeout cfg) in
  let net := ToLower (sc_Network cfg) in
  mkSyslog cfg minSev (sc_AppName cfg) (bool_decide (ToLower (sc_Format cfg) = "cef"%string))
    (if decide (net = "udp"%string) then "udp"%string else "tcp"%string)
    (bool_decide (net = "tcp+tls"%string) || bool_decide (net = "tls"%string)) None 0 0 false.

Definition syslog_Enabled (n : SyslogCEFNotifier) : bool :=
  sc_Enabled (sn_config n) && negb (bool_decide (sc_Address (sn_config n) = ""%string)).

Definition syslogMeetsSeverity (n : SyslogCEFNotifier) (a : Alert) : bool :=
  if decide (sn_minSeverity n = SeverityCritical) then bool_decide (al_Severity a = SeverityCritical) else true.

Definition syslogSeverity (s : Severity) : Z := if decide (s = SeverityCritical) then 2 else 4.
Definition cefSeverity (s : Severity) : Z := if decide (s = SeverityCritical) then 10 else 4.

Definition quoted (key : gostring) (value : gostring) : text :=
  txt (" " +:+ key +:+ "=")%string ++ dquote :: txt value ++ [dquote].

Definition or_dash (s : gostring) : gostring := if decide (s = ""%string) then "-"%string else s.

Definition structured_data (a : Alert) : text :=
  txt "[ebpf-guard@50000" ++
  quoted "rule" (escapeSD (al_RuleID a)) ++ quoted "severity" (escapeSD (al_Severity a)) ++
  quoted "pid" (pretty (al_PID a)) ++ quoted "comm" (escapeSD (sanitizeLogField (al_Comm a))) ++
  quoted "pod" (escapeSD (or_dash (en_PodName (al_Enrichment a)))) ++
  quoted "namespace" (escapeSD (or_dash (en_Namespace (al_Enrichment a)))) ++
  quoted "fingerprint" (escapeSD (al_Fingerprint a)) ++ txt "]".

Definition formatRFC5424 (n : SyslogCEFNotifier) (a : Alert) : text :=
  let pri := sc_Facility (sn_config n) * 8 + syslogSeverity (al_Severity a) in
  txt "<" ++ FormatInt pri ++ txt ">1 " ++ FormatRFC3339Nano (al_Timestamp a) ++ [space] ++ txt (or_dash hostname) ++ [space] ++
  txt (sn_appName n) ++ txt " - - " ++ structured_data a ++ [space] ++ txt (sanitizeLogField (al_Message a)).

Definition syslog_extension (a : Alert) : text :=
  txt "rt=" ++ FormatStamp (al_Timestamp a) ++
  txt " suser=" ++ escapeCEFValue (txt (sanitizeLogField (al_Comm a))) ++
  txt " spid=" ++ FormatInt (al_PID a) ++
  txt " cs1Label=rule_id cs1=" ++ escapeCEFValue (txt (al_RuleID a)) ++
  (if decide (en_PodName (al_Enrichment a) = ""%string) then []
   else txt " cs2Label=pod cs2=" ++ escapeCEFValue (txt (en_PodName (al_Enrichment a))) ++
        txt " cs3Label=namespace cs3=" ++ escapeCEFValue (txt (en_Namespace (al_Enrichment a)))) ++
  (if decide (al_TraceID a = ""%string) then []
   else txt " cs4Label=trace_id cs4=" ++ escapeCEFValue (txt (al_TraceID a))) ++
  (if decide (al_Fingerprint a = ""%string) then []
   else txt " cs5Label=fingerprint cs5=" ++ escapeCEFValue (txt (al_Fingerprint a))) ++
  txt " msg=" ++ escapeCEFValue (txt (sanitizeLogField (al_Message a))).

Definition syslog_formatCEF (a : Alert) : text :=
  let ruleName := sanitizeLogField (al_RuleName a) in
  let name := if decide (ruleName = ""%string) then al_RuleID a else ruleName in
  txt "CEF:0|ebpf-guard|ebpf-guard|1.0|" ++ escapeCEFHeader (txt (al_RuleID a)) ++ [pipe] ++
  escapeCEFHeader (txt name) ++ [pipe] ++ FormatInt (cefSeverity (al_Severity a)) ++ [pipe] ++ syslog_extension a.

(** What the network does during a call: whether dialling and writing
    succeed. *)
Variant send_error := DialFailed | WriteFailed.

Definition with_conn (conn : option (list text)) (sent errors : Z) (n : SyslogCEFNotifier) : SyslogCEFNotifier :=
  mkSyslog (sn_config n) (sn_minSeverity n) (sn_appName n) (sn_useCEF n) (sn_network n) (sn_tls n) conn sent errors (sn_closed n).

Definition writeLine (dial_ok write_ok : bool) (msg : text) (n : SyslogCEFNotifier) : SyslogCEFNotifier * option send_error :=
  match (match sn_conn n with Some c => Some c | None => if dial_ok then Some [] else None end) with
  | None => (with_conn None (sn_sent n) (sn_errors n + 1) n, Some DialFailed)
  | Some c =>
      if write_ok then (with_conn (Some (c ++ [msg])) (sn_sent n + 1) (sn_errors n) n, None)
      else (with_conn None (sn_sent n) (sn_errors n + 1) n, Some WriteFailed)
  end.

Definition syslog_Send (dial_ok write_ok : bool) (a : Alert) (n : SyslogCEFNotifier) : SyslogCEFNotifier * option send_error :=
  if sn_closed n then (n, None)
  else if negb (syslogMeetsSeverity n a) then (n, None)
  else writeLine dial_ok write_ok (if sn_useCEF n then syslog_formatCEF a else formatRFC5424 n a) n.

(** Closing keeps the connection value; later sends return at once. *)
Definition syslog_Close (n : SyslogCEFNotifier) : SyslogCEFNotifier :=
  mkSyslog (sn_config n) (sn_minSeverity n) (sn_appName n) (sn_useCEF n) (sn_network n) (sn_tls n) (sn_conn n)
    (sn_sent n) (sn_errors n) true.
End syslog.

(** ** Escaping, character by character *)

(** The escapes put a backslash before the characters of [sp]. *)
Definition escape_char (sp : list ascii) (c : ascii) : text :=
  if decide (c = LF) then [backslash; "n"%char] else if decide (c = CR) then [backslash; "r"%char]
  else if decide (c ∈ sp) then [backslash; c] else [c].
Definition escape (sp : list ascii) (s : text) : text := concat (map (escape_char sp) s).

Lemma ReplaceAll_concat (f : ascii -> text) s old new :
  ReplaceAll (concat (map f s)) old new = concat (map (fun c => ReplaceAll (f c) old new) s).
Proof.
  unfold ReplaceAll. induction s as [|c s IH]; [done|]. cbn. by rewrite map_app, concat_app, IH.
Qed.
Lemma concat_map_ext (f g : ascii -> text) s : (forall c, f c = g c) -> concat (map f s) = concat (map g s).
Proof. intros Hfg. f_equal. by apply map_ext. Qed.

Lemma escapeCEF_chars s : escapeCEF s = escape [backslash; pipe; equals] s.
Proof.
  unfold escapeCEF. unfold ReplaceAll at 5. rewrite !ReplaceAll_concat. apply concat_map_ext. intros [[] [] [] [] [] [] [] []]; by vm_compute.
Qed.
Lemma escapeCEFHeader_chars s : escapeCEFHeader s = escape [backslash; pipe] s.
Proof.
  unfold escapeCEFHeader. unfold ReplaceAll at 4. rewrite !ReplaceAll_concat. apply concat_map_ext. intros [[] [] [] [] [] [] [] []]; by vm_compute.
Qed.
Lemma escapeCEFValue_chars s : escapeCEFValue s = escape [backslash; equals] s.
Proof.
  unfold escapeCEFValue. unfold ReplaceAll at 4. rewrite !ReplaceAll_concat. apply concat_map_ext. intros [[] [] [] [] [] [] [] []]; by vm_compute.
Qed.

(** ** A reader of CEF lines *)

(** The character an escape stands for *)
Definition escaped_char (c : ascii) : option ascii :=
  if decide (c = "n"%char) then Some LF else if decide (c = "r"%char) then Some CR
  else if decide (c ∈ [backslash; pipe; equals]) then Some c else None.
Fixpoint decode_value (s : text) : option text :=
  match s with
  | [] => Some []
  | c :: s =>
      if decide (c = backslash) then
        match s with d :: s => x ← escaped_char d; cons x <$> decode_value s | [] => None end
      else cons c <$> decode_value s
  end.

(** At most [n] cuts at a separator that no backslash precedes. *)
Fixpoint cut (n : nat) (sep : ascii) (cur s : text) : list text :=
  match n, s with
  | S n', c :: s' =>
      if decide (c = backslash) then
        match s' with d :: s'' => cut n sep (cur ++ [c; d]) s'' | [] => [cur ++ s] end
      else if decide (c = sep) then cur :: cut n' sep [] s' else cut n sep (cur ++ [c]) s'
  | _, _ => [cur ++ s]
  end.

(** A value and the key after it, parted by the last blank. *)
Definition last_word (s : text) : option (text * text) :=
  i ← text_last_index space s; Some (take i s, drop (S i) s).

Fixpoint read_pairs (key : text) (parts : list text) : option (list (text * text)) :=
  match parts with
  | [] => None
  | [v] => x ← decode_value v; Some [(key, x)]
  | p :: parts =>
      '(v, k) ← last_word p; x ← decode_value v; rest ← read_pairs k parts; Some ((key, x) :: rest)
  end.
Definition read_extension (s : text) : option (list (text * text)) :=
  match cut (length s) equals [] s with k :: parts => read_pairs k parts | [] => None end.

Definition read_cef (line : text) : option (list text * list (text * text)) :=
  match cut 7 pipe [] line with
  | [a; b; c; d; e; f; g; ext] => h ← mapM decode_value [a; b; c; d; e; f; g]; x ← read_extension ext; Some (h, x)
  | _ => None
  end.

(** ** Reading what was escaped *)
Lemma decode_escape sp s : backslash ∈ sp -> sp ⊆ [backslash; pipe; equals] -> decode_value (escape sp s) = Some s.
Proof.
  intros Hb Hsp. induction s as [|c s IH]; [done|]. unfold escape. cbn [map concat]. fold (escape sp s).
  unfold escape_char. case_decide as Hl; [subst; cbn; by rewrite IH|]. case_decide as Hc; [subst; cbn; by rewrite IH|].
  case_decide as Hin.
  - cbn [app decode_value]. rewrite decide_True by done. apply Hsp in Hin. rewrite IH.
    assert (escaped_char c = Some c) as ->; [|done].
    rewrite !elem_of_cons, elem_of_nil in Hin. by destruct Hin as [->|[->|[->|[]]]].
  - cbn [app decode_value]. rewrite decide_False by (intros ->; done). by rewrite IH.
Qed.

Lemma cut_0 sep cur s : cut 0 sep cur s = [cur ++ s].
Proof. by destruct s. Qed.

(** Separators inside an escaped value are passed over. *)
Lemma cut_escape n sep sp cur s rest : backslash ∈ sp -> sep ∈ sp ->
  cut (S n) sep cur (escape sp s ++ rest) = cut (S n) sep (cur ++ escape sp s) rest.
Proof.
  intros Hb Hs. revert cur. induction s as [|c s IH]; intros cur; [by rewrite app_nil_r|].
  unfold escape. cbn [map concat]. fold (escape sp s). rewrite <- app_assoc.
  unfold escape_char. case_decide; [cbn -[cut]; cbn [cut]; rewrite decide_True by done; rewrite IH; by rewrite <- app_assoc|].
  case_decide; [cbn -[cut]; cbn [cut]; rewrite decide_True by done; rewrite IH; by rewrite <- app_assoc|].
  case_decide as Hin.
  - cbn [app]. cbn [cut]. rewrite decide_True by done. rewrite IH. by rewrite <- app_assoc.
  - cbn [app]. cbn [cut]. rewrite decide_False by (intros ->; done). rewrite decide_False by (intros ->; done).
    rewrite IH. by rewrite <- app_assoc.
Qed.

(** A text that needs no escape. *)
Definition plain (sp : list ascii) (s : text) : Prop := Forall (fun c => c ∉ LF :: CR :: sp) s.
#[export] Instance plain_dec sp s : Decision (plain sp s).
Proof. unfold plain. apply _. Defined.

Lemma escape_plain sp s : plain sp s -> escape sp s = s.
Proof.
  unfold plain. induction 1 as [|c s Hc _ IH]; [done|]. unfold escape. cbn [map concat]. fold (escape sp s). rewrite IH.
  unfold escape_char. by rewrite !decide_False by set_solver.
Qed.
Lemma decode_plain s : plain [backslash] s -> decode_value s = Some s.
Proof. intros Hs. rewrite <- (escape_plain _ _ Hs) at 1. apply decode_escape; set_solver. Qed.

(** No line break in a line. *)
Definition one_line (s : text) : Prop := LF ∉ s /\ CR ∉ s.
#[export] Instance one_line_dec s : Decision (one_line s).
Proof. unfold one_line. apply _. Defined.

Lemma one_line_app s t : one_line (s ++ t) <-> one_line s /\ one_line t.
Proof. unfold one_line. rewrite !elem_of_app. tauto. Qed.
Lemma one_line_cons c s : one_line (c :: s) <-> c <> LF /\ c <> CR /\ one_line s.
Proof. unfold one_line. rewrite !elem_of_cons. intuition. Qed.
Lemma one_line_plain sp s : plain sp s -> one_line s.
Proof. unfold plain, one_line. rewrite Forall_forall. intros Hs. split; intros Hin; apply (Hs _ Hin); set_solver. Qed.

(** ** Extensions *)
Definition pairs_text (sp : list ascii) (kvs : list (text * text)) : text :=
  concat (map (fun kv => space :: kv.1 ++ equals :: escape sp kv.2) kvs).
Definition extension_text (sp : list ascii) (k v : text) (kvs : list (text * text)) : text :=
  k ++ equals :: escape sp v ++ pairs_text sp kvs.

(** The parts between unescaped equals signs. *)
Fixpoint parts_of (sp : list ascii) (v : text) (kvs : list (text * text)) : list text :=
  match kvs with [] => [escape sp v] | (k, w) :: kvs => (escape sp v ++ space :: k) :: parts_of sp w kvs end.

Definition key_ok (k : text) : Prop := plain [backslash; equals; space] k.
#[export] Instance key_ok_dec k : Decision (key_ok k).
Proof. unfold key_ok. apply _. Defined.

Section extension.
Context (sp : list ascii) (Hb : backslash ∈ sp) (He : equals ∈ sp) (Hsp : sp ⊆ [backslash; pipe; equals]).

Lemma cut_key n cur k rest : Forall (fun c => c ∉ [backslash; equals]) k ->
  cut (S n) equals cur (k ++ rest) = cut (S n) equals (cur ++ k) rest.
Proof.
  intros Hk. revert cur. induction Hk as [|c k Hc _ IH]; intros cur; [by rewrite app_nil_r|]. cbn [app]. cbn [cut].
  rewrite !decide_False by set_solver. rewrite IH. by rewrite <- app_assoc.
Qed.

Lemma key_chars k : key_ok k -> Forall (fun c => c ∉ [backslash; equals]) k.
Proof. intros Hk. eapply Forall_impl; [exact Hk|]. cbn. intros c Hc. set_solver. Qed.

Lemma cut_pairs n v kvs : (length kvs <= n)%nat -> Forall (fun kv => key_ok kv.1) kvs ->
  cut n equals [] (escape sp v ++ pairs_text sp kvs) = parts_of sp v kvs.
Proof.
  revert n v. induction kvs as [|[k w] kvs IH]; intros [|n] v Hn Hk; [|simpl in Hn|simpl in Hn; lia|].
  - unfold pairs_text. cbn [map concat parts_of]. by rewrite cut_0, app_nil_r.
  - unfold pairs_text. cbn [map concat]. rewrite cut_escape by done. cbn [app cut]. by rewrite app_nil_r.
  - apply Forall_cons in Hk as [Hk Hks]. cbn [length fst] in *. unfold pairs_text. cbn [map concat fst snd parts_of].
    fold (pairs_text sp kvs). rewrite cut_escape by done. rewrite <- app_comm_cons, <- app_assoc.
    change (space :: k ++ ?r) with ((space :: k) ++ r). rewrite cut_key by (constructor; [set_solver|by apply key_chars]).
    cbn [app]. cbn [cut]. rewrite decide_False by done. rewrite decide_True by done. f_equal. apply IH; [lia|done].
Qed.

Lemma read_parts key v kvs : Forall (fun kv => key_ok kv.1) kvs -> read_pairs key (parts_of sp v kvs) = Some ((key, v) :: kvs).
Proof.
  revert key v. induction kvs as [|[k w] kvs IH]; intros key v Hk; cbn [parts_of].
  - cbn. by rewrite decode_escape.
  - apply Forall_cons in Hk as [Hk Hks]. cbn [fst] in Hk.
    assert (forall p ps, ps <> [] -> read_pairs key (p :: ps) =
      '(v, k) ← last_word p; x ← decode_value v; rest ← read_pairs k ps; Some ((key, x) :: rest)) as Hstep by (by intros p [|]).
    rewrite Hstep by (by destruct kvs as [|[]]). unfold last_word.
    rewrite text_last_index_app by (intros Hin; unfold key_ok, plain in Hk; rewrite Forall_forall in Hk; apply (Hk _ Hin); set_solver).
    cbn [mbind option_bind]. rewrite take_app_length.
    replace (drop (S (length (escape sp v))) (escape sp v ++ space :: k)) with k
      by (by rewrite drop_app_ge, Nat.sub_succ_l, Nat.sub_diag by lia).
    rewrite decode_escape by done. cbn [mbind option_bind]. by rewrite IH.
Qed.

Lemma length_pairs kvs : (length kvs <= length (pairs_text sp kvs))%nat.
Proof. unfold pairs_text. induction kvs as [|kv kvs IH]; [done|]. cbn. rewrite !length_app. lia. Qed.

(** Reading an extension gives back its keys and values. *)
Lemma read_extension_text k v kvs : key_ok k -> Forall (fun kv => key_ok kv.1) kvs ->
  read_extension (extension_text sp k v kvs) = Some ((k, v) :: kvs).
Proof.
  intros Hk Hks. unfold read_extension, extension_text. pose proof (length_pairs kvs) as Hl.
  destruct (length (k ++ _)) as [|n] eqn:Hn; rewrite length_app in Hn; cbn [length] in Hn; rewrite length_app in Hn; [lia|].
  rewrite cut_key by by apply key_chars. cbn [app]. cbn [cut]. rewrite decide_False by done. rewrite decide_True by done.
  rewrite cut_pairs; [by apply read_parts|lia|done].
Qed.

Lemma escape_lines s : one_line (escape sp s).
Proof.
  assert (LF ∉ sp /\ CR ∉ sp) as [? ?] by (split; intros Hin%Hsp; rewrite !elem_of_cons, elem_of_nil in Hin; by destruct Hin as [|[|[|]]]).
  induction s as [|c s IH]; [split; by intros ?%elem_of_nil|]. unfold escape. cbn [map concat]. fold (escape sp s).
  unfold one_line in *. unfold escape_char. repeat case_decide; split; rewrite elem_of_app, !elem_of_cons, ?elem_of_nil; intuition (subst; done).
Qed.
End extension.

(** ** Whole lines *)
Definition header_text (sp : list ascii) (fields : list text) (ext : text) : text :=
  concat (map (fun f => escape sp f ++ [pipe]) fields) ++ ext.

Lemma cut_header sp fields ext : backslash ∈ sp -> pipe ∈ sp ->
  cut (length fields) pipe [] (header_text sp fields ext) = map (escape sp) fields ++ [ext].
Proof.
  intros Hb Hp. unfold header_text. induction fields as [|f fields IH]; cbn [length map concat app]; [by rewrite cut_0|].
  rewrite <- !app_assoc. rewrite cut_escape by done. cbn [app]. cbn [cut]. rewrite decide_False by done.
  rewrite decide_True by done. by rewrite IH.
Qed.

Lemma mapM_decode sp fields : backslash ∈ sp -> sp ⊆ [backslash; pipe; equals] -> mapM decode_value (map (escape sp) fields) = Some fields.
Proof. intros Hb Hs. induction fields as [|f fields IH]; [done|]. cbn. rewrite decode_escape by done. cbn. by rewrite IH. Qed.

(** A line of seven escaped header fields and an extension reads back. *)
Lemma read_line sp sp' a b c d e f g k v kvs :
  backslash ∈ sp -> pipe ∈ sp -> sp ⊆ [backslash; pipe; equals] ->
  backslash ∈ sp' -> equals ∈ sp' -> sp' ⊆ [backslash; pipe; equals] -> key_ok k -> Forall (fun kv => key_ok kv.1) kvs ->
  read_cef (header_text sp [a; b; c; d; e; f; g] (extension_text sp' k v kvs)) = Some ([a; b; c; d; e; f; g], (k, v) :: kvs).
Proof.
  intros. unfold read_cef. change 7%nat with (length [a; b; c; d; e; f; g]). rewrite cut_header by done.
  cbn [map app]. change [escape sp a; escape sp b; escape sp c; escape sp d; escape sp e; escape sp f; escape sp g]
    with (map (escape sp) [a; b; c; d; e; f; g]). rewrite mapM_decode by done. cbn [mbind option_bind].
  by rewrite read_extension_text.
Qed.

Lemma line_header sp fields ext : sp ⊆ [backslash; pipe; equals] -> one_line ext -> one_line (header_text sp fields ext).
Proof.
  intros Hs He. unfold header_text. induction fields as [|f fields IH]; cbn [map concat]; [done|].
  rewrite <- !app_assoc. apply one_line_app. split; [by apply escape_lines|]. by apply one_line_cons.
Qed.
Lemma line_extension sp k v kvs : sp ⊆ [backslash; pipe; equals] -> key_ok k -> Forall (fun kv => key_ok kv.1) kvs ->
  one_line (extension_text sp k v kvs).
Proof.
  intros Hs Hk Hks. unfold extension_text. apply one_line_app. split; [by eapply one_line_plain|]. apply one_line_cons.
  split_and!; [done..|]. apply one_line_app. split; [by apply escape_lines|]. unfold pairs_text.
  induction Hks as [|kv kvs Hkv _ IH]; [split; by intros ?%elem_of_nil|]. cbn [map concat]. rewrite one_line_app, one_line_cons, one_line_app, one_line_cons.
  split_and!; try done; [by eapply one_line_plain|by apply escape_lines..].
Qed.

(** Decimal numbers need no escape. *)
Lemma FormatInt_plain z : plain [backslash; pipe; equals] (FormatInt z).
Proof.
  assert (forall s, all_digits s -> plain [backslash; pipe; equals] (txt s)) as Hd.
  { induction s as [|c s IH]; [constructor|]. intros [Hc Hs]. constructor; [|by apply IH].
    unfold digit in Hc. intros Hin. rewrite !elem_of_cons, elem_of_nil in Hin.
    destruct Hin as [->|[->|[->|[->|[->|[]]]]]]; apply (bool_decide_eq_true_2 (_ /\ _)) in Hc; by vm_compute in Hc. }
  unfold FormatInt. destruct z as [|p|p]; [by apply Hd, pretty_digits|by apply Hd, pretty_digits|].
  change (pretty (Z.neg p)) with ("-" +:+ pretty (Z.pos p))%string. constructor; [by apply (bool_decide_unpack _)|]. by apply Hd, pretty_digits.
Qed.

Lemma join_first sep (s : text) l : join_with sep (s :: l) = s ++ concat (map (app sep) l).
Proof.
  revert s. induction l as [|t l IH]; intros s; [cbn; by rewrite app_nil_r|].
  change (join_with sep (s :: t :: l)) with (s ++ sep ++ join_with sep (t :: l)). rewrite IH. cbn [map concat]. by rewrite <- app_assoc.
Qed.

(** ** The REST export *)
Definition cef_specials : list ascii := [backslash; pipe; equals].
Definition opt_pairs (s label : gostring) (key : gostring) : list (text * text) :=
  if decide (s = ""%string) then [] else [(txt key, txt s); (txt (key +:+ "Label"), txt label)].

(** What a line says about an alert: its header and its key-value pairs. *)
Definition cef_severity_text (a : Alert) : text :=
  if decide (al_Severity a = SeverityCritical) then txt "10" else if decide (al_Severity a = SeverityWarning) then txt "4" else txt "5".
Definition cef_pairs (a : Alert) : list (text * text) :=
  [ (txt "deviceProcessName", txt (al_Comm a)); (txt "dpid", FormatInt (al_PID a)); (txt "cs1", txt (al_RuleID a));
    (txt "cs1Label", txt "rule_id") ] ++
  (if decide (en_PodName (al_Enrichment a) = ""%string) then [] else [(txt "dhost", txt (en_PodName (al_Enrichment a)))]) ++
  opt_pairs (en_Namespace (al_Enrichment a)) "namespace" "cs2" ++ opt_pairs (al_TraceID a) "trace_id" "cs3".
Definition cef_view (a : Alert) : list text * list (text * text) :=
  ([txt "CEF:0"; txt "ebpf-guard"; txt "ebpf-guard"; txt "1.0"; txt (al_RuleID a); txt (al_Message a); cef_severity_text a],
   (txt "rt", FormatInt (UnixMilli (al_Timestamp a))) :: cef_pairs a).

Lemma pair_text key v : space :: pair key (escapeCEF v) = pairs_text cef_specials [(txt key, v)].
Proof. unfold pairs_text, pair. cbn [map concat fst snd]. by rewrite app_nil_r, escapeCEF_chars. Qed.
Lemma pairs_app sp l l' : pairs_text sp (l ++ l') = pairs_text sp l ++ pairs_text sp l'.
Proof. unfold pairs_text. by rewrite map_app, concat_app. Qed.
Lemma escape_int z : escape cef_specials (FormatInt z) = FormatInt z.
Proof. apply escape_plain, FormatInt_plain. Qed.

(** The product fields every line starts with. *)
Definition product_fields : list text := [txt "CEF:0"; txt "ebpf-guard"; txt "ebpf-guard"; txt "1.0"].
Lemma header_line sp e f g ext : sp ∈ [cef_specials; [backslash; pipe]] ->
  header_text sp (product_fields ++ [e; f; g]) ext =
  txt "CEF:0|ebpf-guard|ebpf-guard|1.0|" ++ escape sp e ++ [pipe] ++ escape sp f ++ [pipe] ++ escape sp g ++ [pipe] ++ ext.
Proof.
  intros Hsp. unfold header_text. rewrite map_app, concat_app.
  assert (concat (map (fun f => escape sp f ++ [pipe]) product_fields) = txt "CEF:0|ebpf-guard|ebpf-guard|1.0|") as ->.
  { rewrite !elem_of_cons, elem_of_nil in Hsp. destruct Hsp as [->|[->|[]]]; by vm_compute. }
  cbn [map concat]. by rewrite <- !app_assoc.
Qed.

Lemma cef_extension_text a :
  join_with [space] (cef_extensions a) =
  extension_text cef_specials (txt "rt") (FormatInt (UnixMilli (al_Timestamp a))) (cef_pairs a).
Proof.
  unfold cef_extensions, extension_text, cef_pairs. rewrite <- app_comm_cons, join_first. unfold pair at 1.
  rewrite escape_int, <- app_assoc. f_equal. rewrite <- app_comm_cons. do 2 f_equal.
  rewrite !map_app, !concat_app, !pairs_app. f_equal; [|f_equal; [|f_equal]].
  - unfold pairs_text. cbn [map concat fst snd]. rewrite escape_int, !escapeCEF_chars. by rewrite !app_nil_r.
  - case_decide; [done|]. unfold pairs_text. cbn [map concat fst snd]. by rewrite escapeCEF_chars.
  - unfold opt_pairs. case_decide; [done|]. unfold pairs_text. cbn [map concat fst snd]. by rewrite escapeCEF_chars.
  - unfold opt_pairs. case_decide; [done|]. unfold pairs_text. cbn [map concat fst snd]. by rewrite escapeCEF_chars.
Qed.

Lemma formatCEF_text a :
  formatCEF a = header_text cef_specials (cef_view a).1
    (extension_text cef_specials (txt "rt") (FormatInt (UnixMilli (al_Timestamp a))) (cef_pairs a)).
Proof.
  change (cef_view a).1 with (product_fields ++ [txt (al_RuleID a); txt (al_Message a); cef_severity_text a]).
  rewrite header_line by set_solver. unfold formatCEF. rewrite !escapeCEF_chars, cef_extension_text. fold (cef_severity_text a).
  assert (escape cef_specials (cef_severity_text a) = cef_severity_text a) as ->; [|done].
  unfold cef_severity_text. repeat case_decide; by vm_compute.
Qed.

(** The keys of a list of pairs, one by one. *)
Ltac each_key :=
  repeat match goal with
    | |- Forall _ (_ ++ _) => apply Forall_app_2
    | |- Forall _ (_ :: _) => apply Forall_cons; split
    | |- Forall _ [] => by apply Forall_nil
    | |- Forall _ (if ?d then _ else _) => destruct d
    end; cbn [fst]; by apply (bool_decide_unpack (key_ok _)).

Lemma cef_keys a : Forall (fun kv => key_ok kv.1) (cef_pairs a).
Proof.
  unfold cef_pairs, opt_pairs. each_key.
Qed.

Lemma text_split_line c cur s t : c ∉ s -> text_split c cur (s ++ c :: t) = (cur ++ s) :: text_split c [] t.
Proof.
  revert cur. induction s as [|d s IH]; intros cur Hs; cbn; [by rewrite decide_True, app_nil_r by done|].
  rewrite decide_False by set_solver. rewrite IH by set_solver. by rewrite <- app_assoc.
Qed.

(** Claim C29. The CEF export reads back. Cutting the exported text at line
    breaks gives one line per alert, and reading each line as CEF (cutting the
    header at pipes and the extension at equals signs that no backslash
    precedes, then undoing the escapes) gives the seven header fields and the
    key-value pairs of that alert, whatever bytes its rule, message, process,
    pod, namespace and trace identifiers hold: nothing a monitored process
    controls can add a line, a header field or a key. *)
Theorem cef_export_roundtrip (alerts : list Alert) :
  exists lines, text_split LF [] (export_lines alerts) = lines ++ [[]] /\
    mapM read_cef lines = Some (map cef_view alerts).
Proof.
  exists (map formatCEF alerts). split.
  - unfold export_lines. induction alerts as [|a l IH]; [done|]. cbn [map concat]. rewrite <- app_assoc. cbn [app].
    rewrite text_split_line; [by rewrite IH|]. rewrite formatCEF_text.
    apply line_header; [set_solver|]. apply line_extension; [set_solver| |apply cef_keys]. by apply (bool_decide_unpack (key_ok _)).
  - induction alerts as [|a l IH]; [done|]. cbn [map mapM]. rewrite formatCEF_text. unfold cef_view at 1. cbn [fst].
    rewrite read_line; [cbn [mbind option_bind]; by rewrite IH|try set_solver..|apply cef_keys].
    by apply (bool_decide_unpack (key_ok _)).
Qed.

(** ** The syslog line in CEF *)
Section syslog_view.
Context (FormatStamp : Z -> text).
Definition value_specials : list ascii := [backslash; equals].

Definition syslog_pairs (a : Alert) : list (text * text) :=
  [ (txt "suser", txt (sanitizeLogField (al_Comm a))); (txt "spid", FormatInt (al_PID a)); (txt "cs1Label", txt "rule_id");
    (txt "cs1", txt (al_RuleID a)) ] ++
  (if decide (en_PodName (al_Enrichment a) = ""%string) then []
   else [ (txt "cs2Label", txt "pod"); (txt "cs2", txt (en_PodName (al_Enrichment a))); (txt "cs3Label", txt "namespace");
          (txt "cs3", txt (en_Namespace (al_Enrichment a))) ]) ++
  (if decide (al_TraceID a = ""%string) then [] else [(txt "cs4Label", txt "trace_id"); (txt "cs4", txt (al_TraceID a))]) ++
  (if decide (al_Fingerprint a = ""%string) then [] else [(txt "cs5Label", txt "fingerprint"); (txt "cs5", txt (al_Fingerprint a))]) ++
  [(txt "msg", txt (sanitizeLogField (al_Message a)))].
Definition syslog_name (a : Alert) : gostring :=
  if decide (sanitizeLogField (al_RuleName a) = ""%string) then al_RuleID a else sanitizeLogField (al_RuleName a).
Definition syslog_view (a : Alert) : list text * list (text * text) :=
  (product_fields ++ [txt (al_RuleID a); txt (syslog_name a); FormatInt (cefSeverity (al_Severity a))],
   (txt "rt", FormatStamp (al_Timestamp a)) :: syslog_pairs a).

Lemma plain_subset sp sp' s : sp' ⊆ sp -> plain sp s -> plain sp' s.
Proof. intros Hs Hp. eapply Forall_impl; [exact Hp|]. cbn. intros c Hc Hin. apply Hc. rewrite !elem_of_cons in Hin |- *. set_solver. Qed.
Lemma escape_int_value sp z : sp ⊆ cef_specials -> escape sp (FormatInt z) = FormatInt z.
Proof. intros. eapply escape_plain, plain_subset; [done|apply FormatInt_plain]. Qed.

Lemma syslog_extension_text a : plain value_specials (FormatStamp (al_Timestamp a)) ->
  syslog_extension FormatStamp a = extension_text value_specials (txt "rt") (FormatStamp (al_Timestamp a)) (syslog_pairs a).
Proof.
  intros Hst. unfold syslog_extension, extension_text, syslog_pairs. rewrite !pairs_app, (escape_plain _ _ Hst).
  change (txt "rt=") with (txt "rt" ++ [equals]). rewrite <- app_assoc. cbn [app]. do 3 f_equal.
  assert (forall k v, pairs_text value_specials [(k, v)] = space :: k ++ equals :: escapeCEFValue v) as Hone.
  { intros k v. unfold pairs_text. cbn [map concat fst snd]. by rewrite app_nil_r, escapeCEFValue_chars. }
  assert (forall k v x l, pairs_text value_specials ((k, v) :: x :: l) = (space :: k ++ equals :: escapeCEFValue v) ++ pairs_text value_specials (x :: l)) as Hmore.
  { intros k v x l. rewrite <- Hone. apply (pairs_app value_specials [_]). }
  assert (forall z, escapeCEFValue (FormatInt z) = FormatInt z) as Hint by (intros z; rewrite escapeCEFValue_chars; apply escape_int_value; set_solver).
  assert (forall s, s ∈ [txt "rule_id"; txt "pod"; txt "namespace"; txt "trace_id"; txt "fingerprint"] -> escapeCEFValue s = s) as Hlab.
  { intros s Hs. rewrite escapeCEFValue_chars. apply escape_plain. rewrite !elem_of_cons, elem_of_nil in Hs.
    destruct Hs as [->|[->|[->|[->|[->|[]]]]]]; by apply (bool_decide_unpack (plain _ _)). }
  assert (forall s, txt s ∈ [txt "rule_id"; txt "pod"; txt "namespace"; txt "trace_id"; txt "fingerprint"] -> escapeCEFValue (txt s) = txt s) as Hl
    by (intros; by apply Hlab).
  repeat case_decide; rewrite ?Hmore, ?Hone, ?Hint, (Hl "rule_id"%string), ?(Hl "pod"%string), ?(Hl "namespace"%string),
    ?(Hl "trace_id"%string), ?(Hl "fingerprint"%string) by (by apply (bool_decide_unpack (_ ∈ _))); clear;
    repeat match goal with |- context [escapeCEFValue ?x] => generalize (escapeCEFValue x); intros ? end;
    generalize (FormatInt (al_PID a)); intros; rewrite <- ?app_assoc; reflexivity.
Qed.

Lemma syslog_formatCEF_text a : plain value_specials (FormatStamp (al_Timestamp a)) ->
  syslog_formatCEF FormatStamp a = header_text [backslash; pipe] (syslog_view a).1
    (extension_text value_specials (txt "rt") (FormatStamp (al_Timestamp a)) (syslog_pairs a)).
Proof.
  intros Hst. unfold syslog_view. cbn [fst]. rewrite header_line by set_solver. unfold syslog_formatCEF.
  rewrite !escapeCEFHeader_chars, syslog_extension_text by done. fold (syslog_name a).
  by rewrite escape_int_value by set_solver.
Qed.

Lemma syslog_keys a : Forall (fun kv => key_ok kv.1) (syslog_pairs a).
Proof. unfold syslog_pairs. each_key. Qed.
End syslog_view.

(** A syslog line in CEF is one line and reads back, when the timestamp layout
    writes no character that needs an escape. *)
Theorem syslog_cef_roundtrip (FormatStamp : Z -> text) (a : Alert) :
  plain value_specials (FormatStamp (al_Timestamp a)) ->
  read_cef (syslog_formatCEF FormatStamp a) = Some (syslog_view FormatStamp a) /\ one_line (syslog_formatCEF FormatStamp a).
Proof.
  intros Hst. rewrite syslog_formatCEF_text by done. split.
  - unfold syslog_view, product_fields. cbn [fst app].
    rewrite read_line; [done|try set_solver..|apply syslog_keys]. by apply (bool_decide_unpack (key_ok _)).
  - apply line_header; [set_solver|]. apply line_extension; [set_solver| |apply syslog_keys]. by apply (bool_decide_unpack (key_ok _)).
Qed.

(** ** RFC 5424 *)

(** A sequence of several bytes is a code point outside ASCII. *)
Lemma lor_high a b : 0 <= a -> 0 <= b -> 128 <= a \/ 128 <= b -> 128 <= Z.lor a b.
Proof.
  intros Ha Hb Hm. change 128 with (2 ^ 7). pose proof (Z.log2_lor a b Ha Hb) as Hl.
  assert (0 < Z.lor a b) as Hpos.
  { assert (0 <= Z.lor a b) as Hn by by apply Z.lor_nonneg. destruct (decide (Z.lor a b = 0)) as [Hz|]; [|lia].
    apply Z.lor_eq_0_iff in Hz. lia. }
  apply Z.log2_le_pow2; [done|]. rewrite Hl. destruct Hm as [Hm|Hm].
  - assert (7 <= Z.log2 a) by (apply Z.log2_le_pow2; lia). lia.
  - assert (7 <= Z.log2 b) by (apply Z.log2_le_pow2; lia). lia.
Qed.

Lemma shiftl_high x k m : 0 <= k -> m <= x * 2 ^ k -> m <= Z.shiftl x k.
Proof. intros. by rewrite Z.shiftl_mul_pow2. Qed.

Lemma DecodeRune_high b l : let '(r, n) := DecodeRune (b :: l) in (2 <= n)%nat -> 128 <= r.
Proof.
  pose proof (byte_Z_range b) as Hb. unfold DecodeRune. destruct (Z.ltb_spec (byte_Z b) 128); [lia|].
  destruct (utf8_first b) as [[[n lo] hi]|] eqn:Ef; [|lia].
  destruct l as [|b1 l]; [lia|]. destruct (in_bytes lo hi b1) eqn:E1; [|simpl; lia]. cbn [negb].
  assert (forall c, low6 c = byte_Z c mod 64) as L by (intros; apply (Z.land_ones _ 6); lia).
  assert (Z.land (byte_Z b) 31 = byte_Z b mod 32) as -> by (apply (Z.land_ones _ 5); lia).
  assert (Z.land (byte_Z b) 15 = byte_Z b mod 16) as -> by (apply (Z.land_ones _ 4); lia).
  assert (Z.land (byte_Z b) 7 = byte_Z b mod 8) as -> by (apply (Z.land_ones _ 3); lia).
  assert (forall x m k, 0 < m -> 0 <= Z.shiftl (x mod m) k) as Hsh by (intros; rewrite Z.shiftl_nonneg; by apply Z.mod_pos_bound).
  assert (forall x m, 0 < m -> 0 <= x mod m) as Hm by (intros; by apply Z.mod_pos_bound).
  assert ((n = 2 /\ 2 <= byte_Z b mod 32) \/ (n = 3 /\ (1 <= byte_Z b mod 16 \/ 32 <= byte_Z b1 mod 64)) \/
          (n = 4 /\ (1 <= byte_Z b mod 8 \/ 16 <= byte_Z b1 mod 64))) as Hcase.
  { unfold utf8_first, in_bytes in *. pose proof (byte_Z_range b1).
    repeat case_match; zbool; simplify_eq; Z.to_euclidean_division_equations; lia. }
  rewrite !L. destruct Hcase as [[-> Hc]|[[-> Hc]|[-> Hc]]]; cbn [Z.eqb Pos.eqb].
  - intros _. apply lor_high; [auto with lia..|]. left. apply shiftl_high; lia.
  - destruct l as [|b2 l]; [lia|]. destruct (in_bytes 128 191 b2); [|simpl; lia]. cbn [negb]. intros _.
    rewrite L. apply lor_high; [apply Z.lor_nonneg; auto with lia|auto with lia|]. left.
    apply lor_high; [auto with lia..|]. destruct Hc; [left|right]; apply shiftl_high; lia.
  - destruct l as [|b2 l]; [lia|]. destruct (in_bytes 128 191 b2); [|simpl; lia]. cbn [negb].
    destruct l as [|b3 l]; [lia|]. destruct (in_bytes 128 191 b3); [|simpl; lia]. cbn [negb]. intros _. rewrite !L.
    apply lor_high; [apply Z.lor_nonneg; auto with lia..|]. left.
    apply lor_high; [auto with lia..|]. destruct Hc; [left|right]; apply shiftl_high; lia.
Qed.

(** What a rune loop writes, from what it writes for one rune: an ASCII byte,
    or a sequence of bytes with the high bit set. *)
Lemma rune_loop_ind (f : Z -> list byte -> list byte) (P : list byte -> Prop) :
  P [] -> (forall s t, P s -> P t -> P (s ++ t)) ->
  (forall b, byte_Z b < 128 -> P (f (byte_Z b) [b])) ->
  (forall r l, 128 <= r -> Forall (fun c => 128 <= byte_Z c) l -> P (f r l)) ->
  forall fuel l, P (rune_loop f fuel l).
Proof.
  intros Hn Happ Hascii Hhigh. induction fuel as [|fuel IH]; intros l; [done|]. destruct l as [|b l]; [done|].
  cbn [rune_loop]. pose proof (DecodeRune_spec b l) as Hd. pose proof (DecodeRune_high b l) as Hh.
  destruct (DecodeRune (b :: l)) as [r n]. apply Happ; [|apply IH].
  destruct Hd as (Hr & [[-> [ [-> Hb] | -> ] ]|[Hlen Hl]]).
  - rewrite (proj2 (Z.eqb_neq _ _)) by (unfold RuneError; lia). cbn [andb take]. by apply Hascii.
  - apply Hhigh; [done|]. repeat constructor; by vm_compute.
  - destruct (_ && _); (apply Hhigh; [apply Hh; lia|]); [|done]. repeat constructor; by vm_compute.
Qed.

Lemma txt_bytes l : txt (bytes_string l) = map ascii_of_byte l.
Proof. unfold bytes_string, String.string_of_list_byte. by rewrite txt_str. Qed.

(** A value in quotes: a reader that cuts at unescaped quotes passes over it. *)
Definition closed (s : text) : Prop :=
  forall n cur rest, cut (S n) dquote cur (s ++ rest) = cut (S n) dquote (cur ++ s) rest.
Lemma closed_nil : closed [].
Proof. intros n cur rest. by rewrite app_nil_r. Qed.
Lemma unbroken_app s t : closed s -> closed t -> closed (s ++ t).
Proof. intros Hs Ht n cur rest. by rewrite <- app_assoc, Hs, Ht, app_assoc. Qed.
Lemma closed_escaped c : closed [backslash; c].
Proof. intros n cur rest. cbn [app]. cbn [cut]. by rewrite decide_True. Qed.
Lemma closed_char c : c <> backslash -> c <> dquote -> closed [c].
Proof. intros ? ? n cur rest. cbn [app]. cbn [cut]. by rewrite !decide_False. Qed.
Lemma closed_chars s : Forall (fun c => c <> backslash /\ c <> dquote) s -> closed s.
Proof.
  induction 1 as [|c s [? ?] _ IH]; [apply closed_nil|]. apply (unbroken_app [c]); [by apply closed_char|done].
Qed.

Lemma ascii_of_byte_N b : N_of_ascii (ascii_of_byte b) = Byte.to_N b.
Proof. by destruct b; vm_compute. Qed.
Lemma byte_char b c : byte_Z b <> Z.of_N (N_of_ascii c) -> ascii_of_byte b <> c.
Proof. intros Hb <-. apply Hb. unfold byte_Z. by rewrite ascii_of_byte_N. Qed.

Lemma high_chars l c : (N_of_ascii c < 128)%N -> Forall (fun b => 128 <= byte_Z b) l -> c ∉ map ascii_of_byte l.
Proof.
  intros Hc Hl Hin. apply list_elem_of_fmap in Hin as (b & Hb & Hin). rewrite Forall_forall in Hl. specialize (Hl b Hin).
  symmetry in Hb. revert Hb. apply byte_char. lia.
Qed.

Lemma escapeSD_closed s : closed (txt (escapeSD s)).
Proof.
  unfold escapeSD, map_runes. rewrite txt_bytes. apply (rune_loop_ind _ (fun l => closed (map ascii_of_byte l))).
  - apply closed_nil.
  - intros ? ? ? ?. rewrite map_app. by apply unbroken_app.
  - intros b Hb. cbn [map]. repeat case_match; zbool; try apply closed_escaped; try apply closed_nil.
    cbn [map]. apply closed_char; apply byte_char; cbn; lia.
  - intros r l Hr Hl. rewrite !(proj2 (Z.eqb_neq _ _)), (proj2 (Z.ltb_ge _ _)) by lia. cbn [orb]. apply closed_chars.
    apply Forall_forall. intros c Hc. split; intros ->; revert Hc; by apply high_chars.
Qed.

(** No control character. *)
Definition printable (s : text) : Prop := Forall (fun c => 32 <= Z.of_N (N_of_ascii c)) s.
Lemma printable_line s : printable s -> one_line s.
Proof. unfold printable, one_line. rewrite Forall_forall. intros Hs. split; intros Hin%Hs; vm_compute in Hin; by destruct Hin. Qed.

Lemma printable_byte b : 32 <= byte_Z b -> printable [ascii_of_byte b].
Proof. intros Hb. constructor; [|constructor]. by rewrite ascii_of_byte_N. Qed.
Lemma printable_high l : Forall (fun b => 128 <= byte_Z b) l -> printable (map ascii_of_byte l).
Proof.
  intros Hl. apply Forall_map. eapply Forall_impl; [exact Hl|]. cbn. intros b Hb. rewrite ascii_of_byte_N. unfold byte_Z in Hb. lia.
Qed.

Lemma escapeSD_printable s : printable (txt (escapeSD s)).
Proof.
  unfold escapeSD, map_runes. rewrite txt_bytes. apply (rune_loop_ind _ (fun l => printable (map ascii_of_byte l))).
  - constructor.
  - intros ? ? ? ?. rewrite map_app. by apply Forall_app.
  - intros b Hb. cbn [map]. repeat case_match; zbool; cbn [map]; unfold printable;
      repeat match goal with
        | |- Forall _ (_ :: _) => apply Forall_cons; split
        | |- Forall _ [] => by apply Forall_nil
        | |- _ <= Z.of_N (N_of_ascii (ascii_of_byte b)) => rewrite ascii_of_byte_N; fold (byte_Z b); lia
        | |- _ <= _ => by vm_compute
        end.
  - intros r l Hr Hl. rewrite !(proj2 (Z.eqb_neq _ _)), (proj2 (Z.ltb_ge _ _)) by lia. by apply printable_high.
Qed.
Lemma sanitize_printable s : printable (txt (sanitizeLogField s)).
Proof.
  unfold sanitizeLogField, map_runes. rewrite txt_bytes. apply (rune_loop_ind _ (fun l => printable (map ascii_of_byte l))).
  - constructor.
  - intros ? ? ? ?. rewrite map_app. by apply Forall_app.
  - intros b Hb. case_match; zbool; [repeat constructor; by vm_compute|]. apply printable_byte. lia.
  - intros r l Hr Hl. rewrite (proj2 (Z.ltb_ge _ _)), (proj2 (Z.eqb_neq _ _)) by lia. by apply printable_high.
Qed.

(** The parameters of the structured data, with their escaped values. *)
Definition sd_params (a : Alert) : list (gostring * gostring) :=
  [ ("rule", escapeSD (al_RuleID a)); ("severity", escapeSD (al_Severity a)); ("pid", pretty (al_PID a));
    ("comm", escapeSD (sanitizeLogField (al_Comm a))); ("pod", escapeSD (or_dash (en_PodName (al_Enrichment a))));
    ("namespace", escapeSD (or_dash (en_Namespace (al_Enrichment a)))); ("fingerprint", escapeSD (al_Fingerprint a)) ]%string.
Definition param_name (k : gostring) : text := space :: txt k ++ [equals].
Definition sd_parts (l : list (gostring * gostring)) : list text := concat (map (fun kv => [param_name kv.1; txt kv.2]) l).
Definition sd_text (l : list (gostring * gostring)) : text := concat (map (fun kv => param_name kv.1 ++ dquote :: txt kv.2 ++ [dquote]) l).

Lemma structured_data_text a : structured_data a = txt "[ebpf-guard@50000" ++ sd_text (sd_params a) ++ txt "]".
Proof.
  assert (forall k v, k ∈ ["rule"; "severity"; "pid"; "comm"; "pod"; "namespace"; "fingerprint"]%string ->
    quoted k v = param_name k ++ dquote :: txt v ++ [dquote]) as Hq.
  { intros k v Hk. unfold quoted, param_name. rewrite !elem_of_cons, elem_of_nil in Hk.
    destruct Hk as [->|[->|[->|[->|[->|[->|[->|[]]]]]]]]; reflexivity. }
  unfold structured_data, sd_text, sd_params. cbn [map concat fst snd].
  rewrite !Hq by (by apply (bool_decide_unpack (_ ∈ _))). by rewrite <- !app_assoc.
Qed.

Lemma pretty_chars (z : Z) : Forall (fun c => c <> backslash /\ c <> dquote) (txt (pretty z)) /\ printable (txt (pretty z)).
Proof.
  assert (forall s, all_digits s -> Forall (fun c => c <> backslash /\ c <> dquote) (txt s) /\ printable (txt s)) as Hd.
  { induction s as [|c s IH]; [split; constructor|]. intros [Hc [? ?]%IH]. unfold digit in Hc.
    split; constructor; try done; [|lia]. split; intros ->; vm_compute in Hc; by destruct Hc as [Hc ?] || destruct Hc as [? Hc]. }
  destruct z as [|p|p]; [by apply Hd, pretty_digits|by apply Hd, pretty_digits|].
  change (pretty (Z.neg p)) with ("-" +:+ pretty (Z.pos p))%string. destruct (Hd (pretty (Z.pos p))) as [? ?]; [by apply pretty_digits|].
  split; constructor; done.
Qed.

Lemma sd_values a : Forall (fun kv => closed (param_name kv.1) /\ closed (txt kv.2) /\ printable (txt kv.2)) (sd_params a).
Proof.
  unfold sd_params. repeat (apply Forall_cons; split); [..|by apply Forall_nil].
  all: cbn [fst snd]; split_and!; try apply escapeSD_closed; try apply escapeSD_printable.
  all: try (apply closed_chars; apply (bool_decide_unpack _); by vm_compute).
  - apply closed_chars, pretty_chars.
  - apply pretty_chars.
Qed.

Lemma cut_params l cur rest : Forall (fun kv => closed (param_name kv.1) /\ closed (txt kv.2) /\ printable (txt kv.2)) l ->
  match l with
  | [] => True
  | (k, v) :: l => cut (2 * S (length l)) dquote cur (sd_text ((k, v) :: l) ++ rest) =
      (cur ++ param_name k) :: txt v :: (sd_parts l ++ [rest])
  end.
Proof.
  revert cur. induction l as [|[k v] l IH]; intros cur Hl; [done|]. apply Forall_cons in Hl as [(Hk & Hv & _) Hl]. cbn [fst snd] in *.
  replace (2 * S (length l))%nat with (S (S (2 * length l))) by lia. unfold sd_text. cbn [map concat fst snd]. fold (sd_text l).
  rewrite <- !app_assoc, Hk. cbn [app]. cbn [cut]. rewrite decide_False by done. rewrite decide_True by done. f_equal.
  rewrite <- app_assoc, Hv. cbn [app]. cbn [cut]. rewrite decide_False by done. rewrite decide_True by done. f_equal.
  destruct l as [|[k' v'] l].
  - cbn [length Nat.mul sd_text map concat app sd_parts]. by rewrite cut_0.
  - specialize (IH [] Hl). cbn [length] in *. rewrite IH. by cbn.
Qed.

(** An RFC 5424 line cannot be broken by what it reports. When the
    timestamp, the host name and the configured application name hold no line
    break, neither does the line; and a reader that cuts the structured data
    at the quotes no backslash precedes finds exactly the seven parameters
    with their escaped values, then the closing bracket and the message,
    whatever bytes the alert holds. *)
Theorem rfc5424_line (FormatRFC3339Nano : Z -> text) (hostname : gostring) (n : SyslogCEFNotifier) (a : Alert) :
  one_line (FormatRFC3339Nano (al_Timestamp a)) -> one_line (txt (or_dash hostname)) -> one_line (txt (sn_appName n)) ->
  one_line (formatRFC5424 FormatRFC3339Nano hostname n a) /\
  exists header, formatRFC5424 FormatRFC3339Nano hostname n a = header ++ structured_data a ++ space :: txt (sanitizeLogField (al_Message a)) /\
    forall rest, cut 14 dquote [] (structured_data a ++ rest) =
      match sd_parts (sd_params a) with p :: ps => (txt "[ebpf-guard@50000" ++ p) :: ps ++ [txt "]" ++ rest] | [] => [] end.
Proof.
  intros Ht Hh Hn.
  assert (one_line (structured_data a)) as Hsd.
  { rewrite structured_data_text. apply one_line_app. split; [by apply (bool_decide_unpack (one_line _))|]. apply one_line_app.
    split; [|by apply (bool_decide_unpack (one_line _))]. pose proof (sd_values a) as Hv.
    unfold sd_text, sd_params in *. cbn [map concat fst snd] in *.
    rewrite !Forall_cons in Hv. cbn [fst snd] in Hv. destruct_and! Hv.
    repeat (rewrite one_line_app || rewrite one_line_cons); split_and!; try done; first [by apply printable_line|by apply (bool_decide_unpack (one_line _))]. }
  split.
  - unfold formatRFC5424. repeat rewrite one_line_app. split_and!; try done; try (by apply (bool_decide_unpack (one_line _))).
    + eapply one_line_plain, FormatInt_plain.
    + apply printable_line, sanitize_printable.
  - exists (txt "<" ++ FormatInt (sc_Facility (sn_config n) * 8 + syslogSeverity (al_Severity a)) ++ txt ">1 " ++
      FormatRFC3339Nano (al_Timestamp a) ++ [space] ++ txt (or_dash hostname) ++ [space] ++ txt (sn_appName n) ++ txt " - - ").
    split; [by rewrite <- !app_assoc|]. intros rest. rewrite structured_data_text, <- !app_assoc.
    rewrite (closed_chars (txt "[ebpf-guard@50000")) by (apply (bool_decide_unpack _); by vm_compute).
    exact (cut_params (sd_params a) _ _ (sd_values a)).
Qed.

(** Every alert that is open to the notifier and severe enough is counted
    once, as sent (its one line added to the connection) or as an error (the
    connection dropped, the error returned); any other changes nothing. *)
Lemma syslog_send_counted FormatStamp FormatRFC3339Nano hostname dial_ok write_ok a n :
  let '(n', err) := syslog_Send FormatStamp FormatRFC3339Nano hostname dial_ok write_ok a n in
  if sn_closed n || negb (syslogMeetsSeverity n a) then n' = n /\ err = None else
  match err with
  | None => sn_sent n' = sn_sent n + 1 /\ sn_errors n' = sn_errors n /\
      sn_conn n' = Some (default [] (sn_conn n) ++
        [if sn_useCEF n then syslog_formatCEF FormatStamp a else formatRFC5424 FormatRFC3339Nano hostname n a])
  | Some _ => sn_sent n' = sn_sent n /\ sn_errors n' = sn_errors n + 1 /\ sn_conn n' = None
  end.
Proof.
  unfold syslog_Send, writeLine. destruct (sn_closed n); [done|]. destruct (syslogMeetsSeverity n a); [|done]. cbn [negb orb].
  destruct (sn_conn n), dial_ok, write_ok; done.
Qed.

Definition hostile_alert : Alert :=
  mkAlert "a1" 1700000000000000000 "r|1=x" "name" SeverityCritical 7
    (str (txt "sh" ++ dquote :: txt "] x\" ++ [LF] ++ txt "<0>1 forged")) (str (txt "m|=\" ++ [LF; CR])) "" "" None empty_enrichment empty_event []
    "fp" "" false [] 0 zero_time zero_time "".

Lemma rfc5424_line_witness :
  let n := NewSyslogCEFNotifier (H := sample_lib) (mkSyslogConfig true "udp" "siem:514" "" "" 0 "" 0) in
  one_line (formatRFC5424 (fun _ => txt "2023-11-14T22:13:20Z") "node-1" n hostile_alert) /\
  cut 14 dquote [] (structured_data hostile_alert) !! 7%nat = Some (txt "sh\" ++ dquote :: txt "\] x\\ <0>1 forged").
Proof.
  intros n. destruct (rfc5424_line (fun _ => txt "2023-11-14T22:13:20Z") "node-1" n hostile_alert) as [Hl (h & _ & Hc)];
    [by apply (bool_decide_unpack (one_line _))..|]. split; [exact Hl|].
  specialize (Hc []). rewrite app_nil_r in Hc. rewrite Hc. by vm_compute.
Defined.
