(* ===== verification/Api.v ===== *)
(** * The HTTP server and its REST API

    Models src/internal/exporter/server.go (the server's state, its
    constructors, probes and setters), src/internal/exporter/api.go (the
    routes and handlers), src/internal/exporter/tuning.go (generated
    exceptions) and the provider of src/internal/exporter/health.go. A request
    goes through the CORS middleware, the token middleware of [Auth], the
    router of [HttpMux] and a handler; [ServeHTTP] is that composition. What a
    handler does outside the server (a reload, a write) is an [effect] of the
    call; JSON and YAML are modelled by the values they encode.

    Parameters: the alert store (the [AlertStore] interface, with the laws a
    client relies on, which the in-memory store discharges), the decoders of
    request bodies, [time.ParseDuration], the explainer, the order in which a
    Go map is walked, and the handlers of other packages ([promhttp], [pprof],
    static assets, the debug dump, gossip), which are only named. *)
From Stdlib Require Import Ascii.
From stdpp Require Import pretty.
From S2P Require Import Prelude GoBytes GoText Types Fields RuleTypes RuleLoader TraceCtx Lineage Ja3 MemStore AlertSummary Incidents Feedback HttpMux Auth Cef.

(** ** The store interface *)
Class AlertStore (St : Type) := {
  st_Query : St -> QueryFilters -> option (list Alert);
  st_QueryByID : St -> gostring -> option Alert;
  st_Healthy : St -> bool;
  (** [store.Summarizer], when the store implements it *)
  st_Summarize : option (St -> QueryFilters -> option AlertSummary) }.

(** What the API relies on: a query returns alerts that match its filters, and
    a native summary summarises such alerts. *)
Class StoreLaws (St : Type) `{AlertStore St} (ToLower : gostring -> gostring) := {
  st_ok : St -> Prop;
  st_Query_matches s f l : st_ok s -> st_Query s f = Some l -> Forall (fun a => matchesFilters ToLower a f = true) l;
  st_Summarize_matches sum s f x : st_ok s -> st_Summarize = Some sum -> sum s f = Some x ->
    exists l, Forall (fun a => matchesFilters ToLower a f = true) l /\ x = SummarizeAlerts l }.

Class HttpLib `{GoLib} := {
  ParseDuration : gostring -> option Z;
  decode_feedback : list byte -> option (gostring * gostring);
  decode_tuning : list byte -> option (gostring * gostring * gostring * gostring * bool) }.

(** ** The server *)
Record CollectorStatus := mkCollector { cs_Name : gostring; cs_Healthy : bool; cs_Error : gostring }.
Record AgentHealth `{GoLib} := mkAgentHealth {
  ah_CPUPressureLevel : Z; ah_CPUPressurePercent : Float; ah_VisibilityReduced : bool; ah_SamplingRates : gmap gostring Float;
  ah_DriftLearningWorkloads : Z; ah_DriftStuckWorkloads : Z; ah_DriftProfilesActive : Z; ah_HardwareProfile : gostring }.

Inductive guard := Unguarded | TwoRoles (viewerToken adminToken : gostring) | Tokens (tokens : list NamespacedToken).

Section server.
Context `{GoLib} {St : Type}.

(** A function field is what calling it gives at this moment; a callback that
    only acts outside the server is whether it is set. *)
Record Server := mkServer {
  sv_metricsPath : gostring; sv_healthPath : gostring; sv_pprof : bool; sv_debug : bool; sv_gossip : bool; sv_guard : guard;
  sv_healthy : bool; sv_ready : bool; sv_startTime : Z;
  sv_collectorStatuses : gmap gostring CollectorStatus; sv_requiredCollectors : gset gostring;
  sv_alertStore : option St; sv_rulesProvider : option (list Rule); sv_rulesReload : bool;
  sv_feedback : option Feedback.Manager; sv_explainer : option (Alert -> option gostring);
  sv_incidents : option IncidentTracker; sv_bpfReloader : bool; sv_bpfAttached : bool;
  sv_corsAllowedOrigins : list gostring; sv_localTuningPath : gostring; sv_overlay : overlay_file;
  sv_agentHealth : option AgentHealth }.

Definition new_server (metricsPath healthPath : gostring) (enablePprof enableDebug : bool) (g : guard) (now : Z) (overlay : overlay_file) : Server :=
  mkServer (if decide (metricsPath = ""%string) then "/metrics"%string else metricsPath)
    (if decide (healthPath = ""%string) then "/health"%string else healthPath)
    enablePprof enableDebug false g true false now ∅ ∅ None None false None None None false false [] ""%string overlay None.

Definition NewServerWithMultiTenant (metricsPath healthPath : gostring) (enablePprof enableDebug : bool)
    (tokens : list NamespacedToken) (viewerToken adminToken : gostring) (authEnabled : bool) : Z -> overlay_file -> Server :=
  let all := legacy_tokens viewerToken adminToken ++ tokens in
  new_server metricsPath healthPath enablePprof enableDebug
    (if authEnabled && (0 <? Z.of_nat (length all)) then Tokens all else Unguarded).

Definition NewServerWithRBAC (metricsPath healthPath : gostring) (enablePprof enableDebug : bool)
    (viewerToken adminToken : gostring) (authEnabled : bool) : Z -> overlay_file -> Server :=
  new_server metricsPath healthPath enablePprof enableDebug
    (if authEnabled && (negb (bool_decide (viewerToken = ""%string)) || negb (bool_decide (adminToken = ""%string)))
     then TwoRoles viewerToken adminToken else Unguarded).

Definition NewServerWithAuth (metricsPath healthPath : gostring) (enablePprof enableDebug : bool) (authToken : gostring) (authEnabled : bool) :
  Z -> overlay_file -> Server := NewServerWithRBAC metricsPath healthPath enablePprof enableDebug "" authToken authEnabled.
End server.
Arguments Server {_} _.

(** ** The tokens of a deployment

    The part of [runRoot] (src/cmd/ebpf-guard/main.go) that collects the
    tokens; [gen] are the results of the two calls of [generateToken]. *)
Record AuthSettings := mkAuthSettings {
  as_Enabled : bool; as_BearerToken : gostring; as_ViewerToken : gostring; as_AdminToken : gostring;
  as_Tokens : list NamespacedToken }.
Definition token_or (gen : option gostring) (wanted : bool) (token : gostring) : option gostring :=
  if wanted && bool_decide (token = ""%string) then gen else Some token.
Definition collect_tokens (gen_admin gen_viewer : option gostring) (cfg : AuthSettings) :
  option (gostring * gostring * list NamespacedToken) :=
  let admin := if decide (as_AdminToken cfg = ""%string) then as_BearerToken cfg else as_AdminToken cfg in
  let wanted := as_Enabled cfg && bool_decide (as_Tokens cfg = []) in
  admin ← token_or gen_admin wanted admin;
  viewer ← token_or gen_viewer wanted (as_ViewerToken cfg);
  Some (viewer, admin, map (fun t => mkToken (nt_Token t) (if decide (nt_Role t = "admin"%string) then RoleAdmin else RoleViewer) (nt_Namespaces t)) (as_Tokens cfg)).

(** ** Setters *)
Section setters.
Context `{GoLib} {St : Type}.
Definition SetHealthy (healthy : bool) (s : Server St) : Server St :=
  mkServer (sv_metricsPath s) (sv_healthPath s) (sv_pprof s) (sv_debug s) (sv_gossip s) (sv_guard s) healthy (sv_ready s)
    (sv_startTime s) (sv_collectorStatuses s) (sv_requiredCollectors s) (sv_alertStore s) (sv_rulesProvider s) (sv_rulesReload s)
    (sv_feedback s) (sv_explainer s) (sv_incidents s) (sv_bpfReloader s) (sv_bpfAttached s) (sv_corsAllowedOrigins s)
    (sv_localTuningPath s) (sv_overlay s) (sv_agentHealth s).
Definition SetReady (ready : bool) (s : Server St) : Server St :=
  mkServer (sv_metricsPath s) (sv_healthPath s) (sv_pprof s) (sv_debug s) (sv_gossip s) (sv_guard s) (sv_healthy s) ready
    (sv_startTime s) (sv_collectorStatuses s) (sv_requiredCollectors s) (sv_alertStore s) (sv_rulesProvider s) (sv_rulesReload s)
    (sv_feedback s) (sv_explainer s) (sv_incidents s) (sv_bpfReloader s) (sv_bpfAttached s) (sv_corsAllowedOrigins s)
    (sv_localTuningPath s) (sv_overlay s) (sv_agentHealth s).
Definition SetCollectorStatus (status : CollectorStatus) (s : Server St) : Server St :=
  mkServer (sv_metricsPath s) (sv_healthPath s) (sv_pprof s) (sv_debug s) (sv_gossip s) (sv_guard s) (sv_healthy s) (sv_ready s)
    (sv_startTime s) (<[cs_Name status := status]> (sv_collectorStatuses s)) (sv_requiredCollectors s) (sv_alertStore s)
    (sv_rulesProvider s) (sv_rulesReload s) (sv_feedback s) (sv_explainer s) (sv_incidents s) (sv_bpfReloader s) (sv_bpfAttached s)
    (sv_corsAllowedOrigins s) (sv_localTuningPath s) (sv_overlay s) (sv_agentHealth s).
Definition SetRequiredCollectors (names : list gostring) (s : Server St) : Server St :=
  mkServer (sv_metricsPath s) (sv_healthPath s) (sv_pprof s) (sv_debug s) (sv_gossip s) (sv_guard s) (sv_healthy s) (sv_ready s)
    (sv_startTime s) (sv_collectorStatuses s) (list_to_set names) (sv_alertStore s) (sv_rulesProvider s) (sv_rulesReload s)
    (sv_feedback s) (sv_explainer s) (sv_incidents s) (sv_bpfReloader s) (sv_bpfAttached s) (sv_corsAllowedOrigins s)
    (sv_localTuningPath s) (sv_overlay s) (sv_agentHealth s).
Definition SetAlertStore (st : option St) (s : Server St) : Server St :=
  mkServer (sv_metricsPath s) (sv_healthPath s) (sv_pprof s) (sv_debug s) (sv_gossip s) (sv_guard s) (sv_healthy s) (sv_ready s)
    (sv_startTime s) (sv_collectorStatuses s) (sv_requiredCollectors s) st (sv_rulesProvider s) (sv_rulesReload s) (sv_feedback s)
    (sv_explainer s) (sv_incidents s) (sv_bpfReloader s) (sv_bpfAttached s) (sv_corsAllowedOrigins s) (sv_localTuningPath s)
    (sv_overlay s) (sv_agentHealth s).
Definition SetFeedbackManager (fm : option Feedback.Manager) (s : Server St) : Server St :=
  mkServer (sv_metricsPath s) (sv_healthPath s) (sv_pprof s) (sv_debug s) (sv_gossip s) (sv_guard s) (sv_healthy s) (sv_ready s)
    (sv_startTime s) (sv_collectorStatuses s) (sv_requiredCollectors s) (sv_alertStore s) (sv_rulesProvider s) (sv_rulesReload s) fm
    (sv_explainer s) (sv_incidents s) (sv_bpfReloader s) (sv_bpfAttached s) (sv_corsAllowedOrigins s) (sv_localTuningPath s)
    (sv_overlay s) (sv_agentHealth s).
Definition SetIncidentTracker (t : option IncidentTracker) (s : Server St) : Server St :=
  mkServer (sv_metricsPath s) (sv_healthPath s) (sv_pprof s) (sv_debug s) (sv_gossip s) (sv_guard s) (sv_healthy s) (sv_ready s)
    (sv_startTime s) (sv_collectorStatuses s) (sv_requiredCollectors s) (sv_alertStore s) (sv_rulesProvider s) (sv_rulesReload s)
    (sv_feedback s) (sv_explainer s) t (sv_bpfReloader s) (sv_bpfAttached s) (sv_corsAllowedOrigins s) (sv_localTuningPath s)
    (sv_overlay s) (sv_agentHealth s).
Definition SetLocalTuningPath (path : gostring) (s : Server St) : Server St :=
  mkServer (sv_metricsPath s) (sv_healthPath s) (sv_pprof s) (sv_debug s) (sv_gossip s) (sv_guard s) (sv_healthy s) (sv_ready s)
    (sv_startTime s) (sv_collectorStatuses s) (sv_requiredCollectors s) (sv_alertStore s) (sv_rulesProvider s) (sv_rulesReload s)
    (sv_feedback s) (sv_explainer s) (sv_incidents s) (sv_bpfReloader s) (sv_bpfAttached s) (sv_corsAllowedOrigins s) path
    (sv_overlay s) (sv_agentHealth s).
Definition SetExplainer (e : option (Alert -> option gostring)) (s : Server St) : Server St :=
  mkServer (sv_metricsPath s) (sv_healthPath s) (sv_pprof s) (sv_debug s) (sv_gossip s) (sv_guard s) (sv_healthy s) (sv_ready s)
    (sv_startTime s) (sv_collectorStatuses s) (sv_requiredCollectors s) (sv_alertStore s) (sv_rulesProvider s) (sv_rulesReload s)
    (sv_feedback s) e (sv_incidents s) (sv_bpfReloader s) (sv_bpfAttached s) (sv_corsAllowedOrigins s) (sv_localTuningPath s)
    (sv_overlay s) (sv_agentHealth s).
Definition SetBPFReloader (fn : bool) (s : Server St) : Server St :=
  mkServer (sv_metricsPath s) (sv_healthPath s) (sv_pprof s) (sv_debug s) (sv_gossip s) (sv_guard s) (sv_healthy s) (sv_ready s)
    (sv_startTime s) (sv_collectorStatuses s) (sv_requiredCollectors s) (sv_alertStore s) (sv_rulesProvider s) (sv_rulesReload s)
    (sv_feedback s) (sv_explainer s) (sv_incidents s) fn (sv_bpfAttached s) (sv_corsAllowedOrigins s) (sv_localTuningPath s)
    (sv_overlay s) (sv_agentHealth s).
Definition SetBPFAttached (attached : bool) (s : Server St) : Server St :=
  mkServer (sv_metricsPath s) (sv_healthPath s) (sv_pprof s) (sv_debug s) (sv_gossip s) (sv_guard s) (sv_healthy s) (sv_ready s)
    (sv_startTime s) (sv_collectorStatuses s) (sv_requiredCollectors s) (sv_alertStore s) (sv_rulesProvider s) (sv_rulesReload s)
    (sv_feedback s) (sv_explainer s) (sv_incidents s) (sv_bpfReloader s) attached (sv_corsAllowedOrigins s) (sv_localTuningPath s)
    (sv_overlay s) (sv_agentHealth s).
Definition SetCORSAllowedOrigins (origins : list gostring) (s : Server St) : Server St :=
  mkServer (sv_metricsPath s) (sv_healthPath s) (sv_pprof s) (sv_debug s) (sv_gossip s) (sv_guard s) (sv_healthy s) (sv_ready s)
    (sv_startTime s) (sv_collectorStatuses s) (sv_requiredCollectors s) (sv_alertStore s) (sv_rulesProvider s) (sv_rulesReload s)
    (sv_feedback s) (sv_explainer s) (sv_incidents s) (sv_bpfReloader s) (sv_bpfAttached s) origins (sv_localTuningPath s)
    (sv_overlay s) (sv_agentHealth s).
Definition SetRulesProvider (fn : option (list Rule)) (s : Server St) : Server St :=
  mkServer (sv_metricsPath s) (sv_healthPath s) (sv_pprof s) (sv_debug s) (sv_gossip s) (sv_guard s) (sv_healthy s) (sv_ready s)
    (sv_startTime s) (sv_collectorStatuses s) (sv_requiredCollectors s) (sv_alertStore s) fn (sv_rulesReload s) (sv_feedback s)
    (sv_explainer s) (sv_incidents s) (sv_bpfReloader s) (sv_bpfAttached s) (sv_corsAllowedOrigins s) (sv_localTuningPath s)
    (sv_overlay s) (sv_agentHealth s).
Definition SetRulesReloadHandler (fn : bool) (s : Server St) : Server St :=
  mkServer (sv_metricsPath s) (sv_healthPath s) (sv_pprof s) (sv_debug s) (sv_gossip s) (sv_guard s) (sv_healthy s) (sv_ready s)
    (sv_startTime s) (sv_collectorStatuses s) (sv_requiredCollectors s) (sv_alertStore s) (sv_rulesProvider s) fn (sv_feedback s)
    (sv_explainer s) (sv_incidents s) (sv_bpfReloader s) (sv_bpfAttached s) (sv_corsAllowedOrigins s) (sv_localTuningPath s)
    (sv_overlay s) (sv_agentHealth s).
Definition SetAgentHealthProvider (fn : option AgentHealth) (s : Server St) : Server St :=
  mkServer (sv_metricsPath s) (sv_healthPath s) (sv_pprof s) (sv_debug s) (sv_gossip s) (sv_guard s) (sv_healthy s) (sv_ready s)
    (sv_startTime s) (sv_collectorStatuses s) (sv_requiredCollectors s) (sv_alertStore s) (sv_rulesProvider s) (sv_rulesReload s)
    (sv_feedback s) (sv_explainer s) (sv_incidents s) (sv_bpfReloader s) (sv_bpfAttached s) (sv_corsAllowedOrigins s)
    (sv_localTuningPath s) (sv_overlay s) fn.
Definition RegisterGossipRoutes (s : Server St) : Server St :=
  mkServer (sv_metricsPath s) (sv_healthPath s) (sv_pprof s) (sv_debug s) true (sv_guard s) (sv_healthy s) (sv_ready s)
    (sv_startTime s) (sv_collectorStatuses s) (sv_requiredCollectors s) (sv_alertStore s) (sv_rulesProvider s) (sv_rulesReload s)
    (sv_feedback s) (sv_explainer s) (sv_incidents s) (sv_bpfReloader s) (sv_bpfAttached s) (sv_corsAllowedOrigins s)
    (sv_localTuningPath s) (sv_overlay s) (sv_agentHealth s).
(** Starting and shutting down, as far as the probes see it. *)
Definition Start (s : Server St) : Server St :=
  mkServer (sv_metricsPath s) (sv_healthPath s) (sv_pprof s) (sv_debug s) (sv_gossip s) (sv_guard s) (sv_healthy s) true
    (sv_startTime s) (sv_collectorStatuses s) (sv_requiredCollectors s) (sv_alertStore s) (sv_rulesProvider s) (sv_rulesReload s)
    (sv_feedback s) (sv_explainer s) (sv_incidents s) (sv_bpfReloader s) (sv_bpfAttached s) (sv_corsAllowedOrigins s)
    (sv_localTuningPath s) (sv_overlay s) (sv_agentHealth s).
Definition Shutdown (s : Server St) : Server St :=
  mkServer (sv_metricsPath s) (sv_healthPath s) (sv_pprof s) (sv_debug s) (sv_gossip s) (sv_guard s) false false (sv_startTime s)
    (sv_collectorStatuses s) (sv_requiredCollectors s) (sv_alertStore s) (sv_rulesProvider s) (sv_rulesReload s) (sv_feedback s)
    (sv_explainer s) (sv_incidents s) (sv_bpfReloader s) (sv_bpfAttached s) (sv_corsAllowedOrigins s) (sv_localTuningPath s)
    (sv_overlay s) (sv_agentHealth s).
(** The overlay file is rewritten. *)
Definition write_overlay (o : overlay_file) (s : Server St) : Server St :=
  mkServer (sv_metricsPath s) (sv_healthPath s) (sv_pprof s) (sv_debug s) (sv_gossip s) (sv_guard s) (sv_healthy s) (sv_ready s)
    (sv_startTime s) (sv_collectorStatuses s) (sv_requiredCollectors s) (sv_alertStore s) (sv_rulesProvider s) (sv_rulesReload s)
    (sv_feedback s) (sv_explainer s) (sv_incidents s) (sv_bpfReloader s) (sv_bpfAttached s) (sv_corsAllowedOrigins s)
    (sv_localTuningPath s) o (sv_agentHealth s).
End setters.

(** ** Routes *)
Variant handler :=
| HMetrics | HHealth | HReady | HLive | HPprof (name : gostring) | HDebugState
| HAlerts | HAlertPath | HExportCEF | HFeedbackList | HStatus | HSummary | HRules | HRulesReload
| HIncidents | HIncidentByID | HBPFReload | HTuningExceptions
| HSwaggerUI | HAPIDocs | HOpenAPISpec | HUI | HDashboardRedirect | HGossip.
#[export] Instance handler_eq_dec : EqDecision handler.
Proof. solve_decision. Defined.

Definition RegisterAPIRoutes : list (pattern handler) :=
  [ HandleFunc "/api/v1/alerts" HAlerts; HandleFunc "/api/v1/alerts/" HAlertPath; HandleFunc "/api/v1/alerts/export/cef" HExportCEF;
    HandleFunc "/api/v1/feedback" HFeedbackList; HandleFunc "/api/v1/status" HStatus; HandleFunc "/api/v1/summary" HSummary;
    HandleFunc "/api/v1/rules" HRules; HandleFunc "/api/v1/rules/reload" HRulesReload;
    HandleFunc "/api/v1/incidents" HIncidents; HandleFunc "/api/v1/incidents/" HIncidentByID;
    HandleFunc "/api/v1/bpf/reload" HBPFReload; HandleFunc "/api/v1/tuning/exceptions" HTuningExceptions;
    HandleFunc "/swaggerui/" HSwaggerUI; HandleFunc "/api/docs" HAPIDocs; HandleFunc "/api/openapi.yaml" HOpenAPISpec;
    HandleFunc "/ui/" HUI; HandleFunc "/" HDashboardRedirect ].

Definition pprof_routes : list (pattern handler) :=
  HandleFunc "/debug/pprof/" (HPprof "") ::
  map (fun n => HandleFunc ("/debug/pprof/" +:+ n)%string (HPprof n))
    ["cmdline"; "profile"; "symbol"; "trace"; "allocs"; "block"; "goroutine"; "heap"; "mutex"; "threadcreate"]%string.

Section routes.
Context `{GoLib} {St : Type}.
Definition routes (s : Server St) : list (pattern handler) :=
  [ HandleFunc (sv_metricsPath s) HMetrics; HandleFunc (sv_healthPath s) HHealth;
    HandleFunc (sv_healthPath s +:+ "/ready")%string HReady; HandleFunc (sv_healthPath s +:+ "/live")%string HLive ] ++
  (if sv_pprof s then pprof_routes else []) ++
  (if sv_debug s then [HandleFunc "/debug/state" HDebugState] else []) ++
  RegisterAPIRoutes ++
  (if sv_gossip s then [HandleFunc "/gossip/" HGossip] else []).
End routes.

(** ** Responses *)
Record RuleConditionResponse := mkConditionResponse { rcr_Field : gostring; rcr_Op : gostring; rcr_Values : list gostring }.
Record RuleConditionGroupResponse := mkGroupResponse { rgr_Operator : gostring; rgr_Conditions : list RuleConditionResponse }.
Record RuleAPIResponse := mkRuleResponse {
  rar_ID : gostring; rar_Name : gostring; rar_Description : gostring; rar_EventType : gostring; rar_Severity : gostring;
  rar_Action : gostring; rar_Tags : list gostring; rar_Condition : RuleConditionResponse;
  rar_ConditionGroup : option RuleConditionGroupResponse }.
Record HealthStatus := mkHealthStatus {
  hs_Healthy : bool; hs_Ready : bool; hs_Uptime : Z; hs_Timestamp : Z; hs_RulesLoaded : bool; hs_BPFAttached : bool }.
Record ReadyResponse := mkReady {
  rr_Ready : bool; rr_Collectors : list CollectorStatus; rr_Reason : option gostring; rr_Failed : list gostring;
  rr_FailedRequired : option (list gostring); rr_StoreHealthy : bool }.
Record StatusAPIResponse `{GoLib} := mkStatus {
  sr_Healthy : bool; sr_Ready : bool; sr_Uptime : Z; sr_Timestamp : Z; sr_Collectors : list CollectorStatus; sr_Store : gostring;
  sr_Health : option AgentHealth }.

(** [BError]: the text of [http.Error], without the values some of them
    quote. [BExternal]: written by a handler of
    another package, which is given the request. *)
Inductive body `{GoLib} :=
| BError (msg : gostring) | BText (t : text) | BExternal (h : handler) | BRedirect (to : text) | BEmpty
| BAlerts (l : list Alert) | BAlert (a : Alert) | BExplanation (e : gostring) | BFeedback (r : Feedback.Response)
| BRecords (l : list FeedbackRecord) | BSummary (x : AlertSummary) | BRules (l : list RuleAPIResponse)
| BIncidents (l : list Incident) | BIncident (i : Incident) | BStatus (x : StatusAPIResponse) | BHealth (x : HealthStatus)
| BReady (x : ReadyResponse) | BReload | BBPFReload (ms : Z) | BBPFError (e : gostring) | BTuning (yaml : list RuleTuningOverlay) (persisted : bool).

(** What a call does outside the server. *)
Inductive effect := ReloadRules | ReloadBPF | WriteOverlay (o : list RuleTuningOverlay) | ExportFeedback (l : list FeedbackRecord).

(** What the outside gives during a call: successive readings of the clock,
    the errors of the callbacks and of the write, how a map is walked. *)
Record env := mkEnv {
  en_clk : nat -> Z; en_reloadErr : option gostring; en_bpfErr : option gostring; en_writeErr : option gostring;
  en_collectors : gmap gostring CollectorStatus -> list CollectorStatus; en_incidents : gmap gostring loc -> list (gostring * loc) }.

(** ** Handlers *)
Definition TrimPrefix (s p : text) : text := if text_prefix p s then drop (length p) s else s.
Definition TrimSuffix (s p : text) : text := if text_suffix p s then take (length s - length p) s else s.

Definition set_limit (f : QueryFilters) (n : Z) : QueryFilters :=
  mkFilters (qf_Since f) (qf_Until f) (qf_PIDs f) (qf_Severity f) (qf_RuleIDs f) (qf_Comm f) (qf_PodName f) (qf_Namespace f) (qf_Namespaces f) n (qf_Offset f).
Definition set_since (f : QueryFilters) (t : Z) : QueryFilters :=
  mkFilters t (qf_Until f) (qf_PIDs f) (qf_Severity f) (qf_RuleIDs f) (qf_Comm f) (qf_PodName f) (qf_Namespace f) (qf_Namespaces f) (qf_Limit f) (qf_Offset f).
Definition set_namespaces (f : QueryFilters) (ns : gostring) (l : list gostring) : QueryFilters :=
  mkFilters (qf_Since f) (qf_Until f) (qf_PIDs f) (qf_Severity f) (qf_RuleIDs f) (qf_Comm f) (qf_PodName f) ns l (qf_Limit f) (qf_Offset f).

(** [None]: the requested namespace is outside the scope. *)
Definition applyNamespaceScope (scope : option TokenScope) (f : QueryFilters) : option QueryFilters :=
  match scope with
  | None => Some f
  | Some sc =>
      if decide (ts_Namespaces sc = []) then Some f
      else if negb (bool_decide (qf_Namespace f = ""%string)) then
        if AllowsNamespace sc (qf_Namespace f) then Some f else None
      else if existsb (fun ns => bool_decide (ns = "*"%string)) (ts_Namespaces sc) then Some f
      else match ts_Namespaces sc with
           | [ns] => Some (set_namespaces f ns (qf_Namespaces f))
           | l => Some (set_namespaces f (qf_Namespace f) l)
           end
  end.

Section handlers.
Context `{GoLib} `{!HttpLib} {St : Type} `{!AlertStore St}.
Abbreviation reply := (Z * body)%type.

Definition notAllowed : reply := (405, BError "Method not allowed").
Definition noStore : reply := (503, BError "Alert store not configured").
Definition internalError : reply := (500, BError "Internal server error").

Definition parseSeverityList (s : gostring) : list Severity :=
  omap (fun part =>
      let p := ToLower (str (TrimSpace part)) in
      if decide (p = "warning"%string) then Some SeverityWarning
      else if decide (p = "critical"%string) then Some SeverityCritical else None)
    (text_split "," [] (txt s)).

(** [time.Now().Add(-d)] for a parameter that holds a duration. *)
Definition ago (now : Z) (s : gostring) : Z :=
  if decide (s = ""%string) then zero_time
  else match ParseDuration s with Some d => time_Add now (neg_duration d) | None => zero_time end.

Definition parseQueryFilters (clk : nat -> Z) (r : request) : QueryFilters :=
  let q name := Get name (hr_Query r) in
  mkFilters (ago (clk 0%nat) (q "since"%string)) (ago (clk 1%nat) (q "until"%string))
    (match ParseUint32 (q "pid"%string) with Some pid => [pid] | None => [] end)
    (if decide (q "severity"%string = ""%string) then [] else parseSeverityList (q "severity"%string))
    (if decide (q "rule_id"%string = ""%string) then [] else map str (text_split "," [] (txt (q "rule_id"%string))))
    (q "comm"%string) (q "pod"%string) (q "namespace"%string) []
    (default 0 (Atoi (q "limit"%string))) (default 0 (Atoi (q "offset"%string))).

(** The query both list handlers make. *)
Definition scoped_query (s : Server St) (e : env) (r : request) (scope : option TokenScope) (answer : list Alert -> reply) : reply :=
  if negb (bool_decide (hr_Method r = "GET"%string)) then notAllowed else
  match sv_alertStore s with
  | None => noStore
  | Some st =>
      match applyNamespaceScope scope (parseQueryFilters (en_clk e) r) with
      | None => (403, BError "Forbidden: namespace not in token scope")
      | Some restricted => match st_Query st restricted with None => internalError | Some alerts => answer alerts end
      end
  end.

Definition handleAlerts (s : Server St) (e : env) (r : request) (scope : option TokenScope) : reply :=
  scoped_query s e r scope (fun alerts => (200, BAlerts alerts)).
Definition handleExportCEF (s : Server St) (e : env) (r : request) (scope : option TokenScope) : reply :=
  scoped_query s e r scope (fun alerts => (200, BText (export_lines alerts))).

Definition explainAlert (s : Server St) (alertID : gostring) : reply :=
  match sv_alertStore s, sv_explainer s with
  | None, _ => noStore
  | _, None => (501, BError "Explainer not configured")
  | Some st, Some explain =>
      match st_QueryByID st alertID with
      | None => (404, BError "Alert not found")
      | Some alert => match explain alert with None => internalError | Some x => (200, BExplanation x) end
      end
  end.

(** A failed export of the feedback file does not change the answer. *)
Definition submitAlertFeedback (s : Server St) (e : env) (r : request) (alertID : gostring) : Server St * list effect * reply :=
  match sv_alertStore s, sv_feedback s with
  | None, _ => (s, [], noStore)
  | _, None => (s, [], (501, BError "Feedback not configured"))
  | Some st, Some fm =>
      match st_QueryByID st alertID with
      | None => (s, [], (404, BError "Alert not found"))
      | Some alert =>
          match decode_feedback (hr_Body r) with
          | None => (s, [], (400, BError "Invalid request body"))
          | Some (verdict, reason) =>
              if negb (bool_decide (verdict = VerdictFalsePositive)) && negb (bool_decide (verdict = VerdictTruePositive))
              then (s, [], (400, BError "Invalid verdict: must be false_positive or true_positive"))
              else
                let '(fm, resp, export) := Feedback.Submit fm (en_clk e 0%nat) alert verdict reason in
                (SetFeedbackManager (Some fm) s, match export with Some l => [ExportFeedback l] | None => [] end, (200, BFeedback resp))
          end
      end
  end.

Definition alerts_prefix : text := txt "/api/v1/alerts/".
Definition handleAlertPath (s : Server St) (e : env) (r : request) : Server St * list effect * reply :=
  let path := TrimPrefix (hr_Path r) alerts_prefix in
  let pure x : Server St * list effect * reply := (s, [], x) in
  if bool_decide (path = []) || bool_decide (path = hr_Path r) then pure (400, BError "Invalid path")
  else if bool_decide (hr_Method r = "POST"%string) && text_suffix (txt "/feedback") path then
    let alertID := TrimSuffix path (txt "/feedback") in
    if decide (alertID = []) then pure (400, BError "Invalid alert ID") else submitAlertFeedback s e r (str alertID)
  else if bool_decide (hr_Method r = "GET"%string) && text_suffix (txt "/explain") path then
    let alertID := TrimSuffix path (txt "/explain") in
    if decide (alertID = []) then pure (400, BError "Invalid alert ID") else pure (explainAlert s (str alertID))
  else if bool_decide (hr_Method r = "GET"%string) && bool_decide (slash ∉ path) then
    match sv_alertStore s with
    | None => pure noStore
    | Some st => match st_QueryByID st (str path) with
                 | None => pure (404, BError "Alert not found")
                 | Some alert => pure (200, BAlert alert)
                 end
    end
  else pure notAllowed.

Definition handleFeedbackList (s : Server St) (r : request) : reply :=
  if negb (bool_decide (hr_Method r = "GET"%string)) then notAllowed else
  match sv_feedback s with
  | None => (501, BError "Feedback not configured")
  | Some fm => (200, BRecords (fm_records fm))
  end.

Definition handleStatus (s : Server St) (e : env) (r : request) : reply :=
  if negb (bool_decide (hr_Method r = "GET"%string)) then notAllowed else
  (200, BStatus (mkStatus _ (sv_healthy s) (sv_ready s) (time_Sub (en_clk e 0%nat) (sv_startTime s)) (en_clk e 1%nat)
    (en_collectors e (sv_collectorStatuses s))
    (match sv_alertStore s with None => "not configured" | Some st => if st_Healthy st then "healthy" else "unhealthy" end)%string
    (sv_agentHealth s))).

Definition set_truncated (x : AlertSummary) : AlertSummary :=
  mkSummary (su_Total x) (su_BySeverity x) (su_TopRules x) (su_Timeline x) true.
Definition summaryFallbackCap : Z := 5000.
Definition summarize (st : St) (f : QueryFilters) : option AlertSummary :=
  match st_Summarize with
  | Some sum => sum st (set_limit f 0)
  | None =>
      let f := if qf_Limit f =? 0 then set_limit f summaryFallbackCap else f in
      alerts ← st_Query st f;
      let summary := SummarizeAlerts alerts in
      Some (if (0 <? qf_Limit f) && (qf_Limit f <=? Z.of_nat (length alerts)) then set_truncated summary else summary)
  end.

Definition handleSummary (s : Server St) (e : env) (r : request) (scope : option TokenScope) : reply :=
  if negb (bool_decide (hr_Method r = "GET"%string)) then notAllowed else
  match sv_alertStore s with
  | None => noStore
  | Some st =>
      let filters := parseQueryFilters (en_clk e) r in
      let filters := if time_IsZero (qf_Since filters) && bool_decide (Get "since" (hr_Query r) = ""%string)
        then set_since filters (time_Add (en_clk e 2%nat) (- (24 * Hour))) else filters in
      match applyNamespaceScope scope filters with
      | None => (403, BError "Forbidden: namespace not in token scope")
      | Some restricted => match summarize st restricted with None => internalError | Some x => (200, BSummary x) end
      end
  end.

(** *** Rules *)
Definition condition_response (c : RuleCondition) : RuleConditionResponse :=
  mkConditionResponse (rc_Field c) (rc_Op c) (rc_Values c).
Definition convertConditionGroupToAPI (g : option RuleConditionGroup) : option RuleConditionGroupResponse :=
  (fun g => mkGroupResponse (rg_Operator g) (map condition_response (rg_Conditions g))) <$> g.
Definition convertRuleToAPI (rule : Rule) : RuleAPIResponse :=
  let eventTypeStr :=
    if r_EventType rule =? EventSyscall then "syscall"%string
    else if r_EventType rule =? EventTCPConnect then "network"%string
    else if r_EventType rule =? EventFileAccess then "file"%string else "unknown"%string in
  mkRuleResponse (r_ID rule) (r_Name rule) (r_Description rule) eventTypeStr (r_Severity rule) (r_Action rule) (r_Tags rule)
    (condition_response (r_Condition rule)) (convertConditionGroupToAPI (r_ConditionGroup rule)).

Definition getRules (s : Server St) : list Rule := default [] (sv_rulesProvider s).
Definition handleRules (s : Server St) (r : request) : reply :=
  if negb (bool_decide (hr_Method r = "GET"%string)) then notAllowed
  else (200, BRules (map convertRuleToAPI (getRules s))).

Definition handleRulesReload (s : Server St) (e : env) (r : request) : list effect * reply :=
  if negb (bool_decide (hr_Method r = "POST"%string)) then ([], notAllowed)
  else if negb (sv_rulesReload s) then ([], (404, BError "Rule reload not configured"))
  else ([ReloadRules],
    match en_reloadErr e with Some err => (500, BError ("Failed to reload rules: " +:+ err)) | None => (202, BReload) end).

(** *** Incidents *)
Definition handleIncidents (s : Server St) (e : env) (r : request) (scope : option TokenScope) : reply :=
  if negb (bool_decide (hr_Method r = "GET"%string)) then notAllowed else
  match sv_incidents s with
  | None => (503, BError "Incident tracking not configured")
  | Some t =>
      let namespace := Get "namespace" (hr_Query r) in
      let status := Get "status" (hr_Query r) in
      let limit := match Atoi (Get "limit" (hr_Query r)) with Some n => if 0 <? n then n else 0 | None => 0 end in
      let scoped :=
        match scope with
        | Some sc =>
            match ts_Namespaces sc with
            | [] => Some namespace
            | l => if negb (bool_decide (namespace = ""%string)) then if AllowsNamespace sc namespace then Some namespace else None
                   else match l with [ns] => Some (if decide (ns = "*"%string) then namespace else ns) | _ => Some namespace end
            end
        | None => Some namespace
        end in
      match scoped with
      | None => (403, BError "Forbidden: namespace not in token scope")
      | Some namespace => (200, BIncidents (Incidents.GetAll (en_incidents e) namespace status limit (en_clk e 0%nat) t))
      end
  end.

Definition handleIncidentByID (s : Server St) (e : env) (r : request) : reply :=
  if negb (bool_decide (hr_Method r = "GET"%string)) then notAllowed else
  match sv_incidents s with
  | None => (503, BError "Incident tracking not configured")
  | Some t =>
      let id := TrimPrefix (hr_Path r) (txt "/api/v1/incidents/") in
      if decide (id = []) then (400, BError "Missing incident ID")
      else match Incidents.GetByID (str id) (en_clk e 0%nat) t with
           | None => (404, BError "Incident not found")
           | Some inc => (200, BIncident inc)
           end
  end.

(** *** Live update *)
Definition not_admin (scope : option TokenScope) : bool :=
  match scope with Some sc => negb (bool_decide (ts_Role sc = RoleAdmin)) | None => false end.
Definition handleBPFReload (s : Server St) (e : env) (r : request) (scope : option TokenScope) : list effect * reply :=
  if negb (bool_decide (hr_Method r = "POST"%string)) then ([], notAllowed)
  else if not_admin scope then ([], (403, BError "Forbidden: admin role required"))
  else if negb (sv_bpfReloader s) then ([], (503, BError "BPF live update not configured"))
  else ([ReloadBPF],
    match en_bpfErr e with
    | Some err => (500, BBPFError err)
    | None => (200, BBPFReload (Z.quot (time_Sub (en_clk e 1%nat) (en_clk e 0%nat)) 1000000))
    end).

(** *** Generated exceptions *)
Record TuningExceptionRequest := mkTuningRequest {
  tr_RuleID : gostring; tr_Name : gostring; tr_Comm : gostring; tr_PathPrefix : gostring; tr_Persist : bool }.

Definition commFieldForEventType (eventType : Z) : option gostring :=
  if eventType =? EventSyscall then Some "comm"%string
  else if (eventType =? EventTCPConnect) || (eventType =? EventFileAccess) then Some "proc.comm"%string else None.

Definition buildException (req : TuningExceptionRequest) (eventType : Z) : option RuleException :=
  field ← commFieldForEventType eventType;
  let commCond := condition field "equals" [tr_Comm req] in
  Some (if negb (bool_decide (tr_PathPrefix req = ""%string)) && (eventType =? EventFileAccess)
        then mkException (tr_Name req) (condition "" "" [])
               (Some (mkGroup "and" [commCond; condition "file.path" "prefix" [tr_PathPrefix req]] []))
        else mkException (tr_Name req) commCond None).

(** The exception is appended to the first entry of its rule. *)
Fixpoint add_exception (ruleID : gostring) (exc : RuleException) (l : list RuleTuningOverlay) : list RuleTuningOverlay :=
  match l with
  | [] => [mkOverlay ruleID [exc]]
  | o :: l => if decide (ov_RuleID o = ruleID) then mkOverlay ruleID (ov_Exceptions o ++ [exc]) :: l else o :: add_exception ruleID exc l
  end.

Variant persist_error := PersistLoad (e : overlay_error) | PersistInvalid (e : overlay_error) | PersistWrite (e : gostring) | PersistPanic.

(** The answer, with the overlay that was written; a reload follows a write
    and its error is only logged. *)
Definition persistTuningException (s : Server St) (e : env) (ruleID : gostring) (exc : RuleException) :
  Server St * list effect * (persist_error + bool) :=
  let path := sv_localTuningPath s in
  if decide (path = ""%string) then (s, [], inr false) else
  match LoadTuningOverlay path (fun _ => sv_overlay s) with
  | Panic => (s, [], inl PersistPanic)
  | Err err => (s, [], inl (PersistLoad err))
  | Ok overlay =>
      let overlay := add_exception ruleID exc (default [] overlay) in
      match snd (ApplyTuningOverlay (getRules s) (Some overlay)) with
      | Panic => (s, [], inl PersistPanic)
      | Err err => (s, [], inl (PersistInvalid err))
      | Ok _ =>
          match en_writeErr e with
          | Some err => (s, [], inl (PersistWrite err))
          | None => (write_overlay (FileOverlay overlay) s, WriteOverlay overlay :: (if sv_rulesReload s then [ReloadRules] else []), inr true)
          end
      end
  end.

Definition trimmed (s : gostring) : gostring := str (TrimSpace (txt s)).
Definition handleTuningExceptions (s : Server St) (e : env) (r : request) (scope : option TokenScope) : Server St * list effect * reply :=
  let pure x : Server St * list effect * reply := (s, [], x) in
  if negb (bool_decide (hr_Method r = "POST"%string)) then pure notAllowed
  else if not_admin scope then pure (403, BError "Forbidden: admin role required to persist exceptions")
  else match decode_tuning (hr_Body r) with
  | None => pure (400, BError "Invalid request body")
  | Some (ruleID, name, comm, pathPrefix, persist) =>
      let req := mkTuningRequest (trimmed ruleID) (trimmed name) (trimmed comm) pathPrefix persist in
      if bool_decide (tr_RuleID req = ""%string) || bool_decide (tr_Name req = ""%string) || bool_decide (tr_Comm req = ""%string)
      then pure (400, BError "rule_id, name, and comm are required")
      else match list_find (fun rule => r_ID rule = tr_RuleID req) (getRules s) with
      | None => pure (404, BError "rule not found")
      | Some (_, target) =>
          match buildException req (r_EventType target) with
          | None => pure (400, BError "exception generation is not supported for this rule's event type")
          | Some exc =>
              let yaml := [mkOverlay (tr_RuleID req) [exc]] in
              if negb (tr_Persist req) then pure (200, BTuning yaml false) else
              match persistTuningException s e (tr_RuleID req) exc with
              | (s, eff, inl _) => (s, eff, (500, BError "Failed to persist exception"))
              | (s, eff, inr persisted) => (s, eff, (200, BTuning yaml persisted))
              end
          end
      end
  end.

(** *** Probes *)
Definition getHealthStatus (s : Server St) (e : env) : HealthStatus :=
  mkHealthStatus (sv_healthy s) (sv_ready s) (time_Sub (en_clk e 0%nat) (sv_startTime s)) (en_clk e 1%nat)
    (match sv_rulesProvider s with Some l => 0 <? Z.of_nat (length l) | None => false end) (sv_bpfAttached s).
Definition handleHealth (s : Server St) (e : env) : reply :=
  (if sv_healthy s then 200 else 503, BHealth (getHealthStatus s e)).

Definition required_failed (required : gset gostring) (statuses : list CollectorStatus) : list gostring :=
  cs_Name <$> filter (fun c => cs_Healthy c = false /\ (required = ∅ \/ cs_Name c ∈ required)) statuses.
Definition store_healthy (s : Server St) : bool := match sv_alertStore s with Some st => st_Healthy st | None => true end.
Definition handleReady (s : Server St) (e : env) : reply :=
  let statuses := en_collectors e (sv_collectorStatuses s) in
  let failedRequired := required_failed (sv_requiredCollectors s) statuses in
  if sv_ready s && bool_decide (failedRequired = []) && store_healthy s
  then (200, BReady (mkReady true statuses None [] None true))
  else (503, BReady (mkReady false statuses (if sv_ready s then None else Some "server not ready"%string) failedRequired
    (if decide (failedRequired = [] \/ sv_requiredCollectors s = ∅) then None else Some failedRequired) (store_healthy s))).

Definition handleLive (s : Server St) : reply :=
  if sv_healthy s then (200, BText (txt "alive" ++ [LF])) else (503, BText (txt "unhealthy" ++ [LF])).

Definition AllCollectorsHealthy (s : Server St) : bool :=
  bool_decide (map_Forall (fun _ c => cs_Healthy c = true) (sv_collectorStatuses s)).
Definition GetCollectorStatuses (s : Server St) (e : env) : list CollectorStatus := en_collectors e (sv_collectorStatuses s).

Definition handleDashboardRedirect (r : request) : reply :=
  if decide (hr_Path r = [slash]) then (302, BRedirect (txt "/ui/")) else (404, BError "404 page not found").

(** ** Serving a request *)
Definition run_handler (h : handler) (s : Server St) (e : env) (r : request) (scope : option TokenScope) : Server St * list effect * reply :=
  let pure x : Server St * list effect * reply := (s, [], x) in
  match h with
  | HHealth => pure (handleHealth s e) | HReady => pure (handleReady s e) | HLive => pure (handleLive s)
  | HAlerts => pure (handleAlerts s e r scope) | HAlertPath => handleAlertPath s e r
  | HExportCEF => pure (handleExportCEF s e r scope) | HFeedbackList => pure (handleFeedbackList s r)
  | HStatus => pure (handleStatus s e r) | HSummary => pure (handleSummary s e r scope) | HRules => pure (handleRules s r)
  | HRulesReload => let '(eff, x) := handleRulesReload s e r in (s, eff, x)
  | HIncidents => pure (handleIncidents s e r scope) | HIncidentByID => pure (handleIncidentByID s e r)
  | HBPFReload => let '(eff, x) := handleBPFReload s e r scope in (s, eff, x)
  | HTuningExceptions => handleTuningExceptions s e r scope
  | HDashboardRedirect => pure (handleDashboardRedirect r)
  | HMetrics | HPprof _ | HDebugState | HSwaggerUI | HAPIDocs | HOpenAPISpec | HUI | HGossip => pure (200, BExternal h)
  end.

Definition guard_decision (g : guard) (r : request) : decision :=
  match g with Unguarded => Pass None | TwoRoles v a => RBACMiddleware v a r | Tokens l => MultiTenantRBACMiddleware l r end.

(** What becomes of a request before any handler runs. *)
Inductive routed := Answered (code : Z) (b : body) | Dispatched (h : handler) (scope : option TokenScope).
Definition route (s : Server St) (r : request) : routed :=
  if snd (corsMiddleware (sv_corsAllowedOrigins s) r) then Answered 204 BEmpty else
  match guard_decision (sv_guard s) r with
  | Answer code msg => Answered code (BError msg)
  | Pass scope =>
      match findHandler (routes s) (hr_Method r) (hr_Escaped r) (hr_Path r) with
      | FoundRedirect to => Answered 301 (BRedirect to)
      | FoundNothing => Answered 404 (BError "404 page not found")
      | FoundHandler h => Dispatched h scope
      end
  end.

(** The server after the request, what the call did outside, and the answer:
    the CORS headers, the status and the body. *)
Definition ServeHTTP (s : Server St) (e : env) (r : request) : Server St * list effect * (headers * reply) :=
  let h := fst (corsMiddleware (sv_corsAllowedOrigins s) r) in
  match route s r with
  | Answered code b => (s, [], (h, (code, b)))
  | Dispatched hd scope =>
      let '(s, eff, x) := run_handler hd s e r scope in
      (s, eff, ((h ++ match hd with HOpenAPISpec => applyCORSHeaders (sv_corsAllowedOrigins s) r | _ => [] end)%list, x))
  end.
End handlers.
