(* ===== verification/ApiCorrect.v ===== *)
(** * The HTTP server keeps its promises

    Theorems about [Api]: a request reaches a handler that is not public only
    with a configured token whose role permits it; what changes the server or
    acts outside it needs the admin role; the alert endpoints that filter
    answer a scoped token from its own namespaces only, for every store that
    keeps the laws of the interface, and the in-memory store keeps them; a
    generated exception is added to the overlay and to nothing else; and two
    things the composition does not do, cross-tenant reads by identifier and
    gossip behind the token check. *)
From Stdlib Require Import Ascii.
From S2P Require Import Prelude GoBytes GoText Types Fields RuleTypes Rules RuleLoader TraceCtx MemStore AlertSummary Incidents Feedback HttpMux Auth Cef Api Gossip.

(** ** The handlers behind the token check *)
Definition is_private (h : handler) : bool :=
  match h with
  | HMetrics | HHealth | HReady | HLive | HSwaggerUI | HAPIDocs | HOpenAPISpec | HUI | HDashboardRedirect => false
  | _ => true
  end.

Definition pattern_text {H} (p : pattern H) : text := slash :: join_with [slash] (pt_lits p).

(** The registered paths of the private handlers are outside the public
    tables. *)
Lemma private_patterns :
  Forall (fun p => is_private (pt_handler p) = true -> pt_lits p <> [] /\ private_path (pattern_text p) = true)
    (pprof_routes ++ [HandleFunc "/debug/state" HDebugState] ++ RegisterAPIRoutes ++ [HandleFunc "/gossip/" HGossip]).
Proof.
  apply Forall_forall. intros p Hp Hh. set (ps := _ ++ _) in Hp.
  assert (forallb (fun p => negb (is_private (pt_handler p)) || negb (bool_decide (pt_lits p = [])) && private_path (pattern_text p)) ps = true) as Hc
    by by vm_compute.
  rewrite forallb_forall in Hc. apply list_elem_of_In, Hc in Hp. rewrite Hh in Hp. cbn in Hp. apply andb_true_iff in Hp as [Hn Hp].
  split; [|done]. by case_bool_decide.
Qed.

Lemma text_split_avoids c cur s p : c ∉ cur -> p ∈ text_split c cur s -> c ∉ p.
Proof.
  revert cur. induction s as [|d s IH]; intros cur Hc; cbn.
  { rewrite list_elem_of_singleton. by intros ->. }
  case_decide as Hd.
  - rewrite elem_of_cons. intros [->|Hp]; [done|]. apply (IH []); [by intros ?%elem_of_nil|done].
  - apply IH. rewrite elem_of_app, list_elem_of_singleton. intros [?|?]; congruence.
Qed.
Lemma HandleFunc_lits {H} path (h : H) : [slash] ∉ pt_lits (HandleFunc path h).
Proof.
  assert ([slash] ∉ text_split slash [] (drop 1 (txt path))) as Hn.
  { intros Hin. apply text_split_avoids in Hin; [|by intros ?%elem_of_nil]. apply Hin. by left. }
  unfold HandleFunc. case_bool_decide as Hl; cbn [pt_lits]; [|done]. intros Hin. apply Hn.
  apply last_Some in Hl as [l Hl]. rewrite Hl in *. rewrite removelast_last in Hin. set_solver.
Qed.

Section access.
Context `{GoLib} `{!HttpLib} {St : Type} `{!AlertStore St}.
Implicit Types (s : Server St) (r : request).

Lemma routes_handled s : Forall (fun p => exists path h, p = HandleFunc path h) (routes s).
Proof.
  unfold routes, pprof_routes, RegisterAPIRoutes.
  assert (forall path h, exists path' h', HandleFunc path h = HandleFunc path' h' :> pattern handler) as Hx by (intros path h; by exists path, h).
  repeat apply Forall_app_2; repeat case_match; cbn [map]; repeat (apply Forall_cons; split; [apply Hx|]); by apply Forall_nil.
Qed.

Lemma private_route_pattern s p : p ∈ routes s -> is_private (pt_handler p) = true ->
  pt_lits p <> [] /\ private_path (pattern_text p) = true.
Proof.
  intros Hp Hh. pose proof private_patterns as Hall. rewrite Forall_forall in Hall. apply Hall; [|done].
  assert (forall path h, is_private h = false -> p <> HandleFunc path h) as Hc.
  { intros path h Hph ->. unfold HandleFunc in Hh. case_bool_decide; cbn in Hh; congruence. }
  unfold routes in Hp. apply elem_of_app in Hp as [Hp|Hp].
  { rewrite !elem_of_cons, elem_of_nil in Hp. destruct Hp as [Hp|[Hp|[Hp|[Hp|[]]]]]; by apply Hc in Hp. }
  rewrite !(elem_of_app pprof_routes), (elem_of_app [_]), (elem_of_app RegisterAPIRoutes).
  apply elem_of_app in Hp as [Hp|Hp]; [left; by destruct (sv_pprof s); [|apply elem_of_nil in Hp]|right].
  apply elem_of_app in Hp as [Hp|Hp]; [left; by destruct (sv_debug s); [|apply elem_of_nil in Hp]|right].
  apply elem_of_app in Hp as [Hp|Hp]; [by left|right]. by destruct (sv_gossip s); [|apply elem_of_nil in Hp].
Qed.

(** A dispatched private handler means that the decoded path lies outside the
    public tables. *)
Lemma dispatched_private s r h : path_ok r -> is_private h = true ->
  findHandler (routes s) (hr_Method r) (hr_Escaped r) (hr_Path r) = FoundHandler h ->
  is_health (hr_Path r) = false /\ isPublicAsset (hr_Path r) = false.
Proof.
  intros [Hu Hesc] Hh Hf. destruct Hesc as [He|[rest He]]; rewrite He in *.
  - apply findHandler_match in Hf as (p & Hp & <- & Hm). destruct (private_route_pattern s p Hp Hh) as [Hne _].
    unfold pattern_matches in Hm. cbn in Hm. destruct (pt_multi p); [by rewrite andb_false_r in Hm|]. by apply bool_decide_eq_true in Hm.
  - apply served_prefix in Hf as (p & Hp & <- & [Hl|(t & -> & _)]); [| |done|].
    + by destruct (private_route_pattern s p Hp Hh).
    + destruct (private_route_pattern s p Hp Hh) as [_ Hpr]. exact (private_not_public (pattern_text p) t Hpr).
    + eapply Forall_impl; [apply routes_handled|]. intros q (path & h0 & ->). apply HandleFunc_lits.
Qed.

(** The tokens of a guarded server. *)
Definition guard_tokens (g : guard) : option (list NamespacedToken) :=
  match g with Unguarded => None | TwoRoles v a => Some (legacy_tokens v a) | Tokens l => Some l end.
Lemma guard_decision_tokens g l r : guard_tokens g = Some l -> guard_decision g r = MultiTenantRBACMiddleware l r.
Proof. destruct g; intros; simplify_eq/=; [apply rbac_as_tokens|done]. Qed.

Lemma route_authorised s r l h scope : path_ok r -> guard_tokens (sv_guard s) = Some l ->
  route s r = Dispatched h scope -> is_private h = true -> exists sc, scope = Some sc /\ authorised l r sc.
Proof.
  intros Hok Hg. unfold route. destruct (corsMiddleware _ _).2; [done|]. rewrite (guard_decision_tokens _ _ _ Hg).
  destruct (MultiTenantRBACMiddleware l r) as [|sc] eqn:Hm; [done|].
  destruct (findHandler _ _ _ _) as [h'| |] eqn:Hf; intros He; simplify_eq. intros Hp.
  destruct (dispatched_private s r h Hok Hp Hf) as [H1 H2].
  apply multitenant_pass in Hm as [[Hpub _]|Hm]; [by rewrite H1, H2 in Hpub|done].
Qed.

(** ** What changes the server *)
Lemma handler_writes h s e r scope s' eff x :
  run_handler h s e r scope = (s', eff, x) -> (s', eff) <> (s, []) -> is_private h = true /\ hr_Method r = "POST"%string.
Proof.
  destruct h; cbn [run_handler is_private]; intros Hr Hn; simplify_eq/=; try done; (split; [done|]); revert Hr;
    unfold handleAlertPath, handleRulesReload, handleBPFReload, handleTuningExceptions;
    destruct (decide (hr_Method r = "POST"%string)) as [|Hm]; try done; rewrite ?(bool_decide_eq_false_2 _ Hm); cbn [negb andb];
    intros Hr; repeat case_match; simplify_eq; done.
Qed.

Lemma private_write s e r l s' eff x : path_ok r -> guard_tokens (sv_guard s) = Some l ->
  ServeHTTP s e r = (s', eff, x) -> (s', eff) <> (s, []) -> exists sc, authorised l r sc /\ ts_Role sc = RoleAdmin.
Proof.
  intros Hok Hg. unfold ServeHTTP. destruct (route s r) as [|h scope] eqn:Hr; [intros; simplify_eq|].
  destruct (run_handler h s e r scope) as [[s1 eff1] x1] eqn:Hh. intros He Hn. simplify_eq.
  destruct (handler_writes _ _ _ _ _ _ _ _ Hh Hn) as [Hp Hm].
  destruct (route_authorised s r l h scope Hok Hg Hr Hp) as (sc & -> & Ha). exists sc. split; [done|].
  destruct (au_role _ _ _ Ha) as [|Hv]; [done|]. apply viewer_reads in Hv. rewrite Hm in Hv. by destruct Hv.
Qed.

(** Claim C3. Access control of the whole server. On a server with a token
    guard, whatever the method, the escapes and the dots in the path: a
    handler outside the public ones (probes, static assets, documentation,
    metrics) runs only for a request that presents a configured token, with
    the scope of the first token of that text, and only if that token is an
    admin or the request is a GET or HEAD under the viewer paths; and a
    request that changes the server or acts outside it (feedback, reloads, the
    tuning overlay) presents an admin token. *)
Theorem requests_authorised s e r l :
  path_ok r -> guard_tokens (sv_guard s) = Some l ->
  (forall h scope, route s r = Dispatched h scope -> is_private h = true -> exists sc, scope = Some sc /\ authorised l r sc) /\
  (forall s' eff x, ServeHTTP s e r = (s', eff, x) -> (s', eff) <> (s, []) -> exists sc, authorised l r sc /\ ts_Role sc = RoleAdmin).
Proof.
  intros Hok Hg. split.
  - intros h scope Hr Hp. by apply (route_authorised s r l h scope).
  - intros s' eff x Hs Hn. by apply (private_write s e r l s' eff x).
Qed.

(** A deployment with authentication enabled gets a guarded server, with
    generated tokens if it configures none. *)
Lemma deployment_guarded mp hp pp dbg cfg gen_admin gen_viewer viewer admin tokens now o :
  as_Enabled cfg = true -> (forall t, gen_admin = Some t -> t <> ""%string) ->
  collect_tokens gen_admin gen_viewer cfg = Some (viewer, admin, tokens) ->
  guard_tokens (sv_guard (NewServerWithMultiTenant (St := St) mp hp pp dbg tokens viewer admin true now o)) = Some (legacy_tokens viewer admin ++ tokens).
Proof.
  intros He Hgen. unfold collect_tokens. rewrite He. cbn [andb].
  set (adm := if decide _ then _ else _). destruct (token_or gen_admin _ adm) as [a|] eqn:Ha; [|done]. cbn [mbind option_bind].
  destruct (token_or gen_viewer _ _) as [v|] eqn:Hv; [|done]. cbn [mbind option_bind]. intros [= <- <- <-].
  unfold NewServerWithMultiTenant, new_server. cbn [sv_guard andb]. rewrite (proj2 (Z.ltb_lt _ _)); [done|].
  rewrite length_app, length_map. destruct (as_Tokens cfg) as [|t l]; [|cbn [length]; lia].
  assert (a <> ""%string) as Hne.
  { unfold token_or in Ha. case_bool_decide; cbn [andb] in Ha; [|done]. case_bool_decide; [by apply Hgen|congruence]. }
  unfold legacy_tokens. rewrite decide_False by done. rewrite length_app. cbn. lia.
Qed.

(** ** Namespaces *)

(** A scope that names its namespaces. *)
Definition confined (sc : TokenScope) : Prop :=
  ts_Namespaces sc <> [] /\ "*"%string ∉ ts_Namespaces sc /\ ts_Namespaces sc <> [""%string].
Definition in_scope (sc : TokenScope) (a : Alert) : Prop := AllowsNamespace sc (en_Namespace (al_Enrichment a)) = true.

Lemma allows_elem sc ns : ts_Namespaces sc <> [] -> "*"%string ∉ ts_Namespaces sc ->
  AllowsNamespace sc ns = true <-> ns ∈ ts_Namespaces sc.
Proof.
  intros Hne Hw. unfold AllowsNamespace. destruct (ts_Namespaces sc) as [|n l] eqn:E; [done|]. rewrite existsb_exists.
  setoid_rewrite orb_true_iff. setoid_rewrite bool_decide_eq_true. setoid_rewrite <- list_elem_of_In. split.
  - intros (x & Hx & [-> | -> ]); done.
  - intros Hx. exists ns. auto.
Qed.

Lemma matches_namespace a f : matchesFilters ToLower a f = true -> namespace_ok f (en_Namespace (al_Enrichment a)) = true.
Proof. unfold matchesFilters. rewrite !andb_true_iff. by intros [_ ?]. Qed.

(** The restricted filters select alerts of the scope only. *)
Lemma scope_filters sc f f' a : confined sc -> qf_Namespaces f = [] -> applyNamespaceScope (Some sc) f = Some f' ->
  matchesFilters ToLower a f' = true -> in_scope sc a.
Proof.
  intros (Hne & Hw & He) Hf Ha Hm. apply matches_namespace in Hm. unfold in_scope. rewrite allows_elem by done.
  unfold applyNamespaceScope in Ha. rewrite decide_False in Ha by done.
  destruct (decide (qf_Namespace f = ""%string)) as [Hns|Hns].
  - rewrite bool_decide_eq_true_2 in Ha by done. cbn [negb] in Ha.
    destruct (existsb _ _) eqn:Hx.
    { apply existsb_exists in Hx as (w & Hin & Hb). apply bool_decide_eq_true in Hb as ->. by apply list_elem_of_In in Hin. }
    unfold namespace_ok in Hm. destruct (ts_Namespaces sc) as [|n [|n2 l]] eqn:E; [done| |]; simplify_eq/=.
    + rewrite Hf in Hm. apply orb_true_iff in Hm as [Hm|Hm]; apply bool_decide_eq_true in Hm; [by subst|]. rewrite Hm. by left.
    + rewrite !orb_true_iff, existsb_exists in Hm. destruct Hm as [Hm|[Hm|(y & Hy & Hm)]]; apply bool_decide_eq_true in Hm; rewrite Hm; [by left|by right; left|].
      right; right. by apply list_elem_of_In.
  - rewrite bool_decide_eq_false_2 in Ha by done. cbn [negb] in Ha. destruct (AllowsNamespace sc (qf_Namespace f)) eqn:Hal; simplify_eq.
    apply allows_elem in Hal; [|done..]. unfold namespace_ok in Hm. rewrite Hf in Hm.
    apply orb_true_iff in Hm as [Hm|Hm]; apply bool_decide_eq_true in Hm; congruence.
Qed.

Section confinement.
Context `{!StoreLaws St ToLower}.

(** What a body tells about alerts: each is in scope. *)
Definition body_in_scope (sc : TokenScope) (b : body) : Prop :=
  match b with
  | BAlerts l => Forall (in_scope sc) l
  | BText t => exists l, Forall (in_scope sc) l /\ t = export_lines l
  | BSummary x => exists l, Forall (in_scope sc) l /\ (x = SummarizeAlerts l \/ x = set_truncated (SummarizeAlerts l))
  | BError _ => True
  | _ => False
  end.

Lemma scoped_query_in_scope s st e r sc answer : confined sc -> sv_alertStore s = Some st -> st_ok st ->
  (forall l, Forall (in_scope sc) l -> body_in_scope sc (answer l).2) -> body_in_scope sc (scoped_query s e r (Some sc) answer).2.
Proof.
  intros Hc Hs Hok Ha. unfold scoped_query. destruct (negb _); [done|]. rewrite Hs.
  destruct (applyNamespaceScope _ _) as [f|] eqn:Hf; [|done]. destruct (st_Query st f) as [l|] eqn:Hq; [|done].
  apply Ha. pose proof (st_Query_matches st f l Hok Hq) as Hm. eapply Forall_impl; [exact Hm|]. cbn.
  intros a. by apply (scope_filters sc (parseQueryFilters (en_clk e) r) f).
Qed.

Lemma summary_in_scope s st e r sc : confined sc -> sv_alertStore s = Some st -> st_ok st ->
  body_in_scope sc (handleSummary s e r (Some sc)).2.
Proof.
  intros Hc Hs Hok. unfold handleSummary. destruct (negb _); [done|]. rewrite Hs.
  set (f0 := if _ : bool then _ else _). assert (qf_Namespaces f0 = []) as Hns by (subst f0; by case_match). clearbody f0.
  destruct (applyNamespaceScope _ _) as [f|] eqn:Hf; [|done].
  assert (forall n a, matchesFilters ToLower a (set_limit f n) = true -> in_scope sc a) as Hin.
  { intros n a Hm. eapply (scope_filters sc f0 f); [done..|]. exact Hm. }
  destruct (summarize st f) as [x|] eqn:Hx; [|done]. cbn. unfold summarize in Hx. destruct st_Summarize as [sum|] eqn:Hsum.
  - destruct (st_Summarize_matches sum st _ x Hok Hsum Hx) as (l & Hl & ->). exists l. split; [|by left].
    eapply Forall_impl; [exact Hl|]. cbn. apply Hin.
  - set (f1 := if _ : bool then _ else _) in Hx. destruct (st_Query st f1) as [l|] eqn:Hq; simplify_eq/=.
    exists l. split; [|destruct ((0 <? qf_Limit f1) && _); auto]. pose proof (st_Query_matches st f1 l Hok Hq) as Hm.
    eapply Forall_impl; [exact Hm|]. cbn. intros a Ha. subst f1. case_match; [by apply (Hin summaryFallbackCap)|].
    by apply (scope_filters sc f0 f).
Qed.

(** Claim C4. A scoped token sees its namespaces only. When a request is
    dispatched to the alert list, the CEF export or the summary with a scope
    that names its namespaces (not the wildcard, not the single empty name),
    then whatever query it makes, with or without a namespace of its own, the
    answer is an error or tells only about alerts of namespaces the scope
    allows: listed, exported or counted. This holds for every store that
    keeps the laws of the store interface, the native summary included. *)
Theorem scope_confines_alerts s st e r h sc :
  confined sc -> sv_alertStore s = Some st -> st_ok st ->
  h ∈ [HAlerts; HExportCEF; HSummary] -> route s r = Dispatched h (Some sc) ->
  exists hs code b, ServeHTTP s e r = (s, [], (hs, (code, b))) /\ body_in_scope sc b.
Proof.
  intros Hc Hs Hok Hh Hr. unfold ServeHTTP. rewrite Hr.
  rewrite !elem_of_cons, elem_of_nil in Hh. destruct Hh as [->|[->|[->|[]]]]; cbn [run_handler].
  - pose proof (scoped_query_in_scope s st e r sc (fun l => (200, BAlerts l)) Hc Hs Hok (fun l Hl => Hl)) as Hb.
    fold (handleAlerts s e r (Some sc)) in Hb. destruct (handleAlerts s e r (Some sc)) as [code b]. by eexists _, code, b.
  - assert (forall l, Forall (in_scope sc) l -> body_in_scope sc (200, BText (export_lines l)).2) as Hx by (intros l Hl; by exists l).
    pose proof (scoped_query_in_scope s st e r sc _ Hc Hs Hok Hx) as Hb.
    fold (handleExportCEF s e r (Some sc)) in Hb. destruct (handleExportCEF s e r (Some sc)) as [code b]. by eexists _, code, b.
  - pose proof (summary_in_scope s st e r sc Hc Hs Hok) as Hb. destruct (handleSummary s e r (Some sc)) as [code b]. by eexists _, code, b.
Qed.
End confinement.
End access.

(** ** The in-memory store keeps the laws *)
#[export] Instance MemoryStore_store `{GoLib} : AlertStore MemoryStore := {|
  st_Query s f := Some (MemStore.Query ToLower s f);
  st_QueryByID := MemStore.QueryByID;
  st_Healthy _ := true;
  st_Summarize := Some (fun s f => Some (Summarize ToLower s f)) |}.

#[export] Program Instance MemoryStore_laws `{GoLib} : StoreLaws MemoryStore ToLower := {| st_ok s := ms_inv s /\ ms_sorted s |}.
Next Obligation.
  intros ? s f l [Hi Hso] [= <-]. destruct (Query_spec ToLower s f Hi Hso) as (l & -> & _ & Hp & _).
  apply Forall_forall. intros a Ha. assert (a ∈ l) as Hin.
  { assert (forall n (l' : list Alert), (a ∈ drop n l' -> a ∈ l') /\ (a ∈ take n l' -> a ∈ l')) as Hsub.
    { intros n l'. rewrite <- (take_drop n l') at 2 4. rewrite !elem_of_app. auto. }
    unfold page in Ha. case_match; [apply (proj2 (Hsub _ _)) in Ha|]; by apply (proj1 (Hsub _ _)) in Ha. }
  rewrite Hp in Hin. by apply list_elem_of_filter in Hin as [? _].
Qed.
Next Obligation.
  intros ? sum s f x [Hi Hso] [= <-] [= <-]. exists (hits ToLower s f (time_window s f)). split.
  - unfold hits. apply Forall_forall. intros a Ha. by apply list_elem_of_filter in Ha as [? _].
  - rewrite SummarizeAlerts_fold. unfold Summarize. f_equal. apply summarize_hits. intros e He Em.
    assert (e ∈ ms_byTime s) as He'.
    { unfold time_window in He. apply elem_of_take in He as (i & Hi' & _). rewrite lookup_drop in Hi'. by eapply list_elem_of_lookup_2. }
    apply matches_cached in Em as [Hpre _]. destruct (alert_at_entry s e Hi He') as [_ E]. by rewrite <- E in Hpre.
Qed.

(** ** Generated exceptions *)
Section tuning.
Context `{GoLib} `{!HttpLib} {St : Type} `{!AlertStore St}.
Implicit Types (s : Server St) (r : request) (q : Rule).

(** What the loader asks of an overlay entry. *)
Definition entry_ok (o : RuleTuningOverlay) : Prop :=
  ov_RuleID o <> ""%string /\ ov_Exceptions o <> [] /\
  Forall (fun x => ex_Name x <> ""%string /\ empty_group (ex_ConditionGroup x) = false) (ov_Exceptions o).

Lemma overlay_entry_ok i o : overlay_entry_error i o = None <-> entry_ok o.
Proof.
  unfold overlay_entry_error, entry_ok. case_bool_decide as Hid; [naive_solver|].
  assert (forall j x, overlay_exception_error (ov_RuleID o) j x = None <-> ex_Name x <> ""%string /\ empty_group (ex_ConditionGroup x) = false) as Hx.
  { intros j x. unfold overlay_exception_error. case_bool_decide; [naive_solver|]. destruct (empty_group _); naive_solver. }
  destruct (ov_Exceptions o) as [|x l] eqn:El; [naive_solver|]. rewrite (first_error_at_None _ _ 0 (x :: l) Hx). naive_solver.
Qed.

Lemma LoadTuningOverlay_ok path read o : path <> ""%string ->
  LoadTuningOverlay path read = Ok (Some o) <-> read path = FileOverlay o /\ Forall entry_ok o.
Proof.
  intros Hp. unfold LoadTuningOverlay. rewrite bool_decide_eq_false_2 by done. pose proof (fun l => first_error_at_None _ entry_ok 0 l overlay_entry_ok) as He.
  destruct (read path) as [| | |l]; [naive_solver..|]. specialize (He l). destruct (first_error_at _ _ _); [naive_solver|].
  assert (Forall entry_ok l) by by apply He. naive_solver.
Qed.

Lemma add_exception_ok id exc l : id <> ""%string -> ex_Name exc <> ""%string -> empty_group (ex_ConditionGroup exc) = false ->
  Forall entry_ok l -> Forall entry_ok (add_exception id exc l).
Proof.
  intros Hid Hn Hg. induction 1 as [|o l (Ho & Hne & Hx) Hl IH]; cbn [add_exception].
  - repeat (apply Forall_cons; split); [|by apply Forall_nil]. split_and!; [done..|]. by apply Forall_singleton.
  - case_decide as He; apply Forall_cons; [|by split].
    split; [|done]. split_and!; [done|cbn; by intros [_ ?]%app_nil|]. apply Forall_app. split; [done|]. by apply Forall_singleton.
Qed.

(** The exceptions of the named rule grow by one, the others stay. *)
Lemma add_exception_tuned id exc l id' :
  tuned_exceptions (add_exception id exc l) id' ≡ₚ tuned_exceptions l id' ++ (if decide (id' = id) then [exc] else []).
Proof.
  unfold tuned_exceptions. induction l as [|o l IH]; cbn [add_exception].
  - case_decide as He; [subst; rewrite filter_cons_True by done|rewrite filter_cons_False by (cbn; congruence)]; done.
  - destruct (decide (ov_RuleID o = id)) as [Ho|Ho].
    + subst id. destruct (decide (ov_RuleID o = id')) as [He|He].
      * rewrite !filter_cons_True by done. rewrite decide_True by done. cbn [map concat ov_Exceptions]. solve_Permutation.
      * rewrite !filter_cons_False by done. rewrite decide_False by congruence. by rewrite app_nil_r.
    + destruct (decide (ov_RuleID o = id')) as [He|He].
      * rewrite !filter_cons_True by done. cbn [map concat]. by rewrite IH, app_assoc.
      * by rewrite !filter_cons_False.
Qed.

Lemma add_exception_holds id exc l ev q :
  rule_holds ev (tuned (add_exception id exc l) q) <->
  rule_holds ev (tuned l q) /\ (r_ID q = id -> ~ either_holds ev (ex_Condition exc) (ex_ConditionGroup exc)).
Proof.
  unfold rule_holds. cbn. rewrite !Forall_app, add_exception_tuned, Forall_app. case_decide as Hq; rewrite ?Forall_singleton; [tauto|].
  split; [tauto|]. by intros [(? & ? & ?) _].
Qed.

Lemma persist_ok s e id exc s' eff : persistTuningException s e id exc = (s', eff, inr true) ->
  exists o, LoadTuningOverlay (sv_localTuningPath s) (fun _ => sv_overlay s) = Ok o /\ sv_localTuningPath s <> ""%string /\
    (exists unknown, (ApplyTuningOverlay (getRules s) (Some (add_exception id exc (default [] o)))).2 = Ok unknown) /\
    s' = write_overlay (FileOverlay (add_exception id exc (default [] o))) s /\
    eff = WriteOverlay (add_exception id exc (default [] o)) :: (if sv_rulesReload s then [ReloadRules] else []).
Proof.
  unfold persistTuningException. case_decide as Hp; [done|]. destruct (LoadTuningOverlay _ _) as [o| |]; [|done..].
  destruct (ApplyTuningOverlay _ _).2 as [u| |] eqn:Ha; [|done..]. destruct (en_writeErr e); [done|]. intros; simplify_eq. exists o.
  split_and!; try done. by exists u.
Qed.

Lemma buildException_ok req t exc : tr_Name req <> ""%string -> buildException req t = Some exc ->
  ex_Name exc <> ""%string /\ empty_group (ex_ConditionGroup exc) = false.
Proof. unfold buildException. intros Hn. destruct (commFieldForEventType t); [|done]. cbn. case_match; intros; by simplify_eq/=. Qed.

End tuning.

(** ** Gossip behind the token check *)

(** The HTTP request of a gossip push: only the content type and the shared
    secret are set. *)
Definition http_push (q : Gossip.Node.request) : request :=
  mkHTTP (Gossip.Node.rq_Method q) (txt (Gossip.Node.rq_Path q)) (txt (Gossip.Node.rq_Path q)) []
    (("Content-Type", "application/json") ::
     (if decide (Gossip.Node.rq_Secret q = ""%string) then [] else [("X-Gossip-Secret", Gossip.Node.rq_Secret q)]))%string
    (default [] (Gossip.Node.rq_Body q)).

(** A server with a token guard refuses every gossip push before its gossip
    handler sees it, whatever secret it carries: the peers never agree. *)
Theorem gossip_push_rejected `{GoLib} `{!HttpLib} {St : Type} `{!AlertStore St} (s : Server St) e l q :
  guard_tokens (sv_guard s) = Some l ->
  Gossip.Node.rq_Path q = Gossip.Node.gossipPath \/ Gossip.Node.rq_Path q = Gossip.Node.gossipAmplPath ->
  exists hs msg, ServeHTTP s e (http_push q) = (s, [], (hs, (401, BError msg))).
Proof.
  intros Hg Hp. unfold ServeHTTP.
  assert (exists msg, route s (http_push q) = Answered 401 (BError msg)) as [msg ->]; [|by eexists _, msg].
  unfold route. rewrite (guard_decision_tokens _ _ _ Hg).
  assert (extractBearerToken (http_push q) = None) as Ht.
  { unfold extractBearerToken. rewrite decide_True; [done|]. unfold Get, http_push. cbn [hr_Header].
    by destruct (decide (Gossip.Node.rq_Secret q = ""%string)). }
  assert (hr_Path (http_push q) = txt Gossip.Node.gossipPath \/ hr_Path (http_push q) = txt Gossip.Node.gossipAmplPath) as Hpath
    by (destruct Hp as [E|E]; cbn; rewrite E; auto).
  unfold corsMiddleware, MultiTenantRBACMiddleware. rewrite Ht.
  destruct Hpath as [-> | ->]; cbn; by eexists.
Qed.

(** ** A server with two tenants *)
#[local] Existing Instance sample_lib.
Definition sample_http : HttpLib := {|
  ParseDuration s := option_map (Z.mul Second) (decimal s);
  decode_feedback _ := None;
  decode_tuning _ := Some ("r1", "noise", "cron", "", true)%string |}.
#[local] Existing Instance sample_http.

Definition tenant_alert (id ns : gostring) (ts : Z) : Alert :=
  mkAlert id ts "r1" "" SeverityWarning 7 "sh" "m" "" "" None
    (mkEnrichmentInfo "" ns "" "" ∅ ∅ "" "" "" "") empty_event [] "" "" false [] 0 zero_time zero_time "".
Definition two_tenants : MemoryStore :=
  match StoreBatch isort [tenant_alert "a1" "team-a" 10; tenant_alert "b1" "team-b" 20] 0 (newMemoryStore 10) with
  | Ok s => s | _ => newMemoryStore 10 end.
Lemma two_tenants_ok : ms_inv two_tenants /\ ms_sorted two_tenants.
Proof.
  assert (ms_reach isort 10 two_tenants) as Hr.
  { apply (mr_batch isort 10 (newMemoryStore 10) [tenant_alert "a1" "team-a" 10; tenant_alert "b1" "team-b" 20] 0); [constructor | vm_compute; reflexivity]. }
  by destruct (ms_reach_inv isort 10 two_tenants Hr) as (? & ? & _).
Qed.

Definition noisy_rule : Rule :=
  mkRule _ "r1" "shell" "" EventSyscall false (condition "comm" "equals" ["sh"]%string) None SeverityWarning "alert" [] [] "" None float_1 false.
Definition tenant_server : Server MemoryStore :=
  SetRulesReloadHandler true (SetRulesProvider (Some [noisy_rule]) (SetLocalTuningPath "tuning.yaml" (SetAlertStore (Some two_tenants)
    (NewServerWithMultiTenant "" "" false false [mkToken "ta" RoleViewer ["team-a"]%string] "" "root" true 0 FileMissing)))).
Definition ask (method path token : gostring) : request :=
  mkHTTP method (txt path) (txt path) [] [("Authorization", "Bearer " +:+ token)]%string [].
Definition quiet : env := mkEnv (fun _ => 100) None None None (fun m => (map_to_list m).*2) map_to_list.


(** How the router disposes of some requests. *)
Lemma routed_list : route tenant_server (ask "GET" "/api/v1/alerts" "ta") = Dispatched HAlerts (Some (mkScope RoleViewer ["team-a"]%string)).
Proof. by vm_compute. Qed.
Lemma routed_dots : route tenant_server (ask "GET" "/ui/../api/v1/alerts" "nobody") = Answered 301 (BRedirect (txt "/api/v1/alerts")).
Proof. by vm_compute. Qed.
Lemma routed_reload : route tenant_server (ask "POST" "/api/v1/rules/reload" "root") = Dispatched HRulesReload (Some (mkScope RoleAdmin [])).
Proof. by vm_compute. Qed.
Lemma routed_id : route tenant_server (ask "GET" "/api/v1/alerts/b1" "ta") = Dispatched HAlertPath (Some (mkScope RoleViewer ["team-a"]%string)).
Proof. by vm_compute. Qed.
Lemma served_reload : ServeHTTP tenant_server quiet (ask "POST" "/api/v1/rules/reload" "root") = (tenant_server, [ReloadRules], ([], (202, BReload))).
Proof. unfold ServeHTTP. rewrite routed_reload. reflexivity. Qed.
Lemma path_ok_ask method path token : path ∈ ["/api/v1/alerts"; "/api/v1/rules/reload"]%string -> path_ok (ask method path token).
Proof.
  rewrite !elem_of_cons, elem_of_nil. intros [->|[->|[]]]; (split; [by vm_compute|right; by eexists]).
Qed.

Lemma requests_authorised_witness :
  (exists sc, Some (mkScope RoleViewer ["team-a"]%string) = Some sc /\
    authorised [mkToken "root" RoleAdmin []; mkToken "ta" RoleViewer ["team-a"]%string] (ask "GET" "/api/v1/alerts" "ta") sc) /\
  exists sc, authorised [mkToken "root" RoleAdmin []; mkToken "ta" RoleViewer ["team-a"]%string] (ask "POST" "/api/v1/rules/reload" "root") sc /\
    ts_Role sc = RoleAdmin.
Proof.
  split.
  - refine (proj1 (requests_authorised tenant_server quiet (ask "GET" "/api/v1/alerts" "ta") _ (path_ok_ask _ _ _ _) _) HAlerts _ routed_list _);
      [by left|reflexivity|reflexivity].
  - refine (proj2 (requests_authorised tenant_server quiet (ask "POST" "/api/v1/rules/reload" "root") _ (path_ok_ask _ _ _ _) _) tenant_server _ _ served_reload _);
      [by right; left|reflexivity|intros Hx; apply (f_equal snd) in Hx; discriminate].
Defined.

Lemma listed_alerts : handleAlerts tenant_server quiet (ask "GET" "/api/v1/alerts" "ta") (Some (mkScope RoleViewer ["team-a"]%string)) =
  (200, BAlerts [tenant_alert "a1" "team-a" 10]).
Proof. by vm_compute. Qed.

Lemma scope_confines_alerts_witness :
  exists hs code b, ServeHTTP tenant_server quiet (ask "GET" "/api/v1/alerts" "ta") = (tenant_server, [], (hs, (code, b))) /\
    body_in_scope (mkScope RoleViewer ["team-a"]%string) b.
Proof.
  apply (scope_confines_alerts tenant_server two_tenants quiet (ask "GET" "/api/v1/alerts" "ta") HAlerts (mkScope RoleViewer ["team-a"]%string));
    [|reflexivity|exact two_tenants_ok|by left|exact routed_list].
  split; [discriminate|]. split; [|discriminate]. intros Hw. apply list_elem_of_singleton in Hw. discriminate.
Defined.

Lemma alert_get_pure `{GoLib} `{!HttpLib} {St : Type} `{!AlertStore St} (s : Server St) e r :
  hr_Method r = "GET"%string -> (handleAlertPath s e r).1 = (s, []).
Proof.
  intros Hm. unfold handleAlertPath. rewrite !Hm. rewrite (bool_decide_eq_false_2 ("GET"%string = "POST"%string)) by done. cbn [andb].
  by repeat case_match.
Qed.

(** The endpoints that take an identifier do not look at the scope: the same
    token reads an alert of the other tenant. *)
Lemma cross_tenant_read :
  exists hs, ServeHTTP tenant_server quiet (ask "GET" "/api/v1/alerts/b1" "ta") = (tenant_server, [], (hs, (200, BAlert (tenant_alert "b1" "team-b" 20)))) /\
    AllowsNamespace (mkScope RoleViewer ["team-a"]%string) "team-b" = false.
Proof.
  eexists. split; [|done]. unfold ServeHTTP. rewrite routed_id. cbn [run_handler].
  pose proof (alert_get_pure tenant_server quiet (ask "GET" "/api/v1/alerts/b1" "ta") eq_refl) as H1.
  assert ((handleAlertPath tenant_server quiet (ask "GET" "/api/v1/alerts/b1" "ta")).2 = (200, BAlert (tenant_alert "b1" "team-b" 20))) as H2 by by vm_compute.
  destruct (handleAlertPath _ _ _) as [[s' eff] x]. cbn in H1, H2. by simplify_eq.
Qed.

(** A token for several namespaces lists the incidents of all of them. *)
Lemma incidents_unscoped (t : IncidentTracker) :
  let s := SetIncidentTracker (Some t) tenant_server in
  handleIncidents s quiet (ask "GET" "/api/v1/incidents" "tb") (Some (mkScope RoleViewer ["team-a"; "team-c"]%string)) =
  (200, BIncidents (Incidents.GetAll map_to_list "" "" 0 100 t)).
Proof. done. Qed.

Definition saved_exception : RuleException := mkException "noise" (condition "comm" "equals" ["cron"]%string) None.
Definition saved_overlay : list RuleTuningOverlay := [mkOverlay "r1" [saved_exception]].
Definition save_request : request := ask "POST" "/api/v1/tuning/exceptions" "root".
Lemma exception_saved : (handleTuningExceptions tenant_server quiet save_request (Some (mkScope RoleAdmin []))).2 = (200, BTuning saved_overlay true).
Proof. by vm_compute. Qed.

