(* ===== verification/Cardinality.v ===== *)
(** * Bounding the series of a metric

    Models [CardinalityLimiter] of src/internal/exporter/cardinality.go and the
    labelled counters of src/internal/exporter/prometheus.go that use it: label
    combinations are admitted up to a limit, after which the labels at the
    given positions are replaced by "other". The read under the shared lock
    and the one under the exclusive lock are one step here: nothing is removed
    between them. *)
From Stdlib Require Import Ascii.
From stdpp Require Import fin_maps.
From S2P Require Import Prelude GoBytes GoText HttpMux Types.

Record CardinalityLimiter := mkLimiter { cl_series : gset text; cl_maxSeries : Z }.
Definition NewCardinalityLimiter (maxSeries : Z) : CardinalityLimiter :=
  mkLimiter ∅ (if maxSeries <=? 0 then 1000 else maxSeries).

Definition pipe_char : ascii := "|"%char.
(** [strings.Join(labels, "|")] *)
Definition series_key (labels : list text) : text := join_with [pipe_char] labels.
Definition collapse (labels : list text) (labelKeys : list Z) : list text :=
  foldl (fun l k => if (0 <=? k) && (k <? Z.of_nat (length l)) then <[Z.to_nat k := txt "other"]> l else l) labels labelKeys.

Definition Normalize (labels : list text) (labelKeys : list Z) (cl : CardinalityLimiter) : CardinalityLimiter * list text :=
  let key := series_key labels in
  if decide (key ∈ cl_series cl) then (cl, labels) else
  let labels := if cl_maxSeries cl <=? Z.of_nat (size (cl_series cl)) then collapse labels labelKeys else labels in
  (mkLimiter ({[series_key labels]} ∪ cl_series cl) (cl_maxSeries cl), labels).

Definition Size (cl : CardinalityLimiter) : Z := Z.of_nat (size (cl_series cl)).

(** The calls of one metric: the label lists that were used. *)
Fixpoint normalize_all (calls : list (list text)) (labelKeys : list Z) (cl : CardinalityLimiter) : CardinalityLimiter * list (list text) :=
  match calls with
  | [] => (cl, [])
  | labels :: calls =>
      let '(cl, l) := Normalize labels labelKeys cl in
      let '(cl, ls) := normalize_all calls labelKeys cl in
      (cl, l :: ls)
  end.

(** ** The counters *)

(** A counter vector: a value per label list, behind its limiter. *)
Record CounterVec := mkCounter { cv_limiter : CardinalityLimiter; cv_values : gmap (list text) Z }.
Definition eventsTotal : CounterVec := mkCounter (NewCardinalityLimiter 5000) ∅.
Definition alertsTotal : CounterVec := mkCounter (NewCardinalityLimiter 10000) ∅.

Definition count_series (labels : list text) (labelKeys : list Z) (c : CounterVec) : CounterVec :=
  let '(cl, l) := Normalize labels labelKeys (cv_limiter c) in
  mkCounter cl (<[l := default 0 (cv_values c !! l) + 1]> (cv_values c)).

Definition RecordEventWithLabels (eventType podName namespace node : gostring) : CounterVec -> CounterVec :=
  count_series [txt eventType; txt podName; txt namespace; txt node] [1; 2; 3].
Definition RecordAlert (ruleID severity namespace podName node : gostring) : CounterVec -> CounterVec :=
  count_series [txt ruleID; txt severity; txt namespace; txt podName; txt node] [2; 3; 4].

Definition EventTypeLabel (t : Z) : gostring :=
  if bool_decide (t ∈ [EventTCPConnect; EventNetClose]) then "network"%string
  else if bool_decide (t ∈ [EventSyscall; EventFileAccess; EventTLS; EventDNS; EventPrivesc; EventKmodLoad; EventCgroupEsc; EventGPU;
    EventLSMAudit; EventSequence; EventCloudAudit; EventIOUring; EventBPFProgram]) then EventType_String t
  else "other"%string.

(** ** Keys determine labels without pipes *)
Definition good_labels (n : nat) (l : list text) : Prop := length l = n /\ Forall (fun s => pipe_char ∉ s) l.

Lemma join_inj l l' : length l = length l' -> Forall (fun s => pipe_char ∉ s) l -> Forall (fun s => pipe_char ∉ s) l' ->
  series_key l = series_key l' -> l = l'.
Proof.
  unfold series_key. revert l'. induction l as [|s l IH]; intros [|s' l'] Hl Hp Hp'; try done.
  apply Forall_cons in Hp as [Hs Hp], Hp' as [Hs' Hp'].
  assert (forall (a b x y : text), pipe_char ∉ a -> pipe_char ∉ b -> a ++ pipe_char :: x = b ++ pipe_char :: y -> a = b /\ x = y) as Hcut.
  { induction a as [|c a IHa]; intros [|d b] x y Ha Hb He; simplify_eq/=; [done|set_solver..|].
    destruct (IHa b x y) as [-> ->]; set_solver. }
  destruct l as [|t l], l' as [|t' l']; try done; [cbn; by intros ->|].
  change (join_with [pipe_char] (s :: t :: l)) with (s ++ pipe_char :: join_with [pipe_char] (t :: l)).
  change (join_with [pipe_char] (s' :: t' :: l')) with (s' ++ pipe_char :: join_with [pipe_char] (t' :: l')).
  intros [-> He]%Hcut; [|done..]. f_equal. apply IH; [cbn in *; lia|done..].
Qed.

Lemma collapse_good n l ks : good_labels n l -> good_labels n (collapse l ks).
Proof.
  unfold collapse. revert l. induction ks as [|k ks IH]; intros l [Hl Hp]; [done|]. cbn [foldl]. apply IH. case_match; [|done].
  split; [by rewrite length_insert|]. apply Forall_insert; [done|]. by apply (bool_decide_unpack (_ ∉ _)).
Qed.

(** ** The bound *)

(** [A]: the lists admitted as they are; [C]: the collapsed ones. *)
Record limiter_inv (n : nat) (cl : CardinalityLimiter) (A C : gset (list text)) : Prop := {
  li_keys : forall k, k ∈ cl_series cl -> exists l, l ∈ A ∪ C /\ series_key l = k;
  li_good : forall l, l ∈ A ∪ C -> good_labels n l;
  li_admitted : forall l, l ∈ A -> series_key l ∈ cl_series cl;
  li_bound : Z.of_nat (size A) <= cl_maxSeries cl }.

Lemma good_inj n l l' : good_labels n l -> good_labels n l' -> series_key l = series_key l' -> l = l'.
Proof. intros [? ?] [? ?]. apply join_inj; congruence. Qed.

Lemma admitted_size n cl A C : limiter_inv n cl A C -> (size A <= size (cl_series cl))%nat.
Proof.
  intros [Hk Hg Ha _].
  assert (NoDup (series_key <$> elements A)) as Hnd.
  { apply NoDup_fmap_2_strong; [|apply NoDup_elements]. intros l l' Hl%elem_of_elements Hl'%elem_of_elements.
    apply (good_inj n); apply Hg; by apply elem_of_union_l. }
  change (size A) with (length (elements A)). rewrite <- (length_fmap series_key (elements A)), <- (size_list_to_set (C := gset text) _ Hnd).
  apply subseteq_size. intros k Hkey. apply elem_of_list_to_set, list_elem_of_fmap in Hkey as (l & -> & Hl%elem_of_elements). by apply Ha.
Qed.

Lemma Normalize_inv n ks cl A C labels cl' out : limiter_inv n cl A C -> good_labels n labels ->
  Normalize labels ks cl = (cl', out) ->
  exists A' C', limiter_inv n cl' A' C' /\ A ⊆ A' /\ C ⊆ C' /\ C' ⊆ {[collapse labels ks]} ∪ C /\ out ∈ A' ∪ C' /\ cl_maxSeries cl' = cl_maxSeries cl.
Proof.
  intros Hinv Hgood. pose proof (admitted_size _ _ _ _ Hinv) as Hsz. destruct Hinv as [Hk Hg Ha Hb].
  unfold Normalize. case_decide as Hin.
  { intros [= <- <-]. exists A, C. split; [done|]. destruct (Hk _ Hin) as (l & Hl & He).
    rewrite (good_inj n labels l) by (try done; by apply Hg). set_solver. }
  destruct (Z.leb_spec (cl_maxSeries cl) (Z.of_nat (size (cl_series cl)))) as [Hfull|Hroom]; intros [= <- <-].
  - exists A, ({[collapse labels ks]} ∪ C). split_and!; [|set_solver..]. split; cbn [cl_series cl_maxSeries].
    + intros k [->%elem_of_singleton|Hks]%elem_of_union; [exists (collapse labels ks); set_solver|].
      destruct (Hk k Hks) as (l & Hl & He). exists l. set_solver.
    + intros l Hl. destruct (decide (l = collapse labels ks)) as [->|]; [by apply collapse_good|]. apply Hg. set_solver.
    + intros l Hl%Ha. set_solver.
    + done.
  - exists ({[labels]} ∪ A), C. split_and!; [|set_solver..]. split; cbn [cl_series cl_maxSeries].
    + intros k [->%elem_of_singleton|Hks]%elem_of_union; [exists labels; set_solver|].
      destruct (Hk k Hks) as (l & Hl & He). exists l. set_solver.
    + intros l Hl. destruct (decide (l = labels)) as [->|]; [done|]. apply Hg. set_solver.
    + intros l [->%elem_of_singleton|Hl%Ha]%elem_of_union; set_solver.
    + rewrite size_union_alt. pose proof (subseteq_size (A ∖ {[labels]}) A ltac:(set_solver)). rewrite size_singleton. lia.
Qed.

Lemma normalize_all_inv n ks calls : forall cl A C cl' outs, limiter_inv n cl A C -> Forall (good_labels n) calls ->
  normalize_all calls ks cl = (cl', outs) ->
  exists A' C', A ⊆ A' /\ C ⊆ C' /\ C' ⊆ list_to_set ((fun l => collapse l ks) <$> calls) ∪ C /\ Forall (fun l => l ∈ A' ∪ C') outs /\
    Z.of_nat (size A') <= cl_maxSeries cl.
Proof.
  induction calls as [|labels calls IH]; intros cl A C cl' outs Hinv Hg; cbn [normalize_all].
  { intros; simplify_eq. exists A, C. split_and!; [set_solver..|by apply Forall_nil|apply Hinv]. }
  apply Forall_cons in Hg as [Hl Hg]. destruct (Normalize labels ks cl) as [cl1 out] eqn:Hn.
  destruct (normalize_all calls ks cl1) as [cl2 outs2] eqn:Hr. intros; simplify_eq.
  destruct (Normalize_inv _ _ _ _ _ _ _ _ Hinv Hl Hn) as (A1 & C1 & Hinv1 & HA & HC & HC' & Hout & Hm).
  destruct (IH cl1 A1 C1 cl' outs2 Hinv1 Hg Hr) as (A2 & C2 & HA2 & HC2 & HC2' & Houts & Hb).
  exists A2, C2. rewrite fmap_cons, list_to_set_cons. split_and!; [set_solver..| |congruence]. apply Forall_cons. split; [set_solver|done].
Qed.


Definition demo_calls : list (list text) :=
  map (fun p => [txt "r1"; txt p]) ["p1"; "p2"; "p3"; "p4"; "p5"]%string.

(** Collapsing loses no count: every call adds one to exactly one series. *)
Lemma count_series_total labels ks c :
  map_fold (fun _ n acc => n + acc) 0 (cv_values (count_series labels ks c)) = map_fold (fun _ n acc => n + acc) 0 (cv_values c) + 1.
Proof.
  unfold count_series. destruct (Normalize labels ks (cv_limiter c)) as [cl l]. cbn [cv_values].
  assert (forall (m : gmap (list text) Z) k n, m !! k = None -> map_fold (fun _ x acc => x + acc) 0 (<[k := n]> m) = n + map_fold (fun _ x acc => x + acc) 0 m) as Hf.
  { intros m k n Hk. rewrite map_fold_insert_L; [done| |done]. intros. lia. }
  destruct (cv_values c !! l) as [x|] eqn:Hl; cbn [default].
  - rewrite <- insert_delete_eq, Hf by by rewrite lookup_delete_eq.
    rewrite <- (insert_delete_id (cv_values c) l x) at 2 by done. rewrite Hf by by rewrite lookup_delete_eq. cbn. lia.
  - rewrite Hf by done. cbn. lia.
Qed.

(** Plaintext HTTP events are counted as "other". *)
Lemma http_event_label : EventTypeLabel EventHTTPPlaintext = "other"%string /\ EventType_String EventHTTPPlaintext <> "other"%string.
Proof. by vm_compute. Qed.

(** The key does not separate labels that hold a pipe: the second list passes
    as seen although it was never admitted. *)
Lemma pipe_collision :
  let cl := (Normalize [txt "a|b"; txt "c"] [1] (NewCardinalityLimiter 1)).1 in
  Normalize [txt "a"; txt "b|c"] [1] cl = (cl, [txt "a"; txt "b|c"]).
Proof. by vm_compute. Qed.
